(* ===== verification/_CoqProject ===== *)
-Q . S2P
Prelude.v
GoStrings.v
Config.v
Events.v
StackPlan.v
StackQueue.v
GitErrors.v
Runtime.v
GitPull.v
Networks.v
SyncRun.v
Outbox.v
OutboxWorker.v
Comparison.v
Deployments.v
DeploymentStore.v
DeploymentInvariant.v
DeploymentService.v
DeploymentLifecycle.v
Pruner.v
DeploymentController.v
TaskSpecs.v
ServiceSpecs.v
Gopipe.v
StackDrift.v
StackReconciler.v
StackReconcilerSafety.v
StackReconcilerCalls.v
TaskFailure.v
Waiter.v
WaiterConvergence.v
Applier.v
ApplierSafety.v
ApplierResults.v
ApplierObligations.v
Deployer.v
DeployerSafety.v
DeployerServices.v
Alerts.v
AlertStore.v
AlertSubscriber.v
AlertLifecycle.v
AlertSafety.v
DriftAlerts.v
ResourceRotation.v
ResourceCleanup.v
ResourceReconciler.v
ResourceSafety.v
GoEncoding.v
DeploymentQueries.v
DeploymentPages.v
GoRunes.v
Hoare.v
NotificationConfig.v
TelegramNotifier.v
AlertNotifications.v
NotificationSafety.v
NotificationLifecycle.v
NotificationRoutes.v
GoPaths.v
ComposeValues.v
ComposeRoundtrips.v
ComposeFile.v
Preparation.v
PreparationSafety.v
Triggers.v
TriggersSafety.v
DeploymentProjection.v
ProjectionSafety.v
Recommendations.v
RecommendationsSafety.v
InitJobs.v
InitJobsSafety.v
