(* ===== verification/Prelude.v ===== *)
(** * swarm-deploy: verification library (root file and prelude)

    swarm-deploy is a GitOps controller for Docker Swarm: it watches a Git repository, plans
    which stacks of the configuration have to be reconciled, deploys their Compose files with
    the Docker Engine API, waits until the services have converged, heals drift, and tells
    subscribers through a durable outbox of events. This library translates the decision
    logic of the Go program under [src/internal] to executable definitions and proves what
    makes it correct. File names below without a directory are files of this library; Go
    paths are relative to [src/internal], with [modules/] left out.

    ** How the parts interact

    A trigger (webhook, interval, startup, a user) puts a task into the one-slot channel of
    the scheduler. Its loop calls the synchronization runner, which pulls Git, plans the
    stacks, reconciles networks, and hands the waiting work to the stack queue. The workers
    of the queue call the stack reconciler, one operation per stack at a time. The reconciler
    loads and prepares the Compose file, asks the deployment controller to execute a changed
    definition, and otherwise compares the live services, prunes, heals and verifies. The
    controller opens an attempt in the deployment tables, runs the pipeline (resources,
    networks, init jobs, applier, waiter), and completes the attempt in one transaction with
    its event. Events reach subscribers through the outbox: the projection onto the GitOps
    runtime, the recommendations, the alerts, and from there the notifications.

    ** Foundations

    - [Prelude] (this file): the scope [go_scope], results ([Result]), the state-and-error
      monad [St] with its inversion tactic [st_inv], transactions that roll back
      ([within_transaction]), time, and lemmas on lists and maps that several files use.
    - [GoStrings], [GoEncoding], [GoPaths], [GoRunes]: the functions of the Go standard
      library that the program calls on strings, numbers, paths and runes, with their laws
      (order of strings, round trips of FormatInt and base64, idempotence of path cleaning).
    - [Hoare]: triples for the monad. [Gopipe]: the pipeline library as a class with laws and
      the instance that runs steps in order.
    - [Config]: the configuration data that the components read.

    ** Triggers, synchronization and the queue

    - [Triggers], [TriggersSafety] ([entrypoints/webhookserver], [config/webhook.go],
      [gitops/controller/scheduler], [gitops/controller/controller.go]): the HTTP handler as a
      function of the request, the authenticators, the scheduler as the step relation
      [sched_step] over its channel, its two flags and the position of its loop. A request is
      accepted exactly with the credentials of a configured method, and one that is
      scheduled is followed by a run.
    - [StackPlan] ([gitops/controller/stackplan]): the order of the stacks of a run.
    - [GitErrors], [GitPull] ([gitops/git/errors.go], [gitops/controller/gitpull]): classes of
      Git failures, diagnostics free of credentials, and the monitor that reports failure and
      recovery in one transaction with its state.
    - [Networks] ([gitops/controller/networkloop]): creation and validation of networks.
    - [StackQueue] ([gitops/controller/stackqueue]): the state under the mutex, an operation
      per locked method, and the workers as the relation [step]. Mutual exclusion, the queue
      invariant, and that the workers drain a started queue.
    - [SyncRun] ([gitops/controller/syncrun], [configstore]): the stages of a run as a step
      relation that interleaves with the workers and a shutdown.
    - [Runtime] ([gitops/model], [gitops/modelstore]): the runtime state, the class
      [GitOpsStore] with its laws, against which GitPull, Networks, SyncRun, StackReconciler
      and DeploymentProjection are written, and its implementation [SqlStore].

    ** Compose files

    - [ComposeValues], [ComposeRoundtrips] ([compose], [shared/dotenv]): environments, labels,
      volumes, ports, networks and files of variables, between a tree of YAML nodes and their
      data; what is encoded decodes again.
    - [ComposeFile] ([compose/file.go], [compose/initjob.go]): the loader.
    - [Preparation], [PreparationSafety] ([gitops/controller/stackloop/preparation]): the image
      policy, environment files, bind mounts, downward variables, the managed label, and the
      rotation, as one pipeline. A prepared definition is effective as it stands, a loaded
      definition prepares unless its images are refused, and preparation is idempotent.
    - [ResourceRotation], [ResourceCleanup] ([stackloop/rotator.go],
      [stackloop/rotated_resource_cleaner.go]): names by content, and the removal of old
      generations. [cleanup_removes_the_obsolete] says what is removed exactly.

    ** Reconciliation of a stack

    - [StackDrift] ([gitops/controller/stackloop/drift]), [Pruner] ([deployments/pruner]).
    - [StackReconciler] with [StackReconcilerCalls] and [StackReconcilerSafety]
      ([gitops/controller/stackloop]): a run of the reconciler over the class
      [StackEnvironment], with its calls recorded in [trace]. Every call of a run is allowed
      by the policies, success is verified, the recorded state is exact, and a failed run
      forgets nothing.

    ** Deployments

    - [Comparison], [Deployments] ([deployments/model], [deployments/completion.go]): data,
      comparison of definitions, and the transition that a completion selects.
    - [DeploymentStore], [DeploymentInvariant] ([deployments/modelstore]): the four tables,
      the constraints of the migrations, every statement that writes, and the invariant.
    - [DeploymentQueries], [DeploymentPages]: pages with cursors, filters and activity. The
      pages of a filter are together its rows, each once, in order.
    - [DeploymentService], [DeploymentLifecycle] ([deployments/service.go]): start, retry,
      completion and interruption of attempts; publication is the class [Publisher].
    - [DeploymentController] ([deployments/controller.go]): execution over the class
      [Executors], with recovery of completions that could not be recorded.
    - [TaskSpecs], [ServiceSpecs] ([swarm/task_spec.go], [deployments/deployer/services]):
      structural comparison of specifications and update generations, class [DockerSDK].
    - [TaskFailure], [Waiter], [WaiterConvergence] ([deployments/deployer/waiter]): what a
      snapshot of a service means, and the wait. Success of a wait is proven by observations,
      a terminal failure is reported, and the wait ends.
    - [Applier], [ApplierSafety], [ApplierResults], [ApplierObligations]
      ([deployments/deployer/services/applier.go]): the writes of Docker over the class
      [ServiceManager]. Only owned services are written, executions of external schedulers
      are kept, and every write that may have been accepted leaves an obligation.
    - [Deployer], [DeployerSafety], [DeployerServices] ([deployments/deployer]): both
      pipelines over the class [DeployComponents]; they compose the applier and the waiter,
      whose theorems their proofs use through [WaiterContract].
    - [ResourceReconciler], [ResourceSafety] ([deployments/deployer/resources],
      [deployments/deployer/networks]): resolution of configs, secrets and networks over the
      classes [ObjectStore] and [NetworkStore]. Objects stay within their stack, and what a
      deployment refers to survives the cleanup.
    - [InitJobs], [InitJobsSafety] ([deployments/deployer/initjob]): one init job over the class
      [JobEnvironment], and the deletion of its service as the relation [sys_step] of callers,
      queues and worker. The outcome of a job is proven by the last list of its tasks, and
      no service stays behind.

    ** Events and their subscribers

    - [Events] ([event/events/types.go]), [Outbox], [OutboxWorker] ([event/outbox],
      [event/dispatcher]): the tables of the outbox, a definition per statement, and the
      worker. Deliveries of a subscription stay in order, are not lost, and a subscriber that
      keeps its state in the database has the effect of exactly one handling.
    - [DeploymentProjection], [ProjectionSafety] ([gitops/deployment]): completions onto the
      runtime; deliveries in any order converge.
    - [Recommendations], [RecommendationsSafety] ([recommendations]): the analyzers, the
      table, and the subscriber that keeps it on the newest deployment of each stack.
    - [Alerts], [AlertStore], [AlertSubscriber], [AlertLifecycle], [AlertSafety], [DriftAlerts]
      ([alertmanagement], [storage/projection.go]): the store with its constraints and its
      limit, the handlers, and the abstract transition function that they refine. Openings
      and resolutions alternate; [DriftAlerts] composes them with the stack reconciler.
    - [NotificationConfig], [TelegramNotifier], [AlertNotifications] with
      [NotificationRoutes], [NotificationSafety], [NotificationLifecycle]
      ([config/notifications.go], [notifications]): routes and destinations, the subscriber
      of a destination over the class [Notifier], and the notifier over [TelegramAPI] and
      [TemplateEngine]. Notifications are not repeated, and who learned of an opening learns
      of the resolution, over histories with failures at every statement, and restarts.

    ** Conventions

    A definition has the name of the Go function or type; a trailing underscore or another
    name avoids a clash. Go errors are constructors of an error type or, where the program
    only passes them on, strings. A database transaction is [within_transaction]: an error
    restores the state. Statements that may fail do so by a function of their number
    ([statementFault], [failing]), so theorems hold for failures at any point. A Go map that
    is ranged over is given with the order of the iteration where the result can depend on
    it. Goroutines are interleavings in a step relation; what a mutex guards is one step.
    Integers are [Z] with their width as a hypothesis or a check ([is_int64]) where overflow
    matters, unsigned ones [N]. Times are nanoseconds, [0] being the zero time of Go. Docker,
    Git, SQLite's choice of rows, HTTP, JSON, hashes, image references and templates are
    parameters or classes; their laws are classes of their own, and the examples at the end
    of the files have instances that satisfy them.

    ** Bounds and fuel

    Three attempts to update a service ([serviceUpdateAttempts]) and to recheck a template
    ([templateMismatchRechecks]), 40 inspections of a created network, at most 100 stored
    alerts ([MaxStoredAlerts]), three temporary failures ([temporaryFailureThreshold]), pages of
    1 to 100 rows (20 by default), Telegram texts of 4096 UTF-16 units, lines of 65536 bytes,
    and a channel of one task are constants of the program. Fuel is only used where the
    recursion is not structural, and a lemma says that it is enough: the wait has the ticks
    that remain before its deadline ([wait_terminates]), the decimal digits of a 64-bit number
    are at most 20, the buckets of an activity ([bucketFuel_enough]), and functions on strings
    use the length of the string, of which every step consumes a byte.

    ** Not modelled, and why

    Generated code (the OpenAPI server, mocks) and the handlers that only translate requests
    to calls of the components; the Docker, Git, HTTP and SQLite clients and the conversion of
    Compose data to the types of the Docker API, which are I/O or third-party data; decoding
    of YAML and JSON documents by their libraries, the strict check of Compose keys by
    reflection over the Go structs, and the preparation of the redacted snapshot with HMAC
    fingerprints; the collection of task logs (an interface of the pipelines); event history,
    assistant, resource views, registry lookup and metrics, on which no decision of the
    modelled parts depends; tracing, logging, constructors and wiring. Loading of the
    configuration is modelled only for the webhook and the notifications. *)
From stdpp Require Export prelude strings gmap sorting.
From Stdlib Require Export ZArith Lia.

#[global] Arguments bool_decide : simpl never.

(** ** Notation scope *)
Declare Scope go_scope.
Delimit Scope go_scope with go.

(** ** Go results and the state-and-error monad

    [Result E A] is the pair [(A, error)] of a Go function whose value is only
    used when the error is nil. [St S E A] is a Go function that mutates a
    state [S]: the state reached is returned on the error path as well. *)
Inductive Result (E A : Type) : Type :=
| Ok (a : A)
| Err (e : E).
Arguments Ok {E A} a.
Arguments Err {E A} e.

Definition is_ok {E A} (r : Result E A) : bool :=
  match r with Ok _ => true | Err _ => false end.

Definition St (S E A : Type) : Type := S → Result E A * S.

Definition st_ret {S E A} (a : A) : St S E A := λ s, (Ok a, s).
Definition st_throw {S E A} (e : E) : St S E A := λ s, (Err e, s).
Definition st_bind {S E A B} (m : St S E A) (f : A → St S E B) : St S E B :=
  λ s, match m s with
       | (Ok a, s') => f a s'
       | (Err e, s') => (Err e, s')
       end.
Definition st_get {S E} : St S E S := λ s, (Ok s, s).
Definition st_put {S E} (s' : S) : St S E unit := λ _, (Ok (), s').
Definition st_modify {S E} (f : S → S) : St S E unit := λ s, (Ok (), f s).
Definition st_lift {S E A} (r : Result E A) : St S E A := λ s, (r, s).

(** [storage.Database.WithinTransaction]: the changes of a failing body are
    rolled back; a nested call joins the transaction that is open. *)
Definition within_transaction {S E A} (m : St S E A) : St S E A :=
  λ s, match m s with
       | (Ok a, s') => (Ok a, s')
       | (Err e, _) => (Err e, s)
       end.

Notation "'let!' x ':=' m 'in' k" := (st_bind m (λ x, k))
  (at level 10, x pattern, m at level 100, k at level 200,
   format "'[v' 'let!'  x  ':='  m  'in' '/' k ']'") : go_scope.
Notation "'do!' m 'in' k" := (st_bind m (λ _, k))
  (at level 10, m at level 100, k at level 200,
   format "'[v' 'do!'  m  'in' '/' k ']'") : go_scope.
Notation "'ensure!' b 'else' e 'in' k" := (if b then k else st_throw e)
  (at level 10, b at level 100, e at level 100, k at level 200,
   format "'[v' 'ensure!'  b  'else'  e  'in' '/' k ']'") : go_scope.

Section StateLemmas.
Context {S E : Type}.

Lemma st_bind_ok {A B} (m : St S E A) (f : A → St S E B) s b s2 :
  st_bind m f s = (Ok b, s2) ↔
  ∃ a s1, m s = (Ok a, s1) ∧ f a s1 = (Ok b, s2).
Proof.
  unfold st_bind. destruct (m s) as [[a|e] s1]; split.
  - intros H. by exists a, s1.
  - intros (a' & s1' & [= -> ->] & ?). done.
  - done.
  - by intros (? & ? & ? & ?).
Qed.

Lemma within_transaction_ok {A} (m : St S E A) s a s' :
  within_transaction m s = (Ok a, s') ↔ m s = (Ok a, s').
Proof.
  unfold within_transaction. destruct (m s) as [[?|?] ?]; split; congruence.
Qed.

Lemma within_transaction_err {A} (m : St S E A) s e s' :
  within_transaction m s = (Err e, s') → s' = s.
Proof. unfold within_transaction. destruct (m s) as [[?|?] ?]; congruence. Qed.

(** A transaction keeps every invariant that its successful runs keep. *)
Lemma within_transaction_inv (I : S → Prop) {A} (m : St S E A) s :
  I s →
  (∀ a s', m s = (Ok a, s') → I s') →
  I (snd (within_transaction m s)).
Proof.
  intros HI Hm. unfold within_transaction.
  destruct (m s) as [[a|e] s'] eqn:Hs; simpl; eauto.
Qed.
End StateLemmas.

(** Splits a successful run of a monadic body into the runs of its parts. *)
Ltac st_inv_step :=
  match goal with
  | H : st_bind _ _ _ = (Ok _, _) |- _ =>
      let a := fresh "a" in let s := fresh "s" in
      let H1 := fresh "Hrun" in
      apply (proj1 (st_bind_ok _ _ _ _ _)) in H as (a & s & H1 & H)
  | H : within_transaction _ _ = (Ok _, _) |- _ =>
      apply (proj1 (within_transaction_ok _ _ _ _)) in H
  | H : st_ret _ _ = (_, _) |- _ => unfold st_ret in H; simplify_eq
  | H : st_get _ = (_, _) |- _ => unfold st_get in H; simplify_eq
  | H : st_put _ _ = (_, _) |- _ => unfold st_put in H; simplify_eq
  | H : st_modify _ _ = (_, _) |- _ => unfold st_modify in H; simplify_eq
  | H : st_lift _ _ = (_, _) |- _ => unfold st_lift in H; simplify_eq
  | H : st_throw _ _ = (Ok _, _) |- _ => unfold st_throw in H; discriminate H
  | H : (if ?b then _ else st_throw _) _ = (Ok _, _) |- _ =>
      destruct b eqn:?; [| unfold st_throw in H; discriminate H]
  | H : (Ok _, _) = (Ok _, _) |- _ => simplify_eq H
  | H : (Err _, _) = (Ok _, _) |- _ => discriminate H
  end.
Ltac st_inv := repeat (st_inv_step; simpl in *).

(** ** Time

    A [time.Time] is an instant in nanoseconds counted from Go's zero time
    (year 1, UTC), so [IsZero] is equality with [0]; [Before], [After] and
    [Equal] are the order of [Z] and [Add] is addition. A [time.Duration] is
    its number of nanoseconds. *)
Abbreviation Time := Z (only parsing).
Abbreviation Duration := Z (only parsing).
Definition time_zero : Time := 0%Z.
Definition is_zero (t : Time) : bool := bool_decide (t = 0%Z).
Definition second : Duration := 1000000000%Z.
Definition minute : Duration := (60 * second)%Z.
Definition hour : Duration := (60 * minute)%Z.
Definition max_int64 : Z := 9223372036854775807%Z.

(** ** Slices *)

(** [slices.Insert(l, i, x)] for [i <= len(l)]. *)
Definition slice_insert {A} (l : list A) (i : nat) (x : A) : list A :=
  take i l ++ x :: drop i l.

(** The number of leading elements that satisfy [p]. *)
Fixpoint prefix_length {A} (p : A → bool) (l : list A) : nat :=
  match l with
  | [] => 0
  | x :: l => if p x then S (prefix_length p l) else 0
  end.

(** [sort.Strings] and [slices.Sort] on strings: bytewise order. *)
Definition sort_strings : list string → list string := merge_sort String.le.

(** [slices.SortStableFunc], with [lt x y] for a negative comparison: the
    stable order is unique, so it is given by insertion. *)
Fixpoint stable_insert {A} (lt : A → A → bool) (x : A) (l : list A) : list A :=
  match l with
  | [] => [x]
  | y :: l' => if lt y x then y :: stable_insert lt x l' else x :: l
  end.
Definition stable_sort {A} (lt : A → A → bool) (l : list A) : list A :=
  foldr (stable_insert lt) [] l.

Section SliceLemmas.
Context {A : Type}.
Implicit Types (l : list A) (p : A → bool).

Lemma elem_of_slice_insert l i x y :
  y ∈ slice_insert l i x ↔ y = x ∨ y ∈ l.
Proof.
  unfold slice_insert. rewrite elem_of_app, elem_of_cons.
  rewrite <- (take_drop i l) at 3. rewrite elem_of_app. naive_solver.
Qed.

Lemma slice_insert_perm l i x : slice_insert l i x ≡ₚ x :: l.
Proof.
  unfold slice_insert. rewrite <- (take_drop i l) at 3.
  by rewrite Permutation_middle.
Qed.

Lemma prefix_length_take p l x :
  x ∈ take (prefix_length p l) l → p x = true.
Proof.
  induction l as [|y l IH]; simpl; [by intros ?%elem_of_nil|].
  destruct (p y) eqn:Hy; simpl; [|by intros ?%elem_of_nil].
  intros [->|?]%elem_of_cons; auto.
Qed.

(** On a list whose [p]-elements all come first, the scan of
    [prefix_length] splits it into the two classes. *)
Lemma prefix_length_split p l1 l2 :
  Forall (λ x, p x = true) l1 → Forall (λ x, p x = false) l2 →
  prefix_length p (l1 ++ l2) = length l1.
Proof.
  intros H1 H2. induction H1 as [|x l1 Hx _ IH]; simpl; [|by rewrite Hx, IH].
  destruct H2 as [|x l2 Hx _]; simpl; [done | by rewrite Hx].
Qed.
End SliceLemmas.

(** [x] stands somewhere in front of [y]. *)
Definition before {A} (l : list A) (x y : A) : Prop :=
  ∃ l1 l2 l3, l = l1 ++ x :: l2 ++ y :: l3.

Section BeforeLemmas.
Context {A : Type}.
Implicit Types (l : list A).

Lemma before_cons l a x y :
  before (a :: l) x y ↔ (a = x ∧ y ∈ l) ∨ before l x y.
Proof.
  unfold before. split.
  - intros ([|b l1] & l2 & l3 & H); simplify_eq/=; [left|right; eauto].
    split; [done|]. rewrite elem_of_app, elem_of_cons. auto.
  - intros [[-> Hy]|(l1 & l2 & l3 & ->)].
    + apply list_elem_of_split in Hy as (l2 & l3 & ->). by exists [], l2, l3.
    + by exists (a :: l1), l2, l3.
Qed.

Lemma before_nil x y : ¬ before (@nil A) x y.
Proof. intros ([|] & l2 & l3 & [=]). Qed.

Lemma before_elem l x y : before l x y → x ∈ l ∧ y ∈ l.
Proof. intros (l1 & l2 & l3 & ->). set_solver. Qed.

Lemma before_app l1 l2 x y :
  before (l1 ++ l2) x y ↔
  before l1 x y ∨ (x ∈ l1 ∧ y ∈ l2) ∨ before l2 x y.
Proof.
  induction l1 as [|a l1 IH]; simpl.
  - pose proof (before_nil x y). set_solver.
  - rewrite !before_cons, IH. set_solver.
Qed.

Lemma before_filter (P : A → Prop) `{!∀ x, Decision (P x)} l x y :
  before (filter P l) x y ↔ before l x y ∧ P x ∧ P y.
Proof.
  induction l as [|a l IH].
  - rewrite filter_nil. pose proof (before_nil x y). tauto.
  - rewrite filter_cons, before_cons.
    destruct (decide (P a)).
    + rewrite before_cons, IH, list_elem_of_filter. naive_solver.
    + rewrite IH. naive_solver.
Qed.

Lemma before_NoDup_irrefl l x : NoDup l → ¬ before l x x.
Proof.
  intros Hnd (l1 & l2 & l3 & ->).
  apply NoDup_app in Hnd as (_ & _ & [Hx _]%NoDup_cons). set_solver.
Qed.

Lemma before_NoDup_asym l x y : NoDup l → before l x y → ¬ before l y x.
Proof.
  induction 1 as [|a l Ha Hnd IH]; [by intros ?%before_nil|].
  rewrite !before_cons. intros [[-> Hy]|Hb] [[-> Hx]|Hb'].
  - done.
  - by apply before_elem in Hb' as [??].
  - by apply before_elem in Hb as [??].
  - by apply IH.
Qed.

Lemma before_total l x y :
  x ∈ l → y ∈ l → x ≠ y → before l x y ∨ before l y x.
Proof.
  induction l as [|a l IH]; [by intros ?%elem_of_nil|].
  rewrite !before_cons, !elem_of_cons. naive_solver.
Qed.
End BeforeLemmas.

Lemma sort_strings_perm l : sort_strings l ≡ₚ l.
Proof. apply merge_sort_Permutation. Qed.
Lemma elem_of_sort_strings l x : x ∈ sort_strings l ↔ x ∈ l.
Proof. by rewrite sort_strings_perm. Qed.
Lemma sort_strings_sorted l : StronglySorted String.le (sort_strings l).
Proof. apply StronglySorted_merge_sort; apply _. Qed.
Lemma sort_strings_NoDup l : NoDup l → NoDup (sort_strings l).
Proof. by rewrite sort_strings_perm. Qed.

Section StableSort.
Context {A : Type} (lt : A → A → bool).

Lemma stable_insert_perm x l : stable_insert lt x l ≡ₚ x :: l.
Proof.
  induction l as [|y l IH]; simpl; [done|].
  destruct (lt y x); [rewrite IH; constructor | done].
Qed.

Lemma stable_sort_perm l : stable_sort lt l ≡ₚ l.
Proof.
  induction l as [|x l IH]; simpl; [done|].
  by rewrite stable_insert_perm, IH.
Qed.

(** Elements that the order does not separate keep their input order. *)
Lemma stable_sort_filter (P : A → Prop) `{!∀ x, Decision (P x)} l :
  (∀ x y, P x → P y → lt x y = false) →
  filter P (stable_sort lt l) = filter P l.
Proof.
  intros HP. induction l as [|x l IH]; simpl; [done|].
  trans (filter P (x :: stable_sort lt l)); [|by rewrite !filter_cons, IH].
  clear IH. induction (stable_sort lt l) as [|y l' IH]; simpl; [done|].
  destruct (lt y x) eqn:Hyx; [|done].
  rewrite (filter_cons P y), IH, !filter_cons.
  destruct (decide (P x)), (decide (P y)); try done.
  rewrite HP in Hyx; done.
Qed.

Hypothesis lt_asym : ∀ x y, lt x y = true → lt y x = false.
Hypothesis lt_cotrans : ∀ x y z, lt x z = true → lt x y = true ∨ lt y z = true.

Lemma stable_insert_sorted x l :
  StronglySorted (λ a b, lt b a = false) l →
  StronglySorted (λ a b, lt b a = false) (stable_insert lt x l).
Proof.
  induction 1 as [|y l Hs IH Hy]; simpl; [repeat constructor|].
  destruct (lt y x) eqn:Hyx.
  - constructor; [done|]. rewrite stable_insert_perm.
    constructor; [by apply lt_asym|done].
  - constructor; [by constructor|]. constructor; [done|].
    eapply Forall_impl; [exact Hy|]. simpl. intros z Hz.
    destruct (lt z x) eqn:Hzx; [|done].
    destruct (lt_cotrans z y x Hzx); congruence.
Qed.

Lemma stable_sort_sorted l :
  StronglySorted (λ a b, lt b a = false) (stable_sort lt l).
Proof.
  induction l as [|x l IH]; simpl; [constructor|]. by apply stable_insert_sorted.
Qed.
End StableSort.

(** A sorted list whose order never puts a non-[P] element in front of a
    [P] element is its [P] part followed by the rest. *)
Lemma sorted_partition {A} (R : A → A → Prop) (P : A → Prop)
    `{!∀ x, Decision (P x)} (l : list A) :
  (∀ x y, ¬ P x → P y → ¬ R x y) →
  StronglySorted R l →
  l = filter P l ++ filter (λ x, ¬ P x) l.
Proof.
  intros HR. induction 1 as [|x l Hs IH Hx]; [done|].
  rewrite !filter_cons. destruct (decide (P x)) as [Px|nPx].
  - rewrite decide_False by tauto. simpl. by f_equal.
  - rewrite decide_True by done.
    assert (filter P l = []) as HnP.
    { apply elem_of_nil_inv. intros y [Py Hy]%list_elem_of_filter.
      rewrite Forall_forall in Hx. by apply (HR x y nPx Py), Hx. }
    rewrite HnP in *. simpl in *. by f_equal.
Qed.

Lemma StronglySorted_filter {A} (R : A → A → Prop) (P : A → Prop)
    `{!∀ x, Decision (P x)} (l : list A) :
  StronglySorted R l → StronglySorted R (filter P l).
Proof.
  induction 1 as [|x l Hs IH Hx]; [constructor|].
  rewrite filter_cons. destruct (decide (P x)); [|done].
  constructor; [done|]. rewrite Forall_forall in *.
  intros y [_ Hy]%list_elem_of_filter. by apply Hx.
Qed.

Lemma StronglySorted_impl_in {A} (R1 R2 : A → A → Prop) (l : list A) :
  (∀ x y, x ∈ l → y ∈ l → R1 x y → R2 x y) →
  StronglySorted R1 l → StronglySorted R2 l.
Proof.
  intros HR Hl. induction Hl as [|x l Hs IH Hx]; [constructor|].
  constructor; [apply IH; intros; apply HR; set_solver|].
  rewrite Forall_forall in *. intros y Hy. apply HR; [set_solver..|by apply Hx].
Qed.

Lemma list_filter_all {A} (P : A → Prop) `{!∀ x, Decision (P x)} (l : list A) :
  Forall P l → filter P l = l.
Proof.
  induction 1 as [|x l Hx _ IH]; [done|]. by rewrite filter_cons, decide_True, IH.
Qed.

Lemma list_filter_none {A} (P : A → Prop) `{!∀ x, Decision (P x)} (l : list A) :
  Forall (λ x, ¬ P x) l → filter P l = [].
Proof.
  induction 1 as [|x l Hx _ IH]; [done|]. by rewrite filter_cons, decide_False, IH.
Qed.

Lemma list_filter_iff_in {A} (P Q : A → Prop) `{!∀ x, Decision (P x), !∀ x, Decision (Q x)}
    (l : list A) :
  (∀ x, x ∈ l → P x ↔ Q x) → filter P l = filter Q l.
Proof.
  induction l as [|x l IH]; intros HPQ; [done|]. rewrite !filter_cons.
  pose proof (HPQ x ltac:(set_solver)).
  destruct (decide (P x)), (decide (Q x)); [f_equal|tauto..|];
    apply IH; intros; apply HPQ; set_solver.
Qed.

(** The first occurrence in [l] of every element that satisfies [P] and is not
    in [seen], in list order. *)
Fixpoint first_occurrences (P : string → Prop) `{!∀ x, Decision (P x)}
    (seen : gset string) (l : list string) : list string :=
  match l with
  | [] => []
  | x :: l =>
      if decide (x ∉ seen ∧ P x) then x :: first_occurrences P ({[x]} ∪ seen) l
      else first_occurrences P seen l
  end.

Section FirstOccurrences.
Context (P : string → Prop) `{!∀ x, Decision (P x)}.

Lemma elem_of_first_occurrences seen l x :
  x ∈ first_occurrences P seen l ↔ x ∈ l ∧ x ∉ seen ∧ P x.
Proof.
  revert seen. induction l as [|y l IH]; intros seen; simpl; [set_solver|].
  case_decide as Hy; rewrite ?elem_of_cons, IH, ?elem_of_cons.
  - destruct (decide (x = y)) as [->|]; set_solver.
  - split; [tauto|]. intros [[->|?] ?]; tauto.
Qed.

Lemma first_occurrences_NoDup seen l : NoDup (first_occurrences P seen l).
Proof.
  revert seen. induction l as [|y l IH]; intros seen; simpl; [constructor|].
  case_decide as Hy; [|done]. constructor; [|done].
  rewrite elem_of_first_occurrences. set_solver.
Qed.

Lemma first_occurrences_NoDup_filter seen l :
  NoDup l → first_occurrences P seen l = filter (λ x, x ∉ seen ∧ P x) l.
Proof.
  intros Hnd. revert seen. induction Hnd as [|y l Hy Hnd IH]; intros seen; [done|].
  simpl. rewrite filter_cons. case_decide; rewrite IH; [|done].
  f_equal. apply list_filter_iff_in. set_solver.
Qed.

Lemma first_occurrences_app seen l1 l2 :
  first_occurrences P seen (l1 ++ l2) =
  first_occurrences P seen l1 ++
  first_occurrences P (list_to_set (first_occurrences P seen l1) ∪ seen) l2.
Proof.
  revert seen. induction l1 as [|y l1 IH]; intros seen; simpl.
  - f_equal. set_solver.
  - case_decide; rewrite IH; [|done]. simpl. f_equal. f_equal. f_equal. set_solver.
Qed.
End FirstOccurrences.

(** Names outside [P] in [seen] make no difference. *)
Lemma first_occurrences_disjoint (P : string → Prop) `{!∀ x, Decision (P x)}
    (seen seen' : gset string) l :
  (∀ x, x ∈ seen' → ¬ P x) →
  first_occurrences P seen l = first_occurrences P (seen' ∪ seen) l.
Proof.
  intros Hs. revert seen. induction l as [|y l IH]; intros seen; simpl; [done|].
  destruct (decide (y ∉ seen ∧ P y)) as [[Hy HP]|Hy].
  - rewrite decide_True by set_solver. f_equal. rewrite IH. f_equal. set_solver.
  - rewrite decide_False by set_solver. apply IH.
Qed.

Lemma StronglySorted_top {A} (l : list A) : StronglySorted (λ _ _, True) l.
Proof. induction l; constructor; [done|by apply Forall_true]. Qed.

(** ** Ranks in a sorted list *)
Section Rank.
Context {A : Type} (lt : A → A → bool).

(** In a sorted list without ties the index of an element is the number of the
    elements that are before it in the order. *)
Lemma sorted_rank l i x :
  StronglySorted (λ a b, lt b a = false) l → NoDup l →
  lt x x = false → (∀ y, y ∈ l → y ≠ x → lt x y = false → lt y x = true) →
  l !! i = Some x → length (filter (λ y, lt y x = true) l) = i.
Proof.
  intros Hs. revert i. induction Hs as [|a l Hs IH Ha]; intros i Hnd Hirr Htot Hi; [done|].
  apply NoDup_cons in Hnd as [Hna Hnd]. destruct i as [|i]; simpl in Hi.
  - inversion Hi; subst x. rewrite filter_cons_False by congruence.
    rewrite list_filter_none; [done|].
    eapply Forall_impl; [exact Ha|]. simpl. intros y ->. done.
  - assert (x ∈ l) as Hx by (by eapply list_elem_of_lookup_2).
    rewrite filter_cons_True.
    + simpl. f_equal. apply IH; [done|done| |done]. intros y Hy. apply Htot. by right.
    + apply Htot; [by left|by intros ->|]. rewrite Forall_forall in Ha. by apply Ha.
Qed.
(** The elements behind an element of the list are those it is before in the order. *)
Lemma sorted_after l i x :
  StronglySorted (λ a b, lt b a = false) l → NoDup l →
  lt x x = false → (∀ y, y ∈ l → y ≠ x → lt y x = false → lt x y = true) →
  l !! i = Some x → filter (λ y, lt x y = true) l = drop (S i) l.
Proof.
  intros Hs. revert i. induction Hs as [|a l Hs IH Ha]; intros i Hnd Hirr Htot Hi; [done|].
  apply NoDup_cons in Hnd as [Hna Hnd]. destruct i as [|i]; simpl in Hi |- *.
  - inversion Hi; subst x. rewrite filter_cons_False by congruence.
    apply list_filter_all, Forall_forall. intros y Hy. rewrite Forall_forall in Ha.
    apply Htot; [by right|by intros ->|by apply Ha].
  - assert (x ∈ l) as Hx by (by eapply list_elem_of_lookup_2).
    rewrite Forall_forall in Ha. rewrite filter_cons_False by (rewrite (Ha x Hx); done).
    apply IH; [done|done| |done]. intros y Hy. apply Htot. by right.
Qed.

(** Filtering commutes with sorting when the order tells the elements apart. *)
Lemma stable_sort_filter_comm (P : A → Prop) `{!∀ x, Decision (P x)} l :
  (∀ x y, lt x y = true → lt y x = false) →
  (∀ x y z, lt x z = true → lt x y = true ∨ lt y z = true) →
  (∀ x y, x ∈ l → y ∈ l → lt x y = false → lt y x = false → x = y) →
  stable_sort lt (filter P l) = filter P (stable_sort lt l).
Proof.
  intros Hasym Hcotrans Htot.
  apply (StronglySorted_unique_strong (λ a b, lt b a = false)).
  - intros x y Hx Hy Hyx Hxy. rewrite stable_sort_perm in Hx.
    apply list_elem_of_filter in Hx as [_ Hx], Hy as [_ Hy]. rewrite stable_sort_perm in Hy. by apply Htot.
  - by apply stable_sort_sorted.
  - apply StronglySorted_filter. by apply stable_sort_sorted.
  - rewrite !stable_sort_perm. done.
Qed.
End Rank.

Lemma map_sublist {A B} (f : A → B) l k : l `sublist_of` k → map f l `sublist_of` map f k.
Proof. induction 1; simpl; by constructor. Qed.
