(* ===== verification/GoStrings.v ===== *)
(** * Go strings

    The functions of Go's [strings] package that the modelled code calls, on
    byte strings. White space is the Unicode [White_Space] set in its UTF-8
    encoding, as [strings.TrimSpace] defines it. *)
From S2P Require Import Prelude.
From Stdlib Require Export Ascii.

(** [strings.HasPrefix] *)
Definition has_prefix (p s : string) : bool := String.prefix p s.

Fixpoint string_drop (n : nat) (s : string) : string :=
  match n, s with
  | S n, String _ s => string_drop n s
  | _, _ => s
  end.

Fixpoint string_take (n : nat) (s : string) : string :=
  match n, s with
  | S n, String c s => String c (string_take n s)
  | _, _ => EmptyString
  end.

(** [strings.TrimPrefix] *)
Definition trim_prefix (p s : string) : string :=
  if has_prefix p s then string_drop (String.length p) s else s.

Fixpoint bytes (l : list N) : string :=
  match l with
  | [] => EmptyString
  | n :: l => String (Ascii.ascii_of_N n) (bytes l)
  end.

(** UTF-8 encodings of the Unicode white-space characters. *)
Definition white_space : list string :=
  map bytes
    ([[9]; [10]; [11]; [12]; [13]; [32]; [194; 133]; [194; 160]; [225; 154; 128];
      [226; 128; 168]; [226; 128; 169]; [226; 128; 175]; [226; 129; 159];
      [227; 128; 128]]%N ++
     map (λ n, [226; 128; 128 + n]%N) [0; 1; 2; 3; 4; 5; 6; 7; 8; 9; 10]%N).

Definition find_prefix (ps : list string) (s : string) : option string :=
  List.find (λ p, has_prefix p s) ps.

(** Drops the members of [ps] from the front; the fuel is the length of the
    string, and every round drops at least one byte. *)
Fixpoint trim_left_fuel (fuel : nat) (ps : list string) (s : string) : string :=
  match fuel with
  | 0 => s
  | S fuel =>
      match find_prefix ps s with
      | Some p => trim_left_fuel fuel ps (string_drop (String.length p) s)
      | None => s
      end
  end.
Definition trim_left (ps : list string) (s : string) : string :=
  trim_left_fuel (String.length s) ps s.

Fixpoint string_rev_app (s acc : string) : string :=
  match s with
  | EmptyString => acc
  | String c s => string_rev_app s (String c acc)
  end.
Definition string_rev (s : string) : string := string_rev_app s EmptyString.

(** [strings.TrimSpace] *)
Definition trim_space (s : string) : string :=
  string_rev (trim_left (map string_rev white_space)
                (string_rev (trim_left white_space s))).

Definition lower_ascii (c : Ascii.ascii) : Ascii.ascii :=
  let n := Ascii.N_of_ascii c in
  if ((65 <=? n) && (n <=? 90))%N then Ascii.ascii_of_N (n + 32) else c.

Fixpoint to_lower_ascii (s : string) : string :=
  match s with
  | EmptyString => EmptyString
  | String c s => String (lower_ascii c) (to_lower_ascii s)
  end.

(** [strings.EqualFold(s, t)] for a [t] made of ASCII letters other than [k]
    and [s] (the two letters that also fold from a non-ASCII character). *)
Definition equal_fold (s t : string) : bool :=
  bool_decide (to_lower_ascii s = to_lower_ascii t).

Fixpoint join_strings (sep : string) (l : list string) : string :=
  match l with
  | [] => ""
  | [x] => x
  | x :: l => x +:+ sep +:+ join_strings sep l
  end.

Example trim_space_example : trim_space "  ./a b
" = "./a b".
Proof. vm_compute. reflexivity. Qed.
Example equal_fold_example : equal_fold "TrUe" "true" = true.
Proof. reflexivity. Qed.

(** [strings.Contains] *)
Fixpoint contains (sub s : string) : bool :=
  has_prefix sub s ||
  match s with EmptyString => false | String _ s => contains sub s end.

(** [strings.IndexByte], [None] for -1. *)
Fixpoint index_byte (c : Ascii.ascii) (s : string) : option nat :=
  match s with
  | EmptyString => None
  | String d s => if Ascii.eqb c d then Some 0 else S <$> index_byte c s
  end.

(** [strings.IndexAny] for a set of ASCII characters. *)
Fixpoint index_any (cs : list Ascii.ascii) (s : string) : option nat :=
  match s with
  | EmptyString => None
  | String d s => if existsb (Ascii.eqb d) cs then Some 0 else S <$> index_any cs s
  end.

(** The part behind the last [c] ([strings.LastIndexByte]), [None] without [c]. *)
Fixpoint after_last (c : Ascii.ascii) (s : string) : option string :=
  match s with
  | EmptyString => None
  | String d s =>
      match after_last c s with
      | Some r => Some r
      | None => if Ascii.eqb c d then Some s else None
      end
  end.

(** [strings.Trim] with a one-byte cutset *)
Definition trim_byte (c : Ascii.ascii) (s : string) : string :=
  let p := [String c EmptyString] in string_rev (trim_left p (string_rev (trim_left p s))).

(** [strings.HasSuffix] and [strings.TrimSuffix] *)
Definition has_suffix (p s : string) : bool := has_prefix (string_rev p) (string_rev s).

(** The verb [%q] of [fmt] for ASCII text. *)
Definition hexDigit (n : N) : Ascii.ascii :=
  Ascii.ascii_of_N (if (n <? 10)%N then 48 + n else 87 + n)%N.
Definition backslash : Ascii.ascii := Ascii.ascii_of_N 92.
Definition quoteMark : Ascii.ascii := Ascii.ascii_of_N 34.

Definition escapeByte (c : Ascii.ascii) : string :=
  let n := Ascii.N_of_ascii c in
  let short := [(7, "a"); (8, "b"); (9, "t"); (10, "n"); (11, "v"); (12, "f"); (13, "r")]%N in
  if bool_decide (c = backslash) || bool_decide (c = quoteMark) then
    String backslash (String c EmptyString)
  else match find (λ e : N * string, bool_decide (e.1 = n)) short with
       | Some (_, letter) => String backslash letter
       | None =>
           if (n <? 32)%N || bool_decide (n = 127%N)
           then String backslash ("x" +:+ String (hexDigit (n / 16))
                  (String (hexDigit (n mod 16)) EmptyString))
           else String c EmptyString
       end.

Fixpoint escapeBytes (s : string) : string :=
  match s with EmptyString => EmptyString | String c s => escapeByte c +:+ escapeBytes s end.

Definition quoted (s : string) : string :=
  String quoteMark (escapeBytes s +:+ String quoteMark EmptyString).
(** [s < t] *)
Definition string_lt (s t : string) : bool := bool_decide (String.le s t ∧ s ≠ t).

Definition trim_suffix (p s : string) : string :=
  if has_suffix p s then string_take (String.length s - String.length p) s else s.

(** [strings.ReplaceAll] of one byte by another *)
Fixpoint replace_byte (a b : Ascii.ascii) (s : string) : string :=
  match s with
  | EmptyString => EmptyString
  | String c s => String (if Ascii.eqb c a then b else c) (replace_byte a b s)
  end.

Definition in_range (lo hi c : Ascii.ascii) : bool :=
  ((Ascii.N_of_ascii lo <=? Ascii.N_of_ascii c) && (Ascii.N_of_ascii c <=? Ascii.N_of_ascii hi))%N.

(** Characters of a string. *)
Fixpoint chars (s : string) : list Ascii.ascii :=
  match s with EmptyString => [] | String c s => c :: chars s end.

Example trim_suffix_example : trim_suffix ".git" (trim_byte "/"%char "/a/b.git/") = "a/b".
Proof. reflexivity. Qed.

(** ** Splitting a string in front of a character *)
Lemma string_app_nil s : "" +:+ s = s.
Proof. reflexivity. Qed.
Lemma string_app_cons c a s : String c a +:+ s = String c (a +:+ s).
Proof. reflexivity. Qed.

Section Without.
Implicit Types (a s : string) (c : ascii).

Lemma string_app_assoc (a b c : string) : (a +:+ b) +:+ c = a +:+ b +:+ c.
Proof. induction a as [|ch a IH]; [done|]. by rewrite !string_app_cons, IH. Qed.

Lemma string_app_nil_r (s : string) : s +:+ "" = s.
Proof. induction s as [|ch s IH]; [done|]. by rewrite string_app_cons, IH. Qed.

Lemma has_prefix_spec (p s : string) : has_prefix p s = true ↔ ∃ rest, s = p +:+ rest.
Proof.
  unfold has_prefix. revert s. induction p as [|c p IH]; intros s.
  - split; [by exists s|by destruct s].
  - destruct s as [|d s]; simpl; [split; [done|by intros [? ?]]|].
    destruct (Ascii.ascii_dec c d) as [->|Hne].
    + rewrite IH. split; intros [rest Hr]; exists rest; rewrite string_app_cons in *; congruence.
    + split; [done|]. intros [rest Hr]. rewrite string_app_cons in Hr. congruence.
Qed.

(** [s] has no character [c]. *)
Definition without c s : Prop := c ∉ chars s.
#[export] Instance without_dec c s : Decision (without c s).
Proof. unfold without. apply _. Defined.

Lemma without_cons c d s : without c (String d s) ↔ d ≠ c ∧ without c s.
Proof. unfold without. cbn. set_solver. Qed.

Lemma index_byte_app c a s :
  without c a → index_byte c (a +:+ String c s) = Some (String.length a).
Proof.
  induction a as [|d a IH]; rewrite ?string_app_nil, ?string_app_cons;
    cbn [index_byte String.length].
  - by rewrite Ascii.eqb_refl.
  - intros [Hd Ha]%without_cons.
    rewrite (proj2 (Ascii.eqb_neq c d)) by congruence. by rewrite IH.
Qed.

Lemma string_take_app a s : string_take (String.length a) (a +:+ s) = a.
Proof.
  induction a as [|d a IH]; [by destruct s|].
  rewrite string_app_cons. cbn. by f_equal.
Qed.

Lemma string_drop_app a c s : string_drop (S (String.length a)) (a +:+ String c s) = s.
Proof.
  induction a as [|d a IH]; [done|]. rewrite string_app_cons. apply IH.
Qed.

Lemma after_last_app c a s :
  without c s → after_last c (a +:+ String c s) = Some s.
Proof.
  intros Hs. assert (after_last c s = None) as Hn.
  { induction s as [|d s IH]; [done|]. apply without_cons in Hs as [Hd Hs].
    cbn [after_last]. rewrite IH by done. by rewrite (proj2 (Ascii.eqb_neq c d)) by congruence. }
  induction a as [|d a IH]; rewrite ?string_app_nil, ?string_app_cons;
    cbn [after_last]; [by rewrite Hn, Ascii.eqb_refl|]. by rewrite IH.
Qed.

(** A needle that starts with [c] is not found inside [a]. *)
Lemma contains_app c sub a s :
  without c a → contains (String c sub) (a +:+ s) = contains (String c sub) s.
Proof.
  induction a as [|d a IH]; [done|]. intros [Hd Ha]%without_cons.
  rewrite ?string_app_cons. cbn. rewrite IH by done. unfold has_prefix. cbn.
  destruct (Ascii.ascii_dec c d) as [->|]; done.
Qed.

Lemma contains_without c sub a : without c a → contains (String c sub) a = false.
Proof.
  induction a as [|d a IH]; [done|]. intros [Hd Ha]%without_cons.
  rewrite ?string_app_cons. cbn. rewrite IH by done. unfold has_prefix. cbn.
  destruct (Ascii.ascii_dec c d) as [->|]; done.
Qed.

Lemma without_app c a s : without c (a +:+ s) ↔ without c a ∧ without c s.
Proof.
  induction a as [|d a IH]; [rewrite string_app_nil; unfold without; cbn; set_solver|].
  rewrite string_app_cons, !without_cons, IH. tauto.
Qed.
End Without.

(** The order of strings is strict and total. *)
Lemma string_lt_asym s t : string_lt s t = true → string_lt t s = false.
Proof.
  unfold string_lt. intros [Hle Hne]%bool_decide_eq_true_1. apply bool_decide_eq_false_2.
  intros [Hle' _]. by destruct (anti_symm String.le s t).
Qed.

Lemma string_lt_trichotomy s t : s ≠ t → string_lt s t = false → string_lt t s = true.
Proof.
  unfold string_lt. intros Hne. case_bool_decide as Hlt; [done|]. intros _.
  apply bool_decide_eq_true_2. split; [|done].
  destruct (total String.le s t); [|done]. destruct Hlt. done.
Qed.

Lemma string_lt_cotrans s t u : string_lt s u = true → string_lt s t = true ∨ string_lt t u = true.
Proof.
  intros Hsu. destruct (decide (s = t)) as [->|Hst]; [by right|].
  destruct (string_lt s t) eqn:Hst'; [by left|]. right.
  apply string_lt_trichotomy in Hst' as Hts; [|done].
  unfold string_lt in *. apply bool_decide_eq_true_1 in Hts as [Hts _], Hsu as [Hsu Hne].
  apply bool_decide_eq_true_2. split; [by etrans|]. intros ->. by apply Hne, (anti_symm String.le).
Qed.
