(* ===== verification/Config.v ===== *)
(** * Configuration data ([internal/config])

    The stack specification and the synchronization policies that the GitOps
    and deployment components read. *)
From S2P Require Import Prelude.

(** [config.StackSyncPolicySpec] *)
Record StackSyncPolicySpec := {
  StackPrune : option bool;
  StackSelfHeal : option bool;
}.

(** [config.StackSpec], with [Sync.Policy] flattened into [Policy]. *)
Record StackSpec := {
  Name : string;
  ComposeFile : string;
  Policy : StackSyncPolicySpec;
}.

(** [config.SyncPolicySpec] without the image policy. *)
Record SyncPolicySpec := {
  GlobalPrune : bool;
  GlobalSelfHeal : bool;
}.

(** [reflect.DeepEqual] on stack specifications. *)
#[export] Instance StackSyncPolicySpec_eq_dec : EqDecision StackSyncPolicySpec.
Proof. solve_decision. Defined.
#[export] Instance StackSpec_eq_dec : EqDecision StackSpec.
Proof. solve_decision. Defined.
