(* ===== verification/Events.v ===== *)
(** * Event types ([internal/modules/event/events/types.go])

    The registry of domain event types with their severity, category,
    deduplication window and visibility. *)
From S2P Require Import Prelude GoStrings.

Definition TypeName : Type := string.
Definition Severity : Type := string.
Definition Category : Type := string.

Definition TypeNameServiceCatalogUpdated : TypeName := "ServiceCatalogUpdated".
Definition TypeNameDeploySuccess : TypeName := "DeploySuccess".
Definition TypeNameAlertOpened : TypeName := "AlertOpened".
Definition TypeNameAlertResolved : TypeName := "AlertResolved".
Definition TypeNameGitPullFailed : TypeName := "GitPullFailed".
Definition TypeNameGitPullSucceeded : TypeName := "GitPullSucceeded".
Definition TypeNameDeployFailed : TypeName := "DeployFailed".
Definition TypeNameConfigurationChanged : TypeName := "ConfigurationChanged".
Definition TypeNameDeployPreparationFailed : TypeName := "DeployPreparationFailed".
Definition TypeNameDeployInterrupted : TypeName := "DeployInterrupted".
Definition TypeNameSendNotificationFailed : TypeName := "SendNotificationFailed".
Definition TypeNameSyncManualStarted : TypeName := "SyncManualStarted".
Definition TypeNameWebhookReceived : TypeName := "WebhookReceived".
Definition TypeNameNodeJoined : TypeName := "NodeJoined".
Definition TypeNameNodeConnected : TypeName := "NodeConnected".
Definition TypeNameNodeDisconnected : TypeName := "NodeDisconnected".
Definition TypeNameServiceMissed : TypeName := "ServiceMissed".
Definition TypeNameServiceDrifted : TypeName := "ServiceDrifted".
Definition TypeNameServiceDriftFixed : TypeName := "ServiceDriftFixed".
Definition TypeNameServiceReplicasIncreased : TypeName := "ServiceReplicasIncreased".
Definition TypeNameServiceReplicasDecreased : TypeName := "ServiceReplicasDecreased".
Definition TypeNameServiceRestarted : TypeName := "ServiceRestarted".
Definition TypeNameServicePruned : TypeName := "ServicePruned".
Definition TypeNameNetworkCreated : TypeName := "NetworkCreated".
Definition TypeNameUserAuthenticated : TypeName := "UserAuthenticated".
Definition TypeNameAssistantPromptInjectionDetected : TypeName := "AssistantPromptInjectionDetected".
Definition TypeNameServiceRemovedFromDesired : TypeName := "ServiceRemovedFromDesired".

Definition SeverityInfo : Severity := "info".
Definition SeverityWarn : Severity := "warn".
Definition SeverityError : Severity := "error".
Definition SeverityAlert : Severity := "alert".
Definition CategorySync : Category := "sync".
Definition CategorySecurity : Category := "security".
Definition CategorySwarm : Category := "swarm".

Definition defaultSyncDedupWindow : Duration := (5 * second)%Z.
Definition nodeDedupWindow : Duration := (15 * second)%Z.
Definition serviceDedupWindow : Duration := (15 * second)%Z.
Definition securityAlertDedupWindow : Duration := (30 * second)%Z.

(** [events.Type] (the Rocq name avoids the sort [Type]). *)
Record EventType := {
  name : TypeName;
  severity : Severity;
  category : Category;
  window : Duration;
  isPublic : bool;
}.
#[export] Instance EventType_eq_dec : EqDecision EventType.
Proof. solve_decision. Defined.

Definition TypeServiceCatalogUpdated : EventType :=
  {| name := TypeNameServiceCatalogUpdated; severity := SeverityInfo; category := CategorySync;
     window := 0%Z; isPublic := true |}.
Definition TypeDeploySuccess : EventType :=
  {| name := TypeNameDeploySuccess; severity := SeverityInfo; category := CategorySync;
     window := (1 * minute)%Z; isPublic := true |}.
Definition TypeAlertOpened : EventType :=
  {| name := TypeNameAlertOpened; severity := SeverityAlert; category := CategorySync;
     window := 0%Z; isPublic := false |}.
Definition TypeAlertResolved : EventType :=
  {| name := TypeNameAlertResolved; severity := SeverityInfo; category := CategorySync;
     window := 0%Z; isPublic := false |}.
Definition TypeGitPullFailed : EventType :=
  {| name := TypeNameGitPullFailed; severity := SeverityAlert; category := CategorySync;
     window := 0%Z; isPublic := false |}.
Definition TypeGitPullSucceeded : EventType :=
  {| name := TypeNameGitPullSucceeded; severity := SeverityInfo; category := CategorySync;
     window := 0%Z; isPublic := false |}.
Definition TypeConfigurationChanged : EventType :=
  {| name := TypeNameConfigurationChanged; severity := SeverityInfo; category := CategorySync;
     window := 0%Z; isPublic := false |}.
Definition TypeDeployFailed : EventType :=
  {| name := TypeNameDeployFailed; severity := SeverityAlert; category := CategorySync;
     window := (1 * minute)%Z; isPublic := false |}.
Definition TypeDeployPreparationFailed : EventType :=
  {| name := TypeNameDeployPreparationFailed; severity := SeverityAlert; category := CategorySync;
     window := 0%Z; isPublic := false |}.
Definition TypeDeployInterrupted : EventType :=
  {| name := TypeNameDeployInterrupted; severity := SeverityAlert; category := CategorySync;
     window := 0%Z; isPublic := false |}.
Definition TypeSendNotificationFailed : EventType :=
  {| name := TypeNameSendNotificationFailed; severity := SeverityError; category := CategorySync;
     window := (1 * hour)%Z; isPublic := true |}.
Definition TypeSyncManualStarted : EventType :=
  {| name := TypeNameSyncManualStarted; severity := SeverityInfo; category := CategorySync;
     window := defaultSyncDedupWindow; isPublic := true |}.
Definition TypeWebhookReceived : EventType :=
  {| name := TypeNameWebhookReceived; severity := SeverityInfo; category := CategorySync;
     window := 0%Z; isPublic := true |}.
Definition TypeNodeJoined : EventType :=
  {| name := TypeNameNodeJoined; severity := SeverityInfo; category := CategorySwarm;
     window := 0%Z; isPublic := true |}.
Definition TypeNodeConnected : EventType :=
  {| name := TypeNameNodeConnected; severity := SeverityInfo; category := CategorySwarm;
     window := nodeDedupWindow; isPublic := true |}.
Definition TypeNodeDisconnected : EventType :=
  {| name := TypeNameNodeDisconnected; severity := SeverityAlert; category := CategorySwarm;
     window := nodeDedupWindow; isPublic := true |}.
Definition TypeServiceMissed : EventType :=
  {| name := TypeNameServiceMissed; severity := SeverityAlert; category := CategorySync;
     window := serviceDedupWindow; isPublic := true |}.
Definition TypeServiceDrifted : EventType :=
  {| name := TypeNameServiceDrifted; severity := SeverityWarn; category := CategorySync;
     window := serviceDedupWindow; isPublic := true |}.
Definition TypeServiceDriftFixed : EventType :=
  {| name := TypeNameServiceDriftFixed; severity := SeverityInfo; category := CategorySync;
     window := serviceDedupWindow; isPublic := true |}.
Definition TypeServiceRemovedFromDesired : EventType :=
  {| name := TypeNameServiceRemovedFromDesired; severity := SeverityInfo; category := CategorySync;
     window := 0%Z; isPublic := false |}.
Definition TypeServiceReplicasIncreased : EventType :=
  {| name := TypeNameServiceReplicasIncreased; severity := SeverityInfo; category := CategorySync;
     window := serviceDedupWindow; isPublic := true |}.
Definition TypeServiceReplicasDecreased : EventType :=
  {| name := TypeNameServiceReplicasDecreased; severity := SeverityInfo; category := CategorySync;
     window := serviceDedupWindow; isPublic := true |}.
Definition TypeServiceRestarted : EventType :=
  {| name := TypeNameServiceRestarted; severity := SeverityInfo; category := CategorySync;
     window := serviceDedupWindow; isPublic := true |}.
Definition TypeServicePruned : EventType :=
  {| name := TypeNameServicePruned; severity := SeverityInfo; category := CategorySync;
     window := serviceDedupWindow; isPublic := true |}.
Definition TypeNetworkCreated : EventType :=
  {| name := TypeNameNetworkCreated; severity := SeverityInfo; category := CategorySync;
     window := defaultSyncDedupWindow; isPublic := true |}.
Definition TypeUserAuthenticated : EventType :=
  {| name := TypeNameUserAuthenticated; severity := SeverityInfo; category := CategorySecurity;
     window := (1 * minute)%Z; isPublic := true |}.
Definition TypeAssistantPromptInjectionDetected : EventType :=
  {| name := TypeNameAssistantPromptInjectionDetected; severity := SeverityWarn; category := CategorySecurity;
     window := securityAlertDedupWindow; isPublic := true |}.

Definition Types : list EventType :=
  [TypeAlertOpened; TypeAlertResolved; TypeGitPullFailed;
   TypeGitPullSucceeded; TypeConfigurationChanged; TypeDeployFailed;
   TypeDeployPreparationFailed; TypeDeployInterrupted; TypeServiceCatalogUpdated;
   TypeDeploySuccess; TypeSendNotificationFailed; TypeSyncManualStarted;
   TypeWebhookReceived; TypeNodeJoined; TypeNodeConnected;
   TypeNodeDisconnected; TypeServiceMissed; TypeServiceDrifted;
   TypeServiceDriftFixed; TypeServiceRemovedFromDesired; TypeServiceReplicasIncreased;
   TypeServiceReplicasDecreased; TypeServiceRestarted; TypeServicePruned;
   TypeNetworkCreated; TypeUserAuthenticated; TypeAssistantPromptInjectionDetected].

(** [Type.String] and [Type.MarshalJSON] both render the name; the JSON string
    syntax is [encoding/json]'s and left out. *)
Definition String_ (t : EventType) : string := name t.

Fixpoint findType (n : string) (types : list EventType) : option EventType :=
  match types with
  | [] => None
  | typ :: types => if bool_decide (name typ = n) then Some typ else findType n types
  end.

Definition ParseType (n : string) : option EventType := findType n Types.

Definition Valid (n : TypeName) : bool :=
  match ParseType n with Some typ => isPublic typ | None => false end.

(** [Type.UnmarshalJSON] on the decoded string. *)
Definition UnmarshalType (raw : string) : EventType :=
  match ParseType (trim_space raw) with
  | Some parsed => parsed
  | None => {| name := trim_space raw; severity := ""; category := "";
               window := 0; isPublic := false |}
  end.

Definition ParseSeverity (raw : string) : option Severity :=
  if bool_decide (raw = SeverityInfo) then Some SeverityInfo
  else if bool_decide (raw = SeverityWarn) then Some SeverityWarn
  else if bool_decide (raw = SeverityError) then Some SeverityError
  else if bool_decide (raw = SeverityAlert) then Some SeverityAlert
  else None.

Definition ParseCategory (raw : string) : option Category :=
  if bool_decide (raw = CategorySync) then Some CategorySync
  else if bool_decide (raw = CategorySecurity) then Some CategorySecurity
  else if bool_decide (raw = CategorySwarm) then Some CategorySwarm
  else None.

Lemma findType_Some n types t : findType n types = Some t → t ∈ types ∧ name t = n.
Proof.
  induction types as [|u types IH]; simpl; [done|].
  case_bool_decide; intros; simplify_eq; [set_solver|]. destruct IH; set_solver.
Qed.

Lemma findType_elem types t :
  NoDup (map name types) → t ∈ types → findType (name t) types = Some t.
Proof.
  induction types as [|u types IH]; simpl; [by intros _ ?%elem_of_nil|].
  intros [Hu Hnd]%NoDup_cons [->|Ht]%elem_of_cons.
  - by rewrite bool_decide_eq_true_2.
  - case_bool_decide as Hn; [|auto]. destruct Hu. rewrite Hn.
    apply list_elem_of_In, in_map_iff. exists t. by rewrite <- list_elem_of_In.
Qed.

Lemma Types_names_NoDup : NoDup (map name Types).
Proof. apply (bool_decide_unpack _). vm_compute. exact I. Qed.

(** The registry is faithful: parsing a name gives a type exactly when that
    type is registered under the name, decoding the encoding of a registered
    type gives it back, and every registered type has a severity and a category
    that parse, so names identify types. *)
Theorem event_type_registry :
  (∀ n t, ParseType n = Some t ↔ t ∈ Types ∧ name t = n) ∧
  (∀ t, t ∈ Types → UnmarshalType (String_ t) = t) ∧
  (∀ t, t ∈ Types → ParseSeverity (severity t) = Some (severity t) ∧
                    ParseCategory (category t) = Some (category t) ∧ (0 ≤ window t)%Z) ∧
  (∀ n, Valid n = true ↔ ∃ t, t ∈ Types ∧ name t = n ∧ isPublic t = true).
Proof.
  assert (∀ n t, ParseType n = Some t ↔ t ∈ Types ∧ name t = n) as Hparse.
  { intros n t. split; [apply findType_Some|]. intros [Ht <-].
    apply findType_elem; [apply Types_names_NoDup|done]. }
  assert (Forall (λ t, trim_space (name t) = name t ∧
    ParseSeverity (severity t) = Some (severity t) ∧
    ParseCategory (category t) = Some (category t) ∧ (0 ≤ window t)%Z) Types) as Hall.
  { repeat apply Forall_cons_2; try apply Forall_nil_2;
      (split_and!; [vm_compute; reflexivity..|vm_compute; discriminate]). }
  rewrite Forall_forall in Hall. split_and!; [done| | |].
  - intros t Ht. destruct (Hall t Ht) as [Htrim _]. unfold UnmarshalType, String_.
    rewrite Htrim. by rewrite (proj2 (Hparse (name t) t)).
  - intros t Ht. by destruct (Hall t Ht) as [_ ?].
  - intros n. unfold Valid. destruct (ParseType n) as [t|] eqn:Hn; split.
    + intros Hp. exists t. by apply Hparse in Hn as [? ?].
    + intros (t' & Ht' & <- & Hp'). apply Hparse in Hn as [Ht Hnn].
      assert (ParseType (name t') = Some t') as H1 by (by apply Hparse).
      assert (ParseType (name t') = Some t) as H2 by (by apply Hparse).
      congruence.
    + done.
    + intros (t' & Ht' & <- & _). assert (ParseType (name t') = Some t') by (by apply Hparse).
      congruence.
Qed.
