(* ===== verification/StackPlan.v ===== *)
(** * Stack planning ([internal/modules/gitops/controller/stackplan])

    Which stacks a synchronization run deploys and in what order: stacks
    touched by the Git diff first, in diff order, then the others in the order
    of the configuration. *)
From S2P Require Import Prelude GoStrings Config.

(** [gitx.CommitFileDiff], the two paths. *)
Record CommitFileDiff := { OldPath : string; NewPath : string }.

(** [gitx.PullResult] *)
Record PullResult := { Updated : bool; OldRevision : string; NewRevision : string }.

(** [stackplan.Plan]; an absent name and a nil map are not distinguished. *)
Record Plan := {
  Stacks : list StackSpec;
  Changed : gmap string bool;
  DiffErr : option string;
}.

Definition normalizePath (path : string) : string :=
  trim_prefix "./" (trim_space path).

Definition stacksByComposePath (stacks : list StackSpec) : gmap string (list string) :=
  fold_left (λ m stack,
    let composePath := normalizePath (ComposeFile stack) in
    if bool_decide (composePath = "") then m
    else <[composePath := default [] (m !! composePath) ++ [Name stack]]> m)
  stacks ∅.

Definition changedPath (fileDiff : CommitFileDiff) : string :=
  let path := normalizePath (NewPath fileDiff) in
  if bool_decide (path = "") then normalizePath (OldPath fileDiff) else path.

(** The names of one diff entry that are not ordered yet get its index. *)
Definition recordOrder (diffIndex : nat) (names : list string)
    (order : gmap string nat) : gmap string nat :=
  fold_left (λ order stackName,
    match order !! stackName with
    | Some _ => order
    | None => <[stackName := diffIndex]> order
    end) names order.

Fixpoint changeOrderFrom (byPath : gmap string (list string)) (diffIndex : nat)
    (fileDiffs : list CommitFileDiff) (order : gmap string nat) : gmap string nat :=
  match fileDiffs with
  | [] => order
  | fileDiff :: fileDiffs =>
      let path := changedPath fileDiff in
      let order' :=
        if bool_decide (path = "") then order
        else recordOrder diffIndex (default [] (byPath !! path)) order in
      changeOrderFrom byPath (S diffIndex) fileDiffs order'
  end.

Definition changeOrder (stacks : list StackSpec) (fileDiffs : list CommitFileDiff)
    : gmap string nat :=
  changeOrderFrom (stacksByComposePath stacks) 0 fileDiffs ∅.

(** The comparison of [sortByChange] is negative. *)
Definition changeLess (order : gmap string nat) (left right : StackSpec) : bool :=
  match order !! Name left, order !! Name right with
  | Some leftOrder, Some rightOrder => leftOrder <? rightOrder
  | Some _, None => true
  | None, Some _ => false
  | None, None => false
  end.

Definition sortByChange (stacks : list StackSpec) (order : gmap string nat)
    : list StackSpec :=
  stable_sort (changeLess order) stacks.

Section Planner.
(** [DiffSource.Diff], the Git history behind the planner. *)
Context (Diff : string → string → Result string (list CommitFileDiff)).

Definition plan (stacks : list StackSpec) (git : PullResult) : Plan :=
  let unchanged := {| Stacks := stacks; Changed := ∅; DiffErr := None |} in
  if negb (Updated git) || bool_decide (stacks = []) then unchanged
  else match Diff (OldRevision git) (NewRevision git) with
       | Err err => {| Stacks := stacks; Changed := ∅; DiffErr := Some err |}
       | Ok fileDiffs =>
           let order := changeOrder stacks fileDiffs in
           if bool_decide (order = ∅) then unchanged
           else {| Stacks := sortByChange stacks order;
                   Changed := (λ _, true) <$> order;
                   DiffErr := None |}
       end.
End Planner.

(** ** What the diff touches *)

(** The diff entry changes the Compose file of a stack of this name. *)
Definition touches (stacks : list StackSpec) (name : string) (d : CommitFileDiff) : Prop :=
  changedPath d ≠ "" ∧
  Exists (λ s, Name s = name ∧ normalizePath (ComposeFile s) = changedPath d) stacks.
#[export] Instance touches_dec stacks name d : Decision (touches stacks name d).
Proof. unfold touches. apply _. Defined.

Lemma stacksByComposePath_elem stacks path name :
  name ∈ default [] (stacksByComposePath stacks !! path) ↔
  path ≠ "" ∧ Exists (λ s, Name s = name ∧ normalizePath (ComposeFile s) = path) stacks.
Proof.
  unfold stacksByComposePath.
  induction stacks as [|s stacks IH] using rev_ind.
  - simpl. rewrite lookup_empty, Exists_nil. set_solver.
  - rewrite fold_left_app, Exists_app, Exists_cons, Exists_nil. simpl.
    case_bool_decide as Hp; [naive_solver congruence|].
    destruct (decide (normalizePath (ComposeFile s) = path)) as [<-|Hne].
    + rewrite lookup_insert_eq. simpl. rewrite elem_of_app, list_elem_of_singleton.
      naive_solver.
    + rewrite lookup_insert_ne by done. naive_solver.
Qed.

Lemma recordOrder_lookup i names order name :
  recordOrder i names order !! name =
  match order !! name with
  | Some k => Some k
  | None => if bool_decide (name ∈ names) then Some i else None
  end.
Proof.
  unfold recordOrder. revert order. induction names as [|n names IH]; intros order; simpl.
  - by destruct (order !! name).
  - rewrite IH. destruct (decide (n = name)) as [->|Hne].
    + rewrite (bool_decide_eq_true_2 (name ∈ name :: names)) by set_solver.
      destruct (order !! name) as [k|] eqn:Ho; [by rewrite Ho|].
      by rewrite lookup_insert_eq.
    + assert ((match order !! n with Some _ => order | None => <[n:=i]> order end) !! name
              = order !! name) as ->.
      { destruct (order !! n); [done|]. by rewrite lookup_insert_ne. }
      destruct (order !! name); [done|].
      by rewrite (bool_decide_ext (name ∈ n :: names) (name ∈ names)) by set_solver.
Qed.

Lemma changeOrderFrom_lookup stacks i fileDiffs order name :
  changeOrderFrom (stacksByComposePath stacks) i fileDiffs order !! name =
  match order !! name with
  | Some k => Some k
  | None => (λ r, i + r.1) <$> list_find (touches stacks name) fileDiffs
  end.
Proof.
  revert i order. induction fileDiffs as [|d fileDiffs IH]; intros i order; simpl.
  - by destruct (order !! name).
  - rewrite IH. case_bool_decide as Hp.
    + rewrite decide_False by (intros [? _]; done).
      destruct (order !! name); [done|].
      destruct (list_find _ fileDiffs) as [[j x]|]; simpl; f_equal; lia.
    + rewrite recordOrder_lookup. destruct (order !! name); [done|].
      rewrite (bool_decide_ext _ (touches stacks name d)).
      2:{ rewrite stacksByComposePath_elem. unfold touches. tauto. }
      case_bool_decide; [rewrite decide_True by done | rewrite decide_False by done].
      * simpl. f_equal. lia.
      * destruct (list_find _ fileDiffs) as [[j x]|]; simpl; f_equal; lia.
Qed.

Lemma changeOrder_lookup stacks fileDiffs name :
  changeOrder stacks fileDiffs !! name =
  fst <$> list_find (touches stacks name) fileDiffs.
Proof. unfold changeOrder. by rewrite changeOrderFrom_lookup, lookup_empty. Qed.

Lemma changeLess_asym order x y : changeLess order x y = true → changeLess order y x = false.
Proof.
  unfold changeLess. destruct (order !! Name x), (order !! Name y); try done.
  rewrite Nat.ltb_lt, Nat.ltb_ge. lia.
Qed.

Lemma changeLess_cotrans order x y z :
  changeLess order x z = true → changeLess order x y = true ∨ changeLess order y z = true.
Proof.
  unfold changeLess.
  destruct (order !! Name x), (order !! Name y), (order !! Name z); try tauto.
  rewrite !Nat.ltb_lt. lia.
Qed.

Definition ordered (order : gmap string nat) (s : StackSpec) : Prop :=
  is_Some (order !! Name s).

Lemma sortByChange_partition stacks order :
  sortByChange stacks order =
  filter (ordered order) (sortByChange stacks order) ++
  filter (λ s, ¬ ordered order s) stacks.
Proof.
  unfold sortByChange.
  rewrite <- (stable_sort_filter (changeLess order) (λ s, ¬ ordered order s)).
  - apply (sorted_partition (λ a b, changeLess order b a = false)).
    + unfold ordered, changeLess. intros x y Hx [k Hy].
      apply eq_None_not_Some in Hx. by rewrite Hx, Hy.
    + apply stable_sort_sorted; eauto using changeLess_asym, changeLess_cotrans.
  - unfold ordered, changeLess. intros x y Hx Hy.
    apply eq_None_not_Some in Hx, Hy. by rewrite Hx, Hy.
Qed.

(** The diff index at which a stack is first touched. *)
Definition firstTouch (stacks : list StackSpec) (fileDiffs : list CommitFileDiff)
    (s : StackSpec) : option nat :=
  fst <$> list_find (touches stacks (Name s)) fileDiffs.

Definition touched (stacks : list StackSpec) (fileDiffs : list CommitFileDiff)
    (s : StackSpec) : Prop := is_Some (firstTouch stacks fileDiffs s).
#[export] Instance touched_dec stacks fileDiffs s : Decision (touched stacks fileDiffs s).
Proof. unfold touched. apply _. Defined.

Lemma sortByChange_empty stacks : sortByChange stacks ∅ = stacks.
Proof.
  assert (∀ s, ¬ ordered ∅ s) as Hno by (intros s [? Hs]; by rewrite lookup_empty in Hs).
  rewrite sortByChange_partition, list_filter_none, list_filter_all;
    [done | by apply Forall_true..].
Qed.

(** The early returns of [Plan] agree with its general case. *)
Lemma plan_updated Diff stacks git fileDiffs :
  Updated git = true →
  Diff (OldRevision git) (NewRevision git) = Ok fileDiffs →
  plan Diff stacks git =
  {| Stacks := sortByChange stacks (changeOrder stacks fileDiffs);
     Changed := (λ _, true) <$> changeOrder stacks fileDiffs; DiffErr := None |}.
Proof.
  intros HU HD. unfold plan. rewrite HU, HD. simpl.
  case_bool_decide as Hs.
  - subst. assert (changeOrder [] fileDiffs = ∅) as ->; [|by rewrite fmap_empty].
    apply map_eq. intros name. rewrite changeOrder_lookup, lookup_empty.
    destruct (list_find _ _) as [[j d]|] eqn:Hf; [|done].
    apply list_find_Some in Hf as (_ & [_ ?%Exists_nil] & _). done.
  - case_bool_decide as Ho; [|done].
    by rewrite Ho, sortByChange_empty, fmap_empty.
Qed.

Lemma firstTouch_order stacks fileDiffs s :
  firstTouch stacks fileDiffs s = changeOrder stacks fileDiffs !! Name s.
Proof. by rewrite changeOrder_lookup. Qed.

Lemma filter_touched stacks fileDiffs (l : list StackSpec) :
  filter (ordered (changeOrder stacks fileDiffs)) l = filter (touched stacks fileDiffs) l.
Proof.
  apply list_filter_iff. intros s. unfold ordered, touched. by rewrite firstTouch_order.
Qed.

(** ** Properties *)

(** Planning reorders the configured stacks and neither loses nor
    duplicates one, whatever the pull result and the diff. *)
Theorem plan_permutation Diff stacks git : Stacks (plan Diff stacks git) ≡ₚ stacks.
Proof.
  unfold plan. destruct (_ || _); [done|]. destruct (Diff _ _); [|done].
  case_bool_decide; [done|]. apply stable_sort_perm.
Qed.

(** After a pull that changed the revision, the plan is the stacks the diff
    touches, sorted by the first diff entry that touches them, followed by the
    untouched stacks in configuration order; exactly the touched names are
    marked changed. *)
Theorem plan_changed_first Diff stacks git fileDiffs
    (HU : Updated git = true)
    (HD : Diff (OldRevision git) (NewRevision git) = Ok fileDiffs) :
  let p := plan Diff stacks git in
  Stacks p = filter (touched stacks fileDiffs) (Stacks p) ++
             filter (λ s, ¬ touched stacks fileDiffs s) stacks ∧
  StronglySorted (λ a b, ∃ i j, firstTouch stacks fileDiffs a = Some i ∧
      firstTouch stacks fileDiffs b = Some j ∧ i ≤ j)
    (filter (touched stacks fileDiffs) (Stacks p)) ∧
  (∀ name, Changed p !! name = Some true ↔ Exists (touches stacks name) fileDiffs).
Proof.
  simpl. rewrite (plan_updated _ _ _ _ HU HD). simpl. split_and!.
  - rewrite sortByChange_partition at 1. rewrite filter_touched. f_equal.
    apply list_filter_iff. intros s. unfold ordered, touched. by rewrite firstTouch_order.
  - eapply (StronglySorted_impl_in (λ a b, changeLess (changeOrder stacks fileDiffs) b a = false)).
    + intros a b [[i Hi] _]%list_elem_of_filter [[j Hj] _]%list_elem_of_filter Hab.
      exists i, j. split_and!; [done..|].
      unfold changeLess in Hab. rewrite <- !firstTouch_order, Hi, Hj in Hab.
      by apply Nat.ltb_ge.
    + apply StronglySorted_filter, stable_sort_sorted;
        eauto using changeLess_asym, changeLess_cotrans.
  - intros name. rewrite lookup_fmap, changeOrder_lookup.
    destruct (list_find _ _) as [[j d]|] eqn:Hf; simpl.
    + apply list_find_Some in Hf as (Hj & Ht & _). split; [|done]. intros _.
      rewrite Exists_exists. exists d. split; [by eapply list_elem_of_lookup_2|done].
    + apply list_find_None in Hf. rewrite Forall_Exists_neg in Hf.
      split; [done|tauto].
Qed.

(** ** Witness *)
Definition sampleStacks : list StackSpec :=
  [ {| Name := "a"; ComposeFile := "a.yaml"; Policy := {| StackPrune := None; StackSelfHeal := None |} |};
    {| Name := "b"; ComposeFile := "./b.yaml"; Policy := {| StackPrune := None; StackSelfHeal := None |} |};
    {| Name := "c"; ComposeFile := "c.yaml"; Policy := {| StackPrune := None; StackSelfHeal := None |} |} ].
Definition sampleDiff (_ _ : string) : Result string (list CommitFileDiff) :=
  Ok [ {| OldPath := "c.yaml"; NewPath := "" |}; {| OldPath := ""; NewPath := "b.yaml" |} ].
Definition samplePull : PullResult :=
  {| Updated := true; OldRevision := "r1"; NewRevision := "r2" |}.

Example sample_order :
  map Name (Stacks (plan sampleDiff sampleStacks samplePull)) = ["c"; "b"; "a"].
Proof. vm_compute. reflexivity. Qed.

Lemma plan_changed_first_witness :
  Changed (plan sampleDiff sampleStacks samplePull) !! "c" = Some true ↔
  Exists (touches sampleStacks "c")
    [ {| OldPath := "c.yaml"; NewPath := "" |}; {| OldPath := ""; NewPath := "b.yaml" |} ].
Proof.
  apply (plan_changed_first sampleDiff sampleStacks samplePull
    [ {| OldPath := "c.yaml"; NewPath := "" |}; {| OldPath := ""; NewPath := "b.yaml" |} ]);
  reflexivity.
Defined.
