(* ===== verification/StackQueue.v ===== *)
(** * The stack queue ([internal/modules/gitops/controller/stackqueue])

    Stack operations run with bounded parallelism and at most one operation
    per stack. [Queue] is the state guarded by [q.mu]; every method that holds
    the mutex is one definition, so a concurrent execution is an interleaving
    of these definitions ([step]). Trace span contexts are left out. *)
From S2P Require Import Prelude Config.

(** [stackloop.ReconciliationRequest] *)
Record ReconciliationRequest := {
  Stack : StackSpec;
  Commit : string;
  IsManual : bool;
}.
#[export] Instance ReconciliationRequest_eq_dec : EqDecision ReconciliationRequest.
Proof. solve_decision. Defined.

Definition OperationReconcile : string := "reconcile".
Definition OperationCleanup : string := "cleanup".

(** [stackqueue.operation] *)
Record operation := {
  kind : string;
  request : ReconciliationRequest;
  changed : bool;
}.
#[export] Instance operation_eq_dec : EqDecision operation.
Proof. solve_decision. Defined.

(** [stackqueue.Queue]. [idle] names the current notification channel,
    [closed] holds the channels closed so far and [gauges] the last values
    given to [metrics.SetStackQueue]. *)
Record Queue := {
  workers : nat;
  ready : list string;
  pending : gmap string operation;
  running : gmap string operation;
  changedAfterFailure : gmap string bool;
  paused : bool;
  started : bool;
  stopped : bool;
  idle : nat;
  closed : gset nat;
  gauges : nat * nat;
}.

(** [New]: the idle channel is created closed; [max(parallelism, 1)] workers. *)
Definition New (parallelism : Z) : Queue :=
  {| workers := Z.to_nat (Z.max parallelism 1);
     ready := []; pending := ∅; running := ∅; changedAfterFailure := ∅;
     paused := false; started := false; stopped := false;
     idle := 0; closed := {[0]}; gauges := (0, 0) |}.

Definition busy (q : Queue) : bool :=
  negb (bool_decide (pending q = ∅)) || negb (bool_decide (running q = ∅)).

(** A fresh channel is the successor of the current one. *)
Definition updateStateLocked (q : Queue) : Queue :=
  let q' ch cl :=
    {| workers := workers q; ready := ready q; pending := pending q;
       running := running q; changedAfterFailure := changedAfterFailure q;
       paused := paused q; started := started q; stopped := stopped q;
       idle := ch; closed := cl; gauges := (size (pending q), size (running q)) |} in
  if bool_decide (idle q ∈ closed q) then
    if busy q then q' (S (idle q)) (closed q) else q' (idle q) (closed q)
  else if busy q then q' (idle q) (closed q)
  else q' (idle q) ({[idle q]} ∪ closed q).

(** Replaces the waiting work. *)
Definition setWaiting (q : Queue) (ready' : list string)
    (pending' : gmap string operation) (caf : gmap string bool) : Queue :=
  {| workers := workers q; ready := ready'; pending := pending';
     running := running q; changedAfterFailure := caf;
     paused := paused q; started := started q; stopped := stopped q;
     idle := idle q; closed := closed q; gauges := gauges q |}.

Definition setRunning (q : Queue) (running' : gmap string operation) : Queue :=
  {| workers := workers q; ready := ready q; pending := pending q;
     running := running'; changedAfterFailure := changedAfterFailure q;
     paused := paused q; started := started q; stopped := stopped q;
     idle := idle q; closed := closed q; gauges := gauges q |}.

Definition setFlags (q : Queue) (paused' started' stopped' : bool) : Queue :=
  {| workers := workers q; ready := ready q; pending := pending q;
     running := running q; changedAfterFailure := changedAfterFailure q;
     paused := paused'; started := started'; stopped := stopped';
     idle := idle q; closed := closed q; gauges := gauges q |}.

(** [Start]: the flag it sets and the number of workers it launches. *)
Definition Start (q : Queue) : nat * Queue :=
  if started q || stopped q then (0, q)
  else (workers q, setFlags q (paused q) true (stopped q)).

(** [Stop], up to the wait for the workers. *)
Definition Stop (q : Queue) : Queue :=
  updateStateLocked (setWaiting (setFlags q (paused q) (started q) true) [] ∅ ∅).

Definition Pause (q : Queue) : bool * Queue :=
  if stopped q then (false, q)
  else (true, setFlags q true (started q) (stopped q)).

Definition Resume (q : Queue) : Queue := setFlags q false (started q) (stopped q).

Definition isRunningLocked (q : Queue) (name : string) : bool :=
  bool_decide (is_Some (running q !! name)).

(** [dropLocked]: the waiting operations of matching stacks leave the queue;
    their sorted names are returned. *)
Definition dropLocked (matches : string → bool) (q : Queue) : list string * Queue :=
  let dropped := filter (λ name, Is_true (matches name)) (elements (dom (pending q))) in
  if bool_decide (dropped = []) then ([], q)
  else (sort_strings dropped,
        setWaiting q (filter (λ name, ¬ Is_true (matches name)) (ready q))
          (filter (λ kv, ¬ Is_true (matches kv.1)) (pending q))
          (changedAfterFailure q)).

Definition pendingChanged (pending : gmap string operation) (name : string) : bool :=
  match pending !! name with Some op => changed op | None => false end.

(** [enqueueLocked]: changed work goes after the last changed stack in front,
    any other work to the end. *)
Definition enqueueLocked (name : string) (q : Queue) : Queue :=
  let ready' :=
    if pendingChanged (pending q) name then
      slice_insert (ready q) (prefix_length (pendingChanged (pending q)) (ready q)) name
    else ready q ++ [name] in
  setWaiting q ready' (pending q) (changedAfterFailure q).

(** The operation [Replace] builds for one request. *)
Definition replaceOperation (caf : gmap string bool) (changedNames : gmap string bool)
    (pending : gmap string operation) (req : ReconciliationRequest) : operation :=
  let name := Name (Stack req) in
  let isChanged := default false (changedNames !! name) || default false (caf !! name) in
  match pending !! name with
  | None => {| kind := OperationReconcile; request := req; changed := isChanged |}
  | Some previous =>
      let manual :=
        if bool_decide (kind previous = OperationReconcile)
        then IsManual req || IsManual (request previous) else IsManual req in
      {| kind := OperationReconcile;
         request := {| Stack := Stack req; Commit := Commit req; IsManual := manual |};
         changed := isChanged || changed previous |}
  end.

(** The running operation already applies this revision and specification. *)
Definition alreadyRunning (running : gmap string operation)
    (req : ReconciliationRequest) (op : operation) : bool :=
  match running !! Name (Stack req) with
  | Some r => bool_decide (kind r = OperationReconcile) &&
              bool_decide (Commit (request r) = Commit req) &&
              bool_decide (Stack (request r) = Stack req) &&
              negb (IsManual (request op))
  | None => false
  end.

Definition replaceRequest (running : gmap string operation) (caf changedNames : gmap string bool)
    (pending : gmap string operation) (req : ReconciliationRequest) : gmap string operation :=
  let op := replaceOperation caf changedNames pending req in
  if alreadyRunning running req op then delete (Name (Stack req)) pending
  else <[Name (Stack req) := op]> pending.

(** The closure [add] of [rebuildReadyLocked]. *)
Definition addReady (q : Queue) (changedPass : bool)
    (acc : gset string * list string) (name : string) : gset string * list string :=
  let '(seen, ready') := acc in
  if bool_decide (name ∈ seen) || isRunningLocked q name then acc
  else match pending q !! name with
       | None => acc
       | Some op =>
           if Bool.eqb (changed op) changedPass then ({[name]} ∪ seen, ready' ++ [name])
           else acc
       end.

Definition rebuildReadyLocked (requests : list ReconciliationRequest) (q : Queue) : Queue :=
  let names := map (λ req, Name (Stack req)) requests in
  let pass acc changedPass :=
    fold_left (addReady q changedPass) names
      (fold_left (addReady q changedPass) (ready q) acc) in
  let '(_, ready') := fold_left pass [true; false] (∅, []) in
  setWaiting q ready' (pending q) (changedAfterFailure q).

(** [Replace]: [None] after [Stop], else the dropped names. *)
Definition Replace (requests : list ReconciliationRequest)
    (changedNames : gmap string bool) (q : Queue) : option (list string) * Queue :=
  let desired : gset string := list_to_set (map (λ req, Name (Stack req)) requests) in
  if stopped q then (None, q)
  else
    let '(dropped, q1) := dropLocked (λ name, negb (bool_decide (name ∈ desired))) q in
    let pending' :=
      fold_left (replaceRequest (running q1) (changedAfterFailure q1) changedNames)
        requests (pending q1) in
    let q2 := setWaiting q1 (ready q1) pending' ∅ in
    (Some dropped, updateStateLocked (rebuildReadyLocked requests q2)).

(** [Clear] *)
Definition Clear (changedNames : gmap string bool) (q : Queue) : list string * Queue :=
  let waitingChanged := filter (λ kv, kind kv.2 = OperationReconcile ∧ Is_true (changed kv.2))
                          (pending q) in
  let trueNames := filter (λ kv, Is_true kv.2) changedNames in
  let caf := ((λ _, true) <$> trueNames) ∪ ((λ _, true) <$> waitingChanged) ∪
             changedAfterFailure q in
  let '(dropped, q1) := dropLocked (λ _, true) (setWaiting q (ready q) (pending q) caf) in
  (dropped, updateStateLocked q1).

Definition SubmitCleanup (stack : StackSpec) (commit : string) (q : Queue) : bool * Queue :=
  if stopped q || paused q || isRunningLocked q (Name stack) then (false, q)
  else if bool_decide (is_Some (pending q !! Name stack)) then (false, q)
  else
    let op := {| kind := OperationCleanup;
                 request := {| Stack := stack; Commit := commit; IsManual := false |};
                 changed := false |} in
    let q1 := setWaiting q (ready q) (<[Name stack := op]> (pending q))
                (changedAfterFailure q) in
    (true, updateStateLocked (enqueueLocked (Name stack) q1)).

(** What a call of [next] gives a worker. *)
Inductive nextResult :=
| NextBlocked
| NextStopped
| NextOperation (name : string) (op : operation).

(** The zero value of a missing map entry. *)
Definition zeroStack : StackSpec :=
  {| Name := ""; ComposeFile := ""; Policy := {| StackPrune := None; StackSelfHeal := None |} |}.
Definition zeroOperation : operation :=
  {| kind := ""; request := {| Stack := zeroStack; Commit := ""; IsManual := false |};
     changed := false |}.

(** [next]: [NextBlocked] is a worker that waits on the condition variable. *)
Definition next (q : Queue) : nextResult * Queue :=
  if stopped q then (NextStopped, q)
  else if paused q then (NextBlocked, q)
  else match ready q with
       | [] => (NextBlocked, q)
       | name :: ready' =>
           let op := default zeroOperation (pending q !! name) in
           let q1 := setWaiting q ready' (delete name (pending q)) (changedAfterFailure q) in
           (NextOperation name op,
            updateStateLocked (setRunning q1 (<[name := op]> (running q1))))
       end.

(** [finish] *)
Definition finish (name : string) (q : Queue) : Queue :=
  let q1 := setRunning q (delete name (running q)) in
  updateStateLocked
    (if bool_decide (is_Some (pending q1 !! name)) then enqueueLocked name q1 else q1).

(** The reconciler call [execute] makes and the result it records. *)
Inductive reconcilerCall :=
| CallCleanup (stack : StackSpec) (commit : string)
| CallReconcile (req : ReconciliationRequest).

Definition execute (op : operation) : reconcilerCall :=
  if bool_decide (kind op = OperationCleanup)
  then CallCleanup (Stack (request op)) (Commit (request op))
  else CallReconcile (request op).

Definition operationResult {E} (err : option E) : string :=
  match err with None => "success" | Some _ => "error" end.

(** [WaitIdle] on the channel [ch] read when it was called: [Some ()] once the
    channel is closed. *)
Definition WaitIdle (ch : nat) (q : Queue) : option unit :=
  if bool_decide (ch ∈ closed q) then Some () else None.

(** ** The waiting part: ready list, pending and running maps *)

(** Ready to run in this pass of [rebuildReadyLocked]. *)
Definition waitingIn (pending running : gmap string operation) (pass : bool)
    (name : string) : Prop :=
  running !! name = None ∧ ∃ op, pending !! name = Some op ∧ changed op = pass.
#[export] Instance waitingIn_dec pending running pass name :
  Decision (waitingIn pending running pass name).
Proof.
  refine (match pending !! name as o, running !! name as r
    return pending !! name = o → running !! name = r → _ with
    | Some op, None => λ Hp Hr,
        match decide (changed op = pass) with left H => left _ | right H => right _ end
    | _, _ => λ Hp Hr, right _ end eq_refl eq_refl);
  unfold waitingIn; naive_solver.
Defined.

(** No unchanged stack stands in front of a changed one. *)
Definition changed_first (pending : gmap string operation) (ready : list string) : Prop :=
  StronglySorted (λ a b, pendingChanged pending b = true → pendingChanged pending a = true) ready.

Lemma changed_first_parts pending ready :
  changed_first pending ready →
  ready = filter (λ n, Is_true (pendingChanged pending n)) ready ++
          filter (λ n, ¬ Is_true (pendingChanged pending n)) ready.
Proof.
  apply sorted_partition. intros x y Hx ?%Is_true_true Hxy. apply Hx, Is_true_true. auto.
Qed.

(** The ready list is duplicate-free, holds exactly the stacks that wait and do
    not run, and lists changed work first. *)
Record ready_ok (ready : list string) (pending running : gmap string operation) : Prop := {
  ready_NoDup : NoDup ready;
  ready_elem : ∀ name, name ∈ ready ↔ is_Some (pending !! name) ∧ running !! name = None;
  ready_order : changed_first pending ready;
}.

Lemma pendingChanged_waitingIn pending running name :
  running !! name = None → is_Some (pending !! name) →
  (Is_true (pendingChanged pending name) ↔ waitingIn pending running true name) ∧
  (¬ Is_true (pendingChanged pending name) ↔ waitingIn pending running false name).
Proof.
  intros Hr [op Hp]. unfold waitingIn, pendingChanged. rewrite Hp.
  destruct (changed op) eqn:Hc; simpl; naive_solver congruence.
Qed.

(** A list made of a changed and an unchanged part is ordered. *)
Lemma ready_ok_intro pending running l1 l2 :
  NoDup l1 → NoDup l2 →
  (∀ name, name ∈ l1 ↔ waitingIn pending running true name) →
  (∀ name, name ∈ l2 ↔ waitingIn pending running false name) →
  ready_ok (l1 ++ l2) pending running.
Proof.
  intros Hnd1 Hnd2 H1 H2.
  assert (∀ n, n ∈ l1 → Is_true (pendingChanged pending n)) as Hc1.
  { intros n (_ & op & Hp & Hc)%H1. unfold pendingChanged. by rewrite Hp, Hc. }
  assert (∀ n, n ∈ l2 → ¬ Is_true (pendingChanged pending n)) as Hc2.
  { intros n (_ & op & Hp & Hc)%H2. unfold pendingChanged. rewrite Hp, Hc. by intros []. }
  constructor.
  - apply NoDup_app. split_and!; [done| |done]. intros n ??. by eapply Hc2, Hc1.
  - intros name. rewrite elem_of_app, H1, H2. unfold waitingIn. split; [naive_solver|].
    intros [[op Hop] ?]. rewrite Hop. destruct (changed op) eqn:?; naive_solver.
  - apply StronglySorted_app. split_and!.
    + intros x1 x2 Hx1%Hc1%Is_true_true _ _. done.
    + eapply StronglySorted_impl_in; [|apply StronglySorted_top].
      intros x y Hx%Hc1%Is_true_true _ _ _. done.
    + eapply StronglySorted_impl_in; [|apply StronglySorted_top].
      intros x y _ Hy _ Hc. destruct (Hc2 y Hy). by apply Is_true_true.
Qed.

Lemma ready_ok_parts ready pending running :
  ready_ok ready pending running →
  ready = filter (waitingIn pending running true) ready ++
          filter (waitingIn pending running false) ready.
Proof.
  intros [Hnd Helem Hord]. rewrite (changed_first_parts _ _ Hord) at 1.
  f_equal; apply list_filter_iff_in;
    intros n [? ?]%Helem; by apply pendingChanged_waitingIn.
Qed.

(** ** Ordering the ready list *)
Lemma addReady_fold q pass l seen r :
  fold_left (addReady q pass) l (seen, r) =
  (list_to_set (first_occurrences (waitingIn (pending q) (running q) pass) seen l) ∪ seen,
   r ++ first_occurrences (waitingIn (pending q) (running q) pass) seen l).
Proof.
  revert seen r. induction l as [|n l IH]; intros seen r; cbn [fold_left first_occurrences].
  { rewrite app_nil_r. f_equal. set_solver. }
  assert (addReady q pass (seen, r) n =
    if decide (n ∉ seen ∧ waitingIn (pending q) (running q) pass n)
    then ({[n]} ∪ seen, r ++ [n]) else (seen, r)) as ->.
  { unfold addReady, isRunningLocked. case_decide as Hn.
    - destruct Hn as [Hs (Hr & op & Hp & <-)].
      rewrite bool_decide_eq_false_2, Hr, Hp by done. simpl.
      by rewrite Bool.eqb_reflx.
    - destruct (bool_decide (n ∈ seen)) eqn:Hs; [done|].
      apply bool_decide_eq_false in Hs. simpl. case_bool_decide as Hr; [done|].
      destruct (pending q !! n) as [op|] eqn:Hp; [|done].
      destruct (Bool.eqb (changed op) pass) eqn:Hc; [|done].
      apply Bool.eqb_prop in Hc. destruct Hn. split; [done|].
      split; [by apply eq_None_not_Some|eauto]. }
  case_decide; rewrite IH; [|done].
  rewrite <- app_assoc. f_equal. simpl. set_solver.
Qed.

Definition requestNames (requests : list ReconciliationRequest) : list string :=
  map (λ req, Name (Stack req)) requests.

(** One class of the rebuilt ready list: who waited keeps its place, who is new
    follows in request order. *)
Definition rebuiltClass (q : Queue) (requests : list ReconciliationRequest) (pass : bool)
    : list string :=
  first_occurrences (waitingIn (pending q) (running q) pass) ∅
    (ready q ++ requestNames requests).

Lemma rebuildReadyLocked_eq requests q :
  rebuildReadyLocked requests q =
  setWaiting q (rebuiltClass q requests true ++ rebuiltClass q requests false)
    (pending q) (changedAfterFailure q).
Proof.
  unfold rebuildReadyLocked. simpl. fold (requestNames requests).
  rewrite <- !fold_left_app, !addReady_fold. f_equal. unfold rebuiltClass.
  simpl. f_equal. rewrite <- first_occurrences_disjoint; [done|].
  intros x Hx (_ & op & Hop & Hc).
  apply elem_of_list_to_set, elem_of_first_occurrences in Hx as (_ & _ & _ & op' & Hop' & Hc').
  congruence.
Qed.

(** ** The queue invariant *)

(** The ready list is exact ([ready_ok]), a stopped queue holds no work, the
    idle channel is closed exactly when nothing waits or runs, and the gauges
    are current. *)
Record wf (q : Queue) : Prop := {
  wf_ready : ready_ok (ready q) (pending q) (running q);
  wf_stopped : stopped q = true → pending q = ∅;
  wf_fresh : ∀ ch, ch ∈ closed q → ch ≤ idle q;
  wf_idle : idle q ∈ closed q ↔ busy q = false;
  wf_gauges : gauges q = (size (pending q), size (running q));
}.

(** [updateStateLocked] touches the notification state only. *)
Lemma upd_workers q : workers (updateStateLocked q) = workers q.
Proof. unfold updateStateLocked. case_bool_decide; by destruct (busy q). Qed.
Lemma upd_ready q : ready (updateStateLocked q) = ready q.
Proof. unfold updateStateLocked. case_bool_decide; by destruct (busy q). Qed.
Lemma upd_pending q : pending (updateStateLocked q) = pending q.
Proof. unfold updateStateLocked. case_bool_decide; by destruct (busy q). Qed.
Lemma upd_running q : running (updateStateLocked q) = running q.
Proof. unfold updateStateLocked. case_bool_decide; by destruct (busy q). Qed.
Lemma upd_caf q : changedAfterFailure (updateStateLocked q) = changedAfterFailure q.
Proof. unfold updateStateLocked. case_bool_decide; by destruct (busy q). Qed.
Lemma upd_paused q : paused (updateStateLocked q) = paused q.
Proof. unfold updateStateLocked. case_bool_decide; by destruct (busy q). Qed.
Lemma upd_started q : started (updateStateLocked q) = started q.
Proof. unfold updateStateLocked. case_bool_decide; by destruct (busy q). Qed.
Lemma upd_stopped q : stopped (updateStateLocked q) = stopped q.
Proof. unfold updateStateLocked. case_bool_decide; by destruct (busy q). Qed.
Create HintDb queue.
#[export] Hint Rewrite upd_workers upd_ready upd_pending upd_running upd_caf
  upd_paused upd_started upd_stopped : queue.

Lemma updateStateLocked_wf q :
  ready_ok (ready q) (pending q) (running q) →
  (stopped q = true → pending q = ∅) →
  (∀ ch, ch ∈ closed q → ch ≤ idle q) →
  wf (updateStateLocked q).
Proof.
  intros Hr Hs Hf. unfold updateStateLocked.
  case_bool_decide as Hi; destruct (busy q) eqn:Hb; (constructor; simpl; [done|done| | |done]);
    try (unfold busy in *; simpl; rewrite Hb; set_solver).
  - intros ch Hch. pose proof (Hf ch Hch). lia.
  - unfold busy in *. simpl. rewrite Hb. split; [|done].
    intros Hin. specialize (Hf _ Hin). lia.
  - done.
  - done.
  - set_solver.
Qed.

(** The waiting part with [name] not queued yet. *)
Record ready_except (name : string) (ready : list string)
    (pending running : gmap string operation) : Prop := {
  except_NoDup : NoDup ready;
  except_elem : ∀ n, n ∈ ready ↔ n ≠ name ∧ is_Some (pending !! n) ∧ running !! n = None;
  except_order : changed_first pending ready;
}.

Lemma enqueueLocked_ready_ok name q :
  ready_except name (ready q) (pending q) (running q) →
  is_Some (pending q !! name) → running q !! name = None →
  ready_ok (ready (enqueueLocked name q)) (pending q) (running q).
Proof.
  intros [Hnd Helem Hord%changed_first_parts] [op Hop] Hrun. unfold enqueueLocked; simpl.
  set (l1 := filter (λ n, Is_true (pendingChanged (pending q) n)) (ready q)) in *.
  set (l2 := filter (λ n, ¬ Is_true (pendingChanged (pending q) n)) (ready q)) in *.
  assert (∀ n, n ∈ l1 ↔ n ≠ name ∧ waitingIn (pending q) (running q) true n) as H1.
  { intros n. unfold l1. rewrite list_elem_of_filter, Helem. split.
    - intros (? & ? & Hs & ?). split; [done|]. by apply pendingChanged_waitingIn.
    - intros (? & Hw). pose proof Hw as (? & ? & Hp & ?).
      split_and!; [|done|by rewrite Hp|done]. apply (pendingChanged_waitingIn _ (running q)); [done|by rewrite Hp|done]. }
  assert (∀ n, n ∈ l2 ↔ n ≠ name ∧ waitingIn (pending q) (running q) false n) as H2.
  { intros n. unfold l2. rewrite list_elem_of_filter, Helem. split.
    - intros (? & ? & Hs & ?). split; [done|]. by apply pendingChanged_waitingIn.
    - intros (? & Hw). pose proof Hw as (? & ? & Hp & ?).
      split_and!; [|done|by rewrite Hp|done]. apply (pendingChanged_waitingIn _ (running q)); [done|by rewrite Hp|done]. }
  assert (NoDup l1 ∧ NoDup l2) as [Hnd1 Hnd2] by (split; by apply NoDup_filter).
  assert (waitingIn (pending q) (running q) (changed op) name) as Hname by (split; eauto).
  assert (∀ b, waitingIn (pending q) (running q) b name → b = changed op) as Huniq.
  { intros b (_ & op' & Hop' & <-). congruence. }
  assert (∀ n, n = name ∨ n ≠ name) as Hdec by (intros n; destruct (decide (n = name)); auto).
  unfold pendingChanged at 1. rewrite Hop. destruct (changed op) eqn:Hc.
  - assert (slice_insert (ready q) (prefix_length (pendingChanged (pending q)) (ready q)) name
      = (l1 ++ [name]) ++ l2) as ->.
    { rewrite Hord, prefix_length_split.
      - unfold slice_insert. by rewrite take_app_length, drop_app_length, <- app_assoc.
      - apply Forall_forall. unfold l1. intros n [Hn _]%list_elem_of_filter. by apply Is_true_true.
      - apply Forall_forall. unfold l2. intros n [Hn _]%list_elem_of_filter.
        by destruct (pendingChanged (pending q) n). }
    apply ready_ok_intro.
    + apply NoDup_app. split_and!; [done|set_solver|apply NoDup_singleton].
    + done.
    + intros n. rewrite elem_of_app, list_elem_of_singleton, H1. naive_solver.
    + intros n. rewrite H2. naive_solver congruence.
  - rewrite Hord, <- app_assoc. apply ready_ok_intro.
    + done.
    + apply NoDup_app. split_and!; [done|set_solver|apply NoDup_singleton].
    + intros n. rewrite H1. naive_solver congruence.
    + intros n. rewrite elem_of_app, list_elem_of_singleton, H2. naive_solver.
Qed.

Lemma dropLocked_pending matches q :
  pending (dropLocked matches q).2 = filter (λ kv, ¬ Is_true (matches kv.1)) (pending q).
Proof.
  unfold dropLocked. case_bool_decide as Hd; simpl; [|done].
  symmetry. apply map_filter_id. intros n op Hn Hm. simpl in Hm.
  assert (n ∈ @nil string); [|set_solver]. rewrite <- Hd, list_elem_of_filter.
  split; [done|]. apply elem_of_elements, elem_of_dom. eauto.
Qed.

Lemma dropLocked_dropped matches q name :
  name ∈ (dropLocked matches q).1 ↔ Is_true (matches name) ∧ is_Some (pending q !! name).
Proof.
  unfold dropLocked. case_bool_decide as Hd; simpl; rewrite ?elem_of_sort_strings.
  - rewrite <- Hd, list_elem_of_filter, elem_of_elements, elem_of_dom. done.
  - rewrite list_elem_of_filter, elem_of_elements, elem_of_dom. done.
Qed.

Lemma dropLocked_sorted matches q :
  NoDup (dropLocked matches q).1 ∧ StronglySorted String.le (dropLocked matches q).1.
Proof.
  unfold dropLocked. case_bool_decide; simpl; [split; constructor|].
  split; [|apply sort_strings_sorted].
  apply sort_strings_NoDup, NoDup_filter, NoDup_elements.
Qed.

Lemma dropLocked_same matches q :
  let q' := (dropLocked matches q).2 in
  running q' = running q ∧ changedAfterFailure q' = changedAfterFailure q ∧
  stopped q' = stopped q ∧ paused q' = paused q ∧ started q' = started q ∧
  workers q' = workers q ∧ idle q' = idle q ∧ closed q' = closed q.
Proof. unfold dropLocked. by case_bool_decide. Qed.

Lemma pendingChanged_filter (P : string → Prop) `{!∀ x, Decision (P x)} pending n :
  P n → pendingChanged (filter (λ kv, P kv.1) pending) n = pendingChanged pending n.
Proof.
  intros HP. unfold pendingChanged.
  destruct (pending !! n) as [op|] eqn:Hn.
  - by rewrite (map_lookup_filter_Some_2 _ _ n op Hn HP).
  - rewrite map_lookup_filter_None_2; auto.
Qed.

Lemma dropLocked_ready_ok matches q :
  ready_ok (ready q) (pending q) (running q) →
  ready_ok (ready (dropLocked matches q).2) (pending (dropLocked matches q).2) (running q).
Proof.
  intros Hok. rewrite dropLocked_pending. unfold dropLocked.
  case_bool_decide as Hd; simpl.
  { rewrite map_filter_id; [done|]. intros n op Hn Hm. simpl in Hm.
    assert (n ∈ @nil string); [|set_solver]. rewrite <- Hd, list_elem_of_filter.
    split; [done|]. apply elem_of_elements, elem_of_dom. eauto. }
  pose proof Hok as [Hnd Helem _]. rewrite (ready_ok_parts _ _ _ Hok) at 1.
  set (keep := λ n, ¬ Is_true (matches n)).
  assert (∀ b n, n ∈ filter keep (filter (waitingIn (pending q) (running q) b) (ready q)) ↔
    waitingIn (filter (λ kv, keep kv.1) (pending q)) (running q) b n) as Hin.
  { intros b n. rewrite !list_elem_of_filter, Helem. unfold waitingIn.
    setoid_rewrite map_lookup_filter_Some. simpl. naive_solver. }
  rewrite filter_app. apply ready_ok_intro; auto using NoDup_filter.
Qed.

Lemma lookup_replaceRequest running caf changedNames pending req name :
  is_Some (replaceRequest running caf changedNames pending req !! name) →
  name = Name (Stack req) ∨ is_Some (pending !! name).
Proof.
  unfold replaceRequest. destruct (decide (name = Name (Stack req))) as [->|Hne]; [auto|].
  destruct (alreadyRunning _ _ _); rewrite ?lookup_delete_ne, ?lookup_insert_ne; auto.
Qed.

Lemma lookup_replaceRequests running caf changedNames requests pending name :
  is_Some (fold_left (replaceRequest running caf changedNames) requests pending !! name) →
  name ∈ requestNames requests ∨ is_Some (pending !! name).
Proof.
  revert pending. induction requests as [|req requests IH]; intros pending; simpl; [auto|].
  intros [?|[->|?]%lookup_replaceRequest]%IH; set_solver.
Qed.

Lemma elem_of_rebuiltClass q requests pass name :
  (is_Some (pending q !! name) → running q !! name = None →
     name ∈ ready q ∨ name ∈ requestNames requests) →
  name ∈ rebuiltClass q requests pass ↔ waitingIn (pending q) (running q) pass name.
Proof.
  intros Hall. unfold rebuiltClass. rewrite elem_of_first_occurrences, elem_of_app.
  split; [tauto|]. intros Hw. split_and!; [|set_solver|done].
  destruct Hw as (? & op & ? & ?). eauto.
Qed.

(** [Replace] in one equation, for a queue that is not stopped. *)
Lemma Replace_eq requests changedNames q :
  stopped q = false →
  let desired : gset string := list_to_set (requestNames requests) in
  let q1 := (dropLocked (λ name, negb (bool_decide (name ∈ desired))) q).2 in
  let q2 := setWaiting q1 (ready q1)
              (fold_left (replaceRequest (running q) (changedAfterFailure q) changedNames)
                 requests (pending q1)) ∅ in
  Replace requests changedNames q =
  (Some (dropLocked (λ name, negb (bool_decide (name ∈ desired))) q).1,
   updateStateLocked (setWaiting q2
     (rebuiltClass q2 requests true ++ rebuiltClass q2 requests false) (pending q2) ∅)).
Proof.
  intros Hs. simpl. unfold Replace. rewrite Hs. fold (requestNames requests).
  destruct (dropLocked _ q) as [dropped q1] eqn:Hd. simpl.
  rewrite rebuildReadyLocked_eq. simpl.
  pose proof (dropLocked_same (λ name, negb (bool_decide
    (name ∈ (list_to_set (requestNames requests) : gset string)))) q) as Hsame.
  rewrite Hd in Hsame. simpl in Hsame. destruct Hsame as (Hrun & Hcaf & _).
  by rewrite Hrun, Hcaf.
Qed.

Lemma New_wf parallelism : wf (New parallelism).
Proof.
  constructor; simpl; [|done|set_solver|set_solver|done].
  apply (ready_ok_intro ∅ ∅ [] []); try constructor; try set_solver;
    intros (_ & op & Hop & _); by rewrite lookup_empty in Hop.
Qed.

Lemma ready_ok_empty running : ready_ok [] ∅ running.
Proof.
  apply (ready_ok_intro ∅ running [] []); try constructor; try set_solver;
    intros (_ & op & Hop & _); by rewrite lookup_empty in Hop.
Qed.

Lemma setFlags_wf q p s st :
  wf q → (st = true → stopped q = true) → wf (setFlags q p s st).
Proof. intros [] Hst. constructor; simpl; auto. Qed.

Lemma Start_wf q : wf q → wf (Start q).2.
Proof. intros Hq. unfold Start. destruct (_ || _); [done|]. by apply setFlags_wf. Qed.

Lemma Stop_wf q : wf q → wf (Stop q).
Proof. intros []. apply updateStateLocked_wf; simpl; auto using ready_ok_empty. Qed.

Lemma Pause_wf q : wf q → wf (Pause q).2.
Proof. intros Hq. unfold Pause. destruct (stopped q) eqn:?; [done|]. by apply setFlags_wf. Qed.

Lemma Resume_wf q : wf q → wf (Resume q).
Proof. intros Hq. by apply setFlags_wf. Qed.

Lemma Clear_wf changedNames q : wf q → wf (Clear changedNames q).2.
Proof.
  intros [Hr Hs Hf Hi Hg]. unfold Clear.
  set (q0 := setWaiting q _ _ _).
  pose proof (dropLocked_same (λ _, true) q0) as (Hrun & Hcaf & Hst & _ & _ & _ & Hid & Hcl).
  pose proof (dropLocked_ready_ok (λ _, true) q0 Hr) as Hok.
  pose proof (dropLocked_pending (λ _, true) q0) as Hp.
  destruct (dropLocked _ q0) as [dropped q1]; simpl in *.
  apply updateStateLocked_wf.
  - by rewrite Hrun.
  - rewrite Hst, Hp. intros Hs'. by rewrite (Hs Hs'), map_filter_empty.
  - by rewrite Hcl, Hid.
Qed.

Lemma Replace_wf requests changedNames q : wf q → wf (Replace requests changedNames q).2.
Proof.
  intros [Hr Hs Hf Hi Hg].
  destruct (stopped q) eqn:Hst; [unfold Replace; rewrite Hst; constructor; auto|].
  rewrite Replace_eq by done.
  set (m := λ name, _).
  pose proof (dropLocked_same m q) as (Hrun & _ & Hst' & _ & _ & _ & Hid & Hcl).
  pose proof (dropLocked_ready_ok m q Hr) as [Hnd Helem _].
  apply updateStateLocked_wf; simpl.
  - rewrite Hrun.
    apply ready_ok_intro;
      [apply first_occurrences_NoDup|apply first_occurrences_NoDup| |];
      intros name; (rewrite elem_of_rebuiltClass; simpl; [by rewrite Hrun|]);
      (intros [?|?]%lookup_replaceRequests ?; [by right|left; apply Helem; by rewrite <- Hrun]).
  - by rewrite Hst', Hst.
  - by rewrite Hid, Hcl.
Qed.

Lemma ready_ok_except name op ready pending running :
  ready_ok ready pending running → pending !! name = None → running !! name = None →
  ready_except name ready (<[name := op]> pending) running.
Proof.
  intros Hok Hp Hr. pose proof Hok as [Hnd Helem Hord].
  assert (∀ n, n ∈ ready → n ≠ name) as Hne.
  { intros n [[? Hn] _]%Helem ->. congruence. }
  constructor.
  - done.
  - intros n. rewrite Helem. destruct (decide (n = name)) as [->|Hn].
    + rewrite Hp. split; [intros [[? [=]] _] | tauto].
    + rewrite lookup_insert_ne by done. tauto.
  - eapply StronglySorted_impl_in; [|exact Hord]. simpl.
    intros x y Hx%Hne Hy%Hne. unfold pendingChanged. by rewrite !lookup_insert_ne.
Qed.

Lemma SubmitCleanup_wf stack commit q : wf q → wf (SubmitCleanup stack commit q).2.
Proof.
  intros Hq. unfold SubmitCleanup, isRunningLocked.
  destruct (stopped q) eqn:Hst; [done|]. destruct (paused q); [done|]. simpl.
  case_bool_decide as Hr; [done|]. case_bool_decide as Hp; [done|]. simpl.
  apply eq_None_not_Some in Hr, Hp. destruct Hq as [Hok Hs Hf Hi Hg].
  set (q1 := setWaiting q (ready q) _ _).
  apply updateStateLocked_wf; [|simpl; by rewrite Hst|done].
  apply (enqueueLocked_ready_ok (Name stack) q1); simpl;
    [by apply ready_ok_except | by rewrite lookup_insert_eq | done].
Qed.

(** What [next] takes is the head of the ready list, which waits. *)
Lemma next_operation q name op q' :
  next q = (NextOperation name op, q') → wf q →
  stopped q = false ∧ paused q = false ∧ pending q !! name = Some op ∧
  running q !! name = None ∧ ∃ rest, ready q = name :: rest.
Proof.
  unfold next. intros Hn [[_ Helem _] _ _ _ _].
  destruct (stopped q); [done|]. destruct (paused q); [done|].
  destruct (ready q) as [|n rest]; [done|]. simplify_eq.
  destruct (Helem name) as [[[op Hop] Hr] _]; [set_solver|].
  rewrite Hop. eauto 10.
Qed.

Lemma next_wf q : wf q → wf (next q).2.
Proof.
  intros Hq. destruct (next q) as [r q'] eqn:Hn. pose proof Hn as Hn'.
  unfold next in Hn.
  destruct (stopped q) eqn:Hst; [by simplify_eq|].
  destruct (paused q); [by simplify_eq|].
  destruct (ready q) as [|name rest] eqn:Hrd; [by simplify_eq|]. simplify_eq. simpl.
  destruct (next_operation _ _ _ _ Hn' Hq) as (_ & _ & Hp & Hr & _).
  destruct Hq as [Hok Hs Hf _ _]. rewrite Hrd in Hok.
  destruct Hok as [[Hname Hnd]%NoDup_cons Helem [_ Hord]%StronglySorted_cons].
  apply updateStateLocked_wf; simpl; [|by rewrite Hst|done].
  constructor; [done| |].
  - intros n. destruct (decide (n = name)) as [->|Hne].
    + rewrite lookup_insert_eq, lookup_delete_eq. split; [done|by intros [[? [=]] _]].
    + rewrite lookup_delete_ne, lookup_insert_ne, <- Helem by done. set_solver.
  - eapply StronglySorted_impl_in; [|exact Hord]. simpl.
    intros x y Hx Hy. unfold pendingChanged. by rewrite !lookup_delete_ne by set_solver.
Qed.

Lemma finish_wf name q : is_Some (running q !! name) → wf q → wf (finish name q).
Proof.
  intros [r Hrun] [[Hnd Helem Hord] Hs Hf _ _]. unfold finish.
  set (q1 := setRunning q (delete name (running q))).
  assert (∀ n, n ∈ ready q ↔ n ≠ name ∧ is_Some (pending q !! n) ∧ running q1 !! n = None) as Hn.
  { intros n. simpl. rewrite Helem.
    destruct (decide (n = name)) as [->|Hne]; [naive_solver congruence|].
    rewrite lookup_delete_ne by done. tauto. }
  case_bool_decide as Hp; (apply updateStateLocked_wf; [|done..]).
  - apply (enqueueLocked_ready_ok name q1);
      [by constructor | done | apply lookup_delete_eq].
  - constructor; [done| |done]. intros n. change (n ∈ ready q ↔ is_Some (pending q !! n) ∧ running q1 !! n = None). rewrite Hn. change (pending q1) with (pending q) in Hp.
    destruct (decide (n = name)) as [->|Hne]; tauto.
Qed.

(** ** The concurrent system

    The workers of [work] run [next], [execute] and [finish] in a loop; the
    methods of the queue are called by other goroutines. Each step is one
    critical section of [q.mu]. *)
Inductive worker :=
| Waiting
| Executing (name : string) (op : operation)
| Exited.

Record system := { queue : Queue; pool : list worker }.

Inductive step : system → system → Prop :=
| step_start s :
    step s {| queue := (Start (queue s)).2;
              pool := pool s ++ replicate (Start (queue s)).1 Waiting |}
| step_stop s : step s {| queue := Stop (queue s); pool := pool s |}
| step_pause s : step s {| queue := (Pause (queue s)).2; pool := pool s |}
| step_resume s : step s {| queue := Resume (queue s); pool := pool s |}
| step_replace s requests changedNames :
    step s {| queue := (Replace requests changedNames (queue s)).2; pool := pool s |}
| step_clear s changedNames :
    step s {| queue := (Clear changedNames (queue s)).2; pool := pool s |}
| step_cleanup s stack commit :
    step s {| queue := (SubmitCleanup stack commit (queue s)).2; pool := pool s |}
| step_next s i name op q' :
    pool s !! i = Some Waiting → next (queue s) = (NextOperation name op, q') →
    step s {| queue := q'; pool := <[i := Executing name op]> (pool s) |}
| step_exit s i q' :
    pool s !! i = Some Waiting → next (queue s) = (NextStopped, q') →
    step s {| queue := q'; pool := <[i := Exited]> (pool s) |}
| step_finish s i name op :
    pool s !! i = Some (Executing name op) →
    step s {| queue := finish name (queue s); pool := <[i := Waiting]> (pool s) |}.

Definition initial (parallelism : Z) : system :=
  {| queue := New parallelism; pool := [] |}.

Definition reachable (parallelism : Z) (s : system) : Prop :=
  rtc step (initial parallelism) s.

(** The running map is what the workers execute, and the pool is as large as
    configured. *)
Record consistent (parallelism : Z) (s : system) : Prop := {
  cs_queue : wf (queue s);
  cs_running : ∀ name op, running (queue s) !! name = Some op ↔
    ∃ i, pool s !! i = Some (Executing name op);
  cs_unique : ∀ i j name op op', pool s !! i = Some (Executing name op) →
    pool s !! j = Some (Executing name op') → i = j;
  cs_workers : workers (queue s) = Z.to_nat (Z.max parallelism 1);
  cs_pool : length (pool s) = if started (queue s) then workers (queue s) else 0;
}.

(** No operation but [Start], [next] and [finish] touches the workers. *)
Record same_workers (q q' : Queue) : Prop := {
  sw_running : running q' = running q;
  sw_workers : workers q' = workers q;
  sw_started : started q' = started q;
}.

Lemma dropLocked_same_workers matches q : same_workers q (dropLocked matches q).2.
Proof. unfold dropLocked. by case_bool_decide. Qed.

Lemma Stop_same q : same_workers q (Stop q).
Proof. unfold Stop. constructor; by autorewrite with queue. Qed.

Lemma Start_same_running q : running (Start q).2 = running q.
Proof. unfold Start. by destruct (_ || _). Qed.

Lemma Pause_same q : same_workers q (Pause q).2.
Proof. unfold Pause. by destruct (stopped q). Qed.

Lemma Clear_same changedNames q : same_workers q (Clear changedNames q).2.
Proof.
  unfold Clear. destruct (dropLocked _ _) as [d q1] eqn:Hd.
  match type of Hd with dropLocked ?m ?q0 = _ =>
    pose proof (dropLocked_same_workers m q0) as [Hr Hw Hst] end.
  rewrite Hd in *. constructor; simpl; by autorewrite with queue.
Qed.

Lemma Replace_same requests changedNames q :
  same_workers q (Replace requests changedNames q).2.
Proof.
  destruct (stopped q) eqn:Hs; [unfold Replace; by rewrite Hs|].
  rewrite Replace_eq by done. simpl. set (m := λ name, _).
  destruct (dropLocked_same_workers m q) as [Hr Hw Hst].
  constructor; autorewrite with queue; done.
Qed.

Lemma SubmitCleanup_same stack commit q :
  same_workers q (SubmitCleanup stack commit q).2.
Proof.
  unfold SubmitCleanup. destruct (_ || _); [done|]. case_bool_decide; [done|].
  constructor; simpl; by autorewrite with queue.
Qed.

Lemma consistent_same p s q' :
  consistent p s → wf q' → same_workers (queue s) q' →
  consistent p {| queue := q'; pool := pool s |}.
Proof.
  intros [Hq Hrun Huniq Hw Hpool] Hq' [Hr Hw' Hst]. constructor; simpl; try done.
  - intros name op. by rewrite Hr.
  - by rewrite Hw'.
  - by rewrite Hst, Hw'.
Qed.

Lemma consistent_start p s :
  consistent p s →
  consistent p {| queue := (Start (queue s)).2;
                  pool := pool s ++ replicate (Start (queue s)).1 Waiting |}.
Proof.
  intros [Hq Hrun Huniq Hw Hpool]. pose proof (Start_wf _ Hq) as Hq'.
  unfold Start in *. destruct (started (queue s)) eqn:Hst; simpl in *.
  { rewrite app_nil_r. constructor; simpl; rewrite ?Hst; done. }
  destruct (stopped (queue s)); simpl in *.
  { rewrite app_nil_r. constructor; simpl; rewrite ?Hst; done. }
  apply nil_length_inv in Hpool. rewrite Hpool in *. constructor; simpl; try done.
  - intros name op. rewrite Hrun. split; intros [i Hi]; [done|].
    by apply lookup_replicate in Hi as [? _].
  - intros i j name op op' Hi. by apply lookup_replicate in Hi as [? _].
  - apply length_replicate.
Qed.

Lemma next_same q r q' :
  next q = (r, q') →
  workers q' = workers q ∧ started q' = started q ∧
  running q' = match r with NextOperation name op => <[name := op]> (running q)
               | _ => running q end.
Proof.
  unfold next. intros Hn. destruct (stopped q); [by simplify_eq|].
  destruct (paused q); [by simplify_eq|]. destruct (ready q); [by simplify_eq|].
  simplify_eq. by autorewrite with queue.
Qed.

Lemma consistent_next p s i name op q' :
  consistent p s → pool s !! i = Some Waiting →
  next (queue s) = (NextOperation name op, q') →
  consistent p {| queue := q'; pool := <[i := Executing name op]> (pool s) |}.
Proof.
  intros [Hq Hrun Huniq Hw Hpool] Hi Hn.
  destruct (next_operation _ _ _ _ Hn Hq) as (_ & _ & _ & Hnone & _).
  pose proof (next_wf _ Hq) as Hq'. rewrite Hn in Hq'.
  destruct (next_same _ _ _ Hn) as (Hw' & Hst' & Hr').
  assert (∀ j op', pool s !! j ≠ Some (Executing name op')) as Hno.
  { intros j op' Hj. assert (running (queue s) !! name = Some op') by (apply Hrun; eauto).
    congruence. }
  pose proof (lookup_lt_Some _ _ _ Hi) as Hlt.
  constructor; simpl.
  - done.
  - intros n o. rewrite Hr'. destruct (decide (n = name)) as [->|Hne].
    + rewrite lookup_insert_eq. split.
      * intros [= ->]. exists i. by rewrite list_lookup_insert_eq.
      * intros [j Hj]. apply list_lookup_insert_Some in Hj as [(-> & Ho & _)|[_ Hj]];
          [congruence|by destruct (Hno j o)].
    + rewrite lookup_insert_ne, Hrun by done. split; intros [j Hj]; exists j.
      * rewrite list_lookup_insert_ne; [done|]. intros ->. congruence.
      * apply list_lookup_insert_Some in Hj as [(-> & Ho & _)|[_ Hj]]; [congruence|done].
  - intros j k n o o' Hj Hk.
    apply list_lookup_insert_Some in Hj as [(-> & Ho & _)|[Hij Hj]];
      apply list_lookup_insert_Some in Hk as [(-> & Ho' & _)|[Hik Hk]]; simplify_eq.
    + done.
    + by destruct (Hno k o').
    + by destruct (Hno j o).
    + by eapply Huniq.
  - by rewrite Hw'.
  - by rewrite length_insert, Hpool, Hst', Hw'.
Qed.

Lemma consistent_exit p s i q' :
  consistent p s → pool s !! i = Some Waiting →
  next (queue s) = (NextStopped, q') →
  consistent p {| queue := q'; pool := <[i := Exited]> (pool s) |}.
Proof.
  intros [Hq Hrun Huniq Hw Hpool] Hi Hn.
  assert (q' = queue s) as ->.
  { unfold next in Hn. destruct (stopped (queue s)); [congruence|].
    destruct (paused (queue s)); [congruence|]. destruct (ready (queue s)); congruence. }
  pose proof (lookup_lt_Some _ _ _ Hi) as Hlt.
  constructor; simpl; [done| | |done|by rewrite length_insert].
  - intros n o. rewrite Hrun. split; intros [j Hj]; exists j.
    + rewrite list_lookup_insert_ne; [done|]. intros ->. congruence.
    + by apply list_lookup_insert_Some in Hj as [(_ & ? & _)|[_ Hj]].
  - intros j k n o o' Hj Hk.
    apply list_lookup_insert_Some in Hj as [(_ & ? & _)|[Hij Hj]]; [done|].
    apply list_lookup_insert_Some in Hk as [(_ & ? & _)|[Hik Hk]]; [done|].
    by eapply Huniq.
Qed.

Lemma finish_same name q :
  workers (finish name q) = workers q ∧ started (finish name q) = started q ∧
  running (finish name q) = delete name (running q).
Proof. unfold finish. case_bool_decide; by autorewrite with queue. Qed.

Lemma consistent_finish p s i name op :
  consistent p s → pool s !! i = Some (Executing name op) →
  consistent p {| queue := finish name (queue s); pool := <[i := Waiting]> (pool s) |}.
Proof.
  intros [Hq Hrun Huniq Hw Hpool] Hi.
  assert (running (queue s) !! name = Some op) as Hr by (apply Hrun; eauto).
  destruct (finish_same name (queue s)) as (Hw' & Hst' & Hr').
  constructor; simpl.
  - apply finish_wf; [by rewrite Hr|done].
  - intros n o. rewrite Hr'. destruct (decide (n = name)) as [->|Hne].
    + rewrite lookup_delete_eq. split; [done|]. intros [j Hj].
      apply list_lookup_insert_Some in Hj as [(_ & ? & _)|[Hij Hj]]; [done|].
      by destruct Hij; eapply Huniq.
    + rewrite lookup_delete_ne, Hrun by done. split; intros [j Hj]; exists j.
      * rewrite list_lookup_insert_ne; [done|]. intros ->. congruence.
      * by apply list_lookup_insert_Some in Hj as [(_ & ? & _)|[_ Hj]].
  - intros j k n o o' Hj Hk.
    apply list_lookup_insert_Some in Hj as [(_ & ? & _)|[Hij Hj]]; [done|].
    apply list_lookup_insert_Some in Hk as [(_ & ? & _)|[Hik Hk]]; [done|].
    by eapply Huniq.
  - by rewrite Hw'.
  - by rewrite length_insert, Hst', Hw'.
Qed.

Lemma step_consistent p s s' : step s s' → consistent p s → consistent p s'.
Proof.
  intros Hstep Hc. pose proof (cs_queue _ _ Hc) as Hq.
  destruct Hstep; eauto using consistent_start, consistent_next, consistent_exit,
    consistent_finish; apply consistent_same; auto using Stop_wf, Pause_wf, Resume_wf,
    Replace_wf, Clear_wf, SubmitCleanup_wf, Stop_same, Pause_same, Replace_same,
    Clear_same, SubmitCleanup_same; by constructor.
Qed.

Lemma initial_consistent p : consistent p (initial p).
Proof.
  constructor; simpl; [apply New_wf| |done|done|done].
  intros name op. rewrite lookup_empty. split; [done|by intros [i Hi]].
Qed.

Lemma consistent_rtc p s s' : rtc step s s' → consistent p s → consistent p s'.
Proof. induction 1; eauto using step_consistent. Qed.

Lemma reachable_consistent p s : reachable p s → consistent p s.
Proof. intros Hr. by eapply consistent_rtc, initial_consistent. Qed.

(** ** What [Replace] leaves in the queue *)
Lemma dropLocked_ready matches q :
  ready_ok (ready q) (pending q) (running q) →
  ready (dropLocked matches q).2 = filter (λ name, ¬ Is_true (matches name)) (ready q).
Proof.
  intros [_ Helem _]. unfold dropLocked. case_bool_decide as Hd; simpl; [|done].
  symmetry. apply list_filter_all, Forall_forall. intros n [Hn _]%Helem Hm.
  assert (n ∈ @nil string); [|set_solver]. rewrite <- Hd, list_elem_of_filter.
  split; [done|]. by apply elem_of_elements, elem_of_dom.
Qed.

(** What waits for the stack of a request after [Replace]. *)
Definition replacement (q : Queue) (changedNames : gmap string bool)
    (req : ReconciliationRequest) : option operation :=
  let op := replaceOperation (changedAfterFailure q) changedNames (pending q) req in
  if alreadyRunning (running q) req op then None else Some op.

Lemma replaceRequest_lookup running caf changedNames pending req name :
  replaceRequest running caf changedNames pending req !! name =
  if decide (name = Name (Stack req)) then
    let op := replaceOperation caf changedNames pending req in
    if alreadyRunning running req op then None else Some op
  else pending !! name.
Proof.
  unfold replaceRequest. case_decide as Hn.
  - subst. destruct (alreadyRunning _ _ _); [apply lookup_delete_eq|apply lookup_insert_eq].
  - destruct (alreadyRunning _ _ _); [by rewrite lookup_delete_ne|by rewrite lookup_insert_ne].
Qed.

Lemma replaceOperation_ext caf changedNames pending pending' req :
  pending !! Name (Stack req) = pending' !! Name (Stack req) →
  replaceOperation caf changedNames pending req = replaceOperation caf changedNames pending' req.
Proof. intros H. unfold replaceOperation. by rewrite H. Qed.

Lemma elem_of_requestNames requests name :
  name ∈ requestNames requests ↔ ∃ req, req ∈ requests ∧ Name (Stack req) = name.
Proof.
  unfold requestNames. rewrite list_elem_of_In, in_map_iff.
  setoid_rewrite list_elem_of_In. naive_solver.
Qed.

Lemma replaceRequests_lookup running caf changedNames requests pending name :
  NoDup (requestNames requests) →
  fold_left (replaceRequest running caf changedNames) requests pending !! name =
  match list_find (λ req, Name (Stack req) = name) requests with
  | Some (_, req) =>
      let op := replaceOperation caf changedNames pending req in
      if alreadyRunning running req op then None else Some op
  | None => pending !! name
  end.
Proof.
  revert pending. induction requests as [|req requests IH]; intros pending; [done|].
  simpl. intros [Hreq Hnd]%NoDup_cons. rewrite IH by done. case_decide as Hn.
  - subst. assert (list_find (λ r, Name (Stack r) = Name (Stack req)) requests = None) as ->.
    { apply list_find_None, Forall_forall. intros r Hr Heq. apply Hreq.
      rewrite elem_of_requestNames. eauto. }
    by rewrite replaceRequest_lookup, decide_True.
  - destruct (list_find _ requests) as [[i r]|] eqn:Hf; simpl.
    + apply list_find_Some in Hf as (_ & Hr & _).
      rewrite (replaceOperation_ext _ _ _ pending); [done|].
      rewrite replaceRequest_lookup, decide_False; [done|]. congruence.
    + by rewrite replaceRequest_lookup, decide_False.
Qed.

Lemma list_find_request requests req :
  NoDup (requestNames requests) → req ∈ requests →
  ∃ i, list_find (λ r, Name (Stack r) = Name (Stack req)) requests = Some (i, req).
Proof.
  induction requests as [|r requests IH]; [by intros _ ?%elem_of_nil|].
  simpl. intros [Hr Hnd]%NoDup_cons [->|Hin]%elem_of_cons; case_decide as Hn; eauto.
  - done.
  - destruct Hr. rewrite Hn. apply elem_of_requestNames. eauto.
  - destruct (IH Hnd Hin) as [i Hi]. exists (S i). by rewrite Hi.
Qed.

Lemma Replace_lookup requests changedNames q :
  stopped q = false → NoDup (requestNames requests) →
  let q' := (Replace requests changedNames q).2 in
  (∀ req, req ∈ requests →
     pending q' !! Name (Stack req) = replacement q changedNames req) ∧
  (∀ name, name ∉ requestNames requests → pending q' !! name = None).
Proof.
  intros Hs Hnd. rewrite Replace_eq by done. simpl. autorewrite with queue. simpl.
  set (m := λ name, _).
  assert (∀ name, name ∈ requestNames requests →
    pending (dropLocked m q).2 !! name = pending q !! name) as Hkeep.
  { intros name Hn. rewrite dropLocked_pending, map_lookup_filter.
    destruct (pending q !! name); [|done]. simpl. rewrite option_guard_True; [done|].
    unfold m. rewrite bool_decide_eq_true_2; [by intros []|].
    by apply elem_of_list_to_set. }
  split.
  - intros req Hreq. destruct (list_find_request _ _ Hnd Hreq) as [i Hi].
    rewrite replaceRequests_lookup, Hi by done. unfold replacement. simpl.
    rewrite (replaceOperation_ext _ _ _ (pending q)); [done|].
    apply Hkeep, elem_of_requestNames. eauto.
  - intros name Hn. rewrite replaceRequests_lookup by done.
    assert (list_find (λ r, Name (Stack r) = name) requests = None) as ->.
    { apply list_find_None, Forall_forall. intros r Hr <-. apply Hn, elem_of_requestNames. eauto. }
    rewrite dropLocked_pending. apply map_lookup_filter_None_2. right. intros op _ Hm.
    apply Hm. simpl. unfold m. rewrite bool_decide_eq_false_2; [done|].
    by rewrite elem_of_list_to_set.
Qed.

Lemma Replace_names requests changedNames q name :
  stopped q = false →
  is_Some (pending (Replace requests changedNames q).2 !! name) →
  name ∈ requestNames requests.
Proof.
  intros Hs. rewrite Replace_eq by done. simpl. autorewrite with queue. simpl.
  intros [?|[op Hop]]%lookup_replaceRequests; [done|].
  rewrite dropLocked_pending in Hop. apply map_lookup_filter_Some in Hop as [_ Hm].
  simpl in Hm. case_bool_decide as Hn; [by apply elem_of_list_to_set in Hn|by destruct Hm].
Qed.

(** One class of the new ready list: the kept part in its old order, then the
    newly queued names. *)
Lemma Replace_class requests changedNames q pass :
  wf q → stopped q = false →
  let q' := (Replace requests changedNames q).2 in
  let P := waitingIn (pending q') (running q') pass in
  ∃ new, filter P (ready q') =
    filter P (filter (λ n, n ∈ requestNames requests) (ready q)) ++ new ∧
    (∀ n, n ∈ new → n ∈ requestNames requests → n ∉ ready q).
Proof.
  intros Hq Hs. pose proof (wf_ready _ Hq) as Hok.
  rewrite Replace_eq by done. simpl. autorewrite with queue. simpl.
  set (m := λ name : string,
    negb (bool_decide (name ∈ (list_to_set (requestNames requests) : gset string)))).
  set (q2 := setWaiting (dropLocked m q).2 _ _ _).
  set (P := waitingIn (pending q2) (running q2) pass).
  change (running (dropLocked m q).2) with (running q2).
  assert (ready q2 = filter (λ n, n ∈ requestNames requests) (ready q)) as Hready.
  { simpl. rewrite dropLocked_ready by done. apply list_filter_iff. intros n.
    unfold m. case_bool_decide as Hn; rewrite elem_of_list_to_set in Hn; simpl; tauto. }
  assert (NoDup (ready q2)) as Hnd by (rewrite Hready; apply NoDup_filter, Hok).
  assert (filter P (rebuiltClass q2 requests true ++ rebuiltClass q2 requests false)
          = rebuiltClass q2 requests pass) as Hclass.
  { rewrite filter_app. assert (∀ b, b ≠ pass → filter P (rebuiltClass q2 requests b) = []) as Hno.
    { intros b Hb. apply list_filter_none, Forall_forall.
      intros n (_ & _ & _ & op & Hop & Hc)%elem_of_first_occurrences (_ & op' & Hop' & Hc').
      congruence. }
    assert (filter P (rebuiltClass q2 requests pass) = rebuiltClass q2 requests pass) as Hyes.
    { apply list_filter_all, Forall_forall. by intros n (_ & _ & ?)%elem_of_first_occurrences. }
    destruct pass; rewrite Hyes, Hno, ?app_nil_r by done; done. }
  change (∃ new, filter P (rebuiltClass q2 requests true ++ rebuiltClass q2 requests false) =
    filter P (filter (λ n, n ∈ requestNames requests) (ready q)) ++ new ∧
    ∀ n, n ∈ new → n ∈ requestNames requests → n ∉ ready q).
  rewrite Hclass.
  unfold rebuiltClass. fold P. rewrite first_occurrences_app.
  rewrite (first_occurrences_NoDup_filter _ _ (ready q2)) by done.
  eexists. split.
  - rewrite <- Hready. f_equal. apply list_filter_iff. intros n. set_solver.
  - intros n (_ & Hn & HP)%elem_of_first_occurrences Hname Hin. apply Hn.
    rewrite elem_of_union, elem_of_list_to_set, list_elem_of_filter, Hready,
      list_elem_of_filter. set_solver.
Qed.

(** ** Draining: what the workers do on their own *)
Inductive worker_step : system → system → Prop :=
| worker_next s i name op q' :
    pool s !! i = Some Waiting → next (queue s) = (NextOperation name op, q') →
    worker_step s {| queue := q'; pool := <[i := Executing name op]> (pool s) |}
| worker_finish s i name op :
    pool s !! i = Some (Executing name op) →
    worker_step s {| queue := finish name (queue s); pool := <[i := Waiting]> (pool s) |}.

Lemma worker_step_step s s' : worker_step s s' → step s s'.
Proof. destruct 1; by econstructor. Qed.

(** Every unit of work costs a [next] and a [finish]. *)
Definition work_left (q : Queue) : nat := 2 * size (pending q) + size (running q).

Lemma next_effect q name op q' :
  wf q → next q = (NextOperation name op, q') →
  pending q !! name = Some op ∧ running q !! name = None ∧
  pending q' = delete name (pending q) ∧ running q' = <[name := op]> (running q) ∧
  paused q' = paused q ∧ started q' = started q ∧ stopped q' = stopped q.
Proof.
  intros Hq. unfold next. destruct (stopped q) eqn:?; [done|].
  destruct (paused q) eqn:?; [done|].
  pose proof (wf_ready _ Hq) as [_ Helem _].
  destruct (ready q) as [|n rest]; [done|]. intros ?. simplify_eq.
  destruct (Helem name) as [[[op Hop] Hr] _]; [set_solver|].
  rewrite Hop. autorewrite with queue. done.
Qed.

Lemma finish_effect name q :
  pending (finish name q) = pending q ∧ running (finish name q) = delete name (running q) ∧
  paused (finish name q) = paused q ∧ started (finish name q) = started q ∧
  stopped (finish name q) = stopped q.
Proof. unfold finish. case_bool_decide; by autorewrite with queue. Qed.

Lemma worker_step_measure p s s' :
  consistent p s → worker_step s s' → work_left (queue s') < work_left (queue s).
Proof.
  intros Hc Hs. unfold work_left. destruct Hs as [s i name op q' Hi Hn|s i name op Hi]; simpl.
  - destruct (next_effect _ _ _ _ (cs_queue _ _ Hc) Hn) as (Hp & Hr & -> & -> & _).
    rewrite map_size_insert_None by done.
    rewrite map_size_delete_Some by eauto.
    assert (size (pending (queue s)) ≠ 0).
    { intros H0%map_size_empty_inv. by rewrite H0, lookup_empty in Hp. }
    lia.
  - destruct (finish_effect name (queue s)) as (-> & -> & _).
    assert (running (queue s) !! name = Some op) as Hr by (apply (cs_running _ _ Hc); eauto).
    rewrite map_size_delete_Some by eauto.
    assert (size (running (queue s)) ≠ 0).
    { intros H0%map_size_empty_inv. by rewrite H0, lookup_empty in Hr. }
    lia.
Qed.

Lemma worker_step_flags p s s' :
  consistent p s → worker_step s s' →
  paused (queue s') = paused (queue s) ∧ started (queue s') = started (queue s) ∧
  stopped (queue s') = stopped (queue s).
Proof.
  intros Hc Hs. destruct Hs as [s i name op q' Hi Hn|s i name op Hi]; simpl.
  - by destruct (next_effect _ _ _ _ (cs_queue _ _ Hc) Hn) as (_ & _ & _ & _ & ?).
  - by destruct (finish_effect name (queue s)) as (_ & _ & ?).
Qed.

(** While work is left on a started queue that is neither paused nor stopped,
    some worker can move. *)
Lemma worker_progress p s :
  consistent p s → started (queue s) = true → paused (queue s) = false →
  stopped (queue s) = false → (∀ w, w ∈ pool s → w ≠ Exited) →
  busy (queue s) = true → ∃ s', worker_step s s'.
Proof.
  intros [Hq Hrun Huniq Hw Hpool] Hst Hp Hs Hex Hb.
  destruct (decide (running (queue s) = ∅)) as [Hr|Hr].
  - assert (∃ name, name ∈ ready (queue s)) as [name Hname].
    { assert (pending (queue s) ≠ ∅) as Hne.
      { intros Hpe. unfold busy in Hb. rewrite Hpe, Hr in Hb. done. }
      apply map_choose in Hne as (name & op & Hop). exists name.
      apply (ready_elem _ _ _ (wf_ready _ Hq)). rewrite Hop, Hr, lookup_empty. eauto. }
    rewrite Hst in Hpool. destruct (pool s) as [|w pl] eqn:Hpl; [simpl in *; lia|].
    assert (pool s !! 0 = Some Waiting) as H0.
    { rewrite Hpl. destruct w as [|n o|]; simpl; [done| |].
      - assert (running (queue s) !! n = Some o) as Hx by (apply Hrun; by exists 0).
        by rewrite Hr, lookup_empty in Hx.
      - exfalso. apply (Hex Exited); [set_solver|done]. }
    destruct (next (queue s)) as [r q'] eqn:Hn. unfold next in Hn. rewrite Hs, Hp in Hn.
    destruct (ready (queue s)) as [|n rest] eqn:Hrd; [set_solver|]. simplify_eq.
    eexists. eapply (worker_next s 0 n); [done|]. unfold next. by rewrite Hs, Hp, Hrd.
  - apply map_choose in Hr as (name & op & Hop). apply Hrun in Hop as [i Hi].
    eexists. by eapply worker_finish.
Qed.

Lemma worker_step_exited s s' :
  worker_step s s' → (∀ w, w ∈ pool s → w ≠ Exited) → ∀ w, w ∈ pool s' → w ≠ Exited.
Proof.
  destruct 1; simpl; intros Hex w [j Hj]%list_elem_of_lookup;
    apply list_lookup_insert_Some in Hj as [(_ & <- & _)|[_ Hj]]; try done;
    by eapply Hex, list_elem_of_lookup_2.
Qed.

(** [Stop] is final. *)
Lemma step_stopped s s' :
  step s s' → stopped (queue s) = true → stopped (queue s') = true.
Proof.
  intros Hstep Hs.
  destruct Hstep; simpl; unfold Start, Stop, Pause, Replace, SubmitCleanup, next in *;
    rewrite ?Hs in *; rewrite ?orb_true_r; autorewrite with queue; simplify_eq; try done.
  - unfold Clear. destruct (dropLocked _ _) as [d q1] eqn:Hd.
    match type of Hd with dropLocked ?m ?q0 = _ =>
      pose proof (dropLocked_same m q0) as (_ & _ & H & _) end.
    rewrite Hd in H. simpl in *. by rewrite upd_stopped, H.
  - by destruct (finish_effect name (queue s)) as (_ & _ & _ & _ & ->).
Qed.

(** Workers exit only once the queue is stopped. *)
Lemma step_exited s s' :
  step s s' → (Exited ∈ pool s → stopped (queue s) = true) →
  Exited ∈ pool s' → stopped (queue s') = true.
Proof.
  intros Hstep H0 Hex. pose proof (step_stopped _ _ Hstep) as Hmono.
  assert (Exited ∈ pool s → stopped (queue s') = true) as Hold by auto.
  destruct Hstep; simpl in *; auto;
    repeat match goal with
    | H : Exited ∈ _ ++ _ |- _ => apply elem_of_app in H as [H|H]
    | H : Exited ∈ replicate _ _ |- _ => apply elem_of_replicate in H as [? _]
    | H : Exited ∈ <[_:=_]> _ |- _ =>
        apply list_elem_of_lookup in H as [j Hj];
        apply list_lookup_insert_Some in Hj as [(_ & ? & _)|[_ Hj]]
    end; try done; eauto using list_elem_of_lookup_2.
  unfold next in *. destruct (stopped (queue s)) eqn:Hs; [by simplify_eq|].
  destruct (paused (queue s)); [done|]. by destruct (ready (queue s)).
Qed.

Lemma reachable_exited p s :
  reachable p s → Exited ∈ pool s → stopped (queue s) = true.
Proof.
  unfold reachable. intros Hr.
  assert (Exited ∈ pool (initial p) → stopped (queue (initial p)) = true) as H0
    by (simpl; set_solver).
  induction Hr as [|s0 s1 s2 H01 _ IH]; [done|]. apply IH. by eapply step_exited.
Qed.

Lemma drain_terminates p s :
  consistent p s → Acc (flip worker_step) s.
Proof.
  remember (work_left (queue s)) as n eqn:Hn. revert s Hn.
  induction n as [n IH] using lt_wf_ind. intros s -> Hc. constructor. intros s' Hs.
  eapply IH; [by eapply worker_step_measure|done|].
  by eapply step_consistent, Hc; apply worker_step_step.
Qed.

(** Everything a run of the workers preserves. *)
Record drainable (p : Z) (s : system) : Prop := {
  dr_consistent : consistent p s;
  dr_started : started (queue s) = true;
  dr_paused : paused (queue s) = false;
  dr_stopped : stopped (queue s) = false;
  dr_exited : ∀ w, w ∈ pool s → w ≠ Exited;
}.

Lemma worker_step_drainable p s s' : worker_step s s' → drainable p s → drainable p s'.
Proof.
  intros Hs [Hc ? ? ? Hex].
  destruct (worker_step_flags _ _ _ Hc Hs) as (Hp & Hst & Hsp).
  constructor; [|congruence..|].
  - by eapply step_consistent, Hc; apply worker_step_step.
  - by eapply worker_step_exited.
Qed.

Lemma not_busy q : busy q = false ↔ pending q = ∅ ∧ running q = ∅.
Proof.
  unfold busy. rewrite orb_false_iff, !negb_false_iff, !bool_decide_eq_true. done.
Qed.

(** ** The idle notification *)

(** While work is left, the channel that waiters read stays the same and stays
    open. *)
Definition keeps_channel (q q' : Queue) : Prop :=
  busy q' = true → busy q = true → idle q' = idle q ∧ closed q' = closed q.

Lemma updateStateLocked_keeps q q1 :
  wf q → idle q1 = idle q → closed q1 = closed q → keeps_channel q (updateStateLocked q1).
Proof.
  intros [_ _ _ Hi _] Hid Hcl Hb' Hb. unfold updateStateLocked in *. rewrite Hid, Hcl in *.
  case_bool_decide as Hin; [apply Hi in Hin; congruence|].
  destruct (busy q1) eqn:Hb1; [done|]. unfold busy in *. simpl in *. congruence.
Qed.

Lemma keeps_refl q q' : idle q' = idle q → closed q' = closed q → keeps_channel q q'.
Proof. by intros ????. Qed.

Lemma step_keeps_channel p s s' :
  consistent p s → step s s' → keeps_channel (queue s) (queue s').
Proof.
  intros Hc Hstep. pose proof (cs_queue _ _ Hc) as Hq. destruct Hstep; simpl.
  - unfold Start. destruct (_ || _); by apply keeps_refl.
  - by apply updateStateLocked_keeps.
  - unfold Pause. destruct (stopped _); by apply keeps_refl.
  - by apply keeps_refl.
  - destruct (stopped (queue s)) eqn:Hs; [unfold Replace; rewrite Hs; by apply keeps_refl|].
    rewrite Replace_eq by done. simpl.
    match goal with |- context [dropLocked ?m _] =>
      pose proof (dropLocked_same m (queue s)) as (_ & _ & _ & _ & _ & _ & Hid & Hcl) end.
    by apply updateStateLocked_keeps.
  - unfold Clear. destruct (dropLocked _ _) as [d q1] eqn:Hd.
    match type of Hd with dropLocked ?m ?q0 = _ =>
      pose proof (dropLocked_same m q0) as (_ & _ & _ & _ & _ & _ & Hid & Hcl) end.
    rewrite Hd in Hid, Hcl. by apply updateStateLocked_keeps.
  - unfold SubmitCleanup. destruct (_ || _); [by apply keeps_refl|].
    case_bool_decide; [by apply keeps_refl|]. by apply updateStateLocked_keeps.
  - match goal with H : next _ = _ |- _ => unfold next in H; rename H into Hn end.
    destruct (stopped (queue s)); [done|]. destruct (paused (queue s)); [done|].
    destruct (ready (queue s)); simplify_eq. by apply updateStateLocked_keeps.
  - match goal with H : next _ = _ |- _ => unfold next in H; rename H into Hn end.
    destruct (stopped (queue s)); [simplify_eq; by apply keeps_refl|].
    destruct (paused (queue s)); [done|]. by destruct (ready (queue s)).
  - unfold finish. apply updateStateLocked_keeps; [done|..]; by case_bool_decide.
Qed.

Lemma Clear_effect changedNames q :
  pending (Clear changedNames q).2 = ∅ ∧ stopped (Clear changedNames q).2 = stopped q ∧
  running (Clear changedNames q).2 = running q ∧
  (∀ name, changedAfterFailure (Clear changedNames q).2 !! name = Some true ↔
    changedNames !! name = Some true ∨ changedAfterFailure q !! name = Some true ∨
    ∃ op, pending q !! name = Some op ∧ kind op = OperationReconcile ∧ changed op = true).
Proof.
  unfold Clear. set (q0 := setWaiting q _ _ _).
  destruct (dropLocked (λ _, true) q0) as [d q1] eqn:Hd.
  pose proof (dropLocked_same (λ _, true) q0) as (Hr & Hcaf & Hst & _).
  pose proof (dropLocked_pending (λ _, true) q0) as Hp.
  rewrite Hd in *. simpl in *. autorewrite with queue. rewrite Hp, Hr, Hst, Hcaf.
  split_and!; [|done|done|].
  - apply map_empty. intros n. apply map_lookup_filter_None_2. right. naive_solver.
  - intros name. rewrite !lookup_union, !lookup_fmap, !map_lookup_filter.
    destruct (changedNames !! name) as [[]|] eqn:Hn, (pending q !! name) as [[k r []]|] eqn:Ho;
      simpl; repeat case_guard; simpl in *;
      destruct (changedAfterFailure q !! name) as [[]|]; naive_solver.
Qed.

(** ** Properties *)

(** C2. Whatever the interleaving of API calls and workers, the queue stays
    well formed: the ready list is duplicate-free and holds exactly the stacks
    that wait and do not run, changed work stands in front, a stopped queue
    holds no waiting work, the idle channel is closed exactly when nothing
    waits or runs, and the published gauges are current. *)
Theorem queue_invariant p s (Hr : reachable p s) : wf (queue s).
Proof. by apply reachable_consistent in Hr as []. Qed.

(** C1. No two workers ever execute operations of the same stack, and at most
    [max(parallelism, 1)] operations run at the same time. *)
Theorem mutual_exclusion p s (Hr : reachable p s) :
  (∀ i j name op op', pool s !! i = Some (Executing name op) →
     pool s !! j = Some (Executing name op') → i = j) ∧
  size (running (queue s)) ≤ Z.to_nat (Z.max p 1).
Proof.
  apply reachable_consistent in Hr as [Hq Hrun Huniq Hw Hpool]. split; [done|].
  set (names := omap (λ w, match w with Executing name _ => Some name | _ => None end) (pool s)).
  assert (dom (running (queue s)) ⊆ list_to_set names) as Hsub.
  { intros name [op Hop]%elem_of_dom. apply Hrun in Hop as [i Hi].
    apply elem_of_list_to_set, list_elem_of_omap. exists (Executing name op).
    split; [by eapply list_elem_of_lookup_2|done]. }
  apply subseteq_size in Hsub. rewrite size_dom in Hsub.
  assert (size (list_to_set names : gset string) ≤ length names) as Hle.
  { clear. induction names as [|n l IH]; simpl; [done|].
    rewrite size_union_alt, size_singleton.
    assert (list_to_set l ∖ {[n]} ⊆ (list_to_set l : gset string)) as H%subseteq_size by set_solver.
    simpl. lia. }
  assert (length names ≤ length (pool s)) as Hlen.
  { unfold names. clear. induction (pool s) as [|[] l IH]; cbn; [lia|..]; cbn in IH; lia. }
  rewrite Hpool in Hlen. destruct (started (queue s)); lia.
Qed.

(** After a [Replace] that is not refused, exactly the requested stacks can
    wait: each holds its own request merged with the manual and changed marks
    that waited for it, unless the running operation already applies the same
    revision and specification and no manual mark asks for another run. *)
Theorem Replace_pending requests changedNames q
    (Hs : stopped q = false) (Hnd : NoDup (requestNames requests)) :
  let q' := (Replace requests changedNames q).2 in
  (∀ req, req ∈ requests →
     pending q' !! Name (Stack req) = replacement q changedNames req) ∧
  (∀ name, name ∉ requestNames requests → pending q' !! name = None) ∧
  (∃ dropped, (Replace requests changedNames q).1 = Some dropped ∧
     (∀ name, name ∈ dropped ↔
        is_Some (pending q !! name) ∧ name ∉ requestNames requests) ∧
     StronglySorted String.le dropped) ∧
  running q' = running q.
Proof.
  destruct (Replace_lookup requests changedNames q Hs Hnd) as [H1 H2].
  split_and!; [done|done| |apply Replace_same].
  rewrite Replace_eq by done. simpl. eexists. split; [done|]. split.
  - intros name. rewrite dropLocked_dropped, <- (elem_of_list_to_set (C := gset string)).
    case_bool_decide; simpl; tauto.
  - apply dropLocked_sorted.
Qed.

(** Within the changed and the unchanged group the queue is first-in,
    first-out across runs: a stack that waited keeps its place in front of
    every stack that stood behind it and of every newly queued one. *)
Theorem Replace_fifo requests changedNames q a b
    (Hq : wf q) (Hs : stopped q = false)
    (Ha : a ∈ ready q)
    (Hab : before (ready q) a b ∨ b ∉ ready q) :
  let q' := (Replace requests changedNames q).2 in
  a ∈ ready q' → b ∈ ready q' →
  pendingChanged (pending q') a = pendingChanged (pending q') b →
  before (ready q') a b.
Proof.
  simpl. intros Ha' Hb' Hcls.
  pose proof (Replace_wf requests changedNames q Hq) as [[_ Helem _] _ _ _ _].
  apply Helem in Ha' as [[opa Hopa] Hra], Hb' as [[opb Hopb] Hrb].
  destruct (Replace_class requests changedNames q (changed opa) Hq Hs) as (new & Hf & Hnew).
  assert (changed opb = changed opa) as Hcb.
  { unfold pendingChanged in Hcls. rewrite Hopa, Hopb in Hcls. done. }
  assert (a ∈ requestNames requests ∧ b ∈ requestNames requests) as [Hna Hnb]
    by (split; eapply Replace_names; eauto).
  set (P := waitingIn _ _ _) in *.
  assert (P a ∧ P b) as [HPa HPb] by (split; split; eauto).
  assert (b ∈ filter P (ready (Replace requests changedNames q).2)) as Hin.
  { apply list_elem_of_filter. split; [done|]. apply Helem. eauto. }
  assert (before (filter P (ready (Replace requests changedNames q).2)) a b) as Hbef.
  { rewrite Hf in *. apply before_app. destruct Hab as [Hab|Hb].
    - left. rewrite !before_filter. tauto.
    - right; left. split; [by rewrite !list_elem_of_filter|].
      apply elem_of_app in Hin as [Hin|Hin]; [|done].
      apply list_elem_of_filter in Hin as [_ [_ ?]%list_elem_of_filter]. done. }
  by apply before_filter in Hbef as [? _].
Qed.


(** A failed run does not lose the priority of changed work: after [Clear]
    nothing waits, and the first successful [Replace] marks as changed every
    requested stack that waited as a changed reconciliation, that the failed
    run found changed, or that an earlier failed run had retained. *)
Theorem Clear_keeps_priority changedNames requests changedNames' req q
    (Hs : stopped q = false) (Hnd : NoDup (requestNames requests))
    (Hreq : req ∈ requests)
    (Hc : changedNames !! Name (Stack req) = Some true ∨
          changedAfterFailure q !! Name (Stack req) = Some true ∨
          ∃ op, pending q !! Name (Stack req) = Some op ∧
                kind op = OperationReconcile ∧ changed op = true) :
  let q1 := (Clear changedNames q).2 in
  pending q1 = ∅ ∧ running q1 = running q ∧
  pending (Replace requests changedNames' q1).2 !! Name (Stack req) =
    (if alreadyRunning (running q) req
          {| kind := OperationReconcile; request := req; changed := true |}
     then None
     else Some {| kind := OperationReconcile; request := req; changed := true |}).
Proof.
  destruct (Clear_effect changedNames q) as (Hp & Hst & Hr & Hcaf).
  simpl. split_and!; [done|done|].
  assert (changedAfterFailure (Clear changedNames q).2 !! Name (Stack req) = Some true) as Hcm
    by (by apply Hcaf).
  destruct (Replace_lookup requests changedNames' (Clear changedNames q).2) as [Hl _];
    [congruence|done|]. rewrite Hl by done.
  unfold replacement, replaceOperation. rewrite Hp, lookup_empty, Hcm, Hr. simpl.
  rewrite orb_true_r. done.
Qed.

(** [Stop] is final: from then on nothing waits, no operation is started
    (the running ones are among those that ran), and new work is refused. *)
Theorem stopped_is_final p s s'
    (Hr : reachable p s) (Hs : stopped (queue s) = true) (Hs' : rtc step s s') :
  stopped (queue s') = true ∧ pending (queue s') = ∅ ∧ ready (queue s') = [] ∧
  running (queue s') ⊆ running (queue s) ∧
  (∀ requests changedNames, Replace requests changedNames (queue s') = (None, queue s')) ∧
  (∀ stack commit, SubmitCleanup stack commit (queue s') = (false, queue s')) ∧
  next (queue s') = (NextStopped, queue s').
Proof.
  apply reachable_consistent in Hr.
  assert (stopped (queue s') = true ∧ running (queue s') ⊆ running (queue s)) as [Hst Hsub].
  { induction Hs' as [|s0 s1 s2 H01 _ IH]; [done|].
    destruct IH as [? Hsub]; [by eapply step_consistent|by eapply step_stopped|].
    split; [done|]. etrans; [exact Hsub|].
    destruct H01; simpl.
    - by rewrite (Start_same_running (queue s)).
    - by rewrite (sw_running _ _ (Stop_same _)).
    - by rewrite (sw_running _ _ (Pause_same _)).
    - done.
    - by rewrite (sw_running _ _ (Replace_same _ _ _)).
    - by rewrite (sw_running _ _ (Clear_same _ _)).
    - by rewrite (sw_running _ _ (SubmitCleanup_same _ _ _)).
    - unfold next in *. rewrite Hs in *. congruence.
    - unfold next in *. rewrite Hs in *. by simplify_eq.
    - destruct (finish_effect name (queue s)) as (_ & -> & _). apply delete_subseteq. }
  apply (consistent_rtc _ _ _ Hs') in Hr as [[[_ Helem _] Hpe _ _ _] _ _ _ _].
  specialize (Hpe Hst). split_and!; try done.
  - apply elem_of_nil_inv. intros n Hn. apply Helem in Hn as [[? Hn] _].
    by rewrite Hpe, lookup_empty in Hn.
  - intros. unfold Replace. by rewrite Hst.
  - intros. unfold SubmitCleanup. by rewrite Hst.
  - unfold next. by rewrite Hst.
Qed.


(** [WaitIdle] does not return too early: the channel read at a state is
    closed later only if nothing waited or ran at some state in between. *)
Theorem WaitIdle_sound p s s'
    (Hr : reachable p s) (Hs : rtc step s s')
    (Hw : WaitIdle (idle (queue s)) (queue s') = Some ()) :
  ∃ s1, rtc step s s1 ∧ rtc step s1 s' ∧
        pending (queue s1) = ∅ ∧ running (queue s1) = ∅.
Proof.
  apply reachable_consistent in Hr.
  assert (idle (queue s) ∈ closed (queue s')) as Hcl.
  { unfold WaitIdle in Hw. by case_bool_decide. }
  clear Hw. revert Hr Hcl. induction Hs as [s|s s2 s' H02 Hs IH]; intros Hc Hcl.
  - exists s. split_and!; try done; by apply not_busy, (wf_idle _ (cs_queue _ _ Hc)).
  - destruct (busy (queue s)) eqn:Hb; cycle 1.
    { exists s. apply not_busy in Hb as [? ?]. split_and!; try done. by eapply rtc_l. }
    assert (consistent p s2) as Hc2 by (by eapply step_consistent).
    destruct (busy (queue s2)) eqn:Hb2.
    + destruct (step_keeps_channel _ _ _ Hc H02 Hb2 Hb) as [Hid _].
      rewrite <- Hid in Hcl. destruct (IH Hc2 Hcl) as (s1 & ? & ? & ? & ?).
      exists s1. split_and!; [by eapply rtc_l|done..].
    + exists s2. apply not_busy in Hb2 as [? ?]. split_and!; try done. by apply rtc_once.
Qed.

(** ** A concrete run *)
Definition demoStack (name : string) : StackSpec :=
  {| Name := name; ComposeFile := name +:+ ".yaml";
     Policy := {| StackPrune := None; StackSelfHeal := None |} |}.
Definition demoRequest (name commit : string) : ReconciliationRequest :=
  {| Stack := demoStack name; Commit := commit; IsManual := false |}.
Definition demoRequests : list ReconciliationRequest :=
  [demoRequest "a" "c1"; demoRequest "b" "c1"].

(** One worker; [a] and [b] wait, [b] changed in Git. *)
Definition demoWaiting : system :=
  {| queue := (Replace demoRequests {["b" := true]} (Start (New 1)).2).2; pool := [Waiting] |}.
(** The worker executes [b]. *)
Definition demoRunning : system :=
  {| queue := (next (queue demoWaiting)).2;
     pool := [Executing "b" {| kind := OperationReconcile; request := demoRequest "b" "c1";
                               changed := true |}] |}.
Definition demoStopped : system :=
  {| queue := Stop (queue demoRunning); pool := pool demoRunning |}.
Definition demoOperation (name : string) (isChanged : bool) : operation :=
  {| kind := OperationReconcile; request := demoRequest name "c1"; changed := isChanged |}.
(** Then the worker finishes [b], executes [a] and finishes it. *)
Definition demoIdle : system :=
  {| queue := finish "b" (queue demoRunning); pool := [Waiting] |}.
Definition demoLast : system :=
  {| queue := (next (queue demoIdle)).2; pool := [Executing "a" (demoOperation "a" false)] |}.
Definition demoDone : system :=
  {| queue := finish "a" (queue demoLast); pool := [Waiting] |}.

Lemma demoWaiting_reachable : reachable 1 demoWaiting.
Proof.
  eapply rtc_l; [apply (step_start (initial 1))|].
  eapply rtc_l; [apply (step_replace _ demoRequests {["b" := true]})|]. apply rtc_refl.
Qed.

Lemma demoRunning_step : step demoWaiting demoRunning.
Proof.
  apply (step_next demoWaiting 0 "b" {| kind := OperationReconcile;
    request := demoRequest "b" "c1"; changed := true |} (next (queue demoWaiting)).2);
  reflexivity.
Qed.

Lemma demoRunning_reachable : reachable 1 demoRunning.
Proof. eapply rtc_r; [apply demoWaiting_reachable|apply demoRunning_step]. Qed.

Lemma demoStopped_reachable : reachable 1 demoStopped.
Proof. eapply rtc_r; [apply demoRunning_reachable|apply step_stop]. Qed.

Lemma demoDone_run : rtc step demoRunning demoDone.
Proof.
  trans demoIdle; [apply rtc_once, (step_finish demoRunning 0 "b" (demoOperation "b" true)); reflexivity|].
  trans demoLast.
  - apply rtc_once, (step_next demoIdle 0 "a" (demoOperation "a" false)); [reflexivity|].
    vm_compute. reflexivity.
  - apply rtc_once, (step_finish demoLast 0 "a" (demoOperation "a" false)); reflexivity.
Qed.

Lemma queue_invariant_witness : reachable 1 demoRunning ∧ wf (queue demoRunning).
Proof.
  split; [apply demoRunning_reachable|].
  apply (queue_invariant 1 demoRunning), demoRunning_reachable.
Defined.

Lemma mutual_exclusion_witness :
  reachable 1 demoRunning ∧ size (running (queue demoRunning)) ≤ 1.
Proof.
  split; [apply demoRunning_reachable|].
  apply (mutual_exclusion 1 demoRunning), demoRunning_reachable.
Defined.

Lemma Replace_pending_witness :
  stopped (queue demoRunning) = false ∧
  pending (Replace [demoRequest "b" "c2"] ∅ (queue demoRunning)).2 !! "b" =
    Some {| kind := OperationReconcile; request := demoRequest "b" "c2"; changed := false |}.
Proof.
  split; [vm_compute; reflexivity|].
  destruct (Replace_pending [demoRequest "b" "c2"] ∅ (queue demoRunning)) as [H _].
  - vm_compute; reflexivity.
  - apply NoDup_singleton.
  - change "b" with (Name (Stack (demoRequest "b" "c2"))) at 1.
    rewrite H; [vm_compute; reflexivity|]. apply list_elem_of_singleton. reflexivity.
Defined.

Lemma Replace_fifo_witness :
  stopped (queue demoWaiting) = false ∧
  before (ready (Replace demoRequests {["a" := true]} (queue demoWaiting)).2) "b" "a".
Proof.
  split; [vm_compute; reflexivity|].
  apply (Replace_fifo demoRequests {["a" := true]} (queue demoWaiting) "b" "a").
  - apply (reachable_consistent 1), demoWaiting_reachable.
  - vm_compute; reflexivity.
  - apply list_elem_of_In. vm_compute. tauto.
  - left. exists [], [], []. vm_compute. reflexivity.
  - apply list_elem_of_In. vm_compute. tauto.
  - apply list_elem_of_In. vm_compute. tauto.
  - vm_compute. reflexivity.
Defined.

Lemma Clear_keeps_priority_witness :
  pending (queue demoWaiting) !! "b" =
    Some {| kind := OperationReconcile; request := demoRequest "b" "c1"; changed := true |} ∧
  pending (Replace [demoRequest "b" "c2"] ∅ (Clear ∅ (queue demoWaiting)).2).2 !! "b" =
    Some {| kind := OperationReconcile; request := demoRequest "b" "c2"; changed := true |}.
Proof.
  split; [vm_compute; reflexivity|].
  destruct (Clear_keeps_priority ∅ [demoRequest "b" "c2"] ∅ (demoRequest "b" "c2")
    (queue demoWaiting)) as (_ & _ & H).
  - vm_compute; reflexivity.
  - apply NoDup_singleton.
  - apply list_elem_of_singleton. reflexivity.
  - right; right. eexists. split_and!; vm_compute; reflexivity.
  - exact H.
Defined.

Lemma stopped_is_final_witness :
  reachable 1 demoStopped ∧ stopped (queue demoStopped) = true ∧
  next (queue demoStopped) = (NextStopped, queue demoStopped).
Proof.
  split; [apply demoStopped_reachable|]. split; [vm_compute; reflexivity|].
  apply (stopped_is_final 1 demoStopped demoStopped);
    [apply demoStopped_reachable|vm_compute; reflexivity|apply rtc_refl].
Defined.


Lemma WaitIdle_sound_witness :
  WaitIdle (idle (queue demoRunning)) (queue demoDone) = Some () ∧
  ∃ s1, rtc step demoRunning s1 ∧ rtc step s1 demoDone ∧
        pending (queue s1) = ∅ ∧ running (queue s1) = ∅.
Proof.
  split; [vm_compute; reflexivity|].
  apply (WaitIdle_sound 1 demoRunning demoDone);
    [apply demoRunning_reachable|apply demoDone_run|vm_compute; reflexivity].
Defined.
