(* ===== verification/GitErrors.v ===== *)
(** * Git failures ([internal/modules/gitops/git/errors.go])

    How a transport error becomes a stable category with a diagnostic that is
    free of credentials, and how a remote becomes a repository identifier. A Go
    error is its chain of wrapped errors, outermost first; each link has its
    type and the text of its [Error] method. [errors.Join] trees do not occur
    in the transport's errors and are left out; [strings.ToLower] folds the
    ASCII letters. *)
From S2P Require Import Prelude GoStrings.

(** [FailureCategory] *)
Inductive FailureCategory :=
| FailureAuthentication
| FailureAccessDenied
| FailureRepositoryNotFound
| FailureNetwork
| FailureSSHHostVerification
| FailureOther.
#[export] Instance FailureCategory_eq_dec : EqDecision FailureCategory.
Proof. solve_decision. Defined.

(** [PullError] *)
Record PullError := { category : FailureCategory; diagnostic : string }.
#[export] Instance PullError_eq_dec : EqDecision PullError.
Proof. solve_decision. Defined.

(** The error types and sentinels the classification asks for. *)
Inductive errorType :=
| TypePullError (e : PullError)
| ErrAuthenticationConfiguration
| ErrSSHHostVerification
| ErrAuthenticationRequired
| ErrAuthorizationFailed
| ErrRepositoryNotFound
| StatusCoder (status : Z)          (** has a [StatusCode] method *)
| KnownHostsKeyError
| KnownHostsRevokedError
| NetError (timeout : bool)         (** a [net.Error] *)
| NetDNSError (timeout : bool)      (** [*net.DNSError], a [net.Error] *)
| ECONNREFUSED                      (** [syscall.Errno] values are [net.Error]s *)
| EHOSTUNREACH
| ENETUNREACH
| DeadlineExceeded                  (** a [net.Error] that times out *)
| Canceled
| PktlineErrorLine (text : string)
| UnexpectedError                   (** [plumbing.UnexpectedError] around the next link *)
| OtherError.
#[export] Instance errorType_eq_dec : EqDecision errorType.
Proof. solve_decision. Defined.

(** A non-nil error is a non-empty chain. *)
Definition goError : Type := list (errorType * string).
Definition errorText (err : goError) : string :=
  match err with [] => "" | (_, text) :: _ => text end.

Definition asPullError (t : errorType) : option PullError :=
  match t with TypePullError e => Some e | _ => None end.
(** [net.Error], with the result of its [Timeout] method. *)
Definition asNetError (t : errorType) : option bool :=
  match t with
  | NetError timeout | NetDNSError timeout => Some timeout
  | ECONNREFUSED | EHOSTUNREACH | ENETUNREACH => Some false
  | DeadlineExceeded => Some true
  | _ => None
  end.
Definition asDNSError (t : errorType) : option bool :=
  match t with NetDNSError timeout => Some timeout | _ => None end.
Definition asProtocolError (t : errorType) : option string :=
  match t with PktlineErrorLine text => Some text | _ => None end.
Definition asStatus (t : errorType) : option Z :=
  match t with StatusCoder status => Some status | _ => None end.
Definition isType (target t : errorType) : option unit :=
  if bool_decide (t = target) then Some () else None.

Section Classify.
(** Whether go-git's [UnexpectedError] implements [Unwrap]; it depends on the
    library's version. *)
Context (unwraps : bool).

(** [errors.As] and [errors.Is]: the first link reachable by [Unwrap]. *)
Fixpoint errorsAs {A} (p : errorType → option A) (err : goError) : option A :=
  match err with
  | [] => None
  | (t, _) :: cause =>
      match p t with
      | Some x => Some x
      | None =>
          if bool_decide (t = UnexpectedError) && negb unwraps then None
          else errorsAs p cause
      end
  end.
Definition errorsIs (target : errorType) (err : goError) : bool :=
  bool_decide (is_Some (errorsAs (isType target) err)).

Fixpoint gitHTTPStatus (err : goError) : option Z :=
  match err with
  | [] => None
  | (t, _) :: cause =>
      match asStatus t with
      | Some status => Some status
      | None =>
          if bool_decide (t = UnexpectedError) then
            match cause with
            | (u, _) :: _ =>
                match asStatus u with
                | Some status => Some status
                | None => if unwraps then gitHTTPStatus cause else None
                end
            | [] => None
            end
          else gitHTTPStatus cause
      end
  end.

(** [gitErrorAs]: also follows [UnexpectedError.Err]. *)
Fixpoint gitErrorAs {A} (p : errorType → option A) (err : goError) : option A :=
  match err with
  | [] => None
  | _ :: cause =>
      match errorsAs p err with
      | Some x => Some x
      | None => gitErrorAs p cause
      end
  end.
Definition gitErrorIs (target : errorType) (err : goError) : bool :=
  bool_decide (is_Some (gitErrorAs (isType target) err)).

(** [splitSCPRemote] *)
Definition splitSCPRemote (raw : string) : option (string * string) :=
  if contains "://" raw then None
  else match index_byte ":"%char raw with
       | None | Some 0 => None
       | Some colon =>
           if contains "/" (string_take colon raw) then None
           else
             let host := string_take colon raw in
             let host := default host (after_last "@"%char host) in
             let path := string_drop (S colon) raw in
             let path := match index_any ["?"; "#"]%char path with
                         | Some unsafe => string_take unsafe path
                         | None => path
                         end in
             if bool_decide (host = "") || bool_decide (path = "") then None
             else Some (to_lower_ascii host, path)
       end.

(** The parts of a [url.URL] the code reads. *)
Record URL := {
  Scheme : string; Opaque : string; User : string; Hostname : string;
  Port : string; Path : string; RawQuery : string;
}.

(** [url.Parse], [None] for an error. *)
Context (urlParse : string → option URL).

Definition isSSHRemote (repository : string) : bool :=
  match splitSCPRemote repository with
  | Some _ => true
  | None => match urlParse repository with
            | Some parsed => bool_decide (Scheme parsed = "ssh")
            | None => false
            end
  end.

Definition isSome {A} (o : option A) : bool := match o with Some _ => true | None => false end.

Definition classifyFailure (err : goError) (repository : string) (authSSH : bool)
    : FailureCategory :=
  if errorsIs ErrAuthenticationConfiguration err then FailureAuthentication
  else if errorsIs ErrSSHHostVerification err then FailureSSHHostVerification
  else if errorsIs ErrAuthenticationRequired err then FailureAuthentication
  else if errorsIs ErrAuthorizationFailed err then FailureAccessDenied
  else if errorsIs ErrRepositoryNotFound err then FailureRepositoryNotFound
  else if bool_decide (gitHTTPStatus err ∈ [Some 502; Some 503; Some 504]%Z) then FailureNetwork
  else if isSome (errorsAs (isType KnownHostsKeyError) err) then FailureSSHHostVerification
  else if isSome (errorsAs (isType KnownHostsRevokedError) err) then FailureSSHHostVerification
  else if isSome (gitErrorAs asNetError err) || gitErrorIs ECONNREFUSED err ||
          gitErrorIs EHOSTUNREACH err || gitErrorIs ENETUNREACH err ||
          gitErrorIs DeadlineExceeded err || gitErrorIs Canceled err then FailureNetwork
  else if authSSH || isSSHRemote repository then
    let message := to_lower_ascii (errorText err) in
    if contains "unable to authenticate" message ||
       contains "no supported methods remain" message ||
       contains "permission denied (publickey" message then FailureAuthentication
    else match errorsAs asProtocolError err with
         | Some text =>
             let serverMessage := to_lower_ascii text in
             if contains "repository not found" serverMessage ||
                contains "does not exist" serverMessage then FailureRepositoryNotFound
             else if contains "access denied" serverMessage ||
                     contains "permission denied" serverMessage then FailureAccessDenied
             else FailureOther
         | None => FailureOther
         end
  else FailureOther.

Definition failureDiagnostic (c : FailureCategory) : string :=
  match c with
  | FailureAuthentication => "Git repository authentication failed"
  | FailureAccessDenied => "Access to Git repository was denied"
  | FailureRepositoryNotFound => "Git repository was not found"
  | FailureNetwork => "Git repository is temporarily unreachable"
  | FailureSSHHostVerification => "SSH host verification failed"
  | FailureOther => "Git pull failed"
  end.

Definition safePullDiagnostic (err : goError) (c : FailureCategory) : string :=
  if negb (bool_decide (c = FailureNetwork)) then failureDiagnostic c
  else if isSome (gitErrorAs asDNSError err) then "Git repository DNS lookup failed"
  else if gitErrorIs DeadlineExceeded err then "Git repository connection timed out"
  else if bool_decide (gitErrorAs asNetError err = Some true)
    then "Git repository connection timed out"
  else if gitErrorIs ECONNREFUSED err then "Git repository connection refused"
  else if gitErrorIs EHOSTUNREACH err then "Git repository host unreachable"
  else if gitErrorIs ENETUNREACH err then "Git repository network unreachable"
  else match gitHTTPStatus err with
       | Some 502%Z => "Git remote returned HTTP 502 (Bad Gateway)"
       | Some 503%Z => "Git remote returned HTTP 503 (Service Unavailable)"
       | Some 504%Z => "Git remote returned HTTP 504 (Gateway Timeout)"
       | _ => failureDiagnostic c
       end.

(** [ClassifyPullError] on a non-nil error. *)
Definition ClassifyPullError (err : goError) (repository : string) (authSSH : bool) : PullError :=
  match errorsAs asPullError err with
  | Some classified => classified
  | None =>
      let c := classifyFailure err repository authSSH in
      {| category := c; diagnostic := safePullDiagnostic err c |}
  end.

Definition PullFailure (err : goError) : FailureCategory * string :=
  match errorsAs asPullError err with
  | Some classified => (category classified, diagnostic classified)
  | None => (FailureOther, failureDiagnostic FailureOther)
  end.

(** [filepath.Abs] (which cleans), [filepath.Clean] and the hex form of the
    first eight bytes of [sha256.Sum256]. *)
Context (absPath : string → option string) (cleanPath digest8 : string → string).

Definition opaqueRepositoryIdentifier (raw : string) : string :=
  "repository-" +:+ digest8 raw.

Definition isLetter (c : Ascii.ascii) : bool := in_range "A"%char "Z"%char c || in_range "a"%char "z"%char c.

Definition hasURLSchemePrefix (raw : string) : bool :=
  match index_byte ":"%char raw with
  | None | Some 0 => false
  | Some colon =>
      match raw with
      | EmptyString => false
      | String c rest =>
          isLetter c &&
          forallb (λ ch, isLetter ch || in_range "0"%char "9"%char ch ||
                         existsb (Ascii.eqb ch) ["+"; "-"; "."]%char)
            (chars (string_take (colon - 1) rest))
      end
  end.

Definition canonicalHostPath (host path : string) : string :=
  let path := trim_suffix ".git" (trim_byte "/"%char (replace_byte "\"%char "/"%char path)) in
  if bool_decide (host = "") then path
  else if bool_decide (path = "") then host
  else host +:+ "/" +:+ path.

Definition repositoryURLIdentifier (raw : string) (parsed : URL) : string :=
  if negb (bool_decide (Opaque parsed = "")) then opaqueRepositoryIdentifier raw
  else if bool_decide (Scheme parsed = "file") then
    if bool_decide (Path parsed = "") then opaqueRepositoryIdentifier raw
    else cleanPath (Path parsed)
  else
    let host := to_lower_ascii (Hostname parsed) in
    if bool_decide (host = "") then opaqueRepositoryIdentifier raw
    else
      let host := if bool_decide (Port parsed = "") then host
                  else host +:+ ":" +:+ Port parsed in
      canonicalHostPath host (Path parsed).

Definition RepositoryIdentifier (raw : string) : string :=
  let raw := trim_space raw in
  if bool_decide (raw = "") then "repository-unknown"
  else match urlParse raw with
       | None =>
           if hasURLSchemePrefix raw then opaqueRepositoryIdentifier raw
           else match splitSCPRemote raw with
                | Some (host, path) => canonicalHostPath host path
                | None => opaqueRepositoryIdentifier raw
                end
       | Some parsed =>
           if negb (bool_decide (Scheme parsed = "")) then repositoryURLIdentifier raw parsed
           else match splitSCPRemote raw with
                | Some (host, path) => canonicalHostPath host path
                | None => match absPath raw with
                          | Some absolute => cleanPath absolute
                          | None => cleanPath raw
                          end
                end
       end.
End Classify.

(** ** Properties of the error chain *)

(** The first link of the chain that [p] accepts. *)
Definition firstLink {A} (p : errorType → option A) (err : goError) : option A :=
  head (omap (λ link : errorType * string, p link.1) err).

Lemma errorsAs_firstLink {A} unwraps (p : errorType → option A) err x :
  errorsAs unwraps p err = Some x → firstLink p err = Some x.
Proof.
  unfold firstLink. induction err as [|[t text] cause IH]; [done|]. cbn.
  destruct (p t) eqn:Hp; [done|]. by destruct (_ && _).
Qed.

(** [gitErrorAs] sees every link, whether or not [UnexpectedError] unwraps. *)
Lemma gitErrorAs_firstLink {A} unwraps (p : errorType → option A) err :
  gitErrorAs unwraps p err = firstLink p err.
Proof.
  induction err as [|[t text] cause IH]; [done|].
  cbn [gitErrorAs]. destruct (errorsAs unwraps p ((t, text) :: cause)) as [x|] eqn:Hx.
  - by apply errorsAs_firstLink in Hx.
  - rewrite IH. unfold firstLink. cbn. cbn in Hx. by destruct (p t).
Qed.

Lemma errorsAs_None {A} unwraps (p : errorType → option A) err :
  Forall (λ t, p t = None) (map fst err) → errorsAs unwraps p err = None.
Proof.
  induction err as [|[t text] cause IH]; [done|]. cbn.
  intros [Hp Hc]%Forall_cons. rewrite Hp, IH by done. by destruct (_ && _).
Qed.

Lemma firstLink_Some {A} (p : errorType → option A) err t :
  t ∈ map fst err → is_Some (p t) → is_Some (firstLink p err).
Proof.
  unfold firstLink. induction err as [|[u text] cause IH]; cbn; [by intros ?%elem_of_nil|].
  intros [->|Ht]%elem_of_cons [x Hx]; [by rewrite Hx|].
  destruct (p u); [done|]. by apply IH.
Qed.

(** The types of the links decide the searches; the texts do not. *)
Lemma errorsAs_texts {A} unwraps (p : errorType → option A) err err' :
  map fst err = map fst err' → errorsAs unwraps p err = errorsAs unwraps p err'.
Proof.
  revert err'. induction err as [|[t text] cause IH]; intros [|[t' text'] cause'] H;
    simplify_eq/=; [done|]. by rewrite (IH cause').
Qed.

Lemma gitErrorAs_texts {A} unwraps (p : errorType → option A) err err' :
  map fst err = map fst err' → gitErrorAs unwraps p err = gitErrorAs unwraps p err'.
Proof.
  rewrite !gitErrorAs_firstLink. unfold firstLink. revert err'.
  induction err as [|[t text] cause IH]; intros [|[t' text'] cause'] H; simplify_eq/=; [done|].
  cbn. destruct (p t'); [done|]. by apply IH.
Qed.

Lemma gitHTTPStatus_texts unwraps err err' :
  map fst err = map fst err' → gitHTTPStatus unwraps err = gitHTTPStatus unwraps err'.
Proof.
  revert err'. induction err as [|[t text] cause IH]; intros [|[t' text'] cause'] H;
    simplify_eq/=; [done|]. destruct (asStatus t'); [done|].
  assert (gitHTTPStatus unwraps cause = gitHTTPStatus unwraps cause') as Hc by auto.
  rewrite Hc. destruct cause as [|[u ?] ?], cause' as [|[u' ?] ?]; simplify_eq/=; done.
Qed.

Lemma safePullDiagnostic_texts unwraps err err' c :
  map fst err = map fst err' →
  safePullDiagnostic unwraps err c = safePullDiagnostic unwraps err' c.
Proof.
  intros H. unfold safePullDiagnostic, gitErrorIs.
  by rewrite !(gitErrorAs_texts unwraps _ err err' H), (gitHTTPStatus_texts unwraps err err' H).
Qed.

(** The diagnostics that may be shown and persisted. *)
Definition safeDiagnostics (c : FailureCategory) : list string :=
  match c with
  | FailureNetwork =>
      ["Git repository DNS lookup failed"; "Git repository connection timed out";
       "Git repository connection refused"; "Git repository host unreachable";
       "Git repository network unreachable"; "Git remote returned HTTP 502 (Bad Gateway)";
       "Git remote returned HTTP 503 (Service Unavailable)";
       "Git remote returned HTTP 504 (Gateway Timeout)"; failureDiagnostic FailureNetwork]
  | c => [failureDiagnostic c]
  end.

Lemma safePullDiagnostic_safe unwraps err c :
  safePullDiagnostic unwraps err c ∈ safeDiagnostics c.
Proof.
  unfold safePullDiagnostic. case_bool_decide as Hc; simpl.
  - subst c. repeat case_match; apply list_elem_of_In; simpl; tauto.
  - destruct c; try done; simpl; by apply list_elem_of_singleton.
Qed.

(** A pull error carries no text of the transport: unless the error already
    was classified, its diagnostic is one of the fixed sentences of its
    category and is the same for every error with the same types; over a
    non-SSH remote the category does not depend on the error texts either.
    Classifying a classified error changes nothing. *)
Theorem pull_error_hides_texts unwraps urlParse err err' repository authSSH :
  map fst err = map fst err' →
  let e := ClassifyPullError unwraps urlParse err repository authSSH in
  let e' := ClassifyPullError unwraps urlParse err' repository authSSH in
  (errorsAs unwraps asPullError err = None → diagnostic e ∈ safeDiagnostics (category e)) ∧
  (category e = category e' → diagnostic e = diagnostic e') ∧
  (authSSH = false → isSSHRemote urlParse repository = false → e = e') ∧
  (∀ text cause, ClassifyPullError unwraps urlParse ((TypePullError e, text) :: cause)
                   repository authSSH = e) ∧
  (∀ text cause, PullFailure unwraps ((TypePullError e, text) :: cause) =
                 (category e, diagnostic e)).
Proof.
  intros H. unfold ClassifyPullError, PullFailure.
  rewrite <- (errorsAs_texts unwraps asPullError err err' H).
  split_and!; [| | |done|done];
    destruct (errorsAs unwraps asPullError err) as [cl|]; try done; simpl.
  - intros _. apply safePullDiagnostic_safe.
  - intros <-. by apply safePullDiagnostic_texts.
  - intros -> Hssh.
    assert (classifyFailure unwraps urlParse err repository false =
            classifyFailure unwraps urlParse err' repository false) as Hc.
    { unfold classifyFailure, errorsIs, gitErrorIs. rewrite Hssh. simpl.
      by rewrite !(errorsAs_texts unwraps _ err err' H), !(gitErrorAs_texts unwraps _ err err' H),
        (gitHTTPStatus_texts unwraps err err' H). }
    rewrite Hc. f_equal. by apply safePullDiagnostic_texts.
Qed.

(** The types that decide before the network is considered. *)
Definition nonNetwork (t : errorType) : bool :=
  match t with
  | TypePullError _ | ErrAuthenticationConfiguration | ErrSSHHostVerification
  | ErrAuthenticationRequired | ErrAuthorizationFailed | ErrRepositoryNotFound
  | KnownHostsKeyError | KnownHostsRevokedError => true
  | _ => false
  end.

Lemma errorsAs_clean {A} unwraps (p : errorType → option A) err :
  Forall (λ t, nonNetwork t = false) (map fst err) →
  (∀ t, nonNetwork t = false → p t = None) → errorsAs unwraps p err = None.
Proof. intros Hc Hp. apply errorsAs_None. eapply Forall_impl; [exact Hc|]. exact Hp. Qed.

Lemma isType_clean target t :
  nonNetwork target = true → nonNetwork t = false → isType target t = None.
Proof. intros H1 H2. unfold isType. rewrite bool_decide_eq_false_2; [done|]. congruence. Qed.

(** A network failure is recognised wherever it is wrapped, for every
    version of go-git: a chain without authentication, access, host-key or
    classified links that contains a [net.Error], a refused or unreachable
    connection, a deadline or a cancellation is classified as a network
    failure, and a DNS failure among the links is named in the diagnostic. *)
Theorem network_failure_recognised unwraps urlParse err repository authSSH t
    (Hclean : Forall (λ t, nonNetwork t = false) (map fst err))
    (Ht : t ∈ map fst err)
    (Hnet : is_Some (asNetError t) ∨ t = Canceled) :
  let e := ClassifyPullError unwraps urlParse err repository authSSH in
  category e = FailureNetwork ∧
  (is_Some (asDNSError t) → diagnostic e = "Git repository DNS lookup failed").
Proof.
  assert (classifyFailure unwraps urlParse err repository authSSH = FailureNetwork) as Hcl.
  { unfold classifyFailure, errorsIs.
    rewrite !(errorsAs_clean unwraps (isType _) err Hclean)
      by (intros; by apply isType_clean). simpl.
    case_match; [done|]. unfold gitErrorIs. rewrite !gitErrorAs_firstLink.
    destruct Hnet as [Hnet| ->].
    - pose proof (firstLink_Some asNetError err t Ht Hnet) as [b Hb]. by rewrite Hb.
    - assert (is_Some (firstLink (isType Canceled) err)) as [b Hb].
      { apply (firstLink_Some _ _ Canceled Ht). unfold isType. by rewrite bool_decide_eq_true_2. }
      rewrite Hb.
      rewrite (bool_decide_eq_true_2 (is_Some (Some b))) by eauto. by rewrite !orb_true_r. }
  unfold ClassifyPullError. rewrite errorsAs_clean; [|done|by intros []]. simpl.
  rewrite Hcl. split; [done|]. intros Hdns. unfold safePullDiagnostic. simpl.
  rewrite gitErrorAs_firstLink. pose proof (firstLink_Some asDNSError err t Ht Hdns) as [b Hb].
  by rewrite Hb.
Qed.

(** An SCP-style remote [user@host:path]. *)
Definition scpRemote (user host path : string) : string :=
  (user +:+ "@" +:+ host) +:+ ":" +:+ path.

Lemma splitSCPRemote_scp user host path :
  without ":" user → without "/" user → without ":" host → without "/" host →
  without "@" host → host ≠ "" → contains "://" (":" +:+ path) = false →
  splitSCPRemote (scpRemote user host path) =
  (let p := match index_any ["?"; "#"]%char path with
            | Some unsafe => string_take unsafe path
            | None => path
            end in
   if bool_decide (p = "") then None else Some (to_lower_ascii host, p)).
Proof.
  intros Hu1 Hu2 Hh1 Hh2 Hh3 Hne Hc. unfold splitSCPRemote, scpRemote.
  set (authority := user +:+ "@" +:+ host).
  assert (without ":" authority) as Ha1.
  { apply without_app. split; [done|]. apply without_app. split; [|done]. by apply (bool_decide_unpack _). }
  assert (without "/" authority) as Ha2.
  { apply without_app. split; [done|]. apply without_app. split; [|done]. by apply (bool_decide_unpack _). }
  rewrite contains_app by done. rewrite Hc.
  change (":" +:+ path) with (String ":" path). rewrite index_byte_app by done.
  rewrite string_take_app, string_drop_app, contains_without by done.
  assert (String.length authority ≠ 0) as Hl by (unfold authority; destruct user; done).
  destruct (String.length authority); [done|].
  unfold authority. change ("@" +:+ host) with (String "@" host).
  rewrite after_last_app by done. simpl.
  rewrite (bool_decide_eq_false_2 (host = "")) by done. done.
Qed.

(** A user name in front of the host is not a URL scheme. *)
Lemma hasURLSchemePrefix_scp user host path :
  without ":" user → without ":" host →
  hasURLSchemePrefix (scpRemote user host path) = false.
Proof.
  intros Hu Hh. unfold hasURLSchemePrefix, scpRemote.
  assert (without ":" (user +:+ "@" +:+ host)) as Ha1.
  { apply without_app. split; [done|]. apply without_app. split; [|done]. by apply (bool_decide_unpack _). }
  change (":" +:+ path) with (String ":" path). rewrite index_byte_app by done.
  destruct user as [|c user]; rewrite ?string_app_nil, ?string_app_cons; [done|].
  cbn [String.length]. rewrite Nat.sub_succ, Nat.sub_0_r, string_take_app.
  apply andb_false_iff. right.
  clear. induction user as [|d user IH]; [done|].
  rewrite string_app_cons. cbn [chars forallb]. apply andb_false_iff. right. exact IH.
Qed.

(** The repository identifier, which is persisted and published, holds no
    credentials: the identifier of [user@host:path] is the lower-case host and
    the path, whatever the user, and of two URLs with a host that differ in
    their user information and query the identifiers are equal. *)
Theorem repository_identifier_without_credentials urlParse absPath cleanPath digest8 :
  (∀ user host path p,
     without ":" user → without "/" user → without ":" host → without "/" host →
     without "@" host → host ≠ "" → p ≠ "" →
     contains "://" (":" +:+ path) = false →
     p = match index_any ["?"; "#"]%char path with
         | Some unsafe => string_take unsafe path
         | None => path
         end →
     let raw := scpRemote user host path in
     trim_space raw = raw → (∀ u, urlParse raw = Some u → Scheme u = "") →
     RepositoryIdentifier urlParse absPath cleanPath digest8 raw =
       canonicalHostPath (to_lower_ascii host) p) ∧
  (∀ raw raw' u user' query',
     trim_space raw ≠ "" → trim_space raw' ≠ "" →
     urlParse (trim_space raw) = Some u →
     urlParse (trim_space raw') = Some {|
       Scheme := Scheme u; Opaque := Opaque u; User := user'; Hostname := Hostname u;
       Port := Port u; Path := Path u; RawQuery := query' |} →
     Scheme u ≠ "" → Scheme u ≠ "file" → Opaque u = "" → to_lower_ascii (Hostname u) ≠ "" →
     RepositoryIdentifier urlParse absPath cleanPath digest8 raw =
     RepositoryIdentifier urlParse absPath cleanPath digest8 raw').
Proof.
  split.
  - intros user host path p Hu1 Hu2 Hh1 Hh2 Hh3 Hne Hp Hc Hpath raw Htrim Hurl.
    unfold RepositoryIdentifier. rewrite Htrim.
    rewrite (bool_decide_eq_false_2 (raw = "")) by (unfold raw, scpRemote; by destruct user).
    unfold raw. rewrite splitSCPRemote_scp, hasURLSchemePrefix_scp by done.
    cbn zeta. rewrite <- Hpath, (bool_decide_eq_false_2 (p = "")) by done.
    fold raw. destruct (urlParse raw) as [u|] eqn:Hu; [|done].
    by rewrite (Hurl u eq_refl).
  - intros raw raw' u user' query' Hr Hr' Hu Hu' Hs Hf Ho Hh. unfold RepositoryIdentifier.
    rewrite !(bool_decide_eq_false_2 (_ = "")), Hu, Hu' by done. simpl.
    unfold repositoryURLIdentifier. simpl.
    rewrite (bool_decide_eq_false_2 (Scheme u = "")), (bool_decide_eq_true_2 (Opaque u = "")),
      (bool_decide_eq_false_2 (Scheme u = "file")), (bool_decide_eq_false_2 (_ = "")) by done.
    done.
Qed.

Definition demoChain : goError :=
  [(OtherError, "pull https://token@host"); (UnexpectedError, "unexpected client error");
   (NetDNSError false, "lookup host")].

Lemma network_failure_recognised_witness :
  category (ClassifyPullError false (λ _, None) demoChain "https://host/r" false) = FailureNetwork ∧
  diagnostic (ClassifyPullError false (λ _, None) demoChain "https://host/r" false) =
    "Git repository DNS lookup failed".
Proof.
  destruct (network_failure_recognised false (λ _, None) demoChain "https://host/r" false
    (NetDNSError false)) as [H1 H2].
  - repeat constructor.
  - apply list_elem_of_In. simpl. tauto.
  - left. by exists false.
  - split; [exact H1|]. apply H2. by exists false.
Defined.

Lemma pull_error_hides_texts_witness :
  ClassifyPullError false (λ _, None) demoChain "https://host/r" false =
  ClassifyPullError false (λ _, None)
    [(OtherError, ""); (UnexpectedError, ""); (NetDNSError false, "")] "https://host/r" false.
Proof.
  destruct (pull_error_hides_texts false (λ _, None) demoChain
    [(OtherError, ""); (UnexpectedError, ""); (NetDNSError false, "")] "https://host/r" false)
    as (_ & _ & H & _); [reflexivity|].
  apply H; [reflexivity|vm_compute; reflexivity].
Defined.

Lemma repository_identifier_without_credentials_witness :
  RepositoryIdentifier (λ _, None) (λ _, None) (λ s, s) (λ s, s)
    (scpRemote "git" "Host.example" "team/app.git") = "host.example/team/app".
Proof.
  destruct (repository_identifier_without_credentials (λ _, None) (λ _, None) (λ s, s) (λ s, s))
    as [H _].
  rewrite (H "git" "Host.example" "team/app.git" "team/app.git");
    try (apply (bool_decide_unpack _); vm_compute; exact I); try (vm_compute; reflexivity).
  intros u Hu. discriminate Hu.
Defined.
