(* ===== verification/Runtime.v ===== *)
(** * GitOps runtime state ([internal/modules/gitops/model], [modelstore])

    The state the GitOps controller persists, the events it publishes and the
    store interface its components are written against; [SqlStore] is the
    implementation over the table [gitops_runtime]. *)
From S2P Require Import Prelude GoStrings.

Definition SyncStatusSynced : string := "Synced".
Definition SyncStatusOutOfSync : string := "OutOfSync".
Definition SyncStatusUnspecified : string := "".

(** [model.Service] *)
Record Service := {
  Image : string; SyncStatus : string; SyncError : string;
  SelfHealPending : bool; SyncAt : Time;
}.

(** [model.StackStatus] *)
Record StackStatus := { Synced : nat; OutOfSynced : nat }.

(** [model.Stack] *)
Record Stack := {
  DriftedServices : gmap string bool; SourceDigest : string; LastCommit : string;
  Status : StackStatus; LastError : string; LastDeployAt : Time; StateUpdatedAt : Time;
  Services : gmap string Service;
}.

(** [model.Network] *)
Record Network := {
  Driver : string; NetworkCommit : string; LastStatus : string; NetworkError : string;
  NetworkSyncAt : Time;
}.

(** [model.GitPullFailure] *)
Record GitPullFailure := { FailureRepository : string }.

(** [model.Runtime] *)
Record Runtime := {
  PullFailure : option GitPullFailure;
  LastPollAt : Time; LastPollResult : string; LastPollError : string;
  LastSyncAt : Time; LastSyncReason : string; LastSyncResult : string; LastSyncError : string;
  GitRevision : string;
  Stacks : gmap string Stack;
  Networks : gmap string Network;
}.

Definition emptyRuntime : Runtime :=
  {| PullFailure := None; LastPollAt := 0; LastPollResult := ""; LastPollError := "";
     LastSyncAt := 0; LastSyncReason := ""; LastSyncResult := ""; LastSyncError := "";
     GitRevision := ""; Stacks := ∅; Networks := ∅ |}.

(** [NewStackStatus] *)
Definition NewStackStatus (services : gmap string Service) : StackStatus :=
  map_fold (λ _ service status,
    if bool_decide (SyncStatus service = SyncStatusSynced)
    then {| Synced := S (Synced status); OutOfSynced := OutOfSynced status |}
    else if bool_decide (SyncStatus service = SyncStatusOutOfSync)
    then {| Synced := Synced status; OutOfSynced := S (OutOfSynced status) |}
    else status) {| Synced := 0; OutOfSynced := 0 |} services.

(** [Stack.ServiceSyncStatus], [None] for a nil stack. *)
Definition ServiceSyncStatus (s : option Stack) (serviceName : string) : string :=
  match s with
  | None => SyncStatusUnspecified
  | Some s => match Services s !! serviceName with
              | Some srv => SyncStatus srv
              | None => SyncStatusUnspecified
              end
  end.

(** The fields the components update. *)
Definition setPullFailure (f : option GitPullFailure) (r : Runtime) : Runtime :=
  {| PullFailure := f; LastPollAt := LastPollAt r; LastPollResult := LastPollResult r;
     LastPollError := LastPollError r; LastSyncAt := LastSyncAt r;
     LastSyncReason := LastSyncReason r; LastSyncResult := LastSyncResult r;
     LastSyncError := LastSyncError r; GitRevision := GitRevision r;
     Stacks := Stacks r; Networks := Networks r |}.
Definition setNetworks (n : gmap string Network) (r : Runtime) : Runtime :=
  {| PullFailure := PullFailure r; LastPollAt := LastPollAt r; LastPollResult := LastPollResult r;
     LastPollError := LastPollError r; LastSyncAt := LastSyncAt r;
     LastSyncReason := LastSyncReason r; LastSyncResult := LastSyncResult r;
     LastSyncError := LastSyncError r; GitRevision := GitRevision r;
     Stacks := Stacks r; Networks := n |}.
Definition setPoll (at_ : Time) (result err : string) (r : Runtime) : Runtime :=
  {| PullFailure := PullFailure r; LastPollAt := at_; LastPollResult := result;
     LastPollError := err; LastSyncAt := LastSyncAt r;
     LastSyncReason := LastSyncReason r; LastSyncResult := LastSyncResult r;
     LastSyncError := LastSyncError r; GitRevision := GitRevision r;
     Stacks := Stacks r; Networks := Networks r |}.
Definition setSync (at_ : Time) (reason result err revision : string) (r : Runtime) : Runtime :=
  {| PullFailure := PullFailure r; LastPollAt := LastPollAt r; LastPollResult := LastPollResult r;
     LastPollError := LastPollError r; LastSyncAt := at_; LastSyncReason := reason;
     LastSyncResult := result; LastSyncError := err; GitRevision := revision;
     Stacks := Stacks r; Networks := Networks r |}.

(** The domain events of the GitOps controller. *)
Inductive Event :=
| ConfigurationChanged (previousRepository repository : string)
| GitPullFailed (repository category description triggerReason : string)
| GitPullSucceeded (repository triggerReason : string)
| NetworkCreated (networkName networkID driver : string)
| SyncManualStarted (username : string)
| DeployPreparationFailed (stackName commit : string) (services : list (string * string))
    (errorCode stage error : string) (temporary : bool)
| ServiceMissed (stackName serviceName commit : string) (resolved : bool)
| ServiceDrifted (stackName serviceName commit reason : string) (resolved : bool)
| ServiceDriftFixed (stackName serviceName commit : string).
#[export] Instance Event_eq_dec : EqDecision Event.
Proof. solve_decision. Defined.

(** ** The store interface

    [modelstore.Store] and [dispatcher.Dispatcher] over one database state. *)
Class GitOpsStore (S : Type) := {
  Read : St S string Runtime;
  Save : Runtime → St S string ();
  Publish : Event → St S string ();
  stored : S → Runtime;
  published : S → list Event;
}.

(** What the clients rely on: reading shows the stored state and changes
    nothing, saving and publishing change their own part only. Every operation
    may fail. *)
Class GitOpsStoreLaws (S : Type) `{GitOpsStore S} := {
  Read_state s r s' : Read s = (r, s') → s' = s;
  Read_ok s r s' : Read s = (Ok r, s') → s' = s ∧ r = stored s;
  Save_ok r s s' : Save r s = (Ok (), s') → stored s' = r ∧ published s' = published s;
  Publish_ok e s s' :
    Publish e s = (Ok (), s') → stored s' = stored s ∧ published s' = published s ++ [e];
  Publish_err e s err s' : Publish e s = (Err err, s') → s' = s;
}.

Section Store.
Context {DB : Type} `{GitOpsStore DB, !GitOpsStoreLaws DB}.
Local Open Scope go_scope.

(** [SQLStore.Update] *)
Definition Update (fn : Runtime → Runtime) : St DB string () :=
  within_transaction (let! state := Read in Save (fn state)).

Fixpoint publishAll (events : list Event) : St DB string () :=
  match events with
  | [] => st_ret ()
  | event :: events => do! Publish event in publishAll events
  end.

Lemma Update_ok fn s s' :
  Update fn s = (Ok (), s') → stored s' = fn (stored s) ∧ published s' = published s.
Proof.
  unfold Update. intros H1. st_inv. apply Read_ok in Hrun as [-> ->]. by apply Save_ok.
Qed.

Lemma Update_err fn s e s' : Update fn s = (Err e, s') → s' = s.
Proof. apply within_transaction_err. Qed.

Lemma publishAll_ok events s s' :
  publishAll events s = (Ok (), s') →
  stored s' = stored s ∧ published s' = published s ++ events.
Proof.
  revert s. induction events as [|e events IH]; simpl; intros s H1.
  - unfold st_ret in H1. simplify_eq. by rewrite app_nil_r.
  - st_inv. destruct a. apply Publish_ok in Hrun as [Hs Hp].
    apply IH in H1 as [-> ->]. rewrite Hs, Hp, <- app_assoc. done.
Qed.
End Store.

(** ** The SQLite store

    [row] is the decoded payload of the only row; [readError], [execError] and
    [publishError] are the failures of the database. *)
Record SqlStore := {
  row : option Runtime;
  outbox : list Event;
  readError : option string;
  execError : option string;
  publishError : option string;
}.

Definition sqlRead (s : SqlStore) : Result string Runtime * SqlStore :=
  match readError s with
  | Some err => (Err err, s)
  | None => (Ok (default emptyRuntime (row s)), s)
  end.

Definition sqlSave (state : Runtime) (s : SqlStore) : Result string () * SqlStore :=
  match execError s with
  | Some err => (Err err, s)
  | None => (Ok (), {| row := Some state; outbox := outbox s; readError := readError s;
                       execError := execError s; publishError := publishError s |})
  end.

Definition sqlPublish (event : Event) (s : SqlStore) : Result string () * SqlStore :=
  match publishError s with
  | Some err => (Err err, s)
  | None => (Ok (), {| row := row s; outbox := outbox s ++ [event]; readError := readError s;
                       execError := execError s; publishError := publishError s |})
  end.

#[export] Instance SqlStore_store : GitOpsStore SqlStore := {
  Read := sqlRead; Save := sqlSave; Publish := sqlPublish;
  stored s := default emptyRuntime (row s); published := outbox;
}.
#[export] Instance SqlStore_laws : GitOpsStoreLaws SqlStore.
Proof.
  split; simpl; unfold sqlRead, sqlSave, sqlPublish; intros; case_match; by simplify_eq.
Qed.

Definition openStore : SqlStore :=
  {| row := None; outbox := []; readError := None; execError := None; publishError := None |}.

(** The stack counters count: [NewStackStatus] gives the number of services
    with each status, whatever order the map is ranged over. *)
Theorem NewStackStatus_counts services :
  let status := NewStackStatus services in
  Synced status = size (filter (λ kv, SyncStatus kv.2 = SyncStatusSynced) services) ∧
  OutOfSynced status = size (filter (λ kv, SyncStatus kv.2 = SyncStatusOutOfSync) services) ∧
  Synced status + OutOfSynced status ≤ size services.
Proof.
  cbn zeta. unfold NewStackStatus. set (f := λ _, _). set (b := {| Synced := 0; OutOfSynced := 0 |}).
  apply (map_fold_weak_ind (λ status m,
    Synced status = size (filter (λ kv, SyncStatus kv.2 = SyncStatusSynced) m) ∧
    OutOfSynced status = size (filter (λ kv, SyncStatus kv.2 = SyncStatusOutOfSync) m) ∧
    Synced status + OutOfSynced status ≤ size m)).
  { by rewrite !map_filter_empty, map_size_empty. }
  intros i srv m [sy oo] Hi (H1 & H2 & H3). unfold f. simpl in *.
  rewrite map_size_insert_None by done.
  case_bool_decide as Hs; [|case_bool_decide as Ho]; simpl.
  - rewrite map_filter_insert_True, map_filter_insert_False by (simpl; rewrite ?Hs; done).
    rewrite map_size_insert_None, (delete_id m i) by (rewrite ?map_lookup_filter_None; auto). lia.
  - rewrite map_filter_insert_False, map_filter_insert_True by (simpl; rewrite ?Ho; done).
    rewrite map_size_insert_None, (delete_id m i) by (rewrite ?map_lookup_filter_None; auto). lia.
  - rewrite !map_filter_insert_False by done. rewrite (delete_id m i) by done. lia.
Qed.
