(* ===== verification/GitPull.v ===== *)
(** * Git pulls ([internal/modules/gitops/controller/gitpull])

    [Monitor] persists the latest pull failure and publishes failure, recovery
    and repository changes in the same transaction; [Puller] pulls and records
    the outcome without ever failing because of the recording. *)
From S2P Require Import Prelude GoStrings StackPlan GitErrors Runtime.

(** [gitpull.Failure] and [gitpull.Observation] *)
Record Failure := { Category : FailureCategory; Description : string }.
Record Observation := {
  Repository : string;
  TriggerReason : string;
  ObservedFailure : option Failure;
}.

(** The texts of the category constants. *)
Definition categoryText (c : FailureCategory) : string :=
  match c with
  | FailureAuthentication => "authentication"
  | FailureAccessDenied => "access_denied"
  | FailureRepositoryNotFound => "repository_not_found"
  | FailureNetwork => "network"
  | FailureSSHHostVerification => "ssh_host_verification"
  | FailureOther => "other"
  end.

(** [transition] *)
Definition transition (previous : option GitPullFailure) (observation : Observation)
    : option GitPullFailure * list Event :=
  let repositoryChanged := match previous with
    | Some p => negb (bool_decide (FailureRepository p = Repository observation))
    | None => false
    end in
  let pending := match previous with
    | Some p => if repositoryChanged
                then [ConfigurationChanged (FailureRepository p) (Repository observation)] else []
    | None => []
    end in
  match ObservedFailure observation with
  | Some failure =>
      (Some {| FailureRepository := Repository observation |},
       pending ++ [GitPullFailed (Repository observation) (categoryText (Category failure))
                     (Description failure) (TriggerReason observation)])
  | None =>
      (None,
       if bool_decide (is_Some previous) && negb repositoryChanged
       then pending ++ [GitPullSucceeded (Repository observation) (TriggerReason observation)]
       else pending)
  end.

Section Monitor.
Context {DB : Type} `{GitOpsStore DB, !GitOpsStoreLaws DB}.
Local Open Scope go_scope.

(** [Monitor.Observe] *)
Definition Observe (observation : Observation) : St DB string () :=
  within_transaction (
    let! state := Read in
    let previous := PullFailure state in
    let '(next, pending) := transition previous observation in
    if negb (bool_decide (is_Some previous)) && negb (bool_decide (is_Some next))
    then st_ret ()
    else
      do! Update (setPullFailure next) in
      publishAll pending).

(** [Puller.observe]: a failure to record is only logged. *)
Definition observe (observation : Observation) (s : DB) : DB := (Observe observation s).2.

(** [Puller.Pull] for a repository and the outcome of [git.Pull]. *)
Definition Pull (unwraps : bool) (urlParse : string → option URL)
    (absPath : string → option string) (cleanPath digest8 : string → string)
    (remote : string) (authSSH : bool) (reason : string)
    (gitPull : Result goError PullResult) (s : DB) : Result PullError PullResult * DB :=
  let repository := RepositoryIdentifier urlParse absPath cleanPath digest8 remote in
  match gitPull with
  | Err err =>
      let e := ClassifyPullError unwraps urlParse err remote authSSH in
      let '(c, d) := GitErrors.PullFailure unwraps [(TypePullError e, diagnostic e)] in
      (Err e, observe {| Repository := repository; TriggerReason := reason;
                         ObservedFailure := Some {| Category := c; Description := d |} |} s)
  | Ok result =>
      (Ok result, observe {| Repository := repository; TriggerReason := reason;
                             ObservedFailure := None |} s)
  end.

Lemma setPullFailure_same r : setPullFailure (PullFailure r) r = r.
Proof. by destruct r. Qed.

(** A recorded observation stores exactly the next state and publishes exactly
    the pending events. *)
Lemma Observe_ok observation s s' :
  Observe observation s = (Ok (), s') →
  stored s' = setPullFailure (transition (PullFailure (stored s)) observation).1 (stored s) ∧
  published s' = published s ++ (transition (PullFailure (stored s)) observation).2.
Proof.
  intros Hrun. apply (proj1 (within_transaction_ok _ _ _ _)) in Hrun.
  apply (proj1 (st_bind_ok _ _ _ _ _)) in Hrun as (state & s1 & Hread & Hrun).
  apply Read_ok in Hread as [-> ->].
  destruct (transition (PullFailure (stored s)) observation) as [next pending] eqn:Ht.
  cbn zeta in Hrun. rewrite Ht in Hrun. simpl. destruct (_ && _) eqn:Hnone.
  - unfold st_ret in Hrun. simplify_eq.
    apply andb_true_iff in Hnone as [Hp%negb_true_iff%bool_decide_eq_false
      Hn%negb_true_iff%bool_decide_eq_false].
    apply eq_None_not_Some in Hp, Hn. subst next.
    rewrite Hp in Ht. unfold transition in Ht.
    destruct (ObservedFailure observation); [done|]. simpl in Ht. simplify_eq.
    by rewrite <- Hp, setPullFailure_same, app_nil_r.
  - apply (proj1 (st_bind_ok _ _ _ _ _)) in Hrun as ([] & s2 & Hup & Hrun).
    apply Update_ok in Hup as [Hst Hpub]. apply publishAll_ok in Hrun as [-> ->].
    by rewrite Hst, Hpub.
Qed.

(** What the events published so far say about the persisted failure: after a
    failure the last event is that failure, and every recovery directly
    follows a failure of the same repository. *)
Definition failureOf (repository : string) (e : Event) : Prop :=
  match e with GitPullFailed r _ _ _ => r = repository | _ => False end.

Definition recoveries_follow (events : list Event) : Prop :=
  ∀ l1 l2 repository reason, events = l1 ++ GitPullSucceeded repository reason :: l2 →
    ∃ l0 e, l1 = l0 ++ [e] ∧ failureOf repository e.

Definition pull_history (s : DB) : Prop :=
  recoveries_follow (published s) ∧
  ∀ f, PullFailure (stored s) = Some f →
    ∃ l e, published s = l ++ [e] ∧ failureOf (FailureRepository f) e.

Lemma recoveries_follow_snoc events e :
  recoveries_follow events →
  (∀ repository reason, e = GitPullSucceeded repository reason →
     ∃ l0 e', events = l0 ++ [e'] ∧ failureOf repository e') →
  recoveries_follow (events ++ [e]).
Proof.
  intros He Hlast l1 l2 repository reason Heq.
  destruct l2 as [|x l2 _] using rev_ind.
  - apply app_inj_tail in Heq as [<- ->]. eauto.
  - rewrite app_comm_cons, app_assoc in Heq. apply app_inj_tail in Heq as [-> _]. eauto.
Qed.

Lemma Observe_history observation s :
  pull_history s → pull_history (observe observation s).
Proof.
  intros [Hrec Hlast]. unfold observe.
  destruct (Observe observation s) as [[[]|err] s'] eqn:Hrun; simpl; cycle 1.
  { apply within_transaction_err in Hrun as ->. by split. }
  apply Observe_ok in Hrun as [Hs Hp]. unfold transition in Hs, Hp.
  destruct (PullFailure (stored s)) as [f|] eqn:Hf; simpl in *.
  - destruct (Hlast f eq_refl) as (l & e & Hpub & He).
    destruct (ObservedFailure observation) as [failure|]; case_bool_decide as Hr; simpl in *;
      unfold pull_history; rewrite Hs, Hp; simpl; rewrite ?app_nil_r.
    + split; [by apply recoveries_follow_snoc|]. intros f' [= <-]. eexists _, _. split; [done|]. done.
    + rewrite (cons_middle (ConfigurationChanged _ _) _ [_]), app_assoc. split.
      * by repeat apply recoveries_follow_snoc.
      * intros f' [= <-]. eexists _, _. split; [done|]. done.
    + split; [|done]. apply recoveries_follow_snoc; [done|].
      intros ?? [= <- _]. rewrite <- Hr. eauto.
    + split; [|done]. by apply recoveries_follow_snoc.
  - destruct (ObservedFailure observation) as [failure|]; simpl in *;
      unfold pull_history; rewrite Hs, Hp; simpl; rewrite ?app_nil_r; [|done].
    split; [by apply recoveries_follow_snoc|]. intros f' [= <-]. eexists _, _. split; [done|]. done.
Qed.
End Monitor.

(** The transition table of pull failures and recoveries, row by row, and
    its persistence: an observation either stores the next state together with
    all of the row's events in order, or changes nothing at all. *)
Theorem git_pull_transitions `{GitOpsStoreLaws DB} repository reason c d (other : string) :
  let failure := Some {| Category := c; Description := d |} in
  let obs f := {| Repository := repository; TriggerReason := reason; ObservedFailure := f |} in
  let here := Some {| FailureRepository := repository |} in
  let elsewhere := Some {| FailureRepository := other |} in
  let failed := GitPullFailed repository (categoryText c) d reason in
  transition None (obs None) = (None, []) ∧
  transition None (obs failure) = (here, [failed]) ∧
  transition here (obs None) = (None, [GitPullSucceeded repository reason]) ∧
  transition here (obs failure) = (here, [failed]) ∧
  (other ≠ repository →
     transition elsewhere (obs None) = (None, [ConfigurationChanged other repository]) ∧
     transition elsewhere (obs failure) = (here, [ConfigurationChanged other repository; failed])) ∧
  (∀ observation (s : DB),
     match Observe observation s with
     | (Ok (), s') =>
         stored s' = setPullFailure (transition (PullFailure (stored s)) observation).1 (stored s) ∧
         published s' = published s ++ (transition (PullFailure (stored s)) observation).2
     | (Err _, s') => s' = s
     end).
Proof.
  simpl. split_and!.
  - done.
  - done.
  - unfold transition. simpl. by rewrite bool_decide_eq_true_2.
  - unfold transition. simpl. by rewrite bool_decide_eq_true_2.
  - intros Hne. unfold transition. simpl. by rewrite bool_decide_eq_false_2.
  - intros observation s. destruct (Observe observation s) as [[[]|err] s'] eqn:Hrun.
    + by apply Observe_ok.
    + by apply within_transaction_err in Hrun.
Qed.

(** Over any sequence of pulls, with any of them failing to be recorded,
    every published recovery directly follows a published failure of the same
    repository, and while a failure is persisted its event is the latest one,
    so a recovery is reported exactly once per failure episode. *)
Theorem git_pull_recovery_follows_failure `{GitOpsStoreLaws DB} (s : DB)
    (Hp : published s = []) (Hs : PullFailure (stored s) = None)
    (observations : list Observation) :
  let s' := fold_left (λ s observation, observe observation s) observations s in
  recoveries_follow (published s') ∧
  ∀ f, PullFailure (stored s') = Some f →
    ∃ l e, published s' = l ++ [e] ∧ failureOf (FailureRepository f) e.
Proof.
  simpl. assert (pull_history s) as Hh.
  { split; [|by rewrite Hs]. rewrite Hp. intros [|] ???; done. }
  change (pull_history (fold_left (λ s observation, observe observation s) observations s)).
  clear Hp Hs. revert s Hh. induction observations as [|o observations IH]; intros s Hh; [done|].
  apply IH. by apply Observe_history.
Qed.

Definition demoPulls : list Observation :=
  let obs f := {| Repository := "r"; TriggerReason := "poll"; ObservedFailure := f |} in
  let failure := Some {| Category := FailureNetwork; Description := "d" |} in
  [obs failure; obs failure; obs None; obs None].

Lemma git_pull_transitions_witness :
  transition (Some {| FailureRepository := "a" |})
    {| Repository := "b"; TriggerReason := "poll"; ObservedFailure := None |} =
  (None, [ConfigurationChanged "a" "b"]).
Proof.
  destruct (git_pull_transitions (DB := SqlStore) "b" "poll" FailureOther "" "a")
    as (_ & _ & _ & _ & H & _).
  destruct H as [H _]; [discriminate|]. exact H.
Defined.

Lemma git_pull_recovery_follows_failure_witness :
  published (fold_left (λ s observation, observe observation s) demoPulls openStore) =
    [GitPullFailed "r" "network" "d" "poll"; GitPullFailed "r" "network" "d" "poll";
     GitPullSucceeded "r" "poll"] ∧
  recoveries_follow
    (published (fold_left (λ s observation, observe observation s) demoPulls openStore)).
Proof.
  split; [vm_compute; reflexivity|].
  apply (git_pull_recovery_follows_failure openStore); reflexivity.
Defined.
