(* ===== verification/Networks.v ===== *)
(** * Network reconciliation ([internal/modules/gitops/controller/networkloop])

    [Reconciler] creates a missing network or validates an existing one;
    [Coordinator] reconciles every configured network of a commit and persists
    the results together with the creation events. The Docker daemon behind
    [swarm.NetworkManager] is a parameter. *)
From S2P Require Import Prelude GoStrings Runtime.

(** [config.NetworkSpec] *)
Record NetworkSpec := {
  Name : string; SpecDriver : string; Attachable : bool; Internal : bool;
  Labels : gmap string string; Options : gmap string string;
}.

(** [swarm.CreateNetworkRequest], as the reconciler fills it. *)
Record CreateNetworkRequest := {
  req_Name : string; req_Driver : string; req_Attachable : bool; req_Internal : bool;
  req_Labels : gmap string string; req_Options : gmap string string;
}.

(** [swarm.Network], the fields the reconciler reads. *)
Record SwarmNetwork := {
  net_Name : string; net_Driver : string; net_Attachable : bool; net_Internal : bool;
  net_Labels : gmap string string; net_Options : gmap string string;
}.

Definition NetworkManagedKey : string := "org.swarm-deploy.network.managed".
Definition NetworkManagedValue : string := "true".

(** The errors of a reconciliation. *)
Inductive networkError :=
| LabelMustBe
| NotManaged (name : string)
| DriverDrift (actual desired : string)
| InternalDrift (actual desired : bool)
| AttachableDrift (actual desired : bool)
| MissingItem (itemName key : string)
| ItemDrift (itemName key actual desired : string)
| GetFailed (err : string)
| CreateFailed (err : string).

(** [withManagedNetworkLabel] *)
Definition withManagedNetworkLabel (labels : gmap string string)
    : Result networkError (gmap string string) :=
  match labels !! NetworkManagedKey with
  | Some labelValue =>
      if bool_decide (trim_space labelValue = NetworkManagedValue)
      then Ok (<[NetworkManagedKey := NetworkManagedValue]> labels)
      else Err LabelMustBe
  | None => Ok (<[NetworkManagedKey := NetworkManagedValue]> labels)
  end.

(** [ensureManagedNetwork] *)
Definition ensureManagedNetwork (network : SwarmNetwork) : option networkError :=
  let labelValue := trim_space (default "" (net_Labels network !! NetworkManagedKey)) in
  if bool_decide (labelValue = NetworkManagedValue) then None
  else Some (NotManaged (net_Name network)).

(** [ensureMapContains]: Go ranges over the map in any order; here it is the
    order of [map_to_list]. *)
Fixpoint ensureEntries (actual : gmap string string) (expected : list (string * string))
    (itemName : string) : option networkError :=
  match expected with
  | [] => None
  | (key, value) :: expected =>
      match actual !! key with
      | None => Some (MissingItem itemName key)
      | Some actualValue =>
          if bool_decide (actualValue = value) then ensureEntries actual expected itemName
          else Some (ItemDrift itemName key actualValue value)
      end
  end.
Definition ensureMapContains (actual expected : gmap string string) (itemName : string)
    : option networkError := ensureEntries actual (map_to_list expected) itemName.

(** [ensureNetworkMatches] *)
Definition ensureNetworkMatches (current : SwarmNetwork) (desired : CreateNetworkRequest)
    : option networkError :=
  if negb (bool_decide (net_Driver current = req_Driver desired))
  then Some (DriverDrift (net_Driver current) (req_Driver desired))
  else if negb (Bool.eqb (net_Internal current) (req_Internal desired))
  then Some (InternalDrift (net_Internal current) (req_Internal desired))
  else if negb (Bool.eqb (net_Attachable current) (req_Attachable desired))
  then Some (AttachableDrift (net_Attachable current) (req_Attachable desired))
  else match ensureMapContains (net_Labels current) (req_Labels desired) "label" with
       | Some err => Some err
       | None => ensureMapContains (net_Options current) (req_Options desired) "option"
       end.

(** The error of [NetworkManager.Get]. *)
Inductive getError := ErrNetworkNotFound | ErrGet (err : string).

Section Networks.
(** The Docker daemon: its state, [Get] and [Create]. *)
Context {W : Type}.
Context (managerGet : string → W → Result getError SwarmNetwork).
Context (managerCreate : CreateNetworkRequest → W → Result string string * W).

Definition desiredNetwork (networkCfg : NetworkSpec) (labels : gmap string string)
    : CreateNetworkRequest :=
  {| req_Name := Name networkCfg; req_Driver := SpecDriver networkCfg;
     req_Attachable := Attachable networkCfg; req_Internal := Internal networkCfg;
     req_Labels := labels; req_Options := Options networkCfg |}.

(** [Reconciler.Reconcile]: whether the network was left alone, and the
    creation event. *)
Definition ReconcileNetwork (networkCfg : NetworkSpec) (w : W)
    : Result networkError (bool * option Event) * W :=
  match withManagedNetworkLabel (Labels networkCfg) with
  | Err err => (Err err, w)
  | Ok labels =>
      let desired := desiredNetwork networkCfg labels in
      match managerGet (Name networkCfg) w with
      | Err ErrNetworkNotFound =>
          match managerCreate desired w with
          | (Err err, w') => (Err (CreateFailed err), w')
          | (Ok networkID, w') =>
              (Ok (false, Some (NetworkCreated (Name networkCfg) networkID
                                  (SpecDriver networkCfg))), w')
          end
      | Err (ErrGet err) => (Err (GetFailed err), w)
      | Ok current =>
          match ensureManagedNetwork current with
          | Some err => (Err err, w)
          | None => match ensureNetworkMatches current desired with
                    | Some err => (Err err, w)
                    | None => (Ok (true, None), w)
                    end
          end
      end
  end.

(** [syncedNetwork] *)
Definition syncedNetwork (state : Runtime) (name commit : string) : option Network :=
  match Networks state !! name with
  | Some previous =>
      if bool_decide (NetworkCommit previous = commit) &&
         (bool_decide (LastStatus previous = "success") ||
          bool_decide (LastStatus previous = "no_change"))
      then Some previous else None
  | None => None
  end.

(** The text of an error value. *)
Context (errorMessage : networkError → string).

(** [Coordinator.reconcileNetwork] *)
Definition reconcileNetwork (networkCfg : NetworkSpec) (commit : string) (syncedAt : Time)
    (w : W) : (Network * option Event * option networkError) * W :=
  let state status err :=
    {| Driver := SpecDriver networkCfg; NetworkCommit := commit; LastStatus := status;
       NetworkError := err; NetworkSyncAt := syncedAt |} in
  match ReconcileNetwork networkCfg w with
  | (Err err, w') => ((state "failed" (errorMessage err), None, Some err), w')
  | (Ok (skipped, created), w') =>
      ((state (if skipped : bool then "no_change" else "success") "", created, None), w')
  end.

Record pass := {
  nextState : gmap string Network;
  created : list Event;
  errors : list (string * networkError);
}.

(** The loop of [Coordinator.Reconcile]. *)
Fixpoint reconcileAll (currentState : Runtime) (commit : string) (syncedAt : Time)
    (networks : list NetworkSpec) (acc : pass) (w : W) : pass * W :=
  match networks with
  | [] => (acc, w)
  | networkCfg :: networks =>
      match syncedNetwork currentState (Name networkCfg) commit with
      | Some previous =>
          reconcileAll currentState commit syncedAt networks
            {| nextState := <[Name networkCfg := previous]> (nextState acc);
               created := created acc; errors := errors acc |} w
      | None =>
          let '((state, ev, err), w') := reconcileNetwork networkCfg commit syncedAt w in
          reconcileAll currentState commit syncedAt networks
            {| nextState := <[Name networkCfg := state]> (nextState acc);
               created := match ev with Some e => created acc ++ [e] | None => created acc end;
               errors := match err with
                         | Some e => errors acc ++ [(Name networkCfg, e)]
                         | None => errors acc
                         end |} w'
      end
  end.

Definition emptyPass : pass := {| nextState := ∅; created := []; errors := [] |}.

Context {DB : Type} `{GitOpsStore DB, !GitOpsStoreLaws DB}.
Local Open Scope go_scope.

(** [Coordinator.persist] *)
Definition persist (next : gmap string Network) (createdEvents : list Event) : St DB string () :=
  within_transaction (do! Update (setNetworks next) in publishAll createdEvents).

(** The joined error: the failed networks and the persistence error. *)
Record coordinatorError := {
  networkErrors : list (string * networkError);
  persistError : option string;
}.

(** [Coordinator.Reconcile] over the database and the daemon. *)
Definition Reconcile (networks : list NetworkSpec) (commit : string) (syncedAt : Time)
    (s : DB) (w : W) : Result coordinatorError () * DB * W :=
  match networks with
  | [] =>
      match Update (setNetworks ∅) s with
      | (Ok (), s') => (Ok (), s', w)
      | (Err err, s') => (Err {| networkErrors := []; persistError := Some err |}, s', w)
      end
  | _ =>
      match Read s with
      | (Err err, s1) => (Err {| networkErrors := []; persistError := Some err |}, s1, w)
      | (Ok currentState, s1) =>
          let '(p, w') := reconcileAll currentState commit syncedAt networks emptyPass w in
          let '(r, s') := persist (nextState p) (created p) s1 in
          let persistErr := match r with Ok _ => None | Err err => Some err end in
          match errors p, persistErr with
          | [], None => (Ok (), s', w')
          | errs, e => (Err {| networkErrors := errs; persistError := e |}, s', w')
          end
      end
  end.
End Networks.

(** ** One network *)
Lemma ensureEntries_None actual expected itemName :
  ensureEntries actual expected itemName = None ↔
  Forall (λ kv, actual !! kv.1 = Some kv.2) expected.
Proof.
  induction expected as [|[k v] expected IH]; simpl; [by split; constructor|].
  rewrite Forall_cons. simpl. destruct (actual !! k) as [x|]; [|naive_solver].
  case_bool_decide; naive_solver.
Qed.

Lemma ensureMapContains_None actual expected itemName :
  ensureMapContains actual expected itemName = None ↔ expected ⊆ actual.
Proof.
  unfold ensureMapContains. rewrite ensureEntries_None, Forall_forall, map_subseteq_spec. split.
  - intros Hall k v Hkv. by apply (Hall (k, v)), elem_of_map_to_list.
  - intros Hsub [k v] Hkv%elem_of_map_to_list. by apply Hsub.
Qed.

(** The network is what the configuration asks for. *)
Record matches (current : SwarmNetwork) (desired : CreateNetworkRequest) : Prop := {
  m_driver : net_Driver current = req_Driver desired;
  m_internal : net_Internal current = req_Internal desired;
  m_attachable : net_Attachable current = req_Attachable desired;
  m_labels : req_Labels desired ⊆ net_Labels current;
  m_options : req_Options desired ⊆ net_Options current;
}.

Lemma ensureNetworkMatches_None current desired :
  ensureNetworkMatches current desired = None ↔ matches current desired.
Proof.
  unfold ensureNetworkMatches. split.
  - case_bool_decide; simpl; [|done].
    destruct (Bool.eqb (net_Internal current) _) eqn:Hi; simpl; [|done].
    destruct (Bool.eqb (net_Attachable current) _) eqn:Ha; simpl; [|done].
    destruct (ensureMapContains _ _ "label") eqn:Hl; [done|]. intros Ho.
    apply Bool.eqb_prop in Hi, Ha. by split; [..|eapply ensureMapContains_None|eapply ensureMapContains_None].
  - intros [Hd Hi Ha Hl Ho]. rewrite Hd, Hi, Ha, bool_decide_eq_true_2, !Bool.eqb_reflx by done.
    simpl. by rewrite (proj2 (ensureMapContains_None _ _ _) Hl), (proj2 (ensureMapContains_None _ _ _) Ho).
Qed.

Lemma withManagedNetworkLabel_Ok labels labels' :
  withManagedNetworkLabel labels = Ok labels' →
  labels' !! NetworkManagedKey = Some NetworkManagedValue.
Proof.
  unfold withManagedNetworkLabel. intros. repeat case_match; simplify_eq; apply lookup_insert_eq.
Qed.

Lemma matches_managed current desired :
  matches current desired → req_Labels desired !! NetworkManagedKey = Some NetworkManagedValue →
  ensureManagedNetwork current = None.
Proof.
  intros [_ _ _ Hl _] Hm. eapply lookup_weaken in Hm; [|exact Hl].
  unfold ensureManagedNetwork. by rewrite Hm.
Qed.

(** Network reconciliation converges and never alters a foreign network:
    when it succeeds a second run finds nothing to do, provided the daemon
    returns what it created; the daemon is changed only by creating the desired
    network where [Get] found none; and an existing network is accepted exactly
    when it is managed and has the desired driver, flags, labels and options. *)
Theorem network_reconcile_converges {W} (managerGet : string → W → Result getError SwarmNetwork)
    (managerCreate : CreateNetworkRequest → W → Result string string * W)
    (Hcreate : ∀ desired w networkID w', managerCreate desired w = (Ok networkID, w') →
       ∃ current, managerGet (req_Name desired) w' = Ok current ∧ matches current desired)
    networkCfg w :
  let run := ReconcileNetwork managerGet managerCreate networkCfg in
  (∀ r, (run w).1 = Ok r → run (run w).2 = (Ok (true, None), (run w).2)) ∧
  ((run w).2 = w ∨
   ∃ labels, withManagedNetworkLabel (Labels networkCfg) = Ok labels ∧
     managerGet (Name networkCfg) w = Err ErrNetworkNotFound ∧
     (run w).2 = (managerCreate (desiredNetwork networkCfg labels) w).2) ∧
  (∀ current, managerGet (Name networkCfg) w = Ok current →
     (run w).2 = w ∧
     ((run w).1 = Ok (true, None) ↔
      ∃ labels, withManagedNetworkLabel (Labels networkCfg) = Ok labels ∧
        matches current (desiredNetwork networkCfg labels))).
Proof.
  simpl. unfold ReconcileNetwork.
  destruct (withManagedNetworkLabel (Labels networkCfg)) as [labels|err] eqn:Hl; simpl; cycle 1.
  { split_and!; [done|by left|]. intros current Hc. split; [done|]. naive_solver. }
  pose proof (withManagedNetworkLabel_Ok _ _ Hl) as Hm.
  destruct (managerGet (Name networkCfg) w) as [current|[|err]] eqn:Hg; simpl.
  - destruct (ensureManagedNetwork current) as [err|] eqn:Hmg; simpl.
    + split_and!; [done|by left|]. intros c [= <-]. split; [done|]. split; [done|].
      intros (l & [= <-] & Hmt). eapply matches_managed in Hmt; [congruence|done].
    + destruct (ensureNetworkMatches current _) as [err|] eqn:Hmt; simpl.
      * split_and!; [done|by left|]. intros c [= <-]. split; [done|]. split; [done|].
        intros (l & [= <-] & Hmt'). apply ensureNetworkMatches_None in Hmt'. congruence.
      * split_and!; [|by left|].
        { intros r _. by rewrite Hg, Hmg, Hmt. }
        intros c [= <-]. split; [done|]. split; [|done]. intros _.
        exists labels. split; [done|]. by apply ensureNetworkMatches_None.
  - destruct (managerCreate _ w) as [[networkID|err] w'] eqn:Hcr; simpl.
    + split_and!; [|right; exists labels; by rewrite Hcr|done]. intros r _.
      destruct (Hcreate _ _ _ _ Hcr) as (current & Hg' & Hmt). simpl in Hg'. rewrite Hg'.
      rewrite (matches_managed _ _ Hmt Hm). by apply ensureNetworkMatches_None in Hmt as ->.
    + split_and!; [done|right; exists labels; by rewrite Hcr|done].
  - split_and!; [done|by left|done].
Qed.

(** ** All networks of a commit *)
Section Coordinator.
Context {W : Type}.
Context (managerGet : string → W → Result getError SwarmNetwork).
Context (managerCreate : CreateNetworkRequest → W → Result string string * W).
Context (errorMessage : networkError → string).

Definition settled (commit : string) (n : Network) : Prop :=
  NetworkCommit n = commit ∧ (LastStatus n = "success" ∨ LastStatus n = "no_change").

Lemma syncedNetwork_settled state name commit n :
  syncedNetwork state name commit = Some n ↔
  Networks state !! name = Some n ∧ settled commit n.
Proof.
  unfold syncedNetwork, settled. destruct (Networks state !! name) as [m|]; [|naive_solver].
  repeat case_bool_decide; simpl; naive_solver.
Qed.

Lemma reconcileNetwork_settled networkCfg commit syncedAt w state ev w' :
  reconcileNetwork managerGet managerCreate errorMessage networkCfg commit syncedAt w =
    ((state, ev, None), w') → settled commit state.
Proof.
  unfold reconcileNetwork. destruct (ReconcileNetwork _ _ _ w) as [[[[] ?]|?] ?]; intros ?;
    simplify_eq; unfold settled; simpl; auto.
Qed.

Lemma reconcileNetwork_failed networkCfg commit syncedAt w state ev err w' :
  reconcileNetwork managerGet managerCreate errorMessage networkCfg commit syncedAt w =
    ((state, ev, Some err), w') →
  ev = None ∧ NetworkCommit state = commit ∧ LastStatus state = "failed".
Proof.
  unfold reconcileNetwork. destruct (ReconcileNetwork _ _ _ w) as [[[[] ?]|?] ?]; intros ?;
    by simplify_eq.
Qed.

Lemma reconcileAll_errors currentState commit syncedAt networks acc w :
  ∃ more, errors (reconcileAll managerGet managerCreate errorMessage currentState commit
                    syncedAt networks acc w).1 = errors acc ++ more.
Proof.
  revert acc w. induction networks as [|c networks IH]; intros acc w; simpl.
  { exists []. by rewrite app_nil_r. }
  destruct (syncedNetwork _ _ _) as [previous|].
  - apply (IH {| nextState := _; created := _; errors := errors acc |}).
  - destruct (reconcileNetwork _ _ _ _ _ _ w) as [[[st ev] err] w'].
    destruct (IH {| nextState := <[Name c:=st]> (nextState acc);
      created := match ev with Some e => created acc ++ [e] | None => created acc end;
      errors := match err with Some e => errors acc ++ [(Name c, e)] | None => errors acc end |} w')
      as [more ->]. simpl. destruct err; [|by exists more].
    eexists. by rewrite <- app_assoc.
Qed.

(** A pass without errors settles exactly the configured networks. *)
Lemma reconcileAll_settled currentState commit syncedAt networks acc w p w' :
  reconcileAll managerGet managerCreate errorMessage currentState commit syncedAt
    networks acc w = (p, w') →
  errors p = [] →
  (∀ name n, nextState acc !! name = Some n → settled commit n) →
  (∀ name n, nextState p !! name = Some n → settled commit n) ∧
  (∀ name, is_Some (nextState p !! name) ↔
     is_Some (nextState acc !! name) ∨ name ∈ map Name networks).
Proof.
  revert acc w. induction networks as [|c networks IH]; intros acc w Hrun Herr Hacc; simpl in *.
  { simplify_eq. split; [done|]. set_solver. }
  destruct (syncedNetwork _ _ _) as [previous|] eqn:Hs.
  - apply syncedNetwork_settled in Hs as [_ Hs].
    apply IH in Hrun as [H1 H2]; [|done|].
    + split; [done|]. intros name. rewrite H2. simpl. rewrite lookup_insert_is_Some, elem_of_cons.
      destruct (decide (name = Name c)); naive_solver.
    + intros name n. simpl. rewrite lookup_insert_Some. naive_solver.
  - destruct (reconcileNetwork _ _ _ _ _ _ w) as [[[st ev] err] w1] eqn:Hone.
    destruct err as [err|].
    { pose proof (reconcileAll_errors currentState commit syncedAt networks
        {| nextState := <[Name c:=st]> (nextState acc);
           created := match ev with Some e => created acc ++ [e] | None => created acc end;
           errors := errors acc ++ [(Name c, err)] |} w1) as [more Hm].
      rewrite Hrun in Hm. simpl in Hm. rewrite Herr in Hm.
      by destruct (errors acc). }
    apply reconcileNetwork_settled in Hone.
    apply IH in Hrun as [H1 H2]; [|done|].
    + split; [done|]. intros name. rewrite H2. simpl. rewrite lookup_insert_is_Some, elem_of_cons.
      destruct (decide (name = Name c)); naive_solver.
    + intros name n. simpl. rewrite lookup_insert_Some. naive_solver.
Qed.

(** Networks that are settled at the commit cost no call of the daemon. *)
Lemma reconcileAll_synced currentState commit syncedAt networks acc w :
  (∀ name, name ∈ map Name networks →
     ∃ n, Networks currentState !! name = Some n ∧ settled commit n) →
  reconcileAll managerGet managerCreate errorMessage currentState commit syncedAt networks acc w =
  ({| nextState := fold_left (λ m c, <[Name c := default
        {| Driver := ""; NetworkCommit := ""; LastStatus := ""; NetworkError := "";
           NetworkSyncAt := 0%Z |} (Networks currentState !! Name c)]> m) networks (nextState acc);
      created := created acc; errors := errors acc |}, w).
Proof.
  revert acc. induction networks as [|c networks IH]; intros acc Hall; simpl; [by destruct acc|].
  destruct (Hall (Name c)) as (n & Hn & Hset); [set_solver|].
  rewrite (proj2 (syncedNetwork_settled _ _ _ n)) by done.
  rewrite IH; [|set_solver]. simpl. by rewrite Hn.
Qed.
End Coordinator.

Lemma persist_ok `{GitOpsStoreLaws DB} next createdEvents (s s' : DB) :
  persist next createdEvents s = (Ok (), s') →
  stored s' = setNetworks next (stored s) ∧ published s' = published s ++ createdEvents.
Proof.
  intros Hp. apply (proj1 (within_transaction_ok _ _ _ _)) in Hp.
  apply (proj1 (st_bind_ok _ _ _ _ _)) in Hp as ([] & s2 & Hup & Hp).
  apply Update_ok in Hup as [Hst Hpub]. apply publishAll_ok in Hp as [-> ->].
  by rewrite Hst, Hpub.
Qed.

(** A successful network pass leaves one settled entry per configured
    network and nothing else, and publishes the creation events with it; a
    repeated run at the same commit does not touch the daemon and publishes
    nothing. A pass whose persistence fails leaves database and events alone. *)
Theorem coordinator_idempotent {W}
    (managerGet : string → W → Result getError SwarmNetwork)
    (managerCreate : CreateNetworkRequest → W → Result string string * W)
    (errorMessage : networkError → string) `{GitOpsStoreLaws DB}
    networks commit syncedAt (s : DB) w r s1 w1
    (Hrun : Reconcile managerGet managerCreate errorMessage networks commit syncedAt s w =
            (r, s1, w1)) :
  match r with
  | Ok _ =>
      (∀ name, is_Some (Networks (stored s1) !! name) ↔ name ∈ map Name networks) ∧
      (∀ name n, Networks (stored s1) !! name = Some n → settled commit n) ∧
      (∀ later r2 s2 w2,
         Reconcile managerGet managerCreate errorMessage networks commit later s1 w1 =
           (r2, s2, w2) → w2 = w1 ∧ published s2 = published s1)
  | Err e => persistError e ≠ None → s1 = s
  end.
Proof.
  unfold Reconcile in Hrun. destruct networks as [|c networks].
  { destruct (Update _ s) as [[[]|err] s'] eqn:Hup; simplify_eq.
    - apply Update_ok in Hup as [Hst Hpub]. rewrite Hst. simpl. split_and!.
      + intros name. rewrite lookup_empty. set_solver.
      + done.
      + intros later r2 s2 w2. unfold Reconcile.
        destruct (Update _ s1) as [[[]|err] s'] eqn:Hup2; intros; simplify_eq.
        * by apply Update_ok in Hup2 as [_ ->].
        * by apply Update_err in Hup2 as ->.
    - intros _. by apply Update_err in Hup. }
  destruct (Read s) as [[state|err] s0] eqn:Hread; cycle 1.
  { simplify_eq. intros _. by eapply Read_state. }
  apply Read_ok in Hread as [-> ->].
  destruct (reconcileAll managerGet managerCreate errorMessage (stored s) commit syncedAt
    (c :: networks) emptyPass w) as [p wp] eqn:Hall.
  destruct (persist (nextState p) (created p) s) as [pr s'] eqn:Hp.
  destruct (errors p) as [|err errs] eqn:Herr; cycle 1.
  { simplify_eq. destruct pr; simpl; [done|]. intros _.
    by apply within_transaction_err in Hp. }
  destruct pr as [[]|err]; simplify_eq; cycle 1.
  { intros _. by apply within_transaction_err in Hp. }
  pose proof (persist_ok _ _ _ _ Hp) as [Hst Hpub]. clear Hp.
  apply reconcileAll_settled in Hall as [Hset Hdom]; [|done|done].
  split_and!.
  - intros name. rewrite Hst. simpl. rewrite Hdom. simpl. rewrite lookup_empty. split; [|by right].
    by intros [[]|].
  - rewrite Hst. done.
  - intros later r2 s2 w2. unfold Reconcile.
    destruct (Read s1) as [[state|err] s0] eqn:Hread; cycle 1.
    { intros. simplify_eq. by apply Read_state in Hread as ->. }
    apply Read_ok in Hread as [-> ->].
    rewrite reconcileAll_synced; cycle 1.
    { intros name Hn. rewrite Hst. simpl.
      destruct (proj2 (Hdom name) (or_intror Hn)) as [n Hn']. eauto. }
    destruct (persist _ _ s1) as [pr s'] eqn:Hp2. simpl in Hp2 |- *. intros. destruct pr as [[]|err].
    + simplify_eq. split; [done|]. pose proof (persist_ok _ _ _ _ Hp2) as [_ ->]. by rewrite app_nil_r.
    + simplify_eq. split; [done|]. by apply within_transaction_err in Hp2 as ->.
Qed.

(** A daemon that keeps what it is told to create. *)
Definition mapGet (name : string) (w : gmap string SwarmNetwork) : Result getError SwarmNetwork :=
  match w !! name with Some n => Ok n | None => Err ErrNetworkNotFound end.
Definition mapCreate (req : CreateNetworkRequest) (w : gmap string SwarmNetwork)
    : Result string string * gmap string SwarmNetwork :=
  (Ok ("id-" +:+ req_Name req),
   <[req_Name req := {| net_Name := req_Name req; net_Driver := req_Driver req;
       net_Attachable := req_Attachable req; net_Internal := req_Internal req;
       net_Labels := req_Labels req; net_Options := req_Options req |}]> w).

Definition demoNetwork : NetworkSpec :=
  {| Name := "front"; SpecDriver := "overlay"; Attachable := true; Internal := false;
     Labels := {["team" := "a"]}; Options := ∅ |}.

Lemma mapCreate_law desired w networkID w' :
  mapCreate desired w = (Ok networkID, w') →
  ∃ current, mapGet (req_Name desired) w' = Ok current ∧ matches current desired.
Proof.
  unfold mapCreate, mapGet. intros. simplify_eq. rewrite lookup_insert_eq.
  eexists. split; [done|]. by split.
Qed.

Lemma network_reconcile_converges_witness :
  (ReconcileNetwork mapGet mapCreate demoNetwork ∅).1 =
    Ok (false, Some (NetworkCreated "front" "id-front" "overlay")) ∧
  (ReconcileNetwork mapGet mapCreate demoNetwork
     (ReconcileNetwork mapGet mapCreate demoNetwork ∅).2).1 = Ok (true, None).
Proof.
  split; [vm_compute; reflexivity|].
  destruct (network_reconcile_converges mapGet mapCreate mapCreate_law demoNetwork ∅) as [H _].
  rewrite (H (false, Some (NetworkCreated "front" "id-front" "overlay"))); [reflexivity|].
  vm_compute. reflexivity.
Defined.

Definition demoPass : Result coordinatorError () * SqlStore * gmap string SwarmNetwork :=
  Reconcile mapGet mapCreate (λ _, "error") [demoNetwork] "c1" 7%Z openStore ∅.

Lemma coordinator_idempotent_witness :
  published demoPass.1.2 = [NetworkCreated "front" "id-front" "overlay"] ∧
  (∀ name, is_Some (Networks (stored demoPass.1.2) !! name) ↔ name ∈ ["front"]).
Proof.
  split; [vm_compute; reflexivity|].
  apply (coordinator_idempotent mapGet mapCreate (λ _, "error") [demoNetwork] "c1" 7%Z
    openStore ∅ (Ok ()) demoPass.1.2 demoPass.2).
  vm_compute. reflexivity.
Defined.
