(* ===== verification/SyncRun.v ===== *)
(** * Synchronization runs ([internal/modules/gitops/controller/syncrun],
    [internal/configstore])

    A run pulls Git, closes the queue's admission, reloads the configuration,
    reconciles the networks, replaces the waiting work and opens admission
    again. Runs, polls and cleanups are serialized by the scheduler; the queue's
    workers and a shutdown interleave with every stage, so a run is a sequence
    of stages ([phase], one function each) in the step relation [rstep]. *)
From S2P Require Import Prelude GoStrings Config StackPlan StackQueue GitErrors.
From S2P Require Runtime GitPull Networks.
#[local] Existing Instance Runtime.SqlStore_store.
#[local] Existing Instance Runtime.SqlStore_laws.

Inductive TriggerReason :=
| TriggerStartup | TriggerPoll | TriggerInterval | TriggerWebhook | TriggerManual.
#[export] Instance TriggerReason_eq_dec : EqDecision TriggerReason.
Proof. solve_decision. Defined.
Definition reasonText (reason : TriggerReason) : string :=
  match reason with
  | TriggerStartup => "startup"
  | TriggerPoll => "poll"
  | TriggerInterval => "interval"
  | TriggerWebhook => "webhook"
  | TriggerManual => "manual"
  end.

Definition syncRunResultError : string := "error".
Definition syncRunResultNoChange : string := "no_change".
Definition syncRunResultUpdated : string := "updated".
Definition syncRunResultSuccess : string := "success".
Definition errQueueStopped : string := "stack queue is stopped: controller is shutting down".

(** [syncrun.dispatch] and [syncrun.Task] *)
Record dispatch := { dispatchCommit : string; dispatchStacks_ : list StackSpec }.
Record Task := { TriggeredBy : string; Reason : TriggerReason }.

(** The accepted configuration, as far as a run uses it. *)
Record AcceptedConfig := { cfgStacks : list StackSpec; cfgNetworks : list Networks.NetworkSpec }.

(** The stage a run is in; [PIdle] is no run. *)
Inductive phase :=
| PIdle
| PPause (task : Task) (git : PullResult)
| PReload (task : Task) (git : PullResult)
| PNetworks (task : Task) (git : PullResult) (plan : Plan)
| PDispatch (task : Task) (git : PullResult) (plan : Plan)
| PFinish (task : Task) (git : PullResult)
| PResume
| PCleanup (latest : dispatch) (stacks : list StackSpec).

Section SyncRun.
(** Database, daemon, and the libraries behind the puller and the planner. *)
Context {DB : Type} `{Runtime.GitOpsStore DB, !Runtime.GitOpsStoreLaws DB}.
Context {W : Type}.
Context (managerGet : string → W → Result Networks.getError Networks.SwarmNetwork).
Context (managerCreate : Networks.CreateNetworkRequest → W → Result string string * W).
Context (errorMessage : Networks.networkError → string).
Context (coordinatorMessage : Networks.coordinatorError → string).
Context (Diff : string → string → Result string (list CommitFileDiff)).
(** [Puller.Pull] for the configured remote, given the outcome of [git.Pull]. *)
Context (pull : string → Result goError PullResult → DB → Result PullError PullResult * DB).

(** [syncrun.Runner] together with the components it drives. *)
Record Runner := {
  sys : system;
  db : DB;
  daemon : W;
  accepted : AcceptedConfig;
  initialReloadDone : bool;
  lastDispatch : option dispatch;
}.

Definition withQueue (r : Runner) (q : Queue) : Runner :=
  {| sys := {| queue := q; pool := pool (sys r) |}; db := db r; daemon := daemon r;
     accepted := accepted r; initialReloadDone := initialReloadDone r;
     lastDispatch := lastDispatch r |}.
Definition withDB (r : Runner) (d : DB) : Runner :=
  {| sys := sys r; db := d; daemon := daemon r; accepted := accepted r;
     initialReloadDone := initialReloadDone r; lastDispatch := lastDispatch r |}.
Definition withSystem (r : Runner) (s : system) : Runner :=
  {| sys := s; db := db r; daemon := daemon r; accepted := accepted r;
     initialReloadDone := initialReloadDone r; lastDispatch := lastDispatch r |}.
Definition withDispatch (r : Runner) (d : option dispatch) : Runner :=
  {| sys := sys r; db := db r; daemon := daemon r; accepted := accepted r;
     initialReloadDone := initialReloadDone r; lastDispatch := d |}.

(** [updateState]: a failure to persist is only logged. *)
Definition updateState (fn : Runtime.Runtime → Runtime.Runtime) (r : Runner) : bool * Runner :=
  match Runtime.Update fn (db r) with
  | (Ok _, d) => (true, withDB r d)
  | (Err _, d) => (false, withDB r d)
  end.

(** [finishStageFailure] and the equal update of a failed Git stage: the
    revision is kept. *)
Definition finishStageFailure (reason : TriggerReason) (now : Time) (err : string)
    (r : Runner) : Runner :=
  (updateState (λ state, Runtime.setSync now (reasonText reason) syncRunResultError err
                           (Runtime.GitRevision state) state) r).2.

(** [updatePollState] *)
Definition updatePollState (now : Time) (result : string) (err : option string)
    (r : Runner) : Runner :=
  (updateState (Runtime.setPoll now result (default "" err)) r).2.

(** [invalidateDispatch] *)
Definition invalidateDispatch (r : Runner) : Runner := withDispatch r None.

(** [publishManualSync] *)
Definition publishManualSync (task : Task) (r : Runner) : option string * Runner :=
  if bool_decide (Reason task = TriggerManual) then
    match Runtime.Publish (Runtime.SyncManualStarted (TriggeredBy task)) (db r) with
    | (Ok _, d) => (None, withDB r d)
    | (Err err, d) => (Some err, withDB r d)
    end
  else (None, r).

(** The outcomes of the Git calls of a run: [git.Head] and [git.Pull]. *)
Record gitOutcome := { head : Result string string; pulled : Result goError PullResult }.

(** [resolveGitState] *)
Definition resolveGitState (reason : TriggerReason) (gitResult : option PullResult)
    (git : gitOutcome) (r : Runner) : Result string PullResult * Runner :=
  match gitResult with
  | Some result => (Ok result, r)
  | None =>
      if bool_decide (reason = TriggerInterval) then
        match head git with
        | Err err => (Err err, r)
        | Ok revision =>
            (Ok {| Updated := false; OldRevision := revision; NewRevision := revision |}, r)
        end
      else match pull (reasonText reason) (pulled git) (db r) with
           | (Ok result, d) => (Ok result, withDB r d)
           | (Err err, d) => (Err (diagnostic err), withDB r d)
           end
  end.

(** Lines of [run] up to the resolved Git state. *)
Definition stageGit (task : Task) (gitResult : option PullResult) (git : gitOutcome)
    (now : Time) (r : Runner) : phase * Runner :=
  match publishManualSync task r with
  | (Some _, r1) => (PIdle, r1)
  | (None, r1) =>
      match resolveGitState (Reason task) gitResult git r1 with
      | (Err err, r2) => (PIdle, finishStageFailure (Reason task) now err r2)
      | (Ok result, r2) => (PPause task result, r2)
      end
  end.

(** [Poll]: the run of an updated revision starts with the pulled result. *)
Definition Poll (git : gitOutcome) (now : Time) (r : Runner) : phase * Runner :=
  match pull (reasonText TriggerPoll) (pulled git) (db r) with
  | (Err err, d) =>
      (PIdle, updatePollState now syncRunResultError (Some (diagnostic err)) (withDB r d))
  | (Ok result, d) =>
      let r1 := updatePollState now
        (if Updated result then syncRunResultUpdated else syncRunResultNoChange) None
        (withDB r d) in
      if Updated result
      then stageGit {| TriggeredBy := ""; Reason := TriggerPoll |} (Some result) git now r1
      else (PIdle, r1)
  end.

Definition stagePause (task : Task) (git : PullResult) (now : Time) (r : Runner)
    : phase * Runner :=
  match Pause (queue (sys r)) with
  | (false, q) => (PIdle, finishStageFailure (Reason task) now errQueueStopped (withQueue r q))
  | (true, q) => (PReload task git, withQueue r q)
  end.

(** [ConfigStore.Reload]; [outcome] is what [Config.Reload] accepted and
    whether it changed anything. A failed publication is only logged. *)
Definition Reload (outcome : Result string (AcceptedConfig * bool)) (r : Runner)
    : option string * Runner :=
  match outcome with
  | Err err => (Some err, r)
  | Ok (cfg, isChanged) =>
      let d := if negb isChanged && initialReloadDone r then db r
               else (Runtime.Publish (Runtime.ConfigurationChanged "" "") (db r)).2 in
      (None, {| sys := sys r; db := d; daemon := daemon r; accepted := cfg;
                initialReloadDone := true; lastDispatch := lastDispatch r |})
  end.

Definition stageReload (task : Task) (git : PullResult)
    (outcome : Result string (AcceptedConfig * bool)) (now : Time) (r : Runner)
    : phase * Runner :=
  match Reload outcome r with
  | (Some err, r1) => (PResume, finishStageFailure (Reason task) now err r1)
  | (None, r1) =>
      let r2 := invalidateDispatch r1 in
      (PNetworks task git (plan Diff (cfgStacks (accepted r2)) git), r2)
  end.

Definition stageNetworks (task : Task) (git : PullResult) (p : Plan) (now : Time) (r : Runner)
    : phase * Runner :=
  let '(result, d, w) := Networks.Reconcile managerGet managerCreate errorMessage
    (cfgNetworks (accepted r)) (NewRevision git) now (db r) (daemon r) in
  let r1 := {| sys := sys r; db := d; daemon := w; accepted := accepted r;
               initialReloadDone := initialReloadDone r; lastDispatch := lastDispatch r |} in
  match result with
  | Err err =>
      let '(_, q) := Clear (Changed p) (queue (sys r1)) in
      (PResume, finishStageFailure (Reason task) now (coordinatorMessage err) (withQueue r1 q))
  | Ok _ => (PDispatch task git p, r1)
  end.

(** The requests of [dispatchStacks]. *)
Definition stackRequests (p : Plan) (commit : string) (reason : TriggerReason)
    : list ReconciliationRequest :=
  map (λ stackCfg, {| Stack := stackCfg; Commit := commit;
                      IsManual := bool_decide (reason = TriggerManual) |}) (Stacks p).

(** [dispatchStacks] *)
Definition dispatchStacks (p : Plan) (commit : string) (reason : TriggerReason) (r : Runner)
    : bool * Runner :=
  match Replace (stackRequests p commit reason) (Changed p) (queue (sys r)) with
  | (None, q) => (false, withQueue r q)
  | (Some _, q) =>
      (true, withDispatch (withQueue r q)
               (Some {| dispatchCommit := commit; dispatchStacks_ := Stacks p |}))
  end.

Definition stageDispatch (task : Task) (git : PullResult) (p : Plan) (now : Time) (r : Runner)
    : phase * Runner :=
  match dispatchStacks p (NewRevision git) (Reason task) r with
  | (false, r1) => (PResume, finishStageFailure (Reason task) now errQueueStopped r1)
  | (true, r1) => (PFinish task git, r1)
  end.

Definition stageFinish (task : Task) (git : PullResult) (now : Time) (r : Runner)
    : phase * Runner :=
  (PResume, (updateState (Runtime.setSync now (reasonText (Reason task)) syncRunResultSuccess
                            "" (NewRevision git)) r).2).

(** The deferred [Resume]. *)
Definition stageResume (r : Runner) : phase * Runner :=
  (PIdle, withQueue r (Resume (queue (sys r)))).

(** [Cleanup] and one round of its loop; the queue is locked per stack only. *)
Definition Cleanup (r : Runner) : phase * Runner :=
  match lastDispatch r with
  | None => (PIdle, r)
  | Some latest => (PCleanup latest (dispatchStacks_ latest), r)
  end.
Definition cleanupStack (latest : dispatch) (stacks : list StackSpec) (r : Runner)
    : phase * Runner :=
  match stacks with
  | [] => (PIdle, r)
  | stack :: stacks =>
      (PCleanup latest stacks,
       withQueue r (SubmitCleanup stack (dispatchCommit latest) (queue (sys r))).2)
  end.

(** What happens beside the run: the workers and the shutdown. *)
Inductive env_step : system → system → Prop :=
| env_start s :
    env_step s {| queue := (Start (queue s)).2;
                  pool := pool s ++ replicate (Start (queue s)).1 Waiting |}
| env_stop s : env_step s {| queue := Stop (queue s); pool := pool s |}
| env_worker s s' : worker_step s s' → env_step s s'
| env_exit s i q' :
    pool s !! i = Some Waiting → next (queue s) = (NextStopped, q') →
    env_step s {| queue := q'; pool := <[i := Exited]> (pool s) |}.

(** One stage of the run, a scheduled call, or a step beside it. *)
Inductive rstep : phase * Runner → phase * Runner → Prop :=
| r_run r task git now : rstep (PIdle, r) (stageGit task None git now r)
| r_poll r git now : rstep (PIdle, r) (Poll git now r)
| r_cleanup r : rstep (PIdle, r) (Cleanup r)
| r_cleanup_stack r latest stacks :
    rstep (PCleanup latest stacks, r) (cleanupStack latest stacks r)
| r_pause r task git now : rstep (PPause task git, r) (stagePause task git now r)
| r_reload r task git outcome now :
    rstep (PReload task git, r) (stageReload task git outcome now r)
| r_networks r task git p now : rstep (PNetworks task git p, r) (stageNetworks task git p now r)
| r_dispatch r task git p now : rstep (PDispatch task git p, r) (stageDispatch task git p now r)
| r_finish r task git now : rstep (PFinish task git, r) (stageFinish task git now r)
| r_resume r : rstep (PResume, r) (stageResume r)
| r_env ph r s' : env_step (sys r) s' → rstep (ph, r) (ph, withSystem r s').

(** [syncrun.New] on a new queue. *)
Definition newRunner (parallelism : Z) (d : DB) (w : W) (cfg : AcceptedConfig) : Runner :=
  {| sys := initial parallelism; db := d; daemon := w; accepted := cfg;
     initialReloadDone := false; lastDispatch := None |}.
End SyncRun.

(** ** What [Replace] and [SubmitCleanup] put into the queue *)
Lemma replaceRequests_source running caf changedNames requests pending name op :
  fold_left (replaceRequest running caf changedNames) requests pending !! name = Some op →
  (∃ req, req ∈ requests ∧ Name (Stack req) = name ∧ Stack (request op) = Stack req ∧
          Commit (request op) = Commit req) ∨
  (name ∉ requestNames requests ∧ pending !! name = Some op).
Proof.
  revert pending. induction requests as [|req requests IH]; intros pending; simpl.
  { intros Hop. right. split; [set_solver|done]. }
  intros Hop. destruct (IH _ Hop) as [(r & Hr & ?)|[Hn Hop']]; [left; exists r; set_solver|].
  rewrite replaceRequest_lookup in Hop'. case_decide as Hname.
  - left. exists req. split; [set_solver|]. cbn zeta in Hop'. destruct (alreadyRunning _ _ _); [done|].
    injection Hop' as <-. unfold replaceOperation. case_match; done.
  - right. split; [set_solver|done].
Qed.

Lemma Replace_source requests changedNames q name op :
  stopped q = false →
  pending (Replace requests changedNames q).2 !! name = Some op →
  ∃ req, req ∈ requests ∧ Name (Stack req) = name ∧ Stack (request op) = Stack req ∧
         Commit (request op) = Commit req.
Proof.
  intros Hs Hop. assert (name ∈ requestNames requests) as Hn.
  { eapply Replace_names; [done|]. by rewrite Hop. }
  rewrite Replace_eq in Hop by done. simpl in Hop. autorewrite with queue in Hop. simpl in Hop.
  by apply replaceRequests_source in Hop as [?|[? _]].
Qed.

Lemma SubmitCleanup_pending stack commit q name op :
  pending (SubmitCleanup stack commit q).2 !! name = Some op →
  pending q !! name = Some op ∨
  (name = Name stack ∧ Stack (request op) = stack ∧ Commit (request op) = commit).
Proof.
  unfold SubmitCleanup. destruct (_ || _); [auto|]. case_bool_decide; [auto|]. simpl.
  autorewrite with queue. simpl. rewrite lookup_insert_Some. intros [[<- <-]|[_ ?]]; auto.
Qed.

(** The flags change only in [Pause], [Resume], [Start] and [Stop]. *)
Lemma Replace_paused requests changedNames q :
  paused (Replace requests changedNames q).2 = paused q ∧
  stopped (Replace requests changedNames q).2 = stopped q.
Proof.
  destruct (stopped q) eqn:Hs; [unfold Replace; rewrite Hs; auto|].
  rewrite Replace_eq by done. simpl. autorewrite with queue. simpl.
  match goal with |- context [dropLocked ?m _] =>
    pose proof (dropLocked_same m q) as (_ & _ & H1 & H2 & _) end.
  by rewrite H1, H2.
Qed.

Lemma Clear_paused changedNames q : paused (Clear changedNames q).2 = paused q.
Proof.
  unfold Clear. destruct (dropLocked _ _) as [d q1] eqn:Hd.
  match type of Hd with dropLocked ?m ?q0 = _ =>
    pose proof (dropLocked_same m q0) as (_ & _ & _ & H & _) end.
  rewrite Hd in H. simpl in *. by rewrite upd_paused, H.
Qed.

Lemma SubmitCleanup_paused stack commit q :
  paused (SubmitCleanup stack commit q).2 = paused q.
Proof.
  unfold SubmitCleanup. destruct (_ || _); [done|]. case_bool_decide; [done|]. simpl.
  by autorewrite with queue.
Qed.

Lemma Stop_effect q : pending (Stop q) = ∅ ∧ paused (Stop q) = paused q.
Proof. unfold Stop. by autorewrite with queue. Qed.

Lemma env_step_step s s' : env_step s s' → step s s'.
Proof. destruct 1; eauto using worker_step_step; by econstructor. Qed.

(** Beside the run nothing is added to the waiting work. *)
Lemma env_step_effect p s s' :
  consistent p s → env_step s s' →
  pending (queue s') ⊆ pending (queue s) ∧ paused (queue s') = paused (queue s).
Proof.
  intros Hc Hs. destruct Hs as [s|s|s s' Hs|s i q' Hi Hn]; simpl.
  - unfold Start. by destruct (_ || _).
  - destruct (Stop_effect (queue s)) as [-> ->]. split; [apply map_empty_subseteq|done].
  - destruct Hs as [s i name op q' Hi Hn|s i name op Hi]; simpl.
    + destruct (next_effect _ _ _ _ (cs_queue _ _ Hc) Hn) as (_ & _ & -> & _ & -> & _).
      split; [apply delete_subseteq|done].
    + by destruct (finish_effect name (queue s)) as (-> & _ & -> & _).
  - unfold next in Hn. destruct (stopped (queue s)); [by simplify_eq|].
    destruct (paused (queue s)); [done|]. by destruct (ready (queue s)).
Qed.

(** ** The invariant of the runner *)

(** The phases between a successful [Pause] and [Resume]. *)
Definition admissionClosed (ph : phase) : bool :=
  match ph with
  | PReload _ _ | PNetworks _ _ _ | PDispatch _ _ _ | PFinish _ _ | PResume => true
  | _ => false
  end.

(** The waiting work is the latest dispatch. *)
Definition waitingFrom (d : option dispatch) (q : Queue) : Prop :=
  ∀ name op, pending q !! name = Some op →
    ∃ d', d = Some d' ∧ Commit (request op) = dispatchCommit d' ∧
          Stack (request op) ∈ dispatchStacks_ d' ∧ Name (Stack (request op)) = name.

Section Invariant.
Context {DB : Type} `{Runtime.GitOpsStore DB, !Runtime.GitOpsStoreLaws DB}.
Context {W : Type}.
Context (managerGet : string → W → Result Networks.getError Networks.SwarmNetwork).
Context (managerCreate : Networks.CreateNetworkRequest → W → Result string string * W).
Context (errorMessage : Networks.networkError → string).
Context (coordinatorMessage : Networks.coordinatorError → string).
Context (Diff : string → string → Result string (list CommitFileDiff)).
Context (pull : string → Result goError PullResult → DB → Result PullError PullResult * DB).

Notation rstep :=
  (rstep managerGet managerCreate errorMessage coordinatorMessage Diff pull).
Notation Runner := (@Runner DB W).

Definition dispatchAccepted (r : Runner) : Prop :=
  ∀ d, lastDispatch r = Some d → dispatchStacks_ d ≡ₚ cfgStacks (accepted r).

Definition phaseInv (ph : phase) (r : Runner) : Prop :=
  match ph with
  | PNetworks _ _ p | PDispatch _ _ p =>
      lastDispatch r = None ∧ Stacks p ≡ₚ cfgStacks (accepted r)
  | PFinish _ git =>
      waitingFrom (lastDispatch r) (queue (sys r)) ∧
      ∃ d, lastDispatch r = Some d ∧ dispatchCommit d = NewRevision git
  | PCleanup latest stacks =>
      waitingFrom (lastDispatch r) (queue (sys r)) ∧
      lastDispatch r = Some latest ∧ stacks ⊆ dispatchStacks_ latest
  | _ => waitingFrom (lastDispatch r) (queue (sys r))
  end.

Record inv (p : Z) (st : phase * Runner) : Prop := {
  inv_consistent : consistent p (sys st.2);
  inv_paused : paused (queue (sys st.2)) = admissionClosed st.1;
  inv_accepted : dispatchAccepted st.2;
  inv_phase : phaseInv st.1 st.2;
}.

Lemma updateState_same fn (r : Runner) :
  sys (updateState fn r).2 = sys r ∧ accepted (updateState fn r).2 = accepted r ∧
  lastDispatch (updateState fn r).2 = lastDispatch r.
Proof. unfold updateState. by destruct (Runtime.Update fn (db r)) as [[|] ?]. Qed.

(** Stages that do not touch queue, configuration and dispatch. *)
Definition sameWork (r r' : Runner) : Prop :=
  sys r' = sys r ∧ accepted r' = accepted r ∧ lastDispatch r' = lastDispatch r.

Lemma inv_same p ph ph' r r' :
  inv p (ph, r) → sameWork r r' → admissionClosed ph' = admissionClosed ph →
  (phaseInv ph r → phaseInv ph' r) → inv p (ph', r').
Proof.
  intros [Hc Hp Ha Hph] (Hs & Hacc & Hd) Hcl Himp. simpl in *.
  assert (phaseInv ph' r') as Hph'.
  { specialize (Himp Hph). unfold phaseInv in *. by rewrite Hs, Hacc, Hd. }
  constructor; simpl; [by rewrite Hs|by rewrite Hs, Hcl| |done].
  unfold dispatchAccepted. by rewrite Hd, Hacc.
Qed.

Lemma finishStageFailure_same reason now err (r : Runner) :
  sameWork r (finishStageFailure reason now err r).
Proof. apply updateState_same. Qed.

Lemma stageGit_same task gitResult git now (r : Runner) :
  sameWork r (stageGit pull task gitResult git now r).2 ∧
  ((stageGit pull task gitResult git now r).1 = PIdle ∨
   ∃ result, (stageGit pull task gitResult git now r).1 = PPause task result).
Proof.
  unfold stageGit. assert (sameWork r (publishManualSync task r).2) as Hm.
  { unfold publishManualSync. case_bool_decide; [|done].
    by destruct (Runtime.Publish _ _) as [[]?]. }
  destruct (publishManualSync task r) as [[err|] r1]; simpl in *; [by auto|].
  assert (sameWork r1 (resolveGitState pull (Reason task) gitResult git r1).2) as Hg.
  { unfold resolveGitState. destruct gitResult; [done|]. case_bool_decide.
    - by destruct (head git).
    - by destruct (pull _ _ _) as [[]?]. }
  destruct (resolveGitState _ _ _ _ r1) as [[result|err] r2]; simpl in *.
  - split; [|eauto]. unfold sameWork in *. naive_solver congruence.
  - split; [|auto]. destruct (finishStageFailure_same (Reason task) now err r2) as (? & ? & ?).
    unfold sameWork in *. naive_solver congruence.
Qed.

Lemma Poll_same git now (r : Runner) :
  sameWork r (Poll pull git now r).2 ∧
  ((Poll pull git now r).1 = PIdle ∨ ∃ task result, (Poll pull git now r).1 = PPause task result).
Proof.
  unfold Poll. destruct (pull _ _ _) as [[result|err] d]; simpl.
  - set (r1 := updatePollState _ _ _ _).
    assert (sameWork r r1) as H1.
    { unfold r1, updatePollState. destruct (updateState_same (Runtime.setPoll now
        (if Updated result then syncRunResultUpdated else syncRunResultNoChange)
        (default "" None)) (withDB r d)) as (? & ? & ?). done. }
    destruct (Updated result); [|by auto].
    destruct (stageGit_same {| TriggeredBy := ""; Reason := TriggerPoll |} (Some result) git now r1)
      as [H2 Hph]. split; [|naive_solver].
    unfold sameWork in *. naive_solver congruence.
  - split; [|by auto]. apply (updateState_same (Runtime.setPoll _ _ _) (withDB r d)).
Qed.

Lemma stagePause_inv p r task git now :
  inv p (PPause task git, r) → inv p (stagePause task git now r).
Proof.
  intros Hinv. pose proof Hinv as [Hc Hp Ha Hph]. simpl in *. unfold stagePause, Pause.
  destruct (stopped (queue (sys r))) eqn:Hs.
  - eapply inv_same; [exact Hinv| |done|done].
    destruct (finishStageFailure_same (Reason task) now errQueueStopped
      (withQueue r (queue (sys r)))) as (H1 & H2 & H3).
    split_and!; [rewrite H1|by rewrite H2|by rewrite H3]. simpl. by destruct (sys r).
  - constructor; simpl; [|done|done|done].
    apply consistent_same; [done|apply setFlags_wf; [apply Hc|done]|by constructor].
Qed.

Lemma stageReload_inv p r task git outcome now :
  inv p (PReload task git, r) → inv p (stageReload Diff task git outcome now r).
Proof.
  intros Hinv. pose proof Hinv as [Hc Hp Ha Hph]. simpl in *. unfold stageReload, Reload.
  destruct outcome as [[cfg isChanged]|err].
  - constructor; simpl; [done|done|by intros ? [=]|]. split; [done|].
    unfold plan. destruct (_ || _); [done|].
    destruct (Diff _ _); [|done]. case_bool_decide; [done|]. apply stable_sort_perm.
  - eapply inv_same; [exact Hinv|apply finishStageFailure_same|done|done].
Qed.

Lemma stageNetworks_inv p r task git pl now :
  inv p (PNetworks task git pl, r) →
  inv p (stageNetworks managerGet managerCreate errorMessage coordinatorMessage task git pl now r).
Proof.
  intros Hinv. pose proof Hinv as [Hc Hp Ha [Hd Hpl]]. simpl in *. unfold stageNetworks.
  destruct (Networks.Reconcile _ _ _ _ _ _ _ _) as [[[u|err] d] w]; [by constructor|]. simpl.
  destruct (Clear (Changed pl) (queue (sys r))) as [dropped q] eqn:Hclear.
  pose proof (Clear_effect (Changed pl) (queue (sys r))) as (Hpe & _).
  pose proof (Clear_paused (Changed pl) (queue (sys r))) as Hpa.
  pose proof (Clear_wf (Changed pl) (queue (sys r)) (cs_queue _ _ Hc)) as Hwf.
  pose proof (Clear_same (Changed pl) (queue (sys r))) as Hsw.
  rewrite Hclear in *. simpl in *.
  match goal with |- inv p (_, finishStageFailure ?a ?b ?c ?r1) =>
    destruct (finishStageFailure_same a b c r1) as (H1 & H2 & H3) end. simpl in *.
  constructor; simpl.
  - rewrite H1. by apply consistent_same.
  - rewrite H1. simpl. congruence.
  - unfold dispatchAccepted. rewrite H3. intros ? [=]. congruence.
  - rewrite H1. intros name op. simpl. by rewrite Hpe, lookup_empty.
Qed.

Lemma stageDispatch_inv p r task git pl now :
  inv p (PDispatch task git pl, r) → inv p (stageDispatch task git pl now r).
Proof.
  intros Hinv. pose proof Hinv as [Hc Hp Ha [Hd Hpl]]. simpl in *.
  unfold stageDispatch, dispatchStacks.
  set (reqs := stackRequests pl (NewRevision git) (Reason task)).
  destruct (stopped (queue (sys r))) eqn:Hs.
  - unfold Replace. rewrite Hs.
    match goal with |- inv p (_, finishStageFailure ?a ?b ?c ?r1) =>
      destruct (finishStageFailure_same a b c r1) as (H1 & H2 & H3) end. simpl in *.
    constructor; simpl.
    + rewrite H1. by apply consistent_same; [|apply Hc|].
    + by rewrite H1.
    + unfold dispatchAccepted. rewrite H3, H2. done.
    + rewrite H1. intros name op. simpl.
      by rewrite (wf_stopped _ (cs_queue _ _ Hc) Hs), lookup_empty.
  - pose proof (Replace_source reqs (Changed pl) (queue (sys r))) as Hsrc.
    pose proof (Replace_paused reqs (Changed pl) (queue (sys r))) as [Hpa _].
    pose proof (Replace_wf reqs (Changed pl) (queue (sys r)) (cs_queue _ _ Hc)) as Hwf.
    pose proof (Replace_same reqs (Changed pl) (queue (sys r))) as Hsw.
    destruct (Replace reqs (Changed pl) (queue (sys r))) as [[dropped|] q] eqn:Hrep; cycle 1.
    { rewrite Replace_eq in Hrep by done. discriminate Hrep. }
    simpl in *. constructor; simpl.
    + by apply consistent_same.
    + congruence.
    + intros d [= <-]. done.
    + split; [|by eexists]. intros name op Hop. eexists. split; [done|]. simpl.
      destruct (Hsrc name op Hs Hop) as (req & Hreq & <- & -> & ->).
      unfold reqs, stackRequests in Hreq. apply list_elem_of_In, in_map_iff in Hreq as (sc & <- & Hsc).
      simpl. split_and!; [done|by apply list_elem_of_In|done].
Qed.

Lemma cleanupStack_inv p r latest stacks :
  inv p (PCleanup latest stacks, r) → inv p (cleanupStack latest stacks r).
Proof.
  intros Hinv. pose proof Hinv as [Hc Hp Ha (Hw & Hd & Hsub)]. simpl in *.
  destruct stacks as [|stack stacks]; simpl; [by constructor|]. constructor; simpl; [| |done|].
  - apply consistent_same; [done|apply SubmitCleanup_wf, Hc|apply SubmitCleanup_same].
  - by rewrite SubmitCleanup_paused.
  - split_and!; [|done|set_solver].
    intros name op [Hop|(-> & Hst & Hcm)]%SubmitCleanup_pending; [by apply Hw|].
    exists latest. rewrite Hst, Hcm. set_solver.
Qed.

Lemma phaseInv_env ph r s' :
  pending (queue s') ⊆ pending (queue (sys r)) → phaseInv ph r → phaseInv ph (withSystem r s').
Proof.
  intros Hsub.
  assert (waitingFrom (lastDispatch r) (queue (sys r)) →
          waitingFrom (lastDispatch r) (queue s')) as Hw.
  { intros Hw name op Hop. eapply Hw, lookup_weaken; done. }
  destruct ph; simpl; naive_solver.
Qed.

Lemma rstep_inv p st st' : rstep st st' → inv p st → inv p st'.
Proof.
  intros Hstep Hinv. destruct Hstep.
  - destruct (stageGit_same task None git now r) as [Hs Hph].
    destruct (stageGit _ _ _ _ _ _) as [ph' r']. simpl in *.
    eapply inv_same; [exact Hinv|done|..]; destruct Hph as [->|[? ->]]; done.
  - destruct (Poll_same git now r) as [Hs Hph].
    destruct (Poll _ _ _ _) as [ph' r']. simpl in *.
    eapply inv_same; [exact Hinv|done|..]; destruct Hph as [->|(? & ? & ->)]; done.
  - unfold Cleanup. destruct (lastDispatch r) as [latest|] eqn:Hd; [|done].
    destruct Hinv as [Hc Hp Ha Hph]. constructor; simpl in *; [done..|].
    by rewrite Hd in *.
  - by apply cleanupStack_inv.
  - by apply stagePause_inv.
  - by apply stageReload_inv.
  - by apply stageNetworks_inv.
  - by apply stageDispatch_inv.
  - eapply inv_same; [exact Hinv|apply updateState_same|done|]. simpl. tauto.
  - destruct Hinv as [Hc Hp Ha Hph]. constructor; simpl in *; try done.
    apply consistent_same; [done|apply Resume_wf, Hc|by constructor].
  - pose proof Hinv as [Hc Hp Ha Hph]. simpl in *.
    destruct (env_step_effect _ _ _ Hc H1) as [Hsub Hpa].
    constructor; simpl; [|congruence|done|by apply phaseInv_env].
    by eapply step_consistent, Hc; apply env_step_step.
Qed.

Lemma newRunner_inv p d w cfg : inv p (PIdle, newRunner p d w cfg).
Proof.
  constructor; simpl; [apply initial_consistent|done|by intros ? [=]|].
  intros name op. simpl. by rewrite lookup_empty.
Qed.

Lemma reachable_inv p d w cfg st :
  rtc rstep (PIdle, newRunner p d w cfg) st → inv p st.
Proof.
  intros Hr. pose proof (newRunner_inv p d w cfg) as H1.
  induction Hr; eauto using rstep_inv.
Qed.
End Invariant.

(** ** The persisted revision *)
Section Revision.
Context {DB : Type} `{Runtime.GitOpsStore DB, !Runtime.GitOpsStoreLaws DB}.

Definition revision (d : DB) : string := Runtime.GitRevision (Runtime.stored d).

Lemma Publish_revision e d : revision (Runtime.Publish e d).2 = revision d.
Proof.
  unfold revision. destruct (Runtime.Publish e d) as [[[]|err] d'] eqn:Hp; simpl.
  - by apply Runtime.Publish_ok in Hp as [-> _].
  - by apply Runtime.Publish_err in Hp as ->.
Qed.

Lemma Update_revision fn d :
  (∀ st, Runtime.GitRevision (fn st) = Runtime.GitRevision st) →
  revision (Runtime.Update fn d).2 = revision d.
Proof.
  intros Hfn. unfold revision. destruct (Runtime.Update fn d) as [[[]|err] d'] eqn:Hp; simpl.
  - apply Runtime.Update_ok in Hp as [-> _]. apply Hfn.
  - by apply Runtime.Update_err in Hp as ->.
Qed.

Lemma observe_revision o d : revision (GitPull.observe o d) = revision d.
Proof.
  unfold GitPull.observe, revision.
  destruct (GitPull.Observe o d) as [[[]|err] d'] eqn:Ho; simpl.
  - by apply GitPull.Observe_ok in Ho as [-> _].
  - by apply within_transaction_err in Ho as ->.
Qed.

Lemma Networks_revision {W} managerGet managerCreate errorMessage networks commit now d (w : W) :
  revision (Networks.Reconcile managerGet managerCreate errorMessage networks commit now d w).1.2
  = revision d.
Proof.
  unfold Networks.Reconcile. destruct networks as [|n networks].
  - pose proof (Update_revision (Runtime.setNetworks ∅) d (λ _, eq_refl)) as Hu.
    by destruct (Runtime.Update _ d) as [[[]|]?].
  - destruct (Runtime.Read d) as [[st|err] d1] eqn:Hr; apply Runtime.Read_state in Hr as ->; [|done].
    destruct (Networks.reconcileAll _ _ _ _ _ _ _ _ w) as [p w'].
    destruct (Networks.persist _ _ d) as [r d'] eqn:Hp.
    assert (revision d' = revision d) as Hd.
    { unfold revision. destruct r as [[]|err].
      - by apply Networks.persist_ok in Hp as [-> _].
      - by apply within_transaction_err in Hp as ->. }
    by destruct (Networks.errors p), r.
Qed.
End Revision.

(** ** Properties *)
Section Properties.
Context {DB : Type} `{Runtime.GitOpsStore DB, !Runtime.GitOpsStoreLaws DB}.
Context {W : Type}.
Context (managerGet : string → W → Result Networks.getError Networks.SwarmNetwork).
Context (managerCreate : Networks.CreateNetworkRequest → W → Result string string * W).
Context (errorMessage : Networks.networkError → string).
Context (coordinatorMessage : Networks.coordinatorError → string).
Context (Diff : string → string → Result string (list CommitFileDiff)).
(** The parameters of the puller: the libraries and the configured remote. *)
Context (unwraps : bool) (urlParse : string → option URL).
Context (absPath : string → option string) (cleanPath digest8 : string → string).
Context (remote : string) (authSSH : bool).

Definition configuredPull : string → Result goError PullResult → DB →
    Result PullError PullResult * DB :=
  GitPull.Pull unwraps urlParse absPath cleanPath digest8 remote authSSH.

Definition syncStep : phase * @Runner DB W → phase * @Runner DB W → Prop :=
  rstep managerGet managerCreate errorMessage coordinatorMessage Diff configuredPull.

(** A bound on the stages a run or a cleanup still takes. *)
Definition stagesLeft (ph : phase) : nat :=
  match ph with
  | PIdle => 0
  | PPause _ _ => 6
  | PReload _ _ => 5
  | PNetworks _ _ _ => 4
  | PDispatch _ _ _ => 3
  | PFinish _ _ => 2
  | PResume => 1
  | PCleanup _ stacks => S (length stacks)
  end.

(** Admission is closed exactly from the accepted pause to the end of the
    run: in that window no worker is handed an operation, whatever
    interleaves. A run always ends: every stage brings it closer to the idle
    phase, where admission is open again, and some stage can always be
    taken. *)
Theorem admission_window p d w cfg ph r
    (Hr : rtc syncStep (PIdle, newRunner p d w cfg) (ph, r)) :
  paused (queue (sys r)) = admissionClosed ph ∧
  (admissionClosed ph = true →
     ∀ name op q', next (queue (sys r)) ≠ (NextOperation name op, q')) ∧
  (∀ st', syncStep (ph, r) st' → ph ≠ PIdle →
     (st'.1 = ph ∧ env_step (sys r) (sys st'.2)) ∨ stagesLeft st'.1 < stagesLeft ph) ∧
  (ph ≠ PIdle → ∃ st', syncStep (ph, r) st' ∧ stagesLeft st'.1 < stagesLeft ph).
Proof.
  apply reachable_inv in Hr as [Hc Hp _ _]. simpl in *.
  assert (∀ task git now,
    stagesLeft (@stagePause DB _ W task git now r).1 < stagesLeft (PPause task git)) as H1.
  { intros. unfold stagePause. destruct (Pause _) as [[] ?]; simpl; lia. }
  assert (∀ task git outcome now,
    stagesLeft (@stageReload DB _ W Diff task git outcome now r).1 < stagesLeft (PReload task git)) as H2.
  { intros. unfold stageReload. destruct (Reload _ _) as [[] ?]; simpl; lia. }
  assert (∀ task git pl now,
    stagesLeft (stageNetworks managerGet managerCreate errorMessage coordinatorMessage
      task git pl now r).1 < stagesLeft (PNetworks task git pl)) as H3.
  { intros. unfold stageNetworks. destruct (Networks.Reconcile _ _ _ _ _ _ _ _) as [[[]?]?];
      [simpl; lia|]. destruct (Clear _ _); simpl; lia. }
  assert (∀ task git pl now,
    stagesLeft (stageDispatch task git pl now r).1 < stagesLeft (PDispatch task git pl)) as H4.
  { intros. unfold stageDispatch. destruct (dispatchStacks _ _ _ _) as [[] ?]; simpl; lia. }
  assert (∀ latest stacks,
    stagesLeft (cleanupStack latest stacks r).1 < stagesLeft (PCleanup latest stacks)) as H5.
  { intros ? [|]; simpl; lia. }
  split_and!; [done| | |].
  - intros Hcl name op q' Hn. unfold next in Hn. rewrite Hp, Hcl in Hn.
    by destruct (stopped (queue (sys r))).
  - intros st' Hstep Hne. inversion Hstep; subst; try done; simpl; eauto with lia.
  - intros Hne.
    destruct ph as [|task git|task git|task git pl|task git pl|task git| |latest stacks];
      [done|eexists; split..]; cycle 1.
    + apply (H1 task git 0%Z).
    + apply (r_reload _ _ _ _ _ _ r task git (Err "") 0%Z).
    + apply H2.
    + apply (r_networks _ _ _ _ _ _ r task git pl 0%Z).
    + apply H3.
    + apply (r_dispatch _ _ _ _ _ _ r task git pl 0%Z).
    + apply H4.
    + apply (r_finish _ _ _ _ _ _ r task git 0%Z).
    + simpl. lia.
    + apply r_resume.
    + simpl. lia.
    + apply r_cleanup_stack.
    + apply H5.
    + apply r_pause.
Qed.

(** A stack never runs with a stale specification or revision: at every
    moment, whatever runs, polls, cleanups, failures and workers interleaved
    before, an operation a worker is handed carries the commit of the latest
    dispatch and one of its stacks, and these are the stacks of the accepted
    configuration. When no dispatch is current, nothing waits. *)
Theorem work_is_fresh p d w cfg ph r name op q'
    (Hr : rtc syncStep (PIdle, newRunner p d w cfg) (ph, r))
    (Hn : next (queue (sys r)) = (NextOperation name op, q')) :
  ∃ latest, lastDispatch r = Some latest ∧
    Commit (request op) = dispatchCommit latest ∧
    Stack (request op) ∈ dispatchStacks_ latest ∧ Name (Stack (request op)) = name ∧
    dispatchStacks_ latest ≡ₚ cfgStacks (accepted r).
Proof.
  pose proof (reachable_inv _ _ _ _ _ _ _ _ _ _ _ Hr) as [Hc Hp Ha Hph]. simpl in *.
  destruct (next_effect _ _ _ _ (cs_queue _ _ Hc) Hn) as (Hop & _).
  assert (waitingFrom (lastDispatch r) (queue (sys r))) as Hw.
  { unfold next in Hn. rewrite Hp in Hn. destruct (stopped (queue (sys r))); [done|].
    destruct ph; simpl in *; try done; naive_solver. }
  destruct (Hw _ _ Hop) as (latest & Hl & Hcm & Hst & Hnm). exists latest.
  split_and!; try done. by apply Ha.
Qed.

(** The persisted Git revision names the latest revision dispatched to the
    stack queue: it changes only in the last stage of a successful run, to
    the commit of the dispatch that run made; failed runs, polls and cleanups
    keep it. *)
Theorem git_revision_is_dispatched p d w cfg st st'
    (Hr : rtc syncStep (PIdle, newRunner p d w cfg) st) (Hs : syncStep st st') :
  revision (db st'.2) = revision (db st.2) ∨
  ∃ task git latest, st.1 = PFinish task git ∧ lastDispatch st.2 = Some latest ∧
    revision (db st'.2) = dispatchCommit latest ∧ dispatchCommit latest = NewRevision git ∧
    Runtime.LastSyncResult (Runtime.stored (db st'.2)) = syncRunResultSuccess.
Proof.
  apply reachable_inv in Hr as [_ _ _ Hph].
  assert (∀ fn r, (∀ s, Runtime.GitRevision (fn s) = Runtime.GitRevision s) →
    revision (db (@updateState DB _ W fn r).2) = revision (db r)) as Hup.
  { intros fn r Hfn. pose proof (Update_revision fn (db r) Hfn) as Hu.
    unfold updateState. by destruct (Runtime.Update fn (db r)) as [[]?]. }
  assert (∀ reason now err r,
    revision (db (@finishStageFailure DB _ W reason now err r)) = revision (db r)) as Hfail.
  { intros. by apply Hup. }
  assert (∀ reason out d0, revision (configuredPull reason out d0).2 = revision d0) as Hpull.
  { intros reason [res|err] d0; unfold configuredPull, GitPull.Pull; simpl.
    - apply observe_revision.
    - apply observe_revision. }
  assert (∀ task g git now r, revision (db (stageGit configuredPull task g git now r).2)
    = revision (db (W := W) r)) as Hgit.
  { intros. unfold stageGit.
    assert (revision (db (publishManualSync task r).2) = revision (db r)) as Hm.
    { unfold publishManualSync. case_bool_decide; [|done].
      pose proof (Publish_revision (Runtime.SyncManualStarted (TriggeredBy task)) (db r)) as Hpb.
      by destruct (Runtime.Publish _ _) as [[]?]. }
    destruct (publishManualSync task r) as [[] r1]; simpl in *; [done|].
    assert (revision (db (resolveGitState configuredPull (Reason task) g git r1).2)
      = revision (db r1)) as Hg.
    { unfold resolveGitState. destruct g; [done|]. case_bool_decide; [by destruct (head git)|].
      pose proof (Hpull (reasonText (Reason task)) (pulled git) (db r1)).
      by destruct (configuredPull _ _ _) as [[]?]. }
    destruct (resolveGitState _ _ _ _ r1) as [[] r2]; simpl in *; [congruence|].
    rewrite Hfail. congruence. }
  destruct Hs; simpl in *.
  - left. apply Hgit.
  - left. unfold Poll. pose proof (Hpull (reasonText TriggerPoll) (pulled git) (db r)) as Hp.
    destruct (configuredPull _ _ _) as [[result|err] d1]; cbv beta iota zeta; simpl in Hp.
    + set (r1 := updatePollState _ _ _ _).
      assert (revision (db r1) = revision (db r)) as Hr1.
      { unfold r1, updatePollState. by rewrite Hup. }
      destruct (Updated result); [rewrite Hgit|simpl]; congruence.
    + unfold updatePollState. simpl snd. by rewrite Hup.
  - left. unfold Cleanup. by destruct (lastDispatch r).
  - left. by destruct stacks.
  - left. unfold stagePause, Pause. destruct (stopped _); [|done]. simpl. by rewrite Hfail.
  - left. unfold stageReload, Reload. destruct outcome as [[c b]|err]; simpl; [|by rewrite Hfail].
    destruct (_ && _); [done|]. apply Publish_revision.
  - left. unfold stageNetworks.
    pose proof (Networks_revision managerGet managerCreate errorMessage (cfgNetworks (accepted r))
      (NewRevision git) now (db r) (daemon r)) as Hn.
    destruct (Networks.Reconcile _ _ _ _ _ _ _ _) as [[[u|err] d1] w1]; simpl in *; [done|].
    destruct (Clear _ _) as [dropped q]. simpl. by rewrite Hfail.
  - left. unfold stageDispatch, dispatchStacks. destruct (Replace _ _ _) as [[dropped|] q]; simpl;
      [done|by rewrite Hfail].
  - destruct Hph as (_ & latest & Hl & Hcm). unfold updateState.
    destruct (Runtime.Update _ (db r)) as [[[]|err] d1] eqn:Hu; simpl.
    + right. exists task, git, latest. apply Runtime.Update_ok in Hu as [Hst _].
      unfold revision. rewrite Hst. done.
    + left. by apply Runtime.Update_err in Hu as ->.
  - by left.
  - by left.
Qed.
End Properties.

(** ** A concrete run: start the workers, then a startup synchronization *)
Definition demoTask : Task := {| TriggeredBy := ""; Reason := TriggerStartup |}.
Definition demoGit : PullResult :=
  {| Updated := true; OldRevision := "c0"; NewRevision := "c1" |}.
Definition demoOutcome : gitOutcome := {| head := Err ""; pulled := Ok demoGit |}.
Definition demoConfig : AcceptedConfig :=
  {| cfgStacks := [demoStack "a"; demoStack "b"]; cfgNetworks := [] |}.
Definition demoDiff (_ _ : string) : Result string (list CommitFileDiff) :=
  Ok [{| OldPath := ""; NewPath := "b.yaml" |}].
Definition demoPull : string → Result goError PullResult → Runtime.SqlStore →
    Result PullError PullResult * Runtime.SqlStore :=
  configuredPull false (λ _, None) (λ _, None) (λ s, s) (λ s, s) "git@host:repo" true.

Notation demoStep := (syncStep Networks.mapGet Networks.mapCreate (λ _, "") (λ _, "")
  demoDiff false (λ _, None) (λ _, None) (λ s, s) (λ s, s) "git@host:repo" true).
Notation demoRunner := (@Runner Runtime.SqlStore (gmap string Networks.SwarmNetwork)).

Definition demoNew : demoRunner :=
  newRunner 1 Runtime.openStore ∅ {| cfgStacks := []; cfgNetworks := [] |}.
Definition demoStarted : demoRunner :=
  withSystem demoNew {| queue := (Start (queue (sys demoNew))).2;
                        pool := pool (sys demoNew) ++ replicate (Start (queue (sys demoNew))).1 Waiting |}.
Definition demoResolved : phase * demoRunner :=
  stageGit demoPull demoTask None demoOutcome 1 demoStarted.
Definition demoPaused : phase * demoRunner := stagePause demoTask demoGit 1 demoResolved.2.
Definition demoReloaded : phase * demoRunner :=
  stageReload demoDiff demoTask demoGit (Ok (demoConfig, true)) 1 demoPaused.2.
Definition demoPlan : Plan := plan demoDiff (cfgStacks demoConfig) demoGit.
Definition demoNetworked : phase * demoRunner :=
  stageNetworks Networks.mapGet Networks.mapCreate (λ _, "") (λ _, "") demoTask demoGit demoPlan
    1 demoReloaded.2.
Definition demoDispatched : phase * demoRunner :=
  stageDispatch demoTask demoGit demoPlan 1 demoNetworked.2.
Definition demoFinished : phase * demoRunner := stageFinish demoTask demoGit 1 demoDispatched.2.
Definition demoEnd : phase * demoRunner := stageResume demoFinished.2.

Lemma phase_eta {R} (st : phase * R) ph : st.1 = ph → st = (ph, st.2).
Proof. destruct st. by intros <-. Qed.

Lemma demoPaused_reachable : rtc demoStep (PIdle, demoNew) demoPaused.
Proof.
  eapply rtc_l; [apply (r_env _ _ _ _ _ _ PIdle demoNew); apply env_start|].
  eapply rtc_l; [apply (r_run _ _ _ _ _ _ demoStarted demoTask demoOutcome 1)|].
  change (stageGit _ _ _ _ _ _) with demoResolved.
  rewrite (phase_eta demoResolved (PPause demoTask demoGit)) by (vm_compute; reflexivity).
  apply rtc_once, r_pause.
Qed.

Lemma demoDispatched_reachable : rtc demoStep (PIdle, demoNew) demoDispatched.
Proof.
  etrans; [apply demoPaused_reachable|].
  rewrite (phase_eta demoPaused (PReload demoTask demoGit)) by (vm_compute; reflexivity).
  eapply rtc_l; [apply (r_reload _ _ _ _ _ _ _ _ _ (Ok (demoConfig, true)) 1)|].
  change (stageReload _ _ _ _ _ _) with demoReloaded.
  rewrite (phase_eta demoReloaded (PNetworks demoTask demoGit demoPlan)) by (vm_compute; reflexivity).
  eapply rtc_l; [apply (r_networks _ _ _ _ _ _ _ _ _ _ 1)|].
  change (stageNetworks _ _ _ _ _ _ _ _ _) with demoNetworked.
  rewrite (phase_eta demoNetworked (PDispatch demoTask demoGit demoPlan)) by (vm_compute; reflexivity).
  apply rtc_once, r_dispatch.
Qed.

Lemma demoFinished_step : demoStep demoDispatched demoFinished.
Proof.
  rewrite (phase_eta demoDispatched (PFinish demoTask demoGit)) by (vm_compute; reflexivity).
  apply r_finish.
Qed.

Lemma demoEnd_reachable : rtc demoStep (PIdle, demoNew) demoEnd.
Proof.
  etrans; [apply demoDispatched_reachable|].
  eapply rtc_l; [apply demoFinished_step|].
  rewrite (phase_eta demoFinished PResume) by (vm_compute; reflexivity).
  apply rtc_once, r_resume.
Qed.

Lemma admission_window_witness :
  rtc demoStep (PIdle, demoNew) (PReload demoTask demoGit, demoPaused.2) ∧
  paused (queue (sys demoPaused.2)) = true.
Proof.
  assert (rtc demoStep (PIdle, demoNew) (PReload demoTask demoGit, demoPaused.2)) as Hr.
  { rewrite <- (phase_eta demoPaused (PReload demoTask demoGit)) by (vm_compute; reflexivity).
    apply demoPaused_reachable. }
  split; [exact Hr|]. apply (admission_window _ _ _ _ _ _ _ _ _ _ _ _ _ _ _ _ _ _ Hr).
Defined.

Lemma work_is_fresh_witness :
  ∃ op q', next (queue (sys demoEnd.2)) = (NextOperation "b" op, q') ∧
  ∃ latest, lastDispatch demoEnd.2 = Some latest ∧ Commit (request op) = dispatchCommit latest.
Proof.
  destruct (next (queue (sys demoEnd.2))) as [res q'] eqn:Hn.
  assert (res = NextOperation "b" {| kind := OperationReconcile; changed := true;
    request := demoRequest "b" "c1" |}) as ->.
  { change res with (fst (res, q')). rewrite <- Hn. vm_compute. reflexivity. }
  eexists _, q'. split; [reflexivity|].
  assert (rtc demoStep (PIdle, demoNew) (PIdle, demoEnd.2)) as Hr.
  { rewrite <- (phase_eta demoEnd PIdle) by (vm_compute; reflexivity). apply demoEnd_reachable. }
  destruct (work_is_fresh _ _ _ _ _ _ _ _ _ _ _ _ _ _ _ _ _ _ _ _ _ Hr Hn)
    as (latest & H1 & H2 & _).
  exists latest. split; [exact H1|exact H2].
Defined.

Lemma git_revision_is_dispatched_witness :
  revision (db demoFinished.2) = "c1" ∧
  (revision (db demoFinished.2) = revision (db demoDispatched.2) ∨
   ∃ task git latest, demoDispatched.1 = PFinish task git ∧
     lastDispatch demoDispatched.2 = Some latest ∧
     revision (db demoFinished.2) = dispatchCommit latest ∧
     dispatchCommit latest = NewRevision git ∧
     Runtime.LastSyncResult (Runtime.stored (db demoFinished.2)) = syncRunResultSuccess).
Proof.
  split; [vm_compute; reflexivity|].
  apply (git_revision_is_dispatched _ _ _ _ _ _ _ _ _ _ _ _ _ _ _ _ _ _
    demoDispatched_reachable demoFinished_step).
Defined.
