(* ===== verification/Outbox.v ===== *)
(** * The durable event outbox ([internal/modules/event/outbox])

    [Outbox] is the content of the tables [outbox_events] and
    [outbox_deliveries]; every statement of the repository is one definition
    over it. Constraint violations are errors; other failures of the database
    roll the transaction back and are left out. [uuid] values are arguments. *)
From S2P Require Import Prelude.

(** [DeliveryStatus] *)
Inductive DeliveryStatus :=
| DeliveryStatusPending | DeliveryStatusProcessing | DeliveryStatusDelivered | DeliveryStatusFailed.
#[export] Instance DeliveryStatus_eq_dec : EqDecision DeliveryStatus.
Proof. solve_decision. Defined.

(** A row of [outbox_events], keyed by its id. *)
Record EventRow := {
  sequence : nat; event_type : string; schema_version : nat; occurred_at : Time;
  causation_id : string; payload : string; traceparent : option string;
}.

(** A row of [outbox_deliveries], keyed by event id and subscription id. *)
Record DeliveryRow := {
  status : DeliveryStatus; attempts : nat; available_at : Time;
  lease_until : option Time; lease_token : option string;
  last_error : option string; updated_at : Time;
}.

Record Outbox := {
  events : gmap string EventRow;
  deliveries : gmap (string * string) DeliveryRow;
  next_sequence : nat;
}.

(** [Delivery], the fields of a claim. *)
Record Delivery := {
  EventID : string; SubscriptionID : string; Token : string; Attempts : nat;
}.
Definition key (d : Delivery) : string * string := (EventID d, SubscriptionID d).

Inductive outboxError :=
| ErrLeaseLost
| ErrInvalidPayload
| ErrNoRows
| ErrNilEvent
| ErrTimeRequired
| ErrConstraint (table : string)
| ErrHandler (reason : string)
| ErrInvalidDelivery (code : string).
#[export] Instance outboxError_eq_dec : EqDecision outboxError.
Proof. solve_decision. Defined.

Definition setTables (o : Outbox) (ev : gmap string EventRow)
    (dl : gmap (string * string) DeliveryRow) : Outbox :=
  {| events := ev; deliveries := dl; next_sequence := next_sequence o |}.

Definition codecVersion : nat := 1.

(** ** [Repository.Publish] *)
Definition insertEvent (id : string) (row : nat → EventRow) : St Outbox outboxError () :=
  λ o, match events o !! id with
       | Some _ => (Err (ErrConstraint "outbox_events"), o)
       | None => (Ok (), {| events := <[id := row (next_sequence o)]> (events o);
                            deliveries := deliveries o;
                            next_sequence := S (next_sequence o) |})
       end.

Definition insertDelivery (id subscriber : string) (now : Time) : St Outbox outboxError () :=
  λ o, match deliveries o !! (id, subscriber) with
       | Some _ => (Err (ErrConstraint "outbox_deliveries"), o)
       | None => (Ok (), setTables o (events o)
           (<[(id, subscriber) := {| status := DeliveryStatusPending; attempts := 0;
                available_at := now; lease_until := None; lease_token := None;
                last_error := None; updated_at := now |}]> (deliveries o)))
       end.

Fixpoint insertDeliveries (id : string) (subscribers : list string) (now : Time)
    : St Outbox outboxError () :=
  match subscribers with
  | [] => st_ret ()
  | subscriber :: subscribers =>
      st_bind (insertDelivery id subscriber now) (λ _, insertDeliveries id subscribers now)
  end.

(** The event is its encoded form, [None] for nil. *)
Definition Publish (event : option (string * string)) (id cause : string)
    (traceparent : option string) (subscriptionIDs : list string) (now : Time)
    : St Outbox outboxError () :=
  match event with
  | None => st_throw ErrNilEvent
  | Some (eventType, payload) =>
      match subscriptionIDs with
      | [] => st_ret ()
      | _ =>
          if is_zero now then st_throw ErrTimeRequired
          else within_transaction
            (st_bind
               (insertEvent id (λ seq, {| sequence := seq; event_type := eventType;
                  schema_version := codecVersion; occurred_at := now; causation_id := cause;
                  payload := payload; traceparent := traceparent |}))
               (λ _, insertDeliveries id subscriptionIDs now))
      end
  end.

(** ** [Repository.Claim] *)
Definition isActive (row : DeliveryRow) : bool :=
  bool_decide (status row = DeliveryStatusPending) ||
  bool_decide (status row = DeliveryStatusProcessing).

Definition sequenceOf (o : Outbox) (eventID : string) : option nat :=
  sequence <$> events o !! eventID.

(** The delivery may be leased at [now]. *)
Definition isDue (now : Time) (row : DeliveryRow) : bool :=
  match status row with
  | DeliveryStatusPending => (available_at row <=? now)%Z
  | DeliveryStatusProcessing =>
      match lease_until row with Some until => (until <=? now)%Z | None => false end
  | _ => false
  end.

(** The [NOT EXISTS] part: an active delivery of the subscription with an
    earlier event. *)
Definition earlierActive (o : Outbox) (subscriber : string) (seq : nat) : bool :=
  existsb (λ kv : (string * string) * DeliveryRow,
    bool_decide (kv.1.2 = subscriber) && isActive kv.2 &&
    match sequenceOf o kv.1.1 with Some s => s <? seq | None => false end)
  (map_to_list (deliveries o)).

(** A candidate row with the columns of [ORDER BY]. *)
Record candidate := { c_available : Time; c_sequence : nat; c_key : string * string }.

Definition candidateLess (a b : candidate) : bool :=
  if (c_available a =? c_available b)%Z then
    if c_sequence a =? c_sequence b
    then negb (bool_decide (String.le (c_key b).2 (c_key a).2))
    else c_sequence a <? c_sequence b
  else (c_available a <? c_available b)%Z.

Definition candidates (o : Outbox) (now : Time) : list candidate :=
  omap (λ kv : (string * string) * DeliveryRow,
    match sequenceOf o kv.1.1 with
    | Some seq =>
        if isDue now kv.2 && negb (earlierActive o kv.1.2 seq)
        then Some {| c_available := available_at kv.2; c_sequence := seq; c_key := kv.1 |}
        else None
    | None => None
    end) (map_to_list (deliveries o)).

(** [ORDER BY ... LIMIT 1] *)
Fixpoint firstCandidate (cs : list candidate) : option candidate :=
  match cs with
  | [] => None
  | c :: cs => match firstCandidate cs with
               | Some best => if candidateLess best c then Some best else Some c
               | None => Some c
               end
  end.

Definition leaseRow (token : string) (until now : Time) (row : DeliveryRow) : DeliveryRow :=
  {| status := DeliveryStatusProcessing; attempts := S (attempts row);
     available_at := available_at row; lease_until := Some until; lease_token := Some token;
     last_error := last_error row; updated_at := now |}.

Definition Claim (token : string) (now : Time) (lease : Duration) : St Outbox outboxError Delivery :=
  within_transaction (λ o,
    match firstCandidate (candidates o now) with
    | None => (Err ErrNoRows, o)
    | Some c =>
        match deliveries o !! c_key c with
        | None => (Err ErrNoRows, o)
        | Some row =>
            (Ok {| EventID := (c_key c).1; SubscriptionID := (c_key c).2; Token := token;
                   Attempts := S (attempts row) |},
             setTables o (events o)
               (<[c_key c := leaseRow token (now + lease) now row]> (deliveries o)))
        end
    end).

(** ** Lease checks, acknowledgement and failure *)

(** [status = 'processing' AND lease_token = ?] *)
Definition holdsToken (d : Delivery) (row : DeliveryRow) : bool :=
  bool_decide (status row = DeliveryStatusProcessing) &&
  bool_decide (lease_token row = Some (Token d)).
Definition leaseValid (now : Time) (row : DeliveryRow) : bool :=
  match lease_until row with Some until => (now <? until)%Z | None => false end.

(** [CheckLease] *)
Definition CheckLease (d : Delivery) (now : Time) : St Outbox outboxError () :=
  λ o, match deliveries o !! key d with
       | Some row => if holdsToken d row && leaseValid now row then (Ok (), o)
                     else (Err ErrLeaseLost, o)
       | None => (Err ErrLeaseLost, o)
       end.

(** [deleteCompleted]: deleting the event deletes its deliveries. *)
Definition deleteCompleted (eventID : string) : St Outbox outboxError () :=
  λ o,
    if existsb (λ kv : (string * string) * DeliveryRow,
         bool_decide (kv.1.1 = eventID) &&
         negb (bool_decide (status kv.2 = DeliveryStatusDelivered))) (map_to_list (deliveries o))
    then (Ok (), o)
    else (Ok (), setTables o (delete eventID (events o))
                   (filter (λ kv, kv.1.1 ≠ eventID) (deliveries o))).

(** An [UPDATE] of one row with [requireChanged]. *)
Definition updateRow (k : string * string) (cond : DeliveryRow → bool)
    (f : DeliveryRow → DeliveryRow) : St Outbox outboxError () :=
  λ o, match deliveries o !! k with
       | Some row =>
           if cond row then (Ok (), setTables o (events o) (<[k := f row]> (deliveries o)))
           else (Err ErrLeaseLost, o)
       | None => (Err ErrLeaseLost, o)
       end.

(** [Acknowledge]; its caller provides the transaction. *)
Definition Acknowledge (d : Delivery) (now : Time) : St Outbox outboxError () :=
  st_bind
    (updateRow (key d) (λ row, holdsToken d row && leaseValid now row)
       (λ row, {| status := DeliveryStatusDelivered; attempts := attempts row;
                  available_at := available_at row; lease_until := None; lease_token := None;
                  last_error := None; updated_at := now |}))
    (λ _, deleteCompleted (EventID d)).

Definition maxRetryBackoff : Duration := (5 * minute)%Z.
Definition maxBackoffExponent : nat := 9.
Definition backoff (n : nat) : Duration :=
  Z.min (second * Z.shiftl 1 (Z.of_nat (Nat.min n maxBackoffExponent)))%Z maxRetryBackoff.

(** [Fail] *)
Definition Fail_ (d : Delivery) (code : string) (terminal : bool) (maxAttempts : nat) (now : Time)
    : St Outbox outboxError () :=
  within_transaction
    (updateRow (key d) (holdsToken d)
       (λ row, {| status := if terminal || (maxAttempts <=? Attempts d)
                            then DeliveryStatusFailed else DeliveryStatusPending;
                  attempts := attempts row; available_at := (now + backoff (Attempts d))%Z;
                  lease_until := None; lease_token := None; last_error := Some code;
                  updated_at := now |})).

Definition isFailed (row : DeliveryRow) : bool :=
  bool_decide (status row = DeliveryStatusFailed).

(** [Replay] *)
Definition Replay (eventID subscriptionID : string) (now : Time) : St Outbox outboxError () :=
  updateRow (eventID, subscriptionID) isFailed
    (λ row, {| status := DeliveryStatusPending; attempts := 0; available_at := now;
               lease_until := lease_until row; lease_token := lease_token row;
               last_error := None; updated_at := now |}).

(** [Discard] *)
Definition Discard (eventID subscriptionID : string) (now : Time) : St Outbox outboxError () :=
  within_transaction
    (st_bind
       (updateRow (eventID, subscriptionID) isFailed
          (λ row, {| status := DeliveryStatusDelivered; attempts := attempts row;
                     available_at := available_at row; lease_until := lease_until row;
                     lease_token := lease_token row; last_error := last_error row;
                     updated_at := now |}))
       (λ _, deleteCompleted eventID)).

(** ** The table invariant *)
Record wf (o : Outbox) : Prop := {
  wf_fk : ∀ k row, deliveries o !! k = Some row → is_Some (events o !! k.1);
  wf_sequence : ∀ id row, events o !! id = Some row → sequence row < next_sequence o;
  wf_unique : ∀ id1 id2 r1 r2, events o !! id1 = Some r1 → events o !! id2 = Some r2 →
    sequence r1 = sequence r2 → id1 = id2;
  wf_lease : ∀ k row, deliveries o !! k = Some row →
    if bool_decide (status row = DeliveryStatusProcessing)
    then is_Some (lease_until row) ∧ is_Some (lease_token row)
    else lease_until row = None ∧ lease_token row = None;
  wf_work : ∀ id row, events o !! id = Some row →
    ∃ sub d, deliveries o !! (id, sub) = Some d ∧ status d ≠ DeliveryStatusDelivered;
}.

Definition emptyOutbox : Outbox := {| events := ∅; deliveries := ∅; next_sequence := 1 |}.

Lemma empty_wf : wf emptyOutbox.
Proof. constructor; simpl; intros *; by rewrite ?lookup_empty. Qed.

(** Changing one row. *)
Lemma updateRow_inv k cond f o r o' :
  updateRow k cond f o = (r, o') →
  (r = Err ErrLeaseLost ∧ o' = o ∧ ∀ row, deliveries o !! k = Some row → cond row = false) ∨
  (∃ row, r = Ok () ∧ deliveries o !! k = Some row ∧ cond row = true ∧
          o' = setTables o (events o) (<[k := f row]> (deliveries o))).
Proof.
  unfold updateRow. destruct (deliveries o !! k) as [row|] eqn:Hk.
  - destruct (cond row) eqn:Hc; intros; simplify_eq; [right; eauto|left; naive_solver].
  - intros. simplify_eq. left. naive_solver.
Qed.

Definition leaseOk (row : DeliveryRow) : Prop :=
  if bool_decide (status row = DeliveryStatusProcessing)
  then is_Some (lease_until row) ∧ is_Some (lease_token row)
  else lease_until row = None ∧ lease_token row = None.

Lemma setRow_wf o k row row' :
  wf o → deliveries o !! k = Some row → leaseOk row' → status row' ≠ DeliveryStatusDelivered →
  wf (setTables o (events o) (<[k := row']> (deliveries o))).
Proof.
  intros [Hfk Hseq Hu Hl Hw] Hk Hrow Hst. constructor; simpl; [|done|done| |].
  - intros k' r [[<- <-]|[_ Hr]]%lookup_insert_Some; eauto.
  - intros k' r [[<- <-]|[_ Hr]]%lookup_insert_Some; [done|]. by apply (Hl k').
  - intros id r Hid. destruct (Hw id r Hid) as (sub & d & Hd & Hdel).
    destruct (decide ((id, sub) = k)) as [<-|Hne].
    + exists sub, row'. by rewrite lookup_insert_eq.
    + exists sub, d. by rewrite lookup_insert_ne.
Qed.

(** Completing a row and deleting its event once nothing is left to deliver. *)
Lemma deleteCompleted_ok eventID o : ∃ o', deleteCompleted eventID o = (Ok (), o').
Proof. unfold deleteCompleted. destruct (existsb _ _); eauto. Qed.

Lemma pendingDelivery_spec o eventID :
  existsb (λ kv : (string * string) * DeliveryRow,
    bool_decide (kv.1.1 = eventID) &&
    negb (bool_decide (status kv.2 = DeliveryStatusDelivered))) (map_to_list (deliveries o)) = true ↔
  ∃ sub d, deliveries o !! (eventID, sub) = Some d ∧ status d ≠ DeliveryStatusDelivered.
Proof.
  rewrite existsb_exists. split.
  - intros ([[id sub] d] & Hin & Hb). apply list_elem_of_In, elem_of_map_to_list in Hin.
    apply andb_true_iff in Hb as [H1%bool_decide_eq_true H2%negb_true_iff%bool_decide_eq_false].
    simpl in *. subst. eauto.
  - intros (sub & d & Hd & Hst). exists ((eventID, sub), d). split.
    + by apply list_elem_of_In, elem_of_map_to_list.
    + simpl. rewrite bool_decide_eq_true_2, bool_decide_eq_false_2 by done. done.
Qed.

(** The invariant without [wf_work] for one event. *)
Record wf_except (id0 : string) (o : Outbox) : Prop := {
  we_fk : ∀ k row, deliveries o !! k = Some row → is_Some (events o !! k.1);
  we_sequence : ∀ id row, events o !! id = Some row → sequence row < next_sequence o;
  we_unique : ∀ id1 id2 r1 r2, events o !! id1 = Some r1 → events o !! id2 = Some r2 →
    sequence r1 = sequence r2 → id1 = id2;
  we_lease : ∀ k row, deliveries o !! k = Some row → leaseOk row;
  we_work : ∀ id row, id ≠ id0 → events o !! id = Some row →
    ∃ sub d, deliveries o !! (id, sub) = Some d ∧ status d ≠ DeliveryStatusDelivered;
}.

Lemma deleteCompleted_wf eventID o :
  wf_except eventID o → wf (deleteCompleted eventID o).2.
Proof.
  intros [Hfk Hseq Hu Hl Hw]. unfold deleteCompleted.
  destruct (existsb _ _) eqn:He; simpl.
  - constructor; try done. intros id row Hid.
    destruct (decide (id = eventID)) as [->|Hne]; [|by eapply Hw].
    by apply pendingDelivery_spec.
  - constructor; simpl.
    + intros [id sub] row [Hk Hne]%map_lookup_filter_Some. simpl in *.
      rewrite lookup_delete_ne by done. by apply (Hfk (id, sub) row).
    + intros id row [Hne Hid]%lookup_delete_Some. eauto.
    + intros id1 id2 r1 r2 [_ H1]%lookup_delete_Some [_ H2]%lookup_delete_Some. eauto.
    + intros k row [Hk _]%map_lookup_filter_Some. by apply (Hl k).
    + intros id row [Hne Hid]%lookup_delete_Some.
      destruct (Hw id row) as (sub & d & Hd & Hst); [done..|]. exists sub, d. split; [|done].
      by apply map_lookup_filter_Some.
Qed.

Lemma completeRow_except o k row row' :
  wf o → deliveries o !! k = Some row → leaseOk row' →
  wf_except k.1 (setTables o (events o) (<[k := row']> (deliveries o))).
Proof.
  intros [Hfk Hseq Hu Hl Hw] Hk Hrow. constructor; simpl; [|done|done| |].
  - intros k' r [[<- <-]|[_ Hr]]%lookup_insert_Some; eauto.
  - intros k' r [[<- <-]|[_ Hr]]%lookup_insert_Some; [done|]. by apply (Hl k').
  - intros id r Hne Hid. destruct (Hw id r Hid) as (sub & d & Hd & Hst).
    exists sub, d. split; [|done]. rewrite lookup_insert_ne; [done|]. intros ->. by apply Hne.
Qed.

Lemma Acknowledge_wf d now o : wf o → wf (Acknowledge d now o).2.
Proof.
  intros Ho. unfold Acknowledge, st_bind. destruct (updateRow _ _ _ o) as [r o'] eqn:Hu.
  apply updateRow_inv in Hu as [(-> & -> & _)|(row & -> & Hk & _ & ->)]; [done|].
  apply deleteCompleted_wf, (completeRow_except o (key d) row); [done..|by split].
Qed.

Lemma isFailed_lease o k row :
  wf o → deliveries o !! k = Some row → isFailed row = true →
  lease_until row = None ∧ lease_token row = None.
Proof.
  intros Ho Hk Hf%bool_decide_eq_true. pose proof (wf_lease _ Ho _ _ Hk) as Hl.
  by rewrite Hf, bool_decide_eq_false_2 in Hl.
Qed.

Lemma Discard_wf eventID subscriptionID now o : wf o → wf (Discard eventID subscriptionID now o).2.
Proof.
  intros Ho. unfold Discard. apply within_transaction_inv; [done|].
  intros [] o' Hrun. unfold st_bind in Hrun.
  destruct (updateRow _ _ _ o) as [r o1] eqn:Hu.
  apply updateRow_inv in Hu as [(-> & -> & _)|(row & -> & Hk & Hf & ->)]; [done|].
  match type of Hrun with ?x = _ => change o' with ((Ok (E:=outboxError) (), o').2); rewrite <- Hrun end.
  apply deleteCompleted_wf, (completeRow_except o (eventID, subscriptionID) row); [done..|].
  unfold leaseOk. simpl. by apply (isFailed_lease o _ row Ho Hk).
Qed.

Lemma Fail_wf d code terminal maxAttempts now o : wf o → wf (Fail_ d code terminal maxAttempts now o).2.
Proof.
  intros Ho. unfold Fail_. apply within_transaction_inv; [done|]. intros [] o' Hu.
  apply updateRow_inv in Hu as [(? & ? & _)|(row & _ & Hk & _ & ->)]; [done|].
  eapply setRow_wf; [done|done|..]; simpl; unfold leaseOk; simpl; by destruct (_ || _).
Qed.

Lemma Replay_wf eventID subscriptionID now o : wf o → wf (Replay eventID subscriptionID now o).2.
Proof.
  intros Ho. destruct (Replay _ _ _ o) as [r o'] eqn:Hu.
  apply updateRow_inv in Hu as [(? & -> & _)|(row & _ & Hk & Hf & ->)]; [done|].
  eapply setRow_wf; [done|done|..]; [|done].
  unfold leaseOk. simpl. by apply (isFailed_lease o _ row Ho Hk).
Qed.

Lemma Claim_inv token now lease o r o' :
  Claim token now lease o = (r, o') →
  (r = Err ErrNoRows ∧ o' = o) ∨
  ∃ c row, firstCandidate (candidates o now) = Some c ∧ deliveries o !! c_key c = Some row ∧
    r = Ok {| EventID := (c_key c).1; SubscriptionID := (c_key c).2; Token := token;
              Attempts := S (attempts row) |} ∧
    o' = setTables o (events o)
           (<[c_key c := leaseRow token (now + lease) now row]> (deliveries o)).
Proof.
  unfold Claim, within_transaction.
  destruct (firstCandidate _) as [c|]; [|intros; simplify_eq; by left].
  destruct (deliveries o !! c_key c) as [row|] eqn:Hk; intros; simplify_eq; [|by left].
  right. by exists c, row.
Qed.

Lemma Claim_wf token now lease o : wf o → wf (Claim token now lease o).2.
Proof.
  intros Ho. destruct (Claim _ _ _ o) as [r o'] eqn:Hc.
  apply Claim_inv in Hc as [[_ ->]|(c & row & _ & Hk & _ & ->)]; [done|].
  eapply setRow_wf; [done|done|..]; [|done]. unfold leaseOk. simpl. split; eauto.
Qed.

Lemma insertDeliveries_spec id subs now o o' :
  insertDeliveries id subs now o = (Ok (), o') →
  events o' = events o ∧ next_sequence o' = next_sequence o ∧ NoDup subs ∧
  (∀ k, deliveries o' !! k =
     if bool_decide (k.1 = id ∧ k.2 ∈ subs)
     then Some {| status := DeliveryStatusPending; attempts := 0; available_at := now;
                  lease_until := None; lease_token := None; last_error := None; updated_at := now |}
     else deliveries o !! k) ∧
  (∀ sub, sub ∈ subs → deliveries o !! (id, sub) = None).
Proof.
  revert o. induction subs as [|sub subs IH]; simpl; intros o Hrun.
  { unfold st_ret in Hrun. simplify_eq. split_and!; try done; [constructor| |set_solver].
    intros k. rewrite bool_decide_eq_false_2; [done|]. set_solver. }
  unfold st_bind, insertDelivery in Hrun.
  destruct (deliveries o !! (id, sub)) as [|] eqn:Hk; [done|].
  apply IH in Hrun as (Hev & Hn & Hnd & Hd & Hf). simpl in *. split_and!; [done|done|..].
  - constructor; [|done]. intros Hin. specialize (Hf sub Hin). by rewrite lookup_insert_eq in Hf.
  - intros [i s]. rewrite Hd. simpl. destruct (decide ((i, s) = (id, sub))) as [[= -> ->]|Hne].
    + rewrite lookup_insert_eq. rewrite (bool_decide_eq_true_2 (id = id ∧ sub ∈ sub :: subs)) by set_solver.
      by case_bool_decide.
    + rewrite lookup_insert_ne by done.
      assert (i = id ∧ s ∈ subs ↔ i = id ∧ s ∈ sub :: subs) as Hiff by set_solver.
      by rewrite (bool_decide_ext _ _ Hiff).
  - intros s [->|Hs]%elem_of_cons; [done|]. specialize (Hf s Hs).
    by apply lookup_insert_None in Hf as [? _].
Qed.

(** A publication adds one event, the latest, with one pending delivery per
    subscriber. *)
Lemma Publish_spec event id cause tp subs now o o' :
  Publish event id cause tp subs now o = (Ok (), o') →
  (subs = [] ∧ o' = o) ∨
  ∃ eventType payload, event = Some (eventType, payload) ∧ subs ≠ [] ∧ now ≠ 0%Z ∧
    NoDup subs ∧ events o !! id = None ∧ next_sequence o' = S (next_sequence o) ∧
    events o' = <[id := {| sequence := next_sequence o; event_type := eventType;
                  schema_version := codecVersion; occurred_at := now; causation_id := cause;
                  payload := payload; traceparent := tp |}]> (events o) ∧
    (∀ k, deliveries o' !! k =
       if bool_decide (k.1 = id ∧ k.2 ∈ subs)
       then Some {| status := DeliveryStatusPending; attempts := 0; available_at := now;
                    lease_until := None; lease_token := None; last_error := None; updated_at := now |}
       else deliveries o !! k).
Proof.
  unfold Publish. destruct event as [[ty pl]|]; [|done].
  destruct subs as [|sub subs]; [unfold st_ret; intros; simplify_eq; by left|].
  unfold is_zero. case_bool_decide as Hz; [done|].
  intros Hrun. apply (proj1 (within_transaction_ok _ _ _ _)) in Hrun.
  unfold st_bind at 1, insertEvent in Hrun.
  destruct (events o !! id) eqn:Hid; [done|].
  apply insertDeliveries_spec in Hrun as (Hev & Hn & Hnd & Hd & _). simpl in *.
  right. exists ty, pl. done.
Qed.

(** A refused publication changes nothing. *)
Lemma Publish_err event id cause tp subs now o e o' :
  Publish event id cause tp subs now o = (Err e, o') → o' = o.
Proof.
  unfold Publish, st_throw. intros Hp. destruct event as [[ty pl]|]; [|by simplify_eq].
  destruct subs; [done|]. destruct (is_zero now); [by simplify_eq|].
  by apply within_transaction_err in Hp.
Qed.

Lemma Publish_wf event id cause tp subs now o : wf o → wf (Publish event id cause tp subs now o).2.
Proof.
  intros Ho. destruct (Publish event id cause tp subs now o) as [[[]|e] o'] eqn:Hp; simpl; cycle 1.
  { by apply Publish_err in Hp as ->. }
  apply Publish_spec in Hp as [[_ ->]|(ty & pl & -> & Hne & _ & Hnd & Hid & Hn & Hev & Hd)]; [done|].
  destruct Ho as [Hfk Hseq Hu Hl Hw].
  assert (∀ sub, deliveries o !! (id, sub) = None) as Hnone.
  { intros sub. destruct (deliveries o !! (id, sub)) eqn:Hs; [|done].
    apply Hfk in Hs as [? Hs]. simpl in Hs. congruence. }
  constructor.
  - intros [i s] row. rewrite Hd, Hev. simpl. case_bool_decide as Hi.
    + destruct Hi as [-> _]. rewrite lookup_insert_eq. eauto.
    + intros Hrow%Hfk. simpl in Hrow. destruct (decide (i = id)) as [->|];
        [rewrite lookup_insert_eq|rewrite lookup_insert_ne]; eauto.
  - intros i row. rewrite Hev, Hn, lookup_insert_Some. intros [[<- <-]|[_ Hi]]; simpl; [lia|].
    specialize (Hseq _ _ Hi). lia.
  - intros i1 i2 r1 r2. rewrite Hev, !lookup_insert_Some.
    intros [[<- <-]|[? H1]] [[<- <-]|[? H2]] Heq; simpl in *; try done.
    + specialize (Hseq _ _ H2). lia.
    + specialize (Hseq _ _ H1). lia.
    + by eapply Hu.
  - intros k row. rewrite Hd. case_bool_decide; [by intros [= <-]|]. apply Hl.
  - intros i row. rewrite Hev, lookup_insert_Some. intros [[<- <-]|[Hi Hrow]].
    + destruct subs as [|sub subs]; [done|]. exists sub. eexists. rewrite Hd.
      rewrite bool_decide_eq_true_2 by set_solver. split; [done|]. done.
    + destruct (Hw i row Hrow) as (sub & d & Hdl & Hst). exists sub, d. rewrite Hd.
      rewrite bool_decide_eq_false_2 by naive_solver. done.
Qed.

(** ** Which delivery a claim leases *)
Lemma candidateLess_asym a b : candidateLess a b = true → candidateLess b a = false.
Proof.
  unfold candidateLess. rewrite (Z.eqb_sym (c_available b)), (Nat.eqb_sym (c_sequence b)).
  destruct (c_available a =? c_available b)%Z eqn:H1; [|lia].
  destruct (c_sequence a =? c_sequence b) eqn:H2;
    [|rewrite Nat.ltb_lt, Nat.ltb_ge; lia].
  rewrite negb_true_iff, negb_false_iff, bool_decide_eq_false, bool_decide_eq_true.
  intros Hn. by destruct (total String.le (c_key a).2 (c_key b).2).
Qed.

Lemma candidateLess_negtrans a b c :
  candidateLess a b = false → candidateLess b c = false → candidateLess a c = false.
Proof.
  unfold candidateLess.
  destruct (c_available a =? c_available b)%Z eqn:A1, (c_available b =? c_available c)%Z eqn:A2,
    (c_available a =? c_available c)%Z eqn:A3; try lia;
  destruct (c_sequence a =? c_sequence b) eqn:B1, (c_sequence b =? c_sequence c) eqn:B2,
    (c_sequence a =? c_sequence c) eqn:B3; rewrite ?Nat.ltb_ge; try lia;
    rewrite ?Nat.eqb_eq, ?Nat.eqb_neq in *; try lia.
  rewrite !negb_false_iff, !bool_decide_eq_true. intros ??. by etrans.
Qed.

Lemma firstCandidate_spec cs c :
  firstCandidate cs = Some c → c ∈ cs ∧ ∀ c', c' ∈ cs → candidateLess c' c = false.
Proof.
  assert (∀ x, candidateLess x x = false) as Hirr.
  { intros x. destruct (candidateLess x x) eqn:Hx; [|done].
    by pose proof (candidateLess_asym _ _ Hx); congruence. }
  revert c. induction cs as [|x cs IH]; intros c; simpl; [done|].
  destruct (firstCandidate cs) as [best|] eqn:Hb.
  - destruct (IH best eq_refl) as [Hin Hmin]. destruct (candidateLess best x) eqn:Hbx; intros [= <-].
    + split; [set_solver|]. intros c' [->|Hc]%elem_of_cons; [by apply candidateLess_asym|auto].
    + split; [set_solver|]. intros c' [->|Hc]%elem_of_cons; [done|].
      eapply candidateLess_negtrans; [by apply Hmin|done].
  - intros [= <-]. destruct cs as [|y cs].
    + split; [set_solver|]. by intros c' ->%list_elem_of_singleton.
    + simpl in Hb. destruct (firstCandidate cs); [|done]. by destruct (candidateLess _ _).
Qed.

Lemma firstCandidate_None cs : firstCandidate cs = None → cs = [].
Proof.
  destruct cs as [|c cs]; [done|]. simpl.
  destruct (firstCandidate cs); [|done]. by destruct (candidateLess _ _).
Qed.

Lemma earlierActive_spec o sub seq :
  earlierActive o sub seq = true ↔
  ∃ id row s, deliveries o !! (id, sub) = Some row ∧ isActive row = true ∧
              sequenceOf o id = Some s ∧ s < seq.
Proof.
  unfold earlierActive. rewrite existsb_exists. split.
  - intros ([[id sub'] row] & Hin & Hb). apply list_elem_of_In, elem_of_map_to_list in Hin.
    simpl in Hb. apply andb_true_iff in Hb as [[H1%bool_decide_eq_true H2]%andb_true_iff H3].
    subst sub'. destruct (sequenceOf o id) as [s|] eqn:Hs; [|done].
    apply Nat.ltb_lt in H3. eauto 10.
  - intros (id & row & s & Hd & Ha & Hs & Hlt). exists ((id, sub), row). split.
    + by apply list_elem_of_In, elem_of_map_to_list.
    + simpl. rewrite bool_decide_eq_true_2, Ha, Hs by done. simpl. by apply Nat.ltb_lt.
Qed.

Lemma elem_of_candidates o now c :
  c ∈ candidates o now ↔
  ∃ row, deliveries o !! c_key c = Some row ∧ sequenceOf o (c_key c).1 = Some (c_sequence c) ∧
         isDue now row = true ∧ earlierActive o (c_key c).2 (c_sequence c) = false ∧
         c_available c = available_at row.
Proof.
  unfold candidates. rewrite list_elem_of_omap. split.
  - intros ([k row] & Hin%elem_of_map_to_list & Hc). simpl in Hc.
    destruct (sequenceOf o k.1) as [seq|] eqn:Hs; [|done].
    destruct (isDue now row) eqn:Hdue; [|done].
    destruct (earlierActive o k.2 seq) eqn:He; [done|]. simpl in Hc. simplify_eq. simpl. eauto 10.
  - intros (row & Hd & Hs & Hdue & He & Ha). exists (c_key c, row).
    split; [by apply elem_of_map_to_list|]. simpl. rewrite Hs, Hdue, He. simpl.
    destruct c. simpl in *. by subst.
Qed.

Lemma isDue_active now row : isDue now row = true → isActive row = true.
Proof. unfold isDue, isActive. destruct (status row); try done; by rewrite bool_decide_eq_true_2. Qed.

(** The deliveries of a subscription that a worker holds stand in front of all
    its active ones. *)
Definition head_of_line (o : Outbox) : Prop :=
  ∀ id id' sub row row' s s',
    deliveries o !! (id, sub) = Some row → status row = DeliveryStatusProcessing →
    deliveries o !! (id', sub) = Some row' → isActive row' = true →
    sequenceOf o id = Some s → sequenceOf o id' = Some s' → s ≤ s'.

(** A step that activates nothing and leases nothing keeps the line. *)
Lemma head_of_line_shrink o o' :
  (∀ k row', deliveries o' !! k = Some row' → isActive row' = true →
     ∃ row, deliveries o !! k = Some row ∧ isActive row = true ∧
       (status row' = DeliveryStatusProcessing → status row = DeliveryStatusProcessing)) →
  (∀ id s, sequenceOf o' id = Some s → sequenceOf o id = Some s) →
  head_of_line o → head_of_line o'.
Proof.
  intros Hd Hs Ho id id' sub row row' s s' Hk Hst Hk' Ha' Hsq Hsq'.
  destruct (Hd _ _ Hk) as (r & Hr & _ & Hp); [by unfold isActive; rewrite Hst|].
  destruct (Hd _ _ Hk') as (r' & Hr' & Har & _); [done|].
  eapply (Ho id id' sub r r'); eauto.
Qed.

(** The part of a table a deletion keeps. *)
Lemma deleteCompleted_sub id o :
  deliveries (deleteCompleted id o).2 ⊆ deliveries o ∧
  events (deleteCompleted id o).2 ⊆ events o ∧
  next_sequence (deleteCompleted id o).2 = next_sequence o.
Proof.
  unfold deleteCompleted. destruct (existsb _ _); simpl; [done|].
  split_and!; [apply map_filter_subseteq|apply delete_subseteq|done].
Qed.

Lemma sequenceOf_sub o o' id s :
  events o' ⊆ events o → sequenceOf o' id = Some s → sequenceOf o id = Some s.
Proof.
  unfold sequenceOf. intros Hsub (row & Hr & ->)%fmap_Some. by rewrite (lookup_weaken _ _ _ _ Hr Hsub).
Qed.

(** Row updates that end in [Acknowledge], [Discard] or [Fail]: the row leaves
    the leased state, the others stay or go. *)
Record releases (o o' : Outbox) : Prop := {
  rel_events : events o' ⊆ events o;
  rel_rows : ∀ k row', deliveries o' !! k = Some row' →
    deliveries o !! k = Some row' ∨
    ∃ row, deliveries o !! k = Some row ∧ status row' ≠ DeliveryStatusProcessing ∧
           lease_token row' = None ∧ (isActive row' = true → isActive row = true);
}.

Lemma releases_refl o : releases o o.
Proof. constructor; auto. Qed.

Lemma releases_delete o k row row' id :
  deliveries o !! k = Some row → status row' ≠ DeliveryStatusProcessing →
  lease_token row' = None → (isActive row' = true → isActive row = true) →
  releases o (deleteCompleted id (setTables o (events o) (<[k := row']> (deliveries o)))).2.
Proof.
  intros Hk Hst Hl Ha. set (o1 := setTables _ _ _).
  destruct (deleteCompleted_sub id o1) as (Hd & He & _). constructor; [done|].
  intros k' r Hr. eapply lookup_weaken in Hr; [|exact Hd]. simpl in Hr.
  apply lookup_insert_Some in Hr as [[<- <-]|[_ Hr]]; eauto 10.
Qed.

Lemma Acknowledge_releases d now o : releases o (Acknowledge d now o).2.
Proof.
  unfold Acknowledge, st_bind. destruct (updateRow _ _ _ o) as [r o'] eqn:Hu.
  apply updateRow_inv in Hu as [(-> & -> & _)|(row & -> & Hk & _ & ->)]; [apply releases_refl|].
  by eapply releases_delete.
Qed.

Lemma Discard_releases id sub now o : wf o → releases o (Discard id sub now o).2.
Proof.
  intros Ho. unfold Discard, within_transaction, st_bind.
  destruct (updateRow _ _ _ o) as [r o1] eqn:Hu.
  apply updateRow_inv in Hu as [(-> & -> & _)|(row & -> & Hk & Hf & ->)]; [apply releases_refl|].
  destruct (isFailed_lease _ _ _ Ho Hk Hf) as [_ Ht].
  match goal with |- context [deleteCompleted id ?o2] =>
    destruct (deleteCompleted_ok id o2) as [o' Ho'];
    pose proof (releases_delete o (id, sub) row {| status := DeliveryStatusDelivered;
      attempts := attempts row; available_at := available_at row; lease_until := lease_until row;
      lease_token := lease_token row; last_error := last_error row; updated_at := now |} id Hk) as Hrel end.
  rewrite Ho' in *. simpl in *. by apply Hrel.
Qed.

Lemma Fail_releases d code terminal maxAttempts now o :
  releases o (Fail_ d code terminal maxAttempts now o).2.
Proof.
  unfold Fail_, within_transaction. destruct (updateRow _ _ _ o) as [r o'] eqn:Hu.
  apply updateRow_inv in Hu as [(-> & -> & _)|(row & -> & Hk & Hh & ->)]; [apply releases_refl|].
  constructor; [done|]. intros k' row' Hr. simpl in Hr.
  apply lookup_insert_Some in Hr as [[<- <-]|[_ Hr]]; [right|by left].
  exists row. simpl. split_and!; [done|by destruct (_ || _)|done|]. intros _.
  unfold holdsToken in Hh. apply andb_true_iff in Hh as [Hst%bool_decide_eq_true _].
  unfold isActive. by rewrite Hst.
Qed.

Lemma releases_head o o' : releases o o' → head_of_line o → head_of_line o'.
Proof.
  intros [He Hr]. apply head_of_line_shrink; [|intros id s; by apply (sequenceOf_sub o o')].
  intros k row' Hk Ha. destruct (Hr _ _ Hk) as [Hk'|(row & Hk' & Hst & _ & Hact)].
  - by exists row'.
  - exists row. split_and!; [done|by apply Hact|]. by intros ?.
Qed.

(** ** The outbox over time

    [issued] are the claims handed to workers, the latest first. *)
Record system := { tables : Outbox; issued : list Delivery }.

Inductive request :=
| RPublish (event : option (string * string)) (id cause : string) (traceparent : option string)
    (subs : list string) (now : Time)
| RClaim (token : string) (now : Time) (lease : Duration)
| RAcknowledge (d : Delivery) (now : Time)
| RFail (d : Delivery) (code : string) (terminal : bool) (maxAttempts : nat) (now : Time)
| RReplay (eventID subscriptionID : string) (now : Time)
| RDiscard (eventID subscriptionID : string) (now : Time).

Definition perform (r : request) (s : system) : system :=
  let only (o : Outbox) := {| tables := o; issued := issued s |} in
  match r with
  | RPublish event id cause tp subs now => only (Publish event id cause tp subs now (tables s)).2
  | RClaim token now lease =>
      match Claim token now lease (tables s) with
      | (Ok d, o) => {| tables := o; issued := d :: issued s |}
      | (Err _, o) => only o
      end
  | RAcknowledge d now => only (Acknowledge d now (tables s)).2
  | RFail d code terminal maxAttempts now =>
      only (Fail_ d code terminal maxAttempts now (tables s)).2
  | RReplay eventID subscriptionID now => only (Replay eventID subscriptionID now (tables s)).2
  | RDiscard eventID subscriptionID now => only (Discard eventID subscriptionID now (tables s)).2
  end.

(** A claim's token is new ([uuid.NewString]). *)
Definition tokenFresh (r : request) (s : system) : Prop :=
  match r with RClaim token _ _ => ∀ d, d ∈ issued s → Token d ≠ token | _ => True end.

Inductive step : system → system → Prop :=
| step_request r s : tokenFresh r s → step s (perform r s).

(** A step other than [Replay]. *)
Definition isReplay (r : request) : bool := match r with RReplay _ _ _ => true | _ => false end.
Inductive step_ordered : system → system → Prop :=
| step_ordered_request r s :
    tokenFresh r s → isReplay r = false → step_ordered s (perform r s).

Definition newSystem : system := {| tables := emptyOutbox; issued := [] |}.

Lemma perform_wf r s : wf (tables s) → wf (tables (perform r s)).
Proof.
  intros Hs. destruct r; simpl; auto using Publish_wf, Acknowledge_wf, Fail_wf, Replay_wf, Discard_wf.
  pose proof (Claim_wf token now lease _ Hs) as Hc.
  by destruct (Claim token now lease (tables s)) as [[d|e] o].
Qed.

Lemma reachable_wf s : rtc step newSystem s → wf (tables s).
Proof.
  intros Hr. assert (wf (tables newSystem)) as H0 by apply empty_wf.
  induction Hr as [|s0 s1 s2 H01 _ IH]; [done|]. apply IH.
  destruct H01. by apply perform_wf.
Qed.

(** The token in a row is that of the latest claim issued for it. *)
Definition latestClaim (s : system) (k : string * string) (t : string) : Prop :=
  ∃ l1 d l2, issued s = l1 ++ d :: l2 ∧ key d = k ∧ Token d = t ∧ ∀ d', d' ∈ l1 → key d' ≠ k.
Record fenced (s : system) : Prop := {
  fe_wf : wf (tables s);
  fe_tokens : NoDup (Token <$> issued s);
  fe_latest : ∀ k row t, deliveries (tables s) !! k = Some row → lease_token row = Some t →
    latestClaim s k t;
}.

(** Statements that lease nothing keep the fence. *)
Lemma fenced_same s o :
  fenced s → wf o →
  (∀ k row' t, deliveries o !! k = Some row' → lease_token row' = Some t →
     ∃ row, deliveries (tables s) !! k = Some row ∧ lease_token row = Some t) →
  fenced {| tables := o; issued := issued s |}.
Proof.
  intros [Hw Ht Hl] Ho Hsub. constructor; simpl; [done|done|].
  intros k row' t Hk Hrow. destruct (Hsub _ _ _ Hk Hrow) as (row & Hr & Hlt). by eapply Hl.
Qed.

Lemma releases_tokens o o' k row' t :
  releases o o' → deliveries o' !! k = Some row' → lease_token row' = Some t →
  ∃ row, deliveries o !! k = Some row ∧ lease_token row = Some t.
Proof.
  intros [_ Hr] Hk Ht. destruct (Hr _ _ Hk) as [Hk'|(row & _ & _ & Hn & _)]; [eauto|congruence].
Qed.

Lemma Publish_tokens event id cause tp subs now o k row' t :
  deliveries (Publish event id cause tp subs now o).2 !! k = Some row' →
  lease_token row' = Some t → deliveries o !! k = Some row'.
Proof.
  destruct (Publish event id cause tp subs now o) as [[[]|e] o'] eqn:Hp; simpl.
  - apply Publish_spec in Hp as [[_ ->]|(?&?&_&_&_&_&_&_&_&Hd)]; [done|].
    rewrite Hd. case_bool_decide; [by intros [= <-]|done].
  - by apply Publish_err in Hp as ->.
Qed.

Lemma Replay_row id sub now o k row' :
  deliveries (Replay id sub now o).2 !! k = Some row' →
  deliveries o !! k = Some row' ∨
  ∃ row, deliveries o !! k = Some row ∧ lease_token row' = lease_token row ∧
         isFailed row = true ∧ status row' = DeliveryStatusPending.
Proof.
  destruct (Replay _ _ _ o) as [r o'] eqn:Hu.
  apply updateRow_inv in Hu as [(_ & -> & _)|(row & _ & Hk & Hf & ->)]; simpl; [by left|].
  intros [[<- <-]|[_ Hr]]%lookup_insert_Some; [right; by exists row|by left].
Qed.

Lemma perform_fenced r s : tokenFresh r s → fenced s → fenced (perform r s).
Proof.
  intros Hfresh Hs. pose proof (perform_wf r s (fe_wf _ Hs)) as Hw'.
  destruct r; simpl in *.
  - apply fenced_same; [done|done|]. intros k row' t Hk Ht.
    exists row'. split; [by eapply Publish_tokens|done].
  - destruct (Claim token now lease (tables s)) as [res o] eqn:Hc.
    apply Claim_inv in Hc as [[-> ->]|(c & row & Hf & Hk & -> & ->)]; [by destruct s|].
    destruct Hs as [Hw Ht Hl]. constructor; simpl; [done| |].
    + constructor; [|done]. intros (d & Hd & Hin)%list_elem_of_fmap.
      by apply (Hfresh d).
    + intros k r t. rewrite lookup_insert_Some. intros [[<- <-]|[Hne Hr]] Hlt.
      * simpl in Hlt. simplify_eq. eexists [], _, _. split; [done|].
        unfold key. simpl. split; [by destruct (c_key c)|]. split; [done|set_solver].
      * destruct (Hl _ _ _ Hr Hlt) as (l1 & d & l2 & Hi & Hkd & Htd & Hno).
        eexists (_ :: l1), d, l2. simpl. rewrite Hi. split_and!; [done|done|done|].
        intros d' [->|Hd']%elem_of_cons; [|by apply Hno].
        unfold key. simpl. by destruct (c_key c).
  - apply fenced_same; [done|done|]. intros k row' t. apply releases_tokens, Acknowledge_releases.
  - apply fenced_same; [done|done|]. intros k row' t. apply releases_tokens, Fail_releases.
  - apply fenced_same; [done|done|]. intros k row' t Hk Ht.
    destruct (Replay_row _ _ _ _ _ _ Hk) as [?|(row & Hr & Heq & _)]; [eauto|].
    exists row. split; [done|congruence].
  - apply fenced_same; [done|done|]. intros k row' t. apply releases_tokens, Discard_releases, Hs.
Qed.

Lemma reachable_fenced s : rtc step newSystem s → fenced s.
Proof.
  intros Hr. assert (fenced newSystem) as H0.
  { constructor; simpl; [apply empty_wf|constructor|]. intros k row t. by rewrite lookup_empty. }
  induction Hr as [|s0 s1 s2 H01 _ IH]; [done|]. apply IH.
  destruct H01. by apply perform_fenced.
Qed.

(** Head of line: *)
Lemma Claim_head token now lease o : head_of_line o → head_of_line (Claim token now lease o).2.
Proof.
  intros Ho. destruct (Claim _ _ _ o) as [res o'] eqn:Hc.
  apply Claim_inv in Hc as [[_ ->]|(c & row & Hf & Hk & _ & ->)]; [done|]. simpl.
  apply firstCandidate_spec in Hf as [Hin _].
  apply elem_of_candidates in Hin as (row0 & Hk0 & Hseq & Hdue & He & _).
  rewrite Hk in Hk0. injection Hk0 as <-.
  intros id id' sub r r' s s' Hr Hst Hr' Ha Hs Hs'.
  change (sequenceOf o id = Some s) in Hs. change (sequenceOf o id' = Some s') in Hs'. simpl in *.
  assert (∃ r0', deliveries o !! (id', sub) = Some r0' ∧ isActive r0' = true) as (r0' & Hr0' & Ha0').
  { apply lookup_insert_Some in Hr' as [[<- <-]|[_ Hr']]; [|eauto].
    exists row. split; [done|]. by eapply isDue_active. }
  apply lookup_insert_Some in Hr as [[Heq <-]|[_ Hr]]; [|by eapply (Ho id id' sub r r0')].
  destruct (decide (s ≤ s')) as [|Hlt]; [done|exfalso].
  assert (earlierActive o (c_key c).2 (c_sequence c) = true) as Ht; [|congruence].
  apply earlierActive_spec. rewrite Heq in *. simpl in *.
  assert (s = c_sequence c) as -> by congruence.
  exists id', r0', s'. split_and!; [done..|lia].
Qed.

Lemma Publish_head event id cause tp subs now o :
  wf o → head_of_line o → head_of_line (Publish event id cause tp subs now o).2.
Proof.
  intros Hw Ho. destruct (Publish event id cause tp subs now o) as [[[]|e] o'] eqn:Hp; simpl; cycle 1.
  { by apply Publish_err in Hp as ->. }
  apply Publish_spec in Hp as [[_ ->]|(ty & pl & _ & _ & _ & _ & Hid & _ & Hev & Hd)]; [done|].
  intros i i' sub r r' s s' Hr Hst Hr' Ha Hs Hs'. rewrite Hd in Hr. simpl in *.
  case_bool_decide as Hi; [injection Hr as <-; simpl in Hst; discriminate Hst|].
  assert (is_Some (events o !! i)) as [ri Hri] by (by apply (wf_fk _ Hw (i, sub) r)).
  assert (i ≠ id) as Hne by (intros ->; by rewrite Hid in Hri).
  unfold sequenceOf in Hs, Hs'. rewrite Hev in Hs, Hs'. rewrite lookup_insert_ne in Hs by done.
  rewrite Hd in Hr'. simpl in Hr'. case_bool_decide as Hi'.
  - destruct Hi' as [-> _]. rewrite lookup_insert_eq in Hs'. simpl in Hs'. simplify_eq.
    rewrite Hri in Hs. simpl in Hs. simplify_eq. pose proof (wf_sequence _ Hw _ _ Hri). lia.
  - assert (is_Some (events o !! i')) as [ri' Hri'] by (by apply (wf_fk _ Hw (i', sub) r')).
    rewrite lookup_insert_ne in Hs' by (intros ->; by rewrite Hid in Hri').
    by eapply (Ho i i' sub r r').
Qed.

Lemma perform_head r s :
  isReplay r = false → wf (tables s) → head_of_line (tables s) → head_of_line (tables (perform r s)).
Proof.
  intros Hr Hw Ho. destruct r; simpl in *; try done.
  - by apply Publish_head.
  - pose proof (Claim_head token now lease _ Ho) as Hc.
    by destruct (Claim token now lease (tables s)) as [[d|e] o].
  - eapply releases_head, Ho. apply Acknowledge_releases.
  - eapply releases_head, Ho. apply Fail_releases.
  - eapply releases_head, Ho. by apply Discard_releases.
Qed.

(** ** Properties *)

(** The outbox tables stay consistent under every request, in any order and
    with any arguments: deliveries belong to stored events, sequence numbers
    are unique and below the next one, exactly the deliveries in processing
    have a lease and a token, and every stored event still has something to
    deliver, so a fully delivered event is gone. *)
Theorem outbox_tables_consistent s (Hr : rtc step newSystem s) : wf (tables s).
Proof. by apply reachable_wf. Qed.

(** Publication is all or nothing: it either adds exactly one event, with
    the highest sequence number, and one pending delivery per subscriber that
    is due at once, or changes nothing; without subscribers nothing is
    stored. *)
Theorem publish_fans_out event id cause tp subs now o :
  match Publish event id cause tp subs now o with
  | (Err _, o') => o' = o
  | (Ok _, o') =>
      (subs = [] ∧ o' = o) ∨
      ∃ row, events o !! id = None ∧ events o' = <[id := row]> (events o) ∧
        sequence row = next_sequence o ∧ next_sequence o' = S (next_sequence o) ∧
        NoDup subs ∧ Some (event_type row, payload row) = event ∧
        (∀ k, (k.1 = id ∧ k.2 ∈ subs →
                 ∃ d, deliveries o' !! k = Some d ∧ isDue now d = true ∧ attempts d = 0) ∧
              (¬ (k.1 = id ∧ k.2 ∈ subs) → deliveries o' !! k = deliveries o !! k))
  end.
Proof.
  destruct (Publish event id cause tp subs now o) as [[[]|e] o'] eqn:Hp.
  - apply Publish_spec in Hp as [?|(ty & pl & -> & Hne & _ & Hnd & Hid & Hn & Hev & Hd)]; [by left|].
    right. eexists. split_and!; [done|done|done|done|done|done|].
    intros k. rewrite Hd. split; intros Hk.
    + rewrite bool_decide_eq_true_2 by done. eexists. split; [done|]. simpl.
      split; [|done]. unfold isDue. simpl. by apply Z.leb_le.
    + by rewrite bool_decide_eq_false_2.
  - by apply Publish_err in Hp.
Qed.

(** A claim leases a due delivery that no earlier active delivery of its
    subscription precedes, and among those the one that became available first
    (then the oldest event); it changes that row only. It finds nothing exactly
    when every due delivery waits behind an earlier active one. *)
Theorem claim_takes_oldest_due token now lease o :
  match Claim token now lease o with
  | (Ok d, o') =>
      ∃ row seq, deliveries o !! key d = Some row ∧ isDue now row = true ∧
        sequenceOf o (EventID d) = Some seq ∧
        earlierActive o (SubscriptionID d) seq = false ∧
        Token d = token ∧ Attempts d = S (attempts row) ∧
        o' = setTables o (events o)
               (<[key d := leaseRow token (now + lease) now row]> (deliveries o)) ∧
        ∀ c, c ∈ candidates o now →
          candidateLess c {| c_available := available_at row; c_sequence := seq;
                             c_key := key d |} = false
  | (Err e, o') =>
      e = ErrNoRows ∧ o' = o ∧
      ∀ k row seq, deliveries o !! k = Some row → sequenceOf o k.1 = Some seq →
        isDue now row = true → earlierActive o k.2 seq = true
  end.
Proof.
  destruct (Claim token now lease o) as [r o'] eqn:Hc.
  pose proof Hc as Hinv. apply Claim_inv in Hinv as [[-> ->]|(c & row & Hf & Hk & -> & ->)].
  - split_and!; [done|done|]. intros k row seq Hk Hs Hd.
    destruct (earlierActive o k.2 seq) eqn:He; [done|exfalso].
    assert ({| c_available := available_at row; c_sequence := seq; c_key := k |} ∈ candidates o now)
      as Hin by (apply elem_of_candidates; eauto 10).
    unfold Claim, within_transaction in Hc.
    destruct (firstCandidate (candidates o now)) as [c|] eqn:Hf.
    + apply firstCandidate_spec in Hf as [Hc' _].
      apply elem_of_candidates in Hc' as (row' & Hk' & _). by rewrite Hk' in Hc.
    + apply firstCandidate_None in Hf. rewrite Hf in Hin. by apply elem_of_nil in Hin.
  - apply firstCandidate_spec in Hf as [Hin Hmin].
    apply elem_of_candidates in Hin as (row0 & Hk0 & Hs & Hd & He & Ha).
    rewrite Hk in Hk0. injection Hk0 as <-.
    exists row, (c_sequence c). unfold key. simpl.
    rewrite <- (surjective_pairing (c_key c)), <- Ha. destruct c; simpl in *.
    split_and!; done.
Qed.

(** Fencing: a worker whose claim has been replaced can no longer touch the
    delivery. Once a later claim was issued for the same delivery, the lease
    check, the acknowledgement and the failure report of the earlier claim are
    all refused and change nothing. *)
Theorem replaced_claim_is_fenced s l1 d' l2 d l3 now code terminal maxAttempts
    (Hr : rtc step newSystem s)
    (Hi : issued s = l1 ++ d' :: l2 ++ d :: l3) (Hk : key d' = key d) :
  CheckLease d now (tables s) = (Err ErrLeaseLost, tables s) ∧
  Acknowledge d now (tables s) = (Err ErrLeaseLost, tables s) ∧
  Fail_ d code terminal maxAttempts now (tables s) = (Err ErrLeaseLost, tables s).
Proof.
  pose proof (reachable_fenced _ Hr) as [_ Hnd Hl].
  assert (∀ row, deliveries (tables s) !! key d = Some row → holdsToken d row = false) as Hno.
  { intros row Hrow. unfold holdsToken. destruct (bool_decide (lease_token row = Some (Token d))) eqn:Ht;
      [|apply andb_false_r].
    apply bool_decide_eq_true in Ht. exfalso.
    destruct (Hl _ _ _ Hrow Ht) as (m1 & x & m2 & Hm & Hkx & Htx & Hbefore).
    assert (x = d) as ->.
    { assert (x ∈ issued s) as Hx by (rewrite Hm; set_solver).
      assert (d ∈ issued s) as Hd by (rewrite Hi; set_solver).
      apply list_elem_of_lookup in Hx as [i Hxi], Hd as [j Hdj].
      assert (i = j) as ->; [|congruence].
      eapply (NoDup_lookup (Token <$> issued s)); [done|..].
      - rewrite list_lookup_fmap, Hxi. simpl. by rewrite Htx.
      - by rewrite list_lookup_fmap, Hdj. }
    apply (Hbefore d'); [|done].
    assert (before (issued s) d' d) as Hb by (exists l1, l2, l3; by rewrite Hi).
    rewrite Hm in Hb. apply before_app in Hb as [Hb|[[Hb _]|Hb]]; [..|exfalso].
    - by apply before_elem in Hb as [? _].
    - done.
    - assert (NoDup (issued s)) as Hnd2 by (by eapply NoDup_fmap_1).
      rewrite Hm in Hnd2. apply NoDup_app in Hnd2 as (_ & _ & [Hnin _]%NoDup_cons).
      apply before_cons in Hb as [[_ Hb]|Hb]; [done|]. apply before_elem in Hb as [_ Hb]. done. }
  assert (∀ f, updateRow (key d) (holdsToken d) f (tables s) = (Err ErrLeaseLost, tables s)) as Hu1.
  { intros f. unfold updateRow. destruct (deliveries (tables s) !! key d) as [row|] eqn:Hrow; [|done].
    by rewrite Hno. }
  assert (∀ now f, updateRow (key d) (λ row, holdsToken d row && leaseValid now row) f (tables s)
    = (Err ErrLeaseLost, tables s)) as Hu2.
  { intros nw f. unfold updateRow. destruct (deliveries (tables s) !! key d) as [row|] eqn:Hrow; [|done].
    by rewrite Hno. }
  split_and!.
  - unfold CheckLease. destruct (deliveries (tables s) !! key d) as [row|] eqn:Hrow; [|done].
    by rewrite Hno.
  - unfold Acknowledge, st_bind. by rewrite Hu2.
  - unfold Fail_, within_transaction. by rewrite Hu1.
Qed.

(** C28. Without explicit replays the deliveries of a subscription are processed
    one at a time and in publication order: two deliveries of one subscription
    are never leased together, and what is leased precedes everything that
    still waits. *)
Theorem subscription_in_order s (Hr : rtc step_ordered newSystem s) :
  head_of_line (tables s) ∧
  ∀ id id' sub row row',
    deliveries (tables s) !! (id, sub) = Some row → status row = DeliveryStatusProcessing →
    deliveries (tables s) !! (id', sub) = Some row' → status row' = DeliveryStatusProcessing →
    id = id'.
Proof.
  assert (wf (tables s) ∧ head_of_line (tables s)) as [Hw Hh].
  { assert (wf (tables newSystem) ∧ head_of_line (tables newSystem)) as H0.
    { split; [apply empty_wf|]. intros ??????? Hx. simpl in Hx. by rewrite lookup_empty in Hx. }
    induction Hr as [|s0 s1 s2 H01 _ IH]; [done|]. apply IH.
    destruct H01 as [r s0 _ Hrep], H0. split; [by apply perform_wf|by apply perform_head]. }
  split; [done|]. intros id id' sub row row' H1 Hs1 H2 Hs2.
  destruct (wf_fk _ Hw _ _ H1) as [e1 He1], (wf_fk _ Hw _ _ H2) as [e2 He2]. simpl in *.
  eapply (wf_unique _ Hw); [done|done|].
  assert (∀ r, status r = DeliveryStatusProcessing → isActive r = true) as Ha.
  { intros r Hst. unfold isActive. by rewrite Hst. }
  assert (sequenceOf (tables s) id = Some (sequence e1)) as Hq1 by (unfold sequenceOf; by rewrite He1).
  assert (sequenceOf (tables s) id' = Some (sequence e2)) as Hq2 by (unfold sequenceOf; by rewrite He2).
  pose proof (Hh id id' sub row row' _ _ H1 Hs1 H2 (Ha _ Hs2) Hq1 Hq2).
  pose proof (Hh id' id sub row' row _ _ H2 Hs2 H1 (Ha _ Hs1) Hq2 Hq1). lia.
Qed.

(** The retry delay doubles with every attempt from two seconds and never
    exceeds five minutes, without overflowing the duration; a failure report
    of the current claim parks the delivery exactly when it is terminal or the
    attempts are used up, and otherwise makes it due again after the delay. *)
Theorem failure_backs_off d code terminal maxAttempts now o row
    (Hk : deliveries o !! key d = Some row) (Ht : holdsToken d row = true) :
  (∀ n, backoff n = Z.min (second * 2 ^ Z.min (Z.of_nat n) 9) (300 * second) ∧
        (second ≤ backoff n ≤ maxRetryBackoff)%Z ∧ (backoff n ≤ backoff (S n))%Z ∧
        (second * 2 ^ Z.min (Z.of_nat n) 9 ≤ max_int64)%Z)%Z ∧
  ∃ row', (Fail_ d code terminal maxAttempts now o) =
            (Ok (), setTables o (events o) (<[key d := row']> (deliveries o))) ∧
    attempts row' = attempts row ∧ last_error row' = Some code ∧
    (status row' = DeliveryStatusFailed ↔ terminal = true ∨ maxAttempts ≤ Attempts d) ∧
    (status row' = DeliveryStatusFailed ∨ status row' = DeliveryStatusPending) ∧
    (∀ t, status row' = DeliveryStatusPending →
       isDue t row' = (now + backoff (Attempts d) <=? t)%Z).
Proof.
  split.
  { intros n. unfold backoff, maxRetryBackoff, minute, second, maxBackoffExponent, max_int64.
    rewrite !Z.shiftl_1_l.
    replace (Z.of_nat (n `min` 9)) with (Z.min (Z.of_nat n) 9) by lia.
    replace (Z.of_nat (S n `min` 9)) with (Z.min (Z.of_nat n + 1) 9) by lia.
    assert (2 ^ Z.min (Z.of_nat n) 9 ≤ 2 ^ Z.min (Z.of_nat n + 1) 9)%Z by (apply Z.pow_le_mono_r; lia).
    assert (2 ^ 0 ≤ 2 ^ Z.min (Z.of_nat n) 9)%Z by (apply Z.pow_le_mono_r; lia).
    assert (2 ^ Z.min (Z.of_nat n) 9 ≤ 2 ^ 9)%Z by (apply Z.pow_le_mono_r; lia).
    change (2 ^ 0)%Z with 1%Z in *. change (2 ^ 9)%Z with 512%Z in *. lia. }
  unfold Fail_, within_transaction, updateRow. rewrite Hk, Ht. eexists. split; [done|]. simpl.
  destruct terminal; simpl; [naive_solver|].
  destruct (maxAttempts <=? Attempts d) eqn:Hm.
  - apply Nat.leb_le in Hm. naive_solver.
  - apply Nat.leb_gt in Hm. split_and!; [done|done| |auto|done].
    split; [done|]. intros [?|?]; [done|lia].
Qed.

(** ** A concrete run: a lease expires and the delivery is claimed again *)
Definition demoPublished : system :=
  perform (RPublish (Some ("DeploySuccess", "{}")) "e1" "" None ["history"] 1) newSystem.
Definition demoLeased : system := perform (RClaim "t1" 2 10) demoPublished.
Definition demoReleased : system := perform (RClaim "t2" 12 10) demoLeased.

Definition demoClaim (token : string) (n : nat) : Delivery :=
  {| EventID := "e1"; SubscriptionID := "history"; Token := token; Attempts := n |}.

Lemma demoLeased_issued : issued demoLeased = [demoClaim "t1" 1].
Proof. vm_compute. reflexivity. Qed.
Lemma demoReleased_issued : issued demoReleased = [demoClaim "t2" 2; demoClaim "t1" 1].
Proof. vm_compute. reflexivity. Qed.

Lemma demoReleased_ordered : rtc step_ordered newSystem demoReleased.
Proof.
  eapply rtc_l; [by apply (step_ordered_request
    (RPublish (Some ("DeploySuccess", "{}")) "e1" "" None ["history"] 1))|].
  fold demoPublished.
  eapply rtc_l; [apply (step_ordered_request (RClaim "t1" 2 10)); [|done]|].
  { intros d Hd. by apply elem_of_nil in Hd. }
  fold demoLeased. apply rtc_once, (step_ordered_request (RClaim "t2" 12 10)); [|done].
  intros d. rewrite demoLeased_issued. by intros ->%list_elem_of_singleton.
Qed.

Lemma demoReleased_reachable : rtc step newSystem demoReleased.
Proof.
  pose proof demoReleased_ordered as Hr. induction Hr as [|a b c [r s Hf _] _ IH]; [constructor|].
  eapply rtc_l; [by constructor|done].
Qed.

Lemma outbox_tables_consistent_witness :
  rtc step newSystem demoReleased ∧ wf (tables demoReleased).
Proof.
  split; [apply demoReleased_reachable|].
  apply (outbox_tables_consistent demoReleased), demoReleased_reachable.
Defined.

Lemma replaced_claim_is_fenced_witness :
  Acknowledge (demoClaim "t1" 1) 3 (tables demoReleased) = (Err ErrLeaseLost, tables demoReleased).
Proof.
  apply (replaced_claim_is_fenced demoReleased [] (demoClaim "t2" 2) [] (demoClaim "t1" 1) [] 3 ""
    false 0); [apply demoReleased_reachable|apply demoReleased_issued|reflexivity].
Defined.

Lemma subscription_in_order_witness :
  rtc step_ordered newSystem demoReleased ∧ head_of_line (tables demoReleased).
Proof.
  split; [apply demoReleased_ordered|].
  apply (subscription_in_order demoReleased), demoReleased_ordered.
Defined.

Lemma failure_backs_off_witness :
  ∃ row, deliveries (tables demoReleased) !! ("e1", "history") = Some row ∧
  ∃ row', Fail_ (demoClaim "t2" 2) "handler_failed" false 12 20 (tables demoReleased) =
    (Ok (), setTables (tables demoReleased) (events (tables demoReleased))
              (<[("e1", "history") := row']> (deliveries (tables demoReleased)))) ∧
  attempts row' = attempts row.
Proof.
  eexists. split; [vm_compute; reflexivity|].
  destruct (failure_backs_off (demoClaim "t2" 2) "handler_failed" false 12 20
    (tables demoReleased) {| status := DeliveryStatusProcessing; attempts := 2; available_at := 1;
      lease_until := Some 22%Z; lease_token := Some "t2"; last_error := None;
      updated_at := 12 |}) as [_ (row' & H1 & H2 & _)].
  - vm_compute. reflexivity.
  - vm_compute. reflexivity.
  - exists row'. split; [exact H1|exact H2].
Defined.
