(* ===== verification/OutboxWorker.v ===== *)
(** * Event dispatch and delivery ([internal/modules/event/dispatcher],
    [outbox/delivery_worker.go])

    Subscribers register under a stable identity; a publication fans out to the
    identities registered for its type; a worker claims a delivery, runs its
    handler and acknowledges it. A database handler runs in the transaction of
    the acknowledgement, an external one outside of it. Handlers, the payload
    codec and the clock are parameters. *)
From S2P Require Import Prelude Outbox.
From S2P Require Events.

Section Worker.
(** The decoded event, the application's tables and the world outside the
    database. *)
Context {Ev App Ext : Type}.

(** [outbox.Publication] *)
Record Publication := {
  pub_Type : string; pub_ID : string; OccurredAt : Time; PublicationSequence : nat;
  pub_Event : Ev; Traceparent : option string;
}.

(** What the handlers can reach. *)
Record World := { ob : Outbox; app : App; ext : Ext }.

Inductive handlerResult := Returned (err : option string) | Panicked.

(** [outbox.DeliveryHandler] *)
Record DeliveryHandler := {
  Handle : Publication → World → handlerResult * World;
  External : bool;
}.

(** [repository.WithinTransaction]: a failing body is rolled back in the
    database; what happened outside stays. *)
Definition transaction {A} (m : St World outboxError A) : St World outboxError A :=
  λ w, match m w with
       | (Ok a, w') => (Ok a, w')
       | (Err e, w') => (Err e, {| ob := ob w; app := app w; ext := ext w' |})
       end.

(** A repository statement. *)
Definition statement {A} (m : St Outbox outboxError A) : St World outboxError A :=
  λ w, let '(r, o) := m (ob w) in (r, {| ob := o; app := app w; ext := ext w |}).

(** [invoke]: a panic becomes an error. *)
Definition invoke (h : DeliveryHandler) (p : Publication) : St World outboxError () :=
  λ w, match Handle h p w with
       | (Returned None, w') => (Ok (), w')
       | (Returned (Some err), w') => (Err (ErrHandler err), w')
       | (Panicked, w') => (Err (ErrHandler "outbox handler panicked"), w')
       end.

(** [codec.Decode] of a stored payload. *)
Context (decode : string → nat → string → option Ev).

(** [publicationRow.publication] *)
Definition publication (id : string) (row : EventRow) : Result outboxError Publication :=
  match decode (event_type row) (schema_version row) (payload row) with
  | Some ev => Ok {| pub_Type := event_type row; pub_ID := id; OccurredAt := occurred_at row;
                     PublicationSequence := sequence row; pub_Event := ev;
                     Traceparent := traceparent row |}
  | None => Err ErrInvalidPayload
  end.

(** [Repository.Load] *)
Definition Load (d : Delivery) : St World outboxError Publication :=
  λ w, match events (ob w) !! EventID d with
       | None => (Err ErrNoRows, w)
       | Some row => (publication (EventID d) row, w)
       end.

(** ** The registry *)

(** [OutboxDispatcher.registry] and [started]. *)
Record Registry := {
  registry : gmap string (gmap string DeliveryHandler);
  registryStarted : bool;
}.

Inductive subscribeError :=
| AlreadyStarted | UnknownType (typ : string) | MissingHandler | DuplicateSubscription (id : string).

(** [OutboxDispatcher.Subscribe] *)
Definition Subscribe (typ id : string) (handler : option DeliveryHandler) (b : Registry)
    : option subscribeError * Registry :=
  if registryStarted b then (Some AlreadyStarted, b)
  else match Events.ParseType typ with
       | None => (Some (UnknownType typ), b)
       | Some _ =>
           match handler with
           | None => (Some MissingHandler, b)
           | Some h =>
               if bool_decide (id = "") then (Some MissingHandler, b)
               else
                 let handlers := default ∅ (registry b !! typ) in
                 match handlers !! id with
                 | Some _ => (Some (DuplicateSubscription id), b)
                 | None => (None, {| registry := <[typ := <[id := h]> handlers]> (registry b);
                                     registryStarted := false |})
                 end
           end
       end.

(** [SubscribeMany] *)
Fixpoint SubscribeMany (types : list string) (id : string) (handler : option DeliveryHandler)
    (b : Registry) : option subscribeError * Registry :=
  match types with
  | [] => (None, b)
  | typ :: types =>
      match Subscribe typ id handler b with
      | (Some err, b') => (Some err, b')
      | (None, b') => SubscribeMany types id handler b'
      end
  end.

Definition markStarted (b : Registry) : Registry :=
  {| registry := registry b; registryStarted := true |}.

(** [resolve] *)
Definition resolve (b : Registry) (typ id : string) : option DeliveryHandler :=
  match registry b !! typ with Some handlers => handlers !! id | None => None end.

(** [OutboxDispatcher.Publish]; the range over the map gives the identities in
    some order, here that of [map_to_list]. *)
Definition dispatch (b : Registry) (event : option (string * string)) (id cause : string)
    (tp : option string) (now : Time) : St World outboxError () :=
  match event with
  | None => st_throw ErrNilEvent
  | Some (typ, _) =>
      let ids := (map_to_list (default ∅ (registry b !! typ))).*1 in
      statement (Publish event id cause tp ids now)
  end.

(** ** One delivery *)

(** The clock readings of a delivery. *)
Record clock := { claimedAt : Time; checkedAt : Time; ackedAt : Time; failedAt : Time }.

Definition defaultLease : Duration := (5 * minute)%Z.
Definition defaultMaxAttempts : nat := 12.
Definition defaultWorkerCount : nat := 4.

(** [Worker.Process] *)
Definition Process (b : Registry) (t : clock) (d : Delivery) : St World outboxError () :=
  λ w, match Load d w with
       | (Err ErrInvalidPayload, w1) =>
           (Err (ErrInvalidDelivery "unsupported_or_invalid_payload"), w1)
       | (Err err, w1) => (Err err, w1)
       | (Ok p, w1) =>
           match resolve b (pub_Type p) (SubscriptionID d) with
           | None => (Err (ErrInvalidDelivery "subscription_missing"), w1)
           | Some h =>
               if External h then
                 st_bind (statement (CheckLease d (checkedAt t))) (λ _,
                 st_bind (invoke h p) (λ _,
                 transaction (statement (Acknowledge d (ackedAt t))))) w1
               else
                 transaction (
                   st_bind (statement (CheckLease d (checkedAt t))) (λ _,
                   st_bind (invoke h p) (λ _,
                   statement (Acknowledge d (ackedAt t))))) w1
           end
       end.

Definition failureCode (e : outboxError) : string * bool :=
  match e with
  | ErrInvalidDelivery code => (code, true)
  | _ => ("handler_failed", false)
  end.

(** [Worker.ProcessNext]: whether a delivery was handled, and the error. *)
Definition ProcessNext (b : Registry) (token : string) (lease : Duration) (maxAttempts : nat)
    (t : clock) (w : World) : (bool * option outboxError) * World :=
  match statement (Claim token (claimedAt t) lease) w with
  | (Err ErrNoRows, w1) => ((false, None), w1)
  | (Err err, w1) => ((false, Some err), w1)
  | (Ok d, w1) =>
      match Process b t d w1 with
      | (Ok _, w2) => ((true, None), w2)
      | (Err err, w2) =>
          let '(code, terminal) := failureCode err in
          match statement (Fail_ d code terminal maxAttempts (failedAt t)) w2 with
          | (Ok _, w3) => ((true, None), w3)
          | (Err retryErr, w3) => ((true, Some retryErr), w3)
          end
      end
  end.

(** ** What a processed delivery leaves behind *)

(** The delivery is done: its row is gone or delivered. *)
Definition completed (k : string * string) (o : Outbox) : Prop :=
  ∀ row, deliveries o !! k = Some row → status row = DeliveryStatusDelivered.

Lemma Acknowledge_completed d now o o' :
  Acknowledge d now o = (Ok (), o') →
  completed (key d) o' ∧
  ∃ row, deliveries o !! key d = Some row ∧ holdsToken d row = true ∧ leaseValid now row = true.
Proof.
  unfold Acknowledge, st_bind. destruct (updateRow _ _ _ o) as [r o1] eqn:Hu.
  apply updateRow_inv in Hu as [(-> & _)|(row & -> & Hk & Hh & ->)]; [done|].
  intros Hdel. apply andb_true_iff in Hh as [Hh1 Hh2]. split; [|eauto].
  intros row' Hrow. destruct (deleteCompleted_sub (EventID d) (setTables o (events o)
    (<[key d := {| status := DeliveryStatusDelivered; attempts := attempts row;
       available_at := available_at row; lease_until := None; lease_token := None;
       last_error := None; updated_at := now |}]> (deliveries o)))) as (Hsub & _).
  rewrite Hdel in Hsub. simpl in Hsub. eapply lookup_weaken in Hrow; [|exact Hsub].
  rewrite lookup_insert_eq in Hrow. by simplify_eq.
Qed.

Lemma completed_lease_lost d now o :
  completed (key d) o → CheckLease d now o = (Err ErrLeaseLost, o).
Proof.
  intros Hc. unfold CheckLease. destruct (deliveries o !! key d) as [row|] eqn:Hr; [|done].
  unfold holdsToken. by rewrite (Hc _ Hr).
Qed.

Lemma outbox_statement_ok {A} (m : St Outbox outboxError A) w a w' :
  statement m w = (Ok a, w') →
  m (ob w) = (Ok a, ob w') ∧ app w' = app w ∧ ext w' = ext w.
Proof. unfold statement. destruct (m (ob w)) as [r o]. by intros; simplify_eq. Qed.

Lemma transaction_ok {A} (m : St World outboxError A) w a w' :
  transaction m w = (Ok a, w') → m w = (Ok a, w').
Proof. unfold transaction. destruct (m w) as [[|] ?]; by intros; simplify_eq. Qed.

Lemma transaction_err {A} (m : St World outboxError A) w e w' :
  transaction m w = (Err e, w') → ob w' = ob w ∧ app w' = app w.
Proof. unfold transaction. destruct (m w) as [[|] ?]; by intros; simplify_eq. Qed.

Lemma Load_same d w : (Load d w).2 = w.
Proof. unfold Load. by destruct (events (ob w) !! EventID d). Qed.

Lemma invoke_ok h p w w' : invoke h p w = (Ok (), w') → Handle h p w = (Returned None, w').
Proof. unfold invoke. destruct (Handle h p w) as [[[|]|] ?]; by intros; simplify_eq. Qed.

(** A successful delivery, in its parts. *)
Lemma Process_ok b t d w w' :
  Process b t d w = (Ok (), w') →
  ∃ p h w1, Load d w = (Ok p, w) ∧ resolve b (pub_Type p) (SubscriptionID d) = Some h ∧
    CheckLease d (checkedAt t) (ob w) = (Ok (), ob w) ∧
    Handle h p w = (Returned None, w1) ∧
    Acknowledge d (ackedAt t) (ob w1) = (Ok (), ob w') ∧ app w' = app w1 ∧ ext w' = ext w1.
Proof.
  unfold Process. pose proof (Load_same d w) as Hl.
  destruct (Load d w) as [[p|err] w0]; simpl in Hl; subst w0; [|by destruct err].
  destruct (resolve _ _ _) as [h|] eqn:Hres; [|done].
  assert (∀ m, (m = transaction (statement (Acknowledge d (ackedAt t))) ∨
                m = statement (Acknowledge d (ackedAt t))) →
    st_bind (statement (CheckLease d (checkedAt t))) (λ _, st_bind (invoke h p) (λ _, m)) w =
      (Ok (), w') →
    ∃ w1, CheckLease d (checkedAt t) (ob w) = (Ok (), ob w) ∧ Handle h p w = (Returned None, w1) ∧
      Acknowledge d (ackedAt t) (ob w1) = (Ok (), ob w') ∧ app w' = app w1 ∧ ext w' = ext w1) as Hm.
  { intros m Hm Hrun.
    apply (proj1 (st_bind_ok _ _ _ _ _)) in Hrun as ([] & w2 & Hcheck & Hrun).
    apply (proj1 (st_bind_ok _ _ _ _ _)) in Hrun as ([] & w1 & Hinv & Hack).
    assert (statement (Acknowledge d (ackedAt t)) w1 = (Ok (), w')) as Hack'
      by (destruct Hm as [-> | ->]; [by apply transaction_ok|done]).
    apply outbox_statement_ok in Hcheck as (Hc & Happ & Hext), Hack' as (Ha & Happ' & Hext').
    assert (ob w2 = ob w) as Hob.
    { unfold CheckLease in Hc. repeat case_match; by simplify_eq. }
    assert (w2 = w) as -> by (destruct w, w2; simpl in *; congruence).
    apply invoke_ok in Hinv. eauto 10. }
  intros Hrun. exists p, h. destruct (External h).
  - destruct (Hm _ (or_introl eq_refl) Hrun) as (w1 & ?). exists w1. tauto.
  - apply transaction_ok in Hrun.
    destruct (Hm _ (or_intror eq_refl) Hrun) as (w1 & ?). exists w1. tauto.
Qed.
End Worker.

(** ** Properties *)

(** C5. A database handler takes effect exactly once: a successful delivery is
    one run of the registered handler on the decoded event together with its
    acknowledgement, after which the delivery is done and every further attempt
    to process the claim fails; an attempt that fails, panics included, leaves
    the database exactly as it was. *)
Theorem database_delivery_is_exactly_once {Ev App Ext : Type}
    (decode : string → nat → string → option Ev) (b : @Registry Ev App Ext) t d w
    (Hdb : ∀ typ id h, resolve b typ id = Some h → External h = false) :
  match Process decode b t d w with
  | (Ok _, w') =>
      (∃ p h w1, Load decode d w = (Ok p, w) ∧ resolve b (pub_Type p) (SubscriptionID d) = Some h ∧
         Handle h p w = (Returned None, w1) ∧ app w' = app w1 ∧ ext w' = ext w1 ∧
         Acknowledge d (ackedAt t) (ob w1) = (Ok (), ob w')) ∧
      completed (key d) (ob w') ∧
      (∀ t' w'', ob w'' = ob w' → ∃ e w3, Process decode b t' d w'' = (Err e, w3) ∧
         ob w3 = ob w'' ∧ app w3 = app w'')
  | (Err _, w') => ob w' = ob w ∧ app w' = app w
  end.
Proof.
  assert (∀ t' w0 e w', Process decode b t' d w0 = (Err e, w') → ob w' = ob w0 ∧ app w' = app w0)
    as Herr.
  { intros t' w0 e w'. unfold Process. pose proof (Load_same decode d w0) as Hl.
    destruct (Load decode d w0) as [[p|err] w1]; simpl in Hl; subst w1.
    - destruct (resolve b _ _) as [h|] eqn:Hres; [|by intros; simplify_eq].
      rewrite (Hdb _ _ _ Hres). apply transaction_err.
    - destruct err; by intros; simplify_eq. }
  destruct (Process decode b t d w) as [[[]|e] w'] eqn:Hp; [|by eapply Herr].
  apply Process_ok in Hp as (p & h & w1 & Hload & Hres & _ & Hh & Hack & Happ & Hext).
  pose proof (Acknowledge_completed _ _ _ _ Hack) as [Hdone _].
  split_and!; [by exists p, h, w1|done|].
  intros t' w'' Hob. destruct (Process decode b t' d w'') as [[[]|e] w3] eqn:Hp2.
  - apply Process_ok in Hp2 as (? & ? & ? & _ & _ & Hcheck & _).
    rewrite Hob, completed_lease_lost in Hcheck by done. done.
  - exists e, w3. split; [done|]. by eapply Herr.
Qed.

(** A delivery that is not delivered stays when another row is written, or when its own is
    written with another status. *)
Lemma undelivered_insert (m : gmap (string * string) DeliveryRow) k k' row row' :
  m !! k = Some row → status row ≠ DeliveryStatusDelivered →
  (k' = k → status row' ≠ DeliveryStatusDelivered) →
  ∃ r0, <[k' := row']> m !! k = Some r0 ∧ status r0 ≠ DeliveryStatusDelivered.
Proof.
  intros Hk Hst Hown. destruct (decide (k' = k)) as [->|Hne].
  - rewrite lookup_insert_eq. eauto.
  - rewrite lookup_insert_ne by done. eauto.
Qed.

(** The event of a delivery that is not delivered is not deleted. *)
Lemma undelivered_kept o k row id k' row' :
  deliveries o !! k = Some row → status row ≠ DeliveryStatusDelivered → k' ≠ k →
  ∃ r0, deliveries (deleteCompleted id (setTables o (events o) (<[k' := row']> (deliveries o)))).2 !! k = Some r0 ∧
    status r0 ≠ DeliveryStatusDelivered.
Proof.
  intros Hk Hst Hne. exists row. split; [|done]. unfold deleteCompleted.
  destruct (existsb _ _) eqn:He; simpl; [by rewrite lookup_insert_ne|].
  apply map_lookup_filter_Some. rewrite lookup_insert_ne by done. split; [done|].
  simpl. intros Hid. apply not_true_iff_false in He. apply He, pendingDelivery_spec.
  exists k.2, row. simpl. rewrite <- Hid, <- surjective_pairing. by rewrite lookup_insert_ne.
Qed.

(** C29. Nothing that is published gets lost: under any request a delivery that
    is not delivered stays, unless a worker that holds its current, unexpired
    lease acknowledges it or a parked delivery is discarded explicitly. *)
Theorem deliveries_are_not_lost r s k row
    (Hw : wf (tables s)) (Hk : deliveries (tables s) !! k = Some row)
    (Hst : status row ≠ DeliveryStatusDelivered) :
  (∃ row', deliveries (tables (perform r s)) !! k = Some row' ∧
           status row' ≠ DeliveryStatusDelivered) ∨
  (∃ d now, r = RAcknowledge d now ∧ key d = k ∧ holdsToken d row = true ∧
            leaseValid now row = true) ∨
  (∃ now, r = RDiscard k.1 k.2 now ∧ status row = DeliveryStatusFailed).
Proof.
  destruct r; simpl.
  - left. destruct (Publish event id cause traceparent subs now (tables s)) as [[[]|e] o'] eqn:Hp; simpl.
    + apply Publish_spec in Hp as [[_ ->]|(?&?&_&_&_&_&Hid&_&_&Hd)]; [eauto|].
      exists row. split; [|done]. rewrite Hd, bool_decide_eq_false_2; [done|].
      intros [Hk1 _]. destruct (wf_fk _ Hw _ _ Hk) as [ev Hev]. congruence.
    + apply Publish_err in Hp as ->. eauto.
  - left. destruct (Claim token now lease (tables s)) as [res o] eqn:Hc.
    apply Claim_inv in Hc as [[-> ->]|(c & r & _ & Hk' & -> & ->)]; simpl; [eauto|].
    by eapply undelivered_insert.
  - unfold Acknowledge, st_bind. destruct (updateRow _ _ _ (tables s)) as [res o] eqn:Hu.
    apply updateRow_inv in Hu as [(-> & -> & _)|(r & -> & Hk' & Hh & ->)]; [left; eauto|].
    destruct (decide (key d = k)) as [<-|Hne]; [|left; by eapply undelivered_kept].
    right; left. apply andb_true_iff in Hh as [??]. simplify_eq. eauto 10.
  - left. unfold Fail_, within_transaction. destruct (updateRow _ _ _ (tables s)) as [res o] eqn:Hu.
    apply updateRow_inv in Hu as [(-> & -> & _)|(r & -> & Hk' & Hh & ->)]; simpl; [eauto|].
    eapply undelivered_insert; [done..|]. intros _. simpl. by destruct (_ || _).
  - left. unfold Replay. destruct (updateRow _ _ _ (tables s)) as [res o] eqn:Hu.
    apply updateRow_inv in Hu as [(-> & -> & _)|(r & -> & Hk' & Hh & ->)]; simpl; [eauto|].
    by eapply undelivered_insert.
  - unfold Discard, within_transaction, st_bind.
    destruct (updateRow _ _ _ (tables s)) as [res o] eqn:Hu.
    apply updateRow_inv in Hu as [(-> & -> & _)|(r & -> & Hk' & Hh & ->)]; [left; eauto|].
    destruct (decide ((eventID, subscriptionID) = k)) as [<-|Hne].
    + right; right. exists now. simplify_eq. split; [done|]. by apply bool_decide_eq_true in Hh.
    + left. match goal with |- context [deleteCompleted ?i ?o1] =>
        destruct (deleteCompleted_ok i o1) as [o2 Ho2]; rewrite Ho2; simpl;
        pose proof (undelivered_kept _ _ _ i _ {| status := DeliveryStatusDelivered; attempts := attempts r;
          available_at := available_at r; lease_until := lease_until r;
          lease_token := lease_token r; last_error := last_error r; updated_at := now |} Hk Hst Hne) as Hd end.
      by rewrite Ho2 in Hd.
Qed.

(** A dispatched event reaches exactly its subscribers: for every identity
    a delivery is stored if and only if a handler is registered under it for
    the event's type, registration refuses duplicates, unknown types and late
    registrations, and a type without subscribers stores nothing. *)
Theorem dispatch_reaches_subscribers {Ev App Ext : Type} (b : @Registry Ev App Ext)
    typ payload id cause tp now w w'
    (Hw : wf (ob w))
    (Hrun : dispatch b (Some (typ, payload)) id cause tp now w = (Ok (), w')) :
  (∀ sub, is_Some (deliveries (ob w') !! (id, sub)) →
     is_Some (resolve b typ sub) ∨ is_Some (deliveries (ob w) !! (id, sub))) ∧
  (∀ sub, is_Some (resolve b typ sub) → is_Some (deliveries (ob w') !! (id, sub))) ∧
  ((∀ sub, resolve b typ sub = None) → ob w' = ob w) ∧
  (∀ typ' sub h, let '(err, b') := Subscribe typ' sub h b in
     if bool_decide (err = None)
     then h = resolve b' typ' sub ∧ resolve b typ' sub = None ∧
          ∀ t s, (t, s) ≠ (typ', sub) → resolve b' t s = resolve b t s
     else b' = b).
Proof.
  unfold dispatch in Hrun. apply outbox_statement_ok in Hrun as (Hp & _ & _).
  assert (∀ sub, sub ∈ (map_to_list (default ∅ (registry b !! typ))).*1 ↔
                 is_Some (resolve b typ sub)) as Hids.
  { intros sub. unfold resolve. destruct (registry b !! typ) as [hs|]; simpl.
    - rewrite list_elem_of_fmap. split.
      + intros ([s h] & -> & Hin%elem_of_map_to_list). eauto.
      + intros [h Hh]. exists (sub, h). split; [done|]. by apply elem_of_map_to_list.
    - rewrite map_to_list_empty. set_solver. }
  split_and!.
  - intros sub Hs. apply Publish_spec in Hp as [[_ Heq]|(?&?&_&_&_&_&_&_&_&Hd)].
    + rewrite <- Heq. by right.
    + rewrite Hd in Hs. case_bool_decide as Hin; [left; apply Hids; by destruct Hin|by right].
  - intros sub Hs. apply Hids in Hs.
    apply Publish_spec in Hp as [[Heq _]|(?&?&_&_&_&_&_&_&_&Hd)]; [rewrite Heq in Hs; set_solver|].
    rewrite Hd, bool_decide_eq_true_2 by done. eauto.
  - intros Hnone. apply Publish_spec in Hp as [[_ Heq]|(?&?&_&Hne&_)]; [done|].
    destruct Hne. apply elem_of_nil_inv. intros sub Hs%Hids. rewrite Hnone in Hs. by destruct Hs.
  - intros typ' sub h. unfold Subscribe.
    destruct (registryStarted b); [done|]. destruct (Events.ParseType typ'); [|done].
    destruct h as [h|]; [|done]. destruct (bool_decide (sub = "")); [done|].
    destruct (default ∅ (registry b !! typ') !! sub) as [|] eqn:Hdup; [done|].
    rewrite bool_decide_eq_true_2 by done. unfold resolve. simpl. split_and!.
    + by rewrite !lookup_insert_eq.
    + destruct (registry b !! typ'); [exact Hdup|done].
    + intros t s Hne. destruct (decide (t = typ')) as [->|Ht]; [|by rewrite lookup_insert_ne].
      rewrite lookup_insert_eq, lookup_insert_ne by congruence. by destruct (registry b !! typ').
Qed.

(** ** A concrete delivery: the handler counts deployments *)
Definition demoHandler : @DeliveryHandler () nat () :=
  {| Handle := λ _ w, (Returned None, {| ob := ob w; app := S (app w); ext := ext w |});
     External := false |}.
Definition demoRegistry : @Registry () nat () :=
  (Subscribe "DeploySuccess" "history" (Some demoHandler)
     {| registry := ∅; registryStarted := false |}).2.
Definition demoDecode (_ : string) (_ : nat) (_ : string) : option () := Some ().
Definition demoClock : clock := {| claimedAt := 12; checkedAt := 13; ackedAt := 14; failedAt := 15 |}.
Definition demoWorld : @World nat () :=
  {| ob := tables demoReleased; app := 0; ext := () |}.

Lemma demoRegistry_internal typ id h :
  resolve demoRegistry typ id = Some h → External h = false.
Proof.
  unfold resolve. assert (registry demoRegistry = <["DeploySuccess" := <["history" := demoHandler]> ∅]> ∅)
    as -> by (vm_compute; reflexivity).
  intros Hr. destruct (decide (typ = "DeploySuccess")) as [->|Hne].
  - rewrite lookup_insert_eq in Hr. apply lookup_insert_Some in Hr as [[_ <-]|[_ Hr]]; [done|].
    by rewrite lookup_empty in Hr.
  - rewrite lookup_insert_ne in Hr by done. by rewrite lookup_empty in Hr.
Qed.

Lemma database_delivery_is_exactly_once_witness :
  (Process demoDecode demoRegistry demoClock (demoClaim "t2" 2) demoWorld).1 = Ok () ∧
  app (Process demoDecode demoRegistry demoClock (demoClaim "t2" 2) demoWorld).2 = 1 ∧
  completed ("e1", "history")
    (ob (Process demoDecode demoRegistry demoClock (demoClaim "t2" 2) demoWorld).2).
Proof.
  split; [vm_compute; reflexivity|]. split; [vm_compute; reflexivity|].
  pose proof (database_delivery_is_exactly_once demoDecode demoRegistry demoClock
    (demoClaim "t2" 2) demoWorld demoRegistry_internal) as H.
  destruct (Process demoDecode demoRegistry demoClock (demoClaim "t2" 2) demoWorld)
    as [[u|e] w'] eqn:Hp.
  - apply H.
  - exfalso. assert (Hx : (Process demoDecode demoRegistry demoClock (demoClaim "t2" 2) demoWorld).1
      = Ok ()) by (vm_compute; reflexivity).
    rewrite Hp in Hx. discriminate Hx.
Defined.

Lemma deliveries_are_not_lost_witness :
  ∃ row', deliveries (tables (perform (RClaim "t3" 30 10) demoReleased)) !! ("e1", "history")
            = Some row' ∧ status row' ≠ DeliveryStatusDelivered.
Proof.
  destruct (deliveries_are_not_lost (RClaim "t3" 30 10) demoReleased ("e1", "history")
    {| status := DeliveryStatusProcessing; attempts := 2; available_at := 1;
       lease_until := Some 22%Z; lease_token := Some "t2"; last_error := None; updated_at := 12 |})
    as [H|[(d & now & H & _)|(now & H & _)]].
  - apply reachable_wf, demoReleased_reachable.
  - vm_compute. reflexivity.
  - discriminate.
  - exact H.
  - discriminate H.
  - discriminate H.
Defined.

Definition demoEmptyWorld : @World nat () := {| ob := emptyOutbox; app := 0; ext := () |}.

Lemma dispatch_reaches_subscribers_witness :
  is_Some (deliveries (ob (dispatch demoRegistry (Some ("DeploySuccess", "{}")) "e1" "" None 1
    demoEmptyWorld).2) !! ("e1", "history")).
Proof.
  apply (dispatch_reaches_subscribers demoRegistry "DeploySuccess" "{}" "e1" "" None 1
    demoEmptyWorld).
  - apply empty_wf.
  - vm_compute. reflexivity.
  - vm_compute. eexists. reflexivity.
Defined.
