(* ===== verification/Comparison.v ===== *)
(** * Desired-state snapshots ([internal/modules/deployments/model])

    The prepared desired state ([Prepared]) and the field-level comparison of
    two of them ([Compare], [Summarize]). [Prepare] itself, which walks decoded
    JSON and hashes it, is not modelled: a [Prepared] value is an input here.
    A nil map and an empty one are not distinguished; the case of a letter is
    that of ASCII. *)
From S2P Require Import Prelude GoStrings.

(** The fields of [compose.Service] and [compose.File] that the deployment
    module reads. *)
Record Service := { serviceName : string; serviceImage : string }.
#[export] Instance Service_eq_dec : EqDecision Service.
Proof. solve_decision. Defined.
Record File := { Path : string; Services : list Service; fileDigest : string }.
#[export] Instance File_eq_dec : EqDecision File.
Proof. solve_decision. Defined.

(** [ChangeOperation] *)
Inductive ChangeOperation := OperationAdded | OperationChanged | OperationRemoved.
#[export] Instance ChangeOperation_eq_dec : EqDecision ChangeOperation.
Proof. solve_decision. Defined.

Record Change := {
  ResourceType : string; ResourceName : string; Field : string;
  Operation : ChangeOperation;
  Before : option string; After : option string;
  ChangeRedacted : bool;
}.
#[export] Instance Change_eq_dec : EqDecision Change.
Proof. solve_decision. Defined.

Record ChangeSummary := {
  SummaryAdded : nat; SummaryChanged : nat; SummaryRemoved : nat; SummaryRedacted : nat;
}.
#[export] Instance ChangeSummary_eq_dec : EqDecision ChangeSummary.
Proof. solve_decision. Defined.

Record ResourceSummary := {
  SummaryServices : nat; SummaryConfigs : nat; SummarySecrets : nat;
  SummaryNetworks : nat; SummaryVolumes : nat;
}.
#[export] Instance ResourceSummary_eq_dec : EqDecision ResourceSummary.
Proof. solve_decision. Defined.

Record Prepared := {
  Definition_ : File;
  Digest : string;
  Fields : gmap string string;
  Fingerprints : gmap string string;
  Redacted : gmap string bool;
}.
#[export] Instance Prepared_eq_dec : EqDecision Prepared.
Proof. solve_decision. Defined.

(** ** Paths and public names *)
Definition configsField : string := "configs".
Definition secretsField : string := "secrets".

(** [strings.Split(path, "/")] *)
Fixpoint split_slash (path : string) : list string :=
  match path with
  | EmptyString => [EmptyString]
  | String c rest =>
      if bool_decide (c = "/"%char) then EmptyString :: split_slash rest
      else match split_slash rest with
           | part :: parts => String c part :: parts
           | [] => [String c EmptyString]
           end
  end.

(** [strings.ReplaceAll(strings.ReplaceAll(s, "~1", "/"), "~0", "~")] *)
Fixpoint replace_tilde (digit : Ascii.ascii) (by_ : string) (s : string) : string :=
  match s with
  | String a (String b rest as tail) =>
      if bool_decide (a = "~"%char) && bool_decide (b = digit)
      then by_ +:+ replace_tilde digit by_ rest
      else String a (replace_tilde digit by_ tail)
  | _ => s
  end.
Definition unescape (s : string) : string :=
  replace_tilde "0"%char "~" (replace_tilde "1"%char "/" s).

Definition digit_value (c : Ascii.ascii) : option Z :=
  if in_range "0"%char "9"%char c
  then Some (Z.of_nat (Ascii.nat_of_ascii c) - 48)%Z else None.

Fixpoint digits_value (s : string) (acc : Z) : option Z :=
  match s with
  | EmptyString => Some acc
  | String c rest =>
      match digit_value c with
      | Some d => digits_value rest (10 * acc + d)%Z
      | None => None
      end
  end.

(** [strconv.Atoi] succeeds: an optional sign and digits, within 64 bits. *)
Definition is_int (s : string) : bool :=
  let '(negative, digits) :=
    match s with
    | String c rest =>
        if bool_decide (c = "-"%char) then (true, rest)
        else if bool_decide (c = "+"%char) then (false, rest) else (false, s)
    | EmptyString => (false, s)
    end in
  match digits with
  | EmptyString => false
  | _ => match digits_value digits 0 with
         | Some v => if negative then (v <=? max_int64 + 1)%Z else (v <=? max_int64)%Z
         | None => false
         end
  end.

Definition upper_ascii (c : Ascii.ascii) : Ascii.ascii :=
  if in_range "a"%char "z"%char c
  then Ascii.ascii_of_nat (Ascii.nat_of_ascii c - 32) else c.
Fixpoint to_upper_ascii (s : string) : string :=
  match s with
  | EmptyString => EmptyString
  | String c s => String (upper_ascii c) (to_upper_ascii s)
  end.

(** The loop of [publicSegment]; [previous] is the character in front. *)
Fixpoint segment_from (previous : option Ascii.ascii) (s : string) : string :=
  match s with
  | EmptyString => EmptyString
  | String current rest =>
      let lower c := in_range "a"%char "z"%char c in
      if in_range "A"%char "Z"%char current then
        let previousLower := match previous with Some c => lower c | None => false end in
        let nextLower := match rest with String c _ => lower c | EmptyString => false end in
        let separator :=
          match previous with
          | Some _ => if previousLower || nextLower then "_" else ""
          | None => ""
          end in
        separator +:+ String (lower_ascii current) (segment_from (Some current) rest)
      else String current (segment_from (Some current) rest)
  end.

Definition publicSegment (value : string) : string :=
  if bool_decide (value = to_upper_ascii value) then value else segment_from None value.

(** [fields[len(fields)-1] += suffix], when there is a field. *)
Definition append_last (fields : list string) (suffix : string) : list string :=
  match last fields with
  | Some field => take (pred (length fields)) fields ++ [field +:+ suffix]
  | None => fields
  end.

Definition parserPart (part : string) : bool :=
  bool_decide (part ∈ ["Map"; "Keys"; "Args"; "Extra"; "Ports"; "Volumes"; "Names";
                       "List"; "AliasMap"; "Alias"]).

Definition publicField (parts : list string) : string :=
  join_strings "."
    (fold_left (λ fields part,
       if parserPart part then fields
       else if is_int part then append_last fields ("[" +:+ part +:+ "]")
       else if has_prefix "@" part
       then append_last fields ("[" +:+ unescape (string_drop 1 part) +:+ "]")
       else fields ++ [publicSegment (unescape part)]) parts []).

Definition publicChange (path : string) : Change :=
  let parts := split_slash path in
  let change resourceType name field :=
    {| ResourceType := resourceType; ResourceName := name;
       Field := if bool_decide (field = "") then "definition" else field;
       Operation := OperationAdded; Before := None; After := None;
       ChangeRedacted := false |} in
  let whole := change "stack" "definition" (publicField parts) in
  match parts with
  | kind :: name :: fields =>
      if bool_decide (kind = "services") then change "service" name (publicField fields)
      else if bool_decide (kind = configsField) then change "config" name (publicField fields)
      else if bool_decide (kind = secretsField) then change "secret" name (publicField fields)
      else if bool_decide (kind = "networks") then change "network" name (publicField fields)
      else if bool_decide (kind = "volumes") then change "volume" name (publicField fields)
      else if bool_decide (kind = "resources") then
        match fields with
        | resource :: _ =>
            if bool_decide (name = configsField) || bool_decide (name = secretsField)
            then change (trim_suffix "s" name) resource "content"
            else whole
        | [] => whole
        end
      else whole
  | _ => whole
  end.

(** [compose.IsSwarmIgnoredOption] *)
Definition IsSwarmIgnoredOption (option : string) : bool :=
  bool_decide (option = "privileged") || bool_decide (option = "depends_on").

Definition ignoredComparisonPath (path : string) : bool :=
  let parts := split_slash path in
  match rev parts with
  | "IsList" :: owner :: _ => bool_decide (owner ∈ ["command"; "entrypoint"; "test"])
  | _ => false
  end ||
  match rev parts with
  | "short_form" :: _ :: kind :: _ =>
      bool_decide (kind = secretsField) || bool_decide (kind = configsField)
  | _ => false
  end ||
  match parts with
  | root :: _ :: extra :: option :: _ =>
      bool_decide (root = "services") && bool_decide (extra = "Extra") &&
      IsSwarmIgnoredOption option
  | _ => false
  end.

(** ** [Compare] *)
Definition orderedPaths (before after : Prepared) : list string :=
  sort_strings (elements (dom (Fields before) ∪ dom (Fields after) : gset string)).

(** The path is skipped: ignored, or the same in both snapshots. *)
Definition samePath (before after : Prepared) (path : string) : bool :=
  bool_decide (is_Some (Fields before !! path) ↔ is_Some (Fields after !! path)) &&
  bool_decide (default "" (Fingerprints before !! path) = default "" (Fingerprints after !! path)).

Definition isRedacted (p : Prepared) (path : string) : bool :=
  default false (Redacted p !! path).

(** [envmasker.MaskValue], of a library. *)
Section Masking.
Context (MaskValue : string).

Definition compareField (before after : Prepared) (path : string) : Change :=
  let change := publicChange path in
  let redacted := isRedacted before path || isRedacted after path in
  let shown (value : string) := if redacted then MaskValue else value in
  {| ResourceType := ResourceType change; ResourceName := ResourceName change;
     Field := Field change;
     Operation := match Fields before !! path, Fields after !! path with
                  | None, _ => OperationAdded
                  | _, None => OperationRemoved
                  | _, _ => OperationChanged
                  end;
     Before := shown <$> Fields before !! path;
     After := shown <$> Fields after !! path;
     ChangeRedacted := redacted |}.

Definition Compare (before after : Prepared) : list Change :=
  compareField before after <$>
    filter (λ path, ignoredComparisonPath path = false ∧ samePath before after path = false)
      (orderedPaths before after).
End Masking.

(** ** [Summarize] *)
Definition countIf {A} (p : A → bool) (l : list A) : nat := length (List.filter p l).

Definition resourceNames (kind : string) (changes : list Change) : gset string :=
  list_to_set (ResourceName <$> filter (λ change, ResourceType change = kind) changes).

Definition Summarize (changes : list Change) : ChangeSummary * ResourceSummary :=
  ({| SummaryAdded := countIf (λ c, bool_decide (Operation c = OperationAdded)) changes;
      SummaryChanged := countIf (λ c, bool_decide (Operation c = OperationChanged)) changes;
      SummaryRemoved := countIf (λ c, bool_decide (Operation c = OperationRemoved)) changes;
      SummaryRedacted := countIf ChangeRedacted changes |},
   {| SummaryServices := size (resourceNames "service" changes);
      SummaryConfigs := size (resourceNames "config" changes);
      SummarySecrets := size (resourceNames "secret" changes);
      SummaryNetworks := size (resourceNames "network" changes);
      SummaryVolumes := size (resourceNames "volume" changes) |}).

(** [desiredServiceNames] and [desiredServiceRemovals] of
    [internal/modules/deployments/service.go] *)
Definition desiredServiceNames (desired : File) : list string :=
  serviceName <$> Services desired.

Definition desiredServiceRemovals (previous current : File) : list string :=
  sort_strings (filter (λ name, name ∉ desiredServiceNames current)
                  (desiredServiceNames previous)).

(** ** What a comparison shows *)

(** Two snapshots that only differ in the values behind redacted paths. *)
Definition samePublicly (hidden : string → bool) (p q : Prepared) : Prop :=
  Fingerprints p = Fingerprints q ∧ Redacted p = Redacted q ∧
  (∀ path, is_Some (Fields p !! path) ↔ is_Some (Fields q !! path)) ∧
  (∀ path, hidden path = false → Fields p !! path = Fields q !! path).

Section CompareLemmas.
Context (MaskValue : string).
Implicit Types (before after : Prepared).

Lemma orderedPaths_public before after before' after' :
  dom (Fields before) = (dom (Fields before') : gset string) →
  dom (Fields after) = (dom (Fields after') : gset string) →
  orderedPaths before after = orderedPaths before' after'.
Proof. intros H1 H2. unfold orderedPaths. by rewrite H1, H2. Qed.

Lemma samePublicly_dom hidden p q :
  samePublicly hidden p q → dom (Fields p) = (dom (Fields q) : gset string).
Proof.
  intros (_ & _ & Hdom & _). apply set_eq. intros path. rewrite !elem_of_dom. apply Hdom.
Qed.

Lemma elem_of_orderedPaths before after path :
  path ∈ orderedPaths before after ↔
  is_Some (Fields before !! path) ∨ is_Some (Fields after !! path).
Proof.
  unfold orderedPaths.
  by rewrite elem_of_sort_strings, elem_of_elements, elem_of_union, !elem_of_dom.
Qed.

Lemma compareField_public hidden before after before' after' path :
  hidden path = isRedacted before path || isRedacted after path →
  samePublicly hidden before before' → samePublicly hidden after after' →
  compareField MaskValue before after path = compareField MaskValue before' after' path.
Proof.
  intros Hh (_ & Hr & Hd & Hv) (_ & Hr' & Hd' & Hv').
  unfold compareField, isRedacted in *. rewrite <- Hr, <- Hr'.
  specialize (Hd path). specialize (Hd' path).
  destruct (default false (Redacted before !! path) || default false (Redacted after !! path)) eqn:E.
  - destruct (Fields before !! path), (Fields before' !! path),
      (Fields after !! path), (Fields after' !! path); try reflexivity;
      exfalso; rewrite <- ?not_eq_None_Some in *; naive_solver.
  - by rewrite (Hv path), (Hv' path) by congruence.
Qed.

(** The changes shown for two desired states reveal nothing of a value
    behind a redacted path: if the states are replaced by others with the
    same paths, fingerprints and redaction marks that differ only in the
    values of paths redacted on either side, [Compare] returns the same
    changes. *)
Theorem Compare_hides_redacted before after before' after' :
  let hidden path := isRedacted before path || isRedacted after path in
  samePublicly hidden before before' →
  samePublicly hidden after after' →
  Compare MaskValue before after = Compare MaskValue before' after'.
Proof.
  intros hidden Hb Ha. unfold Compare.
  rewrite <- (orderedPaths_public before after before' after')
    by eauto using samePublicly_dom.
  rewrite (list_filter_iff_in _ (λ path, ignoredComparisonPath path = false ∧
    samePath before' after' path = false)).
  - apply list_fmap_ext. intros i path _. by apply (compareField_public hidden).
  - intros path _. unfold samePath.
    destruct Hb as (Hf & _ & Hd & _), Ha as (Hf' & _ & Hd' & _).
    rewrite Hf, Hf'. rewrite (bool_decide_ext
      (is_Some (Fields before !! path) ↔ is_Some (Fields after !! path))
      (is_Some (Fields before' !! path) ↔ is_Some (Fields after' !! path))); [done|].
    rewrite Hd, Hd'. done.
Qed.

Lemma samePath_absent before after path :
  ¬ is_Some (Fields before !! path) → ¬ is_Some (Fields after !! path) →
  default "" (Fingerprints before !! path) = default "" (Fingerprints after !! path) →
  samePath before after path = true.
Proof.
  intros. unfold samePath. rewrite !bool_decide_eq_true_2; [done|done|tauto].
Qed.

Lemma Compare_nil before after :
  Compare MaskValue before after = [] ↔
  ∀ path, is_Some (Fields before !! path) ∨ is_Some (Fields after !! path) →
    ignoredComparisonPath path = false → samePath before after path = true.
Proof.
  unfold Compare. split.
  - intros Hnil%fmap_nil_inv path Hpath Hig. destruct (samePath before after path) eqn:E; [done|].
    exfalso. apply (not_elem_of_nil path). rewrite <- Hnil.
    apply list_elem_of_filter. split; [done|]. by apply elem_of_orderedPaths.
  - intros H. rewrite list_filter_none; [done|]. apply Forall_forall.
    intros path Hpath%elem_of_orderedPaths [Hig Hsame].
    rewrite H in Hsame by done. discriminate.
Qed.

(** Every change names the transition it shows. *)
Definition changeWf (change : Change) : Prop :=
  (Operation change = OperationAdded ↔ Before change = None) ∧
  (Operation change = OperationRemoved ↔ After change = None) ∧
  (ChangeRedacted change = true →
   Before change ∈ [None; Some MaskValue] ∧ After change ∈ [None; Some MaskValue]).

Lemma compareField_wf before after path :
  is_Some (Fields before !! path) ∨ is_Some (Fields after !! path) →
  changeWf (compareField MaskValue before after path).
Proof.
  intros Hp. unfold changeWf, compareField. simpl.
  destruct (Fields before !! path) as [b|] eqn:Eb, (Fields after !! path) as [a|] eqn:Ea;
    simpl; [..|by destruct Hp as [[??]|[??]]];
    (split; [naive_solver|]; split; [naive_solver|]); intros ->; set_solver.
Qed.

(** The comparison is exact: it is empty when every path that is not
    ignored is present in both states or in neither and has the same
    fingerprint on both sides, and only then; and every change it lists is
    well formed (an added field has no old value, a removed one no new value,
    a redacted one shows the mask only). *)
Theorem Compare_exact before after :
  (Compare MaskValue before after = [] ↔
   ∀ path, is_Some (Fields before !! path) ∨ is_Some (Fields after !! path) →
     ignoredComparisonPath path = false →
     (is_Some (Fields before !! path) ↔ is_Some (Fields after !! path)) ∧
     default "" (Fingerprints before !! path) = default "" (Fingerprints after !! path)) ∧
  Forall changeWf (Compare MaskValue before after).
Proof.
  split.
  - rewrite Compare_nil. unfold samePath. setoid_rewrite andb_true_iff.
    by setoid_rewrite bool_decide_eq_true.
  - unfold Compare. apply Forall_fmap, Forall_forall.
    intros path [_ Hp%elem_of_orderedPaths]%list_elem_of_filter.
    by apply compareField_wf.
Qed.
End CompareLemmas.

Lemma Compare_refl MaskValue p : Compare MaskValue p p = [].
Proof.
  apply Compare_nil. intros path _ _. unfold samePath.
  by rewrite !bool_decide_eq_true_2.
Qed.

(** ** Example states *)
Module ComparisonExample.
Definition state (user password : string) : Prepared :=
  {| Definition_ := {| Path := "app.yaml"; Services := [{| serviceName := "api"; serviceImage := "api:1" |}];
                       fileDigest := "f" |};
     Digest := "d";
     Fields := <["services/api/environment/Map/USER" := user]>
               (<["services/api/environment/Map/PASSWORD" := password]> ∅);
     Fingerprints := <["services/api/environment/Map/USER" := user]>
               (<["services/api/environment/Map/PASSWORD" := "h"]> ∅);
     Redacted := {["services/api/environment/Map/PASSWORD" := true]} |}.

Lemma Compare_hides_redacted_witness :
  Compare "***" (state "a" "secret1") (state "b" "secret2") =
  Compare "***" (state "a" "other1") (state "b" "other2").
Proof.
  apply (Compare_hides_redacted "***" (state "a" "secret1") (state "b" "secret2"));
  (split; [reflexivity|]; split; [reflexivity|]; split; intros path; [|intros Hh];
   destruct (decide (path = "services/api/environment/Map/USER")) as [->|];
     [done|destruct (decide (path = "services/api/environment/Map/PASSWORD")) as [->|] |
      done | destruct (decide (path = "services/api/environment/Map/PASSWORD")) as [->|]];
   try done; unfold state; simpl; rewrite ?lookup_insert_ne by done; rewrite ?lookup_empty; done).
Defined.

Example Compare_user :
  (Field <$> Compare "***" (state "a" "x") (state "b" "x")) = ["environment.USER"].
Proof. vm_compute. reflexivity. Qed.
End ComparisonExample.
