(* ===== verification/Deployments.v ===== *)
(** * Deployment data and completions ([internal/modules/deployments])

    The deployment and attempt records of [model/model.go] and
    [model/verification.go], and the terminal transition that a [Completion]
    selects ([completion.go]). *)
From S2P Require Import Prelude GoStrings Comparison.

(** ** [model/model.go] *)
Inductive Status := Running | Succeeded | Failed | Interrupted | Superseded.
#[export] Instance Status_eq_dec : EqDecision Status.
Proof. solve_decision. Defined.

Inductive ComparisonStatus := ComparisonKnown | ComparisonUnknown.
#[export] Instance ComparisonStatus_eq_dec : EqDecision ComparisonStatus.
Proof. solve_decision. Defined.

Inductive ComparisonBasis :=
| BasisNone | BasisSuccessfulBaseline | BasisLastAttempt | BasisObservedState.
#[export] Instance ComparisonBasis_eq_dec : EqDecision ComparisonBasis.
Proof. solve_decision. Defined.

Inductive Phase := PhaseApply | PhaseVerification | PhaseCleanup | PhaseCompleted.
#[export] Instance Phase_eq_dec : EqDecision Phase.
Proof. solve_decision. Defined.

Inductive StageStatus :=
| StagePending | StageRunning | StageSucceeded | StageFailed | StageUnknown | StageSkipped.
#[export] Instance StageStatus_eq_dec : EqDecision StageStatus.
Proof. solve_decision. Defined.

Inductive ActualStateStatus := ActualStateObserved | ActualStateUnknown.
#[export] Instance ActualStateStatus_eq_dec : EqDecision ActualStateStatus.
Proof. solve_decision. Defined.

Inductive InitJobStatus := InitJobSucceeded | InitJobFailed | InitJobInterrupted.
#[export] Instance InitJobStatus_eq_dec : EqDecision InitJobStatus.
Proof. solve_decision. Defined.

Record InitJobExecution := {
  jobAttemptID : string; Ordinal : Z; jobServiceName : string; JobName : string;
  jobStatus : InitJobStatus; jobStartedAt : Time; jobFinishedAt : Time;
  Logs : string; LogsAvailable : bool; LogsTruncated : bool;
}.
#[export] Instance InitJobExecution_eq_dec : EqDecision InitJobExecution.
Proof. solve_decision. Defined.

(** ** [model/verification.go] *)
Inductive VerificationMode :=
| VerifyUnspecified | VerifyExistingTasks | VerifyPlacementCompatibleTasks | VerifyNewGeneration.
#[export] Instance VerificationMode_eq_dec : EqDecision VerificationMode.
Proof. solve_decision. Defined.

(** [ForceUpdate] is an unsigned 64-bit number. *)
Record UpdateGeneration := {
  ServiceID : string; ForceUpdate : N; After_ : Time; Mode : VerificationMode;
  BeforeSpecDigest : string; TasksAfter : Time;
}.
#[export] Instance UpdateGeneration_eq_dec : EqDecision UpdateGeneration.
Proof. solve_decision. Defined.

(** The zero value that reading an absent map entry gives. *)
Definition noGeneration : UpdateGeneration :=
  {| ServiceID := ""; ForceUpdate := 0; After_ := time_zero; Mode := VerifyUnspecified;
     BeforeSpecDigest := ""; TasksAfter := time_zero |}.

Record Verification := {
  Known : bool;
  UnresolvedServices : list string;
  Generations : gmap string UpdateGeneration;
}.
#[export] Instance Verification_eq_dec : EqDecision Verification.
Proof. solve_decision. Defined.

Definition noVerification : Verification :=
  {| Known := false; UnresolvedServices := []; Generations := ∅ |}.
Definition setUnresolved (v : Verification) (known : bool) (names : list string) : Verification :=
  {| Known := known; UnresolvedServices := names; Generations := Generations v |}.
Definition setGenerations (v : Verification) (g : gmap string UpdateGeneration) : Verification :=
  {| Known := Known v; UnresolvedServices := UnresolvedServices v; Generations := g |}.

(** The outcome fields that [Attempt] and [Deployment] both have, from
    [ErrorDiagnostic] to [ObservedAt]. *)
Record Outcome := {
  ErrorDiagnostic : string; Retryable : bool;
  ApplyStatus : StageStatus; VerificationStatus : StageStatus; CleanupStatus : StageStatus;
  ActualState : ActualStateStatus; ObservedAt : option Time;
}.
#[export] Instance Outcome_eq_dec : EqDecision Outcome.
Proof. solve_decision. Defined.

Record Attempt := {
  attemptID : string; attemptDeploymentID : string; attemptStack : string;
  attemptNumber : Z; attemptStatus : Status; attemptStartedAt : Time;
  attemptFinishedAt : option Time; attemptErrorCode : string; attemptPhase : Phase;
  attemptOutcome : Outcome; attemptInitJobs : list InitJobExecution;
}.
#[export] Instance Attempt_eq_dec : EqDecision Attempt.
Proof. solve_decision. Defined.

Record Deployment := {
  deploymentID : string; deploymentStack : string; Commit : string;
  deploymentStatus : Status; deploymentStartedAt : Time; deploymentFinishedAt : option Time;
  deploymentErrorCode : string; deploymentPhase : Phase; deploymentOutcome : Outcome;
  deploymentVerification : Verification;
  Basis : ComparisonBasis; Comparison_ : ComparisonStatus; BasisDeploymentID : string;
  Summary : ChangeSummary; Resources : ResourceSummary; Changes : list Change;
  DiffAvailable : bool;
  LatestAttemptID : string; AttemptCount : Z; Attempts : list Attempt;
}.
#[export] Instance Deployment_eq_dec : EqDecision Deployment.
Proof. solve_decision. Defined.

Definition setVerification (d : Deployment) (v : Verification) : Deployment :=
  {| deploymentID := deploymentID d; deploymentStack := deploymentStack d;
     Commit := Commit d; deploymentStatus := deploymentStatus d;
     deploymentStartedAt := deploymentStartedAt d;
     deploymentFinishedAt := deploymentFinishedAt d;
     deploymentErrorCode := deploymentErrorCode d; deploymentPhase := deploymentPhase d;
     deploymentOutcome := deploymentOutcome d; deploymentVerification := v;
     Basis := Basis d; Comparison_ := Comparison_ d; BasisDeploymentID := BasisDeploymentID d;
     Summary := Summary d; Resources := Resources d; Changes := Changes d;
     DiffAvailable := DiffAvailable d; LatestAttemptID := LatestAttemptID d;
     AttemptCount := AttemptCount d; Attempts := Attempts d |}.

(** The stages of an attempt that has just begun. *)
Definition runningOutcome : Outcome :=
  {| ErrorDiagnostic := ""; Retryable := false; ApplyStatus := StageRunning;
     VerificationStatus := StagePending; CleanupStatus := StagePending;
     ActualState := ActualStateUnknown; ObservedAt := None |}.

(** ** Errors

    A Go error is what the code observes of it: its text, and the answers of
    [errors.Is] and [errors.As] for the errors that are told apart. *)
Record fault := {
  faultText : string;
  isDeadlineExceeded : bool;
  isUpdateDeferred : bool;
  isTemporary : bool;
}.
#[export] Instance fault_eq_dec : EqDecision fault.
Proof. solve_decision. Defined.

Inductive deploymentError :=
| ErrNotFound
| ErrNotRunning
| ErrInconsistentDeployment
| ErrSchema (table : string)
| ErrInvalid (reason : string)
| ErrFault (cause : fault).
#[export] Instance deploymentError_eq_dec : EqDecision deploymentError.
Proof. solve_decision. Defined.

(** ** [faults.SafeDiagnostic]

    [mask] is the masking of a trimmed, non-empty text: regular expressions
    and the envmasker library. *)
Definition maxDiagnosticLength : Z := 4000.
(** The UTF-8 encoding of the ellipsis character. *)
Definition ellipsis : string := bytes [226; 128; 166]%N.

Section SafeDiagnostic.
Context (mask : string → string).

Definition SafeDiagnostic (err : option fault) : string :=
  match err with
  | None => ""
  | Some err =>
      let diagnostic := trim_space (faultText err) in
      if bool_decide (diagnostic = "") then ""
      else
        let diagnostic := mask diagnostic in
        if (maxDiagnosticLength <? Z.of_nat (String.length diagnostic))%Z
        then string_take (Z.to_nat maxDiagnosticLength) diagnostic +:+ ellipsis
        else diagnostic
  end.

(** [SafeError] keeps the safe text and the retry classification only. *)
Definition SafeError (err : option fault) : option fault :=
  match err with
  | None => None
  | Some e => Some {| faultText := SafeDiagnostic err; isDeadlineExceeded := false;
                      isUpdateDeferred := false; isTemporary := isTemporary e |}
  end.
End SafeDiagnostic.

(** ** [completion.go] *)
Inductive CompletionOutcome :=
| CompletionSucceeded | CompletionApplyFailed | CompletionPolicyRejected
| CompletionInitJobFailed | CompletionConvergenceFailed
| CompletionVerificationInterrupted | CompletionCleanupFailed
| CompletionProcessInterrupted.
#[export] Instance CompletionOutcome_eq_dec : EqDecision CompletionOutcome.
Proof. solve_decision. Defined.

Record Completion := {
  CompletionVerification : Verification;
  CompletionOutcome_ : CompletionOutcome;
  Diagnostic : option fault;
  CompletionRetryable : bool;
  CompletionObservedAt : option Time;
}.
#[export] Instance Completion_eq_dec : EqDecision Completion.
Proof. solve_decision. Defined.

Definition completionOf (outcome : CompletionOutcome) (diagnostic : option fault) : Completion :=
  {| CompletionVerification := noVerification; CompletionOutcome_ := outcome;
     Diagnostic := diagnostic; CompletionRetryable := false; CompletionObservedAt := None |}.

Record completionState := {
  rolloutVerification : Verification;
  st_status : Status; st_errorCode : string; st_diagnostic : option fault;
  st_retryable : bool; st_phase : Phase; st_apply : StageStatus;
  st_verification : StageStatus; st_cleanup : StageStatus; st_actual : ActualStateStatus;
  st_observedAt : option Time; st_eventStage : string;
}.

Definition ErrorCode (completion : Completion) : string :=
  match CompletionOutcome_ completion with
  | CompletionSucceeded => ""
  | CompletionApplyFailed => "apply_failed"
  | CompletionPolicyRejected => "policy_rejected"
  | CompletionInitJobFailed => "init_failed"
  | CompletionConvergenceFailed => "convergence_failed"
  | CompletionVerificationInterrupted => "verification_unknown"
  | CompletionCleanupFailed => "prune_failed"
  | CompletionProcessInterrupted => "process_interrupted"
  end.

Definition phaseText (p : Phase) : string :=
  match p with
  | PhaseApply => "apply" | PhaseVerification => "verification"
  | PhaseCleanup => "cleanup" | PhaseCompleted => "completed"
  end.

Definition rolloutObligations (completion : Completion) : Verification :=
  if negb (Known (CompletionVerification completion)) &&
     (bool_decide (CompletionOutcome_ completion = CompletionInitJobFailed) ||
      bool_decide (CompletionOutcome_ completion = CompletionPolicyRejected))
  then {| Known := true; UnresolvedServices := []; Generations := ∅ |}
  else CompletionVerification completion.

(** The first [switch] of [state]. *)
Definition completionRetryable (completion : Completion) : bool :=
  match CompletionOutcome_ completion with
  | CompletionVerificationInterrupted | CompletionProcessInterrupted => true
  | CompletionApplyFailed | CompletionInitJobFailed | CompletionCleanupFailed =>
      (bool_decide (CompletionOutcome_ completion = CompletionApplyFailed) &&
       CompletionRetryable completion) ||
      match Diagnostic completion with
      | Some err => isDeadlineExceeded err || isUpdateDeferred err || isTemporary err
      | None => false
      end
  | CompletionSucceeded | CompletionPolicyRejected | CompletionConvergenceFailed => false
  end.

Section CompletionState.
Context (mask : string → string).

(** [Completion.state] *)
Definition state (completion : Completion) : Result deploymentError completionState :=
  let observed := CompletionObservedAt completion in
  let make status phase apply verification cleanup actual eventStage :=
    Ok {| rolloutVerification := rolloutObligations completion;
          st_status := status; st_errorCode := ErrorCode completion;
          st_diagnostic := SafeError mask (Diagnostic completion);
          st_retryable := completionRetryable completion; st_phase := phase;
          st_apply := apply; st_verification := verification; st_cleanup := cleanup;
          st_actual := actual; st_observedAt := observed; st_eventStage := eventStage |} in
  match CompletionOutcome_ completion with
  | CompletionSucceeded =>
      match Diagnostic completion with
      | Some _ => Err (ErrInvalid "successful completion cannot contain an error")
      | None =>
          make Succeeded PhaseCompleted StageSucceeded StageSkipped StageSucceeded
            match observed with Some _ => ActualStateObserved | None => ActualStateUnknown end
            ""
      end
  | CompletionApplyFailed | CompletionPolicyRejected | CompletionInitJobFailed =>
      match observed with
      | Some _ => Err (ErrInvalid "apply failure cannot contain an observation timestamp")
      | None => make Failed PhaseApply StageFailed StageSkipped StageSkipped
                  ActualStateUnknown (phaseText PhaseApply)
      end
  | CompletionConvergenceFailed =>
      match observed with
      | Some _ => Err (ErrInvalid "verification failure cannot contain an observation timestamp")
      | None => make Failed PhaseVerification StageSucceeded StageFailed StageSkipped
                  ActualStateUnknown (phaseText PhaseVerification)
      end
  | CompletionVerificationInterrupted =>
      match observed with
      | Some _ => Err (ErrInvalid "verification failure cannot contain an observation timestamp")
      | None => make Interrupted PhaseVerification StageSucceeded StageUnknown StageSkipped
                  ActualStateUnknown (phaseText PhaseVerification)
      end
  | CompletionCleanupFailed =>
      match observed with
      | None => Err (ErrInvalid "cleanup failure requires an observation timestamp")
      | Some _ => make Failed PhaseCleanup StageSucceeded StageSkipped StageFailed
                    ActualStateObserved (phaseText PhaseCleanup)
      end
  | CompletionProcessInterrupted =>
      match observed with
      | Some _ => Err (ErrInvalid "process interruption cannot contain an observation timestamp")
      | None => make Interrupted PhaseApply StageUnknown StageSkipped StageSkipped
                  ActualStateUnknown ""
      end
  end.
End CompletionState.

(** ** The outcome table *)
Lemma string_take_length n s : (String.length (string_take n s) ≤ n)%nat.
Proof. revert s. induction n as [|n IH]; intros [|c s]; simpl; [lia..|]. specialize (IH s). lia. Qed.

Lemma string_length_app a b :
  String.length (a +:+ b) = (String.length a + String.length b)%nat.
Proof.
  induction a as [|c a IH]; [by rewrite string_app_nil|].
  rewrite string_app_cons. simpl. by rewrite IH.
Qed.

Definition maxDiagnosticBytes : Z := 4003.

Lemma SafeDiagnostic_bounded mask err :
  (Z.of_nat (String.length (SafeDiagnostic mask err)) ≤ maxDiagnosticBytes)%Z.
Proof.
  unfold SafeDiagnostic, maxDiagnosticBytes. destruct err as [e|]; [|simpl; lia].
  case_bool_decide; [simpl; lia|].
  set (masked := mask _). clearbody masked.
  destruct (Z.ltb_spec maxDiagnosticLength (Z.of_nat (String.length masked)))
    as [Hl|Hl]; [|unfold maxDiagnosticLength in Hl; lia].
  rewrite string_length_app.
  pose proof (string_take_length (Z.to_nat maxDiagnosticLength) masked) as Ht.
  change (String.length ellipsis) with 3%nat.
  unfold maxDiagnosticLength in *. lia.
Qed.
#[global] Opaque SafeDiagnostic.

(** The stages of an attempt in the order they run, with the phase that an
    unfinished or failed one names. *)
Definition stages (s : completionState) : list (Phase * StageStatus) :=
  [(PhaseApply, st_apply s); (PhaseVerification, st_verification s);
   (PhaseCleanup, st_cleanup s)].

(** A stage is over; [StageSkipped] and [StageSucceeded] are no failures. *)
Definition stageStopped (status : StageStatus) : bool :=
  match status with StageFailed | StageUnknown => true | _ => false end.
Definition stageOpen (status : StageStatus) : bool :=
  match status with StagePending | StageRunning => true | _ => false end.

(** What the fields of a terminal transition promise. *)
Record terminal (s : completionState) : Prop := {
  terminal_status : st_status s ∈ [Succeeded; Failed; Interrupted];
  terminal_code : st_errorCode s = "" ↔ st_status s = Succeeded;
  terminal_open : Forall (λ stage, stageOpen stage.2 = false) (stages s);
  (** No stage stopped when the deployment succeeded; otherwise one did, it is
      that of [phase], and nothing behind it ran. *)
  terminal_succeeded : st_status s = Succeeded →
    st_phase s = PhaseCompleted ∧
    Forall (λ stage, stageStopped stage.2 = false) (stages s) ∧ st_retryable s = false;
  terminal_stopped : st_status s ≠ Succeeded →
    ∃ before status after,
      stages s = before ++ (st_phase s, status) :: after ∧ stageStopped status = true ∧
      (status = StageUnknown ↔ st_status s = Interrupted) ∧
      Forall (λ stage, stageStopped stage.2 = false) before ∧
      Forall (λ stage, stage.2 = StageSkipped) after;
  terminal_observed : st_actual s = ActualStateObserved ↔ is_Some (st_observedAt s);
  terminal_interrupted : st_status s = Interrupted → st_retryable s = true;
  terminal_diagnostic :
    ∀ e, st_diagnostic s = Some e → (Z.of_nat (String.length (faultText e)) ≤ maxDiagnosticBytes)%Z;
}.

(** The combinations that [state] accepts. *)
Definition acceptable (c : Completion) : bool :=
  match CompletionOutcome_ c with
  | CompletionSucceeded => bool_decide (Diagnostic c = None)
  | CompletionCleanupFailed => bool_decide (is_Some (CompletionObservedAt c))
  | _ => bool_decide (CompletionObservedAt c = None)
  end.

Lemma state_ok mask c :
  acceptable c = true → ∃ s, state mask c = Ok s.
Proof.
  unfold acceptable, state. destruct c as [v [] [d|] r [o|]]; simpl; intros H;
    try (apply bool_decide_eq_true in H); try done; eauto;
    by destruct H.
Qed.

Lemma state_err mask c :
  acceptable c = false → ∃ reason, state mask c = Err (ErrInvalid reason).
Proof.
  unfold acceptable, state. destruct c as [v [] [d|] r [o|]]; simpl; intros H;
    try (apply bool_decide_eq_false in H); try done; eauto; exfalso; eauto.
Qed.

(** The stopped stage comes right behind the stages [before]. *)
Ltac stopped_after before :=
  intros _; exists before; eexists _, _;
  split_and!; [reflexivity|done|done|by repeat constructor|by repeat constructor].

Lemma state_terminal mask c s : state mask c = Ok s → terminal s.
Proof.
  intros H. assert (∀ e, st_diagnostic s = Some e →
    (Z.of_nat (String.length (faultText e)) ≤ maxDiagnosticBytes)%Z) as Hdiag.
  { assert (st_diagnostic s = SafeError mask (Diagnostic c)) as ->.
    { unfold state in H. by destruct c as [v [] [d|] r [o|]]; simpl in H; simplify_eq. }
    unfold SafeError. destruct (Diagnostic c); intros ? [= <-]. apply SafeDiagnostic_bounded. }
  unfold state in H. destruct c as [v o d r ob]. simpl in H.
  destruct o; destruct d as [d|], ob as [o|]; simplify_eq; (split; simpl; try done;
    [set_solver|repeat constructor|..]; try (intros _; split_and!; repeat constructor; done));
    try (first [ by stopped_after (@nil (Phase * StageStatus))
               | by stopped_after [(PhaseApply, StageSucceeded)]
               | by stopped_after [(PhaseApply, StageSucceeded); (PhaseVerification, StageSkipped)] ]);
    try (split; [eauto|done]); try (split; [done|by intros [??]]).
Qed.

(** A completion is accepted exactly when its outcome, its error and its
    observation time fit together, and an accepted one selects a consistent
    terminal transition: a final status with an error code exactly when it did
    not succeed; no stage left pending or running; on success no stopped stage,
    otherwise exactly the stage of the named phase stopped (unknown exactly for
    an interruption) and all later ones skipped; live state reported as
    observed exactly with a time; interruptions always retryable, successes
    never; and a diagnostic of bounded size. *)
Theorem completion_outcome_table mask c :
  if acceptable c
  then ∃ s, state mask c = Ok s ∧ terminal s
  else ∃ reason, state mask c = Err (ErrInvalid reason).
Proof.
  destruct (acceptable c) eqn:E.
  - destruct (state_ok mask c E) as [s Hs]. eauto using state_terminal.
  - by apply state_err.
Qed.
