(* ===== verification/DeploymentStore.v ===== *)
(** * The deployment tables ([internal/modules/deployments/modelstore])

    [Tables] is the content of [deployments], [deployment_attempts],
    [deployment_init_jobs] and [desired_snapshots]; a table is the list of its
    rows in [rowid] order. [schema] collects the constraints of
    [migrations/sqlite], and [exec] runs a statement against them. The JSON
    payloads are the values they decode to: of [details_payload] an attempt
    only reads its [Outcome]. The page queries ([List], [Activity]) are in
    [DeploymentQueries]. *)
From S2P Require Import Prelude GoStrings Comparison Deployments.

(** ** Rows *)
Record deploymentDetails := {
  UpdateGenerations : gmap string UpdateGeneration;
  unresolved_services : option (list string);
  detailsOutcome : Outcome;
  detailsBasis : ComparisonBasis; detailsComparison : ComparisonStatus;
  detailsBasisID : string; detailsSummary : ChangeSummary;
  detailsResources : ResourceSummary; detailsDiffAvailable : bool;
}.

Record deploymentRow := {
  row_id : string; row_stack : string; row_commit : string; row_status : Status;
  row_error_code : string; row_phase : Phase; row_started_at : Time;
  row_finished_at : option Time; row_desired : Prepared;
  row_details : deploymentDetails; row_changes : list Change;
}.

Record attemptRow := {
  arow_id : string; arow_deployment_id : string; arow_number : Z; arow_status : Status;
  arow_error_code : string; arow_phase : Phase; arow_started_at : Time;
  arow_finished_at : option Time; arow_outcome : Outcome;
}.

Record initJobExecutionRow := {
  jrow_attempt_id : string; jrow_ordinal : Z; jrow_service_name : string;
  jrow_job_name : string; jrow_status : InitJobStatus; jrow_started_at : Time;
  jrow_finished_at : Time; jrow_logs : option string; jrow_logs_truncated : bool;
}.

Record Tables := {
  deployments : list deploymentRow;
  deployment_attempts : list attemptRow;
  deployment_init_jobs : list initJobExecutionRow;
  desired_snapshots : gmap string string;
}.

Definition setDeployments (t : Tables) (l : list deploymentRow) : Tables :=
  {| deployments := l; deployment_attempts := deployment_attempts t;
     deployment_init_jobs := deployment_init_jobs t; desired_snapshots := desired_snapshots t |}.
Definition setAttempts (t : Tables) (l : list attemptRow) : Tables :=
  {| deployments := deployments t; deployment_attempts := l;
     deployment_init_jobs := deployment_init_jobs t; desired_snapshots := desired_snapshots t |}.
Definition setInitJobs (t : Tables) (l : list initJobExecutionRow) : Tables :=
  {| deployments := deployments t; deployment_attempts := deployment_attempts t;
     deployment_init_jobs := l; desired_snapshots := desired_snapshots t |}.
Definition setSnapshots (t : Tables) (m : gmap string string) : Tables :=
  {| deployments := deployments t; deployment_attempts := deployment_attempts t;
     deployment_init_jobs := deployment_init_jobs t; desired_snapshots := m |}.

Definition emptyTables : Tables :=
  {| deployments := []; deployment_attempts := []; deployment_init_jobs := [];
     desired_snapshots := ∅ |}.

(** ** Constraints *)

(** [status='running' AND finished_at IS NULL OR status<>'running' AND ... NOT NULL],
    with ['superseded'] outside the values of the column. *)
Definition statusCheck (status : Status) (finished : option Time) : Prop :=
  status ≠ Superseded ∧ (status = Running ↔ finished = None).

Definition rowIDs (t : Tables) : list string := row_id <$> deployments t.

Definition schema (t : Tables) : Prop :=
  NoDup (rowIDs t) ∧
  NoDup (row_stack <$> filter (λ r, row_status r = Running) (deployments t)) ∧
  Forall (λ r, statusCheck (row_status r) (row_finished_at r)) (deployments t) ∧
  NoDup (arow_id <$> deployment_attempts t) ∧
  NoDup ((λ a, (arow_deployment_id a, arow_number a)) <$> deployment_attempts t) ∧
  NoDup (arow_deployment_id <$> filter (λ a, arow_status a = Running) (deployment_attempts t)) ∧
  Forall (λ a, (0 < arow_number a)%Z ∧ arow_deployment_id a ∈ rowIDs t ∧
               statusCheck (arow_status a) (arow_finished_at a)) (deployment_attempts t) ∧
  NoDup ((λ j, (jrow_attempt_id j, jrow_ordinal j)) <$> deployment_init_jobs t) ∧
  Forall (λ j, (0 < jrow_ordinal j)%Z ∧
               jrow_attempt_id j ∈ arow_id <$> deployment_attempts t) (deployment_init_jobs t) ∧
  NoDup ((map_to_list (desired_snapshots t)).*2) ∧
  Forall (λ kv, kv.2 ∈ rowIDs t) (map_to_list (desired_snapshots t)).

#[export] Instance schema_dec t : Decision (schema t).
Proof. unfold schema, statusCheck. apply _. Defined.

(** [Exec] of a statement that makes [t'] of the tables and affects [count]
    rows: a violated constraint is an error and changes nothing. *)
Definition exec (t' : Tables) (count : nat) : St Tables deploymentError nat :=
  λ t, if decide (schema t') then (Ok count, t') else (Err (ErrSchema "constraint failed"), t).

(** [UPDATE ... SET f WHERE p] *)
Definition updateWhere {A} (p : A → bool) (f : A → A) (l : list A) : list A :=
  (λ x, if p x then f x else x) <$> l.

Definition requireOneRunning (count : nat) : St Tables deploymentError () :=
  if bool_decide (count = 1%nat) then st_ret () else st_throw ErrNotRunning.

(** ** Reading *)
Definition projectedStatus (status : Status) (isSuperseded : bool) : Status :=
  if isSuperseded then Superseded else status.

(** The rows that come after the row [id]. *)
Fixpoint newerRows (id : string) (rows : list deploymentRow) : list deploymentRow :=
  match rows with
  | [] => []
  | r :: rows => if decide (row_id r = id) then rows else newerRows id rows
  end.

Definition isSuperseded (t : Tables) (row : deploymentRow) : bool :=
  bool_decide (row_status row = Failed ∨ row_status row = Interrupted) &&
  existsb (λ newer, bool_decide (row_stack newer = row_stack row))
    (newerRows (row_id row) (deployments t)).

(** The attempts of a deployment, and their [ORDER BY number DESC]. *)
Definition attemptRows (t : Tables) (deploymentID : string) : list attemptRow :=
  filter (λ a, arow_deployment_id a = deploymentID) (deployment_attempts t).
Definition newestFirst (rows : list attemptRow) : list attemptRow :=
  stable_sort (λ a b, (arow_number b <? arow_number a)%Z) rows.

Definition execution (j : initJobExecutionRow) : InitJobExecution :=
  {| jobAttemptID := jrow_attempt_id j; Ordinal := jrow_ordinal j;
     jobServiceName := jrow_service_name j; JobName := jrow_job_name j;
     jobStatus := jrow_status j; jobStartedAt := jrow_started_at j;
     jobFinishedAt := jrow_finished_at j; Logs := "";
     LogsAvailable := bool_decide (is_Some (jrow_logs j));
     LogsTruncated := jrow_logs_truncated j |}.

Definition initJobs (t : Tables) (attempt : string) : list InitJobExecution :=
  execution <$> stable_sort (λ i j, (jrow_ordinal i <? jrow_ordinal j)%Z)
    (filter (λ j, jrow_attempt_id j = attempt) (deployment_init_jobs t)).

(** [attemptRow.attempt]; only [Get] fills in the init jobs. *)
Definition attempt (jobs : list InitJobExecution) (row : attemptRow) : Attempt :=
  {| attemptID := arow_id row; attemptDeploymentID := arow_deployment_id row;
     attemptStack := ""; attemptNumber := arow_number row; attemptStatus := arow_status row;
     attemptStartedAt := arow_started_at row; attemptFinishedAt := arow_finished_at row;
     attemptErrorCode := arow_error_code row; attemptPhase := arow_phase row;
     attemptOutcome := arow_outcome row; attemptInitJobs := jobs |}.

Definition attempts (t : Tables) (deploymentID : string) : list Attempt :=
  (λ row, attempt (initJobs t (arow_id row)) row) <$> newestFirst (attemptRows t deploymentID).

(** [deploymentRow.deployment], with the columns that the query computes. *)
Definition deployment (t : Tables) (row : deploymentRow) : Deployment :=
  let details := row_details row in
  {| deploymentID := row_id row; deploymentStack := row_stack row; Commit := row_commit row;
     deploymentStatus := projectedStatus (row_status row) (isSuperseded t row);
     deploymentStartedAt := row_started_at row; deploymentFinishedAt := row_finished_at row;
     deploymentErrorCode := row_error_code row; deploymentPhase := row_phase row;
     deploymentOutcome := detailsOutcome details;
     deploymentVerification :=
       {| Known := bool_decide (is_Some (unresolved_services details));
          UnresolvedServices := default [] (unresolved_services details);
          Generations := UpdateGenerations details |};
     Basis := detailsBasis details; Comparison_ := detailsComparison details;
     BasisDeploymentID := detailsBasisID details; Summary := detailsSummary details;
     Resources := detailsResources details; Changes := row_changes row;
     DiffAvailable := detailsDiffAvailable details;
     LatestAttemptID := match newestFirst (attemptRows t (row_id row)) with
                        | a :: _ => arow_id a | [] => "" end;
     AttemptCount := Z.of_nat (length (attemptRows t (row_id row)));
     Attempts := attempts t (row_id row) |}.

Definition findRow (t : Tables) (id : string) : option deploymentRow :=
  List.find (λ r, bool_decide (row_id r = id)) (deployments t).
Definition findAttempt (t : Tables) (id : string) : option attemptRow :=
  List.find (λ a, bool_decide (arow_id a = id)) (deployment_attempts t).

(** A query whose absent row is [ErrNotFound]. *)
Definition notFound {A} (q : Tables → option A) : St Tables deploymentError A :=
  λ t, match q t with Some a => (Ok a, t) | None => (Err ErrNotFound, t) end.

Definition Get (id : string) : St Tables deploymentError Deployment :=
  notFound (λ t, deployment t <$> findRow t id).
Definition GetAttempt (id : string) : St Tables deploymentError Attempt :=
  notFound (λ t, attempt [] <$> findAttempt t id).
Definition Desired (id : string) : St Tables deploymentError File :=
  notFound (λ t, (Definition_ ∘ row_desired) <$> findRow t id).

Definition latestRow (t : Tables) (stack : string) : option deploymentRow :=
  last (filter (λ r, row_stack r = stack) (deployments t)).

Definition Latest (stack : string) : St Tables deploymentError (Deployment * Prepared) :=
  notFound (λ t, (λ row, (deployment t row, row_desired row)) <$> latestRow t stack).

Definition Baseline (stack : string) : St Tables deploymentError Prepared :=
  notFound (λ t,
    id ← desired_snapshots t !! stack;
    row ← findRow t id;
    if decide (row_status row = Succeeded) then Some (row_desired row) else None).
Definition BaselineDeploymentID (stack : string) : St Tables deploymentError string :=
  notFound (λ t, desired_snapshots t !! stack).

(** [RunningAttempts] and [LegacyRunning] for every stack. *)
Definition RunningAttempts : St Tables deploymentError (list Attempt) :=
  λ t, (Ok (attempt [] <$> filter (λ a, arow_status a = Running) (deployment_attempts t)), t).
Definition LegacyRunning : St Tables deploymentError (list Deployment) :=
  λ t, (Ok (deployment t <$> filter (λ r, row_status r = Running ∧ attemptRows t (row_id r) = [])
              (deployments t)), t).

(** ** Writing *)

(** [persistedUnresolvedServices] keeps the null/array wire format. *)
Definition persistedUnresolvedServices (v : Verification) : option (list string) :=
  if Known v then Some (UnresolvedServices v) else None.

Definition detailsFromDeployment (d : Deployment) (outcome : Outcome) : deploymentDetails :=
  {| UpdateGenerations := Generations (deploymentVerification d);
     unresolved_services := persistedUnresolvedServices (deploymentVerification d);
     detailsOutcome := outcome; detailsBasis := Basis d; detailsComparison := Comparison_ d;
     detailsBasisID := BasisDeploymentID d; detailsSummary := Summary d;
     detailsResources := Resources d; detailsDiffAvailable := DiffAvailable d |}.

(** The stages are written, diagnostic and observation are not. *)
Definition insertedOutcome (o : Outcome) : Outcome :=
  {| ErrorDiagnostic := ""; Retryable := false; ApplyStatus := ApplyStatus o;
     VerificationStatus := VerificationStatus o; CleanupStatus := CleanupStatus o;
     ActualState := ActualState o; ObservedAt := None |}.

Definition insertAttemptRow (a : Attempt) : St Tables deploymentError () :=
  if is_zero (attemptStartedAt a) then st_throw (ErrInvalid "attempt start time is required")
  else λ t,
    st_bind
      (exec (setAttempts t (deployment_attempts t ++
         [{| arow_id := attemptID a; arow_deployment_id := attemptDeploymentID a;
             arow_number := attemptNumber a; arow_status := attemptStatus a;
             arow_error_code := attemptErrorCode a; arow_phase := attemptPhase a;
             arow_started_at := attemptStartedAt a; arow_finished_at := None;
             arow_outcome := insertedOutcome (attemptOutcome a) |}])) 1)
      (λ _, st_ret ()) t.
Definition InsertLegacyAttempt : Attempt → St Tables deploymentError () := insertAttemptRow.

Definition CreateDeployment (d : Deployment) (desired : Prepared) (a : Attempt)
    : St Tables deploymentError () :=
  if is_zero (deploymentStartedAt d)
  then st_throw (ErrInvalid "deployment start time is required")
  else λ t,
    st_bind
      (exec (setDeployments t (deployments t ++
         [{| row_id := deploymentID d; row_stack := deploymentStack d; row_commit := Commit d;
             row_status := deploymentStatus d; row_error_code := deploymentErrorCode d;
             row_phase := deploymentPhase d; row_started_at := deploymentStartedAt d;
             row_finished_at := None; row_desired := desired;
             row_details := detailsFromDeployment d (deploymentOutcome d);
             row_changes := Changes d |}])) 1)
      (λ _, insertAttemptRow a) t.

(** The columns that an attempt transition writes to a deployment. *)
Definition transitionRow (status : Status) (code : string) (phase : Phase)
    (finished : option Time) (details : deploymentDetails) (r : deploymentRow) : deploymentRow :=
  {| row_id := row_id r; row_stack := row_stack r; row_commit := row_commit r;
     row_status := status; row_error_code := code; row_phase := phase;
     row_started_at := row_started_at r; row_finished_at := finished;
     row_desired := row_desired r; row_details := details; row_changes := row_changes r |}.

Definition updateDeployments (p : deploymentRow → bool) (f : deploymentRow → deploymentRow)
    : St Tables deploymentError () :=
  λ t, st_bind (exec (setDeployments t (updateWhere p f (deployments t)))
                  (countIf p (deployments t)))
         requireOneRunning t.

Definition StartAttempt (d : Deployment) (a : Attempt) : St Tables deploymentError () :=
  st_bind (insertAttemptRow a) (λ _,
    updateDeployments
      (λ r, bool_decide (row_id r = deploymentID d) &&
            bool_decide (row_status r = Failed ∨ row_status r = Interrupted))
      (transitionRow Running "" PhaseApply None (detailsFromDeployment d runningOutcome))).

Definition finishAttemptRow (a : Attempt) (r : attemptRow) : attemptRow :=
  {| arow_id := arow_id r; arow_deployment_id := arow_deployment_id r;
     arow_number := arow_number r; arow_status := attemptStatus a;
     arow_error_code := attemptErrorCode a; arow_phase := attemptPhase a;
     arow_started_at := arow_started_at r; arow_finished_at := attemptFinishedAt a;
     arow_outcome := attemptOutcome a |}.

Definition updateAttempts (p : attemptRow → bool) (f : attemptRow → attemptRow)
    : St Tables deploymentError nat :=
  λ t, exec (setAttempts t (updateWhere p f (deployment_attempts t)))
         (countIf p (deployment_attempts t)) t.

Definition noNewerAttempt (t : Tables) (r : deploymentRow) (number : Z) : bool :=
  forallb (λ newer, (arow_number newer <=? number)%Z) (attemptRows t (row_id r)).

Definition FinishAttempt (d : Deployment) (a : Attempt) : St Tables deploymentError () :=
  match attemptFinishedAt a with
  | None => st_throw (ErrInvalid "terminal attempt requires finish time")
  | Some finished =>
      if is_zero finished then st_throw (ErrInvalid "terminal attempt requires finish time")
      else
        st_bind (updateAttempts
          (λ r, bool_decide (arow_id r = attemptID a) &&
                bool_decide (arow_deployment_id r = deploymentID d) &&
                bool_decide (arow_status r = Running))
          (finishAttemptRow a)) (λ count,
        st_bind (requireOneRunning count) (λ _ t,
        updateDeployments
          (λ r, bool_decide (row_id r = deploymentID d) && bool_decide (row_status r = Running) &&
                noNewerAttempt t r (attemptNumber a))
          (transitionRow (attemptStatus a) (attemptErrorCode a) (attemptPhase a)
             (attemptFinishedAt a) (detailsFromDeployment d (attemptOutcome a))) t))
  end.

Definition isTerminalStatus (s : Status) : bool :=
  match s with Succeeded | Failed | Interrupted => true | _ => false end.

Definition synchronizedRow (t : Tables) (r : attemptRow) : attemptRow :=
  match findRow t (arow_deployment_id r) with
  | Some d =>
      {| arow_id := arow_id r; arow_deployment_id := arow_deployment_id r;
         arow_number := arow_number r; arow_status := row_status d;
         arow_error_code := row_error_code d; arow_phase := row_phase d;
         arow_started_at := arow_started_at r; arow_finished_at := row_finished_at d;
         arow_outcome := detailsOutcome (row_details d) |}
  | None => r
  end.

Definition SynchronizeRunningAttempt (a : Attempt) : St Tables deploymentError bool :=
  λ t, st_bind (updateAttempts
         (λ r, bool_decide (arow_id r = attemptID a) &&
               bool_decide (arow_deployment_id r = attemptDeploymentID a) &&
               bool_decide (arow_status r = Running) &&
               match findRow t (arow_deployment_id r) with
               | Some d => isTerminalStatus (row_status d)
               | None => false
               end)
         (synchronizedRow t)) (λ count, st_ret (bool_decide (count = 1%nat))) t.

Definition SaveBaseline (id : string) : St Tables deploymentError () :=
  λ t, match findRow t id with
       | Some r =>
           if decide (row_status r = Succeeded)
           then st_bind (exec (setSnapshots t (<[row_stack r := id]> (desired_snapshots t))) 1)
                  (λ _, st_ret ()) t
           else (Ok (), t)
       | None => (Ok (), t)
       end.

Definition saveDetails (details : deploymentDetails) (r : deploymentRow) : deploymentRow :=
  transitionRow (row_status r) (row_error_code r) (row_phase r) (row_finished_at r) details r.

Definition SaveVerification (d : Deployment) : St Tables deploymentError () :=
  updateDeployments
    (λ r, bool_decide (row_id r = deploymentID d) && bool_decide (row_status r = Running))
    (saveDetails (detailsFromDeployment d (deploymentOutcome d))).

Definition SaveInitJobExecution (e : InitJobExecution) : St Tables deploymentError () :=
  if is_zero (jobStartedAt e) || is_zero (jobFinishedAt e)
  then st_throw (ErrInvalid "init job execution timestamps are required")
  else λ t,
    st_bind
      (exec (setInitJobs t (deployment_init_jobs t ++
         [{| jrow_attempt_id := jobAttemptID e; jrow_ordinal := Ordinal e;
             jrow_service_name := jobServiceName e; jrow_job_name := JobName e;
             jrow_status := jobStatus e; jrow_started_at := jobStartedAt e;
             jrow_finished_at := jobFinishedAt e;
             jrow_logs := if LogsAvailable e then Some (Logs e) else None;
             jrow_logs_truncated := LogsTruncated e |}])) 1)
      (λ _, st_ret ()) t.
