(* ===== verification/DeploymentInvariant.v ===== *)
(** * The invariant of the deployment tables

    [inv] is what the lifecycle keeps true of the tables beyond their schema:
    attempts are numbered without gaps, only the latest attempt of a deployment
    can be running and the deployment projects it, only the newest deployment
    of a stack can be running, and a baseline names a successful deployment of
    its stack. Every statement of [DeploymentStore] that changes them is shown
    to keep it, under the conditions its callers establish. *)
From S2P Require Import Prelude GoStrings Comparison Deployments DeploymentStore.

(** ** The invariant *)
Definition mirrors (r : deploymentRow) (rows : list attemptRow) : Prop :=
  ∀ older a, rows = older ++ [a] →
    arow_status a = row_status r ∧ arow_finished_at a = row_finished_at r ∧
    (row_status r ≠ Running →
     arow_error_code a = row_error_code r ∧ arow_phase a = row_phase r ∧
     arow_outcome a = detailsOutcome (row_details r)) ∧
    Forall (λ b, arow_status b ≠ Running) older.

Record inv (t : Tables) : Prop := {
  inv_schema : schema t;
  inv_numbers : ∀ id, arow_number <$> attemptRows t id =
    seqZ 1 (Z.of_nat (length (attemptRows t id)));
  inv_mirror : ∀ r, r ∈ deployments t → mirrors r (attemptRows t (row_id r));
  inv_newest : ∀ r newer, before (deployments t) r newer →
    row_stack r = row_stack newer → row_status r ≠ Running;
  inv_baseline : ∀ stack id, desired_snapshots t !! stack = Some id →
    ∃ r, r ∈ deployments t ∧ row_id r = id ∧ row_stack r = stack ∧ row_status r = Succeeded;
}.

Lemma emptyTables_inv : inv emptyTables.
Proof.
  split; simpl; try done.
  - by apply (bool_decide_eq_true (schema emptyTables)); vm_compute.
  - intros r Hr. by apply elem_of_nil in Hr.
  - intros r newer Hb. by apply before_nil in Hb.
Qed.

(** ** Lists *)
Section Lists.
Context {A : Type}.
Implicit Types (l : list A) (p : A → bool).

Lemma elem_of_updateWhere p f l x :
  x ∈ updateWhere p f l ↔ ∃ y, y ∈ l ∧ x = if p y then f y else y.
Proof. unfold updateWhere. rewrite list_elem_of_fmap. naive_solver. Qed.

Lemma updateWhere_app p f l1 l2 :
  updateWhere p f (l1 ++ l2) = updateWhere p f l1 ++ updateWhere p f l2.
Proof. apply fmap_app. Qed.

Lemma updateWhere_none p f l :
  (∀ x, x ∈ l → p x = false) → updateWhere p f l = l.
Proof.
  induction l as [|x l IH]; intros H; simpl; [done|].
  rewrite (H x), IH; [done|set_solver..].
Qed.

Lemma updateWhere_filter (Q : A → Prop) `{!∀ x, Decision (Q x)} p f l :
  (∀ x, Q (if p x then f x else x) ↔ Q x) →
  filter Q (updateWhere p f l) = updateWhere p f (filter Q l).
Proof.
  intros HQ. unfold updateWhere. induction l as [|x l IH]; [done|].
  rewrite fmap_cons, !filter_cons. specialize (HQ x).
  destruct (decide (Q x)), (decide (Q (if p x then f x else x)));
    rewrite ?fmap_cons, IH; tauto.
Qed.

Lemma updateWhere_proj {B} (g : A → B) p f l :
  (∀ x, g (f x) = g x) → g <$> updateWhere p f l = g <$> l.
Proof.
  intros H. unfold updateWhere. rewrite <- list_fmap_compose.
  apply list_fmap_ext. intros i x _. simpl. by destruct (p x).
Qed.

Lemma before_updateWhere p f l x y :
  before (updateWhere p f l) x y →
  ∃ x' y', before l x' y' ∧ x = (if p x' then f x' else x') ∧ y = (if p y' then f y' else y').
Proof.
  unfold updateWhere. induction l as [|a l IH]; simpl.
  - by intros ?%before_nil.
  - rewrite before_cons. intros [[<- Hy]|H].
    + apply list_elem_of_fmap in Hy as (y' & -> & Hy).
      exists a, y'. rewrite before_cons. auto.
    + destruct (IH H) as (x' & y' & Hb & -> & ->).
      exists x', y'. rewrite before_cons. auto.
Qed.

Lemma countIf_elem p l : countIf p l = 1 → ∃ x, x ∈ l ∧ p x = true.
Proof.
  unfold countIf. intros H. destruct (List.filter p l) as [|x k] eqn:E; [done|].
  exists x. rewrite list_elem_of_In, <- filter_In, E. by left.
Qed.

Lemma countIf_unique p l x :
  x ∈ l → p x = true → NoDup l → (∀ y, y ∈ l → p y = true → y = x) → countIf p l = 1.
Proof.
  intros Hx Hp Hnd Hu. unfold countIf.
  destruct (list_elem_of_split l x Hx) as (l1 & l2 & ->).
  apply NoDup_app in Hnd as (_ & Hd & [Hx2 _]%NoDup_cons).
  assert (∀ k, (∀ y, y ∈ k → y ≠ x ∧ y ∈ l1 ++ x :: l2) → List.filter p k = []) as Hnone.
  { induction k as [|y k IH]; intros Hk; [done|]. simpl.
    destruct (p y) eqn:Ey; [|apply IH; set_solver].
    destruct (Hk y) as [Hne Hin]; [set_solver|]. by rewrite (Hu y Hin Ey) in Hne. }
  rewrite List.filter_app. simpl. rewrite Hp, !Hnone; [done| |]; intros y Hy.
  - split; [|set_solver]. by intros ->.
  - split; [|set_solver]. intros ->. apply (Hd x Hy). set_solver.
Qed.

Lemma find_elem p l x : List.find p l = Some x → x ∈ l ∧ p x = true.
Proof. intros H%find_some. by rewrite list_elem_of_In. Qed.

Lemma find_key {K} `{EqDecision K} (key : A → K) l x :
  NoDup (key <$> l) → x ∈ l → List.find (λ y, bool_decide (key y = key x)) l = Some x.
Proof.
  induction l as [|y l IH]; [set_solver|]. simpl. intros [Hy Hnd]%NoDup_cons Hx.
  case_bool_decide as Hk; [|apply IH; set_solver].
  apply elem_of_cons in Hx as [->|Hx]; [done|].
  destruct Hy. rewrite Hk. by apply list_elem_of_fmap_2.
Qed.

Lemma key_unique {K} (key : A → K) l x y :
  NoDup (key <$> l) → x ∈ l → y ∈ l → key x = key y → x = y.
Proof.
  induction l as [|z l IH]; [set_solver|]. simpl.
  intros [Hz Hnd]%NoDup_cons [->|Hx]%elem_of_cons [->|Hy]%elem_of_cons Hk; auto.
  - destruct Hz. rewrite Hk. by apply list_elem_of_fmap_2.
  - destruct Hz. rewrite <- Hk. by apply list_elem_of_fmap_2.
Qed.

Lemma NoDup_fmap_sublist {B} (g : A → B) l k :
  sublist k l → NoDup (g <$> l) → NoDup (g <$> k).
Proof. intros Hs Hnd. eapply sublist_NoDup; [exact Hnd|]. by apply fmap_sublist. Qed.

Lemma filter_updateWhere_sublist (Q : A → Prop) `{!∀ x, Decision (Q x)} p f l :
  (∀ x, p x = true → ¬ Q (f x)) → sublist (filter Q (updateWhere p f l)) (filter Q l).
Proof.
  intros HQ. unfold updateWhere. induction l as [|x l IH]; [done|].
  rewrite fmap_cons, !filter_cons. destruct (p x) eqn:Ep.
  - rewrite (decide_False (P := Q (f x))) by auto.
    destruct (decide (Q x)); [by constructor|done].
  - destruct (decide (Q x)); [by constructor|done].
Qed.
End Lists.

(** ** Statements *)
Lemma exec_ok t' n t m s : exec t' n t = (Ok m, s) → m = n ∧ s = t' ∧ schema t'.
Proof. unfold exec. case_decide; intros [= <- <-]; auto. Qed.

Lemma exec_schema t' n t : schema t' → exec t' n t = (Ok n, t').
Proof. intros. unfold exec. by rewrite decide_True. Qed.

Lemma requireOneRunning_ok n t u s :
  requireOneRunning n t = (Ok u, s) → n = 1 ∧ s = t.
Proof. unfold requireOneRunning. case_bool_decide; unfold st_ret, st_throw; naive_solver. Qed.

Lemma updateDeployments_ok p f t u t' :
  updateDeployments p f t = (Ok u, t') →
  schema t' ∧ t' = setDeployments t (updateWhere p f (deployments t)) ∧
  ∃ r, r ∈ deployments t ∧ p r = true.
Proof.
  unfold updateDeployments. intros H. st_inv.
  apply exec_ok in Hrun as (-> & -> & Hs). apply requireOneRunning_ok in H as [Hc ->].
  split; [done|]. split; [done|]. by apply countIf_elem.
Qed.

Lemma updateAttempts_ok p f t n t' :
  updateAttempts p f t = (Ok n, t') →
  schema t' ∧ t' = setAttempts t (updateWhere p f (deployment_attempts t)) ∧
  n = countIf p (deployment_attempts t).
Proof. unfold updateAttempts. intros (-> & -> & Hs)%exec_ok. done. Qed.

Section Rows.
Context (t : Tables) (Hinv : inv t).

Lemma row_unique r r' :
  r ∈ deployments t → r' ∈ deployments t → row_id r = row_id r' → r = r'.
Proof. destruct (inv_schema t Hinv) as [Hnd _]. by apply key_unique. Qed.

Lemma attempt_unique a a' :
  a ∈ deployment_attempts t → a' ∈ deployment_attempts t → arow_id a = arow_id a' → a = a'.
Proof. destruct (inv_schema t Hinv) as (_ & _ & _ & Hnd & _). by apply key_unique. Qed.

Lemma findRow_Some id r : findRow t id = Some r ↔ r ∈ deployments t ∧ row_id r = id.
Proof.
  unfold findRow. split.
  - intros [Hr Hid]%find_elem. by apply bool_decide_eq_true in Hid.
  - intros [Hr <-]. apply (find_key row_id); [|done].
    by destruct (inv_schema t Hinv) as [Hnd _].
Qed.

Lemma findAttempt_Some id a :
  findAttempt t id = Some a ↔ a ∈ deployment_attempts t ∧ arow_id a = id.
Proof.
  unfold findAttempt. split.
  - intros [Hr Hid]%find_elem. by apply bool_decide_eq_true in Hid.
  - intros [Hr <-]. apply (find_key arow_id); [|done].
    by destruct (inv_schema t Hinv) as (_ & _ & _ & Hnd & _).
Qed.

Lemma elem_of_attemptRows a id :
  a ∈ attemptRows t id ↔ a ∈ deployment_attempts t ∧ arow_deployment_id a = id.
Proof. unfold attemptRows. rewrite list_elem_of_filter. tauto. Qed.

(** A running attempt is the last of its deployment, which is running too. *)
Lemma running_attempt_last a r :
  a ∈ deployment_attempts t → arow_status a = Running →
  r ∈ deployments t → row_id r = arow_deployment_id a →
  row_status r = Running ∧ ∃ older, attemptRows t (row_id r) = older ++ [a] ∧
    Forall (λ b, arow_status b ≠ Running) older.
Proof.
  intros Ha Hrun Hr Hid.
  assert (a ∈ attemptRows t (row_id r)) as Hin by (rewrite elem_of_attemptRows; auto).
  pose proof (inv_mirror t Hinv r Hr) as Hm.
  destruct (attemptRows t (row_id r)) as [|b rows _] eqn:E using rev_ind; [set_solver|].
  destruct (Hm rows b eq_refl) as (Hst & _ & _ & Hold).
  apply elem_of_app in Hin as [Hin|Hin%list_elem_of_singleton].
  - rewrite Forall_forall in Hold. by destruct (Hold a Hin).
  - subst b. split; [congruence|]. eauto.
Qed.
End Rows.


(** ** Attempts in order *)
Lemma stable_insert_last {A} (lt : A → A → bool) x l :
  (∀ y, y ∈ l → lt y x = true) → stable_insert lt x l = l ++ [x].
Proof.
  induction l as [|y l IH]; intros H; simpl; [done|].
  rewrite (H y) by set_solver. rewrite IH; [done|set_solver].
Qed.

Lemma newestFirst_reverse rows k n :
  arow_number <$> rows = seqZ k n → newestFirst rows = reverse rows.
Proof.
  unfold newestFirst, stable_sort. revert k n.
  induction rows as [|a rows IH]; intros k n H; [done|].
  destruct (decide (0 < n)%Z); [|rewrite seqZ_nil in H by lia; done].
  rewrite seqZ_cons in H by lia. simpl in H. injection H as Ha H.
  simpl. rewrite (IH _ _ H), reverse_cons, stable_insert_last; [done|].
  intros b Hb. rewrite elem_of_reverse in Hb. apply Z.ltb_lt.
  assert (arow_number b ∈ seqZ (Z.succ k) (Z.pred n)) as Hn.
  { rewrite <- H. by apply list_elem_of_fmap_2. }
  apply elem_of_seqZ in Hn. lia.
Qed.

Lemma latest_attempt t r older a :
  inv t → attemptRows t (row_id r) = older ++ [a] →
  LatestAttemptID (deployment t r) = arow_id a.
Proof.
  intros Hinv E. unfold deployment. simpl.
  erewrite newestFirst_reverse by apply (inv_numbers t Hinv).
  by rewrite E, reverse_snoc.
Qed.

Lemma attempts_head t r older a :
  inv t → attemptRows t (row_id r) = older ++ [a] →
  ∃ rest, Attempts (deployment t r) = attempt (initJobs t (arow_id a)) a :: rest.
Proof.
  intros Hinv E. unfold deployment, attempts. simpl.
  erewrite newestFirst_reverse by apply (inv_numbers t Hinv).
  rewrite E, reverse_snoc. simpl. eauto.
Qed.

Lemma attempts_nil t r : attemptRows t (row_id r) = [] → Attempts (deployment t r) = [].
Proof. intros E. unfold deployment, attempts. simpl. by rewrite E. Qed.

Lemma attempt_numbers_bound t id older a :
  inv t → attemptRows t id = older ++ [a] →
  ∀ b, b ∈ attemptRows t id → (arow_number b ≤ arow_number a)%Z.
Proof.
  intros Hinv E b Hb. pose proof (inv_numbers t Hinv id) as Hn.
  assert (arow_number b ∈ arow_number <$> attemptRows t id) as Hin
    by by apply list_elem_of_fmap_2.
  rewrite Hn, elem_of_seqZ in Hin.
  rewrite E, fmap_app, length_app in Hn. simpl in Hn.
  rewrite Nat2Z.inj_add, seqZ_app in Hn by lia. apply app_inj_tail in Hn as [_ Hn].
  rewrite E, length_app in Hin. simpl in Hin. lia.
Qed.

Lemma deployment_row t id r : inv t → r ∈ deployments t → row_id r = id →
  Get id t = (Ok (deployment t r), t).
Proof.
  intros Hinv Hr Hid. unfold Get, notFound.
  by rewrite (proj2 (findRow_Some t Hinv id r)).
Qed.

Lemma updateWhere_ext {A} (p q : A → bool) f l :
  (∀ x, x ∈ l → p x = q x) → updateWhere p f l = updateWhere q f l.
Proof.
  intros H. unfold updateWhere. apply list_fmap_ext. intros i x Hx.
  by rewrite (H x) by (by eapply list_elem_of_lookup_2).
Qed.

(** ** Finishing an attempt *)
Definition finishTables (t : Tables) (d : Deployment) (a : Attempt) : Tables :=
  setDeployments
    (setAttempts t (updateWhere (λ y, bool_decide (arow_id y = attemptID a))
                      (finishAttemptRow a) (deployment_attempts t)))
    (updateWhere (λ y, bool_decide (row_id y = deploymentID d))
       (transitionRow (attemptStatus a) (attemptErrorCode a) (attemptPhase a)
          (attemptFinishedAt a) (detailsFromDeployment d (attemptOutcome a))) (deployments t)).

Lemma map_to_list_values_NoDup (m : gmap string string) :
  NoDup ((map_to_list m).*2) ↔
  ∀ i j x, m !! i = Some x → m !! j = Some x → i = j.
Proof.
  split.
  - intros Hnd i j x Hi Hj.
    apply elem_of_map_to_list in Hi, Hj.
    pose proof (key_unique snd _ _ _ Hnd Hi Hj eq_refl). congruence.
  - intros H. apply NoDup_fmap_2_strong; [|apply NoDup_map_to_list].
    intros [i x] [j y] Hi%elem_of_map_to_list Hj%elem_of_map_to_list Hxy.
    simpl in Hxy. subst y. by rewrite (H i j x Hi Hj).
Qed.

Section Finish.
Context (t : Tables) (Hinv : inv t) (d : Deployment) (a : Attempt) (now : Time).
Context (x : attemptRow) (r : deploymentRow).
Hypothesis Hx : x ∈ deployment_attempts t.
Hypothesis Hxid : arow_id x = attemptID a.
Hypothesis Hxnum : arow_number x = attemptNumber a.
Hypothesis Hxrun : arow_status x = Running.
Hypothesis Hr : r ∈ deployments t.
Hypothesis Hrid : row_id r = deploymentID d.
Hypothesis Hxr : arow_deployment_id x = row_id r.
Hypothesis Hstatus : attemptStatus a ∈ [Succeeded; Failed; Interrupted].
Hypothesis Hfinished : attemptFinishedAt a = Some now.
Hypothesis Hnow : now ≠ 0%Z.

Lemma finish_last : row_status r = Running ∧
  ∃ older, attemptRows t (row_id r) = older ++ [x] ∧ Forall (λ b, arow_status b ≠ Running) older.
Proof. by apply (running_attempt_last t Hinv x r). Qed.

Lemma finish_status : attemptStatus a ≠ Running ∧ attemptStatus a ≠ Superseded.
Proof. clear - Hstatus. destruct (attemptStatus a); set_solver. Qed.

Lemma finish_rowIDs : rowIDs (finishTables t d a) = rowIDs t.
Proof. unfold rowIDs. simpl. by apply updateWhere_proj. Qed.

Lemma finish_check : statusCheck (attemptStatus a) (attemptFinishedAt a).
Proof.
  destruct finish_status as [Hnr Hns].
  rewrite Hfinished. split; [done|]. split; [done|intros [=]].
Qed.

Lemma finish_attempts_schema :
  schema (setAttempts t (updateWhere (λ y, bool_decide (arow_id y = attemptID a))
                           (finishAttemptRow a) (deployment_attempts t))).
Proof.
  destruct (inv_schema t Hinv) as (H1 & H2 & H3 & H4 & H5 & H6 & H7 & H8 & H9 & H10 & H11).
  destruct finish_status as [Hnr Hns]. pose proof finish_check as Hcheck.
  unfold schema. simpl. rewrite !updateWhere_proj by done.
  do 5 (split; [done|]). split.
  { eapply NoDup_fmap_sublist; [|exact H6]. by apply filter_updateWhere_sublist. }
  split; [|done].
  rewrite Forall_forall in *. intros y (z & Hz & ->)%elem_of_updateWhere.
  destruct (H7 z Hz) as (? & ? & ?). by case_bool_decide.
Qed.

Lemma finish_schema : schema (finishTables t d a).
Proof.
  destruct finish_attempts_schema as (H1 & H2 & H3 & H4 & H5 & H6 & H7 & H8 & H9 & H10 & H11).
  destruct finish_status as [Hnr Hns]. pose proof finish_check as Hcheck.
  unfold schema. rewrite finish_rowIDs. unfold finishTables.
  split; [done|]. split.
  { eapply NoDup_fmap_sublist; [|exact H2]. by apply filter_updateWhere_sublist. }
  split; [|done].
  rewrite Forall_forall in *. intros y (z & Hz & ->)%elem_of_updateWhere.
  case_bool_decide; [done|by apply H3].
Qed.

Lemma finish_attemptRows id :
  attemptRows (finishTables t d a) id =
  updateWhere (λ y, bool_decide (arow_id y = attemptID a)) (finishAttemptRow a) (attemptRows t id).
Proof.
  unfold attemptRows. simpl. apply updateWhere_filter. intros y. by case_bool_decide.
Qed.

Lemma finish_attemptRows_same :
  ∃ older, attemptRows t (row_id r) = older ++ [x] ∧
    Forall (λ b, arow_status b ≠ Running) older ∧
    attemptRows (finishTables t d a) (row_id r) = older ++ [finishAttemptRow a x].
Proof.
  destruct finish_last as (_ & older & E & Hold). exists older. split; [done|]. split; [done|].
  rewrite finish_attemptRows, E, updateWhere_app. f_equal.
  - apply updateWhere_none. intros y Hy. apply bool_decide_eq_false. intros Hid.
    rewrite Forall_forall in Hold. apply (Hold y Hy).
    assert (y ∈ attemptRows t (row_id r)) as [Hin _]%elem_of_attemptRows by (rewrite E; set_solver).
    by rewrite (attempt_unique t Hinv y x Hin Hx) by congruence.
  - unfold updateWhere. simpl. by rewrite bool_decide_eq_true_2.
Qed.

Lemma finish_attemptRows_other id :
  id ≠ row_id r → attemptRows (finishTables t d a) id = attemptRows t id.
Proof.
  intros Hid. rewrite finish_attemptRows. apply updateWhere_none.
  intros y [Hy Hdep]%elem_of_attemptRows. apply bool_decide_eq_false. intros Hyid.
  destruct Hid. rewrite <- Hdep. by rewrite (attempt_unique t Hinv y x Hy Hx) by congruence.
Qed.

Lemma finish_inv : inv (finishTables t d a).
Proof.
  destruct finish_status as [Hnr Hns]. destruct finish_last as [Hrun _].
  split.
  - apply finish_schema.
  - intros id. rewrite finish_attemptRows, updateWhere_proj by done.
    unfold updateWhere. rewrite length_fmap. apply (inv_numbers t Hinv).
  - simpl. intros y (z & Hz & ->)%elem_of_updateWhere.
    case_bool_decide as Hid; simpl.
    + assert (row_id z = row_id r) as Hzr by congruence. rewrite Hzr.
      destruct finish_attemptRows_same as (older & E & Hold & ->).
      intros o b [-> <-]%app_inj_tail. simpl. split_and!; auto.
    + assert (row_id z ≠ row_id r) as Hzr by congruence.
      rewrite finish_attemptRows_other by done. by apply (inv_mirror t Hinv).
  - simpl. intros y newer (y' & n' & Hb & -> & ->)%before_updateWhere Hstack.
    assert (row_stack y' = row_stack n') by (clear - Hstack; by destruct (bool_decide _), (bool_decide _)).
    case_bool_decide; [done|]. by apply (inv_newest t Hinv y' n').
  - simpl. intros stack id (z & Hz & Hzid & Hzs & Hst)%(inv_baseline t Hinv).
    exists z. split_and!; try done. apply elem_of_updateWhere. exists z. split; [done|].
    case_bool_decide as Hzd; [|done].
    rewrite (row_unique t Hinv z r Hz Hr) in Hst by congruence. congruence.
Qed.

Lemma FinishAttempt_run : FinishAttempt d a t = (Ok (), finishTables t d a).
Proof.
  destruct finish_last as (Hrun & older & E & Hold).
  pose proof finish_schema as Hs. unfold finishTables in Hs.
  unfold FinishAttempt, finishTables. rewrite Hfinished in *.
  unfold is_zero. rewrite bool_decide_eq_false_2 by done.
  set (p := λ y, bool_decide (arow_id y = attemptID a) && bool_decide (arow_deployment_id y = deploymentID d) &&
                 bool_decide (arow_status y = Running)).
  assert (∀ y, y ∈ deployment_attempts t → p y = bool_decide (arow_id y = attemptID a)) as Hp.
  { intros y Hy. unfold p. case_bool_decide as Hid; [|done].
    rewrite (attempt_unique t Hinv y x Hy Hx) by congruence.
    by rewrite !bool_decide_eq_true_2 by congruence. }
  destruct (inv_schema t Hinv) as (H1 & _ & _ & H4 & _).
  unfold st_bind, updateAttempts.
  rewrite (updateWhere_ext p (λ y, bool_decide (arow_id y = attemptID a))) by done.
  rewrite exec_schema by apply finish_attempts_schema.
  rewrite (countIf_unique p _ x); try done.
  2:{ rewrite Hp by done. by apply bool_decide_eq_true. }
  2:{ by eapply NoDup_fmap_1. }
  2:{ intros y Hy. rewrite Hp by done. intros Hid%bool_decide_eq_true.
      by apply (attempt_unique t Hinv); [| |congruence]. }
  unfold requireOneRunning. rewrite bool_decide_eq_true_2 by done. unfold st_ret.
  unfold updateDeployments. simpl.
  set (q := λ y, bool_decide (row_id y = deploymentID d) && bool_decide (row_status y = Running) && _).
  assert (∀ y, y ∈ deployments t → q y = bool_decide (row_id y = deploymentID d)) as Hq.
  { intros y Hy. unfold q. case_bool_decide as Hid; [|done].
    rewrite (row_unique t Hinv y r Hy Hr) by congruence.
    rewrite bool_decide_eq_true_2 by done. unfold noNewerAttempt. simpl.
    apply forallb_forall. intros b Hb%list_elem_of_In. apply Z.leb_le.
    change (b ∈ attemptRows (finishTables t d a) (row_id r)) in Hb.
    rewrite finish_attemptRows in Hb. apply elem_of_updateWhere in Hb as (c & Hc & ->).
    pose proof (attempt_numbers_bound t _ _ _ Hinv E c Hc).
    rewrite <- Hxnum. by case_bool_decide. }
  rewrite (updateWhere_ext q (λ y, bool_decide (row_id y = deploymentID d))) by done.
  unfold st_bind. rewrite exec_schema by exact Hs.
  rewrite (countIf_unique q _ r); try done.
  - rewrite Hq by done. by apply bool_decide_eq_true.
  - by eapply NoDup_fmap_1.
  - intros y Hy. rewrite Hq by done. intros Hid%bool_decide_eq_true.
    by apply (row_unique t Hinv); [| |congruence].
Qed.
End Finish.

(** ** The other statements *)
Definition insertedRow (a : Attempt) : attemptRow :=
  {| arow_id := attemptID a; arow_deployment_id := attemptDeploymentID a;
     arow_number := attemptNumber a; arow_status := attemptStatus a;
     arow_error_code := attemptErrorCode a; arow_phase := attemptPhase a;
     arow_started_at := attemptStartedAt a; arow_finished_at := None;
     arow_outcome := insertedOutcome (attemptOutcome a) |}.

Lemma insertAttemptRow_ok a t u t' :
  insertAttemptRow a t = (Ok u, t') →
  schema t' ∧ t' = setAttempts t (deployment_attempts t ++ [insertedRow a]).
Proof.
  unfold insertAttemptRow. destruct (is_zero _); [done|]. intros H. st_inv.
  by apply exec_ok in Hrun as (-> & -> & Hs).
Qed.

Lemma attemptRows_append t deps a id :
  attemptRows (setDeployments (setAttempts t (deployment_attempts t ++ [a])) deps) id =
  if decide (arow_deployment_id a = id) then attemptRows t id ++ [a] else attemptRows t id.
Proof.
  unfold attemptRows. simpl. rewrite filter_app, filter_cons, filter_nil.
  destruct (decide _); [done|]. by rewrite app_nil_r.
Qed.

Lemma numbers_append (rows : list attemptRow) a :
  arow_number <$> rows = seqZ 1 (Z.of_nat (length rows)) →
  arow_number a = (Z.of_nat (length rows) + 1)%Z →
  arow_number <$> (rows ++ [a]) = seqZ 1 (Z.of_nat (length (rows ++ [a]))).
Proof.
  intros Hrows Ha. rewrite fmap_app, Hrows, length_app. simpl.
  rewrite Nat2Z.inj_add, seqZ_app by lia. f_equal. simpl. rewrite Ha.
  change (seqZ _ (Z.of_nat 1)) with [(1 + Z.of_nat (length rows))%Z]. f_equal. lia.
Qed.

Lemma statusCheck_running t r :
  inv t → r ∈ deployments t → row_status r = Running → row_finished_at r = None.
Proof.
  intros Hinv Hr Hrun. destruct (inv_schema t Hinv) as (_ & _ & H & _).
  rewrite Forall_forall in H. destruct (H r Hr) as [_ Hf]. by apply Hf.
Qed.

(** A first attempt for a running deployment that has none. *)
Lemma InsertLegacyAttempt_inv t a u t' r :
  inv t → r ∈ deployments t → row_status r = Running → attemptRows t (row_id r) = [] →
  attemptDeploymentID a = row_id r → attemptNumber a = 1%Z → attemptStatus a = Running →
  InsertLegacyAttempt a t = (Ok u, t') → inv t'.
Proof.
  intros Hinv Hr Hrun Hnone Hdep Hnum Hst [Hs ->]%insertAttemptRow_ok.
  assert (∀ id, attemptRows (setAttempts t (deployment_attempts t ++ [insertedRow a])) id =
    if decide (row_id r = id) then [insertedRow a] else attemptRows t id) as Hrows.
  { intros id. pose proof (attemptRows_append t (deployments t) (insertedRow a) id) as H.
    simpl in H. rewrite Hdep in H. etrans; [exact H|].
    case_decide as Hid; [|done]. by rewrite <- Hid, Hnone. }
  split; [done|..].
  - intros id. rewrite Hrows. case_decide as Hid; [|apply (inv_numbers t Hinv)].
    simpl. by rewrite Hnum.
  - simpl. intros y Hy. rewrite Hrows. case_decide as Hid; [|by apply (inv_mirror t Hinv)].
    rewrite <- (row_unique t Hinv r y) in * by done.
    intros older b E. destruct older as [|c [|]]; simplify_eq/=. split_and!; [congruence| |congruence|done].
    by rewrite (statusCheck_running t r).
  - apply (inv_newest t Hinv).
  - apply (inv_baseline t Hinv).
Qed.

Lemma attempt_deployment_known t a :
  inv t → a ∈ deployment_attempts t → arow_deployment_id a ∈ rowIDs t.
Proof.
  intros Hinv Ha. destruct (inv_schema t Hinv) as (_ & _ & _ & _ & _ & _ & H & _).
  rewrite Forall_forall in H. by destruct (H a Ha) as (_ & ? & _).
Qed.

(** A new desired state with its first attempt. *)
Lemma CreateDeployment_inv t d desired a u t' :
  inv t → deploymentStatus d = Running → attemptStatus a = Running →
  attemptDeploymentID a = deploymentID d → attemptNumber a = 1%Z →
  CreateDeployment d desired a t = (Ok u, t') → inv t'.
Proof.
  intros Hinv Hd Ha Hdep Hnum. unfold CreateDeployment.
  destruct (is_zero _); [done|]. intros H. st_inv.
  apply exec_ok in Hrun as (-> & -> & Hs1).
  apply insertAttemptRow_ok in H as [Hs ->].
  set (row := {| row_id := deploymentID d |}) in *.
  assert (row_id row ∉ rowIDs t) as Hnew.
  { destruct Hs1 as [Hnd _]. unfold rowIDs in Hnd. simpl in Hnd.
    rewrite fmap_app in Hnd. apply NoDup_app in Hnd as (_ & Hd' & _).
    intros Hin. apply (Hd' _ Hin). simpl. set_solver. }
  assert (attemptRows t (row_id row) = []) as Hnone.
  { apply list_filter_none, Forall_forall. intros b Hb Hbid.
    apply Hnew. rewrite <- Hbid. by apply attempt_deployment_known. }
  assert (∀ id, attemptRows (setAttempts (setDeployments t (deployments t ++ [row]))
      (deployment_attempts t ++ [insertedRow a])) id =
    if decide (row_id row = id) then [insertedRow a] else attemptRows t id) as Hrows.
  { intros id. pose proof (attemptRows_append t (deployments t) (insertedRow a) id) as H.
    simpl in H. rewrite Hdep in H. etrans; [exact H|].
    change (row_id row) with (deploymentID d) in *.
    case_decide as Hid; [|done]. by rewrite <- Hid, Hnone. }
  split; [done|..].
  - intros id. rewrite Hrows. case_decide as Hid; [|apply (inv_numbers t Hinv)].
    simpl. by rewrite Hnum.
  - simpl. intros y Hy. rewrite Hrows. case_decide as Hid.
    + apply elem_of_app in Hy as [Hy|Hy%list_elem_of_singleton].
      { destruct Hnew. rewrite Hid. by apply list_elem_of_fmap_2. }
      subst y. intros older b E. destruct older as [|c [|]]; simplify_eq/=.
      split_and!; [congruence|done|congruence|done].
    + apply elem_of_app in Hy as [Hy|Hy%list_elem_of_singleton]; [|by subst y].
      by apply (inv_mirror t Hinv).
  - simpl. intros y newer [Hb|[[Hy Hnewer]|Hb]]%before_app Hstack.
    + by apply (inv_newest t Hinv y newer).
    + apply list_elem_of_singleton in Hnewer as ->. intros Hrun.
      destruct Hs1 as (_ & Hnd & _). simpl in Hnd.
      rewrite filter_app, fmap_app in Hnd. apply NoDup_app in Hnd as (_ & Hdis & _).
      apply (Hdis (row_stack y)).
      * apply list_elem_of_fmap_2. by apply list_elem_of_filter.
      * rewrite filter_cons, decide_True by done. rewrite Hstack. set_solver.
    + apply before_cons in Hb as [[_ Hb]|Hb]; [set_solver|by apply before_nil in Hb].
  - simpl. intros stack id (z & Hz & ?)%(inv_baseline t Hinv).
    exists z. rewrite elem_of_app. auto.
Qed.

Lemma latestRow_newest t stack r :
  latestRow t stack = Some r →
  r ∈ deployments t ∧ row_stack r = stack ∧
  (NoDup (deployments t) → ∀ newer, before (deployments t) r newer → row_stack newer ≠ stack).
Proof.
  unfold latestRow. intros (l & E)%last_Some.
  assert (r ∈ filter (λ r, row_stack r = stack) (deployments t)) as Hr by (rewrite E; set_solver).
  apply list_elem_of_filter in Hr as [Hs Hr]. split; [done|]. split; [done|].
  intros Hnd newer Hb Hn. pose proof (NoDup_filter (λ r, row_stack r = stack) _ Hnd) as Hnd'.
  assert (before (filter (λ r, row_stack r = stack) (deployments t)) r newer) as Hf
    by (apply before_filter; auto).
  rewrite E in Hf, Hnd'. apply NoDup_app in Hnd' as (_ & Hd & _).
  apply before_app in Hf as [Hf|[[Hf _]|Hf]].
  - apply before_elem in Hf as [Hf _]. apply (Hd _ Hf). set_solver.
  - apply (Hd _ Hf). set_solver.
  - apply before_cons in Hf as [[_ Hf]|Hf]; [set_solver|by apply before_nil in Hf].
Qed.

Lemma deployments_NoDup t : inv t → NoDup (deployments t).
Proof. intros Hinv. destruct (inv_schema t Hinv) as [H _]. by eapply NoDup_fmap_1. Qed.

(** A retry of the newest deployment of its stack. *)
Lemma StartAttempt_inv t r a u t' :
  inv t → latestRow t (row_stack r) = Some r →
  attemptDeploymentID a = row_id r → attemptStatus a = Running →
  attemptNumber a = (Z.of_nat (length (attemptRows t (row_id r))) + 1)%Z →
  StartAttempt (deployment t r) a t = (Ok u, t') → inv t'.
Proof.
  intros Hinv Hlatest Hdep Hst Hnum. unfold StartAttempt. intros H. st_inv.
  apply insertAttemptRow_ok in Hrun as [_ ->].
  apply updateDeployments_ok in H as (Hs & -> & q & Hq & Hp). simpl in Hq, Hs.
  apply andb_prop in Hp as [Hqid%bool_decide_eq_true Hqst%bool_decide_eq_true].
  apply latestRow_newest in Hlatest as (Hr & _ & Hnewest).
  specialize (Hnewest (deployments_NoDup t Hinv)).
  assert (q = r) as -> by (by apply (row_unique t Hinv)).
  assert (∀ y, y ∈ attemptRows t (row_id r) → arow_status y ≠ Running) as Hdone.
  { intros y [Hy Hyd]%elem_of_attemptRows Hyr.
    destruct (running_attempt_last t Hinv y r Hy Hyr Hr ltac:(done)) as [Hrr _].
    rewrite Hrr in Hqst. by destruct Hqst. }
  set (f := transitionRow _ _ _ _ _) in *. set (p := λ y : deploymentRow, _ && _) in *.
  set (t' := setDeployments _ _) in *.
  assert (∀ id, attemptRows t' id =
    if decide (row_id r = id) then attemptRows t id ++ [insertedRow a] else attemptRows t id) as Hrows.
  { intros id. unfold t'. rewrite attemptRows_append. simpl. by rewrite Hdep. }
  assert (∀ y, y ∈ deployments t → p y = bool_decide (row_id y = row_id r)) as Hpe.
  { intros y Hy. unfold p. simpl. case_bool_decide as Hid; [|done].
    rewrite (row_unique t Hinv y r Hy Hr Hid). by apply bool_decide_eq_true. }
  unfold t' in *. rewrite (updateWhere_ext _ _ f _ Hpe) in *.
  split; [done|..].
  - intros id. rewrite Hrows. case_decide as Hid; [|apply (inv_numbers t Hinv)].
    subst id. apply numbers_append; [apply (inv_numbers t Hinv)|done].
  - simpl. intros y (z & Hz & ->)%elem_of_updateWhere.
    case_bool_decide as Hid; rewrite Hrows; simpl; case_decide as Hid'; try congruence.
    + intros older b [<- <-]%app_inj_tail. simpl. split_and!; [done|done|done|].
      rewrite Hid. by apply Forall_forall.
    + by apply (inv_mirror t Hinv).
  - simpl. intros y newer (y' & n' & Hb & -> & ->)%before_updateWhere Hstack.
    assert (row_stack y' = row_stack n') as Hst' by (clear - Hstack; by destruct (bool_decide _), (bool_decide _)).
    case_bool_decide as Hid; [|by apply (inv_newest t Hinv y' n')].
    assert (y' = r) as -> by (apply (row_unique t Hinv); [by apply before_elem in Hb as [? _]|done|done]).
    by destruct (Hnewest n' Hb).
  - simpl. intros stack id (z & Hz & Hzid & Hzs & Hzst)%(inv_baseline t Hinv).
    exists z. split_and!; try done. apply elem_of_updateWhere. exists z. split; [done|].
    case_bool_decide as Hid; [|done].
    rewrite (row_unique t Hinv z r Hz Hr Hid) in Hzst. rewrite Hzst in Hqst. by destruct Hqst.
Qed.

Lemma SaveVerification_inv d t u t' : inv t → SaveVerification d t = (Ok u, t') → inv t'.
Proof.
  intros Hinv (Hs & -> & _)%updateDeployments_ok.
  set (f := saveDetails _) in *. set (p := λ r : deploymentRow, _ && _) in *.
  assert (∀ y, p y = true → row_status y = Running) as Hp.
  { intros y [_ Hy%bool_decide_eq_true]%andb_prop. done. }
  split; [done|..].
  - apply (inv_numbers t Hinv).
  - simpl. intros y (z & Hz & ->)%elem_of_updateWhere. destruct (p z) eqn:Ez; [|by apply (inv_mirror t Hinv)].
    intros older a E. destruct (inv_mirror t Hinv z Hz older a E) as (H1 & H2 & _ & H4).
    simpl. split_and!; try done. intros Hne. by rewrite Hp in Hne.
  - simpl. intros y newer (y' & n' & Hb & -> & ->)%before_updateWhere Hstack.
    assert (row_stack y' = row_stack n') as Hst' by (clear - Hstack; by destruct (p y'), (p n')).
    pose proof (inv_newest t Hinv y' n' Hb Hst'). by destruct (p y').
  - simpl. intros stack id (z & Hz & Hzid & Hzs & Hzst)%(inv_baseline t Hinv).
    exists z. split_and!; try done. apply elem_of_updateWhere. exists z. split; [done|].
    destruct (p z) eqn:Ez; [|done]. by rewrite (Hp z Ez) in Hzst.
Qed.

Definition baselineTables (t : Tables) (r : deploymentRow) : Tables :=
  setSnapshots t (<[row_stack r := row_id r]> (desired_snapshots t)).

(** The baseline of a successful deployment. *)
Lemma SaveBaseline_run t r :
  inv t → r ∈ deployments t → row_status r = Succeeded →
  SaveBaseline (row_id r) t = (Ok (), baselineTables t r) ∧ inv (baselineTables t r).
Proof.
  intros Hinv Hr Hst.
  assert (schema (baselineTables t r)) as Hs.
  { destruct (inv_schema t Hinv) as (H1 & H2 & H3 & H4 & H5 & H6 & H7 & H8 & H9 & H10 & H11).
    do 9 (split; [done|]). unfold baselineTables. simpl. split.
    - apply map_to_list_values_NoDup. rewrite map_to_list_values_NoDup in H10.
      assert (∀ stack, desired_snapshots t !! stack = Some (row_id r) → stack = row_stack r) as Hown.
      { intros stack (z & Hz & Hid & <- & _)%(inv_baseline t Hinv).
        by rewrite (row_unique t Hinv z r). }
      intros i j x. rewrite !lookup_insert_Some. naive_solver.
    - rewrite Forall_forall in *. intros [stack id] [[<- <-]|[_ Hi]]%elem_of_map_to_list%lookup_insert_Some.
      + simpl. by apply list_elem_of_fmap_2.
      + apply (H11 (stack, id)). by apply elem_of_map_to_list. }
  split.
  - unfold SaveBaseline. rewrite (proj2 (findRow_Some t Hinv _ r)) by done.
    rewrite decide_True by done. unfold st_bind. by rewrite exec_schema.
  - split; [done|apply (inv_numbers t Hinv)|apply (inv_mirror t Hinv)|apply (inv_newest t Hinv)|].
    simpl. intros stack id [[<- <-]|[_ Hi]]%lookup_insert_Some; [eauto|by apply (inv_baseline t Hinv)].
Qed.

(** Under the invariant there is nothing to repair. *)
Lemma SynchronizeRunningAttempt_idle t a :
  inv t → SynchronizeRunningAttempt a t = (Ok false, t).
Proof.
  intros Hinv. unfold SynchronizeRunningAttempt, updateAttempts, st_bind.
  set (p := λ r : attemptRow, _ && _).
  assert (∀ y, y ∈ deployment_attempts t → p y = false) as Hp.
  { intros y Hy. unfold p. case_bool_decide; [|done]. case_bool_decide; [|done].
    case_bool_decide as Hrun; [|done]. simpl.
    destruct (findRow t (arow_deployment_id y)) as [r|] eqn:E; [|done].
    apply (findRow_Some t Hinv) in E as [Hr Hrid].
    by destruct (running_attempt_last t Hinv y r Hy Hrun Hr Hrid) as [-> _]. }
  rewrite updateWhere_none by done.
  assert (countIf p (deployment_attempts t) = 0) as ->.
  { unfold countIf. clearbody p. clear - Hp. induction (deployment_attempts t) as [|y l IH]; [done|].
    simpl. rewrite (Hp y) by set_solver. apply IH. set_solver. }
  replace (setAttempts t (deployment_attempts t)) with t by (by destruct t).
  by rewrite exec_schema by apply (inv_schema t Hinv).
Qed.

Lemma SaveInitJobExecution_inv e t u t' :
  inv t → SaveInitJobExecution e t = (Ok u, t') → inv t'.
Proof.
  intros Hinv. unfold SaveInitJobExecution. destruct (_ || _); [done|]. intros H. st_inv.
  apply exec_ok in Hrun as (-> & -> & Hs). split; [done|apply (inv_numbers t Hinv)|
    apply (inv_mirror t Hinv)|apply (inv_newest t Hinv)|apply (inv_baseline t Hinv)].
Qed.
