(* ===== verification/DeploymentService.v ===== *)
(** * The deployment lifecycle ([internal/modules/deployments])

    [service.go], [completion.go] and [verification.go]: creating, retrying,
    completing and interrupting attempts. [World] is the database of the
    deployment tables together with the state [P] of the event publisher, whose
    [publish] is the interface [Publisher]. A transaction runs at one instant
    [now]; [uuid.NewString] values are arguments. *)
From S2P Require Import Prelude GoStrings Comparison Deployments DeploymentStore.

(** ** Events *)
Record DeployEvent := {
  eventDeploymentID : string; eventAttemptID : string; eventStack : string;
  eventCommit : string; eventServices : list Service; StackDefinition : File;
}.

Inductive event :=
| DeploySuccess (meta : DeployEvent)
| DeployFailed (meta : DeployEvent) (error : option fault) (code stage : string)
| DeployInterrupted (meta : DeployEvent) (error : option fault) (reason stage : string)
| ServiceRemovedFromDesired (stack service commit : string).
#[export] Instance DeployEvent_eq_dec : EqDecision DeployEvent.
Proof. solve_decision. Defined.
#[export] Instance event_eq_dec : EqDecision event.
Proof. solve_decision. Defined.

(** [Publisher] *)
Class Publisher (P : Type) := publish : event → St P deploymentError ().

Record World (P : Type) := { tables : Tables; published : P }.
Arguments tables {P} _.
Arguments published {P} _.

(** ** Retry timing *)
Definition automaticRetryDelay : Duration := minute.
Definition maximumRetryDelay : Duration := hour.
Definition retryBackoffMultiplier : Z := 2.

(** The loop of [automaticRetryAllowed]; it ends within [fuel] rounds when
    [fuel] is at least the number of attempts. *)
Fixpoint retryDelayFrom (fuel : nat) (attempt count : Z) (delay : Duration) : Duration :=
  match fuel with
  | O => delay
  | S fuel =>
      if (attempt <? count)%Z && (delay <? maximumRetryDelay)%Z
      then retryDelayFrom fuel (attempt + 1) count
             (Z.min (delay * retryBackoffMultiplier) maximumRetryDelay)
      else delay
  end.
Definition retryDelay (count : Z) : Duration :=
  retryDelayFrom (Z.to_nat count) 1 count automaticRetryDelay.

Definition automaticRetryAllowed (now : Time) (latest : Deployment) : bool :=
  Retryable (deploymentOutcome latest) &&
  match deploymentFinishedAt latest with
  | None => false
  | Some finished => negb (now <? finished + retryDelay (AttemptCount latest))%Z
  end.

(** ** Attempts and desired state *)
Definition newAttempt (id deploymentID : string) (number : Z) (now : Time) : Attempt :=
  {| attemptID := id; attemptDeploymentID := deploymentID; attemptStack := "";
     attemptNumber := number; attemptStatus := Running; attemptStartedAt := now;
     attemptFinishedAt := None; attemptErrorCode := ""; attemptPhase := PhaseApply;
     attemptOutcome := runningOutcome; attemptInitJobs := [] |}.

Definition unresolvedServices (previous : Deployment) (desired : File) : list string :=
  let failed := bool_decide (deploymentStatus previous = Failed ∨
                             deploymentStatus previous = Interrupted) in
  if negb (Known (deploymentVerification previous)) && failed
  then desiredServiceNames desired
  else filter (λ name, name ∈ UnresolvedServices (deploymentVerification previous))
         (desiredServiceNames desired).

Definition unresolvedGenerations (v : Verification) (names : list string)
    : gmap string UpdateGeneration :=
  fold_left (λ result name,
    match Generations v !! name with
    | Some generation => <[name := generation]> result
    | None => result
    end) names ∅.

(** [slices.Sort] followed by [slices.Compact]. *)
Fixpoint compact (l : list string) : list string :=
  match l with
  | x :: (y :: _) as l' => if decide (x = y) then compact l' else x :: compact l'
  | _ => l
  end.

(** The uuids that one call may draw. *)
Record fresh := { freshDeployment : string; freshAttempt : string; freshLegacy : string }.

Section Service.
Context {P : Type} `{!Publisher P}.
(** The masking of [faults.SafeDiagnostic] and [envmasker.MaskValue]. *)
Context (mask : string → string) (MaskValue : string).
Notation M := (St (World P) deploymentError).

Definition onTables {A} (m : St Tables deploymentError A) : M A :=
  λ w, let '(r, t) := m (tables w) in (r, {| tables := t; published := published w |}).
Definition emit (e : event) : M () :=
  λ w, let '(r, p) := publish e (published w) in
       (r, {| tables := tables w; published := p |}).
Fixpoint emitAll (events : list event) : M () :=
  match events with
  | [] => st_ret ()
  | e :: events => st_bind (emit e) (λ _, emitAll events)
  end.

(** ** [completion.go] *)
Definition publishCompletion (d : Deployment) (a : Attempt) (desired : File)
    (s : completionState) : M () :=
  let meta :=
    {| eventDeploymentID := deploymentID d; eventAttemptID := attemptID a;
       eventStack := deploymentStack d; eventCommit := Commit d;
       eventServices := Services desired; StackDefinition := desired |} in
  match st_status s with
  | Succeeded => emit (DeploySuccess meta)
  | Failed => emit (DeployFailed meta (st_diagnostic s) (st_errorCode s) (st_eventStage s))
  | Interrupted =>
      emit (DeployInterrupted meta (st_diagnostic s) (st_errorCode s) (st_eventStage s))
  | Running | Superseded => st_throw (ErrInvalid "unsupported completion status")
  end.

(** The terminal attempt. *)
Definition completedAttempt (a : Attempt) (s : completionState) (now : Time) : Attempt :=
  {| attemptID := attemptID a; attemptDeploymentID := attemptDeploymentID a;
     attemptStack := attemptStack a; attemptNumber := attemptNumber a;
     attemptStatus := st_status s; attemptStartedAt := attemptStartedAt a;
     attemptFinishedAt := Some now; attemptErrorCode := st_errorCode s;
     attemptPhase := st_phase s;
     attemptOutcome :=
       {| ErrorDiagnostic := SafeDiagnostic mask (st_diagnostic s);
          Retryable := st_retryable s; ApplyStatus := st_apply s;
          VerificationStatus := st_verification s; CleanupStatus := st_cleanup s;
          ActualState := st_actual s; ObservedAt := st_observedAt s |};
     attemptInitJobs := attemptInitJobs a |}.

(** The verification obligations that are left. *)
Definition completedVerification (d : Deployment) (desired : File) (s : completionState)
    : Verification :=
  if bool_decide (st_status s = Succeeded)
  then {| Known := true; UnresolvedServices := []; Generations := ∅ |}
  else
    let inherited := UnresolvedServices (deploymentVerification d) in
    let unresolved :=
      if Known (rolloutVerification s) then UnresolvedServices (rolloutVerification s)
      else desiredServiceNames desired in
    let names :=
      compact (sort_strings
        (if bool_decide (st_phase s = PhaseApply) then unresolved ++ inherited
         else unresolved)) in
    {| Known := true; UnresolvedServices := names;
       Generations := unresolvedGenerations (deploymentVerification d) names |}.

Definition complete (now : Time) (attemptID_ : string) (s : completionState) : M () :=
  st_bind (onTables (GetAttempt attemptID_)) (λ a,
  st_bind (onTables (Get (attemptDeploymentID a))) (λ d,
  if negb (bool_decide (attemptStatus a = Running)) ||
     negb (bool_decide (deploymentStatus d = Running)) ||
     negb (bool_decide (LatestAttemptID d = attemptID a))
  then st_throw ErrNotRunning
  else
  st_bind (onTables (Desired (deploymentID d))) (λ desired,
  let a := completedAttempt a s now in
  let d := setVerification d (completedVerification d desired s) in
  st_bind (onTables (FinishAttempt d a)) (λ _,
  st_bind (if bool_decide (st_status s = Succeeded)
           then onTables (SaveBaseline (deploymentID d)) else st_ret ()) (λ _,
  publishCompletion d a desired s))))).

Definition Complete (now : Time) (attemptID_ : string) (c : Completion) : M () :=
  match state mask c with
  | Err e => st_throw e
  | Ok s => within_transaction (complete now attemptID_ s)
  end.

(** ** [service.go] *)
Definition runningAttempt (legacyID : string) (d : Deployment) : M Attempt :=
  match Attempts d with
  | a :: _ => st_ret a
  | [] =>
      let a := newAttempt legacyID (deploymentID d) 1 (deploymentStartedAt d) in
      st_bind (onTables (InsertLegacyAttempt a)) (λ _, st_ret a)
  end.

Definition supersedePrevious (now : Time) (legacyID : string) (latest : Deployment) : M () :=
  if bool_decide (deploymentStatus latest = Running)
  then st_bind (runningAttempt legacyID latest) (λ a,
         Complete now (attemptID a) (completionOf CompletionProcessInterrupted None))
  else st_ret ().

Definition comparisonBasis (stack : string) : M (option (Prepared * string)) :=
  λ w, match onTables (Baseline stack) w with
       | (Err ErrNotFound, w) => (Ok None, w)
       | (Err e, w) => (Err e, w)
       | (Ok baseline, w) =>
           st_bind (onTables (BaselineDeploymentID stack))
             (λ id, st_ret (Some (baseline, id))) w
       end.

(** The zero [Prepared]. *)
Definition noBasis : Prepared :=
  {| Definition_ := {| Path := ""; Services := []; fileDigest := "" |}; Digest := "";
     Fields := ∅; Fingerprints := ∅; Redacted := ∅ |}.

Definition newDeployment (now : Time) (ids : fresh) (stack commit : string)
    (desired : Prepared) : M (Deployment * Attempt) :=
  st_bind (comparisonBasis stack) (λ basis,
  let before := match basis with Some (baseline, _) => baseline | None => noBasis end in
  let changes := Compare MaskValue before desired in
  let '(summary, resources) := Summarize changes in
  let a := newAttempt (freshAttempt ids) (freshDeployment ids) 1 now in
  st_ret
    ({| deploymentID := freshDeployment ids; deploymentStack := stack; Commit := commit;
        deploymentStatus := Running; deploymentStartedAt := attemptStartedAt a;
        deploymentFinishedAt := None; deploymentErrorCode := "";
        deploymentPhase := PhaseApply; deploymentOutcome := runningOutcome;
        deploymentVerification := noVerification;
        Basis := match basis with Some _ => BasisSuccessfulBaseline | None => BasisNone end;
        Comparison_ := ComparisonUnknown;
        BasisDeploymentID := match basis with Some (_, id) => id | None => "" end;
        Summary := summary; Resources := resources; Changes := changes;
        DiffAvailable := true; LatestAttemptID := attemptID a; AttemptCount := 1;
        Attempts := [] |}, a)).

Definition createDeployment (now : Time) (ids : fresh) (stack commit : string)
    (desired : Prepared) (unresolved : option Verification) : M Attempt :=
  st_bind (newDeployment now ids stack commit desired) (λ '(d, a),
  let d := match unresolved with Some v => setVerification d v | None => d end in
  st_bind (onTables (CreateDeployment d desired a)) (λ _, st_ret a)).

Definition startExisting (now : Time) (ids : fresh) (latest : Deployment)
    (manualRetry : bool) : M (option Attempt) :=
  match deploymentStatus latest with
  | Succeeded | Running => st_ret None
  | Failed | Interrupted =>
      if negb manualRetry && negb (automaticRetryAllowed now latest) then st_ret None
      else
        let a := newAttempt (freshAttempt ids) (deploymentID latest)
                   (AttemptCount latest + 1) now in
        st_bind (onTables (StartAttempt latest a)) (λ _, st_ret (Some a))
  | Superseded => st_throw ErrInconsistentDeployment
  end.

(** A desired state other than the latest one. *)
Definition startChanged (now : Time) (ids : fresh) (stack commit : string)
    (desired : Prepared) (latest : Deployment) (latestDesired : Prepared) : M (option Attempt) :=
  let removedServices := desiredServiceRemovals (Definition_ latestDesired) (Definition_ desired) in
  st_bind (supersedePrevious now (freshLegacy ids) latest) (λ _,
  st_bind (if bool_decide (deploymentStatus latest = Running)
           then onTables (Get (deploymentID latest)) else st_ret latest) (λ latest,
  let unresolved := unresolvedServices latest (Definition_ desired) in
  st_bind (createDeployment now ids stack commit desired
    (Some {| Known := true; UnresolvedServices := unresolved;
             Generations := unresolvedGenerations (deploymentVerification latest) unresolved |}))
  (λ a,
  st_bind (emitAll ((λ name, ServiceRemovedFromDesired stack name commit) <$> removedServices))
  (λ _, st_ret (Some a))))).

Definition startPrepared (now : Time) (ids : fresh) (stack commit : string)
    (desired : Prepared) (sourceChanged manualRetry : bool) : M (option Attempt) :=
  λ w, match onTables (Latest stack) w with
       | (Err ErrNotFound, w) =>
           (if sourceChanged
            then st_bind (createDeployment now ids stack commit desired None)
                   (λ a, st_ret (Some a))
            else st_ret None) w
       | (Err e, w) => (Err e, w)
       | (Ok (latest, latestDesired), w) =>
           (if bool_decide (Digest latestDesired = Digest desired)
            then startExisting now ids latest manualRetry
            else startChanged now ids stack commit desired latest latestDesired) w
       end.

(** [desired] is the result of [Prepare]. *)
Definition StartIfChanged (now : Time) (ids : fresh) (stack commit : string)
    (desired : Result deploymentError Prepared) (sourceChanged manualRetry : bool)
    : M (option Attempt) :=
  match desired with
  | Err e => st_throw e
  | Ok desired =>
      within_transaction
        (startPrepared now ids stack commit desired sourceChanged manualRetry)
  end.

Definition Inspect (id : string) : M Attempt :=
  within_transaction
    (st_bind (onTables (GetAttempt id)) (λ a,
     st_bind (onTables (Get (attemptDeploymentID a))) (λ d,
     st_ret {| attemptID := attemptID a; attemptDeploymentID := attemptDeploymentID a;
               attemptStack := deploymentStack d; attemptNumber := attemptNumber a;
               attemptStatus := attemptStatus a; attemptStartedAt := attemptStartedAt a;
               attemptFinishedAt := attemptFinishedAt a;
               attemptErrorCode := attemptErrorCode a; attemptPhase := attemptPhase a;
               attemptOutcome := attemptOutcome a;
               attemptInitJobs := attemptInitJobs a |}))).

(** [legacyID] gives the uuid drawn for a deployment without attempts. *)
Fixpoint materialize (legacyID : string → string) (legacy : list Deployment)
    : M (list Attempt) :=
  match legacy with
  | [] => st_ret []
  | d :: legacy =>
      st_bind (runningAttempt (legacyID (deploymentID d)) d) (λ a,
      st_bind (materialize legacyID legacy) (λ rest, st_ret (a :: rest)))
  end.

Fixpoint interruptEach (now : Time) (s : completionState) (running : list Attempt) : M () :=
  match running with
  | [] => st_ret ()
  | a :: running =>
      st_bind (onTables (SynchronizeRunningAttempt a)) (λ synchronized : bool,
      st_bind (if synchronized then st_ret () else complete now (attemptID a) s)
        (λ _, interruptEach now s running))
  end.

Definition interruptAttempts (now : Time) (running : list Attempt) : M () :=
  match state mask (completionOf CompletionProcessInterrupted None) with
  | Err e => st_throw e
  | Ok s => interruptEach now s running
  end.

Definition interruptRunning (now : Time) (legacyID : string → string) : M () :=
  st_bind (onTables RunningAttempts) (λ running,
  st_bind (onTables LegacyRunning) (λ legacy,
  st_bind (materialize legacyID legacy) (λ materialized,
  interruptAttempts now (running ++ materialized)))).

Definition InterruptRunning (now : Time) (legacyID : string → string) : M () :=
  within_transaction (interruptRunning now legacyID).

(** ** [verification.go] *)
Definition verificationDeployment (attemptID_ : string) : M Deployment :=
  st_bind (onTables (GetAttempt attemptID_)) (λ a,
  st_bind (onTables (Get (attemptDeploymentID a))) (λ d,
  if negb (bool_decide (attemptStatus a = Running)) ||
     negb (bool_decide (LatestAttemptID d = attemptID_))
  then st_throw ErrNotRunning else st_ret d)).

(** What the callback of [RecordUpdateGeneration] restores. *)
Definition recordUpdate (attemptID_ name : string) (generation : UpdateGeneration)
    : M (UpdateGeneration * bool) :=
  within_transaction
    (st_bind (verificationDeployment attemptID_) (λ d,
     let v := deploymentVerification d in
     let previous := default noGeneration (Generations v !! name) in
     let unresolved := bool_decide (name ∈ UnresolvedServices v) in
     let v := setGenerations v (<[name := generation]> (Generations v)) in
     let v := if unresolved then v
              else setUnresolved v (Known v) (UnresolvedServices v ++ [name]) in
     st_bind (onTables (SaveVerification (setVerification d v)))
       (λ _, st_ret (previous, unresolved)))).

Definition rejectUpdate (attemptID_ name : string) (generation previous : UpdateGeneration)
    (unresolved : bool) : M () :=
  within_transaction
    (st_bind (verificationDeployment attemptID_) (λ d,
     let v := deploymentVerification d in
     if bool_decide (default noGeneration (Generations v !! name) = generation) then
       let g := delete name (Generations v) in
       let g := if bool_decide (ServiceID previous = "") then g else <[name := previous]> g in
       let v := setGenerations v g in
       let v := if unresolved then v
                else setUnresolved v (Known v)
                       (filter (λ value, value ≠ name) (UnresolvedServices v)) in
       onTables (SaveVerification (setVerification d v))
     else st_throw ErrNotRunning)).

(** [RecordUpdateGeneration] returns the second part as a callback. *)
Definition RecordUpdateGeneration (attemptID_ name : string) (generation : UpdateGeneration)
    : M (M ()) :=
  st_bind (recordUpdate attemptID_ name generation) (λ '(previous, unresolved),
  st_ret (rejectUpdate attemptID_ name generation previous unresolved)).

Definition SaveInitJob (e : InitJobExecution) : M () := onTables (SaveInitJobExecution e).
End Service.
