(* ===== verification/DeploymentLifecycle.v ===== *)
(** * Correctness of the deployment lifecycle

    What the operations of [DeploymentService] do to the tables: the terminal
    transition is taken once, the invariant of [DeploymentInvariant] holds in
    every state they reach, obligations are not lost, retries back off, and
    recovery leaves nothing running. *)
From S2P Require Import Prelude GoStrings Comparison Deployments DeploymentStore DeploymentInvariant DeploymentService.

(** ** Retry timing *)
Lemma retryDelayFrom_spec fuel attempt count delay :
  (minute ≤ delay ≤ maximumRetryDelay)%Z → (Z.to_nat (count - attempt) ≤ fuel)%nat →
  (retryDelayFrom fuel attempt count delay =
   Z.min (delay * 2 ^ Z.max 0 (count - attempt)) maximumRetryDelay)%Z.
Proof.
  unfold maximumRetryDelay, retryBackoffMultiplier, minute, hour, second.
  revert attempt delay. induction fuel as [|fuel IH]; intros attempt delay Hd Hf; simpl.
  - rewrite Z.max_l by lia. rewrite Z.pow_0_r. lia.
  - destruct (Z.ltb_spec attempt count) as [Ha|Ha]; simpl.
    + replace (Z.max 0 (count - attempt))%Z with (1 + Z.max 0 (count - (attempt + 1)))%Z by lia.
      rewrite Z.pow_add_r by lia.
      rewrite Z.pow_1_r.
      assert (0 < 2 ^ Z.max 0 (count - (attempt + 1)))%Z as HP by (apply Z.pow_pos_nonneg; lia).
      destruct (Z.ltb_spec delay maximumRetryDelay) as [Hlt|Hge];
        unfold maximumRetryDelay, retryBackoffMultiplier, hour, minute, second in *; [|nia].
      rewrite IH by lia.
      set (power := (2 ^ Z.max 0 (count - (attempt + 1)))%Z) in *.
      destruct (Z.min_spec (delay * 2) (60 * (60 * 1000000000))) as [[Hm ->]|[Hm ->]].
      * f_equal. ring.
      * rewrite !Z.min_r by nia. done.
    + rewrite Z.max_l by lia. rewrite Z.pow_0_r. lia.
Qed.

(** The automatic retry delay after [n] attempts is one minute doubled
    [n - 1] times and capped at an hour: it never decreases, never exceeds the
    cap, and an automatic retry is allowed exactly when the failure was marked
    retryable, is finished, and that delay has passed. *)
Theorem retry_backoff (now : Time) (latest : Deployment) :
  let n := AttemptCount latest in
  (1 ≤ n)%Z →
  retryDelay n = Z.min (minute * 2 ^ (n - 1)) hour ∧
  (retryDelay n ≤ retryDelay (n + 1) ≤ hour)%Z ∧
  (automaticRetryAllowed now latest = true ↔
   Retryable (deploymentOutcome latest) = true ∧
   ∃ finished, deploymentFinishedAt latest = Some finished ∧
     (finished + Z.min (minute * 2 ^ (n - 1)) hour ≤ now)%Z).
Proof.
  intros n Hn.
  assert (∀ k, (1 ≤ k)%Z → retryDelay k = Z.min (minute * 2 ^ (k - 1)) hour) as Hclosed.
  { intros k Hk. unfold retryDelay, automaticRetryDelay. rewrite retryDelayFrom_spec.
    - rewrite Z.max_r by lia. done.
    - unfold maximumRetryDelay, hour, minute, second. lia.
    - lia. }
  split; [by apply Hclosed|]. split.
  - rewrite !Hclosed by lia. replace (n + 1 - 1)%Z with (1 + (n - 1))%Z by lia.
    rewrite Z.pow_add_r by lia. assert (0 < 2 ^ (n - 1))%Z by (apply Z.pow_pos_nonneg; lia).
    unfold minute, hour, second. lia.
  - unfold automaticRetryAllowed. fold n. rewrite Hclosed by lia. rewrite andb_true_iff.
    destruct (deploymentFinishedAt latest) as [finished|]; [|naive_solver].
    rewrite negb_true_iff, Z.ltb_ge. naive_solver.
Qed.

(** ** Obligations *)
Lemma elem_of_compact x l : x ∈ compact l ↔ x ∈ l.
Proof.
  induction l as [|y [|z l] IH]; [done|done|].
  change (compact (y :: z :: l)) with
    (if decide (y = z) then compact (z :: l) else y :: compact (z :: l)).
  case_decide as Hyz; [subst y; rewrite IH; set_solver|].
  rewrite !elem_of_cons, IH, elem_of_cons. tauto.
Qed.

Lemma compact_NoDup l : StronglySorted String.le l → NoDup (compact l).
Proof.
  intros Hs. induction Hs as [|y l Hs IH Hy]; [constructor|].
  destruct l as [|z l]; [constructor; [set_solver|constructor]|].
  change (compact (y :: z :: l)) with
    (if decide (y = z) then compact (z :: l) else y :: compact (z :: l)).
  case_decide as Hyz; [done|]. constructor; [|done].
  rewrite elem_of_compact. intros Hin.
  apply Hyz. inversion Hs as [|? ? _ Hz]; subst.
  apply (anti_symm String.le).
  - apply Forall_cons in Hy as [? _]. done.
  - apply elem_of_cons in Hin as [->|Hin]; [done|]. rewrite Forall_forall in Hz. by apply Hz.
Qed.

Lemma unresolvedGenerations_lookup v names :
  ∀ name, unresolvedGenerations v names !! name =
    if decide (name ∈ names) then Generations v !! name else None.
Proof.
  unfold unresolvedGenerations.
  assert (∀ (m : gmap string UpdateGeneration) name, fold_left (λ result name,
    match Generations v !! name with Some g => <[name:=g]> result | None => result end) names m !! name =
    if decide (name ∈ names) then match Generations v !! name with Some g => Some g | None => m !! name end
    else m !! name) as H.
  { induction names as [|n names IH]; intros m name; [done|]. simpl. rewrite IH.
    destruct (Generations v !! n) as [g|] eqn:En.
    - destruct (decide (name = n)) as [->|Hne].
      + rewrite En, lookup_insert_eq. rewrite (decide_True (P := n ∈ n :: names)) by set_solver.
        by case_decide.
      + rewrite lookup_insert_ne by done.
        destruct (decide (name ∈ names)), (decide (name ∈ n :: names)); set_solver.
    - destruct (decide (name = n)) as [->|Hne].
      + rewrite En. destruct (decide (n ∈ names)), (decide (n ∈ n :: names)); done.
      + destruct (decide (name ∈ names)), (decide (name ∈ n :: names)); set_solver. }
  intros name. rewrite H, lookup_empty. case_decide; [|done]. by destruct (Generations v !! name).
Qed.

Lemma elem_of_completedVerification d desired s name :
  name ∈ UnresolvedServices (completedVerification d desired s) ↔
  st_status s ≠ Succeeded ∧
  (name ∈ (if Known (rolloutVerification s) then UnresolvedServices (rolloutVerification s)
           else desiredServiceNames desired) ∨
   (st_phase s = PhaseApply ∧ name ∈ UnresolvedServices (deploymentVerification d))).
Proof.
  unfold completedVerification. case_bool_decide as Hs; [set_solver|].
  cbn [UnresolvedServices]. rewrite elem_of_compact, elem_of_sort_strings.
  case_bool_decide; rewrite ?elem_of_app; tauto.
Qed.

Lemma completedVerification_known d desired s :
  Known (completedVerification d desired s) = true.
Proof. unfold completedVerification. by case_bool_decide. Qed.

(** Verification obligations are exact and survive. A completion that
    succeeds clears them; one that fails leaves, without duplicates, the
    services the rollout left unresolved (every desired service when the
    rollout is unknown), together with the inherited ones when it failed before
    or while applying; the update generations kept are those of exactly these
    services. And a new desired state inherits exactly those of them that it
    still contains. *)
Theorem obligations_survive (d : Deployment) (desired next : File) (s : completionState) :
  let v := completedVerification d desired s in
  Known v = true ∧ NoDup (UnresolvedServices v) ∧
  (∀ name, name ∈ UnresolvedServices v ↔
    st_status s ≠ Succeeded ∧
    (name ∈ (if Known (rolloutVerification s) then UnresolvedServices (rolloutVerification s)
             else desiredServiceNames desired) ∨
     (st_phase s = PhaseApply ∧ name ∈ UnresolvedServices (deploymentVerification d)))) ∧
  (∀ name, Generations v !! name =
    if decide (name ∈ UnresolvedServices v) then Generations (deploymentVerification d) !! name
    else None) ∧
  (∀ name, name ∈ unresolvedServices (setVerification d v) next ↔
    name ∈ UnresolvedServices v ∧ name ∈ desiredServiceNames next).
Proof.
  intros v.
  assert (Known v = true) as Hk by apply completedVerification_known.
  split; [done|].
  assert (NoDup (UnresolvedServices v) ∧ ∀ name, Generations v !! name =
    if decide (name ∈ UnresolvedServices v) then Generations (deploymentVerification d) !! name
    else None) as [Hnd Hgen].
  { unfold v, completedVerification. case_bool_decide as Hs; cbn [UnresolvedServices Generations].
    - split; [constructor|]. intros name. rewrite decide_False by set_solver. apply lookup_empty.
    - split; [apply compact_NoDup, sort_strings_sorted|]. apply unresolvedGenerations_lookup. }
  split; [done|]. split; [intros; apply elem_of_completedVerification|]. split; [done|].
  intros name. unfold unresolvedServices. simpl. rewrite Hk. simpl.
  by rewrite list_elem_of_filter.
Qed.

(** ** Completing an attempt *)
Section Lifecycle.
Context {P : Type} {HP : Publisher P} (mask : string → string) (MaskValue : string).
Implicit Types (w : World P) (t : Tables).

Definition world (t : Tables) (p : P) : World P := {| tables := t; published := p |}.

Lemma onTables_run {A} (m : St Tables deploymentError A) w r t :
  m (tables w) = (r, t) → onTables m w = (r, world t (published w)).
Proof. intros H. unfold onTables. by rewrite H. Qed.

Lemma onTables_ok {A} (m : St Tables deploymentError A) w a w' :
  onTables m w = (Ok a, w') → m (tables w) = (Ok a, tables w') ∧ published w' = published w.
Proof. unfold onTables. destruct (m (tables w)). intros [= -> <-]. done. Qed.

Lemma world_eta w : world (tables w) (published w) = w.
Proof. by destruct w. Qed.

(** The row of a deployment after the completion. *)
Definition completedDeployment (t : Tables) (r : deploymentRow) (s : completionState) : Deployment :=
  let d := deployment t r in
  setVerification d (completedVerification d (Definition_ (row_desired r)) s).

Definition completedTables (t : Tables) (r : deploymentRow) (x : attemptRow)
    (s : completionState) (now : Time) : Tables :=
  let t' := finishTables t (completedDeployment t r s)
              (completedAttempt mask (attempt [] x) s now) in
  if bool_decide (st_status s = Succeeded) then baselineTables t' r else t'.

(** The event of a terminal transition. *)
Definition completionEvent (r : deploymentRow) (x : attemptRow) (s : completionState) : event :=
  let desired := Definition_ (row_desired r) in
  let meta := {| eventDeploymentID := row_id r; eventAttemptID := arow_id x;
                 eventStack := row_stack r; eventCommit := row_commit r;
                 eventServices := Services desired; StackDefinition := desired |} in
  match st_status s with
  | Failed => DeployFailed meta (st_diagnostic s) (st_errorCode s) (st_eventStage s)
  | Interrupted => DeployInterrupted meta (st_diagnostic s) (st_errorCode s) (st_eventStage s)
  | _ => DeploySuccess meta
  end.

Section Complete.
Context (w : World P) (x : attemptRow) (r : deploymentRow) (s : completionState) (now : Time).
Hypothesis Hinv : inv (tables w).
Hypothesis Hx : x ∈ deployment_attempts (tables w).
Hypothesis Hrun : arow_status x = Running.
Hypothesis Hr : r ∈ deployments (tables w).
Hypothesis Hxr : row_id r = arow_deployment_id x.
Hypothesis Hs : terminal s.
Hypothesis Hnow : now ≠ 0%Z.

Lemma completed_finish :
  FinishAttempt (completedDeployment (tables w) r s) (completedAttempt mask (attempt [] x) s now)
    (tables w) =
  (Ok (), finishTables (tables w) (completedDeployment (tables w) r s)
            (completedAttempt mask (attempt [] x) s now)) ∧
  inv (finishTables (tables w) (completedDeployment (tables w) r s)
            (completedAttempt mask (attempt [] x) s now)).
Proof.
  pose proof (terminal_status s Hs) as Hst.
  split; [eapply (FinishAttempt_run (tables w) Hinv _ _ now x r)|
          eapply (finish_inv (tables w) Hinv _ _ now x r)]; try done; try by symmetry.
Qed.

Lemma completed_row :
  transitionRow (st_status s) (st_errorCode s) (st_phase s) (Some now)
    (detailsFromDeployment (completedDeployment (tables w) r s)
       (attemptOutcome (completedAttempt mask (attempt [] x) s now))) r
  ∈ deployments (finishTables (tables w) (completedDeployment (tables w) r s)
            (completedAttempt mask (attempt [] x) s now)).
Proof.
  simpl. apply elem_of_updateWhere. exists r. split; [done|].
  by rewrite bool_decide_eq_true_2.
Qed.

Lemma completedTables_inv : inv (completedTables (tables w) r x s now).
Proof.
  unfold completedTables. destruct completed_finish as [_ Hf].
  case_bool_decide as Hst; [|done].
  by apply (SaveBaseline_run _ _ Hf completed_row).
Qed.

Lemma running_deployment :
  row_status r = Running ∧ deploymentStatus (deployment (tables w) r) = Running ∧
  LatestAttemptID (deployment (tables w) r) = arow_id x.
Proof.
  destruct (running_attempt_last _ Hinv x r Hx Hrun Hr Hxr) as (Hrr & older & E & _).
  split; [done|]. split; [|by eapply latest_attempt].
  unfold deployment, isSuperseded. simpl. rewrite Hrr.
  rewrite bool_decide_eq_false_2 by (by intros [?|?]). done.
Qed.

Lemma complete_run :
  complete mask now (arow_id x) s w =
  emit (completionEvent r x s) (world (completedTables (tables w) r x s now) (published w)).
Proof.
  destruct completed_finish as [Hf Hinv']. destruct running_deployment as (_ & Hd & Hl).
  unfold complete, st_bind.
  rewrite (onTables_run _ _ (Ok (attempt [] x)) (tables w)).
  2:{ unfold GetAttempt, notFound. by rewrite (proj2 (findAttempt_Some _ Hinv _ x)). }
  rewrite world_eta.
  rewrite (onTables_run _ _ (Ok (deployment (tables w) r)) (tables w))
    by by apply deployment_row.
  rewrite world_eta, Hd, Hl. change (attemptStatus (attempt [] x)) with (arow_status x).
  rewrite Hrun, !bool_decide_eq_true_2 by done. cbv beta iota zeta delta [negb orb].
  rewrite (onTables_run _ _ (Ok (Definition_ (row_desired r))) (tables w)).
  2:{ unfold Desired, notFound. by rewrite (proj2 (findRow_Some _ Hinv _ r)). }
  rewrite world_eta.
  fold (completedDeployment (tables w) r s).
  rewrite (onTables_run _ _ _ _ Hf).
  unfold completedTables. case_bool_decide as Hst.
  - rewrite (onTables_run _ _ (Ok ()) (baselineTables (finishTables (tables w)
      (completedDeployment (tables w) r s)
      (completedAttempt mask (attempt [] x) s now)) r)).
    2:{ by apply (SaveBaseline_run _ _ Hinv' completed_row). }
    unfold publishCompletion, completionEvent. by rewrite Hst.
  - unfold st_ret, publishCompletion, completionEvent. simpl.
    pose proof (terminal_status s Hs). clear - Hst H. destruct (st_status s); try done; set_solver.
Qed.
End Complete.

Lemma attempt_row t x :
  inv t → x ∈ deployment_attempts t →
  ∃ r, r ∈ deployments t ∧ row_id r = arow_deployment_id x.
Proof.
  intros Hinv Hx. pose proof (attempt_deployment_known t x Hinv Hx) as H.
  apply list_elem_of_fmap in H as (r & -> & Hr). eauto.
Qed.

Lemma complete_refused w x s now :
  inv (tables w) → x ∈ deployment_attempts (tables w) → arow_status x ≠ Running →
  complete mask now (arow_id x) s w = (Err ErrNotRunning, w).
Proof.
  intros Hinv Hx Hrun. destruct (attempt_row _ _ Hinv Hx) as (r & Hr & Hxr).
  unfold complete, st_bind.
  rewrite (onTables_run _ _ (Ok (attempt [] x)) (tables w)).
  2:{ unfold GetAttempt, notFound. by rewrite (proj2 (findAttempt_Some _ Hinv _ x)). }
  rewrite world_eta. simpl.
  rewrite (onTables_run _ _ (Ok (deployment (tables w) r)) (tables w)) by by apply deployment_row.
  rewrite world_eta, bool_decide_eq_false_2 by done. done.
Qed.

Lemma complete_absent w id s now :
  findAttempt (tables w) id = None → complete mask now id s w = (Err ErrNotFound, w).
Proof.
  intros H. unfold complete, st_bind.
  rewrite (onTables_run _ _ (Err ErrNotFound) (tables w)).
  - by rewrite world_eta.
  - unfold GetAttempt, notFound. by rewrite H.
Qed.

(** C4. Completing an attempt, on every branch: an inconsistent completion,
    an unknown attempt and an attempt that is not running are refused and
    change nothing; the running attempt of a consistent state is finished
    together with its deployment, the baseline of the stack moves to it when
    and only when it succeeded, and exactly one event, that of the transition,
    is published; when the publisher fails, nothing is changed. *)
Theorem Complete_transition (w : World P) (now : Time) (id : string) (c : Completion) :
  inv (tables w) →
  now ≠ 0%Z →
  Complete mask now id c w =
    match state mask c, findAttempt (tables w) id with
    | Err e, _ => (Err e, w)
    | Ok _, None => (Err ErrNotFound, w)
    | Ok s, Some x =>
        match arow_status x, findRow (tables w) (arow_deployment_id x) with
        | Running, Some r =>
            match publish (completionEvent r x s) (published w) with
            | (Ok _, p) => (Ok (), world (completedTables (tables w) r x s now) p)
            | (Err e, _) => (Err e, w)
            end
        | _, _ => (Err ErrNotRunning, w)
        end
    end.
Proof.
  intros Hinv Hnow. unfold Complete. destruct (state mask c) as [s|e] eqn:Es; [|done].
  apply state_terminal in Es. unfold within_transaction.
  destruct (findAttempt (tables w) id) as [x|] eqn:Ex; [|by rewrite complete_absent].
  apply (findAttempt_Some _ Hinv) in Ex as [Hx <-].
  destruct (decide (arow_status x = Running)) as [Hrun|Hrun].
  - destruct (attempt_row _ _ Hinv Hx) as (r & Hr & Hxr).
    rewrite Hrun, (proj2 (findRow_Some _ Hinv _ r)) by done.
    rewrite (complete_run w x r) by done. unfold emit. simpl.
    by destruct (publish (completionEvent r x s) (published w)) as [[[]|e] p].
  - rewrite complete_refused by done. by destruct (arow_status x).
Qed.
(** ** Every operation keeps the invariant *)
Lemma emit_tables e w r w' : emit e w = (r, w') → tables w' = tables w.
Proof. unfold emit. destruct (publish e (published w)). by intros [= <- <-]. Qed.

Lemma emitAll_tables es w r w' : emitAll es w = (r, w') → tables w' = tables w.
Proof.
  revert w. induction es as [|e es IH]; intros w; simpl; [by intros [= <- <-]|].
  unfold st_bind. destruct (emit e w) as [[u|err] w1] eqn:E; intros H.
  - etrans; [by eapply IH|]. by eapply emit_tables.
  - simplify_eq. by eapply emit_tables.
Qed.

Lemma complete_inv w id s now u w' :
  inv (tables w) → terminal s → complete mask now id s w = (Ok u, w') → inv (tables w').
Proof.
  intros Hinv Hs H. destruct (findAttempt (tables w) id) as [x|] eqn:Ex;
    [|by rewrite complete_absent in H].
  apply (findAttempt_Some _ Hinv) in Ex as [Hx <-].
  destruct (decide (arow_status x = Running)) as [Hrun|Hrun];
    [|by rewrite complete_refused in H].
  destruct (attempt_row _ _ Hinv Hx) as (r & Hr & Hxr).
  destruct (decide (now = 0%Z)) as [->|Hnow].
  - unfold complete in H. do 2 st_inv_step. destruct (_ || _); [done|].
    do 2 st_inv_step. by apply onTables_ok in Hrun3 as [? _].
  - rewrite (complete_run w x r) in H by done.
    apply emit_tables in H. rewrite H. by apply completedTables_inv.
Qed.

Lemma Complete_inv w id c now u w' :
  inv (tables w) → Complete mask now id c w = (Ok u, w') → inv (tables w').
Proof.
  intros Hinv. unfold Complete. destruct (state mask c) as [s|] eqn:Es; [|done].
  intros H%(proj1 (within_transaction_ok _ _ _ _)).
  eapply complete_inv; eauto using state_terminal.
Qed.

Lemma deploymentStatus_row t r st :
  deploymentStatus (deployment t r) = st → st ≠ Superseded → row_status r = st.
Proof.
  unfold deployment, isSuperseded, projectedStatus. simpl. by destruct (_ && _).
Qed.

Lemma insertLegacy_inv w r a u w' :
  inv (tables w) → r ∈ deployments (tables w) → row_status r = Running →
  attemptRows (tables w) (row_id r) = [] →
  attemptDeploymentID a = row_id r → attemptNumber a = 1%Z → attemptStatus a = Running →
  onTables (InsertLegacyAttempt a) w = (Ok u, w') →
  inv (tables w') ∧ deployments (tables w') = deployments (tables w) ∧
  ∀ id, id ≠ row_id r → attemptRows (tables w') id = attemptRows (tables w) id.
Proof.
  intros Hinv Hr Hrun Hnone Hdep Hnum Hst [H _]%onTables_ok.
  pose proof (InsertLegacyAttempt_inv _ _ _ _ r Hinv Hr Hrun Hnone Hdep Hnum Hst H).
  split; [done|]. apply insertAttemptRow_ok in H as [_ Ht]. rewrite Ht. split; [done|].
  intros id Hid. pose proof (attemptRows_append (tables w) (deployments (tables w)) (insertedRow a) id) as E.
  simpl in E. rewrite Hdep, decide_False in E by done. exact E.
Qed.

Lemma runningAttempt_inv w r id a w' :
  inv (tables w) → r ∈ deployments (tables w) → row_status r = Running →
  runningAttempt id (deployment (tables w) r) w = (Ok a, w') → inv (tables w').
Proof.
  intros Hinv Hr Hrun. unfold runningAttempt.
  destruct (attemptRows (tables w) (row_id r)) as [|y rows _] eqn:E using rev_ind.
  - rewrite attempts_nil by done. intros H. st_inv.
    by apply (insertLegacy_inv w r) in Hrun0 as [? _].
  - destruct (attempts_head _ _ _ _ Hinv E) as [rest ->]. intros H. by st_inv.
Qed.

Lemma supersedePrevious_inv w r now id u w' :
  inv (tables w) → r ∈ deployments (tables w) →
  supersedePrevious mask now id (deployment (tables w) r) w = (Ok u, w') → inv (tables w').
Proof.
  intros Hinv Hr. unfold supersedePrevious. case_bool_decide as Hst; intros H; st_inv; [|done].
  apply deploymentStatus_row in Hst; [|done].
  eapply Complete_inv, H. by eapply runningAttempt_inv.
Qed.

Lemma comparisonBasis_tables w stack r w' :
  comparisonBasis stack w = (r, w') → w' = w.
Proof.
  unfold comparisonBasis, onTables, Baseline, BaselineDeploymentID, notFound, st_bind.
  destruct (_ ≫= _) as [basis|]; simpl.
  - destruct (desired_snapshots (tables w) !! stack); intros [= <- <-]; apply world_eta.
  - intros [= <- <-]. apply world_eta.
Qed.

Lemma createDeployment_inv w now ids stack commit desired v a w' :
  inv (tables w) → createDeployment MaskValue now ids stack commit desired v w = (Ok a, w') →
  inv (tables w').
Proof.
  intros Hinv. unfold createDeployment, newDeployment. intros H. do 2 st_inv_step.
  apply comparisonBasis_tables in Hrun0 as ->.
  destruct (Summarize _) as [summary resources]. st_inv.
  apply onTables_ok in Hrun as [Hc _].
  by apply CreateDeployment_inv in Hc; [| |destruct v|destruct v|destruct v|].
Qed.

Lemma startExisting_inv w r now ids manual a w' :
  inv (tables w) → latestRow (tables w) (row_stack r) = Some r →
  startExisting now ids (deployment (tables w) r) manual w = (Ok a, w') → inv (tables w').
Proof.
  intros Hinv Hlatest. unfold startExisting.
  destruct (deploymentStatus _); try (intros H; by st_inv).
  all: destruct (_ && _); intros H; st_inv; [done|];
    apply onTables_ok in Hrun as [Hs _];
    by apply StartAttempt_inv in Hs.
Qed.

Lemma startChanged_inv w r now ids stack commit desired latestDesired a w' :
  inv (tables w) → r ∈ deployments (tables w) →
  startChanged mask MaskValue now ids stack commit desired (deployment (tables w) r)
    latestDesired w = (Ok a, w') → inv (tables w').
Proof.
  intros Hinv Hr. unfold startChanged. intros H. do 4 st_inv_step.
  apply supersedePrevious_inv in Hrun; [|done..].
  assert (tables s0 = tables s) as Hs0.
  { clear - Hrun0. case_bool_decide; [|by st_inv].
    apply onTables_ok in Hrun0 as [Hg _]. unfold Get, notFound in Hg.
    destruct (_ <$> _); by simplify_eq. }
  apply createDeployment_inv in Hrun1; [|by rewrite Hs0].
  apply emitAll_tables in Hrun2. st_inv. by rewrite Hrun2.
Qed.

Lemma startPrepared_inv w now ids stack commit desired source manual a w' :
  inv (tables w) →
  startPrepared mask MaskValue now ids stack commit desired source manual w = (Ok a, w') →
  inv (tables w').
Proof.
  intros Hinv. unfold startPrepared, onTables, Latest, notFound.
  destruct (latestRow (tables w) stack) as [r|] eqn:E; simpl; rewrite world_eta.
  - pose proof (latestRow_newest _ _ _ E) as (Hr & Hstack & _). rewrite <- Hstack in E.
    case_bool_decide; intros Hok.
    + by eapply startExisting_inv.
    + by eapply startChanged_inv.
  - destruct source; intros H; st_inv; [|done]. by eapply createDeployment_inv.
Qed.

(** Deployments without attempts get their first one. *)
Lemma materialize_inv w ids (rs : list deploymentRow) (ds : list Deployment) as_ w' :
  inv (tables w) → NoDup (row_id <$> rs) →
  Forall2 (λ r d, r ∈ deployments (tables w) ∧ row_status r = Running ∧
    attemptRows (tables w) (row_id r) = [] ∧ deploymentID d = row_id r ∧ Attempts d = []) rs ds →
  materialize ids ds w = (Ok as_, w') → inv (tables w').
Proof.
  intros Hinv Hnd Hall. revert w Hinv as_ Hall Hnd.
  revert ds. induction rs as [|r rs IH]; intros ds w Hinv as_ Hall Hnd H.
  - apply Forall2_nil_inv_l in Hall as ->. simpl in H. by st_inv.
  - apply Forall2_cons_inv_l in Hall as (d & ds' & (Hr & Hrun & Hnone & Hid & Hat) & Hall & ->).
    simpl in H. unfold runningAttempt in H. rewrite Hat in H. st_inv.
    match goal with Hq : onTables (InsertLegacyAttempt _) _ = _ |- _ =>
      apply (insertLegacy_inv w r) in Hq as (Hinv' & Hdeps & Hother); [|done..] end.
    apply NoDup_cons in Hnd as [Hfresh Hnd].
    match goal with Hq : materialize _ _ _ = _ |- _ =>
      eapply (IH ds'); [exact Hinv'| |done|exact Hq] end.
    rewrite Forall2_same_length_lookup in Hall |- *.
    destruct Hall as [Hlen Hall]. split; [done|].
    intros i r' d' Hi Hi'. destruct (Hall i r' d' Hi Hi') as (? & ? & ? & ? & ?).
    rewrite Hdeps, Hother; [done|]. intros E. apply Hfresh. rewrite <- E.
    apply list_elem_of_fmap_2. by eapply list_elem_of_lookup_2.
Qed.

Lemma interruptEach_inv w now s running u w' :
  inv (tables w) → terminal s → interruptEach mask now s running w = (Ok u, w') →
  inv (tables w').
Proof.
  intros Hinv Hs. revert w Hinv. induction running as [|a running IH]; intros w Hinv H; simpl in H.
  - by st_inv.
  - unfold st_bind in H at 1.
    rewrite (onTables_run _ _ (Ok false) (tables w)) in H by by apply SynchronizeRunningAttempt_idle.
    rewrite world_eta in H. st_inv. eapply IH, H. by eapply complete_inv.
Qed.

Lemma interruptRunning_inv w now ids u w' :
  inv (tables w) → interruptRunning mask now ids w = (Ok u, w') → inv (tables w').
Proof.
  intros Hinv. unfold interruptRunning, RunningAttempts, LegacyRunning, onTables, interruptAttempts.
  unfold st_bind at 1 2. simpl. rewrite world_eta. intros H. do 1 st_inv_step.
  eapply interruptEach_inv, H;
    [|by apply (state_terminal mask (completionOf CompletionProcessInterrupted None))].
  eapply (materialize_inv w ids (filter (λ r, row_status r = Running ∧
    attemptRows (tables w) (row_id r) = []) (deployments (tables w)))); [done| | |exact Hrun].
  - eapply NoDup_fmap_sublist; [apply sublist_filter|]. apply (inv_schema _ Hinv).
  - apply Forall2_fmap_r, Forall_Forall2_diag, Forall_forall. simpl.
    intros r [[Hst Hnone] Hr]%list_elem_of_filter. split_and!; try done. by apply attempts_nil.
Qed.

Lemma verificationDeployment_tables id w d w' :
  verificationDeployment id w = (Ok d, w') → w' = w.
Proof.
  unfold verificationDeployment, onTables, GetAttempt, Get, notFound, st_bind.
  destruct (_ <$> _) as [a|]; simpl; [|done]. destruct (_ <$> _); simpl; [|done].
  destruct (_ || _); [done|]. intros [= <- <-]. apply world_eta.
Qed.

Lemma saveVerification_inv w id f u w' :
  inv (tables w) →
  st_bind (verificationDeployment id) (λ d, onTables (SaveVerification (f d))) w = (Ok u, w') →
  inv (tables w').
Proof.
  intros Hinv H. st_inv. apply verificationDeployment_tables in Hrun as ->.
  apply onTables_ok in H as [H _]. by eapply SaveVerification_inv.
Qed.

(** ** The lifecycle as a transition system

    One call of the service, from any caller and with any result. *)
Inductive step : World P → World P → Prop :=
| StepStart now ids stack commit desired source manual w r w' :
    StartIfChanged mask MaskValue now ids stack commit desired source manual w = (r, w') →
    step w w'
| StepComplete now id c w r w' : Complete mask now id c w = (r, w') → step w w'
| StepInterrupt now ids w r w' : InterruptRunning mask now ids w = (r, w') → step w w'
| StepRecord id name generation w r w' :
    recordUpdate id name generation w = (r, w') → step w w'
| StepReject id name generation previous unresolved w r w' :
    rejectUpdate id name generation previous unresolved w = (r, w') → step w w'
| StepInitJob e w r w' : SaveInitJob e w = (r, w') → step w w'.

Lemma transaction_inv {A} (m : St (World P) deploymentError A) w r w' :
  inv (tables w) → within_transaction m w = (r, w') →
  (∀ a s, m w = (Ok a, s) → inv (tables s)) → inv (tables w').
Proof.
  intros Hinv H Hm. replace w' with (snd (within_transaction m w)) by by rewrite H.
  by apply (within_transaction_inv (λ w, inv (tables w))).
Qed.

Lemma step_inv w1 w2 : step w1 w2 → inv (tables w1) → inv (tables w2).
Proof.
  intros [now ids stack commit desired source manual ?? ? H|now id c ??? H|now ids ??? H
    |id name g ??? H|id name g previous unresolved ??? H|e w r w' H] Hinv.
  - unfold StartIfChanged in H. destruct desired as [desired|]; [|by unfold st_throw in H; simplify_eq].
    eapply transaction_inv; [done|exact H|]. intros a s. by apply startPrepared_inv.
  - unfold Complete in H. destruct (state mask c) as [s|] eqn:Es; [|by unfold st_throw in H; simplify_eq].
    eapply transaction_inv; [done|exact H|]. intros a s'.
    apply complete_inv; eauto using state_terminal.
  - eapply transaction_inv; [done|exact H|]. intros a s'. by apply interruptRunning_inv.
  - eapply transaction_inv; [done|exact H|]. intros a s' Hm. st_inv.
    match goal with Hv : verificationDeployment _ _ = _ |- _ =>
      apply verificationDeployment_tables in Hv as -> end.
    match goal with Hv : onTables _ _ = _ |- _ => apply onTables_ok in Hv as [Hv _];
      by eapply SaveVerification_inv, Hv end.
  - eapply transaction_inv; [done|exact H|]. intros a s' Hm. st_inv.
    match goal with Hv : verificationDeployment _ _ = _ |- _ =>
      apply verificationDeployment_tables in Hv as -> end.
    match goal with Hv : onTables _ _ = _ |- _ => apply onTables_ok in Hv as [Hv _];
      by eapply SaveVerification_inv, Hv end.
  - unfold SaveInitJob, onTables in H.
    destruct (SaveInitJobExecution e (tables w)) as [[u|err] t] eqn:E; simplify_eq; simpl.
    + by eapply SaveInitJobExecution_inv.
    + unfold SaveInitJobExecution, st_bind, exec in E. destruct (_ || _); [by unfold st_throw in E; simplify_eq|].
      by case_decide; simplify_eq.
Qed.

Lemma lifecycle_reachable_inv w w' : rtc step w w' → inv (tables w) → inv (tables w').
Proof. induction 1; eauto using step_inv. Qed.

(** C3. Whatever calls are made on the service, with whatever results, from
    the empty tables: the invariant holds (attempts numbered from one without
    gaps, a deployment showing the status of its latest attempt, only the
    newest deployment of a stack running, baselines naming successful
    deployments of their stack), and a stack never has two running attempts. *)
Theorem lifecycle_invariant (p : P) (w : World P) :
  rtc step (world emptyTables p) w →
  inv (tables w) ∧
  ∀ a b r q,
    a ∈ deployment_attempts (tables w) → b ∈ deployment_attempts (tables w) →
    arow_status a = Running → arow_status b = Running →
    r ∈ deployments (tables w) → q ∈ deployments (tables w) →
    row_id r = arow_deployment_id a → row_id q = arow_deployment_id b →
    row_stack r = row_stack q → a = b.
Proof.
  intros Hw. assert (inv (tables w)) as Hinv
    by (eapply lifecycle_reachable_inv; [exact Hw|apply emptyTables_inv]).
  split; [done|]. intros a b r q Ha Hb Hra Hrb Hr Hq Hda Hdb Hstack.
  destruct (running_attempt_last _ Hinv a r Ha Hra Hr Hda) as (Hrr & older & E & _).
  destruct (running_attempt_last _ Hinv b q Hb Hrb Hq Hdb) as (Hqr & older' & E' & _).
  assert (r = q) as <-.
  { destruct (inv_schema _ Hinv) as (_ & Hnd & _).
    eapply (key_unique row_stack); [exact Hnd|..|done]; by apply list_elem_of_filter. }
  rewrite E in E'. by apply app_inj_tail in E' as [_ ->].
Qed.

(** ** Recovery after a restart *)
Definition runningRows (t : Tables) : list attemptRow :=
  filter (λ a, arow_status a = Running) (deployment_attempts t).

(** The deployment was left alone, or interrupted with all its obligations. *)
Definition interruptedRow (r r' : deploymentRow) : Prop :=
  r' = r ∨
  (row_status r = Running ∧ row_status r' = Interrupted ∧ row_id r' = row_id r ∧
   row_stack r' = row_stack r ∧ row_desired r' = row_desired r ∧
   Retryable (detailsOutcome (row_details r')) = true ∧
   ∃ names, unresolved_services (row_details r') = Some names ∧
     ∀ name, name ∈ names ↔ name ∈ desiredServiceNames (Definition_ (row_desired r)) ∨
       name ∈ default [] (unresolved_services (row_details r))).

Lemma interruptedRow_trans r1 r2 r3 :
  interruptedRow r1 r2 → interruptedRow r2 r3 → interruptedRow r1 r3.
Proof.
  intros H12 [->|H23]; [done|]. destruct H12 as [->|H12]; [by right|].
  destruct H12 as (_ & Hi & _), H23 as (Hr & _). congruence.
Qed.

Definition interruption : completionState :=
  {| rolloutVerification := noVerification; st_status := Interrupted;
     st_errorCode := "process_interrupted"; st_diagnostic := None; st_retryable := true;
     st_phase := PhaseApply; st_apply := StageUnknown; st_verification := StageSkipped;
     st_cleanup := StageSkipped; st_actual := ActualStateUnknown; st_observedAt := None;
     st_eventStage := "" |}.

Lemma interruption_state :
  state mask (completionOf CompletionProcessInterrupted None) = Ok interruption.
Proof. done. Qed.
Lemma interruption_terminal : terminal interruption.
Proof. apply (state_terminal mask _ _ interruption_state). Qed.

Lemma completed_runningRows t r x now rest :
  inv t → runningRows t = x :: rest →
  runningRows (completedTables t r x interruption now) = rest.
Proof.
  intros Hinv Hrows. unfold completedTables. simpl. unfold runningRows. simpl.
  set (p := λ y : attemptRow, bool_decide (arow_id y = arow_id x)).
  set (f := finishAttemptRow _).
  assert (∀ l, filter (λ a, arow_status a = Running) (updateWhere p f l) =
               filter (λ a, p a = false) (filter (λ a, arow_status a = Running) l)) as Hgen.
  { unfold updateWhere. induction l as [|y l IH]; [done|].
    rewrite fmap_cons, !filter_cons. destruct (p y) eqn:Ep.
    - rewrite decide_False by done. case_decide; [|done].
      rewrite filter_cons, decide_False by congruence. done.
    - case_decide; [|done]. rewrite filter_cons, decide_True by done. by f_equal. }
  rewrite Hgen. fold (runningRows t). rewrite Hrows, filter_cons, decide_False.
  2:{ unfold p. by rewrite bool_decide_eq_true_2. }
  apply list_filter_all, Forall_forall. intros y Hy. apply bool_decide_eq_false. intros Hid.
  destruct (inv_schema _ Hinv) as (_ & _ & _ & Hnd & _).
  assert (NoDup (arow_id <$> runningRows t)) as Hnd'
    by (eapply NoDup_fmap_sublist; [apply sublist_filter|done]).
  rewrite Hrows in Hnd'. apply NoDup_cons in Hnd' as [Hx _]. apply Hx.
  rewrite <- Hid. by apply list_elem_of_fmap_2.
Qed.

Lemma completed_interruptedRow t r x now :
  inv t → r ∈ deployments t → row_status r = Running →
  Forall2 interruptedRow (deployments t)
    (deployments (completedTables t r x interruption now)).
Proof.
  intros Hinv Hr Hrun. unfold completedTables. simpl. unfold updateWhere.
  clear MaskValue.
  apply Forall2_fmap_r, Forall_Forall2_diag, Forall_forall. intros q Hq.
  cbv [compose]. case_bool_decide as Hid; [|by left]. right.
  rewrite (row_unique t Hinv q r Hq Hr Hid). simpl. split_and!; try done.
  unfold persistedUnresolvedServices. rewrite completedVerification_known.
  eexists. split; [done|]. intros name. rewrite elem_of_completedVerification. simpl.
  assert (Interrupted ≠ Succeeded) by done. tauto.
Qed.

Section Recovery.
Context (now : Time) (Hnow : now ≠ 0%Z).
Hypothesis Hpublish : ∀ e p, ∃ p', publish e p = (Ok (), p').

Lemma interruptEach_run rows w :
  inv (tables w) → runningRows (tables w) = rows →
  ∃ w', interruptEach mask now interruption (attempt [] <$> rows) w = (Ok (), w') ∧
    inv (tables w') ∧ runningRows (tables w') = [] ∧
    Forall2 interruptedRow (deployments (tables w)) (deployments (tables w')) ∧
    arow_deployment_id <$> deployment_attempts (tables w') =
    arow_deployment_id <$> deployment_attempts (tables w).
Proof.
  clear MaskValue. revert w. induction rows as [|x rows IH]; intros w Hinv Hrows.
  - exists w. split_and!; try done. apply Forall_Forall2_diag, Forall_forall. by left.
  - assert (x ∈ runningRows (tables w)) as [Hrun Hx]%list_elem_of_filter
      by (rewrite Hrows; set_solver).
    destruct (attempt_row _ _ Hinv Hx) as (r & Hr & Hxr).
    destruct (running_deployment w x r) as (Hrr & _); try done.
    simpl. unfold st_bind at 1.
    rewrite (onTables_run _ _ (Ok false) (tables w)) by by apply SynchronizeRunningAttempt_idle.
    rewrite world_eta. unfold st_bind at 1.
    rewrite (complete_run w x r interruption now) by (done || apply interruption_terminal).
    destruct (Hpublish (completionEvent r x interruption) (published w)) as [p Hp].
    unfold emit. simpl. rewrite Hp.
    destruct (IH (world (completedTables (tables w) r x interruption now) p)) as
      (w' & Hw' & Hinv' & Hnone & Hdeps & Hids).
    + simpl. apply completedTables_inv; try done. apply interruption_terminal.
    + simpl. by apply completed_runningRows.
    + exists w'. split; [exact Hw'|]. split; [done|]. split; [done|]. split.
      * eapply Forall2_trans; [apply interruptedRow_trans| |exact Hdeps].
        by apply completed_interruptedRow.
      * rewrite Hids. unfold completedTables. simpl. by rewrite updateWhere_proj.
Qed.

Lemma running_has_attempt t r :
  inv t → r ∈ deployments t → row_status r = Running → runningRows t = [] →
  row_id r ∉ arow_deployment_id <$> deployment_attempts t.
Proof.
  clear MaskValue. intros Hinv Hr Hrun Hnone (a & Ha & Hin)%list_elem_of_fmap.
  assert (a ∈ attemptRows t (row_id r)) as Hat by by apply elem_of_attemptRows.
  pose proof (inv_mirror _ Hinv r Hr) as Hm.
  destruct (attemptRows t (row_id r)) as [|b older _] eqn:E using rev_ind; [set_solver|].
  destruct (Hm older b eq_refl) as [Hst _].
  assert (b ∈ attemptRows t (row_id r)) as [Hb _]%elem_of_attemptRows by (rewrite E; set_solver).
  apply (not_elem_of_nil b). rewrite <- Hnone. apply list_elem_of_filter. split; [congruence|done].
Qed.

(** Recovery after a restart always succeeds and leaves nothing
    running: with a publisher that accepts events, from any consistent
    tables in which running deployments have attempts, every running
    attempt and deployment becomes interrupted (never successful) and
    retryable, with all desired and all inherited services as its
    obligations, every other deployment is left as it was, and the
    invariant still holds. *)
Theorem InterruptRunning_recovers (ids : string → string) (w : World P) :
  inv (tables w) →
  (∀ r, r ∈ deployments (tables w) → row_status r = Running →
    row_id r ∈ arow_deployment_id <$> deployment_attempts (tables w)) →
  ∃ w', InterruptRunning mask now ids w = (Ok (), w') ∧ inv (tables w') ∧
    runningRows (tables w') = [] ∧
    Forall (λ r, row_status r ≠ Running) (deployments (tables w')) ∧
    Forall2 interruptedRow (deployments (tables w)) (deployments (tables w')).
Proof.
  clear MaskValue. intros Hinv Hattempted.
  destruct (interruptEach_run (runningRows (tables w)) w Hinv eq_refl) as
    (w' & Hw' & Hinv' & Hnone & Hdeps & Hids).
  exists w'. split_and!; try done.
  - unfold InterruptRunning, within_transaction, interruptRunning, RunningAttempts,
      LegacyRunning, interruptAttempts, onTables. unfold st_bind at 1 2. simpl. rewrite world_eta.
    rewrite list_filter_none.
    2:{ apply Forall_forall. intros r Hr [Hrun Hrows].
        apply (Hattempted r Hr) in Hrun as (a & Ha & Hin)%list_elem_of_fmap.
        apply (not_elem_of_nil a). rewrite <- Hrows. by apply elem_of_attemptRows. }
    simpl. unfold st_bind. simpl. rewrite app_nil_r. fold (runningRows (tables w)).
    change (interruptEach mask now _ _ w) with
      (interruptEach mask now interruption (attempt [] <$> runningRows (tables w)) w).
    by rewrite Hw'.
  - apply Forall_forall. intros r' Hr' Hrun.
    apply (running_has_attempt _ _ Hinv' Hr' Hrun Hnone). rewrite Hids.
    apply list_elem_of_lookup in Hr' as [i Hi].
    destruct (Forall2_lookup_r _ _ _ _ _ Hdeps Hi) as (r & Hri & [->|Hint]).
    + apply Hattempted; [by eapply list_elem_of_lookup_2|done].
    + destruct Hint as (_ & Hint & _). congruence.
Qed.
End Recovery.

(** ** Starting an attempt *)

(** [a] is the running, latest attempt of the newest deployment of the stack,
    and that deployment records [desired]. *)
Definition startedFor (t : Tables) (stack : string) (desired : Prepared) (a : Attempt) : Prop :=
  ∃ r older, latestRow t stack = Some r ∧ row_status r = Running ∧
    Digest (row_desired r) = Digest desired ∧
    attemptRows t (row_id r) = older ++ [insertedRow a] ∧ attemptStatus a = Running ∧
    LatestAttemptID (deployment t r) = attemptID a.

Lemma startedFor_intro t stack desired a r older :
  inv t → latestRow t stack = Some r → row_status r = Running →
  Digest (row_desired r) = Digest desired →
  attemptRows t (row_id r) = older ++ [insertedRow a] → attemptStatus a = Running →
  startedFor t stack desired a.
Proof.
  intros Hinv ? ? ? E ?. exists r, older. split_and!; try done.
  by rewrite (latest_attempt t r older (insertedRow a)).
Qed.

Lemma createDeployment_started w now ids stack commit desired v a w' :
  inv (tables w) → createDeployment MaskValue now ids stack commit desired v w = (Ok a, w') →
  startedFor (tables w') stack desired a.
Proof.
  intros Hinv H. pose proof (createDeployment_inv _ _ _ _ _ _ _ _ _ Hinv H) as Hinv'.
  revert H. unfold createDeployment, newDeployment. intros H. do 2 st_inv_step.
  apply comparisonBasis_tables in Hrun0 as ->.
  destruct (Summarize _) as [summary resources]. st_inv.
  apply onTables_ok in Hrun as [Hc _]. unfold CreateDeployment in Hc.
  destruct (is_zero _); [done|]. st_inv.
  match goal with He : exec _ _ _ = _ |- _ => apply exec_ok in He as (-> & Hs & _) end.
  apply insertAttemptRow_ok in Hc as [_ Ht].
  eapply (startedFor_intro _ _ _ _ _ (attemptRows _ (freshDeployment ids)));
    [done|..|done].
  - unfold latestRow. rewrite Ht, Hs. simpl.
    rewrite filter_app, filter_cons, decide_True by (by destruct v).
    rewrite filter_nil. by rewrite last_snoc.
  - by destruct v.
  - done.
  - unfold attemptRows. rewrite Ht, Hs. simpl. rewrite filter_app, filter_cons, filter_nil.
    simpl. rewrite decide_True by (by destruct v). by destruct v.
Qed.

Lemma latestRow_update t t' stack p f r :
  deployments t' = updateWhere p f (deployments t) →
  (∀ q, row_stack (f q) = row_stack q) →
  latestRow t stack = Some r →
  latestRow t' stack = Some (if p r then f r else r).
Proof.
  intros Ht Hf Hr. unfold latestRow in *. rewrite Ht, updateWhere_filter.
  - unfold updateWhere. by rewrite fmap_last, Hr.
  - intros q. destruct (p q); by rewrite ?Hf.
Qed.

Lemma StartAttempt_started w r stack desired a u t' :
  inv (tables w) → latestRow (tables w) stack = Some r → row_stack r = stack →
  Digest (row_desired r) = Digest desired →
  attemptDeploymentID a = row_id r → attemptStatus a = Running →
  attemptNumber a = (Z.of_nat (length (attemptRows (tables w) (row_id r))) + 1)%Z →
  StartAttempt (deployment (tables w) r) a (tables w) = (Ok u, t') →
  startedFor t' stack desired a.
Proof.
  intros Hinv Hlatest Hstack Hdigest Hdep Hst Hnum H.
  assert (inv t') as Hinv' by (subst stack; by eapply StartAttempt_inv).
  unfold StartAttempt in H. st_inv. apply insertAttemptRow_ok in Hrun as [_ ->].
  apply updateDeployments_ok in H as (_ & Ht & q & Hq & Hp).
  apply latestRow_newest in Hlatest as Hr. destruct Hr as (Hr & _).
  pose proof Hp as [Hqid%bool_decide_eq_true _]%andb_prop. simpl in Hqid, Hq.
  assert (q = r) as -> by (by apply (row_unique (tables w))).
  eapply (latestRow_update (tables w) t') in Hlatest; [|by rewrite Ht|done].
  cbn in Hp, Hlatest. rewrite Hp in Hlatest.
  eapply startedFor_intro; [done|exact Hlatest|done|done| |done].
  simpl. rewrite Ht, attemptRows_append. simpl. by rewrite decide_True.
Qed.

Lemma StartIfChanged_cases (w w' : World P) (now : Time) (ids : fresh)
    (stack commit : string) (desired : Prepared) (source manual : bool) (result : option Attempt) :
  inv (tables w) →
  StartIfChanged mask MaskValue now ids stack commit (Ok desired) source manual w =
    (Ok result, w') →
  match result with
  | Some a => startedFor (tables w') stack desired a ∧ inv (tables w')
  | None => w' = w ∧
      match latestRow (tables w) stack with
      | None => source = false
      | Some r => Digest (row_desired r) = Digest desired ∧
          (row_status r = Running ∨ row_status r = Succeeded ∨
           (manual = false ∧ automaticRetryAllowed now (deployment (tables w) r) = false))
      end
  end.
Proof.
  intros Hinv. unfold StartIfChanged. intros H%(proj1 (within_transaction_ok _ _ _ _)).
  pose proof (startPrepared_inv _ _ _ _ _ _ _ _ _ _ Hinv H) as Hinv'. revert H.
  unfold startPrepared, onTables at 1, Latest, notFound.
  destruct (latestRow (tables w) stack) as [r|] eqn:E; simpl; rewrite world_eta.
  - pose proof (latestRow_newest _ _ _ E) as (Hr & Hstack & _).
    case_bool_decide as Hdigest; intros Hok.
    + unfold startExisting in Hok.
      destruct (deploymentStatus (deployment (tables w) r)) eqn:Est;
        [apply deploymentStatus_row in Est; [|done]; st_inv; by auto
        |apply deploymentStatus_row in Est; [|done]; st_inv; by auto| | |done];
        apply deploymentStatus_row in Est; try done;
        destruct (negb manual && _) eqn:Eretry; unfold st_ret in Hok; simplify_eq.
      1,3: apply andb_prop in Eretry as [?%negb_true_iff ?%negb_true_iff]; tauto.
      all: st_inv_step; unfold st_ret in Hok; simplify_eq;
        apply onTables_ok in Hrun as [Hs _]; split; [|done].
      all: eapply StartAttempt_started; [exact Hinv|exact E|done|exact Hdigest| | | |exact Hs]; done.
    + destruct result as [a|]; [split; [|done]|unfold startChanged in Hok; by st_inv].
      unfold startChanged in Hok. do 4 st_inv_step.
      apply supersedePrevious_inv in Hrun; [|done..].
      assert (tables s0 = tables s) as Hs0.
      { clear - Hrun0. case_bool_decide; [|by st_inv].
        apply onTables_ok in Hrun0 as [Hg _]. unfold Get, notFound in Hg.
        destruct (_ <$> _); by simplify_eq. }
      apply createDeployment_started in Hrun1; [|by rewrite Hs0].
      apply emitAll_tables in Hrun2. st_inv. by rewrite Hrun2.
  - destruct source; intros Hok; st_inv; [|done].
    split; [by eapply createDeployment_started, Hrun|done].
Qed.

Lemma StartIfChanged_started w now ids stack commit desired source manual a w' :
  inv (tables w) →
  StartIfChanged mask MaskValue now ids stack commit desired source manual w = (Ok (Some a), w') →
  ∃ d, startedFor (tables w') stack d a.
Proof.
  intros Hinv H. destruct desired as [d|]; [|done]. exists d.
  by destruct (StartIfChanged_cases _ _ _ _ _ _ _ _ _ _ Hinv H).
Qed.

(** What a start request decides. If no attempt is returned, nothing was
    changed, and the reason is that the stack was never deployed and its
    source did not change, or that its newest deployment already has the
    requested digest and is running, succeeded, or failed with a retry that is
    neither forced nor due. If an attempt is returned, it is the running,
    latest attempt of the stack's newest deployment, which has the requested
    digest. *)
Theorem StartIfChanged_decision (w w' : World P) (now : Time) (ids : fresh)
    (stack commit : string) (desired : Prepared) (source manual : bool) (result : option Attempt) :
  inv (tables w) →
  StartIfChanged mask MaskValue now ids stack commit (Ok desired) source manual w =
    (Ok result, w') →
  match result with
  | Some a => startedFor (tables w') stack desired a ∧ inv (tables w')
  | None => w' = w ∧
      match latestRow (tables w) stack with
      | None => source = false
      | Some r => Digest (row_desired r) = Digest desired ∧
          (row_status r = Running ∨ row_status r = Succeeded ∨
           (manual = false ∧ automaticRetryAllowed now (deployment (tables w) r) = false))
      end
  end.
Proof. apply StartIfChanged_cases. Qed.
End Lifecycle.

(** ** A history *)
Module LifecycleExample.
Definition desired (digest : string) (names : list string) : Prepared :=
  {| Definition_ := {| Path := "app.yaml";
       Services := (λ n, {| serviceName := n; serviceImage := "i:1" |}) <$> names;
       fileDigest := digest |};
     Digest := digest; Fields := ∅; Fingerprints := ∅; Redacted := ∅ |}.

(** A publisher that keeps what it is given. *)
Definition log : Publisher (list event) := λ e p, (Ok (), p ++ [e]).
#[local] Existing Instance log.

Definition ids (n : string) : fresh :=
  {| freshDeployment := "d" +:+ n; freshAttempt := "a" +:+ n; freshLegacy := "l" +:+ n |}.
Definition start (now : Time) (n digest : string) (names : list string) (w : World (list event)) :=
  StartIfChanged id "****" now (ids n) "app" "c" (Ok (desired digest names)) true false w.

Definition w0 : World (list event) := world emptyTables [].
Definition w1 : World (list event) := (start 10 "1" "x" ["api"; "web"] w0).2.
Definition w2 : World (list event) := (start 20 "2" "y" ["api"] w1).2.
Definition w3 : World (list event) :=
  (Complete id 30 "a2" (completionOf CompletionSucceeded None) w2).2.

(** The second desired state interrupts the first, inherits the obligation
    that it still has, and drops a service. *)
Example superseded :
  row_status <$> deployments (tables w2) = [Interrupted; Running] ∧
  (unresolved_services ∘ row_details) <$> deployments (tables w2) =
    [Some ["api"; "web"]; Some ["api"]] ∧
  ServiceRemovedFromDesired "app" "web" "c" ∈ published w2.
Proof.
  split; [by vm_compute|]. split; [by vm_compute|].
  apply (bool_decide_eq_true (_ ∈ _)). by vm_compute.
Qed.

Lemma start_step now n digest names w :
  step id "****" w (start now n digest names w).2.
Proof.
  apply (StepStart id "****" now (ids n) "app" "c" (Ok (desired digest names)) true false w
    (start now n digest names w).1).
  by destruct (start now n digest names w) eqn:E.
Qed.

Lemma w1_inv : inv (tables w1).
Proof. apply (step_inv id "****" w0 w1 (start_step _ _ _ _ _)), emptyTables_inv. Qed.
Lemma w2_inv : inv (tables w2).
Proof. apply (step_inv id "****" w1 w2 (start_step _ _ _ _ _)), w1_inv. Qed.

Lemma retry_backoff_witness :
  ∃ r, latestRow (tables w1) "app" = Some r ∧ retryDelay (AttemptCount (deployment (tables w1) r)) = minute.
Proof.
  eexists. split; [by vm_compute|].
  match goal with |- retryDelay (AttemptCount ?d) = _ =>
    destruct (retry_backoff 0 d ltac:(vm_compute; discriminate)) as [-> _] end.
  by vm_compute.
Defined.

Lemma Complete_transition_witness :
  is_ok (Complete id 30 "a2" (completionOf CompletionSucceeded None) w2).1 = true ∧
  (Complete id 30 "a1" (completionOf CompletionSucceeded None) w2).1 = Err ErrNotRunning.
Proof.
  rewrite !(Complete_transition id w2) by (first [apply w2_inv | discriminate]).
  split; by vm_compute.
Defined.

Lemma lifecycle_invariant_witness : inv (tables w2).
Proof.
  apply (lifecycle_invariant id "****" [] w2).
  eapply rtc_l; [apply start_step|]. eapply rtc_l; [apply start_step|]. apply rtc_refl.
Defined.

Lemma InterruptRunning_recovers_witness :
  ∃ w', InterruptRunning id 40 id w2 = (Ok (), w') ∧ runningRows (tables w') = [].
Proof.
  destruct (InterruptRunning_recovers id 40 ltac:(discriminate)
    (λ e p, ex_intro _ (p ++ [e]) eq_refl) id w2 w2_inv) as (w' & Hw' & _ & Hnone & _).
  - intros r Hr _.
    replace (arow_deployment_id <$> deployment_attempts (tables w2))
      with (row_id <$> deployments (tables w2)) by (by vm_compute).
    by apply list_elem_of_fmap_2.
  - exists w'. split; [exact Hw'|exact Hnone].
Defined.

Lemma StartIfChanged_decision_witness :
  ∃ a, startedFor (tables w2) "app" (desired "y" ["api"]) a.
Proof.
  pose proof (StartIfChanged_decision id "****" w1 w2 20 (ids "2") "app" "c" (desired "y" ["api"])
    true false) as H.
  destruct (start 20 "2" "y" ["api"] w1) as [[[a|]|e] w'] eqn:E.
  - exists a. apply (H (Some a) w1_inv). unfold w2. rewrite E. exact E.
  - exfalso. apply (f_equal fst) in E. vm_compute in E. discriminate.
  - exfalso. apply (f_equal fst) in E. vm_compute in E. discriminate.
Defined.
End LifecycleExample.
