(* ===== verification/Pruner.v ===== *)
(** * Removing services that are no longer desired
      ([internal/modules/deployments/pruner])

    The live services of Docker are the state: a set of identifiers. What the
    daemon and the event dispatcher answer are parameters. *)
From S2P Require Import Prelude GoStrings Config Comparison.

(** The fields of [swarm.StackService] that pruning reads. *)
Record StackService := { liveID : string; liveName : string; Labels : gmap string string }.

Definition ServiceManagedLabelKey : string := "org.swarm-deploy.service.managed".
Definition ServiceManagedLabelValue : string := "true".
Definition ServiceSyncPolicyPruneLabelKey : string := "org.swarm-deploy.service.sync.policy.prune".

Definition ServiceManaged (labels : gmap string string) : bool :=
  equal_fold (default "" (labels !! ServiceManagedLabelKey)) ServiceManagedLabelValue.

(** The answer of [ServiceManager.Remove]. *)
Inductive removeResult := Removed | ErrServiceNotFound | ErrRemove (reason : string).

Record PruneServicesRequest := {
  prune_stack : StackSpec; prune_commit : string;
  prune_desired : list Service; prune_live : list StackService;
}.

Section Pruner.
Context (syncCfg : SyncPolicySpec).
(** [Remove] of an identifier and [Publish] of [ServicePruned] for a name. *)
Context (Remove : string → removeResult) (PublishPruned : string → option string).

(** The policy level that decides, and its decision. *)
Definition resolvePolicy (labels : gmap string string) (stack : StackSpec) : string * bool :=
  match labels !! ServiceSyncPolicyPruneLabelKey with
  | Some rawValue => ("service", equal_fold rawValue "true")
  | None =>
      match StackPrune (Policy stack) with
      | Some enabled => ("stack", enabled)
      | None => ("global", GlobalPrune syncCfg)
      end
  end.

(** Whether the service was pruned, the error, and the services that are left
    of [live]. *)
Definition pruneService (service : StackService) (stack : StackSpec) (live : gset string)
    : bool * option string * gset string :=
  if negb (ServiceManaged (Labels service)) then (false, None, live)
  else if negb (resolvePolicy (Labels service) stack).2 then (false, None, live)
  else match Remove (liveID service) with
       | ErrServiceNotFound => (false, None, live)
       | ErrRemove reason => (false, Some reason, live)
       | Removed => (true, PublishPruned (liveName service), live ∖ {[liveID service]})
       end.

Fixpoint pruneEach (desired : list string) (stack : StackSpec) (services : list StackService)
    (live : gset string) : list string * list string * gset string :=
  match services with
  | [] => ([], [], live)
  | service :: services =>
      if decide (liveName service ∈ desired) then pruneEach desired stack services live
      else
        let '(pruned, err, live) := pruneService service stack live in
        let '(names, errs, live) := pruneEach desired stack services live in
        ((if pruned then [liveName service] else []) ++ names,
         match err with Some e => [e] | None => [] end ++ errs, live)
  end.

(** The pruned names, the joined errors, and the services that are left. *)
Definition Prune (req : PruneServicesRequest) (live : gset string)
    : list string * list string * gset string :=
  pruneEach (serviceName <$> prune_desired req) (prune_stack req) (prune_live req) live.

(** Pruning is asked for: an orphan that is managed and whose most specific
    policy says so. *)
Definition prunable (req : PruneServicesRequest) (service : StackService) : bool :=
  negb (bool_decide (liveName service ∈ serviceName <$> prune_desired req)) &&
  ServiceManaged (Labels service) && (resolvePolicy (Labels service) (prune_stack req)).2.

Definition removable (req : PruneServicesRequest) (service : StackService) : bool :=
  prunable req service &&
  match Remove (liveID service) with Removed => true | _ => false end.

Definition pruneError (req : PruneServicesRequest) (service : StackService) : list string :=
  if prunable req service then
    match Remove (liveID service) with
    | Removed => match PublishPruned (liveName service) with Some e => [e] | None => [] end
    | ErrServiceNotFound => []
    | ErrRemove reason => [reason]
    end
  else [].

Lemma pruneEach_spec req services live :
  pruneEach (serviceName <$> prune_desired req) (prune_stack req) services live =
  (liveName <$> filter (λ s, removable req s = true) services,
   services ≫= pruneError req,
   live ∖ list_to_set (liveID <$> filter (λ s, removable req s = true) services)).
Proof.
  revert live. induction services as [|s services IH]; intros live; simpl.
  - f_equal. set_solver.
  - unfold removable, pruneError, prunable, pruneService in *. rewrite !filter_cons.
    destruct (decide (liveName s ∈ _)) as [Hd|Hd].
    + rewrite IH, bool_decide_eq_true_2 by done. simpl. done.
    + rewrite bool_decide_eq_false_2 by done. simpl.
      destruct (ServiceManaged (Labels s)); simpl; [|by rewrite IH].
      destruct (resolvePolicy (Labels s) (prune_stack req)) as [level []]; simpl; [|by rewrite IH].
      destruct (Remove (liveID s)) eqn:Er; simpl; rewrite IH; simpl; [|done|done].
      apply (f_equal2 pair); [apply (f_equal2 pair)|]; [done|by destruct (PublishPruned (liveName s))|set_solver].
Qed.

(** Pruning removes exactly what it may: of the live services only
    managed ones that are absent from the desired state and whose policy
    (the label of the service before the policy of the stack before the
    global one) allows it; a service that cannot be removed is kept and
    reported without stopping the others, one that is already gone is not
    reported; the names returned are those of the removed services, in order;
    and no service that is desired, unmanaged or protected is lost. *)
Theorem Prune_exact (req : PruneServicesRequest) (live : gset string) :
  let removed := filter (λ s, removable req s = true) (prune_live req) in
  Prune req live =
    (liveName <$> removed, prune_live req ≫= pruneError req,
     live ∖ list_to_set (liveID <$> removed)) ∧
  (∀ id, id ∈ live →
     (∀ s, s ∈ prune_live req → liveID s = id →
        liveName s ∈ serviceName <$> prune_desired req ∨
        ServiceManaged (Labels s) = false ∨
        (resolvePolicy (Labels s) (prune_stack req)).2 = false) →
     id ∈ (Prune req live).2).
Proof.
  intros removed. assert (Prune req live = (liveName <$> removed, prune_live req ≫= pruneError req,
     live ∖ list_to_set (liveID <$> removed))) as E by apply pruneEach_spec.
  split; [done|]. intros id Hid Hsafe. rewrite E. simpl.
  apply elem_of_difference. split; [done|]. rewrite elem_of_list_to_set.
  intros (s & -> & Hs)%list_elem_of_fmap. apply list_elem_of_filter in Hs as [Hr Hs].
  unfold removable, prunable in Hr.
  destruct (Hsafe s Hs eq_refl) as [H|[H|H]]; revert Hr.
  - by rewrite bool_decide_eq_true_2.
  - by rewrite H, andb_false_r.
  - by rewrite H, !andb_false_r.
Qed.
End Pruner.

(** A desired, an unmanaged and an orphaned service. *)
Module PrunerExample.
Definition service (id name managed : string) : StackService :=
  {| liveID := id; liveName := name; Labels := {[ServiceManagedLabelKey := managed]} |}.
Definition request : PruneServicesRequest :=
  {| prune_stack := {| Name := "app"; ComposeFile := "app.yaml";
                       Policy := {| StackPrune := Some true; StackSelfHeal := None |} |};
     prune_commit := "c";
     prune_desired := [{| serviceName := "api"; serviceImage := "i" |}];
     prune_live := [service "1" "api" "true"; service "2" "db" "no"; service "3" "old" "TRUE"] |}.

Example pruned_orphan :
  (Prune {| GlobalPrune := false; GlobalSelfHeal := false |} (λ _, Removed) (λ _, None)
    request {["1"; "2"; "3"]}).1 = (["old"], []).
Proof. vm_compute. reflexivity. Qed.
End PrunerExample.
