(* ===== verification/DeploymentController.v ===== *)
(** * The deployment controller ([internal/modules/deployments/controller.go])

    One synchronous stack execution, the completions that could not be
    persisted ([pending]), and their recovery. The deployer, the service
    manager and the pruner are the interface [Executors]; the deployer may
    touch the lifecycle only through the [BeforeUpdate] callback. Metrics and
    [ExecuteService], which only forwards to the deployer, are left out. *)
From S2P Require Import Prelude GoStrings Config Comparison Deployments DeploymentStore DeploymentInvariant DeploymentService DeploymentLifecycle Pruner.

(** ** Execution failures *)
Definition stepRunInitJobs : string := "run init jobs".
Definition stepWaitConvergence : string := "wait for service convergence".

(** An error of the deployer: the failed step, whether it wraps
    [waiter.ErrConvergenceFailed], and the lines [DiagnosticLogLines] keeps of
    its init job logs. *)
Record executionFault := {
  cause : fault; FailedStep : string; isErrConvergenceFailed : bool; initJobLogs : list string;
}.

Definition newline : string := String (Ascii.ascii_of_nat 10) EmptyString.

Definition withInitJobLogs (err : executionFault) : fault :=
  match initJobLogs err with
  | [] => cause err
  | lines =>
      {| faultText := faultText (cause err) +:+ newline +:+ "init job logs:" +:+ newline +:+
           join_strings newline lines;
         isDeadlineExceeded := isDeadlineExceeded (cause err);
         isUpdateDeferred := isUpdateDeferred (cause err);
         isTemporary := isTemporary (cause err) |}
  end.

Definition classifyExecutionFailure (err : executionFault) : Completion :=
  if bool_decide (FailedStep err = stepWaitConvergence) then
    if isErrConvergenceFailed err
    then completionOf CompletionConvergenceFailed (Some (cause err))
    else completionOf CompletionVerificationInterrupted (Some (cause err))
  else if bool_decide (FailedStep err = stepRunInitJobs)
  then completionOf CompletionInitJobFailed (Some (withInitJobLogs err))
  else completionOf CompletionApplyFailed (Some (cause err)).

Definition completionStatus (c : Completion) : Status :=
  if bool_decide (CompletionOutcome_ c = CompletionVerificationInterrupted ∨
                  CompletionOutcome_ c = CompletionProcessInterrupted)
  then Interrupted else Failed.

(** ** Requests and results *)
Record ExecuteRequest := {
  reqStack : StackSpec; reqCommit : string; reqDesired : File;
  ManualRetry : bool; SourceChanged : bool;
}.

Record StackOptions := {
  RetryFailedUpdates : bool;
  OptionUnresolved : list string;
  OptionGenerations : gmap string UpdateGeneration;
}.

Record DeployResult := { ResultVerification : Verification; InitJobs : list InitJobExecution }.

(** [ResultStatus] is [None] for the empty status. *)
Record ExecuteResult := {
  ResultAttempt : option Attempt; RetryDeferred : bool; ResultUnresolved : list string;
  LiveServices : list StackService; ResultObservedAt : Time;
  PrunedServices : list string; ResultStatus : option Status; ResultErrorCode : string;
}.

Definition emptyResult (a : option Attempt) : ExecuteResult :=
  {| ResultAttempt := a; RetryDeferred := false; ResultUnresolved := []; LiveServices := [];
     ResultObservedAt := time_zero; PrunedServices := []; ResultStatus := None;
     ResultErrorCode := "" |}.

Definition terminated (r : ExecuteResult) (s : Status) (code : string) : ExecuteResult :=
  {| ResultAttempt := ResultAttempt r; RetryDeferred := RetryDeferred r;
     ResultUnresolved := ResultUnresolved r; LiveServices := LiveServices r;
     ResultObservedAt := ResultObservedAt r; PrunedServices := PrunedServices r;
     ResultStatus := Some s; ResultErrorCode := code |}.

Definition deferredServices (latest : Deployment) (desired : File) : list string :=
  if bool_decide (deploymentPhase latest = PhaseApply) then desiredServiceNames desired
  else unresolvedServices latest desired.

(** What the deployer does to the lifecycle: updates recorded and rejected. *)
Inductive updateStep {P} (attemptID_ : string) : World P → World P → Prop :=
| UpdateRecorded name generation w r w' :
    recordUpdate attemptID_ name generation w = (r, w') → updateStep attemptID_ w w'
| UpdateRejected name generation previous unresolved w r w' :
    rejectUpdate attemptID_ name generation previous unresolved w = (r, w') →
    updateStep attemptID_ w w'.

(** The collaborators of one execution, with what their calls return. *)
Class Executors (P : Type) := {
  DeployStack : ExecuteRequest → StackOptions → string → World P →
    DeployResult * option executionFault * World P;
  DeployStack_updates req options id w :
    rtc (updateStep id) w (DeployStack req options id w).2;
  ListServices : string → list StackService * option executionFault;
  PruneServices : ExecuteRequest → list StackService → list string * option executionFault;
  RefreshRegistryAuth : ExecuteRequest → option fault;
}.

(** The instants of one execution, how many init job results are saved before
    the budget for it ends, and [ctx.Err] after deploying, observing and
    pruning. *)
Record timeline := {
  recoveredAt : Time; startedAt : Time; observedAt : Time; completedAt : Time;
  savedInitJobs : nat;
  deployDeadline : option executionFault; observeDeadline : option executionFault;
  pruneDeadline : option executionFault;
}.

Definition executionError (deadline err : option executionFault) : option executionFault :=
  match err with Some _ => err | None => deadline end.

(** ** The controller *)
Record Controller (P : Type) := {
  lifecycle : World P;
  pending : gmap string (string * Completion);
}.
Arguments lifecycle {P} _.
Arguments pending {P} _.

Section Controller.
Context {P : Type} {HP : Publisher P} {HE : Executors P} (mask : string → string) (MaskValue : string).

Definition setLifecycle (c : Controller P) (w : World P) : Controller P :=
  {| lifecycle := w; pending := pending c |}.

(** [Controller.complete] *)
Definition completeAttempt (now : Time) (stack attemptID_ : string) (completion : Completion)
    (c : Controller P) : option deploymentError * Controller P :=
  match Complete mask now attemptID_ completion (lifecycle c) with
  | (Ok _, w) => (None, {| lifecycle := w; pending := delete stack (pending c) |})
  | (Err e, w) =>
      (Some e, {| lifecycle := w; pending := <[stack := (attemptID_, completion)]> (pending c) |})
  end.

Definition recoverPending (now : Time) (stack : string) (c : Controller P)
    : option deploymentError * Controller P :=
  match pending c !! stack with
  | None => (None, c)
  | Some (attemptID_, completion) =>
      match Complete mask now attemptID_ completion (lifecycle c) with
      | (Ok _, w) => (None, {| lifecycle := w; pending := delete stack (pending c) |})
      | (Err ErrNotRunning, w) =>
          match Inspect attemptID_ w with
          | (Err e, w) => (Some e, setLifecycle c w)
          | (Ok actual, w) =>
              if negb (bool_decide (attemptStack actual = stack)) then
                (Some (ErrInvalid "deployment completion conflict stack mismatch"), setLifecycle c w)
              else if bool_decide (attemptStatus actual = Running) then
                (Some ErrNotRunning, setLifecycle c w)
              else (None, {| lifecycle := w; pending := delete stack (pending c) |})
          end
      | (Err e, w) => (Some e, setLifecycle c w)
      end
  end.

Definition stackOptions (a : Attempt) (w : World P) : Result deploymentError StackOptions :=
  match onTables (Get (attemptDeploymentID a)) w with
  | (Err e, _) => Err e
  | (Ok current, _) =>
      let v := deploymentVerification current in
      Ok (if (attemptNumber a =? 1)%Z && bool_decide (UnresolvedServices v = [])
          then {| RetryFailedUpdates := false; OptionUnresolved := []; OptionGenerations := ∅ |}
          else {| RetryFailedUpdates := (1 <? attemptNumber a)%Z;
                  OptionUnresolved := UnresolvedServices v; OptionGenerations := Generations v |})
  end.

(** Results are numbered from one; errors are logged only. *)
Fixpoint persistInitJobs (attemptID_ : string) (index : Z) (results : list InitJobExecution)
    (w : World P) : World P :=
  match results with
  | [] => w
  | result :: results =>
      let e := {| jobAttemptID := attemptID_; Ordinal := (index + 1)%Z;
                  jobServiceName := jobServiceName result; JobName := JobName result;
                  jobStatus := jobStatus result; jobStartedAt := jobStartedAt result;
                  jobFinishedAt := jobFinishedAt result; Logs := Logs result;
                  LogsAvailable := LogsAvailable result; LogsTruncated := LogsTruncated result |} in
      persistInitJobs attemptID_ (index + 1) results (SaveInitJob e w).2
  end.

Definition errorsOf (errs : list (option deploymentError)) : list deploymentError := omap id errs.

(** The end of an execution: the completion is persisted or kept pending,
    and both errors are joined. *)
Definition finish (k : timeline) (req : ExecuteRequest) (result : ExecuteResult) (a : Attempt)
    (status : Status) (completion : Completion) (err : option deploymentError) (c : Controller P)
    : ExecuteResult * list deploymentError * Controller P :=
  let '(completeErr, c) := completeAttempt (completedAt k) (Name (reqStack req)) (attemptID a) completion c in
  (terminated result status (ErrorCode completion), errorsOf [err; completeErr], c).

Definition withVerification (c : Completion) (v : Verification) : Completion :=
  {| CompletionVerification := v; CompletionOutcome_ := CompletionOutcome_ c;
     Diagnostic := Diagnostic c; CompletionRetryable := CompletionRetryable c;
     CompletionObservedAt := CompletionObservedAt c |}.

(** The fault of a lifecycle error. *)
Definition storeFault : fault :=
  {| faultText := "deployment not found"; isDeadlineExceeded := false;
     isUpdateDeferred := false; isTemporary := false |}.

(** [execute] once there is an attempt. *)
Definition executeAttempt (k : timeline) (req : ExecuteRequest) (a : Attempt) (c : Controller P)
    : ExecuteResult * list deploymentError * Controller P :=
  let result := emptyResult (Some a) in
  match stackOptions a (lifecycle c) with
  | Err e =>
      let completion :=
        {| CompletionVerification := noVerification; CompletionOutcome_ := CompletionApplyFailed;
           Diagnostic := Some storeFault; CompletionRetryable := true;
           CompletionObservedAt := None |} in
      finish k req result a Failed completion (Some e) c
  | Ok options =>
      let '(deployResult, deployErr, w) := DeployStack req options (attemptID a) (lifecycle c) in
      let c := setLifecycle c
        (persistInitJobs (attemptID a) 0 (take (savedInitJobs k) (InitJobs deployResult)) w) in
      match executionError (deployDeadline k) deployErr with
      | Some err =>
          let completion := withVerification (classifyExecutionFailure err)
                              (ResultVerification deployResult) in
          finish k req result a (completionStatus completion) completion (Some (ErrFault (cause err))) c
      | None =>
          let '(live, observeErr) := ListServices (Name (reqStack req)) in
          match executionError (observeDeadline k) observeErr with
          | Some err =>
              finish k req result a Interrupted
                (withVerification (completionOf CompletionVerificationInterrupted (Some (cause err)))
                   (ResultVerification deployResult)) (Some (ErrFault (cause err))) c
          | None =>
              let '(pruned, cleanupErr) := PruneServices req live in
              let result :=
                {| ResultAttempt := Some a; RetryDeferred := false; ResultUnresolved := [];
                   LiveServices := live; ResultObservedAt := observedAt k;
                   PrunedServices := pruned; ResultStatus := None; ResultErrorCode := "" |} in
              match executionError (pruneDeadline k) cleanupErr with
              | Some err =>
                  finish k req result a Failed
                    {| CompletionVerification := ResultVerification deployResult;
                       CompletionOutcome_ := CompletionCleanupFailed;
                       Diagnostic := Some (cause err); CompletionRetryable := false;
                       CompletionObservedAt := Some (observedAt k) |}
                    (Some (ErrFault (cause err))) c
              | None =>
                  finish k req result a Succeeded
                    {| CompletionVerification := noVerification;
                       CompletionOutcome_ := CompletionSucceeded; Diagnostic := None;
                       CompletionRetryable := false;
                       CompletionObservedAt := Some (observedAt k) |} None c
              end
          end
      end
  end.

Definition unchangedResult (req : ExecuteRequest) (c : Controller P)
    : ExecuteResult * list deploymentError * Controller P :=
  match onTables (Latest (Name (reqStack req))) (lifecycle c) with
  | (Err ErrNotFound, _) => (emptyResult None, [], c)
  | (Err e, _) => (emptyResult None, [e], c)
  | (Ok (latest, _), _) =>
      let deferred := bool_decide (deploymentStatus latest = Failed ∨
                                   deploymentStatus latest = Interrupted) in
      let result :=
        {| ResultAttempt := None; RetryDeferred := deferred;
           ResultUnresolved := if deferred then deferredServices latest (reqDesired req) else [];
           LiveServices := []; ResultObservedAt := time_zero; PrunedServices := [];
           ResultStatus := Some (deploymentStatus latest);
           ResultErrorCode := deploymentErrorCode latest |} in
      if bool_decide (deploymentStatus latest = Succeeded) then
        match RefreshRegistryAuth req with
        | Some err => (result, [ErrFault err], c)
        | None => (result, [], c)
        end
      else (result, [], c)
  end.

(** [execute]; [desired] is the result of [Prepare] on the request. *)
Definition execute (k : timeline) (ids : fresh) (desired : Result deploymentError Prepared)
    (req : ExecuteRequest) (c : Controller P)
    : ExecuteResult * list deploymentError * Controller P :=
  match recoverPending (recoveredAt k) (Name (reqStack req)) c with
  | (Some e, c) => (emptyResult None, [e], c)
  | (None, c) =>
      match StartIfChanged mask MaskValue (startedAt k) ids (Name (reqStack req)) (reqCommit req)
              desired (SourceChanged req) (ManualRetry req) (lifecycle c) with
      | (Err e, w) => (emptyResult None, [e], setLifecycle c w)
      | (Ok None, w) => unchangedResult req (setLifecycle c w)
      | (Ok (Some a), w) => executeAttempt k req a (setLifecycle c w)
      end
  end.
End Controller.

(** ** An execution settles its attempt *)
Section Settles.
Context {P : Type} {HP : Publisher P} {HE : Executors P} (mask : string → string) (MaskValue : string).
Implicit Types (w : World P) (c : Controller P).

Definition attemptHas (t : Tables) (id : string) (s : Status) : Prop :=
  ∃ x, findAttempt t id = Some x ∧ arow_status x = s.

Lemma saveVerification_attempts d t r t' :
  SaveVerification d t = (r, t') → deployment_attempts t' = deployment_attempts t.
Proof.
  unfold SaveVerification, updateDeployments, st_bind, exec.
  case_decide; [|by intros [= <- <-]].
  unfold requireOneRunning. by case_bool_decide; intros [= <- <-].
Qed.

Lemma saveInitJob_attempts e t r t' :
  SaveInitJobExecution e t = (r, t') → deployment_attempts t' = deployment_attempts t.
Proof.
  unfold SaveInitJobExecution, st_bind, exec, st_throw, st_ret.
  destruct (_ || _); [by intros [= <- <-]|]. by case_decide; intros [= <- <-].
Qed.

Lemma transaction_attempts {A} (m : St (World P) deploymentError A) w r w' :
  within_transaction m w = (r, w') →
  (∀ a s, m w = (Ok a, s) → deployment_attempts (tables s) = deployment_attempts (tables w)) →
  deployment_attempts (tables w') = deployment_attempts (tables w).
Proof.
  unfold within_transaction. destruct (m w) as [[a|e] s] eqn:E; intros [= <- <-]; [|done].
  intros H. by eapply H.
Qed.

Lemma updateStep_keeps id w w' :
  updateStep id w w' → inv (tables w) →
  inv (tables w') ∧ deployment_attempts (tables w') = deployment_attempts (tables w).
Proof.
  intros [name g w1 r w2 H|name g previous unresolved w1 r w2 H] Hinv.
  all: split; [eapply (step_inv mask MaskValue), Hinv;
    first [by eapply StepRecord | by eapply StepReject]|].
  all: eapply transaction_attempts; [exact H|].
  all: intros a s Hm; st_inv.
  all: match goal with Hv : verificationDeployment _ _ = _ |- _ =>
         apply verificationDeployment_tables in Hv as -> end.
  all: match goal with Hv : onTables _ _ = _ |- _ =>
         apply onTables_ok in Hv as [Hv _]; by eapply saveVerification_attempts end.
Qed.

Lemma updates_keep id w w' :
  rtc (updateStep id) w w' → inv (tables w) →
  inv (tables w') ∧ deployment_attempts (tables w') = deployment_attempts (tables w).
Proof.
  induction 1 as [|w1 w2 w3 H12 _ IH]; intros Hinv; [done|].
  destruct (updateStep_keeps _ _ _ H12 Hinv) as [Hinv2 E]. destruct (IH Hinv2) as [? ->]. done.
Qed.

Lemma persistInitJobs_keeps id index results w :
  inv (tables w) →
  inv (tables (persistInitJobs id index results w)) ∧
  deployment_attempts (tables (persistInitJobs id index results w)) = deployment_attempts (tables w).
Proof.
  revert index w. induction results as [|e results IH]; intros index w Hinv; [done|]. simpl.
  set (job := {| jobAttemptID := id |}).
  destruct (SaveInitJob job w) as [r w'] eqn:E. simpl.
  assert (inv (tables w')) as Hinv'
    by (apply (step_inv mask MaskValue w w'); [by apply (StepInitJob mask MaskValue job w r w')|done]).
  destruct (IH (index + 1)%Z w' Hinv') as [? ->]. split; [done|].
  unfold SaveInitJob, onTables in E.
  destruct (SaveInitJobExecution job (tables w)) as [r' t'] eqn:Et. injection E as _ <-.
  by eapply saveInitJob_attempts.
Qed.

Lemma completed_attemptHas w x r s now :
  inv (tables w) → x ∈ deployment_attempts (tables w) → arow_status x = Running →
  r ∈ deployments (tables w) → row_id r = arow_deployment_id x → terminal s → now ≠ 0%Z →
  attemptHas (completedTables mask (tables w) r x s now) (arow_id x) (st_status s).
Proof.
  intros Hinv Hx Hrun Hr Hxr Ht Hnow.
  pose proof (completedTables_inv mask w x r s now Hinv Hx Hrun Hr Hxr Ht Hnow) as Hinv'.
  exists (finishAttemptRow (completedAttempt mask (attempt [] x) s now) x). split; [|done].
  apply (findAttempt_Some _ Hinv'). split; [|done].
  assert (∀ l, x ∈ l → finishAttemptRow (completedAttempt mask (attempt [] x) s now) x ∈
    updateWhere (λ y, bool_decide (arow_id y = arow_id x))
      (finishAttemptRow (completedAttempt mask (attempt [] x) s now)) l) as Hin.
  { intros l Hl. apply elem_of_updateWhere. exists x. by rewrite bool_decide_eq_true_2. }
  unfold completedTables. case_bool_decide; simpl; by apply Hin.
Qed.

(** The completion of a running attempt takes effect or is kept pending. *)
Lemma completeAttempt_settles c now stack id completion err c' :
  inv (tables (lifecycle c)) → now ≠ 0%Z → acceptable completion = true →
  attemptHas (tables (lifecycle c)) id Running →
  completeAttempt mask now stack id completion c = (err, c') →
  inv (tables (lifecycle c')) ∧ ∃ s, state mask completion = Ok s ∧
    ((err = None ∧ pending c' !! stack = None ∧
      attemptHas (tables (lifecycle c')) id (st_status s)) ∨
     (is_Some err ∧ pending c' !! stack = Some (id, completion) ∧ lifecycle c' = lifecycle c)).
Proof.
  intros Hinv Hnow Hacc (x & Hx & Hrun) H.
  apply (findAttempt_Some _ Hinv) in Hx as [Hx <-].
  destruct (state_ok mask completion Hacc) as [s Hs].
  destruct (attempt_row _ _ Hinv Hx) as (r & Hr & Hxr).
  unfold completeAttempt, Complete in H. rewrite Hs in H. unfold within_transaction in H.
  rewrite (complete_run mask (lifecycle c) x r) in H by eauto using state_terminal.
  unfold emit in H.
  pose proof (completedTables_inv mask (lifecycle c) x r s now Hinv Hx Hrun Hr Hxr
    (state_terminal _ _ _ Hs) Hnow) as Hinv'.
  destruct (publish _ _) as [[u|e] p] in H; injection H as <- <-.
  - split; [done|]. exists s. split; [done|]. left. split; [done|]. split; [apply lookup_delete_eq|].
    apply completed_attemptHas; eauto using state_terminal.
  - split; [done|]. exists s. split; [done|]. right. split; [done|]. split; [|done].
    apply lookup_insert_eq.
Qed.

(** The outcome of an execution with an attempt. *)
Definition settled (stack : string) (a : Attempt) (result : ExecuteResult)
    (errs : list deploymentError) (c : Controller P) : Prop :=
  ∃ status, ResultStatus result = Some status ∧ status ∈ [Succeeded; Failed; Interrupted] ∧
    (ResultErrorCode result = "" ↔ status = Succeeded) ∧
    ((pending c !! stack = None ∧ attemptHas (tables (lifecycle c)) (attemptID a) status ∧
      (errs = [] ↔ status = Succeeded)) ∨
     (errs ≠ [] ∧ attemptHas (tables (lifecycle c)) (attemptID a) Running ∧
      ∃ completion s, pending c !! stack = Some (attemptID a, completion) ∧
        state mask completion = Ok s ∧ st_status s = status)).

Lemma finish_settles k req result a status completion err c :
  inv (tables (lifecycle c)) → completedAt k ≠ 0%Z → acceptable completion = true →
  attemptHas (tables (lifecycle c)) (attemptID a) Running →
  (∀ s, state mask completion = Ok s → st_status s = status) →
  (err = None ↔ status = Succeeded) →
  let '(result', errs, c') := finish mask k req result a status completion err c in
  ResultAttempt result' = ResultAttempt result ∧ inv (tables (lifecycle c')) ∧
  settled (Name (reqStack req)) a result' errs c'.
Proof.
  intros Hinv Hnow Hacc Hrun Hstatus Herr. unfold finish.
  destruct (completeAttempt mask (completedAt k) (Name (reqStack req)) (attemptID a) completion c)
    as [cerr c'] eqn:E.
  destruct (completeAttempt_settles _ _ _ _ _ _ _ Hinv Hnow Hacc Hrun E)
    as (Hinv' & s & Hs & Hcase).
  split; [done|]. split; [done|]. specialize (Hstatus s Hs).
  pose proof (state_terminal _ _ _ Hs) as Ht.
  assert (ErrorCode completion = st_errorCode s) as Hcode.
  { clear - Hs. unfold state in Hs. by destruct completion as [v [] [d|] r [o|]]; simpl in Hs; simplify_eq. }
  exists status. split; [done|]. subst status. split; [apply (terminal_status s Ht)|].
  split; [simpl; rewrite Hcode; apply (terminal_code s Ht)|].
  destruct Hcase as [(-> & Hp & Hat)|([e ->] & Hp & Hl)].
  - left. split; [done|]. split; [done|]. rewrite <- Herr. by destruct err.
  - right. split; [by destruct err|]. split; [by rewrite Hl|]. eauto.
Qed.
Lemma Inspect_run w id a w' :
  Inspect id w = (Ok a, w') → w' = w ∧ attemptHas (tables w) id (attemptStatus a).
Proof.
  unfold Inspect. intros H%(proj1 (within_transaction_ok _ _ _ _)). revert H.
  unfold st_bind, onTables, GetAttempt, Get, notFound.
  destruct (findAttempt (tables w) id) as [x|] eqn:E; simpl; [|done].
  destruct (findRow _ _); simpl; [|done]. intros [= <- <-]. split; [apply world_eta|]. by exists x.
Qed.

(** Nothing is pending for the stack any more, and what was is settled. *)
Definition recovered (stack : string) c c' : Prop :=
  pending c' = delete stack (pending c) ∧
  ∀ id completion, pending c !! stack = Some (id, completion) →
    ∃ s, s ≠ Running ∧ attemptHas (tables (lifecycle c')) id s.

Lemma recoverPending_spec now stack c err c' :
  inv (tables (lifecycle c)) → now ≠ 0%Z →
  recoverPending mask now stack c = (err, c') →
  inv (tables (lifecycle c')) ∧
  match err with
  | None => recovered stack c c'
  | Some _ => c' = c
  end.
Proof.
  intros Hinv Hnow. unfold recoverPending, recovered.
  destruct (pending c !! stack) as [[id completion]|] eqn:Ep.
  2:{ intros [= <- <-]. split; [done|]. split; [by rewrite delete_id|done]. }
  assert (∀ w, setLifecycle c w = c ↔ w = lifecycle c) as Hset.
  { intros w. destruct c as [l q]. unfold setLifecycle. simpl. split; congruence. }
  destruct (Complete mask now id completion (lifecycle c)) as [[u|e] w] eqn:Ec.
  - intros [= <- <-]. assert (inv (tables w)) as Hinv' by (by eapply Complete_inv).
    split; [done|]. split; [done|]. intros i k [= <- <-].
    unfold Complete in Ec. destruct (state mask completion) as [s|] eqn:Es; [|done].
    apply state_terminal in Es. unfold within_transaction in Ec.
    destruct (findAttempt (tables (lifecycle c)) id) as [x|] eqn:Ex;
      [|by rewrite complete_absent in Ec].
    apply (findAttempt_Some _ Hinv) in Ex as [Hx <-].
    destruct (decide (arow_status x = Running)) as [Hrun|Hrun];
      [|by rewrite complete_refused in Ec].
    destruct (attempt_row _ _ Hinv Hx) as (r & Hr & Hxr).
    rewrite (complete_run mask _ x r) in Ec by done.
    destruct (emit _ _) as [[u'|] w1] eqn:Ee; [|done]. injection Ec as _ <-.
    apply emit_tables in Ee.
    exists (st_status s). split.
    { pose proof (terminal_status s Es) as Ht. clear - Ht. destruct (st_status s); set_solver. }
    unfold attemptHas. cbn [lifecycle]. rewrite Ee. by apply completed_attemptHas.
  - assert (w = lifecycle c) as ->.
    { unfold Complete in Ec. destruct (state mask completion); [|by unfold st_throw in Ec; simplify_eq].
      by apply within_transaction_err in Ec. }
    assert (∀ e', (Some e', setLifecycle c (lifecycle c)) = (err, c') →
      inv (tables (lifecycle c')) ∧ is_Some err ∧ c' = c)
      as Hkeep by (intros e' [= <- <-]; split_and!; [done|done|by apply Hset]).
    assert (∀ e' (Q : Prop), (Some e', setLifecycle c (lifecycle c)) = (err, c') →
      inv (tables (lifecycle c')) ∧ match err with None => Q | Some _ => c' = c end) as Hkept.
    { intros e' Q H. by destruct (Hkeep e' H) as (? & [? ->] & ?). }
    destruct e; try (by apply Hkept).
    destruct (Inspect id (lifecycle c)) as [[actual|e] w] eqn:Ei.
    + apply Inspect_run in Ei as [-> Hat].
      case_bool_decide; [|by apply Hkept]. simpl. case_bool_decide; [by apply Hkept|].
      intros [= <- <-]. split; [done|]. split; [done|]. intros i k [= <- <-]. eauto.
    + unfold Inspect in Ei. apply within_transaction_err in Ei as ->. by apply Hkept.
Qed.

Lemma startedFor_running t stack desired a :
  inv t → startedFor t stack desired a → attemptHas t (attemptID a) Running.
Proof.
  intros Hinv (r & older & _ & _ & _ & E & Hst & _). exists (insertedRow a). split; [|done].
  apply (findAttempt_Some _ Hinv). split; [|done].
  assert (insertedRow a ∈ attemptRows t (row_id r)) as [? _]%elem_of_attemptRows; [|done].
  rewrite E. set_solver.
Qed.
Lemma classify_acceptable err v :
  let completion := withVerification (classifyExecutionFailure err) v in
  acceptable completion = true ∧
  (∀ s, state mask completion = Ok s → st_status s = completionStatus completion) ∧
  completionStatus completion ≠ Succeeded.
Proof.
  unfold classifyExecutionFailure, completionStatus.
  repeat case_bool_decide; try destruct (isErrConvergenceFailed err); simpl in *;
    (split; [done|split; [|try done]]); try (intros s [= <-]; done); naive_solver.
Qed.

Lemma executeAttempt_settles k req a c stack desired :
  inv (tables (lifecycle c)) → completedAt k ≠ 0%Z →
  startedFor (tables (lifecycle c)) stack desired a →
  let '(result, errs, c') := executeAttempt mask k req a c in
  ResultAttempt result = Some a ∧ inv (tables (lifecycle c')) ∧
  settled (Name (reqStack req)) a result errs c'.
Proof.
  intros Hinv Hnow Hstarted%startedFor_running; [|done]. unfold executeAttempt.
  destruct (stackOptions a (lifecycle c)) as [options|e].
  2:{ apply finish_settles; try done. by intros s [= <-]. }
  pose proof (DeployStack_updates req options (attemptID a) (lifecycle c)) as Hup.
  destruct (DeployStack req options (attemptID a) (lifecycle c)) as [[deployResult deployErr] w].
  apply updates_keep in Hup as [Hinv1 Hat1]; [|done]. simpl in Hinv1, Hat1.
  set (w' := persistInitJobs _ _ _ _).
  destruct (persistInitJobs_keeps (attemptID a) 0 (take (savedInitJobs k) (InitJobs deployResult)) w Hinv1)
    as [Hinv2 Hat2]. fold w' in Hinv2, Hat2.
  assert (attemptHas (tables w') (attemptID a) Running) as Hrun.
  { destruct Hstarted as (x & Hx & Hst). exists x. split; [|done].
    unfold findAttempt in *. by rewrite Hat2, Hat1. }
  destruct (executionError (deployDeadline k) deployErr) as [err|].
  { destruct (classify_acceptable err (ResultVerification deployResult)) as (Hacc & Hst & Hne).
    by apply finish_settles. }
  destruct (ListServices _) as [live observeErr].
  destruct (executionError (observeDeadline k) observeErr) as [err|].
  { apply finish_settles; try done. by intros s [= <-]. }
  destruct (PruneServices req live) as [pruned cleanupErr].
  destruct (executionError (pruneDeadline k) cleanupErr) as [err|];
    apply (finish_settles k req {| ResultAttempt := Some a |}); try done; by intros s [= <-].
Qed.

(** C27. An execution never loses an outcome. A completion left pending by an
    earlier execution of the stack is retried first: if it can neither be
    persisted nor shown to be settled, the execution fails at once, changing
    nothing and starting nothing. Otherwise nothing old is pending, the
    invariant holds at the end, and if there is an attempt, the returned
    status is final, has an error code exactly when it is not success, and is
    either the persisted status of the attempt or, with an error returned,
    kept pending in a completion that selects it while the attempt is still
    running. *)
Theorem execute_settles k ids desired req c result errs c' :
  inv (tables (lifecycle c)) →
  recoveredAt k ≠ 0%Z →
  completedAt k ≠ 0%Z →
  execute mask MaskValue k ids desired req c = (result, errs, c') →
  let stack := Name (reqStack req) in
  (ResultAttempt result = None ∧ errs ≠ [] ∧ c' = c) ∨
  (inv (tables (lifecycle c')) ∧
   (∃ c1, recoverPending mask (recoveredAt k) stack c = (None, c1) ∧ recovered stack c c1) ∧
   match ResultAttempt result with
   | None => pending c' !! stack = None
   | Some a => settled stack a result errs c'
   end).
Proof.
  intros Hinv Hrec Hnow H stack. unfold execute in H. fold stack in H.
  destruct (recoverPending mask (recoveredAt k) stack c) as [err c1] eqn:Er.
  destruct (recoverPending_spec _ _ _ _ _ Hinv Hrec Er) as [Hinv1 Hcase].
  destruct err as [e|]; [injection H as <- <- <-; left; done|].
  right.
  assert (pending c1 !! stack = None) as Hnone by (destruct Hcase as [-> _]; apply lookup_delete_eq).
  destruct (StartIfChanged _ _ _ _ _ _ _ _ _ _) as [[[a|]|e] w] eqn:Es.
  - assert (inv (tables w) ∧ ∃ d, startedFor (tables w) stack d a) as [Hinv2 [d Hd]].
    { split; [eapply (step_inv mask MaskValue), Hinv1; by eapply StepStart|].
      by eapply StartIfChanged_started. }
    pose proof (executeAttempt_settles k req a (setLifecycle c1 w) stack d Hinv2 Hnow Hd) as Hset.
    rewrite H in Hset. destruct Hset as (-> & Hinv' & Hs). eauto 10.
  - assert (inv (tables w)) as Hinv2
      by (eapply (step_inv mask MaskValue), Hinv1; by eapply StepStart).
    unfold unchangedResult in H. destruct (onTables _ _) as [[[latest p]|e'] w'].
    + destruct (bool_decide _); [destruct (RefreshRegistryAuth req)|];
        injection H as <- <- <-; simpl; eauto 10.
    + destruct e'; injection H as <- <- <-; simpl; eauto 10.
  - assert (inv (tables w)) as Hinv2
      by (eapply (step_inv mask MaskValue), Hinv1; by eapply StepStart).
    injection H as <- <- <-. simpl. eauto 10.
Qed.
End Settles.

(** ** One successful execution *)
Module ControllerExample.
Definition quiet : Executors (list event) :=
  {| DeployStack _ _ _ w :=
       ({| ResultVerification := noVerification; InitJobs := [] |}, None, w);
     DeployStack_updates _ _ _ w := rtc_refl _ w;
     ListServices _ := ([], None); PruneServices _ _ := ([], None);
     RefreshRegistryAuth _ := None |}.
#[local] Existing Instance LifecycleExample.log.
#[local] Existing Instance quiet.

Definition times : timeline :=
  {| recoveredAt := 9; startedAt := 10; observedAt := 20; completedAt := 30;
     savedInitJobs := 5; deployDeadline := None; observeDeadline := None;
     pruneDeadline := None |}.
Definition request : ExecuteRequest :=
  {| reqStack := {| Name := "app"; ComposeFile := "app.yaml";
                    Policy := {| StackPrune := None; StackSelfHeal := None |} |};
     reqCommit := "c"; reqDesired := Definition_ (LifecycleExample.desired "x" ["api"]);
     ManualRetry := false; SourceChanged := true |}.
Definition idle : Controller (list event) :=
  {| lifecycle := LifecycleExample.w0; pending := ∅ |}.
Definition out : ExecuteResult * list deploymentError * Controller (list event) :=
  execute id "****" times (LifecycleExample.ids "1") (Ok (LifecycleExample.desired "x" ["api"]))
    request idle.

Lemma execute_settles_witness :
  ResultStatus out.1.1 = Some Succeeded ∧
  ∃ a, settled id "app" a out.1.1 out.1.2 out.2.
Proof.
  assert (is_Some (ResultAttempt out.1.1)) as Hsome by (vm_compute; eexists; reflexivity).
  split; [by vm_compute|].
  destruct (execute_settles id "****" times (LifecycleExample.ids "1")
    (Ok (LifecycleExample.desired "x" ["api"])) request idle out.1.1 out.1.2 out.2
    emptyTables_inv ltac:(discriminate) ltac:(discriminate)
    ltac:(unfold out; by destruct (execute _ _ _ _ _ _ _) as [[??]?]))
    as [(Hnone & _)|(_ & _ & Hset)].
  - exfalso. rewrite Hnone in Hsome. destruct Hsome as [? [=]].
  - destruct Hsome as [a E]. rewrite E in Hset. exists a. exact Hset.
Defined.
End ControllerExample.
