(* ===== verification/TaskSpecs.v ===== *)
(** * Task specifications and their comparison ([internal/swarm/task_spec.go])

    The types of the Docker SDK are data here: a record has the fields the
    program names, and a field it only compares is a [GoValue], the tree that
    package [reflect] walks. A nil slice or map is [None]. *)
From S2P Require Import Prelude GoStrings.

(** ** Go values as [reflect] sees them *)

(** Scalars, slices and maps are leaves: the walk stops at them and compares
    their content, coded as a number. The type of a struct carries the names of
    its fields and whether they are exported. *)
Inductive GoValue :=
| GoLeaf (type : string) (content : positive)
| GoPointer (type : string) (elem : option GoValue)
| GoStruct (type : string) (layout : list (string * bool)) (fields : list GoValue).

Definition leaf {A} `{Countable A} (type : string) (x : A) : GoValue := GoLeaf type (encode x).

(** [Value.Type] *)
Definition typeOf (v : GoValue) : string * list (string * bool) :=
  match v with
  | GoLeaf t _ | GoPointer t _ => (t, [])
  | GoStruct t layout _ => (t, layout)
  end.

(** [reflect.DeepEqual] is equality. *)
#[export] Instance GoValue_eq_dec : EqDecision GoValue.
Proof.
  refine (fix go v w {struct v} : Decision (v = w) :=
    match v, w with
    | GoLeaf t c, GoLeaf t' c' => cast_if_and (decide (t = t')) (decide (c = c'))
    | GoPointer t e, GoPointer t' e' => cast_if_and (decide (t = t')) (@option_eq_dec _ go e e')
    | GoStruct t l f, GoStruct t' l' f' =>
        cast_if_and (decide ((t, l) = (t', l'))) (@list_eq_dec _ go f f')
    | _, _ => right _
    end); clear go; abstract congruence.
Defined.

(** The loop over the exported fields of a struct. *)
Section Fields.
Context (walk : GoValue → GoValue → string → list string) (path : string).
Fixpoint fieldDifferencePaths (ls rs : list GoValue) (layout : list (string * bool)) : list string :=
  match ls, rs, layout with
  | l :: ls, r :: rs, (name, exported) :: layout =>
      (if exported : bool then walk l r (path +:+ "." +:+ name) else []) ++
      fieldDifferencePaths ls rs layout
  | _, _, _ => []
  end.
End Fields.

(** [taskSpecDifferencePaths]: the fields below [path] in which two values
    differ. *)
Fixpoint taskSpecDifferencePaths (left right : GoValue) (path : string) : list string :=
  if negb (bool_decide (typeOf left = typeOf right)) then [path]
  else if bool_decide (left = right) then []
  else match left, right with
       | GoPointer _ (Some l), GoPointer _ (Some r) => taskSpecDifferencePaths l r path
       | GoStruct _ layout ls, GoStruct _ _ rs =>
           match fieldDifferencePaths taskSpecDifferencePaths path ls rs layout with
           | [] => [path]
           | below => below
           end
       | _, _ => [path]
       end.

(** ** Task templates of the Docker SDK *)
Record RestartPolicy := {
  Condition : string; Delay : option Duration; MaxAttempts : option N; Window : option Duration;
}.

Record ContainerSpec := {
  Image : string; Isolation : string; StopGracePeriod : option Duration;
  DNSConfig : option GoValue; Env : option (list string);
  CapabilityAdd : option (list string); CapabilityDrop : option (list string);
  containerLayout : list (string * bool); containerOther : list GoValue;
}.

Record Placement := {
  Constraints : option (list string); Preferences : option (list (option string));
  MaxReplicas : N; Platforms : option (list (string * string));
}.

Record NetworkAttachment := {
  Target : string; Aliases : option (list string); DriverOpts : option (gmap string string);
}.

Record TaskSpec := {
  taskContainer : option ContainerSpec; taskPlugin : option GoValue;
  taskNetworkAttachment : option GoValue; taskResources : option GoValue;
  taskRestartPolicy : option RestartPolicy; taskPlacement : option Placement;
  taskNetworks : option (list NetworkAttachment); taskLogDriver : option GoValue;
  taskForceUpdate : N; taskRuntime : string;
}.

(** The zero value. *)
Definition noTaskSpec : TaskSpec :=
  {| taskContainer := None; taskPlugin := None; taskNetworkAttachment := None;
     taskResources := None; taskRestartPolicy := None; taskPlacement := None;
     taskNetworks := None; taskLogDriver := None; taskForceUpdate := 0; taskRuntime := "" |}.

#[export] Instance RestartPolicy_eq_dec : EqDecision RestartPolicy.
Proof. solve_decision. Defined.
#[export] Instance ContainerSpec_eq_dec : EqDecision ContainerSpec.
Proof. solve_decision. Defined.
#[export] Instance Placement_eq_dec : EqDecision Placement.
Proof. solve_decision. Defined.
#[export] Instance NetworkAttachment_eq_dec : EqDecision NetworkAttachment.
Proof. solve_decision. Defined.
#[export] Instance TaskSpec_eq_dec : EqDecision TaskSpec.
Proof. solve_decision. Defined.

#[export] Instance NetworkAttachment_countable : Countable NetworkAttachment.
Proof.
  refine (inj_countable' (λ n, (Target n, Aliases n, DriverOpts n))
    (λ '(t, a, d), {| Target := t; Aliases := a; DriverOpts := d |}) _).
  by intros [].
Defined.

(** The zero values [DNSConfig{}], [ResourceRequirements{}] and [Placement{}]. *)
Definition emptyDNSConfig : GoValue :=
  GoStruct "swarm.DNSConfig" [("Nameservers", true); ("Search", true); ("Options", true)]
    (replicate 3 (leaf "[]string" (None : option (list string)))).
Definition emptyResources : GoValue :=
  GoStruct "swarm.ResourceRequirements" [("Limits", true); ("Reservations", true)]
    [GoPointer "*swarm.Limit" None; GoPointer "*swarm.Resources" None].
Definition emptyPlacement : Placement :=
  {| Constraints := None; Preferences := None; MaxReplicas := 0; Platforms := None |}.

(** ** [reflect.ValueOf] *)
Definition fieldNames : list string → list (string * bool) := map (λ name, (name, true)).

Definition reflectContainer (c : ContainerSpec) : GoValue :=
  GoStruct "swarm.ContainerSpec"
    (fieldNames ["Image"; "Isolation"; "StopGracePeriod"; "DNSConfig"; "Env"; "CapabilityAdd";
       "CapabilityDrop"] ++ containerLayout c)
    ([leaf "string" (Image c); leaf "container.Isolation" (Isolation c);
      GoPointer "*time.Duration" (leaf "time.Duration" <$> StopGracePeriod c);
      GoPointer "*swarm.DNSConfig" (DNSConfig c); leaf "[]string" (Env c);
      leaf "[]string" (CapabilityAdd c); leaf "[]string" (CapabilityDrop c)] ++ containerOther c).

Definition reflectRestartPolicy (p : RestartPolicy) : GoValue :=
  GoStruct "swarm.RestartPolicy" (fieldNames ["Condition"; "Delay"; "MaxAttempts"; "Window"])
    [leaf "swarm.RestartPolicyCondition" (Condition p);
     GoPointer "*time.Duration" (leaf "time.Duration" <$> Delay p);
     GoPointer "*uint64" (leaf "uint64" <$> MaxAttempts p);
     GoPointer "*time.Duration" (leaf "time.Duration" <$> Window p)].

Definition reflectPlacement (p : Placement) : GoValue :=
  GoStruct "swarm.Placement" (fieldNames ["Constraints"; "Preferences"; "MaxReplicas"; "Platforms"])
    [leaf "[]string" (Constraints p); leaf "[]swarm.PlacementPreference" (Preferences p);
     leaf "uint64" (MaxReplicas p); leaf "[]swarm.Platform" (Platforms p)].

Definition taskFields : list string :=
  ["ContainerSpec"; "PluginSpec"; "NetworkAttachmentSpec"; "Resources"; "RestartPolicy";
   "Placement"; "Networks"; "LogDriver"; "ForceUpdate"; "Runtime"].

Definition taskValues (t : TaskSpec) : list GoValue :=
  [GoPointer "*swarm.ContainerSpec" (reflectContainer <$> taskContainer t);
   GoPointer "*runtime.PluginSpec" (taskPlugin t);
   GoPointer "*swarm.NetworkAttachmentSpec" (taskNetworkAttachment t);
   GoPointer "*swarm.ResourceRequirements" (taskResources t);
   GoPointer "*swarm.RestartPolicy" (reflectRestartPolicy <$> taskRestartPolicy t);
   GoPointer "*swarm.Placement" (reflectPlacement <$> taskPlacement t);
   leaf "[]swarm.NetworkAttachmentConfig" (taskNetworks t);
   GoPointer "*swarm.Driver" (taskLogDriver t);
   leaf "uint64" (taskForceUpdate t); leaf "swarm.RuntimeType" (taskRuntime t)].

Definition reflectTask (t : TaskSpec) : GoValue :=
  GoStruct "swarm.TaskSpec" (fieldNames taskFields) (taskValues t).

(** ** [normalizeTaskSpec] *)
Definition RuntimeContainer : string := "container".
Definition RuntimePlugin : string := "plugin".
Definition IsolationDefault : string := "default".
Definition RestartPolicyConditionAny : string := "any".
Definition RestartPolicyConditionNone : string := "none".
Definition RestartPolicyConditionOnFailure : string := "on-failure".
Definition taskDefaultStopGracePeriod : Duration := (10 * second)%Z.
Definition taskDefaultRestartDelay : Duration := (5 * second)%Z.

Definition normalizeRuntime (t : TaskSpec) : string :=
  if bool_decide (taskRuntime t = "") then
    match taskContainer t, taskPlugin t with
    | Some _, None => RuntimeContainer
    | None, Some _ => RuntimePlugin
    | _, _ => taskRuntime t
    end
  else taskRuntime t.

Definition normalizeContainer (c : ContainerSpec) : ContainerSpec :=
  {| Image := Image c;
     Isolation := if bool_decide (Isolation c = "") then IsolationDefault else Isolation c;
     StopGracePeriod := Some (default taskDefaultStopGracePeriod (StopGracePeriod c));
     DNSConfig := Some (default emptyDNSConfig (DNSConfig c));
     Env := Env c; CapabilityAdd := CapabilityAdd c; CapabilityDrop := CapabilityDrop c;
     containerLayout := containerLayout c; containerOther := containerOther c |}.

Definition noRestartPolicy : RestartPolicy :=
  {| Condition := ""; Delay := None; MaxAttempts := None; Window := None |}.

Definition normalizeRestartPolicy (p : RestartPolicy) : RestartPolicy :=
  {| Condition := if bool_decide (Condition p = "") then RestartPolicyConditionAny else Condition p;
     Delay := Some (default taskDefaultRestartDelay (Delay p));
     MaxAttempts := Some (default 0%N (MaxAttempts p)); Window := Window p |}.

Definition normalizeTaskSpec (t : TaskSpec) : TaskSpec :=
  {| taskContainer := normalizeContainer <$> taskContainer t; taskPlugin := taskPlugin t;
     taskNetworkAttachment := taskNetworkAttachment t;
     taskResources := Some (default emptyResources (taskResources t));
     taskRestartPolicy :=
       Some (normalizeRestartPolicy (default noRestartPolicy (taskRestartPolicy t)));
     taskPlacement := Some (default emptyPlacement (taskPlacement t));
     taskNetworks := taskNetworks t; taskLogDriver := taskLogDriver t;
     taskForceUpdate := taskForceUpdate t; taskRuntime := normalizeRuntime t |}.

(** ** Comparison *)
Record TaskSpecComparison := { mismatchPaths : list string; olderForceUpdateOnly : bool }.

(** The type [TaskSpec] of the package, which wraps a normalized template. *)
Definition NewTaskSpec (spec : TaskSpec) : TaskSpec := normalizeTaskSpec spec.

Definition CompareServiceTemplate (s template : TaskSpec) : TaskSpecComparison :=
  let template := normalizeTaskSpec template in
  if bool_decide (reflectTask s = reflectTask template) then
    {| mismatchPaths := []; olderForceUpdateOnly := false |}
  else
    let paths := taskSpecDifferencePaths (reflectTask template) (reflectTask s) "TaskTemplate" in
    {| mismatchPaths := paths;
       olderForceUpdateOnly :=
         (taskForceUpdate s <? taskForceUpdate template)%N &&
         bool_decide (paths = ["TaskTemplate.ForceUpdate"]) |}.

Definition Equal (c : TaskSpecComparison) : bool :=
  match mismatchPaths c with [] => true | _ => false end.

Definition OlderForceUpdateOnly (c : TaskSpecComparison) : bool := olderForceUpdateOnly c.

Definition PlacementOnly (c : TaskSpecComparison) : bool :=
  match mismatchPaths c with
  | [] => false
  | paths =>
      forallb (λ path, bool_decide (path = "TaskTemplate.Placement") ||
                       has_prefix "TaskTemplate.Placement." path) paths
  end.

Definition MismatchPaths (c : TaskSpecComparison) : list string := mismatchPaths c.

(** ** The walk finds exactly the differences *)
Section GoValue_rect.
Context (P : GoValue → Prop).
Context (Hleaf : ∀ t c, P (GoLeaf t c)) (Hnil : ∀ t, P (GoPointer t None))
  (Hpointer : ∀ t v, P v → P (GoPointer t (Some v)))
  (Hstruct : ∀ t l fs, Forall P fs → P (GoStruct t l fs)).

Fixpoint GoValue_nested_ind (v : GoValue) : P v :=
  match v with
  | GoLeaf t c => Hleaf t c
  | GoPointer t None => Hnil t
  | GoPointer t (Some v) => Hpointer t v (GoValue_nested_ind v)
  | GoStruct t l fs =>
      Hstruct t l fs ((fix go fs := match fs return Forall P fs with
        | [] => Forall_nil_2 P
        | f :: fs => Forall_cons_2 P f fs (GoValue_nested_ind f) (go fs)
        end) fs)
  end.
End GoValue_rect.

(** A path names its field or something below it. *)
Definition below (path p : string) : Prop := p = path ∨ ∃ rest, p = path +:+ "." +:+ rest.

Lemma below_field path name p : below (path +:+ "." +:+ name) p → below path p.
Proof.
  intros [->|[rest ->]]; right; [by exists name|].
  exists (name +:+ "." +:+ rest). by rewrite !string_app_assoc.
Qed.

Lemma differencePaths_nil l r path : taskSpecDifferencePaths l r path = [] ↔ l = r.
Proof.
  split; [|intros ->; destruct r; simpl; by rewrite !bool_decide_true].
  revert r path. induction l as [t c|t|t v IH|t la fs _] using GoValue_nested_ind;
    intros r path Hd; simpl in Hd.
  all: case_bool_decide as Ht; [simpl in Hd|done].
  all: case_bool_decide; [done|].
  - done.
  - done.
  - destruct r as [|t' [v'|]|]; try done. f_equal; [by inv Ht|f_equal; by eapply IH].
  - destruct r as [| |t' la' fs']; try done. by destruct (fieldDifferencePaths _ _ _ _ _).
Qed.

Lemma differencePaths_below l r path : Forall (below path) (taskSpecDifferencePaths l r path).
Proof.
  assert (below path path) as Hself by by left.
  revert r path Hself. induction l as [t c|t|t v IH|t la fs IH] using GoValue_nested_ind;
    intros r path Hself; simpl.
  all: case_bool_decide; simpl; [|by repeat constructor].
  all: case_bool_decide; [by constructor|].
  - by repeat constructor.
  - by repeat constructor.
  - destruct r as [|t' [v'|]|]; try (by repeat constructor). by apply IH.
  - destruct r as [| |t' la' fs']; try (by repeat constructor).
    assert (Forall (below path) (fieldDifferencePaths taskSpecDifferencePaths path fs fs' la)) as Hf.
    { clear H H0 la' Hself. revert fs' la.
      induction IH as [|f fs Hf _ IHfs]; intros [|f' fs'] [|[name exported] la]; simpl;
        try by constructor.
      apply Forall_app. split; [|done]. destruct exported; [|by constructor].
      eapply Forall_impl; [by apply Hf; left|]. apply below_field. }
    destruct (fieldDifferencePaths _ _ _ _ _); [by repeat constructor|done].
Qed.

Lemma differencePaths_struct t la ls rs path :
  ls ≠ rs →
  taskSpecDifferencePaths (GoStruct t la ls) (GoStruct t la rs) path =
  match fieldDifferencePaths taskSpecDifferencePaths path ls rs la with
  | [] => [path]
  | below => below
  end.
Proof.
  intros Hne. simpl. rewrite (bool_decide_true (_ = _)) by done. simpl.
  by rewrite bool_decide_false by congruence.
Qed.

Lemma differencePaths_leaf {A} `{Countable A} type (x y : A) path :
  x ≠ y → taskSpecDifferencePaths (leaf type x) (leaf type y) path = [path].
Proof.
  intros Hne. simpl. rewrite bool_decide_true by done. simpl.
  rewrite bool_decide_false; [done|]. intros [= Heq]. by apply (inj encode) in Heq.
Qed.

#[local] Arguments taskSpecDifferencePaths : simpl never.

#[export] Instance leaf_inj {A} `{Countable A} type : Inj (=) (=) (leaf (A := A) type).
Proof. intros x y Hxy. unfold leaf in Hxy. inv Hxy. by apply (inj encode). Qed.

(** Equal coded fields are equal. *)
Ltac fields_inj :=
  repeat match goal with
  | H : encode _ = encode _ |- _ => apply (inj encode) in H
  | H : _ <$> _ = _ <$> _ |- _ => apply (inj (fmap _)) in H
  end; by subst.

#[export] Instance reflectContainer_inj : Inj (=) (=) reflectContainer.
Proof.
  intros [] [] Heq. unfold reflectContainer, fieldNames in Heq. simpl in Heq. inv Heq.
  fields_inj.
Qed.

#[export] Instance reflectRestartPolicy_inj : Inj (=) (=) reflectRestartPolicy.
Proof.
  intros [] [] Heq. unfold reflectRestartPolicy in Heq. simpl in Heq. inv Heq.
  fields_inj.
Qed.

#[export] Instance reflectPlacement_inj : Inj (=) (=) reflectPlacement.
Proof.
  intros [] [] Heq. unfold reflectPlacement in Heq. simpl in Heq. inv Heq.
  fields_inj.
Qed.

#[export] Instance GoPointer_inj type : Inj (=) (=) (GoPointer type).
Proof. by intros ? ? [=]. Qed.

(** The field of a template at a position of [taskFields] decides. *)
Lemma taskValues_eq s t :
  taskValues s = taskValues t ↔ s = t.
Proof.
  split; [|by intros ->]. destruct s, t. unfold taskValues. simpl.
  intros [= Hc -> -> -> Hr Hp Hn -> Hf Hrt]. fields_inj.
Qed.

#[export] Instance reflectTask_inj : Inj (=) (=) reflectTask.
Proof.
  intros s t Heq. apply taskValues_eq.
  by apply (f_equal (λ v, match v with GoStruct _ _ fs => fs | _ => [] end)) in Heq.
Qed.

Lemma fieldPaths_Forall Q walk path ls rs names :
  Forall Q (fieldDifferencePaths walk path ls rs (fieldNames names)) ↔
  Forall (λ x : string * (GoValue * GoValue), Forall Q (walk x.2.1 x.2.2 (path +:+ "." +:+ x.1)))
    (zip names (zip ls rs)).
Proof.
  revert rs names. induction ls as [|l ls IH]; intros [|r rs] [|name names]; simpl;
    try (split; intros _; by constructor).
  by rewrite Forall_app, Forall_cons, IH.
Qed.

(** A property of the reported paths is a property of the paths of each field. *)
Lemma taskPaths_Forall Q s t :
  s ≠ t →
  Forall Q (taskSpecDifferencePaths (reflectTask t) (reflectTask s) "TaskTemplate") ↔
  Forall (λ x : string * (GoValue * GoValue),
      Forall Q (taskSpecDifferencePaths x.2.1 x.2.2 ("TaskTemplate" +:+ "." +:+ x.1)))
    (zip taskFields (zip (taskValues t) (taskValues s))).
Proof.
  intros Hne. assert (taskValues t ≠ taskValues s) as Hv.
  { intros Heq%taskValues_eq. congruence. }
  rewrite <-fieldPaths_Forall. unfold reflectTask. rewrite differencePaths_struct by done.
  destruct (fieldDifferencePaths _ _ _ _ _) eqn:Hf; [|done]. exfalso. apply Hv.
  assert (Forall (λ _, False) (fieldDifferencePaths taskSpecDifferencePaths "TaskTemplate"
    (taskValues t) (taskValues s) (fieldNames taskFields))) as Hnil by (rewrite Hf; constructor).
  rewrite fieldPaths_Forall in Hnil. simpl in Hnil. rewrite !Forall_cons in Hnil. simpl in Hnil.
  destruct_and! Hnil.
  repeat match goal with H : Forall (λ _, False) ?l |- _ =>
    assert (l = []) as ?%differencePaths_nil by (destruct l; [done|by inv H]); clear H end.
  unfold taskValues. congruence.
Qed.

(** Outside one field, a template is as another one. *)
Definition withPlacement (t : TaskSpec) (p : option Placement) : TaskSpec :=
  {| taskContainer := taskContainer t; taskPlugin := taskPlugin t;
     taskNetworkAttachment := taskNetworkAttachment t; taskResources := taskResources t;
     taskRestartPolicy := taskRestartPolicy t; taskPlacement := p; taskNetworks := taskNetworks t;
     taskLogDriver := taskLogDriver t; taskForceUpdate := taskForceUpdate t;
     taskRuntime := taskRuntime t |}.
Definition withForceUpdate (t : TaskSpec) (n : N) : TaskSpec :=
  {| taskContainer := taskContainer t; taskPlugin := taskPlugin t;
     taskNetworkAttachment := taskNetworkAttachment t; taskResources := taskResources t;
     taskRestartPolicy := taskRestartPolicy t; taskPlacement := taskPlacement t;
     taskNetworks := taskNetworks t; taskLogDriver := taskLogDriver t; taskForceUpdate := n;
     taskRuntime := taskRuntime t |}.

Lemma differencePaths_refl v path : taskSpecDifferencePaths v v path = [].
Proof. by apply differencePaths_nil. Qed.

(** All paths of a field satisfy a property that no path below the field has
    only if the field is the same on both sides. *)
Lemma fieldPaths_excluded (Q : string → Prop) v w path :
  (∀ p, below path p → ¬ Q p) → Forall Q (taskSpecDifferencePaths v w path) ↔ v = w.
Proof.
  intros Hno. rewrite <-(differencePaths_nil v w path).
  pose proof (differencePaths_below v w path) as Hb.
  destruct (taskSpecDifferencePaths v w path) as [|p ps]; [split; [done|constructor]|].
  split; [|done]. intros HQ. inv HQ. inv Hb. by destruct (Hno p).
Qed.

Definition placementPath (p : string) : Prop :=
  p = "TaskTemplate.Placement" ∨ has_prefix "TaskTemplate.Placement." p = true.

Lemma PlacementOnly_spec c :
  PlacementOnly c = true ↔ mismatchPaths c ≠ [] ∧ Forall placementPath (mismatchPaths c).
Proof.
  unfold PlacementOnly. destruct (mismatchPaths c) as [|p ps]; [by split; [|intros [? _]]|].
  rewrite List.forallb_forall, Forall_forall. unfold placementPath.
  setoid_rewrite list_elem_of_In. setoid_rewrite orb_true_iff. setoid_rewrite bool_decide_eq_true.
  naive_solver.
Qed.

(** No path below another field is a path of the placement, or of the
    generation. *)
Ltac below_excluded :=
  intros ? [->|[? ->]]; unfold placementPath; vm_compute; naive_solver.

Lemma placementPath_only s t :
  s ≠ t →
  Forall placementPath (taskSpecDifferencePaths (reflectTask t) (reflectTask s) "TaskTemplate") ↔
  withPlacement s (taskPlacement t) = t.
Proof.
  intros Hne. rewrite taskPaths_Forall by done. simpl. rewrite !Forall_cons. simpl.
  assert (∀ v w, Forall placementPath
    (taskSpecDifferencePaths v w ("TaskTemplate" +:+ "." +:+ "Placement"))) as Hplacement.
  { intros v w. eapply Forall_impl; [apply differencePaths_below|].
    intros p [->|[rest ->]]; [by left|right]. apply has_prefix_spec. by exists rest. }
  rewrite !fieldPaths_excluded by below_excluded.
  rewrite !(fieldPaths_excluded _ (leaf _ _)) by below_excluded.
  rewrite (fieldPaths_excluded _ (GoPointer "*swarm.Driver" _)) by below_excluded.
  rewrite <-(taskValues_eq (withPlacement _ _)). unfold taskValues. simpl.
  split.
  - intros (? & ? & ? & ? & ? & _ & ? & ? & ? & ? & _). congruence.
  - intros Heq. split_and!; auto; congruence.
Qed.

Lemma forcePath_only s t :
  s ≠ t →
  taskSpecDifferencePaths (reflectTask t) (reflectTask s) "TaskTemplate" =
    ["TaskTemplate.ForceUpdate"] ↔
  withForceUpdate s (taskForceUpdate t) = t.
Proof.
  intros Hne. split.
  - intros Hpaths.
    assert (Forall (eq "TaskTemplate.ForceUpdate")
      (taskSpecDifferencePaths (reflectTask t) (reflectTask s) "TaskTemplate")) as Hf
      by (rewrite Hpaths; by repeat constructor).
    rewrite taskPaths_Forall in Hf by done. simpl in Hf. rewrite !Forall_cons in Hf. simpl in Hf.
    rewrite !fieldPaths_excluded in Hf by below_excluded.
    rewrite !(fieldPaths_excluded _ (leaf "swarm.RuntimeType" _)) in Hf by below_excluded.
    rewrite <-(taskValues_eq (withForceUpdate _ _)). unfold taskValues. simpl. 
    destruct_and! Hf. congruence.
  - intros Heq. assert (taskForceUpdate t ≠ taskForceUpdate s) as Hforce.
    { intros Hforce. apply Hne. rewrite <-Heq, Hforce. by destruct s. }
    unfold reflectTask. rewrite differencePaths_struct
      by (intros Hv; apply Hne; symmetry; by apply taskValues_eq).
    destruct s, t. injection Heq as -> -> -> -> -> -> -> -> ->. simpl in *.
    rewrite !differencePaths_refl. by rewrite differencePaths_leaf.
Qed.

(** The three verdicts, one by one. *)
Lemma differencePaths_task s t :
  s ≠ t → taskSpecDifferencePaths (reflectTask t) (reflectTask s) "TaskTemplate" ≠ [].
Proof.
  intros Hne Heq%differencePaths_nil. apply Hne. by apply (inj reflectTask).
Qed.

Lemma Equal_spec s template :
  Equal (CompareServiceTemplate s template) = true ↔ s = normalizeTaskSpec template.
Proof.
  unfold CompareServiceTemplate, Equal. case_bool_decide as Heq; simpl.
  - split; [|done]. intros _. by apply (inj reflectTask).
  - assert (s ≠ normalizeTaskSpec template) as Hne by congruence.
    pose proof (differencePaths_task _ _ Hne). by destruct (taskSpecDifferencePaths _ _ _).
Qed.

Lemma PlacementOnly_exact s template :
  let t := normalizeTaskSpec template in
  PlacementOnly (CompareServiceTemplate s template) = true ↔
  s ≠ t ∧ withPlacement s (taskPlacement t) = t.
Proof.
  intros t. unfold CompareServiceTemplate. fold t. clearbody t. case_bool_decide as Heq.
  - apply (inj reflectTask) in Heq. by split; [|intros []].
  - assert (s ≠ t) as Hne by congruence. rewrite PlacementOnly_spec. simpl.
    rewrite placementPath_only by done. pose proof (differencePaths_task _ _ Hne). naive_solver.
Qed.

Lemma OlderForceUpdateOnly_exact s template :
  let t := normalizeTaskSpec template in
  OlderForceUpdateOnly (CompareServiceTemplate s template) = true ↔
  (taskForceUpdate s < taskForceUpdate t)%N ∧ withForceUpdate s (taskForceUpdate t) = t.
Proof.
  intros t. unfold CompareServiceTemplate. fold t. clearbody t. unfold OlderForceUpdateOnly.
  case_bool_decide as Heq; simpl.
  - apply (inj reflectTask) in Heq as ->. by split; [|lia].
  - assert (s ≠ t) as Hne by congruence.
    by rewrite andb_true_iff, N.ltb_lt, bool_decide_eq_true, forcePath_only.
Qed.

(** The comparison of a task with a service template reports no path exactly
    when the task was created from the normalized template, only placement paths
    exactly when the two differ in the placement and in nothing else, and an
    older generation exactly when the generation counter is behind and nothing
    else differs. *)
Theorem task_comparison_exact (s template : TaskSpec) :
  let t := normalizeTaskSpec template in
  let c := CompareServiceTemplate s template in
  (Equal c = true ↔ s = t) ∧
  (PlacementOnly c = true ↔ taskPlacement s ≠ taskPlacement t ∧ withPlacement s (taskPlacement t) = t) ∧
  (OlderForceUpdateOnly c = true ↔
   (taskForceUpdate s < taskForceUpdate t)%N ∧ withForceUpdate s (taskForceUpdate t) = t).
Proof.
  intros t c. split_and!; [apply Equal_spec| |apply OlderForceUpdateOnly_exact].
  subst c. rewrite PlacementOnly_exact. fold t. clearbody t. split; intros [Hne Heq]; split; try done.
  - intros Hp. apply Hne. rewrite <-Heq, <-Hp. by destruct s.
  - by intros ->.
Qed.
