(* ===== verification/ServiceSpecs.v ===== *)
(** * Service specifications: equality, verification modes, update generations
      ([deployments/deployer/services/comparison.go], [defaults.go],
      [verification.go], the ownership policy of [replicas.go])

    The Docker SDK, the image reference library, the JSON encoding of SDK
    structs and SHA-256 are the parameters of class [DockerSDK]. *)
From S2P Require Import Prelude GoStrings TaskSpecs Deployments.

(** ** Service specifications of the Docker SDK *)
Record Annotations := { Name : string; Labels : option (gmap string string) }.

Record ReplicatedJob := { MaxConcurrent : option N; TotalCompletions : option N }.

(** [ServiceMode]: pointers of which one is set. [Replicated] carries the
    pointer [Replicas]. *)
Record ServiceMode := {
  Replicated : option (option N); Global : bool; ReplicatedJobMode : option ReplicatedJob;
  GlobalJob : bool;
}.

Record UpdateConfig := {
  Parallelism : N; UpdateDelay : Duration; FailureAction : string; Monitor : Duration;
  MaxFailureRatio : string; Order : string;
}.

Record PortConfig := {
  PortName : string; Protocol : string; TargetPort : N; PublishedPort : N; PublishMode : string;
}.

Record EndpointSpec := { EndpointMode : string; Ports : option (list PortConfig) }.

Record ServiceSpec := {
  specAnnotations : Annotations; TaskTemplate : TaskSpec; specMode : ServiceMode;
  specUpdateConfig : option UpdateConfig; specRollbackConfig : option UpdateConfig;
  specEndpoint : option EndpointSpec;
}.

#[export] Instance Annotations_eq_dec : EqDecision Annotations.
Proof. solve_decision. Defined.
#[export] Instance ReplicatedJob_eq_dec : EqDecision ReplicatedJob.
Proof. solve_decision. Defined.
#[export] Instance ServiceMode_eq_dec : EqDecision ServiceMode.
Proof. solve_decision. Defined.
#[export] Instance UpdateConfig_eq_dec : EqDecision UpdateConfig.
Proof. solve_decision. Defined.
#[export] Instance PortConfig_eq_dec : EqDecision PortConfig.
Proof. solve_decision. Defined.
#[export] Instance EndpointSpec_eq_dec : EqDecision EndpointSpec.
Proof. solve_decision. Defined.
#[export] Instance ServiceSpec_eq_dec : EqDecision ServiceSpec.
Proof. solve_decision. Defined.

(** Reading a key of a map, the nil map included. *)
Definition map_index (m : option (gmap string string)) (k : string) : string :=
  default "" (m ≫= lookup k).

Definition setTaskTemplate (s : ServiceSpec) (t : TaskSpec) : ServiceSpec :=
  {| specAnnotations := specAnnotations s; TaskTemplate := t; specMode := specMode s;
     specUpdateConfig := specUpdateConfig s; specRollbackConfig := specRollbackConfig s;
     specEndpoint := specEndpoint s |}.
Definition setMode (s : ServiceSpec) (m : ServiceMode) : ServiceSpec :=
  {| specAnnotations := specAnnotations s; TaskTemplate := TaskTemplate s; specMode := m;
     specUpdateConfig := specUpdateConfig s; specRollbackConfig := specRollbackConfig s;
     specEndpoint := specEndpoint s |}.
Definition setContainer (t : TaskSpec) (c : option ContainerSpec) : TaskSpec :=
  {| taskContainer := c; taskPlugin := taskPlugin t;
     taskNetworkAttachment := taskNetworkAttachment t; taskResources := taskResources t;
     taskRestartPolicy := taskRestartPolicy t; taskPlacement := taskPlacement t;
     taskNetworks := taskNetworks t; taskLogDriver := taskLogDriver t;
     taskForceUpdate := taskForceUpdate t; taskRuntime := taskRuntime t |}.
Definition setImage (c : ContainerSpec) (image : string) : ContainerSpec :=
  {| Image := image; Isolation := Isolation c; StopGracePeriod := StopGracePeriod c;
     DNSConfig := DNSConfig c; Env := Env c; CapabilityAdd := CapabilityAdd c;
     CapabilityDrop := CapabilityDrop c; containerLayout := containerLayout c;
     containerOther := containerOther c |}.
Definition setPlatforms (p : Placement) (platforms : option (list (string * string))) : Placement :=
  {| Constraints := Constraints p; Preferences := Preferences p; MaxReplicas := MaxReplicas p;
     Platforms := platforms |}.
Definition setReplicated (m : ServiceMode) (r : option (option N)) : ServiceMode :=
  {| Replicated := r; Global := Global m; ReplicatedJobMode := ReplicatedJobMode m;
     GlobalJob := GlobalJob m |}.

(** ** JSON documents and [pruneEmpty] *)

(** An object lists its members in the order of the encoder, which is the same
    for two values of one Go type. *)
Inductive Json :=
| JNull | JScalar (text : string) | JArray (items : list Json)
| JObject (members : list (string * Json)).

#[export] Instance Json_eq_dec : EqDecision Json.
Proof.
  refine (fix go v w {struct v} : Decision (v = w) :=
    match v, w with
    | JNull, JNull => left eq_refl
    | JScalar s, JScalar s' => cast_if (decide (s = s'))
    | JArray l, JArray l' => cast_if (@list_eq_dec _ go l l')
    | JObject l, JObject l' => cast_if (@list_eq_dec _ (@prod_eq_dec _ _ _ go) l l')
    | _, _ => right _
    end); clear go; abstract congruence.
Defined.

Definition isEmptyCollection (v : Json) : bool :=
  match v with JArray [] | JObject [] => true | _ => false end.

Definition isNil (v : Json) : bool := match v with JNull => true | _ => false end.

Fixpoint pruneEmpty (v : Json) : Json :=
  match v with
  | JObject members =>
      JObject (omap (λ kv : string * Json,
        let child := pruneEmpty kv.2 in
        if isNil child || isEmptyCollection child then None else Some (kv.1, child)) members)
  | JArray items => JArray (map pruneEmpty items)
  | _ => v
  end.

(** ** What the program takes from libraries *)

(** An image reference as [reference.ParseNormalizedNamed] returns it. *)
Record Named := { refName : string; refTag : option string; refDigest : option string }.

Class DockerSDK := {
  ParseNormalizedNamed : string → option Named;
  (** Adds the default tag to a reference that has only a name. *)
  TagNameOnly : Named → Named;
  refString : Named → string;
  (** [json.Marshal], then [json.Unmarshal] into a fresh value. *)
  cloneSpec : ServiceSpec → ServiceSpec;
  (** [json.Marshal] of a specification, or of a JSON value. *)
  marshal : ServiceSpec → Json;
  sha256_hex : Json → string;
}.

(** ** [ReplicasManaged] ([replicas.go], [compose/service.go]) *)
Definition ServiceSyncPolicyReplicasManagedLabelKey : string :=
  "org.swarm-deploy.service.sync.policy.replicasManaged".

(** [booleanPolicy]: the value, whether the label is present, or an error. *)
Definition booleanPolicy (labels : option (gmap string string)) (label : string)
    : option (bool * bool) :=
  match labels ≫= lookup label with
  | None => Some (false, false)
  | Some raw =>
      let value := to_lower_ascii (trim_space raw) in
      if bool_decide (value ∈ ["true"; "1"; "yes"; "y"; "on"]) then Some (true, true)
      else if bool_decide (value ∈ ["false"; "0"; "no"; "n"; "off"]) then Some (false, true)
      else None
  end.

(** [None] is an error: an invalid label, or a policy that only replicated
    services can have. *)
Definition ReplicasManaged (spec : ServiceSpec) : option bool :=
  match booleanPolicy (Labels (specAnnotations spec)) ServiceSyncPolicyReplicasManagedLabelKey with
  | None => None
  | Some (managed, specified) =>
      let m := specMode spec in
      if specified && negb managed &&
         (negb (bool_decide (is_Some (Replicated m))) || Global m ||
          bool_decide (is_Some (ReplicatedJobMode m)) || GlobalJob m)
      then None
      else Some (negb specified || managed)
  end.

Definition preserveReplicas (current desired : ServiceSpec) : ServiceSpec :=
  match Replicated (specMode current), Replicated (specMode desired) with
  | Some replicas, Some _ => setMode desired (setReplicated (specMode desired) (Some replicas))
  | _, _ => desired
  end.

(** ** [defaults.go] *)
Definition defaultStopGracePeriod : Duration := (10 * second)%Z.
Definition defaultRestartDelay : Duration := (5 * second)%Z.
Definition defaultUpdateMonitor : Duration := (5 * second)%Z.
Definition ResolutionModeVIP : string := "vip".
Definition PortConfigProtocolTCP : string := "tcp".
Definition PortConfigPublishModeIngress : string := "ingress".
Definition UpdateFailureActionPause : string := "pause".
Definition UpdateOrderStopFirst : string := "stop-first".

Definition or_default (s d : string) : string := if bool_decide (s = "") then d else s.

Definition normalizePort (p : PortConfig) : PortConfig :=
  {| PortName := PortName p; Protocol := or_default (Protocol p) PortConfigProtocolTCP;
     TargetPort := TargetPort p; PublishedPort := PublishedPort p;
     PublishMode := or_default (PublishMode p) PortConfigPublishModeIngress |}.

(** Appending to a nil slice: an empty list stays nil. *)
Definition slice {A} (l : list A) : option (list A) :=
  match l with [] => None | _ => Some l end.

Definition normalizeEndpoint (endpoint : option EndpointSpec) : EndpointSpec :=
  match endpoint with
  | None => {| EndpointMode := ResolutionModeVIP; Ports := None |}
  | Some e =>
      {| EndpointMode := or_default (EndpointMode e) ResolutionModeVIP;
         Ports := slice (map normalizePort (default [] (Ports e))) |}
  end.

Definition normalizeUpdateConfig (config : option UpdateConfig) : UpdateConfig :=
  let c := default {| Parallelism := 1; UpdateDelay := 0; FailureAction := ""; Monitor := 0;
                      MaxFailureRatio := "0"; Order := "" |} config in
  {| Parallelism := Parallelism c; UpdateDelay := UpdateDelay c;
     FailureAction := or_default (FailureAction c) UpdateFailureActionPause;
     Monitor := if bool_decide (Monitor c = 0%Z) then defaultUpdateMonitor else Monitor c;
     MaxFailureRatio := MaxFailureRatio c; Order := or_default (Order c) UpdateOrderStopFirst |}.

Definition normalizeJob (j : ReplicatedJob) : ReplicatedJob :=
  let concurrent := default 1%N (MaxConcurrent j) in
  {| MaxConcurrent := Some concurrent;
     TotalCompletions := Some (default concurrent (TotalCompletions j)) |}.

(** The container fields [normalizeDockerDefaults] fills in. *)
Definition defaultContainer (c : ContainerSpec) : ContainerSpec :=
  {| Image := Image c; Isolation := or_default (Isolation c) IsolationDefault;
     StopGracePeriod := Some (default defaultStopGracePeriod (StopGracePeriod c));
     DNSConfig := DNSConfig c; Env := Env c; CapabilityAdd := CapabilityAdd c;
     CapabilityDrop := CapabilityDrop c; containerLayout := containerLayout c;
     containerOther := containerOther c |}.

Definition defaultRestart (p : RestartPolicy) : RestartPolicy :=
  {| Condition := or_default (Condition p) RestartPolicyConditionAny;
     Delay := Some (default defaultRestartDelay (Delay p));
     MaxAttempts := Some (default 0%N (MaxAttempts p)); Window := Window p |}.

Definition defaultTask (t : TaskSpec) : TaskSpec :=
  {| taskContainer := defaultContainer <$> taskContainer t; taskPlugin := taskPlugin t;
     taskNetworkAttachment := taskNetworkAttachment t; taskResources := taskResources t;
     taskRestartPolicy := Some (defaultRestart (default noRestartPolicy (taskRestartPolicy t)));
     taskPlacement := taskPlacement t; taskNetworks := taskNetworks t;
     taskLogDriver := taskLogDriver t; taskForceUpdate := taskForceUpdate t;
     taskRuntime :=
       match taskContainer t with
       | Some _ => or_default (taskRuntime t) RuntimeContainer
       | None => taskRuntime t
       end |}.

Definition normalizeDockerDefaults (s : ServiceSpec) : ServiceSpec :=
  let m := specMode s in
  {| specAnnotations := specAnnotations s; TaskTemplate := defaultTask (TaskTemplate s);
     specMode :=
       {| Replicated := (λ r : option N, Some (default 1%N r)) <$> Replicated m; Global := Global m;
          ReplicatedJobMode := normalizeJob <$> ReplicatedJobMode m; GlobalJob := GlobalJob m |};
     specUpdateConfig := Some (normalizeUpdateConfig (specUpdateConfig s));
     specRollbackConfig := Some (normalizeUpdateConfig (specRollbackConfig s));
     specEndpoint := Some (normalizeEndpoint (specEndpoint s)) |}.

(** ** [comparison.go] *)
Definition stackImageLabel : string := "com.docker.stack.image".

(** [strings.Cut] at an equals sign: the part before it. *)
Definition envName (value : string) : string :=
  match index_byte "="%char value with Some i => string_take i value | None => value end.

Fixpoint uniqueNames (seen environment : list string) : bool :=
  match environment with
  | [] => true
  | value :: environment =>
      if bool_decide (envName value ∈ seen) then false
      else uniqueNames (envName value :: seen) environment
  end.

Definition uniqueEnvironmentNames (environment : list string) : bool := uniqueNames [] environment.

Definition sortSlice : option (list string) → option (list string) := fmap sort_strings.

Definition sortContainer (c : ContainerSpec) : ContainerSpec :=
  {| Image := Image c; Isolation := Isolation c; StopGracePeriod := StopGracePeriod c;
     DNSConfig := DNSConfig c;
     Env := if uniqueEnvironmentNames (default [] (Env c)) then sortSlice (Env c) else Env c;
     CapabilityAdd := sortSlice (CapabilityAdd c); CapabilityDrop := sortSlice (CapabilityDrop c);
     containerLayout := containerLayout c; containerOther := containerOther c |}.

Definition sortPlacement (p : Placement) : Placement :=
  {| Constraints := sortSlice (Constraints p); Preferences := Preferences p;
     MaxReplicas := MaxReplicas p; Platforms := Platforms p |}.

Definition sortAliases (n : NetworkAttachment) : NetworkAttachment :=
  {| Target := Target n; Aliases := sortSlice (Aliases n); DriverOpts := DriverOpts n |}.

Definition sortNetworks : list NetworkAttachment → list NetworkAttachment :=
  stable_sort (λ a b, string_lt (Target a) (Target b)).

Definition normalizeServiceSets (s : ServiceSpec) : ServiceSpec :=
  let t := TaskTemplate s in
  setTaskTemplate s
    {| taskContainer := sortContainer <$> taskContainer t; taskPlugin := taskPlugin t;
       taskNetworkAttachment := taskNetworkAttachment t; taskResources := taskResources t;
       taskRestartPolicy := taskRestartPolicy t; taskPlacement := sortPlacement <$> taskPlacement t;
       taskNetworks := sortNetworks ∘ map sortAliases <$> taskNetworks t;
       taskLogDriver := taskLogDriver t; taskForceUpdate := taskForceUpdate t;
       taskRuntime := taskRuntime t |}.

Section Comparison.
Context `{DockerSDK}.

Definition resolvedImageMatches (actual wanted : string) : bool :=
  match ParseNormalizedNamed actual, ParseNormalizedNamed wanted with
  | Some current, Some desired =>
      if negb (bool_decide (refName current = refName desired)) then false
      else match refDigest desired with
           | Some pinned => bool_decide (refDigest current = Some pinned)
           | None =>
               if bool_decide (refDigest current = None) then false
               else match refTag (TagNameOnly desired), refTag (TagNameOnly current) with
                    | Some desiredTag, Some currentTag => bool_decide (desiredTag = currentTag)
                    | _, _ => false
                    end
           end
  | _, _ => false
  end.

(** Whether the resolved image of [current] is reused, and the desired
    specification with it. *)
Definition normalizeImageResolution (current desired : ServiceSpec) : bool * ServiceSpec :=
  match taskContainer (TaskTemplate current), taskContainer (TaskTemplate desired) with
  | Some actual, Some wanted =>
      let label := map_index (Labels (specAnnotations current)) stackImageLabel in
      if bool_decide (label = "") ||
         negb (bool_decide (label = map_index (Labels (specAnnotations desired)) stackImageLabel)) ||
         negb (resolvedImageMatches (Image actual) (Image wanted))
      then (false, desired)
      else
        let t := setContainer (TaskTemplate desired) (Some (setImage wanted (Image actual))) in
        let platforms := taskPlacement (TaskTemplate current) ≫= Platforms in
        (true, setTaskTemplate desired
          match platforms with
          | Some (_ :: _) =>
              withPlacement t (Some (setPlatforms (default emptyPlacement (taskPlacement t)) platforms))
          | _ => t
          end)
  | _, _ => (false, desired)
  end.

Definition normalizeUnresolvedImageReference (s : ServiceSpec) : ServiceSpec :=
  match taskContainer (TaskTemplate s) with
  | None => s
  | Some c =>
      match ParseNormalizedNamed (Image c) with
      | None => s
      | Some named =>
          if bool_decide (is_Some (refDigest named)) then s
          else setTaskTemplate s (setContainer (TaskTemplate s)
                 (Some (setImage c (refString (TagNameOnly named)))))
      end
  end.

Definition canonicalSpec (s : ServiceSpec) : Json := pruneEmpty (marshal s).

(** Both specifications in the form in which [SpecsEqual] compares them. *)
Definition comparedSpecs (current desired : ServiceSpec) : ServiceSpec * ServiceSpec :=
  let desired :=
    setTaskTemplate desired
      (withForceUpdate (TaskTemplate desired) (taskForceUpdate (TaskTemplate current))) in
  let desired := (normalizeImageResolution current desired).2 in
  let normalize s :=
    normalizeServiceSets (normalizeDockerDefaults (normalizeUnresolvedImageReference s)) in
  (normalize current, normalize desired).

Definition SpecsEqual (current desired : ServiceSpec) : bool :=
  match ReplicasManaged desired with
  | None => false
  | Some managed =>
      let current := cloneSpec current in
      let desired := cloneSpec desired in
      let desired := if managed : bool then desired else preserveReplicas current desired in
      let '(current, desired) := comparedSpecs current desired in
      bool_decide (canonicalSpec current = canonicalSpec desired)
  end.

(** ** [verification.go] *)
Definition ClassifyVerification (before after : ServiceSpec) : VerificationMode :=
  let comparison := CompareServiceTemplate (NewTaskSpec (TaskTemplate before)) (TaskTemplate after) in
  if PlacementOnly comparison then VerifyPlacementCompatibleTasks
  else if negb (Equal comparison) ||
          negb (bool_decide (normalizeEndpoint (specEndpoint before) =
                             normalizeEndpoint (specEndpoint after)))
  then VerifyNewGeneration
  else VerifyExistingTasks.

Definition verificationSpecDigest (s : ServiceSpec) : string :=
  sha256_hex (canonicalSpec (normalizeServiceSets (normalizeDockerDefaults (cloneSpec s)))).

Definition setModeOf (g : UpdateGeneration) (m : VerificationMode) (tasksAfter : Time)
    : UpdateGeneration :=
  {| ServiceID := ServiceID g; ForceUpdate := ForceUpdate g; After_ := After_ g; Mode := m;
     BeforeSpecDigest := BeforeSpecDigest g; TasksAfter := tasksAfter |}.

Definition ResolveUpdateGeneration (generation : UpdateGeneration) (previous : option ServiceSpec)
    (current : ServiceSpec) : UpdateGeneration :=
  if bool_decide (BeforeSpecDigest generation = "") then generation
  else
    match previous with
    | Some spec =>
        if bool_decide (BeforeSpecDigest generation = verificationSpecDigest spec) then
          let mode := ClassifyVerification spec current in
          if bool_decide (mode = VerifyNewGeneration) then setModeOf generation mode time_zero
          else if is_zero (TasksAfter generation) &&
                  negb (bool_decide (Mode generation = VerifyPlacementCompatibleTasks))
          then setModeOf generation mode (TasksAfter generation)
          else generation
        else setModeOf generation VerifyNewGeneration time_zero
    | None => setModeOf generation VerifyNewGeneration time_zero
    end.

(** The fields of [dockerswarm.Service] the program reads. A job status is the
    index of its iteration. *)
Record UpdateStatus := { State : string; StartedAt : option Time }.
Record DockerService := {
  svcID : string; svcVersion : N; svcCreatedAt : Time; svcUpdatedAt : Time;
  Spec : ServiceSpec; svcPreviousSpec : option ServiceSpec;
  svcUpdateStatus : option UpdateStatus; svcJobStatus : option N;
}.

Definition updateGeneration (spec : ServiceSpec) (current : DockerService)
    (previous : UpdateGeneration) : UpdateGeneration :=
  let generation :=
    {| ServiceID := svcID current; ForceUpdate := taskForceUpdate (TaskTemplate spec);
       After_ := svcUpdatedAt current; Mode := ClassifyVerification (Spec current) spec;
       BeforeSpecDigest := verificationSpecDigest (Spec current); TasksAfter := time_zero |} in
  if negb (bool_decide (ServiceID previous = svcID current)) then generation
  else
    let previous := ResolveUpdateGeneration previous (svcPreviousSpec current) (Spec current) in
    match Mode previous with
    | VerifyPlacementCompatibleTasks =>
        setModeOf generation VerifyPlacementCompatibleTasks (TasksAfter generation)
    | VerifyNewGeneration =>
        setModeOf generation VerifyNewGeneration
          (if is_zero (TasksAfter previous) && (After_ previous <? svcUpdatedAt current)%Z then
             match svcUpdateStatus current ≫= StartedAt with
             | Some started =>
                 if (After_ previous <? started)%Z then started else svcUpdatedAt current
             | None => svcUpdatedAt current
             end
           else TasksAfter previous)
    | _ => generation
    end.
End Comparison.

(** ** What the comparison does not look at *)
Definition withForce (s : ServiceSpec) (n : N) : ServiceSpec :=
  setTaskTemplate s (withForceUpdate (TaskTemplate s) n).
Definition withReplicas (s : ServiceSpec) (r : option N) : ServiceSpec :=
  setMode s (setReplicated (specMode s) (Some r)).

(** Encoding and decoding a specification carries over the generation counter
    and the replica count: both have JSON tags without options. *)
Class CloneLaws `{DockerSDK} := {
  clone_force s n : cloneSpec (withForce s n) = withForce (cloneSpec s) n;
  clone_replicas s r :
    is_Some (Replicated (specMode s)) → cloneSpec (withReplicas s r) = withReplicas (cloneSpec s) r;
  clone_mode s : is_Some (Replicated (specMode s)) → is_Some (Replicated (specMode (cloneSpec s)));
}.

Section ComparisonFacts.
Context `{DockerSDK}.

Lemma ReplicasManaged_external s :
  ReplicasManaged s = Some false → is_Some (Replicated (specMode s)).
Proof.
  unfold ReplicasManaged. destruct (booleanPolicy _ _) as [[[] []]|]; try done; simpl.
  case_bool_decide; [done|]. by simpl.
Qed.

Lemma preserveReplicas_same s : preserveReplicas s s = s.
Proof. unfold preserveReplicas. by destruct s as [? ? [[r|] ? ? ?] ? ? ?]. Qed.

Lemma withForce_same s : withForce s (taskForceUpdate (TaskTemplate s)) = s.
Proof. by destruct s as [? [] ? ? ? ?]. Qed.

Lemma withForce_twice s m n : withForce (withForce s m) n = withForce s n.
Proof. done. Qed.

Lemma normalizeImageResolution_same s : (normalizeImageResolution s s).2 = s.
Proof.
  unfold normalizeImageResolution.
  destruct s as [an [[c|] pl na re rp p ne lo fo ru] mo up ro en]; simpl; [|done].
  destruct (_ || _); simpl; [done|].
  destruct p as [[? ? ? [[|? ?]|]]|]; simpl; by destruct c.
Qed.

Lemma comparedSpecs_force current desired n :
  comparedSpecs current (withForce desired n) = comparedSpecs current desired.
Proof. done. Qed.

Lemma preserveReplicas_force current desired n :
  preserveReplicas current (withForce desired n) = withForce (preserveReplicas current desired) n.
Proof.
  unfold preserveReplicas. simpl.
  by destruct (Replicated (specMode current)), (Replicated (specMode desired)).
Qed.

Lemma preserveReplicas_replicas current desired r :
  is_Some (Replicated (specMode current)) → is_Some (Replicated (specMode desired)) →
  preserveReplicas current (withReplicas desired r) = preserveReplicas current desired.
Proof. intros [? Hc] [? Hd]. unfold preserveReplicas. simpl. by rewrite Hc, Hd. Qed.

Lemma ReplicasManaged_replicas s r :
  is_Some (Replicated (specMode s)) → ReplicasManaged (withReplicas s r) = ReplicasManaged s.
Proof. intros [? Hs]. unfold ReplicasManaged. simpl. by rewrite Hs. Qed.

(** A service with a valid ownership policy equals its own specification.
    The comparison never depends on the generation counter the desired
    specification carries, and for a service whose replicas are managed
    elsewhere it does not depend on the desired replica count either. *)
Theorem SpecsEqual_runtime_values `{!CloneLaws} (current desired : ServiceSpec) (n : N)
    (r : option N) :
  (is_Some (ReplicasManaged current) → SpecsEqual current current = true) ∧
  SpecsEqual current (withForce desired n) = SpecsEqual current desired ∧
  (ReplicasManaged desired = Some false → is_Some (Replicated (specMode current)) →
   SpecsEqual current (withReplicas desired r) = SpecsEqual current desired).
Proof.
  split_and!.
  - intros [managed Hm]. unfold SpecsEqual. rewrite Hm.
    assert ((if managed then cloneSpec current
             else preserveReplicas (cloneSpec current) (cloneSpec current)) = cloneSpec current) as ->
      by (destruct managed; [done|apply preserveReplicas_same]).
    unfold comparedSpecs. fold (withForce (cloneSpec current)
      (taskForceUpdate (TaskTemplate (cloneSpec current)))).
    rewrite withForce_same, normalizeImageResolution_same. by apply bool_decide_eq_true.
  - unfold SpecsEqual. change (ReplicasManaged (withForce desired n)) with (ReplicasManaged desired).
    destruct (ReplicasManaged desired) as [managed|]; [|done].
    rewrite clone_force, preserveReplicas_force. by destruct managed; rewrite comparedSpecs_force.
  - intros Hext Hcur. pose proof (ReplicasManaged_external _ Hext) as Hd.
    unfold SpecsEqual. rewrite ReplicasManaged_replicas, Hext by done.
    rewrite clone_replicas by done.
    by rewrite preserveReplicas_replicas by (by apply clone_mode).
Qed.

(** The three verification modes of a transition. *)
Lemma ClassifyVerification_cases before after :
  let t := normalizeTaskSpec (TaskTemplate before) in
  let t' := normalizeTaskSpec (TaskTemplate after) in
  ClassifyVerification before after =
    if bool_decide (t = t') then
      if bool_decide (normalizeEndpoint (specEndpoint before) =
                      normalizeEndpoint (specEndpoint after))
      then VerifyExistingTasks else VerifyNewGeneration
    else if bool_decide (withPlacement t (taskPlacement t') = t') then VerifyPlacementCompatibleTasks
    else VerifyNewGeneration.
Proof.
  intros t t'. unfold ClassifyVerification, NewTaskSpec. fold t.
  pose proof (Equal_spec t (TaskTemplate after)) as HE. fold t' in HE.
  pose proof (PlacementOnly_exact t (TaskTemplate after)) as HP. cbv zeta in HP. fold t' in HP.
  set (c := CompareServiceTemplate t (TaskTemplate after)) in *. clearbody c t t'.
  destruct (PlacementOnly c), (Equal c); repeat case_bool_decide; simpl; naive_solver.
Qed.

(** An inherited verification obligation is relaxed only by evidence: unless
    a new generation is required, the previous specification that Docker reports
    is the one the obligation was recorded for, and the transition that Docker
    accepted from it preserves tasks. *)
Theorem obligation_relaxed_by_evidence (g : UpdateGeneration) (previous : option ServiceSpec)
    (current : ServiceSpec)
    (Hdigest : BeforeSpecDigest g ≠ "")
    (Hrelaxed : Mode (ResolveUpdateGeneration g previous current) ≠ VerifyNewGeneration) :
  ∃ spec, previous = Some spec ∧ verificationSpecDigest spec = BeforeSpecDigest g ∧
    ClassifyVerification spec current ≠ VerifyNewGeneration ∧
    (Mode (ResolveUpdateGeneration g previous current) = ClassifyVerification spec current ∨
     Mode (ResolveUpdateGeneration g previous current) = Mode g).
Proof.
  revert Hrelaxed. unfold ResolveUpdateGeneration. rewrite bool_decide_false by done.
  destruct previous as [spec|]; [|done].
  case_bool_decide as Hd; [|done]. case_bool_decide as Hm; [done|]. intros Hrelaxed.
  exists spec. split_and!; [done..|]. destruct (_ && _); [by left|by right].
Qed.
End ComparisonFacts.

(** ** Example specifications *)
Module SpecsExample.

(** References are not resolved, and a specification is encoded by its name and
    image. *)
#[local] Instance sdk : DockerSDK :=
  {| ParseNormalizedNamed := λ _, None; TagNameOnly := λ n, n; refString := refName;
     cloneSpec := λ s, s;
     marshal := λ s,
       JObject [("Name", JScalar (Name (specAnnotations s)));
                ("Image", JScalar (default "" (Image <$> taskContainer (TaskTemplate s))))];
     sha256_hex := λ j, match j with JNull => "0" | _ => "1" end |}.

#[local] Instance laws : CloneLaws.
Proof. by split. Defined.

Definition template (image : string) : TaskSpec :=
  setContainer noTaskSpec (Some
    {| Image := image; Isolation := ""; StopGracePeriod := None; DNSConfig := None; Env := None;
       CapabilityAdd := None; CapabilityDrop := None; containerLayout := []; containerOther := [] |}).

(** A service of the stack [app], its replicas managed by the program or not. *)
Definition spec (name image : string) (managed : bool) (replicas : N) : ServiceSpec :=
  {| specAnnotations :=
       {| Name := name;
          Labels := Some (<["com.docker.stack.namespace" := "app"]>
            (if managed then ∅ else {[ServiceSyncPolicyReplicasManagedLabelKey := "false"]})) |};
     TaskTemplate := template image;
     specMode := {| Replicated := Some (Some replicas); Global := false; ReplicatedJobMode := None;
                    GlobalJob := false |};
     specUpdateConfig := None; specRollbackConfig := None; specEndpoint := None |}.

Lemma SpecsEqual_runtime_values_witness :
  SpecsEqual (spec "app_api" "api:1" false 2) (withReplicas (spec "app_api" "api:1" false 1) (Some 7%N)) = true.
Proof.
  destruct (SpecsEqual_runtime_values (spec "app_api" "api:1" false 2) (spec "app_api" "api:1" false 1)
    0 (Some 7%N)) as (_ & _ & Hreplicas).
  rewrite Hreplicas; [by vm_compute|by vm_compute|by eexists].
Defined.

Definition inherited : UpdateGeneration :=
  {| ServiceID := "api-id"; ForceUpdate := 0; After_ := 3; Mode := VerifyExistingTasks;
     BeforeSpecDigest := "1"; TasksAfter := 0 |}.

Lemma obligation_relaxed_by_evidence_witness :
  ∃ previous, Some (spec "app_api" "api:1" true 1) = Some previous ∧
    verificationSpecDigest previous = BeforeSpecDigest inherited ∧
    ClassifyVerification previous (spec "app_api" "api:1" true 2) ≠ VerifyNewGeneration.
Proof.
  destruct (obligation_relaxed_by_evidence inherited (Some (spec "app_api" "api:1" true 1))
    (spec "app_api" "api:1" true 2)) as (previous & ? & ? & ? & _); [done|by vm_compute|].
  by exists previous.
Defined.
End SpecsExample.
