(* ===== verification/Gopipe.v ===== *)
(** * Pipelines of the library [gopipe]

    The library that runs the deployment and reconciliation pipelines is a class
    with its documented behaviour as laws; [Ordered] is a function that has it. *)
From S2P Require Import Prelude GoStrings.

(** [pipe.Step] over a payload [S], failing with an [E]. *)
Record Step (E S : Type) := { stepName : string; When : S → bool; Run : S → option E * S }.
Arguments stepName {E S}.
Arguments When {E S}.
Arguments Run {E S}.

Class Gopipe := {
  (** The name of the failing step and its error. *)
  runPipeline : ∀ E S : Type, list (Step E S) → S → option (string * E) * S;
}.
Arguments runPipeline {_ E S}.

(** The steps run in their order, a step whose gate is closed is skipped, and the
    first error ends the run as a [StepError]. *)
Class GopipeLaws `{Gopipe} := {
  pipeline_nil (E S : Type) (s : S) : runPipeline (E := E) [] s = (None, s);
  pipeline_cons (E S : Type) (st : Step E S) (steps : list (Step E S)) (s : S) :
    runPipeline (st :: steps) s =
    if When st s then
      match Run st s with
      | (Some e, s') => (Some (stepName st, e), s')
      | (None, s') => runPipeline steps s'
      end
    else runPipeline steps s;
}.

(** [stepErr.StepName] of an error; no step is none. *)
Definition FailedStep {E} (err : option (string * E)) : string := default "" (fst <$> err).

Section Pipelines.
Context `{GopipeLaws} {E S : Type}.
Implicit Types (s : S) (steps : list (Step E S)).

Lemma pipeline_app steps steps' s :
  runPipeline (steps ++ steps') s =
  match runPipeline steps s with
  | (None, s') => runPipeline steps' s'
  | (Some e, s') => (Some e, s')
  end.
Proof.
  revert s. induction steps as [|st steps IH]; intros s; [by rewrite pipeline_nil|].
  cbn [app]. rewrite !pipeline_cons. destruct (When st s); [|done].
  by destruct (Run st s) as [[e|] s'].
Qed.

Lemma pipeline_preserves (R : S → S → Prop) `{!PreOrder R} steps s :
  Forall (λ st, ∀ s, When st s = true → R s (Run st s).2) steps → R s (runPipeline steps s).2.
Proof.
  intros Hall. revert s. induction Hall as [|st steps Hst _ IH]; intros s; [by rewrite pipeline_nil|].
  rewrite pipeline_cons. destruct (When st s) eqn:Hw; [|done]. specialize (Hst s Hw).
  destruct (Run st s) as [[e|] s']; [done|]. by etrans.
Qed.

(** An invariant that every step keeps holds at the end. *)
Lemma pipeline_invariant (I : S → Prop) steps s :
  Forall (λ st, ∀ s, When st s = true → I s → I (Run st s).2) steps → I s → I (runPipeline steps s).2.
Proof.
  intros Hall Hs. assert (PreOrder (λ s s', I s → I s')) as Hpre.
  { split; [by intros ?|]. intros ? ? ? H1 H2 ?. by apply H2, H1. }
  by apply (pipeline_preserves (λ s s', I s → I s')).
Qed.
End Pipelines.

(** ** A function with the documented behaviour *)
Module Ordered.

Fixpoint inOrder {E S} (steps : list (Step E S)) (s : S) : option (string * E) * S :=
  match steps with
  | [] => (None, s)
  | st :: steps =>
      if When st s then
        match Run st s with
        | (Some e, s) => (Some (stepName st, e), s)
        | (None, s) => inOrder steps s
        end
      else inOrder steps s
  end.

Definition gopipe : Gopipe := {| runPipeline := @inOrder |}.

Lemma gopipeLaws : GopipeLaws (H := gopipe).
Proof. by split. Qed.
End Ordered.
