(* ===== verification/StackDrift.v ===== *)
(** * Drift of a stack ([gitops/controller/stackloop/drift], policies of
      [compose/service.go] and [stackloop/self_heal.go])

    What the reconciler compares between the desired services and the live ones,
    and the policies that switch the comparison and the remediation. *)
From stdpp Require Import pretty.
From S2P Require Import Prelude GoStrings Config Comparison Pruner TaskSpecs ServiceSpecs.
Local Open Scope go_scope.

(** The fields of [compose.Service] the reconciler reads. *)
Record DesiredService := {
  desiredName : string; desiredImage : string; deployMode : string;
  deployReplicas : option N; deployLabels : gmap string string;
}.

(** [swarm.StackService]: what pruning reads, and the replicas. *)
Record LiveService := { docker : Pruner.StackService; liveReplicas : option N }.

(** ** Policies *)
Definition ServiceSyncPolicySelfHealLabelKey : string :=
  "org.swarm-deploy.service.sync.policy.selfHeal".
Definition ServiceSyncPolicySelfHealReplicasLabelKey : string :=
  "org.swarm-deploy.service.sync.policy.selfHeal.replicas".

(** [Service.booleanPolicy]: the value and whether the label is present. *)
Definition servicePolicy (s : DesiredService) (label : string) : Result string (bool * bool) :=
  match booleanPolicy (Some (deployLabels s)) label with
  | Some policy => Ok policy
  | None => Err ("must be boolean, got " +:+ quoted (default "" (deployLabels s !! label)))
  end.

Definition SelfHealPolicy (s : DesiredService) : Result string (bool * bool) :=
  servicePolicy s ServiceSyncPolicySelfHealLabelKey.
Definition ReplicaDriftPolicy (s : DesiredService) : Result string (bool * bool) :=
  servicePolicy s ServiceSyncPolicySelfHealReplicasLabelKey.
Definition ReplicasManagedPolicy (s : DesiredService) : Result string (bool * bool) :=
  match servicePolicy s ServiceSyncPolicyReplicasManagedLabelKey with
  | Err e => Err e
  | Ok (managed, specified) =>
      if specified && negb managed && negb (bool_decide (deployMode s = "")) &&
         negb (bool_decide (deployMode s = "replicated"))
      then Err "replicasManaged=false is supported only for replicated services"
      else Ok (managed, specified)
  end.

(** The level that decides and its decision: the service, the stack, or the
    global policy. *)
Definition resolveSelfHeal (s : DesiredService) (stack : option bool) (global : bool)
    : Result string (string * bool) :=
  match SelfHealPolicy s with
  | Err e => Err e
  | Ok (policy, true) => Ok ("service", policy)
  | Ok (_, false) =>
      match stack with
      | Some enabled => Ok ("stack", enabled)
      | None => Ok ("global", global)
      end
  end.

(** ** The analyzer *)
Record ReplicasDrift := { OutOfSync : bool; Desired : N; Live : N }.
Record ServiceDrift := {
  ServiceName : string; Reason : string; isMissed : bool; Replicas : ReplicasDrift;
}.
Definition noReplicasDrift : ReplicasDrift := {| OutOfSync := false; Desired := 0; Live := 0 |}.
#[export] Instance ReplicasDrift_eq_dec : EqDecision ReplicasDrift.
Proof. solve_decision. Defined.
#[export] Instance ServiceDrift_eq_dec : EqDecision ServiceDrift.
Proof. solve_decision. Defined.

(** The zero value that an absent entry of a map reads as. *)
Definition noDrift : ServiceDrift :=
  {| ServiceName := ""; Reason := ""; isMissed := false; Replicas := noReplicasDrift |}.
Definition driftOf (name reason : string) : ServiceDrift :=
  {| ServiceName := name; Reason := reason; isMissed := false; Replicas := noReplicasDrift |}.

Definition missedDrift (name : string) : ServiceDrift :=
  {| ServiceName := name; Reason := "service is missing"; isMissed := true;
     Replicas := noReplicasDrift |}.

Definition replicaDrift (name : string) (desired live : N) : ServiceDrift :=
  {| ServiceName := name;
     Reason := "replica count differs: desired=" +:+ pretty desired +:+ " actual=" +:+ pretty live;
     isMissed := false; Replicas := {| OutOfSync := true; Desired := desired; Live := live |} |}.

Definition liveServiceMap (live : list LiveService) : gmap string LiveService :=
  foldl (λ m s, <[liveName (docker s) := s]> m) ∅ live.

(** Whether the replicas of a service are compared. *)
Definition replicasCompared (replicas ownership : bool * bool) : bool :=
  negb (ownership.2 && negb ownership.1) && negb (replicas.2 && negb replicas.1).

(** The drift of one service, if any. *)
Definition analyzeService (live : gmap string LiveService) (s : DesiredService)
    : Result string (option ServiceDrift) :=
  let resolve (what e : string) : Result string (option ServiceDrift) :=
    Err ("resolve service " +:+ desiredName s +:+ " " +:+ what +:+ " policy: " +:+ e) in
  match ReplicaDriftPolicy s with
  | Err e => resolve "replica drift" e
  | Ok replicas =>
      match ReplicasManagedPolicy s with
      | Err e => resolve "replicas ownership" e
      | Ok ownership =>
          match live !! desiredName s with
          | None => Ok (Some (missedDrift (desiredName s)))
          | Some found =>
              match deployReplicas s with
              | Some wanted =>
                  let actual := default 0%N (liveReplicas found) in
                  if negb (replicasCompared replicas ownership) || bool_decide (wanted = actual)
                  then Ok None
                  else Ok (Some (replicaDrift (desiredName s) wanted actual))
              | None => Ok None
              end
          end
      end
  end.

Fixpoint analyzeEach (live : gmap string LiveService) (services : list DesiredService)
    (drifts : gmap string ServiceDrift) : Result string (gmap string ServiceDrift) :=
  match services with
  | [] => Ok drifts
  | s :: services =>
      match analyzeService live s with
      | Err e => Err e
      | Ok None => analyzeEach live services drifts
      | Ok (Some d) => analyzeEach live services (<[desiredName s := d]> drifts)
      end
  end.

Definition Analyze (services : list DesiredService) (live : list LiveService)
    : Result string (gmap string ServiceDrift) :=
  analyzeEach (liveServiceMap live) services ∅.

(** ** What the analyzer finds *)
Lemma liveServiceMap_lookup live name :
  liveServiceMap live !! name = last (filter (λ s, liveName (docker s) = name) live).
Proof.
  unfold liveServiceMap. induction live as [|s live IH] using rev_ind; [done|].
  rewrite foldl_app, filter_app. simpl. destruct (decide (liveName (docker s) = name)) as [<-|Hne].
  - rewrite lookup_insert_eq, filter_cons_True, filter_nil, last_snoc by done. done.
  - rewrite lookup_insert_ne, filter_cons_False, filter_nil, app_nil_r by done. done.
Qed.

Lemma analyzeEach_spec live services drifts :
  NoDup (map desiredName services) →
  match analyzeEach live services drifts with
  | Err e => ∃ s, s ∈ services ∧ analyzeService live s = Err e
  | Ok found =>
      (∀ s, s ∈ services → ∃ d, analyzeService live s = Ok d ∧
         found !! desiredName s = match d with Some _ => d | None => drifts !! desiredName s end) ∧
      ∀ name, name ∉ map desiredName services → found !! name = drifts !! name
  end.
Proof.
  revert drifts. induction services as [|s services IH]; intros drifts Hnd; [set_solver|].
  simpl in Hnd. apply NoDup_cons in Hnd as [Hs Hnd]. cbn [analyzeEach].
  assert (∀ d drifts1, analyzeService live s = Ok d →
    (∀ name, name ≠ desiredName s → drifts1 !! name = drifts !! name) →
    drifts1 !! desiredName s = match d with Some _ => d | None => drifts !! desiredName s end →
    match analyzeEach live services drifts1 with
    | Err e => ∃ s', s' ∈ s :: services ∧ analyzeService live s' = Err e
    | Ok found =>
        (∀ s', s' ∈ s :: services → ∃ d, analyzeService live s' = Ok d ∧
           found !! desiredName s' = match d with Some _ => d | None => drifts !! desiredName s' end) ∧
        ∀ name, name ∉ map desiredName (s :: services) → found !! name = drifts !! name
    end) as Hgo.
  { intros d drifts1 Hd Hother Hself. specialize (IH drifts1 Hnd).
    destruct (analyzeEach live services drifts1) as [found|e].
    - destruct IH as [IHin IHout]. split.
      + intros s' [->|Hin]%elem_of_cons; [exists d; split; [done|by rewrite IHout]|].
        destruct (IHin s' Hin) as (d' & Hd' & Hf). exists d'. split; [done|]. rewrite Hf.
        destruct d'; [done|]. apply Hother. intros Heq. apply Hs. rewrite <- Heq.
        by apply list_elem_of_fmap_2.
      + intros name Hn. simpl in Hn. apply not_elem_of_cons in Hn as [Hne Hn].
        by rewrite IHout, Hother.
    - destruct IH as (s' & ? & ?). exists s'. split; [by right|done]. }
  destruct (analyzeService live s) as [[d|]|e] eqn:Hd.
  - apply (Hgo (Some d)); [done| |by rewrite lookup_insert_eq].
    intros name Hn. by rewrite lookup_insert_ne.
  - by apply (Hgo None).
  - exists s. split; [by left|done].
Qed.

(** Drift analysis is exact. For services with distinct names it fails only
    when one of them has an invalid policy; otherwise a service has drifted
    exactly when no live service has its name, or its replicas are compared and
    the desired count is not the live one (the last live service of the name
    counts, and no count reads as zero). The replicas are compared when they are
    given, are not managed elsewhere, and their comparison is not switched off.
    Nothing else is reported as drifted. *)
Theorem Analyze_exact (services : list DesiredService) (live : list LiveService)
    (Hnames : NoDup (map desiredName services)) :
  match Analyze services live with
  | Err _ => ∃ s, s ∈ services ∧
      (is_ok (ReplicaDriftPolicy s) = false ∨ is_ok (ReplicasManagedPolicy s) = false)
  | Ok drifts =>
      (∀ name, is_Some (drifts !! name) → name ∈ map desiredName services) ∧
      ∀ s, s ∈ services → ∃ replicas ownership,
        ReplicaDriftPolicy s = Ok replicas ∧ ReplicasManagedPolicy s = Ok ownership ∧
        drifts !! desiredName s =
          match last (filter (λ l, liveName (docker l) = desiredName s) live) with
          | None => Some (missedDrift (desiredName s))
          | Some found =>
              match deployReplicas s with
              | Some wanted =>
                  if (negb ownership.2 || ownership.1) && (negb replicas.2 || replicas.1) &&
                     negb (bool_decide (wanted = default 0%N (liveReplicas found)))
                  then Some (replicaDrift (desiredName s) wanted (default 0%N (liveReplicas found)))
                  else None
              | None => None
              end
          end
  end.
Proof.
  pose proof (analyzeEach_spec (liveServiceMap live) services ∅ Hnames) as Hspec. unfold Analyze.
  destruct (analyzeEach _ _ _) as [drifts|e].
  - destruct Hspec as [Hin Hout]. split.
    + intros name Hsome. destruct (decide (name ∈ map desiredName services)) as [|Hno]; [done|].
      rewrite Hout, lookup_empty in Hsome by done. by destruct Hsome.
    + intros s Hs. destruct (Hin s Hs) as (d & Hd & Hf). rewrite Hf, <- liveServiceMap_lookup.
      unfold analyzeService in Hd. destruct (ReplicaDriftPolicy s) as [[re rs]|]; [|done].
      destruct (ReplicasManagedPolicy s) as [[ma sp]|]; [|done]. exists (re, rs), (ma, sp).
      split_and!; [done..|]. destruct (liveServiceMap live !! desiredName s) as [found|].
      2: { by injection Hd as <-. }
      destruct (deployReplicas s) as [wanted|]; [|by injection Hd as <-].
      unfold replicasCompared in Hd. simpl in *.
      destruct ma, sp, re, rs; simpl in *; try destruct (bool_decide (wanted = default 0%N (liveReplicas found)));
        by injection Hd as <-.
  - destruct Hspec as (s & Hs & He). exists s. split; [done|]. unfold analyzeService in He.
    destruct (ReplicaDriftPolicy s); [right|by left].
    destruct (ReplicasManagedPolicy s); [|done].
    by repeat case_match.
Qed.

(** ** An example *)
Module DriftExample.
Definition desired (labels : gmap string string) (replicas : option N) : DesiredService :=
  {| desiredName := "api"; desiredImage := "api:1"; deployMode := ""; deployReplicas := replicas;
     deployLabels := labels |}.

Definition live (replicas : N) : LiveService :=
  {| docker := {| liveID := "id"; liveName := "api"; Pruner.Labels := ∅ |}; liveReplicas := Some replicas |}.

Lemma Analyze_exact_witness :
  ∃ drifts, Analyze [desired ∅ (Some 3%N)] [live 1] = Ok drifts ∧
    drifts !! "api" = Some (replicaDrift "api" 3 1).
Proof.
  pose proof (Analyze_exact [desired ∅ (Some 3%N)] [live 1] ltac:(apply NoDup_singleton)) as H.
  destruct (Analyze _ _) as [drifts|e] eqn:Hrun; [|by vm_compute in Hrun].
  exists drifts. split; [done|]. clear Hrun. destruct H as [_ H].
  destruct (H (desired ∅ (Some 3%N)) ltac:(by left)) as (replicas & ownership & Hr & Ho & Hd).
  vm_compute in Hr, Ho. simplify_eq. etrans; [exact Hd|]. by vm_compute.
Defined.
End DriftExample.
