(* ===== verification/StackReconciler.v ===== *)
(** * The stack reconciler ([gitops/controller/stackloop/reconciler.go],
      [reconciler_pipeline.go], [self_heal.go], [errors.go])

    One run for a stack: load and prepare its definition, let the deployment
    controller execute it when it changed, otherwise observe the live services,
    prune, analyze drift and remediate it, and persist what the run found with
    the drift events. The preparer, the executor, Docker and the pruner are the
    class [StackEnvironment]; the GitOps store and the event dispatcher are the
    interface [GitOpsStore]. The calls of a run are recorded in [trace]. *)
From S2P Require Import Prelude GoStrings Config Runtime Comparison Deployments Pruner StackDrift Gopipe.
Local Open Scope go_scope.

(** ** Data *)

(** [compose.File] after preparation. *)
Record StackFile := { filePath : string; fileServices : list DesiredService; Digest : string }.

(** A preparation error: whether the source could not be read, or could not be
    parsed or validated, the failing step of the preparation pipeline if any, and
    the error itself. *)
Record prepareError := {
  isReadError : bool; isContentError : bool; prepareStep : option string; prepareCause : fault;
}.

(** An error of the deployment executor. *)
Record executorError := {
  isRegistryAuthRefresh : bool; isConvergenceFailed : bool; executorCause : fault;
}.

Record ExecuteRequest := {
  exStack : StackSpec; exCommit : string; exDesired : StackFile;
  SourceChanged : bool; ManualRetry : bool;
}.

(** [deployments.ExecuteResult]; an attempt is its identifier. *)
Record Execution := {
  Attempt : option string; RetryDeferred : bool; ProtectedServices : list string;
  LiveServices : list LiveService; PrunedServices : list string; ExecutionError : string;
}.

Record ExecuteServiceRequest := {
  VerifyOnly : bool; healStack : string; healPath : string; healService_ : string;
  healDesired : list DesiredService;
}.

Record ReconciliationRequest := { reqStack : StackSpec; Commit : string; IsManual : bool }.

Record serviceRemediation := {
  attempted : bool; applyErr : option executorError; converged : bool; failure : string;
}.

(** [wrapReconcileError]; the errors of [errors.Join] are a list. *)
Inductive runError :=
| Wrapped (op : string) (services : list DesiredService) (causes : list fault)
| Bare (cause : fault).

(** A failure of the store. *)
Definition storeFault (text : string) : fault :=
  {| faultText := text; isDeadlineExceeded := false; isUpdateDeferred := false;
     isTemporary := false |}.

Definition FailedServicesFromError (errs : list runError) : list DesiredService :=
  match find (λ e, match e with Wrapped _ _ _ => true | Bare _ => false end) errs with
  | Some (Wrapped _ services _) => services
  | _ => []
  end.

Class StackEnvironment (S : Type) := {
  Load : StackSpec → string → S → Result prepareError StackFile * S;
  (** The definition is prepared in place. *)
  Prepare : StackSpec → StackFile → S → StackFile * option prepareError * S;
  Execute : ExecuteRequest → S → Execution * option executorError * S;
  ExecuteService : ExecuteServiceRequest → S → option executorError * S;
  ListServices : string → S → Result fault (list LiveService) * S;
  PruneServices : StackSpec → string → list DesiredService → list LiveService → S →
    Result fault (list string) * S;
  (** The removal of rotated configs and secrets: its errors are logged. *)
  CleanRotated : StackSpec → StackFile → list LiveService → list string → S → S;
  globalSelfHeal : bool;
  cleanupEnabled : bool;
  (** The [StepError] of the pipeline library for a step and its error. *)
  stepError : string → fault → fault;
}.

(** The calls of a run on a cluster, in their order. *)
Inductive StackCall :=
| Executed (request : ExecuteRequest)
| Observed (live : Result fault (list LiveService))
| Pruned (stack : StackSpec) (desired : list DesiredService) (live : list LiveService)
| Healed (request : ExecuteServiceRequest)
| Cleaned (live : list LiveService) (pruned : list string).

(** ** The payload *)

(** What a run starts with. *)
Record RunInput := {
  Stack_ : StackSpec; inCommit : string; IsNewDigest : bool; IsManualSync : bool;
  HasPreviousDrift : bool; Desired_ : StackFile; PendingSelfHeal : gmap string bool;
}.

(** The drift maps. [Drift] and [RemainingDrift] are one map after the analysis,
    until the verification replaces the latter: [shared] says that a write
    through [RemainingDrift] is seen through [Drift]. A nil [RemainingDrift] is
    [None]. *)
Record Healing := {
  Drift : gmap string ServiceDrift; RemainingDrift : option (gmap string ServiceDrift);
  shared : bool; Remediations : gmap string serviceRemediation; RemediationErr : list fault;
}.
Definition noHealing : Healing :=
  {| Drift := ∅; RemainingDrift := None; shared := false; Remediations := ∅;
     RemediationErr := [] |}.

Record pipelinePayload (S : Type) := {
  input : RunInput; execution : Execution; RegistryAuthError : option fault;
  healing : Healing; env : S; trace : list StackCall;
}.
Arguments input {S}.
Arguments execution {S}.
Arguments RegistryAuthError {S}.
Arguments healing {S}.
Arguments env {S}.
Arguments trace {S}.

Definition noExecution : Execution :=
  {| Attempt := None; RetryDeferred := false; ProtectedServices := []; LiveServices := [];
     PrunedServices := []; ExecutionError := "" |}.

Definition withLive (x : Execution) (live : list LiveService) : Execution :=
  {| Attempt := Attempt x; RetryDeferred := RetryDeferred x;
     ProtectedServices := ProtectedServices x; LiveServices := live;
     PrunedServices := PrunedServices x; ExecutionError := ExecutionError x |}.
Definition withPruned (x : Execution) (pruned : list string) : Execution :=
  {| Attempt := Attempt x; RetryDeferred := RetryDeferred x;
     ProtectedServices := ProtectedServices x; LiveServices := LiveServices x;
     PrunedServices := pruned; ExecutionError := ExecutionError x |}.

(** [payload.RemainingDrift[name] = d] *)
Definition putRemaining (name : string) (d : ServiceDrift) (h : Healing) : Healing :=
  {| Drift := if shared h then <[name := d]> (Drift h) else Drift h;
     RemainingDrift := <[name := d]> <$> RemainingDrift h; shared := shared h;
     Remediations := Remediations h; RemediationErr := RemediationErr h |}.
(** [delete(payload.RemainingDrift, name)] *)
Definition dropRemaining (name : string) (h : Healing) : Healing :=
  {| Drift := if shared h then delete name (Drift h) else Drift h;
     RemainingDrift := delete name <$> RemainingDrift h; shared := shared h;
     Remediations := Remediations h; RemediationErr := RemediationErr h |}.
Definition setRemediation (name : string) (r : serviceRemediation) (h : Healing) : Healing :=
  {| Drift := Drift h; RemainingDrift := RemainingDrift h; shared := shared h;
     Remediations := <[name := r]> (Remediations h); RemediationErr := RemediationErr h |}.
Definition addRemediationErr (e : fault) (h : Healing) : Healing :=
  {| Drift := Drift h; RemainingDrift := RemainingDrift h; shared := shared h;
     Remediations := Remediations h; RemediationErr := RemediationErr h ++ [e] |}.

(** Reading a map that may be nil. *)
Definition remaining (h : Healing) (name : string) : option ServiceDrift :=
  RemainingDrift h ≫= lookup name.

Definition pending (p : RunInput) (name : string) : bool :=
  default false (PendingSelfHeal p !! name).

Section Payload.
Context {S : Type}.
Implicit Types (p : pipelinePayload S).

Definition inEnv p (s : S) : pipelinePayload S :=
  {| input := input p; execution := execution p; RegistryAuthError := RegistryAuthError p;
     healing := healing p; env := s; trace := trace p |}.
Definition logged p (s : S) (c : StackCall) : pipelinePayload S :=
  {| input := input p; execution := execution p; RegistryAuthError := RegistryAuthError p;
     healing := healing p; env := s; trace := trace p ++ [c] |}.
Definition setExecution p (x : Execution) : pipelinePayload S :=
  {| input := input p; execution := x; RegistryAuthError := RegistryAuthError p;
     healing := healing p; env := env p; trace := trace p |}.
Definition setAuthError p (e : option fault) : pipelinePayload S :=
  {| input := input p; execution := execution p; RegistryAuthError := e;
     healing := healing p; env := env p; trace := trace p |}.
Definition setHealing p (h : Healing) : pipelinePayload S :=
  {| input := input p; execution := execution p; RegistryAuthError := RegistryAuthError p;
     healing := h; env := env p; trace := trace p |}.
End Payload.

(** ** The steps of the pipeline *)
Section Reconciler.
Context {S : Type} `{StackEnvironment S}.
Implicit Types (p : pipelinePayload S).

Definition executeDeployment p : option fault * pipelinePayload S :=
  let i := input p in
  let request :=
    {| exStack := Stack_ i; exCommit := inCommit i; exDesired := Desired_ i;
       SourceChanged := IsNewDigest i; ManualRetry := IsManualSync i |} in
  let '(result, err, s) := Execute request (env p) in
  let p := setExecution (logged p s (Executed request)) result in
  match err with
  | None => (None, p)
  | Some e =>
      if isRegistryAuthRefresh e then (None, setAuthError p (Some (executorCause e)))
      else (Some (executorCause e), p)
  end.

Definition loadLiveState p : option fault * pipelinePayload S :=
  match ListServices (Config.Name (Stack_ (input p))) (env p) with
  | (Err e, s) => (Some e, logged p s (Observed (Err e)))
  | (Ok live, s) =>
      (None, setExecution (logged p s (Observed (Ok live))) (withLive (execution p) live))
  end.

Definition pruneOrphanedServices p : option fault * pipelinePayload S :=
  let i := input p in
  let live := LiveServices (execution p) in
  let desired := fileServices (Desired_ i) in
  let '(result, s) := PruneServices (Stack_ i) (inCommit i) desired live (env p) in
  let p := logged p s (Pruned (Stack_ i) desired live) in
  match result with
  | Err e => (Some e, p)
  | Ok pruned => (None, setExecution p (withPruned (execution p) pruned))
  end.

(** On an error both maps are nil. *)
Definition analyzeDrift p : option fault * pipelinePayload S :=
  let h := healing p in
  match Analyze (fileServices (Desired_ (input p))) (LiveServices (execution p)) with
  | Err e =>
      (Some (storeFault e),
       setHealing p {| Drift := ∅; RemainingDrift := None; shared := false;
                       Remediations := Remediations h; RemediationErr := RemediationErr h |})
  | Ok drifts =>
      (None,
       setHealing p {| Drift := drifts; RemainingDrift := Some drifts; shared := true;
                       Remediations := Remediations h; RemediationErr := RemediationErr h |})
  end.

Definition healService (service : DesiredService) (verifyOnly : bool) p
    : option fault * pipelinePayload S :=
  let i := input p in
  match resolveSelfHeal service (StackSelfHeal (Policy (Stack_ i))) globalSelfHeal with
  | Err e =>
      (Some (storeFault ("resolve service " +:+ desiredName service +:+ " self-heal policy: " +:+ e)), p)
  | Ok (_, enabled) =>
      if negb enabled && negb verifyOnly then (None, p)
      else
        let request :=
          {| VerifyOnly := verifyOnly; healStack := Config.Name (Stack_ i);
             healPath := filePath (Desired_ i); healService_ := desiredName service;
             healDesired := fileServices (Desired_ i) |} in
        let '(err, s) := ExecuteService request (env p) in
        let p := logged p s (Healed request) in
        (None,
         setHealing p (setRemediation (desiredName service)
           {| attempted := true; applyErr := err; converged := false; failure := "" |} (healing p)))
  end.

Definition isProtected (x : Execution) (name : string) : bool :=
  RetryDeferred x && bool_decide (name ∈ ProtectedServices x).

Fixpoint healEach (services : list DesiredService) p : option fault * pipelinePayload S :=
  match services with
  | [] => (None, p)
  | service :: services =>
      let name := desiredName service in
      let drifted := bool_decide (is_Some (Drift (healing p) !! name)) in
      if isProtected (execution p) name then healEach services p
      else if negb drifted && negb (pending (input p) name) then healEach services p
      else match healService service (negb drifted) p with
           | (Some e, p) => (Some e, p)
           | (None, p) => healEach services p
           end
  end.

Definition selfHealDrift p : option fault * pipelinePayload S :=
  let h := healing p in
  healEach (fileServices (Desired_ (input p)))
    (setHealing p {| Drift := Drift h; RemainingDrift := RemainingDrift h; shared := shared h;
                     Remediations := ∅; RemediationErr := RemediationErr h |}).

Definition selfHealVerificationFailed : string := "Self Heal Verification Failed".
Definition selfHealConvergenceFailed : string := "Self Heal Convergence Failed".
Definition selfHealOutcomeUnknown : string := "Self Heal Execution Outcome Unknown".

Definition failed (r : serviceRemediation) (why : string) : serviceRemediation :=
  {| attempted := attempted r; applyErr := applyErr r; converged := converged r; failure := why |}.

Definition convergenceFailed (r : serviceRemediation) : bool :=
  match applyErr r with Some e => isConvergenceFailed e | None => false end.

Definition restoreFault (name : string) (e : executorError) : fault :=
  {| faultText := "restore service " +:+ name +:+ ": " +:+ faultText (executorCause e);
     isDeadlineExceeded := isDeadlineExceeded (executorCause e);
     isUpdateDeferred := isUpdateDeferred (executorCause e);
     isTemporary := isTemporary (executorCause e) |}.

(** The remediations are visited in the order of an enumeration of the map; the
    order of Go's iteration is not defined. *)
Definition markFailed (name : string) (r : serviceRemediation) (h : Healing) : Healing :=
  if negb (attempted r) then h
  else
    let '(why, h) :=
      match applyErr r with
      | None => (selfHealVerificationFailed, h)
      | Some e =>
          (if isConvergenceFailed e then selfHealConvergenceFailed else selfHealVerificationFailed,
           addRemediationErr (restoreFault name e) h)
      end in
    let h := match remaining h name with
             | Some _ => h
             | None => putRemaining name (driftOf name why) h
             end in
    setRemediation name (failed r why) h.

Definition markVerificationFailed (err : fault) (h : Healing) : Healing :=
  foldr (λ kv, markFailed kv.1 kv.2) (addRemediationErr err h) (map_to_list (Remediations h)).

(** A remediation against the verified drift. *)
Definition applyVerified (name : string) (r : serviceRemediation) (h : Healing) : Healing :=
  if negb (attempted r) then h
  else
    let found := remaining h name in
    match found, applyErr r with
    | None, None =>
        setRemediation name
          {| attempted := attempted r; applyErr := applyErr r; converged := true;
             failure := failure r |} h
    | _, _ =>
        let why :=
          match found with
          | Some d => selfHealVerificationFailed +:+ ": " +:+ Reason d
          | None => if convergenceFailed r then selfHealConvergenceFailed else selfHealOutcomeUnknown
          end in
        let h :=
          match applyErr r with
          | Some e => addRemediationErr (restoreFault name e) h
          | None => addRemediationErr (storeFault ("verify service " +:+ name +:+ ": " +:+
                      Reason (default noDrift found))) h
          end in
        (** Configuration agreement does not resolve an unsuccessful recovery. *)
        let h :=
          match found with
          | Some _ => h
          | None =>
              let original := default noDrift (Drift h !! name) in
              putRemaining name
                (if bool_decide (ServiceName original = "") then driftOf name why else original) h
          end in
        setRemediation name (failed r why) h
    end.

Definition applyVerifiedDrift (h : Healing) : Healing :=
  foldr (λ kv, applyVerified kv.1 kv.2) h (map_to_list (Remediations h)).

Definition verifySelfHeal p : option fault * pipelinePayload S :=
  let i := input p in
  match ListServices (Config.Name (Stack_ i)) (env p) with
  | (Err e, s) =>
      let p := logged p s (Observed (Err e)) in
      (None, setHealing p (markVerificationFailed
        (storeFault ("verify self-heal state: " +:+ faultText e)) (healing p)))
  | (Ok live, s) =>
      let p := logged p s (Observed (Ok live)) in
      match Analyze (fileServices (Desired_ i)) live with
      | Err e =>
          (None, setHealing p (markVerificationFailed
            (storeFault ("analyze self-heal result: " +:+ e)) (healing p)))
      | Ok verified =>
          let h := healing p in
          let p := setExecution p (withLive (execution p) live) in
          (None, setHealing p (applyVerifiedDrift
            {| Drift := Drift h; RemainingDrift := Some verified; shared := false;
               Remediations := Remediations h; RemediationErr := RemediationErr h |}))
      end
  end.

Definition noAttempt p : bool := bool_decide (Attempt (execution p) = None).
Definition hasRemediationAttempt (h : Healing) : bool :=
  existsb (λ kv, attempted kv.2) (map_to_list (Remediations h)).

Definition pipeline : list (Step fault (pipelinePayload S)) :=
  [{| stepName := "execute deployment"; When := λ _, true; Run := executeDeployment |};
   {| stepName := "load live state"; When := noAttempt; Run := loadLiveState |};
   {| stepName := "prune orphaned services";
      When := λ p, noAttempt p && negb (RetryDeferred (execution p));
      Run := pruneOrphanedServices |};
   {| stepName := "analyze drift";
      When := λ p, noAttempt p || IsManualSync (input p) || HasPreviousDrift (input p);
      Run := analyzeDrift |};
   {| stepName := "self-heal drift";
      When := λ p, noAttempt p &&
        (negb (bool_decide (Drift (healing p) = ∅)) ||
         negb (bool_decide (PendingSelfHeal (input p) = ∅)));
      Run := selfHealDrift |};
   {| stepName := "verify self-heal"; When := λ p, hasRemediationAttempt (healing p);
      Run := verifySelfHeal |}].
End Reconciler.

(** ** The results of a run *)
Definition emptyStack : Stack :=
  {| DriftedServices := ∅; SourceDigest := ""; LastCommit := ""; Runtime.Status := {| Synced := 0; OutOfSynced := 0 |};
     LastError := ""; LastDeployAt := time_zero; StateUpdatedAt := time_zero; Runtime.Services := ∅ |}.

Definition emptyService : Runtime.Service :=
  {| Runtime.Image := ""; SyncStatus := ""; SyncError := ""; SelfHealPending := false; SyncAt := time_zero |}.

Definition serviceAt (services : gmap string Runtime.Service) (name : string) : Runtime.Service :=
  default emptyService (services !! name).

Definition setStack (name : string) (stack : Stack) (r : Runtime) : Runtime :=
  {| PullFailure := PullFailure r; LastPollAt := LastPollAt r; LastPollResult := LastPollResult r;
     LastPollError := LastPollError r; LastSyncAt := LastSyncAt r;
     LastSyncReason := LastSyncReason r; LastSyncResult := LastSyncResult r;
     LastSyncError := LastSyncError r; GitRevision := GitRevision r;
     Stacks := <[name := stack]> (Stacks r); Networks := Networks r |}.

Definition stackHasDrift (stack : Stack) : bool := negb (bool_decide (DriftedServices stack = ∅)).

(** ** Failed runs *)
Definition failedService (now : Time) (services : gmap string Runtime.Service) (s : DesiredService)
    : gmap string Runtime.Service :=
  let previous := serviceAt services (desiredName s) in
  <[desiredName s :=
      {| Runtime.Image := desiredImage s; SyncStatus := SyncStatusOutOfSync; SyncError := SyncError previous;
         SelfHealPending := SelfHealPending previous; SyncAt := now |}]> services.

Definition failedStack (now : Time) (commit : string) (services : list DesiredService) (state : Stack)
    : Stack :=
  let states := foldl (failedService now) (Runtime.Services state) services in
  {| DriftedServices := DriftedServices state; SourceDigest := SourceDigest state;
     LastCommit := commit; Runtime.Status := NewStackStatus states; LastError := "preparation_failed";
     LastDeployAt := LastDeployAt state; StateUpdatedAt := now; Runtime.Services := states |}.

Definition preparationFailureStage (read content : bool) : string :=
  if read then "source fetching" else if content then "validation" else "preparation".

(** After an attempt the deployment has recorded the failure. *)
Definition attemptFailedStack (now : Time) (commit code : string) (services : list DesiredService)
    (prev : Stack) : Stack :=
  let states := foldl (λ m s,
    <[desiredName s := {| Runtime.Image := desiredImage s; SyncStatus := SyncStatusOutOfSync; SyncError := "";
                          SelfHealPending := false; SyncAt := now |}]> m) (Runtime.Services prev) services in
  {| DriftedServices := DriftedServices prev; SourceDigest := SourceDigest prev; LastCommit := commit;
     Runtime.Status := NewStackStatus states;
     LastError := if bool_decide (code = "") then "apply_failed" else code;
     LastDeployAt := LastDeployAt prev; StateUpdatedAt := now; Runtime.Services := states |}.

(** ** Successful runs *)
Definition applySelfHealState (state : Runtime.Service) (name : string) (h : Healing) : Runtime.Service * Healing :=
  match Remediations h !! name with
  | Some r =>
      if negb (attempted r) then (state, h)
      else if converged r then
        ({| Runtime.Image := Runtime.Image state; SyncStatus := SyncStatusSynced; SyncError := "";
            SelfHealPending := false; SyncAt := SyncAt state |}, dropRemaining name h)
      else
        ({| Runtime.Image := Runtime.Image state; SyncStatus := SyncStatusOutOfSync; SyncError := failure r;
            SelfHealPending := true; SyncAt := SyncAt state |}, h)
  | None => (state, h)
  end.

(** The state of one service, and the drift maps after it. *)
Definition serviceState (now : Time) (prev : Stack) (i : RunInput) (x : Execution)
    (s : DesiredService) (h : Healing) : Runtime.Service * Healing :=
  let name := desiredName s in
  let keeps := bool_decide (Attempt x = None) && pending i name in
  let inherited := SyncError (serviceAt (Runtime.Services prev) name) in
  let h :=
    if keeps && bool_decide (remaining h name = None) then putRemaining name (driftOf name inherited) h
    else h in
  let '(status, err) :=
    match remaining h name with
    | Some d => (SyncStatusOutOfSync, Reason d)
    | None => if keeps then (SyncStatusOutOfSync, inherited) else (SyncStatusSynced, "")
    end in
  let '(state, h) :=
    applySelfHealState
      {| Runtime.Image := desiredImage s; SyncStatus := status; SyncError := err; SelfHealPending := keeps;
         SyncAt := now |} name h in
  (if isProtected x name then serviceAt (Runtime.Services prev) name else state, h).

Fixpoint serviceStates (now : Time) (prev : Stack) (i : RunInput) (x : Execution)
    (services : list DesiredService) (states : gmap string Runtime.Service) (h : Healing)
    : gmap string Runtime.Service * Healing :=
  match services with
  | [] => (states, h)
  | s :: services =>
      let '(state, h) := serviceState now prev i x s h in
      serviceStates now prev i x services (<[desiredName s := state]> states) h
  end.

Definition driftFlags (prev : Stack) (h : Healing) : gmap string bool :=
  match RemainingDrift h with
  | Some m => (λ _, true) <$> m
  | None => DriftedServices prev
  end.

Definition resultStack (now : Time) (prev : Stack) (i : RunInput) (x : Execution) (h : Healing)
    : Stack * Healing :=
  let '(states, h) := serviceStates now prev i x (fileServices (Desired_ i)) ∅ h in
  ({| DriftedServices := driftFlags prev h; SourceDigest := Digest (Desired_ i);
      LastCommit := if RetryDeferred x then LastCommit prev else inCommit i;
      Runtime.Status := NewStackStatus states;
      LastError := if RetryDeferred x then LastError prev else "";
      LastDeployAt := if bool_decide (Attempt x = None) then LastDeployAt prev else now;
      StateUpdatedAt := now; Runtime.Services := states |}, h).

(** ** Drift events *)

(** The events of a service in the order they are published. *)
Definition serviceDriftEvents (stack commit : string) (prev : Stack) (h : Healing) (name : string)
    : list Event :=
  let initial := Drift h !! name in
  let final := remaining h name in
  let wasDrifted := default false (DriftedServices prev !! name) in
  let unresolved := bool_decide (is_Some final) in
  let detected := match final with Some d => d | None => default noDrift initial end in
  (if (bool_decide (is_Some initial) || unresolved) && negb wasDrifted
   then [if isMissed detected then ServiceMissed stack name commit (negb unresolved)
         else ServiceDrifted stack name commit (Reason detected) (negb unresolved)]
   else []) ++
  (if negb unresolved && (wasDrifted || bool_decide (is_Some initial))
   then [ServiceDriftFixed stack name commit] else []).

(** A nil map means that the analysis did not run. *)
Definition driftEvents (stack commit : string) (prev : Stack) (services : list DesiredService)
    (h : Healing) : list Event :=
  match RemainingDrift h with
  | None => []
  | Some _ => mjoin (map (λ s, serviceDriftEvents stack commit prev h (desiredName s)) services)
  end.

(** ** The run *)
Section Run.
Context {S : Type} `{StackEnvironment S, GitOpsStore S} `{Gopipe}.
Context (mask : string → string).
(** The instants the run records. *)
Context (now : Time).

(** [recordFailure]: the error of the transaction. *)
Definition recordFailure (stackName commit : string) (services : list DesiredService) (read content : bool)
    (cause : fault) (s : S) : option string * S :=
  let '(r, s) :=
    within_transaction (
      do! Update (λ runtime,
        setStack stackName
          (failedStack now commit services (default emptyStack (Stacks runtime !! stackName))) runtime) in
      Publish (DeployPreparationFailed stackName commit
        (map (λ d, (desiredName d, desiredImage d)) services) "preparation_failed"
        (preparationFailureStage read content) (SafeDiagnostic mask (Some cause))
        (isTemporary cause))) s in
  (match r with Ok _ => None | Err e => Some e end, s).

Definition faults (causes : list (option fault)) : list fault := omap id causes.

Definition recordPipelineFailure (req : ReconciliationRequest) (prev : Stack)
    (p : pipelinePayload S) (step : string) (cause : fault) : list runError * S :=
  let stackName := Config.Name (reqStack req) in
  let services := fileServices (Desired_ (input p)) in
  let '(persistErr, s) :=
    match Attempt (execution p) with
    | None =>
        (** No step reads or parses a compose file. *)
        recordFailure stackName (Commit req) services false false (stepError step cause) (env p)
    | Some _ =>
        let '(r, s) :=
          Update (setStack stackName
            (attemptFailedStack now (Commit req) (ExecutionError (execution p)) services prev)) (env p) in
        (match r with Ok _ => None | Err e => Some e end, s)
    end in
  ([Wrapped step services (stepError step cause :: faults [storeFault <$> persistErr])], s).

(** [persistResult] *)
Definition persistResult (req : ReconciliationRequest) (prev : Stack) (i : RunInput) (h : Healing)
    (result : Stack) : St S string () :=
  let stackName := Config.Name (reqStack req) in
  within_transaction (
    do! Update (setStack stackName result) in
    publishAll (driftEvents stackName (Commit req) prev (fileServices (Desired_ i)) h)).

Definition processResult (req : ReconciliationRequest) (prev : Stack) (p : pipelinePayload S)
    : list runError * pipelinePayload S :=
  let '(result, h) := resultStack now prev (input p) (execution p) (healing p) in
  let '(r, s) := persistResult req prev (input p) h result (env p) in
  let p := inEnv (setHealing p h) s in
  match r with
  | Err e => ([Bare (storeFault ("persist stack result: " +:+ e))], p)
  | Ok _ =>
      (match RemediationErr h with
       | [] => []
       | errs => [Bare (storeFault ("self-heal drift: " +:+
                    join_strings (String (Ascii.ascii_of_N 10) EmptyString) (map faultText errs)))]
       end, p)
  end.

Definition authErrors (p : pipelinePayload S) : list runError :=
  match RegistryAuthError p with Some e => [Bare e] | None => [] end.

(** The payload a run starts with. *)
Definition startRun (req : ReconciliationRequest) (prev : option Stack) (desired : StackFile) (s : S)
    : pipelinePayload S :=
  let before := default emptyStack prev in
  {| input :=
       {| Stack_ := reqStack req; inCommit := Commit req;
          IsNewDigest := match prev with
                         | Some stack => negb (bool_decide (SourceDigest stack = Digest desired))
                         | None => true
                         end;
          IsManualSync := IsManual req; HasPreviousDrift := stackHasDrift before;
          Desired_ := desired;
          PendingSelfHeal :=
            (λ _, true) <$> filter (λ kv, SelfHealPending kv.2 = true) (Runtime.Services before) |};
     execution := noExecution; RegistryAuthError := None; healing := noHealing; env := s;
     trace := [] |}.

(** [Reconcile] once the definition is prepared. *)
Definition reconcilePrepared (req : ReconciliationRequest) (prev : option Stack)
    (desired : StackFile) (s : S) : list runError * pipelinePayload S :=
  let before := default emptyStack prev in
  match runPipeline pipeline (startRun req prev desired s) with
  | (Some (step, cause), p) =>
      if RetryDeferred (execution p) then (Wrapped step [] [stepError step cause] :: authErrors p, p)
      else
        let '(errs, s) := recordPipelineFailure req before p step cause in
        (errs ++ authErrors p, inEnv p s)
  | (None, p) =>
      match processResult req before p with
      | ([], p) =>
          let x := execution p in
          let p :=
            if cleanupEnabled && (negb (bool_decide (Attempt x = None)) || IsManualSync (input p))
            then logged p (CleanRotated (reqStack req) desired (LiveServices x) (PrunedServices x) (env p))
                   (Cleaned (LiveServices x) (PrunedServices x))
            else p in
          (match RegistryAuthError p with
           | Some e => [Wrapped "refresh registry authentication" [] [e]]
           | None => []
           end, p)
      | (errs, p) => (errs ++ authErrors p, p)
      end
  end.

(** [Reconcile]: the errors, none for a nil error, the state reached, and the
    calls of the run. *)
Definition Reconcile (req : ReconciliationRequest) (s : S) : list runError * S * list StackCall :=
  let stackName := Config.Name (reqStack req) in
  match Load (reqStack req) (Commit req) s with
  | (Err e, s) =>
      let '(persistErr, s) :=
        recordFailure stackName (Commit req) [] (isReadError e) (isContentError e) (prepareCause e) s in
      ([Wrapped "load compose" [] (prepareCause e :: faults [storeFault <$> persistErr])], s, [])
  | (Ok loaded, s) =>
      match Read s with
      | (Err e, s) => ([Bare (storeFault e)], s, [])
      | (Ok runtime, s) =>
          match Prepare (reqStack req) loaded s with
          | (desired, Some e, s) =>
              let '(persistErr, s) :=
                recordFailure stackName (Commit req) (fileServices desired) (isReadError e)
                  (isContentError e) (prepareCause e) s in
              ([Wrapped (default "prepare compose" (prepareStep e)) (fileServices desired)
                  (prepareCause e :: faults [storeFault <$> persistErr])], s, [])
          | (desired, None, s) =>
              let '(errs, p) := reconcilePrepared req (Stacks runtime !! stackName) desired s in
              (errs, env p, trace p)
          end
      end
  end.
End Run.
