(* ===== verification/StackReconcilerSafety.v ===== *)
(** * What a run of the stack reconciler guarantees

    The states a run records agree with the drift it found, its events open and
    close the drift episodes of every service, it remediates only what it may, and
    a failed run forgets nothing. *)
From S2P Require Import Prelude GoStrings Config Runtime Comparison Deployments Pruner StackDrift Gopipe StackReconciler.
Local Open Scope go_scope.

(** ** The drift maps *)
Lemma remaining_put name d h name' :
  remaining (putRemaining name d h) name' =
  if decide (name' = name) then (λ _, d) <$> RemainingDrift h else remaining h name'.
Proof.
  unfold remaining, putRemaining. simpl. destruct (RemainingDrift h) as [m|]; simpl.
  - destruct (decide (name' = name)) as [->|Hne]; [by rewrite lookup_insert_eq|].
    by rewrite lookup_insert_ne.
  - by destruct (decide _).
Qed.

Lemma remaining_drop name h name' :
  remaining (dropRemaining name h) name' =
  if decide (name' = name) then None else remaining h name'.
Proof.
  unfold remaining, dropRemaining. simpl. destruct (RemainingDrift h) as [m|]; simpl.
  - destruct (decide (name' = name)) as [->|Hne]; [by rewrite lookup_delete_eq|].
    by rewrite lookup_delete_ne.
  - by destruct (decide _).
Qed.

Lemma analyzed_put name d h :
  is_Some (RemainingDrift (putRemaining name d h)) ↔ is_Some (RemainingDrift h).
Proof. unfold putRemaining. simpl. by rewrite fmap_is_Some. Qed.
Lemma analyzed_drop name h :
  is_Some (RemainingDrift (dropRemaining name h)) ↔ is_Some (RemainingDrift h).
Proof. unfold dropRemaining. simpl. by rewrite fmap_is_Some. Qed.

(** A remediated service converged, or has remaining drift and an error. *)
Definition settledAt (h : Healing) (name : string) : Prop :=
  ∀ r, Remediations h !! name = Some r → attempted r = true →
    if converged r then remaining h name = None ∧ applyErr r = None
    else is_Some (remaining h name) ∧ RemediationErr h ≠ [].

(** What an update of the maps for one service leaves of the others. *)
Definition onlyAt (name : string) (h h' : Healing) : Prop :=
  (is_Some (RemainingDrift h') ↔ is_Some (RemainingDrift h)) ∧
  (RemediationErr h ≠ [] → RemediationErr h' ≠ []) ∧
  ∀ name', name' ≠ name →
    remaining h' name' = remaining h name' ∧ Remediations h' !! name' = Remediations h !! name'.

#[export] Instance onlyAt_preorder name : PreOrder (onlyAt name).
Proof.
  split; [by intros h|]. intros h1 h2 h3 (H1 & He1 & H2) (H3 & He2 & H4).
  split_and!; [by rewrite H3|auto|].
  intros n Hn. destruct (H2 n Hn) as [<- <-]. by apply H4.
Qed.

Lemma onlyAt_put name d h : onlyAt name h (putRemaining name d h).
Proof. split_and!; [apply analyzed_put..|done|]. intros n Hn. by rewrite remaining_put, decide_False. Qed.
Lemma onlyAt_drop name h : onlyAt name h (dropRemaining name h).
Proof. split_and!; [apply analyzed_drop..|done|]. intros n Hn. by rewrite remaining_drop, decide_False. Qed.
Lemma onlyAt_set name r h : onlyAt name h (setRemediation name r h).
Proof. split_and!; [done..|]. intros n Hn. split; [done|]. simpl. by rewrite lookup_insert_ne. Qed.
Lemma onlyAt_err name e h : onlyAt name h (addRemediationErr e h).
Proof. split_and!; try done. intros _. simpl. by destruct (RemediationErr h). Qed.
#[export] Hint Resolve onlyAt_put onlyAt_drop onlyAt_set onlyAt_err : core.

(** ** Verification *)
(** [failing]: the visit relies on an error already recorded. *)
Record Settles (failing : Prop) (visit : string → serviceRemediation → Healing → Healing) : Prop := {
  visit_only name r h : onlyAt name h (visit name r h);
  visit_settles name r h :
    is_Some (RemainingDrift h) → (failing → RemediationErr h ≠ []) →
    Remediations h !! name = Some r → converged r = false →
    settledAt (visit name r h) name;
}.

Lemma failed_settled name r why h :
  is_Some (remaining h name) → RemediationErr h ≠ [] → converged r = false →
  settledAt (setRemediation name (failed r why) h) name.
Proof.
  intros Hd He Hc r' Hr _. simpl in Hr. rewrite lookup_insert_eq in Hr. simplify_eq. simpl.
  by rewrite Hc.
Qed.

Lemma put_remaining_some name d h :
  is_Some (RemainingDrift h) → is_Some (remaining (putRemaining name d h) name).
Proof. intros Hs. rewrite remaining_put, decide_True by done. by apply fmap_is_Some. Qed.

Lemma unattempted_settled name r h :
  Remediations h !! name = Some r → attempted r = false → settledAt h name.
Proof. intros Hr Ha r' Hr' Ha'. congruence. Qed.

Lemma added_err e h : RemediationErr (addRemediationErr e h) ≠ [].
Proof. simpl. by destruct (RemediationErr h). Qed.

Lemma markFailed_settles : Settles True markFailed.
Proof.
  split.
  - intros name r h. unfold markFailed. destruct (attempted r); simpl; [|done].
    destruct (applyErr r) as [e|]; simpl; (etrans; [|by apply onlyAt_set]).
    + transitivity (addRemediationErr (restoreFault name e) h); [done|]. by case_match.
    + by case_match.
  - intros name r h Hs He Hr Hc. specialize (He I). unfold markFailed. destruct (attempted r) eqn:Ha; simpl.
    2: { by apply (unattempted_settled _ r). }
    assert (∀ h1 d, is_Some (RemainingDrift h1) → RemediationErr h1 ≠ [] →
      let h2 := match remaining h1 name with Some _ => h1 | None => putRemaining name d h1 end in
      is_Some (remaining h2 name) ∧ RemediationErr h2 ≠ []) as Hput.
    { intros h1 d Hs1 He1. destruct (remaining h1 name) eqn:Hd; simpl; [by rewrite Hd|].
      split; [|done]. by apply put_remaining_some. }
    destruct (applyErr r) as [e|]; simpl; apply failed_settled; try done; apply Hput; try done;
      apply added_err.
Qed.

Lemma applyVerified_settles : Settles False applyVerified.
Proof.
  split.
  - intros name r h. unfold applyVerified. destruct (attempted r); simpl; [|done].
    destruct (remaining h name) as [d|]; destruct (applyErr r) as [e|]; simpl;
      repeat (etrans; [|by apply onlyAt_set || by apply onlyAt_put || by apply onlyAt_err]); done.
  - intros name r h Hs _ Hr Hc. unfold applyVerified. destruct (attempted r) eqn:Ha; simpl.
    2: { by apply (unattempted_settled _ r). }
    destruct (remaining h name) as [d|] eqn:Hd; destruct (applyErr r) as [e|]; simpl;
      try (apply failed_settled; [|apply added_err|done]).
    + by exists d.
    + by exists d.
    + by apply put_remaining_some.
    + intros r' Hr' _. simpl in Hr'. rewrite lookup_insert_eq in Hr'. by simplify_eq.
Qed.

Lemma visited_settled failing visit l h :
  Settles failing visit → is_Some (RemainingDrift h) → (failing → RemediationErr h ≠ []) → NoDup l.*1 →
  (∀ name r, (name, r) ∈ l → Remediations h !! name = Some r ∧ converged r = false) →
  let h' := foldr (λ kv, visit kv.1 kv.2) h l in
  is_Some (RemainingDrift h') ∧ (failing → RemediationErr h' ≠ []) ∧
  (∀ name, name ∈ l.*1 → settledAt h' name) ∧
  ∀ name, name ∉ l.*1 →
    remaining h' name = remaining h name ∧ Remediations h' !! name = Remediations h !! name.
Proof.
  intros Hv Hs He. induction l as [|[name r] l IH]; intros Hnd Hin; simpl.
  { split_and!; [done|done|set_solver|done]. }
  simpl in Hnd. apply NoDup_cons in Hnd as [Hname Hnd].
  destruct IH as (IHs & IHe & IHin & IHout); [done|by intros; apply Hin; right|].
  set (h' := foldr _ h l) in *. clearbody h'.
  destruct (visit_only _ _ Hv name r h') as (Hdrift & Herr & Hother).
  destruct (Hin name r ltac:(by left)) as [Hr Hc]. destruct (IHout name Hname) as [_ Hr'].
  split_and!; [by apply Hdrift|auto| |].
  - intros n [->|Hn]%elem_of_cons.
    + apply (visit_settles _ _ Hv); [done|done|by rewrite Hr'|done].
    + intros r1 Hr1 Ha. assert (n ≠ name) as Hne by (by intros ->).
      destruct (Hother n Hne) as [-> Hrem]. rewrite Hrem in Hr1.
      specialize (IHin n Hn r1 Hr1 Ha). destruct (converged r1); [done|].
      destruct IHin as [? ?]. by split; [|apply Herr].
  - intros n Hn. apply not_elem_of_cons in Hn as [Hne Hn].
    destruct (Hother n Hne) as [-> ->]. by apply IHout.
Qed.

(** Every remediation is pending its verification. *)
Definition unverified (h : Healing) : Prop :=
  ∀ name r, Remediations h !! name = Some r → converged r = false.

Lemma verified_settled failing visit h :
  Settles failing visit → is_Some (RemainingDrift h) → (failing → RemediationErr h ≠ []) →
  unverified h →
  let h' := foldr (λ kv, visit kv.1 kv.2) h (map_to_list (Remediations h)) in
  is_Some (RemainingDrift h') ∧ ∀ name, settledAt h' name.
Proof.
  intros Hv Hs He Hu.
  destruct (visited_settled failing visit (map_to_list (Remediations h)) h) as (Hs' & _ & Hin & Hout);
    [done..|apply NoDup_fst_map_to_list| |].
  { intros name r Hr. apply elem_of_map_to_list in Hr. split; [done|by eapply Hu]. }
  split; [done|]. intros name.
  destruct (decide (name ∈ (map_to_list (Remediations h)).*1)) as [Hi|Ho]; [by apply Hin|].
  intros r Hr. destruct (Hout name Ho) as [_ Hrem]. simpl in *. rewrite Hrem in Hr.
  exfalso. apply Ho, list_elem_of_fmap. exists (name, r). by rewrite elem_of_map_to_list.
Qed.

(** ** The steps *)
Section Steps.
Context {S : Type} `{StackEnvironment S}.
Implicit Types (p : pipelinePayload S).

(** What the steps after the execution leave of a run. *)
Definition sameRun p p' : Prop :=
  input p' = input p ∧ Attempt (execution p') = Attempt (execution p) ∧
  RetryDeferred (execution p') = RetryDeferred (execution p) ∧
  ProtectedServices (execution p') = ProtectedServices (execution p).
#[export] Instance sameRun_preorder : PreOrder sameRun.
Proof. split; [by intros p|]. unfold sameRun. intros p1 p2 p3 ? ?. intuition congruence. Qed.

Lemma loadLiveState_keeps p :
  sameRun p (loadLiveState p).2 ∧ healing (loadLiveState p).2 = healing p.
Proof. unfold loadLiveState. by destruct (ListServices _ _) as [[]?]. Qed.

Lemma pruneOrphanedServices_keeps p :
  sameRun p (pruneOrphanedServices p).2 ∧ healing (pruneOrphanedServices p).2 = healing p.
Proof. unfold pruneOrphanedServices. by destruct (PruneServices _ _ _ _ _) as [[]?]. Qed.

Lemma analyzeDrift_keeps p :
  sameRun p (analyzeDrift p).2 ∧ trace (analyzeDrift p).2 = trace p ∧
  execution (analyzeDrift p).2 = execution p ∧
  Remediations (healing (analyzeDrift p).2) = Remediations (healing p).
Proof. unfold analyzeDrift. by destruct (Analyze _ _). Qed.

Lemma analyzeDrift_ok p p' :
  analyzeDrift p = (None, p') → is_Some (RemainingDrift (healing p')).
Proof. unfold analyzeDrift. destruct (Analyze _ _); intros ?; simplify_eq. by eexists. Qed.

(** What the remediation of a service leaves: everything but the remediations. *)
Definition healed p p' : Prop :=
  sameRun p p' ∧ RemainingDrift (healing p') = RemainingDrift (healing p) ∧
  Drift (healing p') = Drift (healing p) ∧ execution p' = execution p ∧
  (unverified (healing p) → unverified (healing p')).
#[export] Instance healed_preorder : PreOrder healed.
Proof.
  split; [by intros p|]. intros p1 p2 p3 (E1 & ? & ? & ? & ?) (E2 & ? & ? & ? & ?).
  split; [by etrans|]. split_and!; [congruence..|auto].
Qed.

Lemma healService_healed s verifyOnly p : healed p (healService s verifyOnly p).2.
Proof.
  unfold healService. destruct (resolveSelfHeal _ _ _) as [[_ enabled]|]; [|done].
  destruct (negb enabled && negb verifyOnly); [done|].
  destruct (ExecuteService _ _) as [err s']. split_and!; try done.
  intros Hu name r Hr. simpl in Hr. apply lookup_insert_Some in Hr as [[_ <-]|[_ Hr]]; [done|].
  by eapply Hu.
Qed.

Lemma healEach_healed services p : healed p (healEach services p).2.
Proof.
  revert p. induction services as [|s services IH]; intros p; cbn [healEach]; [done|].
  cbv zeta. destruct (isProtected _ _); [done|]. destruct (_ && _); [done|].
  pose proof (healService_healed s (negb (bool_decide (is_Some (Drift (healing p) !! desiredName s)))) p)
    as Hs.
  destruct (healService _ _ _) as [[e|] p1]; [done|]. by etrans; [apply Hs|].
Qed.

Lemma selfHealDrift_keeps p :
  sameRun p (selfHealDrift p).2 ∧
  RemainingDrift (healing (selfHealDrift p).2) = RemainingDrift (healing p) ∧
  unverified (healing (selfHealDrift p).2).
Proof.
  unfold selfHealDrift.
  match goal with |- context [healEach ?l ?p] => destruct (healEach_healed l p) as (Hs & Hr & _ & _ & Hu) end.
  split_and!; [done..|]. apply Hu. by intros name r Hr'.
Qed.

Lemma verifySelfHeal_keeps p :
  sameRun p (verifySelfHeal p).2 ∧
  ∃ found, trace (verifySelfHeal p).2 = trace p ++ [Observed found].
Proof.
  unfold verifySelfHeal. destruct (ListServices _ _) as [[live|e] s].
  - destruct (Analyze _ _); split; try done; by eexists.
  - split; [done|]. by eexists.
Qed.

Lemma verifySelfHeal_settles p :
  is_Some (RemainingDrift (healing p)) → unverified (healing p) →
  let h := healing (verifySelfHeal p).2 in
  is_Some (RemainingDrift h) ∧ ∀ name, settledAt h name.
Proof.
  intros Hs Hu. unfold verifySelfHeal. destruct (ListServices _ _) as [[live|e] s].
  - destruct (Analyze _ _) as [verified|e]; simpl.
    + unfold applyVerifiedDrift.
      match goal with |- context [foldr _ ?h _] =>
        apply (verified_settled False applyVerified h) end; [apply applyVerified_settles|by eexists|done..].
    + unfold markVerificationFailed.
      match goal with |- context [foldr _ ?h0 (map_to_list (Remediations ?h))] =>
        change (Remediations h) with (Remediations h0); apply (verified_settled True markFailed h0) end;
      [apply markFailed_settles|done|by intros _; apply added_err|done].
  - unfold markVerificationFailed. simpl.
    match goal with |- context [foldr _ ?h0 (map_to_list (Remediations ?h))] =>
      change (Remediations h) with (Remediations h0); apply (verified_settled True markFailed h0) end;
      [apply markFailed_settles|done|by intros _; apply added_err|done].
Qed.

Lemma no_attempted_settled h name : hasRemediationAttempt h = false → settledAt h name.
Proof.
  intros Hn r Hr Ha. exfalso. unfold hasRemediationAttempt in Hn.
  assert (existsb (λ kv, attempted kv.2) (map_to_list (Remediations h)) = true) as Hy; [|congruence].
  apply existsb_exists. exists (name, r). split; [|done].
  by apply list_elem_of_In, elem_of_map_to_list.
Qed.
End Steps.

(** Whether a run compares the services. *)
Definition analyzes (i : RunInput) (x : Execution) : bool :=
  bool_decide (Attempt x = None) || IsManualSync i || HasPreviousDrift i.

Section Pipeline.
Context {S : Type} `{StackEnvironment S} `{GopipeLaws}.
Implicit Types (p : pipelinePayload S).

Lemma runPipeline_cons_ok {E T} (st : Step E T) steps (s s' : T) :
  runPipeline (st :: steps) s = (None, s') →
  if When st s then ∃ s1, Run st s = (None, s1) ∧ runPipeline steps s1 = (None, s')
  else runPipeline steps s = (None, s').
Proof.
  rewrite pipeline_cons. destruct (When st s); [|done].
  destruct (Run st s) as [[e|] s1]; [done|]. by exists s1.
Qed.

Lemma executeDeployment_keeps p :
  input (executeDeployment p).2 = input p ∧ healing (executeDeployment p).2 = healing p.
Proof.
  unfold executeDeployment. destruct (Execute _ _) as [[x [e|]] s]; [|done]. by case_match.
Qed.

(** The steps before the analysis change no drift map. *)
Definition keepsDrift p p' : Prop := input p' = input p ∧ healing p' = healing p.
#[local] Instance keepsDrift_preorder : PreOrder keepsDrift.
Proof. split; [done|]. intros ??? [] []. split; congruence. Qed.

Lemma prefix_ok p0 p :
  runPipeline (take 3 pipeline) p0 = (None, p) →
  input p = input p0 ∧ healing p = healing p0.
Proof.
  intros Hrun. unfold pipeline in Hrun. cbn [take] in Hrun.
  apply runPipeline_cons_ok in Hrun. cbn [When Run] in Hrun. destruct Hrun as (p1 & E1 & Hrun).
  destruct (executeDeployment_keeps p0) as [Hi1 Hh1]. rewrite E1 in Hi1, Hh1. simpl in Hi1, Hh1.
  rewrite <- Hi1, <- Hh1. clear Hi1 Hh1 E1 p0.
  match type of Hrun with runPipeline ?l _ = _ =>
    pose proof (pipeline_preserves keepsDrift l p1) as Hkeep end.
  rewrite Hrun in Hkeep. apply Hkeep. clear Hrun Hkeep.
  repeat first [apply Forall_nil_2 | apply Forall_cons_2]; intros q _; cbn [Run].
  - destruct (loadLiveState_keeps q) as ([] & ?). done.
  - destruct (pruneOrphanedServices_keeps q) as ([] & ?). done.
Qed.

(** The drift maps of a run that completes. *)
Lemma pipeline_healing p0 p :
  runPipeline pipeline p0 = (None, p) → healing p0 = noHealing →
  input p = input p0 ∧ (∀ name, settledAt (healing p) name) ∧
  if analyzes (input p) (execution p) then is_Some (RemainingDrift (healing p))
  else healing p = noHealing.
Proof.
  intros Hrun Hh0. rewrite <- (take_drop 3 pipeline), pipeline_app in Hrun.
  destruct (runPipeline (take 3 pipeline) p0) as [[e|] p1] eqn:E1; [done|].
  apply prefix_ok in E1 as [Hi1 Hh1]. rewrite Hh0 in Hh1. unfold pipeline in Hrun. cbn [drop] in Hrun.
  apply runPipeline_cons_ok in Hrun. cbn [When Run] in Hrun.
  change (noAttempt p1 || _ || _) with (analyzes (input p1) (execution p1)) in Hrun.
  assert (∀ q, sameRun p1 q → analyzes (input q) (execution q) = analyzes (input p1) (execution p1)) as Hsame.
  { intros q (-> & Ha & _). unfold analyzes. by rewrite Ha. }
  destruct (analyzes (input p1) (execution p1)) eqn:Han.
  - destruct Hrun as (p2 & E2 & Hrun). pose proof (analyzeDrift_keeps p1) as (Hs2 & _ & _ & Hr2).
    pose proof (analyzeDrift_ok _ _ E2) as Hd2. rewrite E2 in Hs2, Hr2. simpl in Hs2, Hr2.
    rewrite Hh1 in Hr2. simpl in Hr2. apply runPipeline_cons_ok in Hrun. cbn [When Run] in Hrun.
    assert (∃ p3, sameRun p1 p3 ∧ is_Some (RemainingDrift (healing p3)) ∧ unverified (healing p3) ∧
      runPipeline [{| stepName := "verify self-heal"; When := λ p, hasRemediationAttempt (healing p);
                      Run := verifySelfHeal |}] p3 = (None, p)) as (p3 & Hs3 & Hd3 & Hu3 & Hrun3).
    { destruct (noAttempt p2 && _).
      - destruct Hrun as (p3 & E3 & Hrun). exists p3.
        destruct (selfHealDrift_keeps p2) as (Hs & Hd & Hu). rewrite E3 in Hs, Hd, Hu. simpl in *.
        split_and!; [by etrans|by rewrite Hd|done..].
      - exists p2. split_and!; try done. intros name r. by rewrite Hr2. }
    apply runPipeline_cons_ok in Hrun3. cbn [When Run] in Hrun3.
    destruct (hasRemediationAttempt (healing p3)) eqn:Hatt.
    + destruct Hrun3 as (p4 & E4 & Hrun4). rewrite pipeline_nil in Hrun4. simplify_eq.
      destruct (verifySelfHeal_keeps p3) as [Hs4 _]. destruct (verifySelfHeal_settles p3) as [Hd4 Hst4]; [done..|].
      rewrite E4 in *. simpl in *. assert (sameRun p1 p) as Hs by (by etrans).
      rewrite (Hsame p Hs). split; [by destruct Hs as [-> _]|]. done.
    + rewrite pipeline_nil in Hrun3. simplify_eq. rewrite (Hsame p Hs3).
      split; [by destruct Hs3 as [-> _]|]. split; [|done]. intros name. by apply no_attempted_settled.
  - assert (noAttempt p1 = false) as Hna.
    { unfold analyzes in Han. unfold noAttempt. by destruct (bool_decide _). }
    apply runPipeline_cons_ok in Hrun. cbn [When Run] in Hrun. rewrite Hna in Hrun. simpl in Hrun.
    apply runPipeline_cons_ok in Hrun. cbn [When Run] in Hrun. rewrite Hh1 in Hrun. cbn in Hrun.
    rewrite pipeline_nil in Hrun. injection Hrun as <-. rewrite Han. split; [done|]. rewrite Hh1.
    split; [|done]. intros name r Hr. done.
Qed.
End Pipeline.

(** ** The recorded states *)

Definition statusFor (drifted : bool) : string :=
  if drifted then SyncStatusOutOfSync else SyncStatusSynced.

(** The state that a service with the maps [h] is given. *)
Definition stateAgrees (now : Time) (prev : Stack) (x : Execution) (s : DesiredService)
    (state : Runtime.Service) (h : Healing) : Prop :=
  if isProtected x (desiredName s) then state = serviceAt (Runtime.Services prev) (desiredName s)
  else
    Runtime.Image state = desiredImage s ∧ SyncAt state = now ∧
    SyncStatus state = statusFor (bool_decide (is_Some (remaining h (desiredName s)))) ∧
    (SelfHealPending state = true → SyncStatus state = SyncStatusOutOfSync).

(** A remediation that did not converge left drift. *)
Definition unresolvedAt (h : Healing) (name : string) : Prop :=
  ∀ r, Remediations h !! name = Some r → attempted r = true → converged r = false →
    is_Some (remaining h name).

Lemma settled_unresolved h name : settledAt h name → unresolvedAt h name.
Proof. intros Hs r Hr Ha Hc. specialize (Hs r Hr Ha). rewrite Hc in Hs. apply Hs. Qed.

Section States.
Context (now : Time) (prev : Stack) (i : RunInput) (x : Execution).

(** A run without an attempt has compared the services. *)
Definition comparable (h : Healing) : Prop :=
  Attempt x = None → is_Some (RemainingDrift h).

Lemma applySelfHealState_spec name state h :
  unresolvedAt h name →
  SyncStatus state = statusFor (bool_decide (is_Some (remaining h name))) →
  (SelfHealPending state = true → SyncStatus state = SyncStatusOutOfSync) →
  let '(state', h') := applySelfHealState state name h in
  onlyAt name h h' ∧ Runtime.Image state' = Runtime.Image state ∧ SyncAt state' = SyncAt state ∧
  SyncStatus state' = statusFor (bool_decide (is_Some (remaining h' name))) ∧
  (SelfHealPending state' = true → SyncStatus state' = SyncStatusOutOfSync).
Proof.
  intros Hset Hst Hp. unfold applySelfHealState.
  destruct (Remediations h !! name) as [r|] eqn:Hr; [|done].
  destruct (attempted r) eqn:Ha; simpl; [|done].
  specialize (Hset r Hr Ha). destruct (converged r); simpl.
  - split_and!; [auto|done|done| |done]. by rewrite remaining_drop, decide_True.
  - split_and!; [done..| |done]. by rewrite bool_decide_eq_true_2 by auto.
Qed.

Lemma inheritDrift_spec name inherited (keeps : bool) h :
  (keeps = true → is_Some (RemainingDrift h)) → unresolvedAt h name →
  let h1 := if keeps && bool_decide (remaining h name = None)
            then putRemaining name (driftOf name inherited) h else h in
  onlyAt name h h1 ∧ unresolvedAt h1 name ∧ (keeps = true → is_Some (remaining h1 name)).
Proof.
  intros Hk Hu. destruct keeps; simpl; [|done]. specialize (Hk eq_refl).
  destruct (bool_decide (remaining h name = None)) eqn:Hn.
  - assert (is_Some (remaining (putRemaining name (driftOf name inherited) h) name)) as Hs
      by (by apply put_remaining_some).
    split_and!; [auto|by intros r ???|done].
  - apply bool_decide_eq_false_1 in Hn. split_and!; [done..|]. intros _.
    by apply not_eq_None_Some in Hn.
Qed.

Lemma serviceState_spec s h :
  comparable h → unresolvedAt h (desiredName s) →
  let '(state, h') := serviceState now prev i x s h in
  onlyAt (desiredName s) h h' ∧ stateAgrees now prev x s state h'.
Proof.
  intros Hc Hset. unfold serviceState. cbv zeta. set (name := desiredName s) in *.
  set (keeps := bool_decide (Attempt x = None) && pending i name).
  set (inherited := SyncError _).
  destruct (inheritDrift_spec name inherited keeps h) as (Honly & Hset1 & Hkeeps); [|done|].
  { intros Hk. apply Hc. subst keeps. by apply andb_true_iff in Hk as [Hk%bool_decide_eq_true_1 _]. }
  set (h1 := if keeps && _ then _ else h) in *. clearbody h1.
  destruct (match remaining h1 name with Some d => _ | None => _ end) as [status err] eqn:Hst.
  set (state0 := {| Runtime.Image := _; SyncStatus := _ |}).
  pose proof (applySelfHealState_spec name state0 h1 Hset1) as Hs.
  assert (status = statusFor (bool_decide (is_Some (remaining h1 name)))) as Hstatus.
  { destruct (remaining h1 name) as [d|] eqn:Hd.
    - rewrite bool_decide_eq_true_2 by by eexists. by simplify_eq.
    - destruct keeps; [by destruct (Hkeeps eq_refl)|]. by simplify_eq. }
  assert (SelfHealPending state0 = true → SyncStatus state0 = SyncStatusOutOfSync) as Hp.
  { simpl. intros Hk. rewrite Hstatus, bool_decide_eq_true_2; [done|by apply Hkeeps]. }
  specialize (Hs Hstatus Hp). destruct (applySelfHealState state0 name h1) as [state h2].
  destruct Hs as (Honly2 & Himg & Hat & Hsync & Hpend). split; [by etrans|].
  unfold stateAgrees. fold name. destruct (isProtected x name); [done|]. done.
Qed.

Lemma serviceStates_spec services states h :
  NoDup (map desiredName services) → comparable h →
  (∀ name, name ∈ map desiredName services → unresolvedAt h name) →
  let '(states', h') := serviceStates now prev i x services states h in
  (is_Some (RemainingDrift h') ↔ is_Some (RemainingDrift h)) ∧
  (∀ name, name ∉ map desiredName services →
     states' !! name = states !! name ∧ remaining h' name = remaining h name) ∧
  ∀ s, s ∈ services → ∃ state,
    states' !! desiredName s = Some state ∧ stateAgrees now prev x s state h'.
Proof.
  revert states h. induction services as [|s services IH]; intros states h Hnd Hc Hu; cbn [serviceStates].
  { split_and!; [done|done|set_solver]. }
  simpl in Hnd. apply NoDup_cons in Hnd as [Hs Hnd].
  pose proof (serviceState_spec s h Hc (Hu _ ltac:(left))) as Hspec.
  destruct (serviceState now prev i x s h) as [state h1]. destruct Hspec as [(Hdom & _ & Hother) Hag].
  specialize (IH (<[desiredName s := state]> states) h1 Hnd).
  destruct (serviceStates now prev i x services _ h1) as [states' h'].
  destruct IH as (IHdom & IHout & IHin).
  - intros Ha. by apply Hdom, Hc.
  - intros name Hin r. assert (name ≠ desiredName s) as Hne by (by intros ->).
    destruct (Hother name Hne) as [-> ->]. by apply Hu; right.
  - destruct (IHout _ Hs) as [Hst Hrem]. rewrite lookup_insert_eq in Hst. split_and!.
    + by rewrite IHdom.
    + intros name [Hne Hn]%not_elem_of_cons. destruct (IHout name Hn) as [-> ->].
      rewrite lookup_insert_ne by done. split; [done|]. by apply Hother.
    + intros s' [->|Hin]%elem_of_cons; [|by apply IHin].
      exists state. split; [done|]. unfold stateAgrees in *. by rewrite Hrem.
Qed.
End States.

(** The drift of a service that a stack records. *)
Definition flagged (stack : Stack) (name : string) : bool :=
  default false (DriftedServices stack !! name).

Lemma driftFlags_lookup prev h name :
  default false (driftFlags prev h !! name) =
  match RemainingDrift h with
  | Some _ => bool_decide (is_Some (remaining h name))
  | None => flagged prev name
  end.
Proof.
  unfold driftFlags, remaining, flagged. destruct (RemainingDrift h) as [m|]; simpl; [|done].
  rewrite lookup_fmap. by destruct (m !! name).
Qed.

Section Results.
Context {S : Type} `{StackEnvironment S} `{GopipeLaws}.
Implicit Types (p : pipelinePayload S).

(** The states and the maps after a run that completes. *)
Lemma run_results now prev p0 p :
  NoDup (map desiredName (fileServices (Desired_ (input p)))) →
  runPipeline pipeline p0 = (None, p) → healing p0 = noHealing →
  let '(stack, h) := resultStack now prev (input p) (execution p) (healing p) in
  DriftedServices stack = driftFlags prev h ∧
  (is_Some (RemainingDrift h) ↔ analyzes (input p) (execution p) = true) ∧
  (∀ name, name ∉ map desiredName (fileServices (Desired_ (input p))) →
     Runtime.Services stack !! name = None) ∧
  ∀ s, s ∈ fileServices (Desired_ (input p)) → ∃ state,
    Runtime.Services stack !! desiredName s = Some state ∧
    stateAgrees now prev (execution p) s state h.
Proof.
  intros Hnd Hrun Hh. destruct (pipeline_healing p0 p Hrun Hh) as (_ & Hset & Han).
  unfold resultStack.
  pose proof (serviceStates_spec now prev (input p) (execution p) (fileServices (Desired_ (input p)))
    ∅ (healing p) Hnd) as Hspec.
  destruct (serviceStates _ _ _ _ _ _ _) as [states h]. destruct Hspec as (Hdom & Hout & Hin).
  - intros Ha. unfold analyzes in Han. by rewrite bool_decide_eq_true_2 in Han.
  - intros name _. apply settled_unresolved, Hset.
  - simpl. split_and!; [done| | |done].
    + rewrite Hdom. destruct (analyzes _ _); [done|]. rewrite Han. simpl. split; [by intros []|done].
    + intros name Hn. by destruct (Hout name Hn) as [-> _].
Qed.

(** C33. The states that a completed run records are exact. Every desired service
    has one state and nothing else has. A service that is protected while a retry
    is deferred keeps its previous state; every other one carries the desired
    image, is out of sync exactly when the stack lists it as drifted, and awaits a
    remediation only while it is out of sync. *)
Theorem sync_status_is_exact now prev p0 p
    (Hnames : NoDup (map desiredName (fileServices (Desired_ (input p)))))
    (Hstart : healing p0 = noHealing)
    (Hdrift : HasPreviousDrift (input p0) = stackHasDrift prev)
    (Hrun : runPipeline pipeline p0 = (None, p)) :
  let stack := (resultStack now prev (input p) (execution p) (healing p)).1 in
  (∀ name, is_Some (Runtime.Services stack !! name) ↔
     name ∈ map desiredName (fileServices (Desired_ (input p)))) ∧
  ∀ s, s ∈ fileServices (Desired_ (input p)) → ∃ state,
    Runtime.Services stack !! desiredName s = Some state ∧
    if isProtected (execution p) (desiredName s)
    then state = serviceAt (Runtime.Services prev) (desiredName s)
    else
      Runtime.Image state = desiredImage s ∧
      SyncStatus state =
        (if flagged stack (desiredName s) then SyncStatusOutOfSync else SyncStatusSynced) ∧
      (SelfHealPending state = true → SyncStatus state = SyncStatusOutOfSync).
Proof.
  pose proof (run_results now prev p0 p Hnames Hrun Hstart) as Hres.
  destruct (pipeline_healing p0 p Hrun Hstart) as (Hin & _ & _).
  destruct (resultStack _ _ _ _ _) as [stack h]. destruct Hres as (Hfl & Han & Hout & Hst). cbn [fst].
  split.
  - intros name. split.
    + intros [state Hs]. destruct (decide (name ∈ map desiredName (fileServices (Desired_ (input p)))))
        as [|Hn]; [done|]. by rewrite Hout in Hs.
    + intros (s & -> & Hs)%list_elem_of_fmap. destruct (Hst s Hs) as (state & -> & _). by eexists.
  - intros s Hs. destruct (Hst s Hs) as (state & Hstate & Hag). exists state. split; [done|].
    unfold stateAgrees in Hag. destruct (isProtected _ _); [done|].
    destruct Hag as (Himg & _ & Hsync & Hp). split_and!; [done| |done]. rewrite Hsync.
    unfold flagged. rewrite Hfl, driftFlags_lookup. unfold statusFor.
    destruct (RemainingDrift h) as [m|] eqn:Hm; [done|].
    assert (flagged prev (desiredName s) = false) as ->.
    { destruct (analyzes (input p) (execution p)) eqn:Ha; [by destruct (proj2 Han eq_refl)|].
      unfold analyzes in Ha. apply orb_false_iff in Ha as [_ Ha]. rewrite Hin, Hdrift in Ha.
      unfold stackHasDrift in Ha. apply negb_false_iff, bool_decide_eq_true_1 in Ha.
      unfold flagged. by rewrite Ha. }
    unfold remaining. by rewrite Hm.
Qed.
End Results.

(** ** Drift episodes *)

(** Whether an event is about the drift of a service. *)
Definition aboutDrift (name : string) (e : Event) : bool :=
  match e with
  | ServiceMissed _ name' _ _ | ServiceDrifted _ name' _ _ _ | ServiceDriftFixed _ name' _ =>
      bool_decide (name' = name)
  | _ => false
  end.

(** The drift episode of a service as its events tell it: a detection opens it
    when none is open, a fix closes an open one, anything else is out of order. *)
Definition episodeStep (open : bool) (e : Event) : option bool :=
  match e with
  | ServiceMissed _ _ _ _ | ServiceDrifted _ _ _ _ _ => if open then None else Some true
  | ServiceDriftFixed _ _ _ => if open then Some false else None
  | _ => Some open
  end.
Fixpoint replayEpisode (open : bool) (events : list Event) : option bool :=
  match events with
  | [] => Some open
  | e :: events => episodeStep open e ≫= λ open, replayEpisode open events
  end.

Lemma serviceDriftEvents_about stack commit prev h name name' :
  filter (λ e, aboutDrift name e = true) (serviceDriftEvents stack commit prev h name') =
  if decide (name' = name) then serviceDriftEvents stack commit prev h name else [].
Proof.
  unfold serviceDriftEvents. rewrite filter_app.
  assert (∀ (b : bool) (e : Event), aboutDrift name e = bool_decide (name' = name) →
    filter (λ e, aboutDrift name e = true) (if b then [e] else []) =
    if decide (name' = name) then (if b then [e] else []) else []) as Hone.
  { intros [|] e He; [|by destruct (decide _)]. rewrite filter_cons, filter_nil, He.
    destruct (decide (name' = name)) as [->|Hne].
    - rewrite decide_True; [done|]. by rewrite bool_decide_eq_true_2.
    - rewrite decide_False; [done|]. by rewrite bool_decide_eq_false_2. }
  rewrite !Hone by first [reflexivity | by destruct (isMissed _)]. destruct (decide (name' = name)) as [->|]; done.
Qed.

Lemma driftEvents_about stack commit prev services h name :
  NoDup (map desiredName services) →
  filter (λ e, aboutDrift name e = true) (driftEvents stack commit prev services h) =
  if decide (is_Some (RemainingDrift h) ∧ name ∈ map desiredName services)
  then serviceDriftEvents stack commit prev h name else [].
Proof.
  unfold driftEvents. destruct (RemainingDrift h) as [m|]; [|by destruct (decide _) as [[[]]|]].
  induction services as [|s services IH]; intros Hnd.
  { rewrite decide_False; [done|]. by intros [_ Hin%not_elem_of_nil]. }
  simpl in Hnd. apply NoDup_cons in Hnd as [Hs Hnd]. cbn [map].
  change (mjoin (?x :: ?l)) with (x ++ mjoin l). rewrite filter_app, serviceDriftEvents_about, IH by done.
  destruct (decide (desiredName s = name)) as [<-|Hne].
  - rewrite decide_False by (by intros []). rewrite app_nil_r.
    rewrite decide_True; [done|]. split; [by eexists|]. left.
  - simpl. destruct (decide (_ ∧ name ∈ map desiredName services)) as [[? Hin]|Hno].
    + rewrite decide_True; [done|]. split; [done|by right].
    + rewrite decide_False; [done|]. intros [? [?|?]%elem_of_cons]; [by subst|]. by apply Hno.
Qed.

(** The events of a service lead its episode from the previous flag to the new one. *)
Lemma serviceDriftEvents_replay stack commit prev h name :
  is_Some (RemainingDrift h) →
  replayEpisode (flagged prev name) (serviceDriftEvents stack commit prev h name) =
  Some (bool_decide (is_Some (remaining h name))).
Proof.
  intros _. unfold serviceDriftEvents, flagged.
  destruct (remaining h name) as [final|]; destruct (Drift h !! name) as [initial|];
    destruct (default false (DriftedServices prev !! name)); simpl; try done;
    by repeat (case_match; simpl).
Qed.

Section Episodes.
Context {S : Type} `{StackEnvironment S, GitOpsStore S, !GitOpsStoreLaws S} `{GopipeLaws}.
Implicit Types (p : pipelinePayload S).

Lemma persistResult_ok req prev i h result s s' :
  persistResult req prev i h result s = (Ok (), s') →
  stored s' = setStack (Config.Name (reqStack req)) result (stored s) ∧
  published s' = published s ++
    driftEvents (Config.Name (reqStack req)) (Commit req) prev (fileServices (Desired_ i)) h.
Proof.
  unfold persistResult. intros Hrun. st_inv. destruct a.
  apply Update_ok in Hrun0 as [Hs Hp]. apply publishAll_ok in Hrun as [-> ->]. by rewrite Hs, Hp.
Qed.

(** The drift events of a run and the state it records are one transaction
    and tell the same story: when the result is recorded, the stack is replaced
    (and no other), and for every desired service the published events lead
    its drift episode, opened by a detection and closed by a fix, from the flag of
    the previous run to the recorded flag. A failure changes nothing. *)
Theorem drift_episodes_follow_flags now prev req p0 p r (s s' : S)
    (Hnames : NoDup (map desiredName (fileServices (Desired_ (input p)))))
    (Hstart : healing p0 = noHealing)
    (Hrun : runPipeline pipeline p0 = (None, p))
    (Hpersist : let result := resultStack now prev (input p) (execution p) (healing p) in
       persistResult req prev (input p) result.2 result.1 s = (r, s')) :
  match r with
  | Err _ => s' = s
  | Ok _ => let stack := (resultStack now prev (input p) (execution p) (healing p)).1 in ∃ events,
      Stacks (stored s') = <[Config.Name (reqStack req) := stack]> (Stacks (stored s)) ∧
      published s' = published s ++ events ∧
      ∀ service, service ∈ fileServices (Desired_ (input p)) →
        let name := desiredName service in
        replayEpisode (flagged prev name) (filter (λ e, aboutDrift name e = true) events) =
        Some (flagged stack name)
  end.
Proof.
  pose proof (run_results now prev p0 p Hnames Hrun Hstart) as Hres.
  destruct (resultStack _ _ _ _ _) as [stack h]. destruct Hres as (Hfl & _).
  cbv zeta in *. cbn [fst snd] in *.
  destruct r as [[]|e]; [|by eapply within_transaction_err].
  destruct (persistResult_ok _ _ _ _ _ _ _ Hpersist) as [Hst Hpub].
  exists (driftEvents (Config.Name (reqStack req)) (Commit req) prev (fileServices (Desired_ (input p))) h).
  split_and!; [by rewrite Hst|done|]. intros service Hin. set (name := desiredName service).
  assert (name ∈ map desiredName (fileServices (Desired_ (input p)))) as Hname.
  { by apply list_elem_of_fmap_2. }
  rewrite driftEvents_about by done. unfold flagged at 2. rewrite Hfl, driftFlags_lookup.
  destruct (decide _) as [[Hs _]|Hno].
  - rewrite serviceDriftEvents_replay by done. by destruct Hs as [m ->].
  - destruct (RemainingDrift h); [|done]. exfalso. apply Hno. by split; [eexists|].
Qed.
End Episodes.

(** ** An example: a cluster whose only service has lost its replicas *)
Module StackExample.
Record Cluster := { database : SqlStore; apiReplicas : N }.

Definition inDatabase {A} (run : SqlStore → Result string A * SqlStore) : St Cluster string A :=
  λ c, let '(r, d) := run (database c) in (r, {| database := d; apiReplicas := apiReplicas c |}).

#[export] Instance cluster_store : GitOpsStore Cluster := {
  Read := inDatabase sqlRead; Save r := inDatabase (sqlSave r); Publish e := inDatabase (sqlPublish e);
  stored c := stored (database c); published c := published (database c);
}.
#[export] Instance cluster_laws : GitOpsStoreLaws Cluster.
Proof.
  split; simpl; unfold inDatabase.
  - intros [d n] r c'. simpl. destruct (sqlRead d) as [r' d'] eqn:Hr. intros [= -> <-].
    by rewrite (@Read_state _ _ SqlStore_laws d r d' Hr).
  - intros [d n] r c'. simpl. destruct (sqlRead d) as [r' d'] eqn:Hr. intros [= -> <-].
    by destruct (@Read_ok _ _ SqlStore_laws d _ d' Hr) as [-> ->].
  - intros r [d n] c'. simpl. destruct (sqlSave r d) as [r' d'] eqn:Hr. intros [= -> <-].
    exact (@Save_ok _ _ SqlStore_laws r d d' Hr).
  - intros e [d n] c'. simpl. destruct (sqlPublish e d) as [r' d'] eqn:Hr. intros [= -> <-].
    exact (@Publish_ok _ _ SqlStore_laws e d d' Hr).
  - intros e [d n] err c'. simpl. destruct (sqlPublish e d) as [r' d'] eqn:Hr. intros [= -> <-].
    by rewrite (@Publish_err _ _ SqlStore_laws e d err d' Hr).
Qed.

Definition api : DesiredService := DriftExample.desired ∅ (Some 3%N).
Definition file : StackFile := {| filePath := "shop.yml"; fileServices := [api]; Digest := "d1" |}.

(** The executor has nothing to deploy, and restores the replicas of a service. *)
#[export] Instance cluster_environment : StackEnvironment Cluster := {
  Load _ _ c := (Ok file, c);
  Prepare _ f c := (f, None, c);
  Execute _ c := (noExecution, None, c);
  ExecuteService request c :=
    (None, if VerifyOnly request then c else {| database := database c; apiReplicas := 3 |});
  ListServices _ c := (Ok [DriftExample.live (apiReplicas c)], c);
  PruneServices _ _ _ _ c := (Ok [], c);
  CleanRotated _ _ _ _ c := c;
  globalSelfHeal := true; cleanupEnabled := false;
  stepError step e := storeFault (step +:+ ": " +:+ faultText e);
}.

Definition shop : StackSpec :=
  {| Config.Name := "shop"; ComposeFile := "shop.yml";
     Policy := {| StackPrune := None; StackSelfHeal := None |} |}.

Definition request : ReconciliationRequest :=
  {| reqStack := shop; Commit := "c1"; IsManual := false |}.
Definition cluster : Cluster := {| database := openStore; apiReplicas := 1 |}.
Definition start : pipelinePayload Cluster := startRun request None file cluster.
Definition finish : pipelinePayload Cluster :=
  (runPipeline (Gopipe := Ordered.gopipe) pipeline start).2.

Lemma finishes : runPipeline (Gopipe := Ordered.gopipe) pipeline start = (None, finish).
Proof.
  rewrite (surjective_pairing (runPipeline _ _)). unfold finish. f_equal.
Qed.

Lemma names_distinct : NoDup (map desiredName (fileServices (Desired_ (input finish)))).
Proof. apply NoDup_singleton. Qed.

Lemma sync_status_is_exact_witness :
  let stack := (resultStack 5 emptyStack (input finish) (execution finish) (healing finish)).1 in
  is_Some (Runtime.Services stack !! "api") ∧ flagged stack "api" = false.
Proof.
  destruct (sync_status_is_exact (H0 := Ordered.gopipe) (H1 := Ordered.gopipeLaws) 5 emptyStack start finish
    names_distinct eq_refl eq_refl finishes) as [Hdom _].
  split; [|by vm_compute]. apply Hdom. by left.
Defined.

Definition recorded : Stack * Healing :=
  resultStack 5 emptyStack (input finish) (execution finish) (healing finish).

(** The drift was detected and fixed in the one run. *)
Lemma drift_episodes_follow_flags_witness :
  let run := persistResult request emptyStack (input finish) recorded.2 recorded.1 (env finish) in
  run.1 = Ok () ∧ ∃ events,
    published run.2 = published (env finish) ++ events ∧
    replayEpisode false (filter (λ e, aboutDrift "api" e = true) events) = Some false.
Proof.
  cbv zeta. destruct (persistResult _ _ _ _ _ _) as [r s'] eqn:Hper.
  assert (r = Ok ()) as -> by (change r with (r, s').1; rewrite <- Hper; by vm_compute).
  split; [done|]. cbn [snd].
  destruct (drift_episodes_follow_flags (H1 := Ordered.gopipe) (H2 := Ordered.gopipeLaws)
    5 emptyStack request start finish (Ok ()) (env finish) s' names_distinct eq_refl finishes Hper)
    as (events & _ & Hpub & Hrep).
  exists events. split; [done|]. specialize (Hrep api ltac:(by left)).
  assert (flagged recorded.1 "api" = false) as Hflag by (by vm_compute).
  unfold recorded in Hflag. cbv zeta in Hrep. change (desiredName api) with "api" in Hrep.
  rewrite Hflag in Hrep. exact Hrep.
Defined.
End StackExample.
