(* ===== verification/StackReconcilerCalls.v ===== *)
(** * The calls and the outcome of a reconciliation run

    What a run of the stack reconciler may ask the cluster, in which order, what a
    run without an error has established, and what a failed one keeps. *)
From S2P Require Import Prelude GoStrings Config Runtime Comparison Deployments Pruner StackDrift Gopipe StackReconciler StackReconcilerSafety.
Local Open Scope go_scope.

(** ** The calls of a run *)

(** The services a run remediates, and what it asks for each. *)
Definition selfHealEnabled {S : Type} `{StackEnvironment S} (i : RunInput) (s : DesiredService) : bool :=
  match resolveSelfHeal s (StackSelfHeal (Policy (Stack_ i))) globalSelfHeal with
  | Ok (_, enabled) => enabled
  | Err _ => false
  end.

Definition remediable {S : Type} `{StackEnvironment S} (i : RunInput) (x : Execution)
    (drifts : gmap string ServiceDrift) (s : DesiredService) : bool :=
  negb (isProtected x (desiredName s)) &&
  (if bool_decide (is_Some (drifts !! desiredName s)) then selfHealEnabled i s
   else pending i (desiredName s)).

Definition remediation (i : RunInput) (drifts : gmap string ServiceDrift) (s : DesiredService)
    : ExecuteServiceRequest :=
  {| VerifyOnly := negb (bool_decide (is_Some (drifts !! desiredName s)));
     healStack := Config.Name (Stack_ i); healPath := filePath (Desired_ i);
     healService_ := desiredName s; healDesired := fileServices (Desired_ i) |}.

Definition remediations {S : Type} `{StackEnvironment S} (i : RunInput) (x : Execution)
    (drifts : gmap string ServiceDrift) (services : list DesiredService)
    : list ExecuteServiceRequest :=
  map (remediation i drifts) (filter (λ s, remediable i x drifts s = true) services).

Section Calls.
Context {S : Type} `{StackEnvironment S}.
Implicit Types (p : pipelinePayload S).

Lemma healService_calls s p :
  let drifts := Drift (healing p) in
  let verifyOnly := negb (bool_decide (is_Some (drifts !! desiredName s))) in
  match healService s verifyOnly p with
  | (Some _, p') => p' = p
  | (None, p') =>
      if selfHealEnabled (input p) s || verifyOnly
      then trace p' = trace p ++ [Healed (remediation (input p) drifts s)] ∧
           ∃ r, attempted r = true ∧
             Remediations (healing p') = <[desiredName s := r]> (Remediations (healing p))
      else p' = p
  end.
Proof.
  cbv zeta. unfold healService, selfHealEnabled.
  destruct (resolveSelfHeal _ _ _) as [[level enabled]|e]; [|done].
  destruct enabled, (bool_decide (is_Some _)) eqn:Hd; simpl; try done;
    destruct (ExecuteService _ _) as [err s']; simpl; (split; [unfold remediation; by rewrite Hd|]);
    (eexists; split; [|reflexivity]; done).
Qed.

(** Whether the remediations of a payload were all attempted, those of [names] among them. *)
Definition attempts (names : list string) p : Prop :=
  (∀ name r, Remediations (healing p) !! name = Some r → attempted r = true) ∧
  ∀ name, name ∈ names → is_Some (Remediations (healing p) !! name).

Lemma remediations_cons i x drifts s services :
  remediations i x drifts (s :: services) =
  (if remediable i x drifts s then [remediation i drifts s] else []) ++
  remediations i x drifts services.
Proof. unfold remediations. rewrite filter_cons. by destruct (remediable i x drifts s). Qed.

Lemma healEach_calls services p names :
  attempts names p →
  let '(err, p') := healEach services p in
  let all := remediations (input p) (execution p) (Drift (healing p)) services in
  ∃ healed, trace p' = trace p ++ map Healed healed ∧ healed `prefix_of` all ∧
    (err = None → healed = all) ∧ attempts (names ++ map healService_ healed) p'.
Proof.
  revert p names. induction services as [|s services IH]; intros p names Hatt; cbn [healEach].
  { exists []. simpl. rewrite !app_nil_r. split_and!; [done|apply prefix_nil|done|done]. }
  cbv zeta. rewrite remediations_cons. unfold remediable.
  destruct (isProtected (execution p) (desiredName s)); [by apply IH|]. simpl.
  pose proof (healService_calls s p) as Hs. cbv zeta in Hs.
  pose proof (healService_healed s (negb (bool_decide (is_Some (Drift (healing p) !! desiredName s)))) p)
    as ((Hin & _) & _ & Hdr & Hex & _).
  set (drifted := bool_decide (is_Some (Drift (healing p) !! desiredName s))) in *.
  destruct (negb drifted && negb (pending (input p) (desiredName s))) eqn:Hskip.
  { apply andb_true_iff in Hskip as [Hd%negb_true_iff Hp%negb_true_iff]. rewrite Hd, Hp. by apply IH. }
  destruct (healService s (negb drifted) p) as [[e|] p1].
  { subst p1. exists []. simpl. rewrite !app_nil_r.
    split_and!; [done|apply prefix_nil|done|done]. }
  simpl in Hin, Hdr, Hex.
  destruct (selfHealEnabled (input p) s || negb drifted) eqn:Hen.
  - destruct Hs as [Htr (r & Hr & Hrem)].
    assert ((if drifted then selfHealEnabled (input p) s else pending (input p) (desiredName s)) = true) as ->.
    { destruct drifted; simpl in *; [by rewrite orb_false_r in Hen|].
      by apply negb_false_iff in Hskip. }
    assert (attempts (names ++ [desiredName s]) p1) as Hatt1.
    { destruct Hatt as [Hall Hnames]. split.
      - intros name r' Hr'. rewrite Hrem in Hr'.
        apply lookup_insert_Some in Hr' as [[_ <-]|[_ Hr']]; [done|by eapply Hall].
      - intros name [Hn| ->%list_elem_of_singleton]%elem_of_app; rewrite Hrem, lookup_insert_is_Some.
        + destruct (decide (desiredName s = name)); [by left|]. right. by split; [|apply Hnames].
        + by left. }
    specialize (IH p1 _ Hatt1). destruct (healEach services p1) as [err p'].
    rewrite Hin, Hex, Hdr in IH. destruct IH as (healed & Ht & Hpre & Hall & Hatt').
    exists (remediation (input p) (Drift (healing p)) s :: healed). rewrite Ht, Htr. split_and!.
    + by rewrite <- app_assoc.
    + by apply prefix_cons.
    + intros He. by rewrite Hall.
    + by rewrite <- app_assoc in Hatt'.
  - subst p1. apply orb_false_iff in Hen as [Hen Hd%negb_false_iff]. rewrite Hd, Hen. by apply IH.
Qed.
End Calls.

Section RunCalls.
Context {S : Type} `{StackEnvironment S} `{GopipeLaws}.
Implicit Types (p : pipelinePayload S).

Lemma remediations_none i x services :
  PendingSelfHeal i = ∅ → remediations i x ∅ services = [].
Proof.
  intros Hp. induction services as [|s services IH]; [done|]. rewrite remediations_cons, IH, app_nil_r.
  unfold remediable. rewrite bool_decide_eq_false_2 by (rewrite lookup_empty; by intros []).
  unfold pending. by rewrite Hp, lookup_empty, andb_false_r.
Qed.

Lemma attempts_spec p names :
  attempts names p → names ≠ [] → hasRemediationAttempt (healing p) = true.
Proof.
  intros [Hall Hn] Hne. destruct names as [|name names]; [done|].
  destruct (Hn name ltac:(by left)) as [r Hr]. unfold hasRemediationAttempt.
  apply existsb_exists. exists (name, r). split; [|by eapply Hall].
  by apply list_elem_of_In, elem_of_map_to_list.
Qed.

(** The remediation of a run that compared the services, and its verification. *)
Lemma remediation_calls p :
  Remediations (healing p) = ∅ → Attempt (execution p) = None →
  let '(err, p') := runPipeline (drop 4 pipeline) p in
  let all := remediations (input p) (execution p) (Drift (healing p))
               (fileServices (Desired_ (input p))) in
  ∃ healed verified, trace p' = trace p ++ map Healed healed ++ verified ∧
    healed `prefix_of` all ∧ (verified = [] ∨ ∃ found, verified = [Observed found]) ∧
    (err = None → healed = all ∧ (healed ≠ [] → verified ≠ [])) ∧ sameRun p p'.
Proof.
  intros Hr Ha. unfold pipeline. cbn [drop]. rewrite pipeline_cons. cbn [When Run].
  assert (noAttempt p = true) as -> by (unfold noAttempt; by apply bool_decide_eq_true_2).
  simpl andb. destruct (negb _ || negb _) eqn:Hopen.
  - pose proof (selfHealDrift_keeps p) as (Hsame & _ & _). unfold selfHealDrift in *.
    match goal with |- context [healEach ?l ?q] =>
      pose proof (healEach_calls l q []) as Hcalls end.
    destruct (healEach _ _) as [err p1]. destruct Hcalls as (healed & Htr & Hpre & Hall & Hatt).
    { split; [by intros ??|]. intros name Hn. by apply not_elem_of_nil in Hn. }
    simpl in Htr, Hpre, Hall, Hatt, Hsame. destruct err as [e|].
    { exists healed, []. rewrite app_nil_r. split_and!; [done|done|by left|done|done]. }
    rewrite pipeline_cons. cbn [When Run].
    destruct (hasRemediationAttempt (healing p1)) eqn:Hatt1.
    + destruct (verifySelfHeal_keeps p1) as [Hsame2 [found Htr2]].
      destruct (verifySelfHeal p1) as [err p2]. simpl in Hsame2, Htr2.
      destruct err as [e|]; [|rewrite pipeline_nil]; exists healed, [Observed found];
        rewrite Htr2, Htr, <- app_assoc;
        (split_and!; [done|done|right; by eexists| |by etrans]); [done|].
      intros _. by split; [apply Hall|].
    + rewrite pipeline_nil. exists healed, []. rewrite app_nil_r.
      split_and!; [done|done|by left| |done]. intros _. split; [by apply Hall|]. intros Hne.
      rewrite (attempts_spec p1 (map healService_ healed)) in Hatt1; [done|done|].
      by destruct healed.
  - apply orb_false_iff in Hopen as [Hd%negb_false_iff%bool_decide_eq_true_1
      Hp%negb_false_iff%bool_decide_eq_true_1].
    rewrite pipeline_cons. cbn [When Run]. unfold hasRemediationAttempt at 1.
    rewrite Hr, map_to_list_empty. cbn [existsb]. rewrite pipeline_nil.
    exists [], []. rewrite app_nil_r. rewrite Hd, remediations_none by done.
    split_and!; [done|done|by left|done|done].
Qed.

Lemma analysis_calls p :
  Remediations (healing p) = ∅ → Attempt (execution p) = None →
  let services := fileServices (Desired_ (input p)) in
  let '(err, p') := runPipeline (drop 3 pipeline) p in
  ∃ healed verified, trace p' = trace p ++ map Healed healed ++ verified ∧
    (healed = [] ∨ ∃ drifts, Analyze services (LiveServices (execution p)) = Ok drifts ∧
       healed `prefix_of` remediations (input p) (execution p) drifts services) ∧
    (err = None → ∃ drifts, Analyze services (LiveServices (execution p)) = Ok drifts ∧
       healed = remediations (input p) (execution p) drifts services ∧
       (healed ≠ [] → verified ≠ [])) ∧
    sameRun p p'.
Proof.
  intros Hr Ha services.
  change (drop 3 pipeline) with ({| stepName := "analyze drift";
      When := λ p : pipelinePayload S, noAttempt p || IsManualSync (input p) || HasPreviousDrift (input p);
      Run := analyzeDrift |} :: drop 4 pipeline).
  rewrite pipeline_cons. cbn [When Run stepName].
  assert (noAttempt p = true) as -> by (unfold noAttempt; by apply bool_decide_eq_true_2).
  cbn [orb]. unfold analyzeDrift. fold services.
  destruct (Analyze services (LiveServices (execution p))) as [drifts|e] eqn:Han.
  - match goal with |- context [runPipeline (drop 4 pipeline) ?q] =>
      pose proof (remediation_calls q Hr Ha) as Hcalls end.
    destruct (runPipeline (drop 4 pipeline) _) as [err p'].
    destruct Hcalls as (healed & verified & Htr & Hpre & _ & Hall & Hsame).
    exists healed, verified. split_and!; [done| | |done].
    + right. by exists drifts.
    + intros He. destruct (Hall He) as [-> Hv]. by exists drifts.
  - exists [], []. rewrite app_nil_r. split_and!; [done|by left|done|done].
Qed.

(** With an attempt the run only compares. *)
Lemma attempt_calls p :
  Remediations (healing p) = ∅ → Attempt (execution p) ≠ None →
  let p' := (runPipeline (drop 1 pipeline) p).2 in
  trace p' = trace p ∧ sameRun p p'.
Proof.
  intros Hr Ha.
  assert (∀ q : pipelinePayload S, sameRun p q → noAttempt q = false) as Hno.
  { intros q (_ & Hq & _). unfold noAttempt. rewrite Hq. by apply bool_decide_eq_false_2. }
  unfold pipeline. cbn [drop]. do 2 (rewrite pipeline_cons; cbn [When Run]; rewrite (Hno p) by done; cbn [andb]).
  assert (∀ q : pipelinePayload S, trace q = trace p → sameRun p q → Remediations (healing q) = ∅ →
    let q' := (runPipeline (drop 4 pipeline) q).2 in trace q' = trace p ∧ sameRun p q') as Hrest.
  { intros q Ht Hs Hq. unfold pipeline. cbn [drop].
    rewrite pipeline_cons. cbn [When Run]. rewrite (Hno q) by done. cbn [andb].
    rewrite pipeline_cons. cbn [When Run]. unfold hasRemediationAttempt.
    rewrite Hq, map_to_list_empty. cbn [existsb]. rewrite pipeline_nil. done. }
  rewrite pipeline_cons. cbn [When Run]. destruct (_ || _ || _); [|by apply Hrest].
  destruct (analyzeDrift_keeps p) as (Hs & Ht & _ & Hrem). rewrite Hr in Hrem.
  destruct (analyzeDrift p) as [[e|] p1]; [done|]. by apply Hrest.
Qed.

Lemma remediations_same p q i drifts services :
  sameRun p q → remediations i (execution q) drifts services = remediations i (execution p) drifts services.
Proof.
  intros (_ & _ & Hd & Hp). unfold remediations, remediable, isProtected. by rewrite Hd, Hp.
Qed.

(** The run from the prune on, with the list of services loaded. *)
Lemma prune_calls p :
  Remediations (healing p) = ∅ → Attempt (execution p) = None →
  let services := fileServices (Desired_ (input p)) in
  let live := LiveServices (execution p) in
  let '(err, p') := runPipeline (drop 2 pipeline) p in
  ∃ pruned healed verified, trace p' = trace p ++ pruned ++ map Healed healed ++ verified ∧
    sameRun p p' ∧
    (pruned = [] ∨ RetryDeferred (execution p) = false ∧
       pruned = [Pruned (Stack_ (input p)) services live]) ∧
    (healed = [] ∨ ∃ drifts, Analyze services live = Ok drifts ∧
       healed `prefix_of` remediations (input p) (execution p') drifts services) ∧
    (err = None → ∃ drifts, Analyze services live = Ok drifts ∧
       healed = remediations (input p) (execution p') drifts services ∧
       (healed ≠ [] → verified ≠ [])).
Proof.
  intros Hr Ha services live.
  change (drop 2 pipeline) with ({| stepName := "prune orphaned services";
      When := λ p : pipelinePayload S, noAttempt p && negb (RetryDeferred (execution p));
      Run := pruneOrphanedServices |} :: drop 3 pipeline).
  rewrite pipeline_cons. cbn [When Run stepName].
  assert (noAttempt p = true) as -> by (unfold noAttempt; by apply bool_decide_eq_true_2).
  cbn [andb]. destruct (RetryDeferred (execution p)) eqn:Hdef; cbn [negb].
  - pose proof (analysis_calls p Hr Ha) as Hcalls. cbv zeta in Hcalls. fold services live in Hcalls.
    destruct (runPipeline (drop 3 pipeline) p) as [err p'].
    destruct Hcalls as (healed & verified & Htr & Hheal & Hall & Hsame).
    exists [], healed, verified. split_and!; [done|done|by left| |].
    + destruct Hheal as [?|(drifts & ? & ?)]; [by left|right]. exists drifts.
      by rewrite (remediations_same p p').
    + intros He. destruct (Hall He) as (drifts & ? & ? & ?). exists drifts.
      by rewrite (remediations_same p p').
  - unfold pruneOrphanedServices. fold services live.
    destruct (PruneServices _ _ _ _ _) as [[pruned|e] s].
    2: { exists [Pruned (Stack_ (input p)) services live], [], []. 
         split_and!; [done|done|by right|by left|done]. }
    set (q := setExecution _ _). pose proof (analysis_calls q Hr Ha) as Hcalls. cbv zeta in Hcalls.
    change (fileServices (Desired_ (input q))) with services in Hcalls.
    change (LiveServices (execution q)) with live in Hcalls.
    change (input q) with (input p) in Hcalls.
    assert (trace q = trace p ++ [Pruned (Stack_ (input p)) services live]) as Ht by done.
    assert (sameRun p q) as Hpq by done.
    destruct (runPipeline (drop 3 pipeline) q) as [err p'].
    destruct Hcalls as (healed & verified & Htr & Hheal & Hall & Hsame).
    exists [Pruned (Stack_ (input p)) services live], healed, verified.
    rewrite Htr, Ht, <- app_assoc. split_and!; [done|by etrans|by right| |].
    + destruct Hheal as [?|(drifts & ? & ?)]; [by left|right]. exists drifts.
      by rewrite (remediations_same q p').
    + intros He. destruct (Hall He) as (drifts & ? & ? & ?). exists drifts.
      by rewrite (remediations_same q p').
Qed.

Lemma observed_calls p :
  Remediations (healing p) = ∅ → Attempt (execution p) = None →
  let services := fileServices (Desired_ (input p)) in
  let '(err, p') := runPipeline (drop 1 pipeline) p in
  ∃ observed pruned healed verified,
    trace p' = trace p ++ observed ++ pruned ++ map Healed healed ++ verified ∧
    sameRun p p' ∧
    (pruned = [] ∨ RetryDeferred (execution p') = false ∧
       ∃ live, observed = [Observed (Ok live)] ∧
         pruned = [Pruned (Stack_ (input p)) services live]) ∧
    (healed = [] ∨ ∃ live drifts, observed = [Observed (Ok live)] ∧ Analyze services live = Ok drifts ∧
       healed `prefix_of` remediations (input p) (execution p') drifts services) ∧
    (err = None → ∃ live drifts, observed = [Observed (Ok live)] ∧ Analyze services live = Ok drifts ∧
       healed = remediations (input p) (execution p') drifts services ∧
       (healed ≠ [] → verified ≠ [])).
Proof.
  intros Hr Ha services.
  change (drop 1 pipeline) with ({| stepName := "load live state"; When := noAttempt;
    Run := loadLiveState (S := S) |} :: drop 2 pipeline).
  rewrite pipeline_cons. cbn [When Run stepName].
  assert (noAttempt p = true) as -> by (unfold noAttempt; by apply bool_decide_eq_true_2).
  unfold loadLiveState. destruct (ListServices _ _) as [[live|e] s].
  2: { exists [Observed (Err e)], [], [], []. split_and!; [done|done|by left|by left|done]. }
  set (q := setExecution _ _). pose proof (prune_calls q Hr Ha) as Hcalls. cbv zeta in Hcalls.
  change (fileServices (Desired_ (input q))) with services in Hcalls.
  change (LiveServices (execution q)) with live in Hcalls.
  change (input q) with (input p) in Hcalls.
  assert (trace q = trace p ++ [Observed (Ok live)]) as Ht by done.
  assert (sameRun p q) as Hpq by done.
  destruct (runPipeline (drop 2 pipeline) q) as [err p'].
  destruct Hcalls as (pruned & healed & verified & Htr & Hsame & Hpr & Hheal & Hall).
  exists [Observed (Ok live)], pruned, healed, verified. rewrite Htr, Ht, <- app_assoc.
  split_and!; [done|by etrans| | |].
  - destruct Hpr as [?|[? ?]]; [by left|]. right. split; [|by exists live].
    destruct Hsame as (_ & _ & -> & _). done.
  - destruct Hheal as [?|(drifts & ? & ?)]; [by left|]. right. by exists live, drifts.
  - intros He. destruct (Hall He) as (drifts & ? & ?). by exists live, drifts.
Qed.

End RunCalls.

(** ** The outcome of a run *)
Section Outcome.
Context {S : Type} `{StackEnvironment S, GitOpsStore S, !GitOpsStoreLaws S} `{GopipeLaws}.
Context (mask : string → string) (now : Time).
Implicit Types (p : pipelinePayload S).

Lemma serviceState_errors prev i x s h :
  RemediationErr (serviceState now prev i x s h).2 = RemediationErr h.
Proof.
  unfold serviceState, applySelfHealState. cbv zeta. set (b := _ && bool_decide _).
  set (h1 := if b then _ else _). assert (RemediationErr h1 = RemediationErr h) as <- by (by subst h1; destruct b).
  clearbody h1. destruct (match remaining h1 _ with Some d => _ | None => _ end) as [st err].
  destruct (Remediations h1 !! _) as [r|]; [|done].
  by destruct (attempted r), (converged r).
Qed.

Lemma serviceStates_errors prev i x services states h :
  RemediationErr (serviceStates now prev i x services states h).2 = RemediationErr h.
Proof.
  revert states h. induction services as [|s services IH]; intros states h; cbn [serviceStates]; [done|].
  pose proof (serviceState_errors prev i x s h) as Hs.
  destruct (serviceState _ _ _ _ _ _) as [state h1]. by rewrite IH.
Qed.

Lemma resultStack_fields prev i x h :
  let '(stack, h') := resultStack now prev i x h in
  RemediationErr h' = RemediationErr h ∧ SourceDigest stack = Digest (Desired_ i) ∧
  (RetryDeferred x = false → LastError stack = "" ∧ LastCommit stack = inCommit i).
Proof.
  unfold resultStack. pose proof (serviceStates_errors prev i x (fileServices (Desired_ i)) ∅ h) as He.
  destruct (serviceStates _ _ _ _ _ _ _) as [states h']. split_and!; [done..|].
  intros Hr. simpl. by rewrite Hr.
Qed.

Lemma processResult_ok req prev p p' :
  processResult now req prev p = ([], p') →
  ∃ stack, Stacks (stored (env p')) !! Config.Name (reqStack req) = Some stack ∧
    SourceDigest stack = Digest (Desired_ (input p)) ∧
    (RetryDeferred (execution p) = false → LastError stack = "" ∧ LastCommit stack = inCommit (input p)) ∧
    RemediationErr (healing p) = [] ∧ execution p' = execution p ∧
    RegistryAuthError p' = RegistryAuthError p.
Proof.
  unfold processResult. pose proof (resultStack_fields prev (input p) (execution p) (healing p)) as Hf.
  destruct (resultStack _ _ _ _ _) as [stack h]. destruct Hf as (Herr & Hdig & Hrest).
  destruct (persistResult _ _ _ _ _ _) as [[[]|e] s] eqn:Hper; [|done]. intros Hok.
  apply persistResult_ok in Hper as [Hst _].
  destruct (RemediationErr h) eqn:Hh; [|done]. injection Hok as <-.
  exists stack. simpl. rewrite Hst. simpl. rewrite lookup_insert_eq. by split_and!.
Qed.


End Outcome.

(** ** What a failure keeps *)
Section Failure.
Context {S : Type} `{GitOpsStore S, !GitOpsStoreLaws S}.
Context (mask : string → string) (now : Time).

Lemma failedService_lookup services states name :
  NoDup (map desiredName services) →
  (name ∉ map desiredName services → foldl (failedService now) states services !! name = states !! name) ∧
  ∀ s, s ∈ services → desiredName s = name →
    foldl (failedService now) states services !! name =
    Some {| Runtime.Image := desiredImage s; SyncStatus := SyncStatusOutOfSync;
            SyncError := SyncError (serviceAt states name);
            SelfHealPending := SelfHealPending (serviceAt states name); SyncAt := now |}.
Proof.
  revert states. induction services as [|s services IH]; intros states Hnd; [by split; [|set_solver]|].
  simpl in Hnd. apply NoDup_cons in Hnd as [Hs Hnd].
  destruct (IH (failedService now states s) Hnd) as [IHout IHin]. split.
  - intros [Hne Hn]%not_elem_of_cons. simpl. rewrite IHout by done. unfold failedService.
    by rewrite lookup_insert_ne.
  - intros s' [->|Hin]%elem_of_cons <-; cbn [foldl].
    + rewrite IHout by done. unfold failedService. by rewrite lookup_insert_eq.
    + rewrite (IHin s' Hin) by done. unfold serviceAt at 1 2, failedService.
      rewrite lookup_insert_ne; [done|]. intros Heq. apply Hs. rewrite Heq. by apply list_elem_of_fmap_2.
Qed.

(** C37. A run that fails before an attempt forgets nothing. Recording the failure
    either changes nothing at all, or replaces the stack and publishes one
    event in one transaction: the digest, the drift and the last deployment
    of the stack stay, so that the next run still sees the change and the open
    episodes; every service of the definition is out of sync with its desired image
    and keeps its error and its pending remediation; the other
    services are untouched, and the event carries the masked diagnostic. *)
Theorem failed_run_forgets_nothing stackName commit services read content cause r (s s' : S)
    (Hnames : NoDup (map desiredName services))
    (Hrun : recordFailure mask now stackName commit services read content cause s = (r, s')) :
  match r with
  | Some _ => s' = s
  | None =>
      let old := default emptyStack (Stacks (stored s) !! stackName) in
      ∃ stack,
        Stacks (stored s') = <[stackName := stack]> (Stacks (stored s)) ∧
        published s' = published s ++ [DeployPreparationFailed stackName commit
          (map (λ d, (desiredName d, desiredImage d)) services) "preparation_failed"
          (preparationFailureStage read content) (SafeDiagnostic mask (Some cause)) (isTemporary cause)] ∧
        (SourceDigest stack = SourceDigest old ∧ DriftedServices stack = DriftedServices old ∧
         LastDeployAt stack = LastDeployAt old) ∧
        ∀ name,
          Runtime.Services stack !! name =
          match find (λ d, bool_decide (desiredName d = name)) services with
          | Some d =>
              let previous := serviceAt (Runtime.Services old) name in
              Some {| Runtime.Image := desiredImage d; SyncStatus := SyncStatusOutOfSync;
                      SyncError := SyncError previous; SelfHealPending := SelfHealPending previous;
                      SyncAt := now |}
          | None => Runtime.Services old !! name
          end
  end.
Proof.
  unfold recordFailure in Hrun. destruct (within_transaction _ s) as [[[]|e] s1] eqn:Htx; simplify_eq.
  2: { by eapply within_transaction_err. }
  st_inv. destruct a. apply Update_ok in Hrun as [Hst Hpub].
  apply Publish_ok in Htx as [Hst' Hpub'].
  eexists. split_and!; [by rewrite Hst', Hst|by rewrite Hpub', Hpub|done..|]. intros name. simpl.
  destruct (failedService_lookup services (Runtime.Services (default emptyStack (Stacks (stored s) !! stackName)))
    name Hnames) as [Hout Hin].
  destruct (find _ services) as [d|] eqn:Hf.
  - apply find_some in Hf as [Hd Hn%bool_decide_eq_true_1]. apply list_elem_of_In in Hd. by apply Hin.
  - apply Hout. intros (d & -> & Hd)%list_elem_of_fmap. apply list_elem_of_In, (find_none _ _ Hf), bool_decide_eq_false_1 in Hd; done.
Qed.
End Failure.

(** ** The example *)
Module CallsExample.
Import StackExample.


Definition unmasked : string → string := λ text, text.

Definition reconciled : list runError * Cluster * list StackCall :=
  Reconcile (H1 := Ordered.gopipe) unmasked 5 request cluster.


Lemma failed_run_forgets_nothing_witness :
  let run := recordFailure unmasked 5 "shop" "c1" [api] true false (storeFault "no such file") cluster in
  run.1 = None ∧ published run.2 =
    [DeployPreparationFailed "shop" "c1" [("api", desiredImage api)] "preparation_failed" "source fetching"
       "no such file" false].
Proof.
  cbv zeta. destruct (recordFailure _ _ _ _ _ _ _ _ _) as [r s'] eqn:Hrun.
  assert (r = None) as -> by (change r with (r, s').1; rewrite <- Hrun; by vm_compute).
  split; [done|]. cbn [snd].
  destruct (failed_run_forgets_nothing unmasked 5 "shop" "c1" [api] true false (storeFault "no such file")
    None cluster s' (NoDup_singleton _) Hrun) as (stack & _ & Hpub & _).
  etrans; [exact Hpub|]. by vm_compute.
Defined.
End CallsExample.
