(* ===== verification/TaskFailure.v ===== *)
(** * Terminal task failures ([deployments/deployer/services/task_failure.go],
      [job_failure.go])

    Which failed task of a service Swarm will not replace. The constraint
    language of SwarmKit is the parameter of class [PlacementConstraints]. *)
From stdpp Require Import pretty.
From S2P Require Import Prelude GoStrings TaskSpecs ServiceSpecs.

(** ** Tasks and nodes ([internal/swarm]) *)
Inductive TaskState :=
| TaskStateNew | TaskStateAllocated | TaskStatePending | TaskStateAssigned | TaskStateAccepted
| TaskStatePreparing | TaskStateReady | TaskStateStarting | TaskStateRunning | TaskStateComplete
| TaskStateShutdown | TaskStateFailed | TaskStateRejected | TaskStateRemove | TaskStateOrphaned
| TaskStateUnknown (text : string).
#[export] Instance TaskState_eq_dec : EqDecision TaskState.
Proof. solve_decision. Defined.

Definition taskStateText (s : TaskState) : string :=
  match s with
  | TaskStateNew => "new" | TaskStateAllocated => "allocated" | TaskStatePending => "pending"
  | TaskStateAssigned => "assigned" | TaskStateAccepted => "accepted"
  | TaskStatePreparing => "preparing" | TaskStateReady => "ready"
  | TaskStateStarting => "starting" | TaskStateRunning => "running"
  | TaskStateComplete => "complete" | TaskStateShutdown => "shutdown"
  | TaskStateFailed => "failed" | TaskStateRejected => "rejected" | TaskStateRemove => "remove"
  | TaskStateOrphaned => "orphaned" | TaskStateUnknown text => text
  end.

(** The fields of [Node] that placement reads. *)
Record Node := {
  nodeID : string; Role : string; Hostname : string; PlatformOS : string;
  PlatformArchitecture : string; nodeStatus : string; Availability : string;
  EngineLabels : gmap string string; Addr : string; nodeLabels : gmap string string;
}.

(** The SwarmKit node that constraints are checked against. *)
Record SwarmkitNode := {
  kitID : string; kitManager : bool; kitLabels : gmap string string; kitHostname : string;
  kitOS : string; kitArchitecture : string; kitEngineLabels : gmap string string; kitAddr : string;
}.

Definition ConstraintNode (n : Node) : SwarmkitNode :=
  {| kitID := nodeID n; kitManager := equal_fold (Role n) "manager"; kitLabels := nodeLabels n;
     kitHostname := Hostname n; kitOS := PlatformOS n; kitArchitecture := PlatformArchitecture n;
     kitEngineLabels := EngineLabels n; kitAddr := Addr n |}.

Class PlacementConstraints := {
  Constraint : Type;
  constraint_Parse : list string → option (list Constraint);
  NodeMatches : list Constraint → SwarmkitNode → bool;
}.

(** [Slot] is a Go [int]; an exit code is present when Docker reports one. *)
Record ServiceTask := {
  taskID : string; taskNode : string; NodeInfo : option Node; Slot : Z; JobIteration : option N;
  DesiredState : TaskState; taskCreatedAt : Time; taskUpdatedAt : Time; CurrentState : TaskState;
  ExitCode : option Z; taskError : string; taskSpec : TaskSpec;
}.

(** The zero value [ServiceTask{}]. *)
Definition noTask : ServiceTask :=
  {| taskID := ""; taskNode := ""; NodeInfo := None; Slot := 0; JobIteration := None;
     DesiredState := TaskStateUnknown ""; taskCreatedAt := time_zero; taskUpdatedAt := time_zero;
     CurrentState := TaskStateUnknown ""; ExitCode := None; taskError := ""; taskSpec := noTaskSpec |}.

(** ** Terminal states of one task *)
Definition failedExit (t : ServiceTask) : bool :=
  match ExitCode t with None => true | Some code => negb (bool_decide (code = 0%Z)) end.

Definition terminalServiceTask (t : ServiceTask) : bool :=
  match CurrentState t with
  | TaskStateRejected => true
  | TaskStateFailed => failedExit t
  | _ => false
  end.

Definition terminalJobTask (t : ServiceTask) : bool :=
  match CurrentState t with
  | TaskStateFailed => failedExit t
  | TaskStateRejected | TaskStateOrphaned => true
  | _ => false
  end.

(** The loop that keeps the failed task updated last. *)
Definition laterFailure (failed t : ServiceTask) : ServiceTask :=
  if bool_decide (taskID failed = "") || (taskUpdatedAt failed <? taskUpdatedAt t)%Z then t
  else failed.

Definition found (failed : ServiceTask) : option ServiceTask :=
  if bool_decide (taskID failed = "") then None else Some failed.

(** [a] was created after [b] was, or at the same time with no terminal state:
    replacements win over the tasks they replace. *)
Definition supersedes (terminal : ServiceTask → bool) (a b : ServiceTask) : bool :=
  (taskCreatedAt b <? taskCreatedAt a)%Z ||
  ((taskCreatedAt a =? taskCreatedAt b)%Z && negb (terminal a)).

Definition latestBy (terminal : ServiceTask → bool) : ServiceTask → list ServiceTask → ServiceTask :=
  foldl (λ latest t, if supersedes terminal t latest then t else latest).

Definition positiveWindow (p : RestartPolicy) : bool :=
  match Window p with Some w => (0 <? w)%Z | None => false end.

Definition finiteAttempts (p : RestartPolicy) : bool :=
  match MaxAttempts p with Some n => (0 <? n)%N | None => false end.

Definition restartsDisabled (p : RestartPolicy) : bool :=
  bool_decide (Condition p = RestartPolicyConditionNone).

(** ** Native jobs ([job_failure.go]) *)
Definition jobTotal (j : ReplicatedJob) : N :=
  default (default 1%N (MaxConcurrent j)) (TotalCompletions j).

Definition slotKey (t : ServiceTask) : string := pretty (Slot t).

(** [None] for a task that is not relevant. *)
Definition jobTaskKey (spec : ServiceSpec) (status : N) (t : ServiceTask) : option string :=
  if negb (bool_decide (JobIteration t = Some status)) then None
  else match ReplicatedJobMode (specMode spec) with
       | Some job =>
           if (Slot t <? 0)%Z || (jobTotal job <=? Z.to_N (Slot t))%N then None
           else Some (slotKey t)
       | None => if bool_decide (taskNode t = "") then None else Some (taskNode t)
       end.

(** The newest task of every slot and the number of its tasks. *)
Fixpoint jobHistory (spec : ServiceSpec) (status : N) (tasks : list ServiceTask)
    (acc : gmap string (ServiceTask * N)) : gmap string (ServiceTask * N) :=
  match tasks with
  | [] => acc
  | t :: tasks =>
      jobHistory spec status tasks
        match jobTaskKey spec status t with
        | None => acc
        | Some key =>
            match acc !! key with
            | None => <[key := (t, 1%N)]> acc
            | Some (previous, n) =>
                <[key := (latestBy terminalJobTask previous [t], (n + 1)%N)]> acc
            end
        end
  end.

(** Whether a failed task of the job stays failed. *)
Definition jobStopsRetrying (spec : ServiceSpec) (p : RestartPolicy) : bool :=
  restartsDisabled p ||
  (bool_decide (is_Some (ReplicatedJobMode (specMode spec))) &&
   bool_decide (Condition p ∈ [RestartPolicyConditionOnFailure; RestartPolicyConditionAny; ""]) &&
   finiteAttempts p && negb (positiveWindow p)).

Definition jobExhausted (p : RestartPolicy) (tn : ServiceTask * N) : bool :=
  terminalJobTask tn.1 && (restartsDisabled p || (default 0 (MaxAttempts p) <? tn.2)%N).

Definition JobTaskFailure (spec : ServiceSpec) (status : option N) (tasks : list ServiceTask)
    : option ServiceTask :=
  match status, taskRestartPolicy (TaskTemplate spec) with
  | Some iteration, Some policy =>
      if (bool_decide (ReplicatedJobMode (specMode spec) = None) && negb (GlobalJob (specMode spec)))
         || negb (jobStopsRetrying spec policy)
      then None
      else
        let latest := map_to_list (jobHistory spec iteration tasks ∅) in
        found (foldl laterFailure noTask
          ((λ kv, kv.2.1) <$> filter (λ kv, jobExhausted policy kv.2 = true) latest))
  | _, _ => None
  end.

Section Histories.
Context `{PlacementConstraints}.

Definition templateConstraints (t : TaskSpec) : option (list Constraint) :=
  match taskPlacement t with
  | None => Some []
  | Some p => constraint_Parse (default [] (Constraints p))
  end.

(** The node of a task is one on which the global service should run. *)
Definition eligibleNode (constraints : list Constraint) (t : ServiceTask) : bool :=
  match NodeInfo t with
  | None => bool_decide (DesiredState t = TaskStateRunning) && bool_decide (length constraints = 0)
  | Some node =>
      negb (bool_decide (Availability node = "drain")) &&
      negb (bool_decide (nodeStatus node = "down")) &&
      (bool_decide (DesiredState t = TaskStateRunning) ||
       bool_decide (Availability node = "active") || bool_decide (Availability node = "pause")) &&
      NodeMatches constraints (ConstraintNode node)
  end.

Definition globalServiceTaskNodes (spec : ServiceSpec) (tasks : list ServiceTask) : list string :=
  if negb (Global (specMode spec)) then []
  else match templateConstraints (TaskTemplate spec) with
       | None => []
       | Some constraints => taskNode <$> filter (λ t, eligibleNode constraints t = true) tasks
       end.

Definition desiredReplicas (spec : ServiceSpec) : N :=
  match Replicated (specMode spec) with Some r => default 1%N r | None => 1%N end.

(** The instance a task belongs to: a slot, or a node of a global service. *)
Definition instanceKey (spec : ServiceSpec) (nodes : list string) (since : Time) (t : ServiceTask)
    : option string :=
  if (taskCreatedAt t <? since)%Z ||
     negb (Equal (CompareServiceTemplate (taskSpec t) (TaskTemplate spec)))
  then None
  else match Replicated (specMode spec) with
       | Some _ =>
           if (Slot t <=? 0)%Z || (desiredReplicas spec <? Z.to_N (Slot t))%N then None
           else Some (slotKey t)
       | None =>
           if bool_decide (taskNode t = "") || negb (bool_decide (taskNode t ∈ nodes)) then None
           else Some (taskNode t)
       end.

Definition serviceTaskHistories (spec : ServiceSpec) (tasks : list ServiceTask) (since : Time)
    : gmap string (list ServiceTask) :=
  let nodes := globalServiceTaskNodes spec tasks in
  foldl (λ byInstance t,
    match instanceKey spec nodes since t with
    | None => byInstance
    | Some key => <[key := default [] (byInstance !! key) ++ [t]]> byInstance
    end) ∅ tasks.

Definition countsAsRestart (firstID : string) (lastFailure : Time) (p : RestartPolicy)
    (t : ServiceTask) : bool :=
  negb (bool_decide (taskID t = firstID)) &&
  match Window p with
  | Some w =>
      if (0 <? w)%Z
      then (lastFailure - w <? taskCreatedAt t)%Z && (taskCreatedAt t <? lastFailure)%Z
      else true
  | None => true
  end.

Definition retryLimitExhausted (history : list ServiceTask) (firstID : string) (lastFailure : Time)
    (p : RestartPolicy) : bool :=
  (default 0 (MaxAttempts p) <=?
   N.of_nat (length (filter (λ t, countsAsRestart firstID lastFailure p t = true) history)))%N.

Definition firstTask : ServiceTask → list ServiceTask → ServiceTask :=
  foldl (λ first t, if (taskCreatedAt t <? taskCreatedAt first)%Z then t else first).

Definition latestTask : ServiceTask → list ServiceTask → ServiceTask :=
  latestBy terminalServiceTask.

(** A history is not empty: [serviceTaskHistories] only adds to one. *)
Definition terminalExhaustedTask (history : list ServiceTask) (p : RestartPolicy)
    : option ServiceTask :=
  match history with
  | [] => None
  | t :: rest =>
      let first := firstTask t rest in
      let latest := latestTask t rest in
      if negb (terminalServiceTask latest) then None
      else if negb (restartsDisabled p) &&
              negb (retryLimitExhausted history (taskID first) (taskUpdatedAt latest) p)
      then None
      else Some latest
  end.

Definition TerminalServiceTaskFailure (spec : ServiceSpec) (tasks : list ServiceTask) (since : Time)
    : option ServiceTask :=
  match taskRestartPolicy (TaskTemplate spec) with
  | None => None
  | Some policy =>
      let m := specMode spec in
      if bool_decide (Replicated m = None) && negb (Global m) then None
      else if negb (restartsDisabled policy) && negb (finiteAttempts policy) then None
      else
        found (foldl laterFailure noTask
          (omap (λ kv, terminalExhaustedTask kv.2 policy)
             (map_to_list (serviceTaskHistories spec tasks since))))
  end.
End Histories.

(** ** Replicas that may not restart *)
Definition NonRestartingTaskFailure (spec : ServiceSpec) (tasks : list ServiceTask) (since : Time)
    : option ServiceTask :=
  match Replicated (specMode spec), taskRestartPolicy (TaskTemplate spec) with
  | Some _, Some policy =>
      if negb (restartsDisabled policy) then None
      else
        let latest := foldl (λ latest t,
          if (Slot t <=? 0)%Z || (taskCreatedAt t <? since)%Z ||
             (desiredReplicas spec <? Z.to_N (Slot t))%N then latest
          else match latest !! Slot t with
               | None => <[Slot t := t]> latest
               | Some previous =>
                   if (taskCreatedAt previous <? taskCreatedAt t)%Z then <[Slot t := t]> latest
                   else latest
               end) (∅ : gmap Z ServiceTask) tasks in
        found (foldl laterFailure noTask
          (filter (λ t, terminalServiceTask t = true) (map_to_list latest).*2))
  | _, _ => None
  end.

(** ** The newest task and the failure that is reported *)
Lemma supersedes_false terminal a b :
  supersedes terminal a b = false →
  (taskCreatedAt a ≤ taskCreatedAt b)%Z ∧
  (taskCreatedAt a = taskCreatedAt b → terminal a = true).
Proof.
  unfold supersedes. rewrite orb_false_iff, andb_false_iff, Z.ltb_ge, Z.eqb_neq, negb_false_iff.
  naive_solver lia.
Qed.

Lemma supersedes_true terminal a b :
  supersedes terminal a b = true →
  (taskCreatedAt b < taskCreatedAt a)%Z ∨
  (taskCreatedAt b = taskCreatedAt a ∧ terminal a = false).
Proof.
  unfold supersedes. rewrite orb_true_iff, andb_true_iff, Z.ltb_lt, Z.eqb_eq, negb_true_iff.
  naive_solver.
Qed.

(** The newest task: no task is newer, and it is terminal only when every task
    created with it is. *)
Definition newest (terminal : ServiceTask → bool) (history : list ServiceTask) (t : ServiceTask)
    : Prop :=
  t ∈ history ∧
  ∀ t', t' ∈ history → (taskCreatedAt t' ≤ taskCreatedAt t)%Z ∧
    (taskCreatedAt t' = taskCreatedAt t → terminal t = true → terminal t' = true).

Lemma latestBy_newest terminal t rest : newest terminal (t :: rest) (latestBy terminal t rest).
Proof.
  unfold latestBy. induction rest as [|x rest [IHin IH]] using rev_ind.
  { simpl. split; [by left|]. intros t' ->%list_elem_of_singleton. split; [lia|done]. }
  rewrite foldl_snoc. set (l := foldl _ t rest) in *.
  destruct (supersedes terminal x l) eqn:Hs.
  - apply supersedes_true in Hs. split; [rewrite app_comm_cons; set_solver|].
    intros t' Ht'. rewrite app_comm_cons, elem_of_app, list_elem_of_singleton in Ht'.
    destruct Ht' as [Ht'| ->]; [|split; [lia|done]].
    destruct (IH t' Ht') as [Hle _]. split; [lia|]. intros Heq Hx.
    destruct Hs as [|[_ Hs]]; [lia|congruence].
  - apply supersedes_false in Hs. split; [rewrite app_comm_cons; set_solver|].
    intros t' Ht'. rewrite app_comm_cons, elem_of_app, list_elem_of_singleton in Ht'.
    destruct Ht' as [Ht'| ->]; [by apply IH|]. destruct Hs as [Hle Heq]. split; [lia|]. auto.
Qed.

(** Of failures with identifiers, the one updated last is reported. *)
Lemma reported_failure failures :
  (∀ t, t ∈ failures → taskID t ≠ "") →
  match found (foldl laterFailure noTask failures) with
  | None => failures = []
  | Some t => t ∈ failures ∧ ∀ t', t' ∈ failures → (taskUpdatedAt t' ≤ taskUpdatedAt t)%Z
  end.
Proof.
  induction failures as [|x l IH] using rev_ind; intros Hid; [done|].
  rewrite foldl_snoc. set (f := foldl _ noTask l) in *. unfold found in *.
  assert (taskID x ≠ "") by (apply Hid; set_solver).
  assert (∀ t, t ∈ l → taskID t ≠ "") as Hl by (intros; apply Hid; set_solver).
  specialize (IH Hl). unfold laterFailure.
  case_bool_decide as Hf; simpl.
  { subst l. rewrite bool_decide_false by done. split; [by left|].
    intros t' ->%list_elem_of_singleton. done. }
  destruct (Z.ltb_spec (taskUpdatedAt f) (taskUpdatedAt x)); rewrite bool_decide_false by done;
    (split; [set_solver|]); intros t' [Ht'| ->%list_elem_of_singleton]%elem_of_app; try lia.
  - destruct IH as [_ IH]. specialize (IH _ Ht'). lia.
  - by apply IH.
Qed.

(** ** Histories *)
Section HistoryFacts.
Context `{PlacementConstraints}.

(** The tasks of one instance, in the order Docker lists them. *)
Definition historyOf (spec : ServiceSpec) (since : Time) (tasks : list ServiceTask) (key : string)
    : list ServiceTask :=
  filter (λ t, instanceKey spec (globalServiceTaskNodes spec tasks) since t = Some key) tasks.

Lemma serviceTaskHistories_lookup spec tasks since key :
  serviceTaskHistories spec tasks since !! key =
  match historyOf spec since tasks key with [] => None | h => Some h end.
Proof.
  unfold serviceTaskHistories, historyOf. generalize (globalServiceTaskNodes spec tasks) as nodes.
  intros nodes. induction tasks as [|t tasks IH] using rev_ind; [done|].
  rewrite foldl_snoc, filter_app, filter_cons, filter_nil.
  set (m := foldl _ ∅ tasks) in *.
  destruct (instanceKey spec nodes since t) as [k|] eqn:Hk.
  - destruct (decide (k = key)) as [->|Hne].
    + rewrite decide_True, lookup_insert_eq, IH by done.
      destruct (filter _ tasks); done.
    + rewrite decide_False, lookup_insert_ne, app_nil_r by congruence. done.
  - rewrite decide_False, app_nil_r by done. done.
Qed.

(** An instance whose failure is final: its newest task failed, and Swarm does
    not restart it. *)
Definition finalFailure (p : RestartPolicy) (history : list ServiceTask) (t : ServiceTask) : Prop :=
  newest terminalServiceTask history t ∧ terminalServiceTask t = true ∧
  (Condition p = RestartPolicyConditionNone ∨
   ∃ first, first ∈ history ∧
     (∀ t', t' ∈ history → (taskCreatedAt first ≤ taskCreatedAt t')%Z) ∧
     retryLimitExhausted history (taskID first) (taskUpdatedAt t) p = true).

Lemma firstTask_oldest t rest :
  firstTask t rest ∈ t :: rest ∧
  ∀ t', t' ∈ t :: rest → (taskCreatedAt (firstTask t rest) ≤ taskCreatedAt t')%Z.
Proof.
  unfold firstTask. induction rest as [|x rest [IHin IH]] using rev_ind.
  { simpl. split; [by left|]. by intros t' ->%list_elem_of_singleton. }
  rewrite foldl_snoc. set (f := foldl _ t rest) in *.
  destruct (Z.ltb_spec (taskCreatedAt x) (taskCreatedAt f)); split;
    try (rewrite app_comm_cons; set_solver); intros t' Ht';
    rewrite app_comm_cons, elem_of_app, list_elem_of_singleton in Ht';
    destruct Ht' as [Ht'| ->]; try lia; specialize (IH _ Ht'); lia.
Qed.

Lemma terminalExhaustedTask_Some history p t :
  terminalExhaustedTask history p = Some t → finalFailure p history t.
Proof.
  destruct history as [|x rest]; [done|]. unfold terminalExhaustedTask.
  destruct (terminalServiceTask (latestTask x rest)) eqn:Hterm; [|done]. simpl.
  destruct (firstTask_oldest x rest) as [Hin Hold].
  destruct (restartsDisabled p) eqn:Hd; simpl.
  - intros [= <-]. split_and!; [apply latestBy_newest|done|]. left.
    by apply bool_decide_eq_true in Hd.
  - destruct (retryLimitExhausted _ _ _ _) eqn:Hr; [|done]. simpl. intros [= <-].
    split_and!; [apply latestBy_newest|done|]. right. by exists (firstTask x rest).
Qed.

(** A terminal failure is reported exactly when some instance of the service
    has one: its newest task failed for good, and either restarts are disabled
    or the finite number of restarts is used up. The one that is reported was
    updated last. *)
Theorem terminal_failure_exact spec tasks since p
    (Hp : taskRestartPolicy (TaskTemplate spec) = Some p)
    (Hmode : is_Some (Replicated (specMode spec)) ∨ Global (specMode spec) = true)
    (Hfinite : Condition p = RestartPolicyConditionNone ∨ finiteAttempts p = true)
    (Hid : ∀ t, t ∈ tasks → taskID t ≠ "") :
  match TerminalServiceTaskFailure spec tasks since with
  | Some t =>
      (∃ key, finalFailure p (historyOf spec since tasks key) t) ∧
      ∀ key t', terminalExhaustedTask (historyOf spec since tasks key) p = Some t' →
        (taskUpdatedAt t' ≤ taskUpdatedAt t)%Z
  | None => ∀ key, terminalExhaustedTask (historyOf spec since tasks key) p = None
  end.
Proof.
  unfold TerminalServiceTaskFailure. rewrite Hp.
  assert (bool_decide (Replicated (specMode spec) = None) && negb (Global (specMode spec)) = false) as ->.
  { apply andb_false_iff. rewrite bool_decide_eq_false, negb_false_iff.
    destruct Hmode as [[? ->]|]; [by left|by right]. }
  assert (negb (restartsDisabled p) && negb (finiteAttempts p) = false) as ->.
  { apply andb_false_iff. rewrite !negb_false_iff. unfold restartsDisabled.
    rewrite bool_decide_eq_true. naive_solver. }
  set (failures := omap _ _).
  assert (∀ t, t ∈ failures ↔
    ∃ key, terminalExhaustedTask (historyOf spec since tasks key) p = Some t) as Hin.
  { intros t. unfold failures. rewrite list_elem_of_omap. split.
    - intros ([key h] & Hkh & Ht). exists key. apply elem_of_map_to_list in Hkh.
      rewrite serviceTaskHistories_lookup in Hkh. simpl in Ht.
      destruct (historyOf spec since tasks key); [done|]. by inv Hkh.
    - intros [key Ht]. exists (key, historyOf spec since tasks key).
      rewrite elem_of_map_to_list, serviceTaskHistories_lookup. split; [|done].
      by destruct (historyOf spec since tasks key). }
  assert (∀ t, t ∈ failures → taskID t ≠ "") as Hids.
  { intros t [key Ht%terminalExhaustedTask_Some]%Hin. destruct Ht as [[Ht _] _].
    apply list_elem_of_filter in Ht as [_ Ht]. by apply Hid. }
  pose proof (reported_failure failures Hids) as Hr. destruct (found _) as [t|].
  - destruct Hr as [Ht Hmax]. split.
    + apply Hin in Ht as [key Ht%terminalExhaustedTask_Some]. by exists key.
    + intros key t' Ht'. apply Hmax, Hin. by exists key.
  - intros key. destruct (terminalExhaustedTask _ _) as [t|] eqn:Ht; [|done].
    assert (t ∈ failures) by (apply Hin; by exists key). rewrite Hr in *. set_solver.
Qed.
End HistoryFacts.

(** ** Job iterations *)
Definition jobTasksOf (spec : ServiceSpec) (iteration : N) (tasks : list ServiceTask) (key : string)
    : list ServiceTask :=
  filter (λ t, jobTaskKey spec iteration t = Some key) tasks.

Lemma jobHistory_app spec iteration tasks t acc :
  jobHistory spec iteration (tasks ++ [t]) acc =
  jobHistory spec iteration [t] (jobHistory spec iteration tasks acc).
Proof. revert acc. induction tasks as [|x tasks IH]; intros acc; [done|apply IH]. Qed.

Lemma jobHistory_lookup spec iteration tasks key :
  jobHistory spec iteration tasks ∅ !! key =
  match jobTasksOf spec iteration tasks key with
  | [] => None
  | t :: rest => Some (latestBy terminalJobTask t rest, N.of_nat (length (t :: rest)))
  end.
Proof.
  unfold jobTasksOf. induction tasks as [|t tasks IH] using rev_ind; [done|].
  rewrite jobHistory_app, filter_app, filter_cons, filter_nil. cbn [jobHistory].
  set (m := jobHistory spec iteration tasks ∅) in *.
  destruct (jobTaskKey spec iteration t) as [k|] eqn:Hk.
  2:{ rewrite decide_False, app_nil_r by done. done. }
  destruct (decide (k = key)) as [->|Hne].
  - rewrite decide_True by done. rewrite IH.
    destruct (filter _ tasks) as [|x l]; simpl; [by rewrite lookup_insert_eq|].
    rewrite lookup_insert_eq. unfold latestBy. rewrite foldl_app, length_app. simpl.
    do 2 f_equal. lia.
  - rewrite decide_False, app_nil_r by congruence. rewrite <-IH.
    destruct (m !! k) as [[]|]; by rewrite lookup_insert_ne.
Qed.

(** The newest task of a slot or node failed and nothing will replace it. *)
Definition jobFailure (p : RestartPolicy) (history : list ServiceTask) (t : ServiceTask) : Prop :=
  newest terminalJobTask history t ∧ terminalJobTask t = true ∧
  (Condition p = RestartPolicyConditionNone ∨
   (default 0 (MaxAttempts p) < N.of_nat (length history))%N).

(** A job iteration fails exactly when, in some slot or on some node, the
    newest task of this iteration failed and either restarts are disabled or
    more tasks than the allowed attempts were made. Tasks of other iterations
    never count. *)
Theorem job_failure_exact spec iteration tasks p
    (Hp : taskRestartPolicy (TaskTemplate spec) = Some p)
    (Hmode : is_Some (ReplicatedJobMode (specMode spec)) ∨ GlobalJob (specMode spec) = true)
    (Hid : ∀ t, t ∈ tasks → taskID t ≠ "") :
  match JobTaskFailure spec (Some iteration) tasks with
  | Some t =>
      jobStopsRetrying spec p = true ∧ JobIteration t = Some iteration ∧
      ∃ key, jobFailure p (jobTasksOf spec iteration tasks key) t
  | None =>
      jobStopsRetrying spec p = true →
      ∀ key t, ¬ jobFailure p (jobTasksOf spec iteration tasks key) t
  end.
Proof.
  unfold JobTaskFailure. rewrite Hp.
  assert (bool_decide (ReplicatedJobMode (specMode spec) = None) &&
          negb (GlobalJob (specMode spec)) = false) as ->.
  { apply andb_false_iff. rewrite bool_decide_eq_false, negb_false_iff.
    destruct Hmode as [[? ->]|]; [by left|by right]. }
  destruct (jobStopsRetrying spec p); [|done]. simpl.
  set (failures := _ <$> filter _ _).
  assert (∀ t, t ∈ failures ↔ ∃ key x rest, jobTasksOf spec iteration tasks key = x :: rest ∧
    t = latestBy terminalJobTask x rest ∧
    jobExhausted p (t, N.of_nat (length (x :: rest))) = true) as Hin.
  { intros t. unfold failures. rewrite list_elem_of_fmap. split.
    - intros ([key [l n]] & -> & [Hex Hk]%list_elem_of_filter).
      apply elem_of_map_to_list in Hk. rewrite jobHistory_lookup in Hk.
      destruct (jobTasksOf spec iteration tasks key) as [|x rest] eqn:Hh; [done|].
      injection Hk as <- <-. exists key, x, rest. by rewrite Hh.
    - intros (key & x & rest & Hh & -> & Hex).
      exists (key, (latestBy terminalJobTask x rest, N.of_nat (length (x :: rest)))).
      split; [done|]. apply list_elem_of_filter. split; [done|].
      apply elem_of_map_to_list. by rewrite jobHistory_lookup, Hh. }
  assert (∀ t, t ∈ failures → ∃ key, jobFailure p (jobTasksOf spec iteration tasks key) t) as Hf.
  { intros t (key & x & rest & Hh & -> & Hex)%Hin. exists key. rewrite Hh.
    unfold jobExhausted, restartsDisabled in Hex. simpl in Hex.
    apply andb_true_iff in Hex as [Hterm Hex].
    apply orb_true_iff in Hex. rewrite bool_decide_eq_true, N.ltb_lt in Hex.
    split_and!; [apply latestBy_newest|done|done]. }
  assert (∀ t key, jobFailure p (jobTasksOf spec iteration tasks key) t →
    JobIteration t = Some iteration ∧ t ∈ tasks) as Hiter.
  { intros t key [[Ht _] _]. apply list_elem_of_filter in Ht as [Hkey Ht]. split; [|done].
    unfold jobTaskKey in Hkey. case_bool_decide; [done|]. done. }
  assert (∀ t, t ∈ failures → taskID t ≠ "") as Hids.
  { intros t [key [_ Ht]%Hiter]%Hf. by apply Hid. }
  pose proof (reported_failure failures Hids) as Hr. destruct (found _) as [t|].
  - destruct Hr as [Ht _]. destruct (Hf t Ht) as [key Hj]. split_and!; [done|by eapply Hiter|].
    by exists key.
  - intros _ key t [[Ht Hnew] [Hterm Hex]].
    destruct (jobTasksOf spec iteration tasks key) as [|x rest] eqn:Hh; [set_solver|].
    pose proof (latestBy_newest terminalJobTask x rest) as [Hl Hlnew].
    destruct (Hnew _ Hl) as [Hle1 Heq]. destruct (Hlnew _ Ht) as [Hle2 _].
    assert (latestBy terminalJobTask x rest ∈ failures) as Hbad; [|rewrite Hr in Hbad; set_solver].
    apply Hin. exists key, x, rest. split_and!; [done..|].
    unfold jobExhausted, restartsDisabled. simpl fst. simpl snd. rewrite Heq by (done || lia). simpl.
    apply orb_true_iff. by rewrite bool_decide_eq_true, N.ltb_lt.
Qed.

(** ** Failures of concrete tasks *)
Module FailureExample.

#[local] Instance constraints : PlacementConstraints :=
  {| Constraint := string; constraint_Parse := λ l, Some l; NodeMatches := λ _ _, true |}.

Definition policy (condition : string) (attempts : N) : RestartPolicy :=
  {| Condition := condition; Delay := None; MaxAttempts := Some attempts; Window := None |}.

Definition template : TaskSpec :=
  {| taskContainer := None; taskPlugin := None; taskNetworkAttachment := None;
     taskResources := None; taskRestartPolicy := Some (policy RestartPolicyConditionNone 0);
     taskPlacement := None; taskNetworks := None; taskLogDriver := None; taskForceUpdate := 0;
     taskRuntime := "" |}.

Definition failing (id : string) (created : Time) (iteration : option N) : ServiceTask :=
  {| taskID := id; taskNode := "n1"; NodeInfo := None; Slot := 1; JobIteration := iteration;
     DesiredState := TaskStateShutdown; taskCreatedAt := created; taskUpdatedAt := created;
     CurrentState := TaskStateFailed; ExitCode := Some 1%Z; taskError := "exit 1";
     taskSpec := normalizeTaskSpec template |}.

Definition specOf (mode : ServiceMode) : ServiceSpec :=
  {| specAnnotations := {| Name := "app_api"; Labels := None |}; TaskTemplate := template;
     specMode := mode; specUpdateConfig := None; specRollbackConfig := None; specEndpoint := None |}.

Definition replicated : ServiceMode :=
  {| Replicated := Some (Some 1%N); Global := false; ReplicatedJobMode := None; GlobalJob := false |}.
Definition job : ServiceMode :=
  {| Replicated := None; Global := false; GlobalJob := true; ReplicatedJobMode := None |}.

(** Without restarts the newest failed task is the failure. *)
Lemma terminal_failure_exact_witness :
  ∃ key, finalFailure (policy RestartPolicyConditionNone 0)
    (historyOf (specOf replicated) 0
       [failing "t1" 5 None; failing "t2" 9 None] key) (failing "t2" 9 None).
Proof.
  pose proof (terminal_failure_exact (specOf replicated)
    [failing "t1" 5 None; failing "t2" 9 None] 0 (policy RestartPolicyConditionNone 0) eq_refl
    ltac:(left; by eexists) ltac:(by left) ltac:(intros t Ht; set_solver)) as Hexact.
  vm_compute (TerminalServiceTaskFailure _ _ _) in Hexact. apply Hexact.
Defined.

(** Tasks of an earlier iteration do not count. *)
Lemma job_failure_exact_witness :
  ∃ key, jobFailure (policy RestartPolicyConditionNone 0)
    (jobTasksOf (specOf job) 2
       [failing "t1" 5 (Some 1%N); failing "t2" 9 (Some 2%N)] key) (failing "t2" 9 (Some 2%N)).
Proof.
  pose proof (job_failure_exact (specOf job) 2
    [failing "t1" 5 (Some 1%N); failing "t2" 9 (Some 2%N)] (policy RestartPolicyConditionNone 0) eq_refl
    ltac:(by right) ltac:(intros t Ht; set_solver)) as Hexact.
  vm_compute (JobTaskFailure _ _ _) in Hexact. apply Hexact.
Defined.
End FailureExample.
