(* ===== verification/Waiter.v ===== *)
(** * The convergence waiter ([deployments/deployer/waiter])

    Section [Evaluation] decides from one snapshot of a service whether it has
    converged ([evaluation.go], [job.go], [specification.go], [diagnostics.go]);
    section [Waiting] is the polling loop ([service.go], [state.go],
    [observation.go]) over an environment that answers the Docker calls. *)
From stdpp Require Import pretty.
From S2P Require Import Prelude GoStrings TaskSpecs Deployments ServiceSpecs TaskFailure.

(** ** Data *)
Definition ServiceUpdateStateUpdating : string := "updating".
Definition ServiceUpdateStatePaused : string := "paused".
Definition ServiceUpdateStateCompleted : string := "completed".
Definition ServiceUpdateStateRollbackStarted : string := "rollback_started".
Definition ServiceUpdateStateRollbackPaused : string := "rollback_paused".
Definition ServiceUpdateStateRollbackCompleted : string := "rollback_completed".
Definition ServiceUpdateStateFailed : string := "failed".

Record ServiceUpdateStatus := {
  updateState : string; updateStartedAt : Time; updateCompletedAt : Time; updateMessage : string;
}.
#[export] Instance ServiceUpdateStatus_eq_dec : EqDecision ServiceUpdateStatus.
Proof. solve_decision. Defined.

(** A job status is its iteration. *)
Record StackService := {
  CompletedTasks : N; JobStatus : option N; serviceID : string; serviceName : string;
  serviceMode : string; serviceReplicas : option N; DesiredTasks : N; CreatedAt : Time;
  UpdatedAt : Time; serviceUpdateStatus : option ServiceUpdateStatus; liveSpec : ServiceSpec;
  PreviousSpec : option ServiceSpec;
}.

Definition noServiceSpec : ServiceSpec :=
  {| specAnnotations := {| Name := ""; Labels := None |}; TaskTemplate := noTaskSpec;
     specMode := {| Replicated := None; Global := false; ReplicatedJobMode := None;
                    GlobalJob := false |};
     specUpdateConfig := None; specRollbackConfig := None; specEndpoint := None |}.

(** The zero value that reading an absent map entry gives. *)
Definition noService : StackService :=
  {| CompletedTasks := 0; JobStatus := None; serviceID := ""; serviceName := ""; serviceMode := "";
     serviceReplicas := None; DesiredTasks := 0; CreatedAt := time_zero; UpdatedAt := time_zero;
     serviceUpdateStatus := None; liveSpec := noServiceSpec; PreviousSpec := None |}.

Definition setUpdatedAt (s : StackService) (t : Time) : StackService :=
  {| CompletedTasks := CompletedTasks s; JobStatus := JobStatus s; serviceID := serviceID s;
     serviceName := serviceName s; serviceMode := serviceMode s;
     serviceReplicas := serviceReplicas s; DesiredTasks := DesiredTasks s;
     CreatedAt := CreatedAt s; UpdatedAt := t; serviceUpdateStatus := serviceUpdateStatus s;
     liveSpec := liveSpec s; PreviousSpec := PreviousSpec s |}.
Definition setServiceID (s : StackService) (id : string) : StackService :=
  {| CompletedTasks := CompletedTasks s; JobStatus := JobStatus s; serviceID := id;
     serviceName := serviceName s; serviceMode := serviceMode s;
     serviceReplicas := serviceReplicas s; DesiredTasks := DesiredTasks s;
     CreatedAt := CreatedAt s; UpdatedAt := UpdatedAt s;
     serviceUpdateStatus := serviceUpdateStatus s; liveSpec := liveSpec s;
     PreviousSpec := PreviousSpec s |}.
Definition setLiveForce (s : StackService) (n : N) : StackService :=
  {| CompletedTasks := CompletedTasks s; JobStatus := JobStatus s; serviceID := serviceID s;
     serviceName := serviceName s; serviceMode := serviceMode s;
     serviceReplicas := serviceReplicas s; DesiredTasks := DesiredTasks s;
     CreatedAt := CreatedAt s; UpdatedAt := UpdatedAt s;
     serviceUpdateStatus := serviceUpdateStatus s; liveSpec := withForce (liveSpec s) n;
     PreviousSpec := PreviousSpec s |}.

Definition globalServiceMode : string := "global".
Definition replicatedServiceMode : string := "replicated".
Definition globalJobServiceMode : string := "global-job".
Definition replicatedJobServiceMode : string := "replicated-job".

(** [ServiceUnset] is the empty state of a zero [ServiceProgress]. *)
Inductive ServiceState := ServicePending | ServiceReady | ServiceFailed | ServiceUnset.
#[export] Instance ServiceState_eq_dec : EqDecision ServiceState.
Proof. solve_decision. Defined.

Record ServiceProgress := {
  progressID : string; progressName : string; progressState : ServiceState; Desired : N;
  Running : N; SpecificationOnly : bool; FailedTaskID : string; Message : string;
}.
#[export] Instance ServiceProgress_eq_dec : EqDecision ServiceProgress.
Proof. solve_decision. Defined.

Definition noProgress : ServiceProgress :=
  {| progressID := ""; progressName := ""; progressState := ServiceUnset; Desired := 0;
     Running := 0; SpecificationOnly := false; FailedTaskID := ""; Message := "" |}.

Definition pendingProgress (id name : string) (desired : N) : ServiceProgress :=
  {| progressID := id; progressName := name; progressState := ServicePending; Desired := desired;
     Running := 0; SpecificationOnly := false; FailedTaskID := ""; Message := "" |}.

Definition setMessage (p : ServiceProgress) (m : string) : ServiceProgress :=
  {| progressID := progressID p; progressName := progressName p; progressState := progressState p;
     Desired := Desired p; Running := Running p; SpecificationOnly := SpecificationOnly p;
     FailedTaskID := FailedTaskID p; Message := m |}.
Definition setState (p : ServiceProgress) (s : ServiceState) (m : string) : ServiceProgress :=
  {| progressID := progressID p; progressName := progressName p; progressState := s;
     Desired := Desired p; Running := Running p; SpecificationOnly := SpecificationOnly p;
     FailedTaskID := FailedTaskID p; Message := m |}.
Definition setDesired (p : ServiceProgress) (n : N) : ServiceProgress :=
  {| progressID := progressID p; progressName := progressName p; progressState := progressState p;
     Desired := n; Running := Running p; SpecificationOnly := SpecificationOnly p;
     FailedTaskID := FailedTaskID p; Message := Message p |}.
Definition setRunning (p : ServiceProgress) (n : N) : ServiceProgress :=
  {| progressID := progressID p; progressName := progressName p; progressState := progressState p;
     Desired := Desired p; Running := n; SpecificationOnly := SpecificationOnly p;
     FailedTaskID := FailedTaskID p; Message := Message p |}.
Definition setFailedTask (p : ServiceProgress) (id : string) : ServiceProgress :=
  {| progressID := progressID p; progressName := progressName p; progressState := progressState p;
     Desired := Desired p; Running := Running p; SpecificationOnly := SpecificationOnly p;
     FailedTaskID := id; Message := Message p |}.

(** ** [diagnostics.go] *)
Definition maxServiceDiagnosticLength : nat := 256.

Definition boundedDiagnostic (message : string) : string :=
  let message := trim_space message in
  if (String.length message <=? maxServiceDiagnosticLength)%nat then message
  else string_take maxServiceDiagnosticLength message +:+ "...".

Definition formatTaskDiagnostic (t : ServiceTask) : string :=
  if bool_decide (taskID t = "") then ""
  else "; latest task failure: id=" +:+ taskID t +:+ " state=" +:+ taskStateText (CurrentState t) +:+
    match ExitCode t with Some code => " exit_code=" +:+ pretty code | None => "" end +:+
    (if bool_decide (taskError t = "") then "" else ": " +:+ boundedDiagnostic (taskError t)).

Definition isFailedState (s : TaskState) : bool :=
  match s with TaskStateFailed | TaskStateRejected | TaskStateOrphaned => true | _ => false end.

(** The first of the failed tasks in an order by falling update time. *)
Definition latestFailedTask (tasks : list ServiceTask) : ServiceTask :=
  match stable_sort (λ a b, (taskUpdatedAt b <? taskUpdatedAt a)%Z)
          (filter (λ t, isFailedState (CurrentState t) = true) tasks) with
  | [] => noTask
  | t :: _ => t
  end.

Definition taskFailureDiagnostic (tasks : list ServiceTask) : string :=
  formatTaskDiagnostic (latestFailedTask tasks).

(** The characters of an identifier: ASCII letters and digits, a hyphen, an
    underscore. *)
Definition isWordByte (c : Ascii.ascii) : bool :=
  in_range "a"%char "z"%char c || in_range "A"%char "Z"%char c || in_range "0"%char "9"%char c ||
  bool_decide (c = "-"%char) || bool_decide (c = "_"%char).

(** [strings.FieldsFunc]: the longest runs of such characters. *)
Fixpoint words (s word : string) : list string :=
  match s with
  | EmptyString => if bool_decide (word = "") then [] else [string_rev word]
  | String c s =>
      if isWordByte c then words s (String c word)
      else (if bool_decide (word = "") then [] else [string_rev word]) ++ words s ""
  end.

Definition terminalFailureTask (tasks : list ServiceTask) (message : string) (cutoff : Time)
    : ServiceTask :=
  match filter (λ t, taskID t ≠ "" ∧ taskID t ∈ words message "") tasks with
  | t :: _ => t
  | [] =>
      if is_zero cutoff then noTask
      else latestFailedTask (filter (λ t, ¬ (taskCreatedAt t < cutoff)%Z) tasks)
  end.

(** ** [evaluation.go] *)
Section Evaluation.
Context `{DockerSDK, PlacementConstraints} (mask : string → string).

Definition waitingForUpdateStatus : string := "waiting for current rolling update status".

Definition serviceChanged (before after : StackService) : bool :=
  negb (bool_decide (serviceID before = serviceID after)) ||
  negb (bool_decide (UpdatedAt before = UpdatedAt after)) ||
  negb (bool_decide (liveSpec before = liveSpec after)).

Definition sameService (baseline service : StackService) : bool :=
  bool_decide (serviceID baseline = serviceID service).

Definition terminalTaskCutoff (baseline service : StackService) (status : ServiceUpdateStatus) : Time :=
  let cutoff :=
    if is_zero (updateStartedAt status) then
      let cutoff := if sameService baseline service && negb (is_zero (UpdatedAt baseline))
                    then UpdatedAt baseline else UpdatedAt service in
      if is_zero cutoff then CreatedAt service else cutoff
    else updateStartedAt status in
  if has_prefix "rollback_" (updateState status) && sameService baseline service &&
     serviceChanged baseline service && negb (is_zero (UpdatedAt baseline))
  then UpdatedAt baseline else cutoff.

Definition isTerminalUpdate (state : string) : bool :=
  bool_decide (state ∈ [ServiceUpdateStateFailed; ServiceUpdateStatePaused;
    ServiceUpdateStateRollbackStarted; ServiceUpdateStateRollbackPaused;
    ServiceUpdateStateRollbackCompleted]).

Definition terminalUpdateFailure (status : option ServiceUpdateStatus) : option string :=
  match status with
  | None => None
  | Some status =>
      if isTerminalUpdate (updateState status) then
        let diagnostic := boundedDiagnostic (updateMessage status) in
        Some ("service update is " +:+ updateState status +:+
              if bool_decide (diagnostic = "") then "" else ": " +:+ diagnostic)
      else None
  end.

(** Every state but a finished or paused one leaves the update pending. *)
Definition updatePending (status : option ServiceUpdateStatus) : bool :=
  match status with
  | None => false
  | Some status =>
      negb (bool_decide (updateState status ∈ [ServiceUpdateStatePaused;
        ServiceUpdateStateRollbackStarted; ServiceUpdateStateRollbackPaused;
        ServiceUpdateStateRollbackCompleted; ServiceUpdateStateCompleted]))
  end.

Definition updateProgressMessage (status : option ServiceUpdateStatus) : string :=
  let diagnostic := default "" (boundedDiagnostic ∘ updateMessage <$> status) in
  "waiting for rolling update to complete" +:+
  if bool_decide (diagnostic = "") then "" else ": " +:+ diagnostic.

Definition restoredCompletedRollback (baseline service : StackService) (expected : ServiceSpec)
    : bool :=
  negb (bool_decide (Name (specAnnotations expected) = "")) && sameService baseline service &&
  negb (serviceChanged baseline service) &&
  bool_decide (updateState <$> serviceUpdateStatus service =
               Some ServiceUpdateStateRollbackCompleted) &&
  bool_decide (serviceUpdateStatus baseline = serviceUpdateStatus service) &&
  SpecsEqual (liveSpec service) expected.

Definition serviceDesiredTasks (service : StackService) : N :=
  if bool_decide (serviceMode service = replicatedServiceMode)
  then default (DesiredTasks service) (serviceReplicas service)
  else DesiredTasks service.

Definition count (p : ServiceTask → bool) (tasks : list ServiceTask) : N :=
  N.of_nat (length (filter (λ t, p t = true) tasks)).

Definition countDesiredTasks : list ServiceTask → N :=
  count (λ t, bool_decide (DesiredState t = TaskStateRunning)).

Definition taskIsActive (s : TaskState) : bool :=
  match s with
  | TaskStateComplete | TaskStateShutdown | TaskStateFailed | TaskStateRejected
  | TaskStateRemove | TaskStateOrphaned => false
  | _ => true
  end.

Definition countActiveTasks : list ServiceTask → N := count (λ t, taskIsActive (CurrentState t)).

Definition isRunning (t : ServiceTask) : bool :=
  bool_decide (DesiredState t = TaskStateRunning) && bool_decide (CurrentState t = TaskStateRunning).

Definition countCurrentRunningTasks (tasks : list ServiceTask) (requireCurrentGeneration : bool)
    (cutoff : Time) : N :=
  count (λ t, isRunning t && negb (requireCurrentGeneration && (taskCreatedAt t <? cutoff)%Z)) tasks.

Definition observedDesiredTasks (service : StackService) (tasks : list ServiceTask) : N :=
  let desired := serviceDesiredTasks service in
  if negb (bool_decide (serviceMode service = globalServiceMode)) then desired
  else if (desired <? countDesiredTasks tasks)%N then countDesiredTasks tasks else desired.

Definition globalSchedulerPending (baseline service : StackService) (desired : N) : bool :=
  if negb (bool_decide (serviceMode service = globalServiceMode)) || negb (bool_decide (desired = 0%N))
  then false
  else if bool_decide (serviceID baseline = "") || negb (sameService baseline service) then true
  else (0 <? DesiredTasks baseline)%N ||
       negb (bool_decide (taskPlacement (TaskTemplate (liveSpec baseline)) =
                          taskPlacement (TaskTemplate (liveSpec service)))).

Definition zeroDesiredProgress (progress : ServiceProgress) (tasks : list ServiceTask)
    : ServiceProgress :=
  let active := countActiveTasks tasks in
  if bool_decide (active = 0%N) then setState progress ServiceReady "service converged"
  else setMessage progress (boundedDiagnostic ("waiting for active tasks to stop: " +:+
         pretty active +:+ " remaining" +:+ taskFailureDiagnostic tasks)).

(** A cutoff, and whether the generation is still pending. *)
Definition taskGenerationCutoff (baseline service : StackService) : Time * bool :=
  if bool_decide (serviceID baseline = "") || negb (sameService baseline service)
  then (CreatedAt service, false)
  else match serviceUpdateStatus service with
       | None => (time_zero, true)
       | Some status =>
           if is_zero (updateStartedAt status) ||
              negb (UpdatedAt baseline <? updateStartedAt status)%Z
           then (time_zero, true)
           else (updateStartedAt status, false)
       end.

Definition modeRank (m : VerificationMode) : nat :=
  match m with
  | VerifyUnspecified => 0 | VerifyExistingTasks => 1 | VerifyPlacementCompatibleTasks => 2
  | VerifyNewGeneration => 3
  end.

Definition serviceVerificationMode (baseline service : StackService) (unresolved : bool)
    (generation : UpdateGeneration) : VerificationMode :=
  if bool_decide (serviceID baseline = "") || negb (sameService baseline service) ||
     (UpdatedAt service <? UpdatedAt baseline)%Z
  then VerifyNewGeneration
  else
    let mode := ClassifyVerification (liveSpec baseline) (liveSpec service) in
    if bool_decide (ServiceID generation = serviceID service) &&
       (modeRank mode <? modeRank (Mode generation))%nat
    then Mode generation
    else if negb (bool_decide (mode = VerifyExistingTasks)) ||
            (negb unresolved && bool_decide (ServiceID generation = ""))
    then mode
    else match PreviousSpec service with
         | Some previous => ClassifyVerification previous (liveSpec service)
         | None => VerifyNewGeneration
         end.

Definition verificationTaskCutoff (baseline service : StackService) (mode : VerificationMode)
    (unresolved : bool) (generation : UpdateGeneration) : Time * bool :=
  if negb (bool_decide (mode = VerifyNewGeneration)) then (time_zero, false)
  else if bool_decide (ServiceID generation = serviceID service) &&
          negb (is_zero (After_ generation))
  then
    let baseline := setUpdatedAt baseline (After_ generation) in
    if negb (is_zero (TasksAfter generation)) then
      match serviceUpdateStatus service with
      | None => (TasksAfter generation, false)
      | Some _ => (TasksAfter generation, (taskGenerationCutoff baseline service).2)
      end
    else taskGenerationCutoff baseline service
  else if negb unresolved || bool_decide (serviceID baseline = "") ||
          negb (sameService baseline service) ||
          negb (bool_decide (ClassifyVerification (liveSpec baseline) (liveSpec service) =
                             VerifyExistingTasks))
  then taskGenerationCutoff baseline service
  else if (UpdatedAt service <? UpdatedAt baseline)%Z then (time_zero, true)
  else if bool_decide (serviceUpdateStatus service = None) &&
          bool_decide (serviceUpdateStatus baseline = None) &&
          bool_decide (PreviousSpec service = None) && bool_decide (PreviousSpec baseline = None) &&
          bool_decide (taskForceUpdate (TaskTemplate (liveSpec service)) = 0%N) &&
          negb (is_zero (CreatedAt service))
  then (CreatedAt service, false)
  else match serviceUpdateStatus service with
       | None => (time_zero, true)
       | Some status =>
           if is_zero (updateStartedAt status) then (time_zero, true)
           else
             match PreviousSpec service with
             | Some previous =>
                 if Equal (CompareServiceTemplate (NewTaskSpec (TaskTemplate previous))
                             (TaskTemplate (liveSpec service)))
                 then taskGenerationCutoff baseline service
                 else (updateStartedAt status, false)
             | None => (updateStartedAt status, false)
             end
       end.

Definition nodeMatchesConstraints (constraints : list Constraint) (node : option SwarmkitNode) : bool :=
  match node with Some node => NodeMatches constraints node | None => false end.

(** A running task of the service template. *)
Definition matchesCurrentTask (template : TaskSpec) (cutoff : Time) (t : ServiceTask) : bool :=
  isRunning t && negb (taskCreatedAt t <? cutoff)%Z &&
  Equal (CompareServiceTemplate (taskSpec t) template).

Definition countMatchingCurrentRunningTasks (tasks : list ServiceTask) (template : TaskSpec)
    (cutoff : Time) : N := count (matchesCurrentTask template cutoff) tasks.

Definition placementCompatibleTask (template : TaskSpec) (constraints : list Constraint)
    (nodes : gmap string SwarmkitNode) (requireNodeMatch : bool) (t : ServiceTask) : bool :=
  isRunning t &&
  (let comparison := CompareServiceTemplate (taskSpec t) template in
   (Equal comparison && negb requireNodeMatch) ||
   ((Equal comparison || PlacementOnly comparison) &&
    nodeMatchesConstraints constraints (nodes !! taskNode t))).

Definition countPlacementCompatibleRunningTasks (tasks : list ServiceTask) (template : TaskSpec)
    (nodes : gmap string SwarmkitNode) (requireNodeMatch : bool) : N :=
  match templateConstraints template with
  | None => 0
  | Some constraints =>
      count (placementCompatibleTask template constraints nodes requireNodeMatch) tasks
  end.

Definition countVerifiedRunningTasks (tasks : list ServiceTask) (template : TaskSpec)
    (mode : VerificationMode) (cutoff : Time) (nodes : gmap string SwarmkitNode) : N :=
  match mode with
  | VerifyExistingTasks => countPlacementCompatibleRunningTasks tasks template nodes false
  | VerifyPlacementCompatibleTasks => countPlacementCompatibleRunningTasks tasks template nodes true
  | VerifyNewGeneration => countMatchingCurrentRunningTasks tasks template cutoff
  | VerifyUnspecified => 0
  end.

Definition runningServiceProgress (progress : ServiceProgress) (service : StackService)
    (tasks : list ServiceTask) (mode : VerificationMode) (cutoff : Time)
    (nodes : gmap string SwarmkitNode) : ServiceProgress :=
  let progress := setRunning progress
    (countVerifiedRunningTasks tasks (TaskTemplate (liveSpec service)) mode cutoff nodes) in
  match TerminalServiceTaskFailure (liveSpec service) tasks cutoff with
  | Some failed =>
      setFailedTask (setState progress ServiceFailed
        ("task failed with no restarts remaining" +:+ formatTaskDiagnostic failed)) (taskID failed)
  | None =>
      if updatePending (serviceUpdateStatus service) then
        setMessage progress (updateProgressMessage (serviceUpdateStatus service))
      else if bool_decide (Running progress = Desired progress) &&
              bool_decide (countDesiredTasks tasks = Desired progress)
      then setState progress ServiceReady "service converged"
      else setMessage progress (boundedDiagnostic ("waiting for current tasks: " +:+
             pretty (Running progress) +:+ "/" +:+ pretty (Desired progress) +:+ " running" +:+
             taskFailureDiagnostic tasks))
  end.

(** [None]: the update status decides nothing. *)
Definition terminalServiceUpdateProgress (baseline service : StackService)
    (tasks : list ServiceTask) (restored : bool) (progress : ServiceProgress)
    : option ServiceProgress :=
  match terminalUpdateFailure (serviceUpdateStatus service), serviceUpdateStatus service with
  | Some message, Some status =>
      if restored then None
      else if sameService baseline service && serviceChanged baseline service &&
              bool_decide (serviceUpdateStatus baseline = serviceUpdateStatus service) &&
              negb (UpdatedAt baseline <? updateStartedAt status)%Z
      then Some (setMessage progress ("waiting for current update status; previous update was " +:+
                   updateState status))
      else
        let task := terminalFailureTask tasks (updateMessage status)
                      (terminalTaskCutoff baseline service status) in
        Some (setFailedTask (setState progress ServiceFailed (message +:+ formatTaskDiagnostic task))
                (taskID task))
  | _, _ => None
  end.

(** ** [job.go] *)

(** [errors.New] *)
Definition newError (text : string) : fault :=
  {| faultText := text; isDeadlineExceeded := false; isUpdateDeferred := false;
     isTemporary := false |}.

Definition jobDesired (service : StackService) : N :=
  match ReplicatedJobMode (specMode (liveSpec service)) with
  | Some job => jobTotal job
  | None => (DesiredTasks service + CompletedTasks service)%N
  end.

Definition jobProgress (progress : ServiceProgress) (baseline service : StackService)
    (tasks : list ServiceTask) : ServiceProgress :=
  let progress := setMessage progress "waiting for job scheduler" in
  match JobStatus service with
  | None => progress
  | Some iteration =>
      if sameService baseline service && negb (bool_decide (liveSpec baseline = liveSpec service)) &&
         bool_decide (JobStatus baseline = Some iteration)
      then progress
      else
        let desired := jobDesired service in
        let progress := setDesired progress desired in
        match JobTaskFailure (liveSpec service) (JobStatus service) tasks with
        | Some task =>
            setFailedTask (setState progress ServiceFailed
              (boundedDiagnostic (SafeDiagnostic mask (Some (newError
                 ("job task exited without further retries" +:+ formatTaskDiagnostic task))))))
              (taskID task)
        | None =>
            if bool_decide (serviceMode service = globalJobServiceMode) && bool_decide (desired = 0%N)
            then progress
            else if (desired <=? CompletedTasks service)%N
            then setState progress ServiceReady "service job completed"
            else setMessage progress ("waiting for job completion: " +:+
                   pretty (CompletedTasks service) +:+ "/" +:+ pretty desired +:+ " completed")
        end
  end.

(** ** [evaluateService] *)
Definition specificationMetadataPending (baseline reference service : StackService)
    (generation : UpdateGeneration) : bool :=
  (negb (bool_decide (ServiceID generation = "")) &&
   negb (bool_decide (ServiceID generation = serviceID service))) ||
  (sameService baseline service && (UpdatedAt service <? UpdatedAt baseline)%Z) ||
  (sameService reference service && (UpdatedAt service <? UpdatedAt reference)%Z) ||
  (bool_decide (ServiceID generation = serviceID service) &&
   negb (After_ generation <? UpdatedAt service)%Z).

(** The reference of a receipt: the service as the write found it. *)
Definition generationReference (baseline : StackService) (generation : UpdateGeneration)
    : StackService :=
  if bool_decide (ServiceID generation = "") then baseline
  else setUpdatedAt (setServiceID baseline (ServiceID generation)) (After_ generation).

(** The persisted boundary before the write survives a baseline captured after
    it. *)
Definition generationBaseline (baseline service : StackService) (generation : UpdateGeneration)
    : StackService :=
  if bool_decide (ServiceID generation = serviceID service) && negb (is_zero (After_ generation))
  then setUpdatedAt baseline (After_ generation) else baseline.

Definition isJobMode (mode : string) : bool :=
  bool_decide (mode = replicatedJobServiceMode) || bool_decide (mode = globalJobServiceMode).
Definition isServiceMode (mode : string) : bool :=
  bool_decide (mode = replicatedServiceMode) || bool_decide (mode = globalServiceMode).

(** The verification of a replicated or global service, after its update status
    and specification were accepted. *)
Definition evaluateTasks (progress : ServiceProgress) (baseline service : StackService)
    (tasks : list ServiceTask) (unresolved : bool) (nodes : gmap string SwarmkitNode)
    (generation : UpdateGeneration) : ServiceProgress :=
  let mode := serviceVerificationMode baseline service unresolved generation in
  let desired := observedDesiredTasks service tasks in
  let progress := setDesired progress desired in
  if globalSchedulerPending baseline service desired then
    setMessage progress "waiting for global scheduler to create tasks"
  else if bool_decide (desired = 0%N) then zeroDesiredProgress progress tasks
  else
    let '(cutoff, generationPending) :=
      verificationTaskCutoff baseline service mode unresolved generation in
    if generationPending : bool then setMessage progress waitingForUpdateStatus
    else runningServiceProgress progress service tasks mode cutoff nodes.

Definition evaluateService (name : string) (baseline service : StackService)
    (tasks : list ServiceTask) (unresolved : bool) (expected : ServiceSpec)
    (nodes : gmap string SwarmkitNode) (generation : UpdateGeneration) : ServiceProgress :=
  if bool_decide (serviceID service = "") then
    setMessage (pendingProgress "" name 0) "waiting for service to appear"
  else
    let progress := pendingProgress (serviceID service) name (serviceDesiredTasks service) in
    let restored := restoredCompletedRollback baseline service expected in
    let generation := if restored then noGeneration else generation in
    let reference := generationReference baseline generation in
    if specificationMetadataPending baseline reference service generation then
      setMessage progress "waiting for current service metadata"
    else
      let baseline := generationBaseline baseline service generation in
      match terminalServiceUpdateProgress baseline service tasks restored progress with
      | Some progress => progress
      | None =>
          if negb (bool_decide (Name (specAnnotations expected) = "")) &&
             negb (SpecsEqual (liveSpec service) expected)
          then setMessage progress "waiting for expected service specification"
          else if isJobMode (serviceMode service) then jobProgress progress baseline service tasks
          else if negb (isServiceMode (serviceMode service)) then
            setState progress ServiceFailed
              (boundedDiagnostic ("unsupported service mode " +:+ quoted (serviceMode service)))
          else evaluateTasks progress baseline service tasks (unresolved && negb restored) nodes
                 generation
      end.

(** ** [specification.go]: services whose replicas are managed elsewhere *)
Definition specificationStatusPending (reference service : StackService) (unresolved applied : bool)
    : bool :=
  match serviceUpdateStatus service with
  | None => false
  | Some status =>
      if is_zero (updateStartedAt status) || (UpdatedAt service <? updateStartedAt status)%Z then true
      else if negb (sameService reference service) then false
      else if unresolved && negb applied then
        match serviceUpdateStatus reference with
        | Some previous => (updateStartedAt status <? updateStartedAt previous)%Z
        | None => false
        end
      else negb (UpdatedAt reference <? updateStartedAt status)%Z
  end.

Definition desiredTasksFromGeneration (service : StackService) (tasks : list ServiceTask)
    (cutoff : Time) : bool :=
  if is_zero cutoff || negb (bool_decide (countDesiredTasks tasks = serviceDesiredTasks service))
  then false
  else forallb (λ t,
    negb (bool_decide (DesiredState t = TaskStateRunning) &&
          ((taskCreatedAt t <? cutoff)%Z ||
           negb (Equal (CompareServiceTemplate (taskSpec t) (TaskTemplate (liveSpec service)))))))
    tasks.

Definition specificationRolloutPending (baseline service : StackService) (mode : VerificationMode)
    (unresolved : bool) (generation : UpdateGeneration) (tasks : list ServiceTask) : bool :=
  if negb (sameService baseline service) || bool_decide (serviceDesiredTasks service = 0%N) ||
     negb (bool_decide (mode = VerifyNewGeneration))
  then updatePending (serviceUpdateStatus service)
  else
    let '(cutoff, pending) := verificationTaskCutoff baseline service mode unresolved generation in
    if pending : bool then true
    else match serviceUpdateStatus service with
         | None =>
             negb (bool_decide (cutoff = CreatedAt service)) &&
             negb (desiredTasksFromGeneration service tasks (TasksAfter generation))
         | Some status => negb (bool_decide (updateState status = ServiceUpdateStateCompleted))
         end.

Definition specificationProgress (name : string) (baseline service : StackService)
    (unresolved : bool) (expected : ServiceSpec) (generation : UpdateGeneration)
    (tasks : list ServiceTask) : ServiceProgress :=
  let progress :=
    {| progressID := serviceID service; progressName := name; progressState := ServicePending;
       Desired := serviceDesiredTasks service; Running := 0; SpecificationOnly := true;
       FailedTaskID := ""; Message := "" |} in
  if bool_decide (serviceID service = "") then setMessage progress "waiting for service to appear"
  else
    let generated := negb (bool_decide (ServiceID generation = "")) in
    let reference :=
      if generated
      then setLiveForce (generationReference baseline generation) (ForceUpdate generation)
      else baseline in
    if specificationMetadataPending baseline reference service generation then
      setMessage progress "waiting for current service metadata"
    else
      let ownUpdate := generated || unresolved || negb (sameService baseline service) ||
                       negb (SpecsEqual (liveSpec baseline) expected) in
      let mode := serviceVerificationMode baseline service unresolved generation in
      if ownUpdate && bool_decide (mode = VerifyNewGeneration) &&
         specificationStatusPending reference service unresolved generated
      then setMessage progress waitingForUpdateStatus
      else
        let externalExecution :=
          negb (bool_decide (taskForceUpdate (TaskTemplate (liveSpec service)) =
                             taskForceUpdate (TaskTemplate (liveSpec reference)))) in
        match (if ownUpdate && negb externalExecution
               then terminalUpdateFailure (serviceUpdateStatus service) else None) with
        | Some message => setState progress ServiceFailed message
        | None =>
            if negb (SpecsEqual (liveSpec service) expected) then
              setMessage progress "waiting for expected service specification"
            else if ownUpdate && negb externalExecution &&
                    specificationRolloutPending baseline service mode unresolved generation tasks
            then setMessage progress waitingForUpdateStatus
            else setState progress ServiceReady
              "service specification accepted; task health not verified (externally managed replicas)"
        end.
End Evaluation.

(** ** Errors and the environment *)

(** An error of the Docker API: whether it is temporary or a timeout, and its
    text. *)
Record apiError := { temporary : bool; apiText : string }.

(** An error of the waiter: whether [errors.Is] finds [ErrConvergenceFailed] in
    it, whether it is a transient Docker API error, and its text. *)
Record waitError := { isConvergenceFailed : bool; isTransient : bool; errorText : string }.

Definition wrapAPI (prefix : string) (e : apiError) : waitError :=
  {| isConvergenceFailed := false; isTransient := temporary e;
     errorText := prefix +:+ ": " +:+ apiText e |}.

(** [errors.Join]: nil for no error. *)
Definition joinErrors (errs : list waitError) : option waitError :=
  match errs with
  | [] => None
  | _ =>
      Some {| isConvergenceFailed := existsb isConvergenceFailed errs;
              isTransient := existsb isTransient errs;
              errorText := join_strings (String (Ascii.ascii_of_N 10) EmptyString)
                             (map errorText errs) |}
  end.

(** What the waiter asks: the Docker API, the state of its context, and the
    [select] of the context against the next tick, which returns the cause when
    the context is done. *)
Class WaitEnvironment (W : Type) := {
  ListServices : string → W → Result apiError (list StackService) * W;
  ListTasks : string → W → Result apiError (list ServiceTask) * W;
  ListNodes : W → Result apiError (list Node) * W;
  ctxErr : W → option string;
  selectNext : W → option string * W;
}.

Record ServiceWaitRequest := {
  StackName : string; ServiceNames : list string; Baseline : list StackService;
  AppliedServices : list string; UnresolvedServices : list string;
  ExpectedSpecs : gmap string ServiceSpec; UpdateGenerations : gmap string UpdateGeneration;
}.

Record ServiceWaitResult := {
  SpecificationOnlyServices : list string; FailedTasks : list ServiceProgress;
  ResultUnresolved : list string;
}.

(** [emitted] is what the progress callback was called with. *)
Record waitState := {
  targets : list string; last : gmap string ServiceProgress;
  failedTasks : gmap string ServiceProgress; lastObservationError : option waitError;
  terminalFailure : option waitError; emitted : list ServiceProgress;
}.

Definition setProgress (s : waitState) (l f : gmap string ServiceProgress)
    (e : list ServiceProgress) : waitState :=
  {| targets := targets s; last := l; failedTasks := f;
     lastObservationError := lastObservationError s; terminalFailure := terminalFailure s;
     emitted := e |}.
Definition setObservationError (s : waitState) (e : option waitError) : waitState :=
  {| targets := targets s; last := last s; failedTasks := failedTasks s;
     lastObservationError := e; terminalFailure := terminalFailure s; emitted := emitted s |}.
Definition setTerminalFailure (s : waitState) (e : option waitError) : waitState :=
  {| targets := targets s; last := last s; failedTasks := failedTasks s;
     lastObservationError := lastObservationError s; terminalFailure := e; emitted := emitted s |}.

(** ** [state.go] *)
Definition emit (s : waitState) (p : ServiceProgress) : waitState :=
  if bool_decide (last s !! progressName p = Some p) then s
  else setProgress s (<[progressName p := p]> (last s))
         (if bool_decide (progressState p = ServiceFailed) &&
             negb (bool_decide (FailedTaskID p = ""))
          then <[progressName p := p]> (failedTasks s) else failedTasks s)
         (emitted s ++ [p]).

Definition sortedProgressNames (m : gmap string ServiceProgress) : list string :=
  sort_strings (map_to_list m).*1.

Definition isPending (p : ServiceProgress) : bool := bool_decide (progressState p = ServicePending).

Definition failPending (s : waitState) (cause : string) : waitState :=
  foldl (λ s name,
    match last s !! name with
    | Some p =>
        if isPending p then
          emit s (setState p ServiceFailed (boundedDiagnostic
            ("wait failed: " +:+ cause +:+ "; last state: " +:+ Message p)))
        else s
    | None => s
    end) s (sortedProgressNames (last s)).

Definition retryPending (s : waitState) (names : list string) (cause : waitError) : waitState :=
  foldl (λ s name,
    let progress := default (pendingProgress "" name 0) (last s !! name) in
    if negb (isPending progress) then s
    else emit s (setMessage progress (boundedDiagnostic
           ("temporary Docker API error; retrying: " +:+ errorText cause))))
    (setObservationError s (Some cause)) names.

Definition isReady (p : ServiceProgress) : bool := bool_decide (progressState p = ServiceReady).

(** [waitInterruptedError] *)
Definition waitInterruptedError (stackName : string) (s : waitState) (cause : string) : waitError :=
  let pending := omap (λ name,
    match last s !! name with
    | Some p =>
        if isReady p then None
        else Some (name +:+ " (" +:+ pretty (Running p) +:+ "/" +:+ pretty (Desired p) +:+
                   " running: " +:+ Message p +:+ ")")
    | None => None
    end) (sortedProgressNames (last s)) in
  let diagnostic := join_strings "; " pending in
  let diagnostic :=
    match lastObservationError s with
    | Some e => diagnostic +:+ (if bool_decide (diagnostic = "") then "" else "; ") +:+
                "last Docker API error: " +:+ errorText e
    | None => diagnostic
    end in
  {| isConvergenceFailed := false; isTransient := false;
     errorText := "wait for services in stack " +:+ stackName +:+ ": " +:+ cause +:+ ": " +:+
                  diagnostic |}.

Definition lastProgress (s : waitState) (name : string) : ServiceProgress :=
  default noProgress (last s !! name).

Definition result (s : waitState) : ServiceWaitResult :=
  {| SpecificationOnlyServices :=
       filter (λ name, isReady (lastProgress s name) && SpecificationOnly (lastProgress s name) = true)
         (targets s);
     FailedTasks := omap (λ name, failedTasks s !! name) (sortedProgressNames (failedTasks s));
     ResultUnresolved := filter (λ name, isReady (lastProgress s name) = false) (targets s) |}.

(** ** [observation.go] and [service.go] *)
Section Waiting.
Context `{DockerSDK, PlacementConstraints} (mask : string → string) {W : Type} `{WaitEnvironment W}.

(** A progress, an error beside it, and the environment reached. *)
Definition Observation : Type := ServiceProgress * option waitError * W.

(** When a later write cleared the rollout status, task creation supplies the
    missing evidence; [None] when the tasks are not listed. *)
Definition generationTasks (service : StackService) (generation : UpdateGeneration) (w : W)
    : Result apiError (option (list ServiceTask)) * W :=
  if bool_decide (serviceUpdateStatus service = None) && negb (is_zero (TasksAfter generation)) then
    match ListTasks (serviceID service) w with
    | (Ok tasks, w) => (Ok (Some tasks), w)
    | (Err e, w) => (Err e, w)
    end
  else (Ok None, w).

(** Diagnostics are best effort. *)
Definition diagnosticTasks (service : StackService) (tasks : option (list ServiceTask)) (w : W)
    : list ServiceTask * W :=
  match tasks with
  | Some tasks => (tasks, w)
  | None =>
      match ListTasks (serviceID service) w with
      | (Ok tasks, w) => (tasks, w)
      | (Err _, w) => ([], w)
      end
  end.

Definition observeExternalService (name : string) (baseline service : StackService)
    (unresolved : bool) (expected : ServiceSpec) (generation : UpdateGeneration) (w : W)
    : Observation :=
  match generationTasks service generation w with
  | (Err e, w) =>
      (noProgress, Some {| isConvergenceFailed := false; isTransient := temporary e;
                           errorText := apiText e |}, w)
  | (Ok tasks, w) =>
      let progress := specificationProgress name baseline service unresolved expected generation
                        (default [] tasks) in
      if isPending progress then (progress, None, w)
      else
        let '(tasks, w) := diagnosticTasks service tasks w in
        let progress := setRunning progress (countCurrentRunningTasks tasks false time_zero) in
        match progressState progress, serviceUpdateStatus service with
        | ServiceFailed, Some status =>
            let baseline := generationBaseline baseline service generation in
            let task := terminalFailureTask tasks (updateMessage status)
                          (terminalTaskCutoff baseline service status) in
            (setFailedTask (setMessage progress (Message progress +:+ formatTaskDiagnostic task))
               (taskID task), None, w)
        | _, _ => (progress, None, w)
        end
  end.

(** Whether the placement of a running task has to be checked against its node. *)
Definition needsNodes (mode : VerificationMode) (service : StackService) (tasks : list ServiceTask)
    : bool :=
  (bool_decide (mode = VerifyExistingTasks) || bool_decide (mode = VerifyPlacementCompatibleTasks)) &&
  existsb (λ t,
    let comparison := CompareServiceTemplate (taskSpec t) (TaskTemplate (liveSpec service)) in
    isRunning t && (PlacementOnly comparison ||
      (bool_decide (mode = VerifyPlacementCompatibleTasks) && Equal comparison))) tasks.

Definition placementNodesByID (nodes : list Node) : gmap string SwarmkitNode :=
  foldl (λ m n, <[nodeID n := ConstraintNode n]> m) ∅ nodes.

Definition resolvedGeneration (service : StackService) (generation : UpdateGeneration)
    : UpdateGeneration :=
  if bool_decide (ServiceID generation = serviceID service)
  then ResolveUpdateGeneration generation (PreviousSpec service) (liveSpec service)
  else generation.

Definition isKnownMode (mode : string) : bool := isServiceMode mode || isJobMode mode.

(** A service whose replicas swarm-deploy manages. *)
Definition observeManagedService (name : string) (baseline service : StackService)
    (unresolved : bool) (expected : ServiceSpec) (generation : UpdateGeneration) (w : W)
    : Observation :=
  let progress := evaluateService mask name baseline service [] unresolved expected ∅ generation in
  if bool_decide (serviceID service = "") then (progress, None, w)
  else
    let terminal :=
      bool_decide (is_Some (terminalUpdateFailure (serviceUpdateStatus service))) &&
      negb (restoredCompletedRollback baseline service expected) in
    if terminal && negb (bool_decide (progressState progress = ServiceFailed)) then (progress, None, w)
    else if negb terminal && negb (isKnownMode (serviceMode service)) then (progress, None, w)
    else
      match ListTasks (serviceID service) w with
      | (Err e, w) =>
          if terminal
          then (setMessage progress (Message progress +:+ "; task diagnostics unavailable"), None, w)
          else (setState progress ServicePending (boundedDiagnostic ("list tasks: " +:+ apiText e)),
                Some (wrapAPI ("list tasks for service " +:+ name) e), w)
      | (Ok tasks, w) =>
          let mode := serviceVerificationMode baseline service unresolved generation in
          if needsNodes mode service tasks then
            match ListNodes w with
            | (Err e, w) =>
                (setState progress ServicePending (boundedDiagnostic ("list nodes: " +:+ apiText e)),
                 Some (wrapAPI ("list nodes for service " +:+ name +:+ " placement") e), w)
            | (Ok nodes, w) =>
                (evaluateService mask name baseline service tasks unresolved expected
                   (placementNodesByID nodes) generation, None, w)
            end
          else
            (evaluateService mask name baseline service tasks unresolved expected ∅ generation,
             None, w)
      end.

Definition observeService (name : string) (baseline service : StackService) (unresolved : bool)
    (expected : ServiceSpec) (generation : UpdateGeneration) (w : W) : Observation :=
  let generation := resolvedGeneration service generation in
  match ReplicasManaged expected with
  | None =>
      (pendingProgress "" name 0,
       Some {| isConvergenceFailed := false; isTransient := false;
               errorText := "service " +:+ name +:+ " replicas ownership" |}, w)
  | Some false => observeExternalService name baseline service unresolved expected generation w
  | Some true => observeManagedService name baseline service unresolved expected generation w
  end.

Definition servicesByName (services : list StackService) : gmap string StackService :=
  foldl (λ m s, <[serviceName s := s]> m) ∅ services.

Definition serviceAt (m : gmap string StackService) (name : string) : StackService :=
  default noService (m !! name).

(** Docker may still return the service as it was before the apply. *)
Definition staleRead (request : ServiceWaitRequest) (baseline service : StackService) (name : string)
    : bool :=
  bool_decide (name ∈ AppliedServices request) &&
  negb (bool_decide (serviceID baseline = "")) && negb (serviceChanged baseline service).

Definition convergenceFailure (name : string) (p : ServiceProgress) : waitError :=
  {| isConvergenceFailed := true; isTransient := false;
     errorText := "service convergence failed: service " +:+ name +:+ " failed to converge: " +:+
                  Message p |}.

Definition observeTarget (request : ServiceWaitRequest) (baseline current : gmap string StackService)
    (name : string) (w : W) : Observation :=
  observeService name (serviceAt baseline name) (serviceAt current name)
    (bool_decide (name ∈ UnresolvedServices request))
    (default noServiceSpec (ExpectedSpecs request !! name))
    (default noGeneration (UpdateGenerations request !! name)) w.

Fixpoint observeEach (request : ServiceWaitRequest) (baseline current : gmap string StackService)
    (names : list string) (allReady : bool) (failures : list waitError) (s : waitState) (w : W)
    : bool * option waitError * waitState * W :=
  match names with
  | [] => (allReady, joinErrors failures, s, w)
  | name :: names =>
      if staleRead request (serviceAt baseline name) (serviceAt current name) name then
        observeEach request baseline current names false failures
          (emit s (setMessage (pendingProgress "" name 0) "waiting for applied service version")) w
      else
        let '(progress, err, w) := observeTarget request baseline current name w in
        let s := emit s progress in
        match err with
        | Some e => (false, joinErrors (failures ++ [e]), s, w)
        | None =>
            match progressState progress with
            | ServiceFailed =>
                observeEach request baseline current names allReady
                  (failures ++ [convergenceFailure name progress]) s w
            | ServiceReady => observeEach request baseline current names allReady failures s w
            | _ => observeEach request baseline current names false failures s w
            end
        end
  end.

Definition observeTargets (request : ServiceWaitRequest) (baseline current : gmap string StackService)
    (s : waitState) (w : W) : bool * option waitError * waitState * W :=
  observeEach request baseline current (targets s) true [] s w.

Definition poll (request : ServiceWaitRequest) (baseline : gmap string StackService)
    (s : waitState) (w : W) : bool * option waitError * waitState * W :=
  match ListServices (StackName request) w with
  | (Err e, w) =>
      (false, Some (wrapAPI ("snapshot services for stack " +:+ StackName request) e), s, w)
  | (Ok current, w) => observeTargets request baseline (servicesByName current) s w
  end.

(** The error the wait ends with, or [None] to poll again. *)
Definition handleObservationError (request : ServiceWaitRequest) (cause : waitError)
    (s : waitState) (w : W) : option waitError * waitState :=
  match ctxErr w with
  | Some reason =>
      let s := failPending s reason in
      (Some (waitInterruptedError (StackName request) s reason), s)
  | None =>
      if isTransient cause then (None, retryPending s (targets s) cause)
      else (Some cause, failPending s (errorText cause))
  end.

Definition joinTerminal (s : waitState) (e : waitError) : option waitError :=
  joinErrors (option_list (terminalFailure s) ++ [e]).

(** One turn of the loop: the verdict, or the state to poll again with. *)
Definition waitOnce (request : ServiceWaitRequest) (baseline : gmap string StackService)
    (s : waitState) (w : W) : option (option waitError) * waitState * W :=
  let '(allReady, observeErr, s, w) := poll request baseline s w in
  match observeErr with
  | Some e =>
      if isConvergenceFailed e then
        let s := setTerminalFailure s (Some e) in
        (if allReady : bool then Some (Some e) else None, s, w)
      else
        let '(waitErr, s) := handleObservationError request e s w in
        (match waitErr with Some we => Some (joinTerminal s we) | None => None end, s, w)
  | None => (if allReady : bool then Some (terminalFailure s) else None, s, w)
  end.

(** The polling loop; [None] when the fuel runs out. *)
Fixpoint waitLoop (fuel : nat) (request : ServiceWaitRequest) (baseline : gmap string StackService)
    (s : waitState) (w : W) : option (option waitError * waitState * W) :=
  match fuel with
  | O => None
  | S fuel =>
      match waitOnce request baseline s w with
      | (Some verdict, s, w) => Some (verdict, s, w)
      | (None, s, w) =>
          match selectNext w with
          | (Some cause, w) =>
              let s := failPending s cause in
              Some (joinTerminal s (waitInterruptedError (StackName request) s cause), s, w)
          | (None, w) => waitLoop fuel request baseline s w
          end
      end
  end.

Definition uniqueSortedNames (names : list string) : list string :=
  sort_strings (remove_dups (filter (λ name, name ≠ "") names)).

Definition newWaitState (names : list string) : waitState :=
  {| targets := names; last := ∅; failedTasks := ∅; lastObservationError := None;
     terminalFailure := None; emitted := [] |}.

Definition Wait (fuel : nat) (request : ServiceWaitRequest) (w : W)
    : option (ServiceWaitResult * option waitError * waitState * W) :=
  let s := newWaitState (uniqueSortedNames (ServiceNames request)) in
  match targets s with
  | [] => Some (result s, None, s, w)
  | _ =>
      match waitLoop fuel request (servicesByName (Baseline request)) s w with
      | Some (err, s, w) => Some (result s, err, s, w)
      | None => None
      end
  end.
End Waiting.
