(* ===== verification/WaiterConvergence.v ===== *)
(** * What the verdict of the convergence waiter means

    A service is reported ready only when its tasks prove it, a wait succeeds
    only when every target was ready in one snapshot, an observed terminal
    failure is never forgotten, and the wait ends with its timeout. *)
From S2P Require Import Prelude GoStrings TaskSpecs Deployments ServiceSpecs TaskFailure Waiter.

(** ** Counting tasks *)
Lemma count_all p q tasks :
  (∀ t, p t = true → q t = true) → count p tasks = count q tasks →
  ∀ t, t ∈ tasks → q t = true → p t = true.
Proof.
  unfold count. intros Hpq Heq%(inj N.of_nat). revert Heq.
  assert (∀ l, (length (filter (λ t, p t = true) l) ≤ length (filter (λ t, q t = true) l))%nat) as Hle.
  { intros l. induction l as [|t l IH]; [done|]. rewrite !filter_cons.
    repeat case_decide; simpl; try lia. naive_solver. }
  induction tasks as [|t tasks IH]; intros Heq x Hx Hq; [set_solver|].
  specialize (Hle tasks). rewrite !filter_cons in Heq.
  repeat case_decide; simpl in Heq; try lia; apply elem_of_cons in Hx as [->|Hx]; try done;
    try (by naive_solver); apply IH; auto; lia.
Qed.

Section Ready.
Context `{DockerSDK, PlacementConstraints} (mask : string → string).

(** The proof a task gives for its service, by verification mode. *)
Definition provesTask (service : StackService) (mode : VerificationMode) (cutoff : Time)
    (nodes : gmap string SwarmkitNode) (t : ServiceTask) : Prop :=
  let template := TaskTemplate (liveSpec service) in
  let c := CompareServiceTemplate (taskSpec t) template in
  CurrentState t = TaskStateRunning ∧
  match mode with
  | VerifyNewGeneration => (cutoff ≤ taskCreatedAt t)%Z ∧ taskSpec t = normalizeTaskSpec template
  | VerifyExistingTasks | VerifyPlacementCompatibleTasks =>
      (mode = VerifyExistingTasks ∧ taskSpec t = normalizeTaskSpec template) ∨
      ((taskSpec t = normalizeTaskSpec template ∨ PlacementOnly c = true) ∧
       ∃ constraints node, templateConstraints template = Some constraints ∧
         nodes !! taskNode t = Some node ∧ NodeMatches constraints node = true)
  | VerifyUnspecified => False
  end.

Lemma isRunning_desired t :
  isRunning t = true → bool_decide (DesiredState t = TaskStateRunning) = true.
Proof. unfold isRunning. by intros [? _]%andb_true_iff. Qed.

Lemma isRunning_current t : isRunning t = true → CurrentState t = TaskStateRunning.
Proof. unfold isRunning. by intros [_ ?%bool_decide_eq_true]%andb_true_iff. Qed.

(** When as many tasks are verified as are desired, every desired task is. *)
Lemma verified_tasks service tasks mode cutoff nodes t :
  countVerifiedRunningTasks tasks (TaskTemplate (liveSpec service)) mode cutoff nodes =
    countDesiredTasks tasks →
  countDesiredTasks tasks ≠ 0%N →
  t ∈ tasks → DesiredState t = TaskStateRunning → provesTask service mode cutoff nodes t.
Proof.
  intros Hcount Hne Ht Hd%(bool_decide_eq_true_2 _).
  assert (∀ b, countPlacementCompatibleRunningTasks tasks (TaskTemplate (liveSpec service)) nodes b =
      countDesiredTasks tasks →
    ∃ constraints, templateConstraints (TaskTemplate (liveSpec service)) = Some constraints ∧
      placementCompatibleTask (TaskTemplate (liveSpec service)) constraints nodes b t = true) as Hplace.
  { intros b. unfold countPlacementCompatibleRunningTasks.
    destruct (templateConstraints _) as [cs|]; [|intros Heq; by destruct Hne]. intros Hc. exists cs. split; [done|].
    eapply count_all; [|exact Hc|done|done]. unfold placementCompatibleTask.
    intros x [Hx _]%andb_true_iff. by apply isRunning_desired. }
  unfold provesTask. destruct mode; simpl in Hcount.
  - by destruct Hne.
  - destruct (Hplace _ Hcount) as (cs & Hcs & Hp). unfold placementCompatibleTask in Hp.
    apply andb_true_iff in Hp as [Hrun Hp]. split; [by apply isRunning_current|].
    apply orb_true_iff in Hp as [Hp|Hp]; apply andb_true_iff in Hp as [Hp Hn].
    + left. by apply Equal_spec in Hp.
    + right. apply orb_true_iff in Hp. rewrite Equal_spec in Hp. split; [done|].
      unfold nodeMatchesConstraints in Hn. destruct (nodes !! taskNode t) as [n|]; [|done]. eauto.
  - destruct (Hplace _ Hcount) as (cs & Hcs & Hp). unfold placementCompatibleTask in Hp.
    apply andb_true_iff in Hp as [Hrun Hp]. split; [by apply isRunning_current|].
    rewrite andb_false_r in Hp. simpl in Hp. apply andb_true_iff in Hp as [Hp Hn].
    right. apply orb_true_iff in Hp. rewrite Equal_spec in Hp. split; [done|].
    unfold nodeMatchesConstraints in Hn. destruct (nodes !! taskNode t) as [n|]; [|done]. eauto.
  - assert (matchesCurrentTask (TaskTemplate (liveSpec service)) cutoff t = true) as Hm.
    { eapply count_all; [|exact Hcount|done|done]. unfold matchesCurrentTask.
      intros x [[Hx _]%andb_true_iff _]%andb_true_iff. by apply isRunning_desired. }
    unfold matchesCurrentTask in Hm. apply andb_true_iff in Hm as [Hm He].
    apply andb_true_iff in Hm as [Hrun Hcut]. apply Equal_spec in He.
    apply negb_true_iff, Z.ltb_ge in Hcut. split_and!; [by apply isRunning_current|done|done].
Qed.

(** What ready means for a replicated or global service. *)
Definition tasksConverged (baseline service : StackService) (tasks : list ServiceTask)
    (unresolved : bool) (nodes : gmap string SwarmkitNode) (generation : UpdateGeneration) : Prop :=
  let mode := serviceVerificationMode baseline service unresolved generation in
  let desired := observedDesiredTasks service tasks in
  (desired = 0%N ∧ countActiveTasks tasks = 0%N) ∨
  (desired ≠ 0%N ∧ countDesiredTasks tasks = desired ∧
   updatePending (serviceUpdateStatus service) = false ∧
   ∃ cutoff, verificationTaskCutoff baseline service mode unresolved generation = (cutoff, false) ∧
     TerminalServiceTaskFailure (liveSpec service) tasks cutoff = None ∧
     ∀ t, t ∈ tasks → DesiredState t = TaskStateRunning →
       provesTask service mode cutoff nodes t).

(** What ready means for a job. *)
Definition jobCompleted (service : StackService) (tasks : list ServiceTask) : Prop :=
  is_Some (JobStatus service) ∧ JobTaskFailure (liveSpec service) (JobStatus service) tasks = None ∧
  (jobDesired service ≤ CompletedTasks service)%N.

Lemma runningServiceProgress_ready p service tasks mode cutoff nodes :
  progressState p = ServicePending → Desired p ≠ 0%N →
  progressState (runningServiceProgress p service tasks mode cutoff nodes) = ServiceReady →
  countDesiredTasks tasks = Desired p ∧ updatePending (serviceUpdateStatus service) = false ∧
  TerminalServiceTaskFailure (liveSpec service) tasks cutoff = None ∧
  ∀ t, t ∈ tasks → DesiredState t = TaskStateRunning → provesTask service mode cutoff nodes t.
Proof.
  intros Hp Hne. unfold runningServiceProgress.
  destruct (TerminalServiceTaskFailure _ _ _); [done|].
  destruct (updatePending _) eqn:Hu; [simpl; congruence|].
  case_bool_decide as Hr; simpl in *; [|simpl; congruence].
  case_bool_decide as Hd; simpl; [|congruence]. intros _. split_and!; [done..|].
  intros t. apply verified_tasks; congruence.
Qed.

Lemma evaluateTasks_ready p baseline service tasks unresolved nodes generation :
  progressState p = ServicePending →
  progressState (evaluateTasks p baseline service tasks unresolved nodes generation) = ServiceReady →
  tasksConverged baseline service tasks unresolved nodes generation.
Proof.
  intros Hp. unfold evaluateTasks, tasksConverged.
  set (mode := serviceVerificationMode _ _ _ _). set (desired := observedDesiredTasks _ _).
  destruct (globalSchedulerPending _ _ _); [simpl; congruence|].
  case_bool_decide as Hz.
  { intros Hr. left. split; [done|]. unfold zeroDesiredProgress in Hr.
    case_bool_decide; [done|]. simpl in Hr. congruence. }
  destruct (verificationTaskCutoff _ _ _ _ _) as [cutoff []] eqn:Hc; [simpl; congruence|].
  intros Hr%runningServiceProgress_ready; [|done..]. simpl in Hr.
  destruct Hr as (Hd & Hu & Ht & Htasks). right. split_and!; [done..|]. by exists cutoff.
Qed.

Lemma jobProgress_ready p baseline service tasks :
  progressState p = ServicePending →
  progressState (jobProgress mask p baseline service tasks) = ServiceReady →
  jobCompleted service tasks.
Proof.
  intros Hp. unfold jobProgress, jobCompleted.
  destruct (JobStatus service) as [it|]; [|simpl; congruence].
  destruct (_ && _ && _); [simpl; congruence|].
  destruct (JobTaskFailure _ _ _); [done|].
  destruct (_ && _); [simpl; congruence|].
  destruct (N.leb_spec (jobDesired service) (CompletedTasks service)); [|simpl; congruence].
  intros _. split_and!; [by eexists|done|done].
Qed.

(** The verdict ready of one evaluation. *)
Lemma evaluateService_ready name baseline service tasks unresolved expected nodes generation :
  let restored := restoredCompletedRollback baseline service expected in
  let generation' := if restored then noGeneration else generation in
  progressState (evaluateService mask name baseline service tasks unresolved expected nodes generation)
    = ServiceReady →
  serviceID service ≠ "" ∧
  (Name (specAnnotations expected) ≠ "" → SpecsEqual (liveSpec service) expected = true) ∧
  (restored = false → terminalUpdateFailure (serviceUpdateStatus service) = None) ∧
  ((isJobMode (serviceMode service) = true ∧ jobCompleted service tasks) ∨
   (isServiceMode (serviceMode service) = true ∧
    tasksConverged (generationBaseline baseline service generation') service tasks
      (unresolved && negb restored) nodes generation')).
Proof.
  intros restored generation'. unfold evaluateService.
  case_bool_decide as Hid; [done|]. fold restored. fold generation'.
  destruct (specificationMetadataPending _ _ _ _); [done|].
  set (baseline' := generationBaseline _ _ _).
  destruct (terminalServiceUpdateProgress _ _ _ _ _) as [p|] eqn:Hterm.
  { intros Hr. exfalso. revert Hterm Hr. unfold terminalServiceUpdateProgress.
    destruct (terminalUpdateFailure _), (serviceUpdateStatus service); try done.
    destruct restored; [done|]. destruct (_ && _ && _ && _); by intros [= <-]. }
  destruct (negb (bool_decide (Name _ = "")) && negb (SpecsEqual _ _)) eqn:Hspec; [done|].
  intros Hr. split_and!; [done| | |].
  - intros Hname. rewrite bool_decide_false in Hspec by done. simpl in Hspec.
    by apply negb_false_iff in Hspec.
  - intros Hres. unfold terminalServiceUpdateProgress in Hterm. rewrite Hres in Hterm.
    destruct (terminalUpdateFailure (serviceUpdateStatus service)) eqn:Hu; [|done]. exfalso.
    destruct (serviceUpdateStatus service); [|done]. by destruct (_ && _ && _ && _).
  - destruct (isJobMode (serviceMode service)).
    + left. split; [done|]. by apply jobProgress_ready in Hr.
    + destruct (isServiceMode (serviceMode service)); [|done]. simpl in Hr. right.
      split; [done|]. by apply evaluateTasks_ready in Hr.
Qed.
End Ready.

(** ** Progress records keep their name *)
Section Names.
Context `{DockerSDK, PlacementConstraints} (mask : string → string).

Lemma evaluateTasks_name p baseline service tasks unresolved nodes generation :
  progressName (evaluateTasks p baseline service tasks unresolved nodes generation) = progressName p.
Proof.
  unfold evaluateTasks, zeroDesiredProgress, runningServiceProgress.
  destruct (verificationTaskCutoff _ _ _ _ _) as [? []]; repeat case_match; done.
Qed.

Lemma evaluateService_name name baseline service tasks unresolved expected nodes generation :
  progressName (evaluateService mask name baseline service tasks unresolved expected nodes generation)
    = name.
Proof.
  unfold evaluateService. case_match; [done|]. case_match; [done|].
  destruct (terminalServiceUpdateProgress _ _ _ _ _) as [p|] eqn:Hp.
  { unfold terminalServiceUpdateProgress in Hp. repeat case_match; naive_solver. }
  destruct (negb (bool_decide (Name _ = "")) && negb (SpecsEqual _ _)); [done|].
  destruct (isJobMode _); [by unfold jobProgress; repeat case_match|].
  destruct (negb (isServiceMode _)); [done|]. apply evaluateTasks_name.
Qed.

Lemma specificationProgress_name name baseline service unresolved expected generation tasks :
  progressName (specificationProgress name baseline service unresolved expected generation tasks) = name.
Proof. unfold specificationProgress. repeat case_match; done. Qed.

Lemma specificationProgress_ready name baseline service unresolved expected generation tasks :
  progressState (specificationProgress name baseline service unresolved expected generation tasks)
    = ServiceReady →
  serviceID service ≠ "" ∧ SpecsEqual (liveSpec service) expected = true.
Proof.
  unfold specificationProgress. case_bool_decide; [done|].
  destruct (specificationMetadataPending _ _ _ _); [done|].
  destruct (_ && _ && specificationStatusPending _ _ _ _); [done|].
  match goal with |- context [if ?b then terminalUpdateFailure ?x else None] =>
    destruct (if b then terminalUpdateFailure x else None); [done|] end.
  by destruct (SpecsEqual (liveSpec service) expected).
Qed.

Lemma specificationProgress_known name baseline service unresolved expected generation tasks :
  progressState (specificationProgress name baseline service unresolved expected generation tasks)
    ≠ ServiceUnset.
Proof. unfold specificationProgress. repeat case_match; done. Qed.
End Names.

(** ** One poll *)
Section Polls.
Context `{DockerSDK, PlacementConstraints} (mask : string → string) {W : Type} `{WaitEnvironment W}.

(** The tasks that Docker listed for a service. *)
Definition listedTasks (service : StackService) (tasks : list ServiceTask) : Prop :=
  ∃ w w', ListTasks (serviceID service) w = (Ok tasks, w').

Lemma observeManaged_ready name baseline service unresolved expected generation w p w' :
  observeManagedService mask name baseline service unresolved expected generation w = (p, None, w') →
  progressState p = ServiceReady →
  ∃ tasks nodes, listedTasks service tasks ∧
    p = evaluateService mask name baseline service tasks unresolved expected nodes generation.
Proof.
  unfold observeManagedService. set (p0 := evaluateService _ _ _ _ [] _ _ _ _).
  assert (progressState p0 = ServiceReady →
    serviceID service ≠ "" ∧
    bool_decide (is_Some (terminalUpdateFailure (serviceUpdateStatus service))) &&
      negb (restoredCompletedRollback baseline service expected) = false ∧
    isKnownMode (serviceMode service) = true) as Hready.
  { intros (Hid & _ & Hterm & Hmode)%evaluateService_ready. split_and!; [done| |].
    - destruct (restoredCompletedRollback _ _ _); [apply andb_false_r|].
      rewrite Hterm by done. by rewrite bool_decide_false by (by intros []).
    - unfold isKnownMode. destruct Hmode as [[-> _]|[-> _]]; [apply orb_true_r|done]. }
  destruct (decide (serviceID service = "")) as [Hid|Hid].
  { rewrite bool_decide_true by done. intros [= <- _] Hr. by apply Hready in Hr as []. }
  rewrite (bool_decide_false (serviceID service = "")) by done.
  set (terminal := _ && _) in *.
  destruct (terminal && negb (bool_decide (progressState p0 = ServiceFailed))) eqn:Ht.
  { intros [= <- _] (_ & Hf & _)%Hready. by rewrite Hf in Ht. }
  destruct (negb terminal && negb (isKnownMode (serviceMode service))) eqn:Hk.
  { intros [= <- _] (_ & _ & Hm)%Hready. rewrite Hm, andb_false_r in Hk. done. }
  destruct (ListTasks (serviceID service) w) as [[tasks|e] w1] eqn:Hl.
  - assert (listedTasks service tasks) by (by exists w, w1).
    destruct (needsNodes _ _ _); [|intros [= <- _] _; by eexists _, _].
    destruct (ListNodes w1) as [[nodes|e] w2]; [|done]. intros [= <- _] _. by eexists _, _.
  - destruct terminal; [|done]. intros [= <- _]. simpl. simpl in Ht. intros Hr. by rewrite Hr in Ht.
Qed.

(** What a ready observation of a target proves. *)
Definition provenReady (request : ServiceWaitRequest) (baseline service : StackService)
    (name : string) : Prop :=
  let unresolved := bool_decide (name ∈ UnresolvedServices request) in
  let expected := default noServiceSpec (ExpectedSpecs request !! name) in
  let generation :=
    resolvedGeneration service (default noGeneration (UpdateGenerations request !! name)) in
  staleRead request baseline service name = false ∧ serviceID service ≠ "" ∧
  (is_Some (ExpectedSpecs request !! name) → Name (specAnnotations expected) ≠ "" →
   SpecsEqual (liveSpec service) expected = true) ∧
  (ReplicasManaged expected = Some true →
   let restored := restoredCompletedRollback baseline service expected in
   let generation := if restored then noGeneration else generation in
   ∃ tasks nodes, listedTasks service tasks ∧
     ((isJobMode (serviceMode service) = true ∧ jobCompleted service tasks) ∨
      (isServiceMode (serviceMode service) = true ∧
       tasksConverged (generationBaseline baseline service generation) service tasks
         (unresolved && negb restored) nodes generation))).

Lemma observeTarget_ready request baseline current name w p w' :
  staleRead request (serviceAt baseline name) (serviceAt current name) name = false →
  observeTarget mask request baseline current name w = (p, None, w') →
  progressState p = ServiceReady →
  provenReady request (serviceAt baseline name) (serviceAt current name) name.
Proof.
  intros Hstale. unfold observeTarget, observeService, provenReady.
  set (service := serviceAt current name). set (bl := serviceAt baseline name).
  set (expected := default noServiceSpec _). set (g := resolvedGeneration _ _).
  destruct (ReplicasManaged expected) as [[]|] eqn:Hm; [| |done].
  - intros Hobs Hr. destruct (observeManaged_ready _ _ _ _ _ _ _ _ _ Hobs Hr)
      as (tasks & nodes & Hl & ->).
    apply evaluateService_ready in Hr as (Hid & Hspec & _ & Hmode).
    split_and!; [done|done|by intros _|]. intros _. by exists tasks, nodes.
  - intros Hobs Hr. split; [done|].
    assert (serviceID service ≠ "" ∧ SpecsEqual (liveSpec service) expected = true) as [Hid Hspec];
      [|split_and!; [done|by intros _|done]].
    unfold observeExternalService in Hobs. revert Hobs.
    destruct (generationTasks _ _ _) as [[tasks|] w1]; [|done].
    destruct (isPending _) eqn:Hp.
    { intros [= <- _]. unfold isPending in Hp. rewrite Hr in Hp. done. }
    destruct (diagnosticTasks _ _ _) as [ts w2].
    assert (∀ n, progressState (setRunning (specificationProgress name bl service
        (bool_decide (name ∈ UnresolvedServices request)) expected g (default [] tasks)) n) =
      progressState (specificationProgress name bl service
        (bool_decide (name ∈ UnresolvedServices request)) expected g (default [] tasks))) as Hst by done.
    rewrite Hst. destruct (progressState (specificationProgress _ _ _ _ _ _ _)) eqn:Hsp;
      try (intros [= <- _]; simpl in Hr; congruence).
    + intros _. by eapply specificationProgress_ready.
    + destruct (serviceUpdateStatus service); intros [= <- _]; simpl in Hr; congruence.
Qed.
End Polls.

(** ** What emitting a progress changes *)
Definition flagged (e : option waitError) : Prop :=
  ∃ e', e = Some e' ∧ isConvergenceFailed e' = true.

(** The callback saw a failed service. *)
Definition sawFailure (s : waitState) : Prop :=
  ∃ p, p ∈ emitted s ∧ progressState p = ServiceFailed.

Section Emission.
Implicit Types (s : waitState) (p : ServiceProgress).

Lemma emit_last s p : last (emit s p) = <[progressName p := p]> (last s).
Proof.
  unfold emit. case_bool_decide as Hl; [|done]. symmetry. by apply insert_id.
Qed.
Lemma emit_targets s p : targets (emit s p) = targets s.
Proof. unfold emit. by case_bool_decide. Qed.
Lemma emit_terminal s p : terminalFailure (emit s p) = terminalFailure s.
Proof. unfold emit. by case_bool_decide. Qed.
Lemma emit_sawFailure s p :
  sawFailure (emit s p) → sawFailure s ∨ progressState p = ServiceFailed.
Proof.
  unfold emit, sawFailure. case_bool_decide; [by left|]. simpl.
  intros (q & [Hq|Hq]%elem_of_app & Hf); [by left; exists q|].
  apply list_elem_of_singleton in Hq as ->. by right.
Qed.

(** The loops that emit for many names keep the targets and the known failure. *)
Lemma foldl_kept (f : waitState → string → waitState) names s :
  (∀ s name, targets (f s name) = targets s ∧ terminalFailure (f s name) = terminalFailure s) →
  targets (foldl f s names) = targets s ∧
  terminalFailure (foldl f s names) = terminalFailure s.
Proof.
  intros Hf. revert s. induction names as [|n names IH]; intros s; [done|]. simpl.
  destruct (IH (f s n)) as [-> ->]. apply Hf.
Qed.

Lemma failPending_kept s cause :
  targets (failPending s cause) = targets s ∧
  terminalFailure (failPending s cause) = terminalFailure s.
Proof.
  apply foldl_kept. intros s' n. simpl. repeat case_match; rewrite ?emit_targets, ?emit_terminal; done.
Qed.

Lemma retryPending_kept s names cause :
  targets (retryPending s names cause) = targets s ∧
  terminalFailure (retryPending s names cause) = terminalFailure s.
Proof.
  apply (foldl_kept _ names (setObservationError s (Some cause))). intros s' n. simpl.
  case_match; rewrite ?emit_targets, ?emit_terminal; done.
Qed.

Lemma retryPending_sawFailure s names cause :
  sawFailure (retryPending s names cause) → sawFailure s.
Proof.
  unfold retryPending. change (sawFailure s) with (sawFailure (setObservationError s (Some cause))).
  generalize (setObservationError s (Some cause)). clear s.
  induction names as [|n names IH]; intros s; [done|]. simpl. intros Hs%IH.
  destruct (isPending _) eqn:Hp; simpl in Hs; [|done].
  apply emit_sawFailure in Hs as [|Hf]; [done|]. exfalso. simpl in Hf.
  unfold isPending in Hp. apply bool_decide_eq_true in Hp. congruence.
Qed.
End Emission.

(** ** The observation of all targets *)
Section Loop.
Context `{DockerSDK, PlacementConstraints} (mask : string → string) {W : Type} `{WaitEnvironment W}.

(** An observation without an error is about its target, and an observation
    with one never reports a failed service. *)
Lemma observeTarget_name request baseline current name w p w' :
  observeTarget mask request baseline current name w = (p, None, w') → progressName p = name.
Proof.
  unfold observeTarget, observeService. generalize (serviceAt current name) as service.
  intros service. destruct (ReplicasManaged _) as [[]|]; [| |done].
  - unfold observeManagedService. destruct (ListTasks _ _) as [[tasks|e] w1];
      repeat case_match; intros; simplify_eq; rewrite ?evaluateService_name; try done;
      simpl; by rewrite evaluateService_name.
  - unfold observeExternalService. destruct (generationTasks _ _ _) as [[tasks|] w1]; [|done].
    destruct (diagnosticTasks _ _ _) as [ts w2].
    case_match; [intros; simplify_eq; apply specificationProgress_name|].
    repeat case_match; intros; simplify_eq; simpl; apply specificationProgress_name.
Qed.

Lemma observeTarget_error request baseline current name w p e w' :
  observeTarget mask request baseline current name w = (p, Some e, w') →
  progressState p ≠ ServiceFailed.
Proof.
  unfold observeTarget, observeService. generalize (serviceAt current name) as service.
  intros service. destruct (ReplicasManaged _) as [[]|]; [| |by intros [= <- _ _]].
  - unfold observeManagedService. destruct (ListTasks _ _) as [[tasks|e'] w1];
      repeat case_match; intros; by simplify_eq.
  - unfold observeExternalService. destruct (generationTasks _ _ _) as [[tasks|e'] w1];
      [|by intros [= <- _ _]].
    destruct (diagnosticTasks _ _ _) as [ts w2]. repeat case_match; intros; by simplify_eq.
Qed.

(** What one pass over the targets leaves behind. *)
Lemma observeEach_failures request baseline current names allReady failures s w allReady' err s' w' :
  observeEach mask request baseline current names allReady failures s w = (allReady', err, s', w') →
  Forall (λ e, isConvergenceFailed e = true) failures →
  targets s' = targets s ∧ terminalFailure s' = terminalFailure s ∧
  (sawFailure s' → sawFailure s ∨ flagged err) ∧ (failures ≠ [] → flagged err).
Proof.
  assert (∀ fs e, Forall (λ e, isConvergenceFailed e = true) fs → fs ≠ [] →
    flagged (joinErrors (fs ++ e))) as Hjoin.
  { intros [|f fs] e Hf Hne; [done|]. inv Hf. eexists. split; [done|]. simpl.
    apply orb_true_iff. by left. }
  revert allReady failures s w. induction names as [|name names IH]; intros allReady failures s w;
    cbn [observeEach].
  { intros [= <- <- <- <-] Hf. split_and!; [done..|by left|]. intros Hne.
    rewrite <-(app_nil_r failures). by apply Hjoin. }
  destruct (staleRead _ _ _ _).
  { intros Ho Hf. apply IH in Ho as (-> & -> & Hs & Hne); [|done].
    rewrite emit_targets, emit_terminal. split_and!; [done..| |done].
    intros [[Hsaw|Hb]%emit_sawFailure|]%Hs; [by left|done|by right]. }
  destruct (observeTarget _ _ _ _ _ _) as [[p perr] w1] eqn:Ho.
  destruct perr as [e|].
  { intros [= <- <- <- <-] Hf. rewrite emit_targets, emit_terminal. split_and!; [done..| |].
    - intros [|Hb]%emit_sawFailure; [by left|]. by apply observeTarget_error in Ho.
    - intros Hne. by apply Hjoin. }
  assert (∀ allReady1, progressState p ≠ ServiceFailed →
    observeEach mask request baseline current names allReady1 failures (emit s p) w1 =
      (allReady', err, s', w') → Forall (λ e, isConvergenceFailed e = true) failures →
    targets s' = targets s ∧ terminalFailure s' = terminalFailure s ∧
    (sawFailure s' → sawFailure s ∨ flagged err) ∧ (failures ≠ [] → flagged err)) as Hgo.
  { intros ar Hp Hobs Hf. apply IH in Hobs as (-> & -> & Hs & Hne); [|done].
    rewrite emit_targets, emit_terminal. split_and!; [done..| |done].
    intros [[Hsaw|Hb]%emit_sawFailure|]%Hs; [by left|done|by right]. }
  destruct (progressState p) eqn:Hp; try (apply Hgo; by rewrite Hp).
  - by apply Hgo.
  - by apply Hgo.
  - intros Hobs Hf. apply IH in Hobs as (-> & -> & _ & Hne);
      [|apply Forall_app; by repeat constructor].
    rewrite emit_targets, emit_terminal.
    assert (flagged err) by (apply Hne; by destruct failures). split_and!; auto.
  - by apply Hgo.
Qed.

(** A pass that ends with every target ready and no error proves each of them. *)
Lemma observeEach_ready request baseline current names allReady s w s' w' :
  NoDup names →
  observeEach mask request baseline current names allReady [] s w = (true, None, s', w') →
  allReady = true ∧
  (∀ name, name ∈ names →
    provenReady request (serviceAt baseline name) (serviceAt current name) name ∧
    isReady (lastProgress s' name) = true) ∧
  (∀ name, name ∉ names → last s' !! name = last s !! name).
Proof.
  revert allReady s w. induction names as [|name names IH]; intros allReady s w Hnd;
    cbn [observeEach].
  { intros [= -> <- _]. split_and!; [done| |done]. intros ? []%not_elem_of_nil. }
  apply NoDup_cons in Hnd as [Hnot Hnd].
  destruct (staleRead _ _ _ _) eqn:Hstale; [intros Ho; by apply IH in Ho as [? _]|].
  destruct (observeTarget _ _ _ _ _ _) as [[p perr] w1] eqn:Ho. destruct perr as [e|]; [done|].
  pose proof (observeTarget_name _ _ _ _ _ _ _ Ho) as Hname.
  destruct (progressState p) eqn:Hp.
  - intros Hobs. by apply IH in Hobs as [? _].
  - intros Hobs. apply IH in Hobs as (-> & Hready & Hlast); [|done].
    split_and!; [done| |].
    + intros n [->|Hn]%elem_of_cons; [|by apply Hready]. split.
      * by eapply observeTarget_ready.
      * unfold lastProgress. rewrite Hlast, emit_last, Hname, lookup_insert_eq by done. simpl.
        unfold isReady. by rewrite Hp.
    + intros n [Hne Hn]%not_elem_of_cons. rewrite Hlast, emit_last by done.
      rewrite lookup_insert_ne; [done|congruence].
  - intros Hobs. apply observeEach_failures in Hobs as (_ & _ & _ & Hf); [|by repeat constructor].
    by destruct Hf as (? & ? & _).
  - intros Hobs. by apply IH in Hobs as [? _].
Qed.

(** ** The loop *)

(** A known failure is a convergence failure, and it is known once the callback
    saw one. *)
Definition failureKnown (s : waitState) : Prop :=
  (sawFailure s → is_Some (terminalFailure s)) ∧
  ∀ e, terminalFailure s = Some e → isConvergenceFailed e = true.

Lemma poll_facts request baseline s w allReady err s' w' :
  poll mask request baseline s w = (allReady, err, s', w') →
  targets s' = targets s ∧ terminalFailure s' = terminalFailure s ∧
  (sawFailure s' → sawFailure s ∨ flagged err).
Proof.
  unfold poll. destruct (ListServices _ _) as [[current|e] w1].
  - intros Ho. by apply observeEach_failures in Ho as (? & ? & ? & _).
  - intros [= <- <- <- <-]. split_and!; [done..|by left].
Qed.

(** The verdict of a successful wait. *)
Definition snapshotReady (request : ServiceWaitRequest) (s : waitState) : Prop :=
  ∃ current w w', ListServices (StackName request) w = (Ok current, w') ∧
  ∀ name, name ∈ targets s →
    provenReady request (serviceAt (servicesByName (Baseline request)) name)
      (serviceAt (servicesByName current) name) name ∧
    isReady (lastProgress s name) = true.

Lemma joinTerminal_flagged s e :
  failureKnown s →
  is_Some (joinTerminal s e) ∧ (is_Some (terminalFailure s) → flagged (joinTerminal s e)).
Proof.
  intros [_ Hk]. unfold joinTerminal. destruct (terminalFailure s) as [t|] eqn:Ht; simpl.
  - split; [by eexists|]. intros _. eexists. split; [done|]. simpl. by rewrite Hk.
  - split; [by eexists|]. by intros [].
Qed.

Lemma waitOnce_facts request s w verdict s' w' :
  NoDup (targets s) → failureKnown s →
  waitOnce mask request (servicesByName (Baseline request)) s w = (verdict, s', w') →
  targets s' = targets s ∧
  match verdict with
  | None => failureKnown s'
  | Some err =>
      (err = None → snapshotReady request s' ∧ ¬ sawFailure s') ∧
      (is_Some (terminalFailure s') → flagged err)
  end.
Proof.
  intros Hnd [Hsaw Hflag]. unfold waitOnce.
  destruct (poll _ _ _ _ _) as [[[allReady err] s1] w1] eqn:Hp.
  pose proof (poll_facts _ _ _ _ _ _ _ _ Hp) as (Ht & Hterm & Hs1).
  destruct err as [e|].
  - destruct (isConvergenceFailed e) eqn:He.
    + intros [= <- <- <-]. split; [done|]. destruct allReady.
      * split; [done|]. intros _. by exists e.
      * split; simpl; [by eexists|]. by intros e' [= <-].
    + assert (failureKnown s1) as Hk1.
      { split; [|by rewrite Hterm]. rewrite Hterm. intros [?|(e' & [= <-] & ?)]%Hs1; [auto|congruence]. }
      unfold handleObservationError. destruct (ctxErr w1) as [reason|].
      * intros [= <- <- <-]. destruct (failPending_kept s1 reason) as [-> Hkt]. split; [done|].
        assert (∀ e, is_Some (terminalFailure (failPending s1 reason)) →
          flagged (joinTerminal (failPending s1 reason) e)) as Hj.
        { intros e0. unfold joinTerminal. rewrite Hkt.
          destruct (joinTerminal_flagged s1 e0 Hk1) as [_ Hj]. exact Hj. }
        split; [|apply Hj]. unfold joinTerminal. rewrite Hkt. by destruct (terminalFailure s1).
      * destruct (isTransient e).
        -- intros [= <- <- <-]. destruct (retryPending_kept s1 (targets s1) e) as [Htt Hrt].
           split; [congruence|]. destruct Hk1 as [Hk1 Hk2].
           split; rewrite Hrt; [|done]. by intros ?%retryPending_sawFailure%Hk1.
        -- intros [= <- <- <-]. destruct (failPending_kept s1 (errorText e)) as [-> Hkt].
           split; [done|]. unfold joinTerminal. rewrite Hkt.
           destruct (joinTerminal_flagged s1 e Hk1) as [_ Hj]. split; [|exact Hj].
           by destruct (terminalFailure s1).
  - assert (failureKnown s1) as Hk1.
    { split; [|by rewrite Hterm]. rewrite Hterm. intros [?|(e' & ? & ?)]%Hs1; [auto|done]. }
    intros [= <- <- <-]. split; [done|]. destruct allReady; [|done]. split.
    + intros Hnone. split.
      * unfold poll in Hp. destruct (ListServices _ _) as [[current|e] w2] eqn:Hl; [|done].
        apply observeEach_ready in Hp as (_ & Hready & _); [|done].
        exists current, w, w2. split; [done|]. intros name Hn. apply Hready. congruence.
      * intros Hf%Hk1. rewrite Hnone in Hf. by destruct Hf.
    + intros [e He]. exists e. split; [done|]. by apply Hk1.
Qed.

Lemma waitLoop_facts fuel request s w err s' w' :
  NoDup (targets s) → failureKnown s →
  waitLoop mask fuel request (servicesByName (Baseline request)) s w = Some (err, s', w') →
  targets s' = targets s ∧
  (err = None → snapshotReady request s' ∧ ¬ sawFailure s') ∧
  (is_Some (terminalFailure s') → flagged err).
Proof.
  revert s w. induction fuel as [|fuel IH]; intros s w Hnd Hk; [done|]. cbn [waitLoop].
  destruct (waitOnce _ _ _ _ _) as [[verdict s1] w1] eqn:Ho.
  apply waitOnce_facts in Ho as [Ht Hv]; [|done..].
  destruct verdict as [verdict|]; [by intros [= <- <- _]|].
  destruct (selectNext w1) as [[cause|] w2].
  - intros [= <- <- _]. destruct (failPending_kept s1 cause) as [-> Hkt]. split; [done|].
    unfold joinTerminal. rewrite Hkt.
    destruct (joinTerminal_flagged s1 (waitInterruptedError (StackName request)
      (failPending s1 cause) cause) Hv) as [_ Hj].
    split; [by destruct (terminalFailure s1)|exact Hj].
  - intros Hl. apply IH in Hl as [-> Hl]; [done|by rewrite Ht|done].
Qed.

Lemma uniqueSortedNames_spec names :
  NoDup (uniqueSortedNames names) ∧
  ∀ name, name ∈ uniqueSortedNames names ↔ name ∈ names ∧ name ≠ "".
Proof.
  unfold uniqueSortedNames. split; [apply sort_strings_NoDup, NoDup_remove_dups|].
  intros name. rewrite elem_of_sort_strings, elem_of_remove_dups, list_elem_of_filter. naive_solver.
Qed.

Lemma newWaitState_known names : failureKnown (newWaitState names).
Proof. split; [|done]. intros (p & Hp & _). by apply not_elem_of_nil in Hp. Qed.

(** What a successful wait has seen. *)
Lemma Wait_success fuel request w result s w' :
  (∃ name, name ∈ ServiceNames request ∧ name ≠ "") →
  Wait mask fuel request w = Some (result, None, s, w') →
  ResultUnresolved result = [] ∧ ¬ sawFailure s ∧
  ∃ current w1 w2, ListServices (StackName request) w1 = (Ok current, w2) ∧
    ∀ name, name ∈ ServiceNames request → name ≠ "" →
      provenReady request (serviceAt (servicesByName (Baseline request)) name)
        (serviceAt (servicesByName current) name) name.
Proof.
  intros Htargets Hwait.
  destruct (uniqueSortedNames_spec (ServiceNames request)) as [Hnd Hin].
  revert Hwait. unfold Wait. cbv zeta.
  destruct (targets (newWaitState _)) as [|n ns] eqn:Ht.
  { destruct Htargets as (name & Hn). apply Hin in Hn. simpl in Ht. rewrite Ht in Hn. set_solver. }
  destruct (waitLoop _ _ _ _ _ _) as [[[err s1] w1]|] eqn:Hl; [|done].
  intros [= <- -> <- <-]. apply waitLoop_facts in Hl as (Htt & Hok & _);
    [|done|apply newWaitState_known].
  destruct Hok as [(current & w1' & w2' & Hlist & Hready) Hsaw]; [done|]. simpl in Htt.
  split_and!; [|done|].
  - unfold Waiter.result. simpl. apply list_filter_none, Forall_forall. intros name Hname.
    apply Hready in Hname as [_ Hr]. by rewrite Hr.
  - exists current, w1', w2'. split; [done|]. intros name Hn Hne. apply Hready. rewrite Htt.
    by apply Hin.
Qed.

Lemma Wait_unresolved fuel request w result s w' :
  Wait mask fuel request w = Some (result, None, s, w') → ResultUnresolved result = [].
Proof.
  intros Hwait. destruct (decide (Exists (λ name, name ≠ "") (ServiceNames request))) as [He|He].
  - apply Exists_exists in He. by eapply Wait_success.
  - destruct (uniqueSortedNames_spec (ServiceNames request)) as [_ Hin].
    assert (uniqueSortedNames (ServiceNames request) = []) as Hnil.
    { destruct (uniqueSortedNames _) as [|name names]; [done|]. destruct He. apply Exists_exists.
      exists name. apply Hin. by left. }
    revert Hwait. unfold Wait. rewrite Hnil. simpl. by intros [= <- _ _].
Qed.

(** C11. When a wait succeeds, there is one snapshot of the stack in which every
    target was ready: Docker had taken the write of this apply, the specification
    was the expected one, and, for replicas that swarm-deploy manages, all the
    tasks Swarm wants were running, from the current template and the right
    generation, with no update in progress and no terminal failure. No target is
    left unresolved and the callback never saw a failed service. *)
Theorem wait_success_is_proven fuel request w result s w'
    (Htargets : ∃ name, name ∈ ServiceNames request ∧ name ≠ "")
    (Hwait : Wait mask fuel request w = Some (result, None, s, w')) :
  ResultUnresolved result = [] ∧ ¬ sawFailure s ∧
  ∃ current w1 w2, ListServices (StackName request) w1 = (Ok current, w2) ∧
    ∀ name, name ∈ ServiceNames request → name ≠ "" →
      provenReady request (serviceAt (servicesByName (Baseline request)) name)
        (serviceAt (servicesByName current) name) name.
Proof. by apply (Wait_success fuel request w result s w'). Qed.

(** C39. A terminal failure is never forgotten: once a pass over the targets found
    one, the wait ends with an error in which the failure is recognised, whatever
    later polls observe; and if it ends without an error, none was found. *)
Theorem terminal_failure_is_reported fuel request w result err s w'
    (Hwait : Wait mask fuel request w = Some (result, err, s, w')) :
  (is_Some (terminalFailure s) → ∃ e, err = Some e ∧ isConvergenceFailed e = true) ∧
  (sawFailure s → is_Some err).
Proof.
  destruct (uniqueSortedNames_spec (ServiceNames request)) as [Hnd _].
  revert Hwait. unfold Wait. cbv zeta.
  destruct (targets (newWaitState _)) as [|n ns] eqn:Ht.
  { intros [= <- <- <- <-]. simpl. split; [by intros []|].
    intros (p & Hp & _). by apply not_elem_of_nil in Hp. }
  destruct (waitLoop _ _ _ _ _ _) as [[[err1 s1] w1]|] eqn:Hl; [|done].
  intros [= <- -> <- <-]. apply waitLoop_facts in Hl as (_ & Hok & Hterm);
    [|done|apply newWaitState_known].
  split; [exact Hterm|]. intros Hsaw. destruct err as [e|]; [by eexists|].
  by destruct Hok as [_ []].
Qed.

(** Ticks that are left before the context of the wait is done. *)
Context (remaining : W → nat).
Hypothesis select_progress :
  ∀ w w', selectNext w = (None, w') → (remaining w' < remaining w)%nat.
Hypothesis services_remaining : ∀ stack w, (remaining (ListServices stack w).2 ≤ remaining w)%nat.
Hypothesis tasks_remaining : ∀ id w, (remaining (ListTasks id w).2 ≤ remaining w)%nat.
Hypothesis nodes_remaining : ∀ w, (remaining (ListNodes w).2 ≤ remaining w)%nat.

Lemma observeTarget_remaining request baseline current name w :
  (remaining (observeTarget mask request baseline current name w).2 ≤ remaining w)%nat.
Proof.
  unfold observeTarget, observeService. generalize (serviceAt current name) as service.
  intros service. pose proof (tasks_remaining (serviceID service)) as Htasks.
  destruct (ReplicasManaged _) as [[]|]; [| |done].
  - unfold observeManagedService. pose proof (Htasks w) as Hw.
    destruct (ListTasks _ w) as [[tasks|e] w1]; simpl in Hw; repeat case_match; simpl; try lia;
      match goal with H : ListNodes w1 = _ |- _ =>
        pose proof (nodes_remaining w1) as Hn; rewrite H in Hn; simpl in Hn; lia end.
  - unfold observeExternalService.
    assert (∀ g w, (remaining (generationTasks service g w).2 ≤ remaining w)%nat) as Hgen.
    { intros g w0. unfold generationTasks. pose proof (Htasks w0). case_match; [|done].
      by destruct (ListTasks _ w0) as [[]]. }
    assert (∀ t w, (remaining (diagnosticTasks service t w).2 ≤ remaining w)%nat) as Hdiag.
    { intros t w0. unfold diagnosticTasks. pose proof (Htasks w0). destruct t; [done|].
      by destruct (ListTasks _ w0) as [[]]. }
    match goal with |- context [generationTasks service ?g w] => pose proof (Hgen g w) end.
    destruct (generationTasks _ _ _) as [[tasks|e] w1]; simpl in *; [|done].
    case_match; [done|]. pose proof (Hdiag tasks w1).
    destruct (diagnosticTasks _ _ _) as [ts w2]. simpl in *. repeat case_match; simpl; lia.
Qed.

Lemma observeEach_remaining request baseline current names allReady failures s w :
  (remaining (observeEach mask request baseline current names allReady failures s w).2
    ≤ remaining w)%nat.
Proof.
  revert allReady failures s w. induction names as [|name names IH]; intros; [done|].
  cbn [observeEach]. destruct (staleRead _ _ _ _); [apply IH|].
  pose proof (observeTarget_remaining request baseline current name w) as Hw.
  destruct (observeTarget _ _ _ _ _ _) as [[p [e|]] w1]; simpl in *; [done|].
  destruct (progressState p); (etrans; [apply IH|done]).
Qed.

Lemma waitOnce_remaining request baseline s w :
  (remaining (waitOnce mask request baseline s w).2 ≤ remaining w)%nat.
Proof.
  unfold waitOnce, poll. pose proof (services_remaining (StackName request) w) as Hs.
  destruct (ListServices _ w) as [[current|e] w1]; simpl in Hs.
  - pose proof (observeEach_remaining request baseline (servicesByName current) (targets s) true [] s w1)
      as He. unfold observeTargets.
    destruct (observeEach _ _ _ _ _ _ _ _ _) as [[[ar [e|]] s1] w2]; simpl in *; [|lia].
    destruct (isConvergenceFailed e); simpl; [lia|].
    destruct (handleObservationError _ _ _ _) as [[]]; simpl; lia.
  - simpl. by destruct (handleObservationError _ _ _ _) as [[]].
Qed.

Lemma Wait_total fuel request w :
  (remaining w < fuel)%nat → is_Some (Wait mask fuel request w).
Proof.
  intros Hfuel. unfold Wait. cbv zeta. destruct (targets _); [by eexists|].
  assert (∀ fuel s w, (remaining w < fuel)%nat →
    is_Some (waitLoop mask fuel request (servicesByName (Baseline request)) s w)) as Hloop.
  { clear fuel w Hfuel. induction fuel as [|fuel IH]; intros s0 w Hw; [lia|]. cbn [waitLoop].
    pose proof (waitOnce_remaining request (servicesByName (Baseline request)) s0 w) as Hr.
    destruct (waitOnce _ _ _ _ _) as [[[verdict|] s1] w1]; simpl in Hr; [by eexists|].
    destruct (selectNext w1) as [[cause|] w2] eqn:Hsel; [by eexists|].
    apply select_progress in Hsel. apply IH. lia. }
  edestruct Hloop as [[[err s1] w1] ->]; [exact Hfuel|]. by eexists.
Qed.

End Loop.

(** ** Concrete waits *)
Module WaiterExample.

(** References are not resolved, and a specification is encoded by its name and
    image. *)
#[local] Instance sdk : DockerSDK :=
  {| ParseNormalizedNamed := λ _, None; TagNameOnly := λ n, n; refString := refName;
     cloneSpec := λ s, s;
     marshal := λ s,
       JObject [("Name", JScalar (Name (specAnnotations s)));
                ("Image", JScalar (default "" (Image <$> taskContainer (TaskTemplate s))))];
     sha256_hex := λ j, if bool_decide (j = JNull) then "0" else "1" |}.

#[local] Instance constraints : PlacementConstraints :=
  {| Constraint := string; constraint_Parse := λ l, Some l; NodeMatches := λ _ _, true |}.

Definition spec (name : string) (external : bool) : ServiceSpec :=
  {| specAnnotations :=
       {| Name := name;
          Labels := if external
                    then Some {[ServiceSyncPolicyReplicasManagedLabelKey := "false"]} else None |};
     TaskTemplate := noTaskSpec;
     specMode := {| Replicated := Some (Some 1%N); Global := false; ReplicatedJobMode := None;
                    GlobalJob := false |};
     specUpdateConfig := None; specRollbackConfig := None; specEndpoint := None |}.

Definition service (id name : string) (external : bool) (updated : Time)
    (status : option ServiceUpdateStatus) : StackService :=
  {| CompletedTasks := 0; JobStatus := None; serviceID := id; serviceName := name;
     serviceMode := "replicated"; serviceReplicas := Some 1%N; DesiredTasks := 1;
     CreatedAt := 1; UpdatedAt := updated; serviceUpdateStatus := status;
     liveSpec := spec ("app_" +:+ name) external; PreviousSpec := None |}.

Definition runningTask (created : Time) : ServiceTask :=
  {| taskID := "t1"; taskNode := "n1"; NodeInfo := None; Slot := 1; JobIteration := None;
     DesiredState := TaskStateRunning; taskCreatedAt := created; taskUpdatedAt := created;
     CurrentState := TaskStateRunning; ExitCode := None; taskError := "";
     taskSpec := normalizeTaskSpec noTaskSpec |}.

Definition select (w : nat) : option string * nat :=
  match w with O => (Some "context deadline exceeded", O) | S n => (None, n) end.

(** The world counts the ticks that are left. *)
Definition healthy (services : list StackService) : WaitEnvironment nat :=
  {| ListServices := λ _ w, (Ok services, w); ListTasks := λ _ w, (Ok [runningTask 7], w);
     ListNodes := λ w, (Ok [], w); ctxErr := λ _, None; selectNext := select |}.

Definition request : ServiceWaitRequest :=
  {| StackName := "app"; ServiceNames := ["api"]; Baseline := []; AppliedServices := ["api"];
     UnresolvedServices := []; ExpectedSpecs := {["api" := spec "app_api" false]};
     UpdateGenerations := ∅ |}.

#[local] Instance calm : WaitEnvironment nat := healthy [service "api-id" "api" false 1 None].

Lemma wait_success_is_proven_witness :
  ∃ result s w', Wait (λ t, t) 3 request 2%nat = Some (result, None, s, w') ∧
    ResultUnresolved result = [].
Proof.
  eexists _, _, _. split; [vm_compute; reflexivity|].
  eapply (wait_success_is_proven (λ t, t) 3 request 2%nat); [|vm_compute; reflexivity].
  exists "api". split; [by left|done].
Defined.


(** A paused update is a terminal failure. *)
Definition paused : ServiceUpdateStatus :=
  {| updateState := ServiceUpdateStatePaused; updateStartedAt := 5; updateCompletedAt := 0;
     updateMessage := "update paused due to failure of task t1" |}.

Definition broken : WaitEnvironment nat := healthy [service "api-id" "api" false 1 (Some paused)].

Lemma terminal_failure_is_reported_witness :
  ∃ result err s w', @Wait _ _ (λ t, t) nat broken 3 request 2%nat = Some (result, err, s, w') ∧
    (∃ e, err = Some e ∧ isConvergenceFailed e = true) ∧ FailedTaskID <$> FailedTasks result = ["t1"].
Proof.
  eexists _, _, _, _. split; [vm_compute; reflexivity|]. split; [|vm_compute; reflexivity].
  eapply (@terminal_failure_is_reported _ _ (λ t, t) nat broken 3 request 2%nat);
    [vm_compute; reflexivity|]. vm_compute. by eexists.
Defined.

(** Two externally managed services: [a] appears in the second poll, in which the
    tasks of [b] can not be listed any more. *)
Definition external : WaitEnvironment nat :=
  {| ListServices := λ _ w,
       (Ok (service "b-id" "b" true 6 None ::
            if bool_decide (w = 2)%nat then [] else [service "a-id" "a" true 1 None]), w);
     ListTasks := λ id w,
       if bool_decide (id = "b-id") && bool_decide (w ≠ 2)%nat
       then (Err {| temporary := false; apiText := "permission denied" |}, w)
       else (Ok [{| taskID := "t1"; taskNode := "n1"; NodeInfo := None; Slot := 1;
                    JobIteration := None; DesiredState := TaskStateRunning; taskCreatedAt := 7;
                    taskUpdatedAt := 7; CurrentState := TaskStateRunning; ExitCode := None;
                    taskError := ""; taskSpec := normalizeTaskSpec noTaskSpec |}], w);
     ListNodes := λ w, (Ok [], w); ctxErr := λ _, None; selectNext := select |}.

Definition externalRequest : ServiceWaitRequest :=
  {| StackName := "app"; ServiceNames := ["a"; "b"]; Baseline := [service "b-id" "b" true 3 None];
     AppliedServices := []; UnresolvedServices := ["b"];
     ExpectedSpecs := {["a" := spec "app_a" true; "b" := spec "app_b" true]};
     UpdateGenerations := {["b" :=
       {| ServiceID := "b-id"; ForceUpdate := 0; After_ := 3; Mode := VerifyNewGeneration;
          BeforeSpecDigest := ""; TasksAfter := 5 |}]} |}.

(** The wait fails on the observation of [b], and yet it reports no unresolved
    service: the zero progress of the failed observation does not replace the
    earlier one, as a pending progress would. *)
Lemma external_error_leaves_no_obligation :
  ∃ result e s w',
    @Wait _ _ (λ t, t) nat external 3 externalRequest 2%nat = Some (result, Some e, s, w') ∧
    errorText e = "permission denied" ∧ ResultUnresolved result = [] ∧
    "" ∈ progressName <$> emitted s.
Proof.
  eexists _, _, _, _. split; [vm_compute; reflexivity|]. vm_compute. split_and!; [done..|].
  repeat constructor.
Qed.
End WaiterExample.
