(* ===== verification/Applier.v ===== *)
(** * Applying service specifications ([deployments/deployer/services/applier.go],
      [replicas.go], [retryRequired] of [task_failure.go])

    The Docker services, the registry credentials and the persistence of update
    generations are the parameters of class [ServiceManager]. The state carries
    the world they live in, the acknowledged credentials, the generations of
    this apply, and the log of the calls in their order. *)
From stdpp Require Import pretty.
From S2P Require Import Prelude GoStrings TaskSpecs Deployments ServiceSpecs TaskFailure.
Local Open Scope go_scope.

(** ** Errors *)

(** An error of the Docker API: the two the program looks for, another refusal
    after which no write was accepted ([ServiceUpdateRejected]), and the rest. *)
Inductive swarmError :=
| ErrServiceNotFound | ErrServiceConflict | ErrRefused (text : string) | ErrSwarm (text : string).
#[export] Instance swarmError_eq_dec : EqDecision swarmError.
Proof. solve_decision. Defined.

Definition ServiceUpdateRejected (e : swarmError) : bool :=
  match e with ErrSwarm _ => false | _ => true end.

Definition swarmText (e : swarmError) : string :=
  match e with
  | ErrServiceNotFound => "service not found" | ErrServiceConflict => "service conflict"
  | ErrRefused text | ErrSwarm text => text
  end.

(** What [errors.Is] and [ServiceUpdateRejected] find in an error of the applier.
    [errUpdateBusy] wraps [ErrUpdateBlocked]. *)
Record applyError := {
  isBlocked : bool; isBusy : bool; isDeferred : bool; isSafetyChanged : bool;
  isRejected : bool; applyText : string;
}.
Definition plainError (text : string) : applyError :=
  {| isBlocked := false; isBusy := false; isDeferred := false; isSafetyChanged := false;
     isRejected := false; applyText := text |}.
(** An error that wraps one of the Docker API. *)
Definition wrapSwarm (text : string) (e : swarmError) : applyError :=
  {| isBlocked := false; isBusy := false; isDeferred := false; isSafetyChanged := false;
     isRejected := ServiceUpdateRejected e; applyText := text +:+ swarmText e |}.
Definition ErrUpdateBlocked (text : string) : applyError :=
  {| isBlocked := true; isBusy := false; isDeferred := false; isSafetyChanged := false;
     isRejected := false; applyText := "externally managed service update blocked: " +:+ text |}.
Definition errUpdateBusy (text : string) : applyError :=
  {| isBlocked := true; isBusy := true; isDeferred := false; isSafetyChanged := false;
     isRejected := false; applyText := "externally managed service update blocked: " +:+ text |}.
Definition errSafetyInspectionChanged : applyError :=
  {| isBlocked := false; isBusy := false; isDeferred := false; isSafetyChanged := true;
     isRejected := false; applyText := "service changed during external execution inspection" |}.

Definition joinApplyErrors (errs : list applyError) : applyError :=
  {| isBlocked := existsb isBlocked errs; isBusy := existsb isBusy errs;
     isDeferred := existsb isDeferred errs; isSafetyChanged := existsb isSafetyChanged errs; isRejected := existsb isRejected errs;
     applyText := join_strings (String (Ascii.ascii_of_N 10) EmptyString) (map applyText errs) |}.

Definition blockedApplyError (blocked : list applyError) : option applyError :=
  match blocked with
  | [] => None
  | _ =>
      let joined := joinApplyErrors blocked in
      if forallb isBusy blocked
      then Some {| isBlocked := isBlocked joined; isBusy := isBusy joined; isDeferred := true;
                   isSafetyChanged := isSafetyChanged joined; isRejected := isRejected joined;
                   applyText := "externally managed service update deferred until active tasks finish: "
                     +:+ applyText joined |}
      else Some joined
  end.

(** ** Replicas that swarm-deploy does not manage ([replicas.go]) *)
Inductive executionSettlementReason :=
| executionSettledReason | executionMissingSlotReason | executionActiveTaskReason
| executionRemovedTaskReason | executionTemplateMismatchReason.
#[export] Instance executionSettlementReason_eq_dec : EqDecision executionSettlementReason.
Proof. solve_decision. Defined.

Record executionSettlement := {
  reason : executionSettlementReason; slot : Z; settlementPaths : list string;
  settlementOlder : bool;
}.
Definition settlement (r : executionSettlementReason) (slot : Z) : executionSettlement :=
  {| reason := r; slot := slot; settlementPaths := []; settlementOlder := false |}.

Definition currentReplicas (spec : ServiceSpec) : option N :=
  match Replicated (specMode spec) with Some r => r | None => None end.

Definition restartDisabled (spec : ServiceSpec) : bool :=
  match taskRestartPolicy (TaskTemplate spec) with
  | Some policy => bool_decide (Condition policy = RestartPolicyConditionNone)
  | None => false
  end.

(** Unknown future states are conservatively active. *)
Definition taskActive (s : TaskState) : bool :=
  match s with
  | TaskStateComplete | TaskStateShutdown | TaskStateFailed | TaskStateRejected
  | TaskStateRemove | TaskStateOrphaned => false
  | _ => true
  end.

Definition firstActive (tasks : list ServiceTask) : option ServiceTask :=
  find (λ t, taskActive (CurrentState t)) tasks.

(** The newest task of every slot. *)
Definition newestBySlot (replicas : N) (tasks : list ServiceTask) : gmap Z ServiceTask :=
  foldl (λ newest t,
    if (Slot t <? 1)%Z || (replicas <? Z.to_N (Slot t))%N then newest
    else match newest !! Slot t with
         | None => <[Slot t := t]> newest
         | Some previous =>
             if (taskCreatedAt previous <? taskCreatedAt t)%Z then <[Slot t := t]> newest
             else newest
         end) ∅ tasks.

Fixpoint settleSlots (template : TaskSpec) (newest : gmap Z ServiceTask) (slots : list Z)
    (acc : executionSettlement) : executionSettlement :=
  match slots with
  | [] => acc
  | slot :: slots =>
      match newest !! slot with
      | None => settlement executionMissingSlotReason slot
      | Some t =>
          if bool_decide (DesiredState t = TaskStateRemove)
          then settlement executionRemovedTaskReason slot
          else
            let comparison := CompareServiceTemplate (taskSpec t) template in
            if Equal comparison then settleSlots template newest slots acc
            else
              let mismatch :=
                {| reason := executionTemplateMismatchReason; slot := slot;
                   settlementPaths := MismatchPaths comparison;
                   settlementOlder := OlderForceUpdateOnly comparison |} in
              if negb (settlementOlder mismatch) then mismatch
              else settleSlots template newest slots mismatch
      end
  end.

Definition executionSettled (template : TaskSpec) (replicas : N) (tasks : list ServiceTask)
    : executionSettlement :=
  match firstActive tasks with
  | Some t => settlement executionActiveTaskReason (Slot t)
  | None =>
      settleSlots template (newestBySlot replicas tasks) (seqZ 1 (Z.of_N replicas))
        (settlement executionSettledReason 0)
  end.

Definition templateMismatchRechecks : nat := 3.
Definition templateMismatchInitialBackoff : Duration := 100000000%Z.
Definition templateMismatchTotalBackoff : Duration :=
  foldl Z.add 0%Z (map (λ attempt, Z.shiftl templateMismatchInitialBackoff (Z.of_nat attempt))
    (seq 0 templateMismatchRechecks)).

Definition mismatchPathDiagnostic (paths : list string) : string :=
  let maximumPaths := 6%nat in
  match paths with
  | [] => "TaskTemplate"
  | _ =>
      if (length paths <=? maximumPaths)%nat then join_strings ", " paths
      else join_strings ", " (take maximumPaths paths) +:+ " (+" +:+
           pretty (N.of_nat (length paths - maximumPaths)) +:+ " more fields)"
  end.

(** [Duration.String] of whole milliseconds below a second. *)
Definition milliseconds (d : Duration) : string := pretty (d / 1000000)%Z +:+ "ms".

(** The error of an unsettled execution. *)
Definition settlementError (name : string) (s : executionSettlement) : option applyError :=
  let unsettled := "service " +:+ name +:+ " execution is unsettled: " in
  match reason s with
  | executionSettledReason => None
  | executionMissingSlotReason =>
      Some (errUpdateBusy (unsettled +:+ "missing task for slot " +:+ pretty (slot s)))
  | executionActiveTaskReason =>
      Some (errUpdateBusy (unsettled +:+ "active task in slot " +:+ pretty (slot s)))
  | executionRemovedTaskReason =>
      Some (errUpdateBusy (unsettled +:+ "newest task for slot " +:+ pretty (slot s) +:+
        " is being removed"))
  | executionTemplateMismatchReason =>
      if settlementOlder s then
        Some (errUpdateBusy (unsettled +:+ "newest task for slot " +:+ pretty (slot s) +:+
          " has an older ForceUpdate generation"))
      else
        Some (ErrUpdateBlocked ("service " +:+ name +:+ " task template mismatch persisted across " +:+
          pretty (N.of_nat (templateMismatchRechecks + 1)) +:+ " observations over " +:+
          milliseconds templateMismatchTotalBackoff +:+ " at fields " +:+
          mismatchPathDiagnostic (settlementPaths s) +:+
          "; retry after Docker finishes scheduling or verify Engine/API compatibility"))
  end.

(** ** The environment and the state *)
Record ServiceOptions := { encodedAuth : string; QueryRegistry : bool }.

Class ServiceManager (W : Type) := {
  Inspect : string → W → Result swarmError DockerService * W;
  Create : ServiceSpec → ServiceOptions → W → Result swarmError string * W;
  Update : string → N → ServiceSpec → ServiceOptions → W → option swarmError * W;
  ServiceTasks : string → W → Result swarmError (list ServiceTask) * W;
  (** The backoff timer against the context: the error of a context that is done. *)
  Backoff : nat → W → option string * W;
  (** [ResolveImage]: the encoded credentials for an image. *)
  ResolveImage : string → W → Result string string * W;
  (** [EncodeAuthConfig] of no credentials. *)
  anonymousAuth : Result string string;
  (** [BeforeUpdate] when it is configured: it may fail, and it may give a
      callback that restores what it recorded. *)
  BeforeUpdate :
    option (string → UpdateGeneration → W → Result string (option (W → option string * W)) * W);
  sha256 : string → string;
}.

Inductive Call :=
| Inspected (svc : DockerService)
| Listed (id : string) (tasks : list ServiceTask)
| Recorded (name : string) (g : UpdateGeneration)
| Created (spec : ServiceSpec)
| Updated (id : string) (version : N) (spec : ServiceSpec) (answer : option swarmError).

Record ApplierState (W : Type) := {
  world : W; auth : gmap string string; generations : gmap string UpdateGeneration;
  calls : list Call;
}.
Arguments world {W}.
Arguments auth {W}.
Arguments generations {W}.
Arguments calls {W}.

Definition setWorld {W} (s : ApplierState W) (w : W) : ApplierState W :=
  {| world := w; auth := auth s; generations := generations s; calls := calls s |}.
Definition logCall {W} (s : ApplierState W) (w : W) (c : Call) : ApplierState W :=
  {| world := w; auth := auth s; generations := generations s; calls := calls s ++ [c] |}.
Definition setAuth {W} (s : ApplierState W) (a : gmap string string) : ApplierState W :=
  {| world := world s; auth := a; generations := generations s; calls := calls s |}.
Definition setGenerations {W} (s : ApplierState W) (g : gmap string UpdateGeneration)
    : ApplierState W :=
  {| world := world s; auth := auth s; generations := g; calls := calls s |}.

Record ApplyOptions := { RetryFailedUpdates : bool }.

(** ** The applier *)
Section Applier.
Context `{DockerSDK, PlacementConstraints} {W : Type} `{ServiceManager W}.
Implicit Types (s : ApplierState W).

Definition A (B : Type) : Type := St (ApplierState W) applyError B.

(** Calls of the environment. *)
Definition inspect (id : string) (failed : swarmError → applyError) : A DockerService :=
  λ s, match Inspect id (world s) with
       | (Ok svc, w) => (Ok svc, logCall s w (Inspected svc))
       | (Err e, w) => (Err (failed e), setWorld s w)
       end.

Definition listTasks (id : string) (failed : string) : A (list ServiceTask) :=
  λ s, match ServiceTasks id (world s) with
       | (Ok tasks, w) => (Ok tasks, logCall s w (Listed id tasks))
       | (Err e, w) => (Err (wrapSwarm (failed +:+ ": ") e), setWorld s w)
       end.

(** ** Ownership and credentials *)
Definition StackNamespace : string := "com.docker.stack.namespace".

Definition validateOwnership (stackName desiredName : string) (current : DockerService)
    : option applyError :=
  if bool_decide (svcID current = "") ||
     negb (bool_decide (Name (specAnnotations (Spec current)) = desiredName))
  then Some (plainError ("service " +:+ desiredName +:+ " has incompatible Docker identity"))
  else if negb (bool_decide (map_index (Labels (specAnnotations (Spec current))) StackNamespace
                             = stackName))
  then Some (plainError ("service " +:+ desiredName +:+
         " already exists but is not owned by stack " +:+ stackName))
  else None.

Definition requireOwnership (stackName desiredName : string) (current : DockerService) : A () :=
  match validateOwnership stackName desiredName current with
  | Some e => st_throw e
  | None => st_ret ()
  end.

Definition resolveAuth (spec : ServiceSpec) (failed : string) : A string :=
  λ s, match taskContainer (TaskTemplate spec) with
       | None => (Ok "", s)
       | Some c =>
           match ResolveImage (Image c) (world s) with
           | (Ok auth, w) => (Ok auth, setWorld s w)
           | (Err e, w) => (Err (plainError (failed +:+ ": " +:+ e)), setWorld s w)
           end
       end.

Definition authRefreshRequired (id credentials : string) s : bool :=
  let previous := auth s !! id in
  (bool_decide (is_Some previous) || negb (bool_decide (credentials = ""))) &&
  negb (bool_decide (previous = Some (sha256 credentials))).

Definition rememberAuth (id credentials : string) : A () :=
  st_modify (λ s, setAuth s (<[id := sha256 credentials]> (auth s))).

Definition authFailed (name : string) : string := "service " +:+ name +:+ " registry authentication".

Definition createOptions (spec : ServiceSpec) (name : string) : A ServiceOptions :=
  let! auth := resolveAuth spec (authFailed name) in
  st_ret {| encodedAuth := auth; QueryRegistry := true |}.

(** The options without [QueryRegistry], and the credentials. *)
Definition updateOptions (id : string) (spec : ServiceSpec) (name : string) : A (string * string) :=
  let! credentials := resolveAuth spec (authFailed name) in
  λ s, if bool_decide (credentials = "") && authRefreshRequired id credentials s then
         match anonymousAuth with
         | Ok encoded => (Ok (encoded, credentials), s)
         | Err e => (Err (plainError (authFailed name +:+ ": " +:+ e)), s)
         end
       else (Ok (credentials, credentials), s).

Definition authOnlyUpdateSafe (spec : ServiceSpec) : bool :=
  let m := specMode spec in
  if bool_decide (is_Some (ReplicatedJobMode m)) || GlobalJob m then false
  else if bool_decide (currentReplicas spec = Some 0%N) then true
  else match taskRestartPolicy (TaskTemplate spec) with
       | None => true
       | Some policy =>
           if finiteAttempts policy then false
           else bool_decide (Condition policy ∈ [""; RestartPolicyConditionAny])
       end.

(** ** Retries *)
Definition isJob (spec : ServiceSpec) : bool :=
  bool_decide (is_Some (ReplicatedJobMode (specMode spec))) || GlobalJob (specMode spec).

Definition failedUpdate (service : DockerService) : bool :=
  match svcUpdateStatus service with
  | None => false
  | Some status =>
      bool_decide (State status ∈ ["failed"; "paused"; "rollback_started"; "rollback_paused";
        "rollback_completed"])
  end.

Definition retryRequired (service : DockerService) (enabled : bool) : A bool :=
  if negb enabled then st_ret false
  else
    let spec := Spec service in
    let job := isJob spec in
    if negb job && failedUpdate service then st_ret true
    else
      match taskRestartPolicy (TaskTemplate spec) with
      | None => st_ret false
      | Some policy =>
          if (negb job && bool_decide (is_Some (svcUpdateStatus service)) &&
              negb (bool_decide (State <$> svcUpdateStatus service = Some "completed"))) ||
             (job && bool_decide (svcJobStatus service = None))
          then st_ret false
          else if negb job && negb (restartsDisabled policy) && negb (finiteAttempts policy)
          then st_ret false
          else
            let! tasks := listTasks (svcID service) ("inspect service " +:+
              Name (specAnnotations spec) +:+ " retry tasks") in
            st_ret (bool_decide (is_Some
              (if job then JobTaskFailure spec (svcJobStatus service) tasks
               else if bool_decide (is_Some (Replicated (specMode spec))) && restartsDisabled policy
               then NonRestartingTaskFailure spec tasks (svcCreatedAt service)
               else TerminalServiceTaskFailure spec tasks (svcCreatedAt service))))
      end.

(** ** [checkUpdateSafety] *)
Definition taskRecreatingUpdate (current desired : ServiceSpec) : bool :=
  let current :=
    {| specAnnotations := specAnnotations desired; TaskTemplate := TaskTemplate current;
       specMode := specMode current; specUpdateConfig := specUpdateConfig desired;
       specRollbackConfig := specRollbackConfig desired; specEndpoint := specEndpoint current |} in
  negb (bool_decide (taskForceUpdate (TaskTemplate current) =
                     taskForceUpdate (TaskTemplate desired))) ||
  negb (SpecsEqual current desired).

(** [rechecks] observations are left. *)
Fixpoint recheckTemplateMismatch (rechecks : nat) (name : string) (current : DockerService)
    (replicas : N) (observed : executionSettlement) : A executionSettlement :=
  let! latest := inspect (svcID current) (λ e, wrapSwarm ("reinspect service " +:+ name +:+
    " during task template comparison: ") e) in
  if negb (bool_decide (svcID latest = svcID current)) ||
     negb (bool_decide (svcVersion latest = svcVersion current))
  then st_throw errSafetyInspectionChanged
  else if negb (bool_decide (reason observed = executionTemplateMismatchReason))
  then st_ret observed
  else match rechecks with
       | O => st_ret observed
       | S fewer =>
           λ s, match Backoff (templateMismatchRechecks - S fewer) (world s) with
                | (Some cause, w) => (Err (plainError cause), setWorld s w)
                | (None, w) =>
                    st_bind (listTasks (svcID current) ("recheck service " +:+ name +:+ " idle tasks"))
                      (λ tasks, recheckTemplateMismatch fewer name current replicas
                         (executionSettled (TaskTemplate (Spec current)) replicas tasks))
                      (setWorld s w)
                end
       end.

(** The specification to apply: a parked service is scaled to zero. *)
Definition checkUpdateSafety (name : string) (current : DockerService) (desired : ServiceSpec)
    : A ServiceSpec :=
  if negb (taskRecreatingUpdate (Spec current) desired) then st_ret desired
  else
    let blocked := ErrUpdateBlocked ("service " +:+ name +:+
      " requires zero replicas before applying task-recreating changes") in
    match currentReplicas (Spec current) with
    | None => st_throw blocked
    | Some replicas =>
        let park := negb (bool_decide (replicas = 0%N)) && restartDisabled (Spec current) &&
                    bool_decide (is_Some (Replicated (specMode desired))) in
        if negb (bool_decide (replicas = 0%N)) && negb park then st_throw blocked
        else
          let! tasks := listTasks (svcID current) ("check service " +:+ name +:+ " idle tasks") in
          let observed :=
            if park then executionSettled (TaskTemplate (Spec current)) replicas tasks
            else match firstActive tasks with
                 | Some t => settlement executionActiveTaskReason (Slot t)
                 | None => settlement executionSettledReason 0
                 end in
          let! observed :=
            (if bool_decide (reason observed = executionTemplateMismatchReason)
             then recheckTemplateMismatch templateMismatchRechecks name current replicas observed
             else st_ret observed) in
          match settlementError name observed with
          | Some e => st_throw e
          | None => st_ret (if park then withReplicas desired (Some 0%N) else desired)
          end
    end.

(** ** Preparing and writing one update *)
Definition displayNameOf (stackName fullName : string) : string :=
  let prefix := stackName +:+ "_" in
  if (String.length prefix <? String.length fullName)%nat && has_prefix prefix fullName
  then string_drop (String.length prefix) fullName else fullName.

(** [ForceUpdate++] on an unsigned 64-bit counter. *)
Definition nextForceUpdate (n : N) : N := ((n + 1) mod 2 ^ 64)%N.

(** The specification to send, and whether a resolved image is reused. *)
Definition prepareUpdate (name : string) (desired : ServiceSpec) (current : DockerService)
    (retryFailed : bool) : A (ServiceSpec * bool) :=
  let force := taskForceUpdate (TaskTemplate (Spec current)) in
  let applied := withForce (cloneSpec desired) force in
  let managed := default true (ReplicasManaged desired) in
  let! retry := retryRequired current (retryFailed && managed) in
  if negb retry && SpecsEqual (Spec current) desired then st_ret (cloneSpec (Spec current), true)
  else
    let applied := if retry : bool then withForce applied (nextForceUpdate force) else applied in
    let '(reused, applied) := normalizeImageResolution (Spec current) applied in
    if managed then st_ret (applied, reused)
    else
      let! applied := checkUpdateSafety name current (preserveReplicas (Spec current) applied) in
      st_ret (applied, reused).

Definition generationAt s (name : string) : UpdateGeneration :=
  default noGeneration (generations s !! name).

(** Persists an obligation before Docker can accept the write; the callback
    restores it after a definite refusal. *)
Definition recordGeneration (name : string) (g : UpdateGeneration) (failed : string)
    : A (option (W → option string * W)) :=
  λ s, match BeforeUpdate with
       | None => (Ok None, s)
       | Some before =>
           match before name g (world s) with
           | (Ok restore, w) => (Ok restore, logCall s w (Recorded name g))
           | (Err e, w) => (Err (plainError (failed +:+ e)), setWorld s w)
           end
       end.

Definition putGeneration (name : string) (g : UpdateGeneration) : A () :=
  st_modify (λ s, setGenerations s (<[name := g]> (generations s))).

(** After a refusal the obligation is the previous one. *)
Definition restoreGeneration (name : string) (previous : UpdateGeneration) : A () :=
  st_modify (λ s, setGenerations s
    (if bool_decide (ServiceID previous = "") then delete name (generations s)
     else <[name := previous]> (generations s))).

Definition runRestore (name : string) (restore : option (W → option string * W)) (e : swarmError)
    : A () :=
  λ s, match restore with
       | None => (Ok (), s)
       | Some restore =>
           match restore (world s) with
           | (None, w) => (Ok (), setWorld s w)
           | (Some text, w) =>
               (Err (joinApplyErrors [wrapSwarm "" e;
                  plainError ("restore service " +:+ name +:+ " verification: " +:+ text)]),
                setWorld s w)
           end
       end.

(** [Update]: the error is a result. *)
Definition sendUpdate (current : DockerService) (applied : ServiceSpec) (options : ServiceOptions)
    : A (option swarmError) :=
  λ s, let '(e, w) := Update (svcID current) (svcVersion current) applied options (world s) in
       (Ok e, logCall s w (Updated (svcID current) (svcVersion current) applied e)).

Definition ifM {B} (b : bool) (m : A B) (d : B) : A B := if b then m else st_ret d.

(** The service after a concurrent write, and whether nothing is left to do. *)
Definition refreshConcurrentUpdate (stackName displayName : string) (desired : ServiceSpec)
    (after : Time) (retryFailed : bool) (why : string) : A (DockerService * bool) :=
  let! current := inspect (Name (specAnnotations desired)) (λ e, wrapSwarm ("reinspect service " +:+
    displayName +:+ " after " +:+ why +:+ ": ") e) in
  do! requireOwnership stackName (Name (specAnnotations desired)) current in
  let! retry := retryRequired current retryFailed in
  let! authPending :=
    ifM (authOnlyUpdateSafe (Spec current))
      (let! credentials := resolveAuth desired (authFailed displayName) in
       λ s, (Ok (authRefreshRequired (svcID current) credentials s), s)) false in
  if SpecsEqual (Spec current) desired && negb retry && negb authPending then
    let before :=
      {| svcID := svcID current; svcVersion := svcVersion current; svcCreatedAt := svcCreatedAt current;
         svcUpdatedAt := after; Spec := default (Spec current) (svcPreviousSpec current);
         svcPreviousSpec := svcPreviousSpec current; svcUpdateStatus := svcUpdateStatus current;
         svcJobStatus := svcJobStatus current |} in
    λ s, let generation := updateGeneration (Spec current) before (generationAt s displayName) in
      st_bind (recordGeneration displayName generation "") (λ _,
        do! putGeneration displayName generation in st_ret (current, true)) s
  else st_ret (current, false).

(** Records the obligation, sends the specification, and handles a refusal. *)
Definition writeUpdate (stackName displayName : string) (desired : ServiceSpec)
    (current : DockerService) (retryFailed : bool) (applied : ServiceSpec) (reused : bool)
    : A (DockerService * bool) :=
  let! encoded := updateOptions (svcID current) applied displayName in
  λ s,
    let previous := generationAt s displayName in
    let generation := updateGeneration applied current previous in
    (let! restore := recordGeneration displayName generation
       ("record service " +:+ displayName +:+ " update generation: ") in
     do! putGeneration displayName generation in
     let! e := sendUpdate current applied
       {| encodedAuth := encoded.1; QueryRegistry := negb reused |} in
     match e with
     | None =>
         do! rememberAuth (svcID current) encoded.2 in
         st_ret (current, true)
     | Some e =>
         do! ifM (ServiceUpdateRejected e)
               (do! runRestore displayName restore e in
                restoreGeneration displayName previous) () in
         if bool_decide (e = ErrServiceConflict) then
           refreshConcurrentUpdate stackName displayName desired (svcUpdatedAt current)
             retryFailed "version conflict"
         else st_throw (wrapSwarm ("update service " +:+ displayName +:+ ": ") e)
     end) s.

(** The service to try again with, or [true] when the update is done. *)
Definition updateAttempt (stackName displayName : string) (desired : ServiceSpec)
    (current : DockerService) (retryFailed : bool) : A (DockerService * bool) :=
  λ s, match prepareUpdate displayName desired current retryFailed s with
       | (Err e, s) =>
           if isSafetyChanged e then
             refreshConcurrentUpdate stackName displayName desired (svcUpdatedAt current) retryFailed
               "external execution inspection" s
           else (Err e, s)
       | (Ok (applied, reused), s) =>
           writeUpdate stackName displayName desired current retryFailed applied reused s
       end.

Definition serviceUpdateAttempts : nat := 3.

Fixpoint update (attempts : nat) (stackName displayName : string) (desired : ServiceSpec)
    (current : DockerService) (retryFailed : bool) : A () :=
  match attempts with
  | O => st_throw (wrapSwarm ("update service " +:+ displayName +:+ ": version conflict after " +:+
           pretty (N.of_nat serviceUpdateAttempts) +:+ " attempts: ") ErrServiceConflict)
  | S attempts =>
      let! (refreshed, done) := updateAttempt stackName displayName desired current retryFailed in
      if done : bool then st_ret ()
      else update attempts stackName displayName desired refreshed retryFailed
  end.

(** ** One service *)
Definition inspectFailed (displayName : string) (e : swarmError) : applyError :=
  wrapSwarm ("inspect service " +:+ displayName +:+ ": ") e.

Definition createdService (id : string) (desired : ServiceSpec) : DockerService :=
  {| svcID := id; svcVersion := 0; svcCreatedAt := time_zero; svcUpdatedAt := time_zero;
     Spec := desired; svcPreviousSpec := None; svcUpdateStatus := None; svcJobStatus := None |}.

(** The current service, and whether it was created now. *)
Definition inspectOrCreate (stackName displayName : string) (desired : ServiceSpec)
    : A (DockerService * bool) :=
  let fullName := Name (specAnnotations desired) in
  let existing : A (DockerService * bool) :=
    let! current := inspect fullName (inspectFailed displayName) in
    do! requireOwnership stackName fullName current in st_ret (current, false) in
  λ s, match Inspect fullName (world s) with
       | (Ok current, w) =>
           st_bind (requireOwnership stackName fullName current)
             (λ _, st_ret (current, false)) (logCall s w (Inspected current))
       | (Err ErrServiceNotFound, w) =>
           (let! options := createOptions desired displayName in
            λ s, match Create desired options (world s) with
                 | (Ok id, w) =>
                     st_bind (rememberAuth id (encodedAuth options))
                       (λ _, st_ret (createdService id desired, true)) (logCall s w (Created desired))
                 | (Err ErrServiceConflict, w) => existing (logCall s w (Created desired))
                 | (Err e, w) =>
                     (Err (wrapSwarm ("create service " +:+ displayName +:+ ": ") e),
                      logCall s w (Created desired))
                 end) (setWorld s w)
       | (Err e, w) => (Err (inspectFailed displayName e), setWorld s w)
       end.

Definition updateRequired (displayName : string) (desired : ServiceSpec) (current : DockerService)
    (retryFailed : bool) : A bool :=
  if negb (SpecsEqual (Spec current) desired) then st_ret true
  else
    let! retry := retryRequired current retryFailed in
    if retry : bool then st_ret true
    else if negb (authOnlyUpdateSafe (Spec current)) then st_ret false
    else
      let! credentials := resolveAuth desired (authFailed displayName) in
      λ s, (Ok (authRefreshRequired (svcID current) credentials s), s).

(** Whether the service was created or updated. *)
Definition apply (stackName : string) (desired : ServiceSpec) (options : ApplyOptions) : A bool :=
  let displayName := displayNameOf stackName (Name (specAnnotations desired)) in
  match ReplicasManaged desired with
  | None => st_throw (plainError ("service " +:+ displayName +:+ " replicas ownership policy"))
  | Some managed =>
      let! (current, created) := inspectOrCreate stackName displayName desired in
      if created : bool then
        do! putGeneration displayName (updateGeneration desired current noGeneration) in st_ret true
      else
        let retryFailed := RetryFailedUpdates options && managed in
        let! required := updateRequired displayName desired current retryFailed in
        if negb required then st_ret false
        else
          do! update serviceUpdateAttempts stackName displayName desired current retryFailed in
          st_ret true
  end.

(** ** All services of a stack *)
Definition specLess (a b : ServiceSpec) : bool :=
  string_lt (Name (specAnnotations a)) (Name (specAnnotations b)).

(** The changed services, the error, and the state reached. *)
Fixpoint applyEach (stackName : string) (options : ApplyOptions) (specs : list ServiceSpec)
    (changed : list string) (blocked : list applyError) s
    : list string * option applyError * ApplierState W :=
  match specs with
  | [] => (changed, blockedApplyError blocked, s)
  | spec :: specs =>
      let name := displayNameOf stackName (Name (specAnnotations spec)) in
      match apply stackName spec options s with
      | (Ok serviceChanged, s) =>
          applyEach stackName options specs
            (if serviceChanged : bool then changed ++ [name] else changed) blocked s
      | (Err e, s) =>
          if isBlocked e then applyEach stackName options specs changed (blocked ++ [e]) s
          else (changed, Some (joinApplyErrors (blocked ++ [e])), s)
      end
  end.

Definition Apply (stackName : string) (specs : list ServiceSpec) (options : ApplyOptions) s
    : list string * option applyError * ApplierState W :=
  applyEach stackName options (stable_sort specLess specs) [] [] s.

(** ** [RefreshRegistryAuth] *)
Definition registryAuthRefreshAllowed (current : DockerService) (expected : ServiceSpec) : bool :=
  if bool_decide (is_Some (svcUpdateStatus current)) &&
     negb (bool_decide (State <$> svcUpdateStatus current = Some "completed"))
  then false
  else authOnlyUpdateSafe (Spec current) && SpecsEqual (Spec current) expected.

Fixpoint refreshRegistryAuth (attempts : nat) (stackName : string) (expected : ServiceSpec) : A () :=
  let fullName := Name (specAnnotations expected) in
  let name := displayNameOf stackName fullName in
  match attempts with
  | O => st_throw (plainError ("refresh service " +:+ name +:+
           " registry authentication: version conflict after " +:+
           pretty (N.of_nat serviceUpdateAttempts) +:+ " attempts"))
  | S attempts =>
      λ s, match Inspect fullName (world s) with
           | (Err ErrServiceNotFound, w) => (Ok (), setWorld s w)
           | (Err e, w) =>
               (Err (wrapSwarm ("inspect service " +:+ name +:+ " for registry authentication: ") e), setWorld s w)
           | (Ok current, w) =>
               (do! requireOwnership stackName fullName current in
                if negb (registryAuthRefreshAllowed current expected) then st_ret ()
                else
                  let! encoded := updateOptions (svcID current) (Spec current) name in
                  λ s,
                    if negb (authRefreshRequired (svcID current) encoded.2 s) then (Ok (), s)
                    else
                      (let! e := sendUpdate current (cloneSpec (Spec current))
                         {| encodedAuth := encoded.1; QueryRegistry := false |} in
                       match e with
                       | None => rememberAuth (svcID current) encoded.2
                       | Some ErrServiceConflict => refreshRegistryAuth attempts stackName expected
                       | Some e =>
                           st_throw (wrapSwarm ("refresh service " +:+ name +:+
                             " registry authentication: ") e)
                       end) s) (logCall s w (Inspected current))
           end
  end.

Fixpoint refreshEach (stackName : string) (specs : list ServiceSpec) (errs : list applyError) s
    : option applyError * ApplierState W :=
  match specs with
  | [] => (match errs with [] => None | _ => Some (joinApplyErrors errs) end, s)
  | spec :: specs =>
      match refreshRegistryAuth serviceUpdateAttempts stackName spec s with
      | (Ok _, s) => refreshEach stackName specs errs s
      | (Err e, s) => refreshEach stackName specs (errs ++ [e]) s
      end
  end.

Definition RefreshRegistryAuth (stackName : string) (specs : list ServiceSpec) s
    : option applyError * ApplierState W :=
  refreshEach stackName (stable_sort specLess specs) [] s.
End Applier.
