(* ===== verification/ApplierSafety.v ===== *)
(** * What the applier sends to Docker

    The calls an operation appends to the log are its trace. Every specification
    the applier sends is justified by the trace before it: the service was
    inspected at that version and is owned by the stack, the obligation was
    recorded, and the executions of an external scheduler are finished. *)
From S2P Require Import Prelude GoStrings TaskSpecs Deployments ServiceSpecs TaskFailure Applier.
Local Open Scope go_scope.

(** ** Traces *)
Definition isUpdated (c : Call) : bool := match c with Updated _ _ _ _ => true | _ => false end.
Definition updates (l : list Call) : nat := length (filter (λ c, isUpdated c = true) l).
Definition silent (l : list Call) : Prop := updates l = 0%nat.

Lemma updates_app l l' : updates (l ++ l') = (updates l + updates l')%nat.
Proof. unfold updates. by rewrite filter_app, length_app. Qed.

Lemma silent_app l l' : silent (l ++ l') ↔ silent l ∧ silent l'.
Proof. unfold silent. rewrite updates_app. lia. Qed.

Lemma silent_split l l1 id version spec answer l2 :
  silent l → l ≠ l1 ++ Updated id version spec answer :: l2.
Proof.
  intros Hs ->. apply silent_app in Hs as [_ Hs]. unfold silent, updates in Hs.
  by rewrite filter_cons_True in Hs.
Qed.

Section Traces.
Context `{DockerSDK, PlacementConstraints} {W : Type} `{ServiceManager W}.

(** The outcome of [m] and the calls it appends satisfy [Q]. *)
Definition emits {B} (m : A B) (Q : Result applyError B → list Call → Prop) : Prop :=
  ∀ s : ApplierState W, ∃ l, calls (m s).2 = calls s ++ l ∧ Q (m s).1 l.

(** [m] sends nothing, and its result satisfies [Q]. *)
Definition quiet {B} (m : A B) (Q : B → list Call → Prop) : Prop :=
  emits m (λ r l, silent l ∧ match r with Ok b => Q b l | Err _ => True end).

Lemma emits_mono {B} (m : A B) Q Q' :
  emits m Q → (∀ r l, Q r l → Q' r l) → emits m Q'.
Proof. intros Hm HQ s. destruct (Hm s) as (l & ? & ?). eauto. Qed.

Lemma emits_silent {B} (m : A B) (Q : _ → _ → Prop) :
  (∀ s, calls (m s).2 = calls s ∧ Q (m s).1 []) → emits m Q.
Proof. intros Hm s. exists []. rewrite app_nil_r. apply Hm. Qed.

Lemma emits_bind {B C} (m : A B) (f : B → A C) Q Q' :
  emits m Q →
  (∀ b l, Q (Ok b) l → emits (f b) (λ r l', Q' r (l ++ l'))) →
  (∀ e l, Q (Err e) l → Q' (Err e) l) →
  emits (st_bind m f) Q'.
Proof.
  intros Hm Hf He s. destruct (Hm s) as (l & Hl & HQ). unfold st_bind.
  destruct (m s) as [[b|e] s1]; simpl in *; [|eauto].
  destruct (Hf b l HQ s1) as (l' & Hl' & HQ'). exists (l ++ l').
  by rewrite Hl', Hl, (assoc_L (++)).
Qed.

Lemma quiet_bind {B C} (m : A B) (f : B → A C) Q Q' :
  quiet m Q →
  (∀ b l, Q b l → quiet (f b) (λ c l', Q' c (l ++ l'))) →
  quiet (st_bind m f) Q'.
Proof.
  intros Hm Hf. eapply emits_bind; [exact Hm| |].
  - intros b l [Hl HQ]. eapply emits_mono; [by apply Hf|].
    intros r l' [? ?]. by rewrite silent_app.
  - by intros e l [? _].
Qed.

Lemma quiet_mono {B} (m : A B) (Q Q' : B → list Call → Prop) :
  quiet m Q → (∀ b l, silent l → Q b l → Q' b l) → quiet m Q'.
Proof. intros Hm HQ. eapply emits_mono; [done|]. intros [] l [? ?]; naive_solver. Qed.

Lemma quiet_ret {B} (b : B) (Q : B → list Call → Prop) : Q b [] → quiet (st_ret b) Q.
Proof. intros. by apply emits_silent. Qed.

Lemma quiet_throw {B} e (Q : B → list Call → Prop) : quiet (st_throw e) Q.
Proof. by apply emits_silent. Qed.

Lemma quiet_modify f (Q : () → list Call → Prop) :
  (∀ s, calls (f s) = calls s) → Q () [] → quiet (st_modify f) Q.
Proof. intros Hf ?. apply emits_silent. intros s. split; [apply Hf|by split]. Qed.

Lemma modify_emits f :
  (∀ s, calls (f s) = calls s) → emits (st_modify f) (λ r l, l = [] ∧ is_ok r = true).
Proof. intros Hf. apply emits_silent. intros s. split; [apply Hf|done]. Qed.

Lemma quiet_read {B} (f : ApplierState W → B) (Q : B → list Call → Prop) :
  (∀ b, Q b []) → quiet (λ s, (Ok (f s), s)) Q.
Proof. intros HQ. apply emits_silent. intros s. split_and!; [done..|apply HQ]. Qed.

(** A body that starts by reading the state runs as what it reads makes it. *)
Lemma emits_state {B} (m : A B) Q :
  (∀ s, ∃ m', m s = m' s ∧ emits m' Q) → emits m Q.
Proof. intros Hm s. destruct (Hm s) as (m' & -> & Hm'). apply Hm'. Qed.

(** ** The calls that send nothing *)
Lemma inspect_quiet id failed : quiet (inspect id failed) (λ svc l, l = [Inspected svc]).
Proof.
  intros s. unfold inspect. destruct (Inspect _ _) as [[svc|e] w]; simpl.
  - by exists [Inspected svc].
  - exists []. by rewrite app_nil_r.
Qed.

Lemma listTasks_quiet id failed : quiet (listTasks id failed) (λ tasks l, l = [Listed id tasks]).
Proof.
  intros s. unfold listTasks. destruct (ServiceTasks _ _) as [[ts|e] w]; simpl.
  - by exists [Listed id ts].
  - exists []. by rewrite app_nil_r.
Qed.

(** The service the stack owns under the name of the specification. *)
Definition owned (stackName desiredName : string) (current : DockerService) : Prop :=
  svcID current ≠ "" ∧ Name (specAnnotations (Spec current)) = desiredName ∧
  map_index (Labels (specAnnotations (Spec current))) StackNamespace = stackName.

Lemma validateOwnership_owned stackName desiredName current :
  validateOwnership stackName desiredName current = None ↔ owned stackName desiredName current.
Proof.
  unfold validateOwnership, owned. repeat case_bool_decide; simpl; naive_solver.
Qed.

Lemma requireOwnership_quiet stackName desiredName current :
  quiet (requireOwnership stackName desiredName current)
    (λ _ l, l = [] ∧ owned stackName desiredName current).
Proof.
  unfold requireOwnership. destruct (validateOwnership _ _ _) eqn:E; [apply quiet_throw|].
  apply quiet_ret. by rewrite <- validateOwnership_owned.
Qed.

Lemma resolveAuth_quiet spec failed : quiet (resolveAuth spec failed) (λ _ l, l = []).
Proof.
  apply emits_silent. intros s. unfold resolveAuth.
  destruct (taskContainer _) as [c|]; [|done]. by destruct (ResolveImage _ _) as [[?|?] ?].
Qed.

Lemma updateOptions_quiet id spec name : quiet (updateOptions id spec name) (λ _ l, l = []).
Proof.
  eapply quiet_bind; [apply resolveAuth_quiet|]. intros c l ->. apply emits_silent. intros s.
  destruct (_ && _); [|done]. by destruct anonymousAuth.
Qed.

(** A retry is only ever required when retries are enabled. *)
Lemma retryRequired_quiet service enabled :
  quiet (retryRequired service enabled) (λ b _, b = true → enabled = true).
Proof.
  unfold retryRequired. destruct enabled; simpl; [|by apply quiet_ret].
  destruct (_ && failedUpdate _); [by apply quiet_ret|].
  destruct (taskRestartPolicy _) as [policy|]; [|by apply quiet_ret].
  destruct (_ || _); [by apply quiet_ret|]. destruct (_ && _); [by apply quiet_ret|].
  eapply quiet_bind; [apply listTasks_quiet|]. intros. by apply quiet_ret.
Qed.

(** ** Evidence that the requested executions are over *)

(** A listing of the tasks of the service in the trace shows none active. *)
Definition idleEvidence (current : DockerService) (l : list Call) : Prop :=
  ∃ tasks, Listed (svcID current) tasks ∈ l ∧ firstActive tasks = None.

(** A listing shows that every slot has run the current template. *)
Definition settledEvidence (current : DockerService) (replicas : N) (l : list Call) : Prop :=
  ∃ tasks, Listed (svcID current) tasks ∈ l ∧
    reason (executionSettled (TaskTemplate (Spec current)) replicas tasks) = executionSettledReason.

(** What [checkUpdateSafety] makes of a specification. *)
Definition safeSpec (current : DockerService) (desired sent : ServiceSpec) (l : list Call) : Prop :=
  (taskRecreatingUpdate (Spec current) desired = false ∧ sent = desired) ∨
  (currentReplicas (Spec current) = Some 0%N ∧ sent = desired ∧ idleEvidence current l) ∨
  (∃ replicas, currentReplicas (Spec current) = Some replicas ∧ replicas ≠ 0%N ∧
     restartDisabled (Spec current) = true ∧ sent = withReplicas desired (Some 0%N) ∧
     settledEvidence current replicas l).

Lemma safeSpec_mono current desired sent l1 l l2 :
  safeSpec current desired sent l → safeSpec current desired sent (l1 ++ l ++ l2).
Proof. unfold safeSpec, idleEvidence, settledEvidence. set_solver. Qed.

Lemma settlementError_None name s :
  settlementError name s = None ↔ reason s = executionSettledReason.
Proof. unfold settlementError. destruct (reason s); try done. by destruct (settlementOlder s). Qed.

Lemma recheck_quiet rechecks name current replicas observed :
  quiet (recheckTemplateMismatch rechecks name current replicas observed)
    (λ o l, o = observed ∨ ∃ tasks, Listed (svcID current) tasks ∈ l ∧
       o = executionSettled (TaskTemplate (Spec current)) replicas tasks).
Proof.
  revert observed. induction rechecks as [|rechecks IH]; intros observed; simpl;
    (eapply quiet_bind; [apply inspect_quiet|]); intros latest l ->.
  all: destruct (_ || _); [apply quiet_throw|]; destruct (negb _); [by apply quiet_ret; left|].
  { apply quiet_ret. by left. }
  assert (quiet (st_bind (listTasks (svcID current) ("recheck service " +:+ name +:+ " idle tasks"))
    (λ tasks, recheckTemplateMismatch rechecks name current replicas
       (executionSettled (TaskTemplate (Spec current)) replicas tasks)))
    (λ o l, ∃ tasks, Listed (svcID current) tasks ∈ l ∧
       o = executionSettled (TaskTemplate (Spec current)) replicas tasks)) as Hstep.
  { eapply quiet_bind; [apply listTasks_quiet|]. intros tasks l ->.
    eapply quiet_mono; [apply IH|]. intros o l _ [->|(ts & Hts & ->)]; [set_solver|].
    exists ts. set_solver. }
  intros s. destruct (Backoff _ _) as [[cause|] w]; simpl.
  { exists []. by rewrite app_nil_r. }
  destruct (Hstep (setWorld s w)) as (l & Hl & Hs & HQ). exists l. split_and!; [done|done|].
  destruct (_ (setWorld s w)).1 as [o|e]; [|done]. right. destruct HQ as (ts & Hts & ->). exists ts.
  set_solver.
Qed.

Lemma checkUpdateSafety_quiet name current desired :
  quiet (checkUpdateSafety name current desired) (safeSpec current desired).
Proof.
  unfold checkUpdateSafety. destruct (taskRecreatingUpdate _ _) eqn:Hrec; cbn [negb];
    [|apply quiet_ret; by left].
  destruct (currentReplicas _) as [replicas|] eqn:Hr; [|apply quiet_throw].
  set (park := _ && _ && _). destruct (_ && negb park) eqn:Hblock; [apply quiet_throw|].
  eapply quiet_bind; [apply listTasks_quiet|]. intros tasks l ->.
  set (observed := if park then _ else _).
  eapply (quiet_bind _ _ (λ o l, o = observed ∨ park = true ∧ ∃ tasks, Listed (svcID current) tasks ∈ l ∧
    o = executionSettled (TaskTemplate (Spec current)) replicas tasks)).
  { destruct park eqn:Hp.
    - destruct (bool_decide (reason observed = _)); [|by apply quiet_ret; left].
      eapply quiet_mono; [apply recheck_quiet|]. intros o l _ [?|?]; auto.
    - rewrite bool_decide_false by (by subst observed; destruct (firstActive tasks)).
      by apply quiet_ret; left. }
  intros o l Ho. destruct (settlementError _ _) eqn:He; [apply quiet_throw|].
  apply settlementError_None in He. apply quiet_ret. destruct park eqn:Hp.
  - subst park. apply andb_true_iff in Hp as [[Hz%negb_true_iff Hd]%andb_true_iff _].
    apply bool_decide_eq_false in Hz. right. right. exists replicas. split_and!; try done.
    destruct Ho as [->|(_ & ts & Hts & ->)]; [exists tasks|exists ts]; split; try done; set_solver.
  - destruct Ho as [->|[? _]]; [|done]. rewrite andb_true_r in Hblock.
    apply negb_false_iff, bool_decide_eq_true in Hblock as ->. right. left. split_and!; [done..|].
    exists tasks. split; [set_solver|]. subst observed. by destruct (firstActive tasks).
Qed.
(** ** Justified writes *)

(** What a write may send for a service that was inspected as [current]: the
    specification it has, or the desired one with the current generation counter
    (the next one for a retry), made safe for an external scheduler. *)
Definition sentFor (desired : ServiceSpec) (retry : bool) (current : DockerService)
    (sent : ServiceSpec) (l : list Call) : Prop :=
  (sent = cloneSpec (Spec current) ∧ SpecsEqual (Spec current) desired = true) ∨
  ∃ force,
    let serving := taskForceUpdate (TaskTemplate (Spec current)) in
    let wanted := (normalizeImageResolution (Spec current) (withForce (cloneSpec desired) force)).2 in
    (force = serving ∨ (force = nextForceUpdate serving ∧ retry = true ∧
                        ReplicasManaged desired ≠ Some false)) ∧
    if default true (ReplicasManaged desired) then sent = wanted
    else safeSpec current (preserveReplicas (Spec current) wanted) sent l.

(** The last call is the record of the obligation, when they are recorded. *)
Definition recordedFor (current : DockerService) (sent : ServiceSpec) (l : list Call) : Prop :=
  is_Some BeforeUpdate →
  ∃ l0 name previous, l = l0 ++ [Recorded name (updateGeneration sent current previous)].

Definition justifiedWrite (stackName : string) (desired : ServiceSpec) (retry : bool)
    (l : list Call) (id : string) (version : N) (sent : ServiceSpec) : Prop :=
  ∃ current, Inspected current ∈ l ∧ svcID current = id ∧ svcVersion current = version ∧
    owned stackName (Name (specAnnotations desired)) current ∧
    sentFor desired retry current sent l ∧ recordedFor current sent l.

Lemma sentFor_mono desired retry current sent l1 l l2 :
  sentFor desired retry current sent l → sentFor desired retry current sent (l1 ++ l ++ l2).
Proof.
  intros [?|(force & Hf & Hs)]; [by left|right]. exists force. split; [done|].
  destruct (default _ _); [done|by apply safeSpec_mono].
Qed.

Lemma justifiedWrite_mono stackName desired retry pre l id version sent :
  justifiedWrite stackName desired retry l id version sent →
  justifiedWrite stackName desired retry (pre ++ l) id version sent.
Proof.
  intros (current & Hi & Hid & Hv & Ho & Hs & Hr). exists current. split_and!; try done.
  - set_solver.
  - apply (sentFor_mono _ _ _ _ pre l []) in Hs. by rewrite app_nil_r in Hs.
  - intros Hb. destruct (Hr Hb) as (l0 & name & g & ->). exists (pre ++ l0), name, g.
    by rewrite (assoc_L (++)).
Qed.

(** Every write of [l] is justified by the calls before it, after those of [pre]. *)
Definition justified (J : list Call → string → N → ServiceSpec → Prop) (pre l : list Call) : Prop :=
  ∀ l1 id version sent answer l2, l = l1 ++ Updated id version sent answer :: l2 → J (pre ++ l1) id version sent.

Lemma justified_silent J pre l : silent l → justified J pre l.
Proof. intros Hs l1 id v sent answer l2 Hl. by eapply silent_split in Hl. Qed.

Lemma justified_app J pre l l' :
  justified J pre l → justified J (pre ++ l) l' → justified J pre (l ++ l').
Proof.
  intros Hl Hl' l1 id v sent answer l2 Heq. apply app_eq_inv in Heq as [(k & -> & Hk)|(k & -> & Hk)].
  - destruct k as [|c k]; simpl in Hk.
    + rewrite app_nil_r in Hl'. specialize (Hl' [] id v sent answer l2 (eq_sym Hk)).
      by rewrite app_nil_r in Hl'.
    + injection Hk as <- ->. eapply Hl. reflexivity.
  - rewrite (assoc_L (++)). eapply Hl'. exact Hk.
Qed.

Lemma justified_one J pre id version sent answer :
  J pre id version sent → justified J pre [Updated id version sent answer].
Proof.
  intros HJ l1 id' v' sent' answer' l2 Hl. destruct l1 as [|c l1]; simplify_eq/=; [by rewrite app_nil_r|].
  by destruct l1.
Qed.

Lemma justified_weaken J pre l :
  (∀ l1 id v sent, J l1 id v sent → J (pre ++ l1) id v sent) → justified J [] l → justified J pre l.
Proof. intros Hm Hl l1 id v sent answer l2 Heq. apply Hm. by eapply Hl. Qed.

(** ** One update *)
Lemma prepareUpdate_quiet name desired current retry :
  quiet (prepareUpdate name desired current retry) (λ p l, sentFor desired retry current p.1 l).
Proof.
  unfold prepareUpdate. eapply quiet_bind; [apply retryRequired_quiet|]. intros again l Hagain.
  destruct (negb again && SpecsEqual _ _) eqn:Heq.
  { apply quiet_ret. left. by apply andb_true_iff in Heq as [_ ?]. }
  set (force := if again : bool then nextForceUpdate (taskForceUpdate (TaskTemplate (Spec current)))
                else taskForceUpdate (TaskTemplate (Spec current))).
  assert ((if again then withForce (withForce (cloneSpec desired)
              (taskForceUpdate (TaskTemplate (Spec current))))
              (nextForceUpdate (taskForceUpdate (TaskTemplate (Spec current))))
           else withForce (cloneSpec desired) (taskForceUpdate (TaskTemplate (Spec current)))) =
          withForce (cloneSpec desired) force) as -> by (by destruct again).
  destruct (normalizeImageResolution _ _) as [reused wanted] eqn:Hwanted.
  assert (force = taskForceUpdate (TaskTemplate (Spec current)) ∨
    force = nextForceUpdate (taskForceUpdate (TaskTemplate (Spec current))) ∧ retry = true ∧
    ReplicasManaged desired ≠ Some false) as Hforce.
  { subst force. destruct again; [right|by left]. specialize (Hagain eq_refl).
    apply andb_true_iff in Hagain as [? Hm]. split_and!; [done..|]. intros Hr.
    by rewrite Hr in Hm. }
  destruct (default true (ReplicasManaged desired)) eqn:Hm.
  - apply quiet_ret. right. exists force. rewrite Hwanted, Hm. by split.
  - eapply quiet_bind; [apply checkUpdateSafety_quiet|]. intros sent l' Hsafe. apply quiet_ret.
    right. exists force. rewrite Hwanted, Hm. split; [done|]. simpl. rewrite app_nil_r.
    apply (safeSpec_mono _ _ _ l l' []) in Hsafe. by rewrite app_nil_r in Hsafe.
Qed.

Lemma recordGeneration_quiet name g failed :
  quiet (recordGeneration name g failed)
    (λ _ l, is_Some BeforeUpdate → ∃ l0, l = l0 ++ [Recorded name g]).
Proof.
  intros s. unfold recordGeneration. destruct BeforeUpdate as [before|] eqn:Hb; simpl.
  - destruct (before _ _ _) as [[restore|e] w]; simpl.
    + exists [Recorded name g]. split_and!; [done..|]. intros _. by exists [].
    + exists []. by rewrite app_nil_r.
  - exists []. rewrite app_nil_r. split_and!; [done..|]. by intros [? ?].
Qed.

Lemma restore_quiet name restore e previous :
  quiet (st_bind (runRestore name restore e) (λ _, restoreGeneration name previous)) (λ _ l, l = []).
Proof.
  eapply (quiet_bind _ _ (λ _ l, l = [])).
  - apply emits_silent. intros s. unfold runRestore. destruct restore as [f|]; [|done].
    by destruct (f _) as [[?|] ?].
  - intros [] l ->. by apply quiet_modify.
Qed.

Lemma refresh_quiet stackName displayName desired after retry why :
  quiet (refreshConcurrentUpdate stackName displayName desired after retry why)
    (λ p l, Inspected p.1 ∈ l ∧ owned stackName (Name (specAnnotations desired)) p.1).
Proof.
  unfold refreshConcurrentUpdate. eapply quiet_bind; [apply inspect_quiet|]. intros current l ->.
  eapply quiet_bind; [apply requireOwnership_quiet|]. intros [] l [-> Howned].
  eapply quiet_bind; [apply retryRequired_quiet|]. intros again l1 _.
  eapply (quiet_bind _ _ (λ _ _, True)).
  { unfold ifM. destruct (authOnlyUpdateSafe _); [|by apply quiet_ret].
    eapply quiet_bind; [apply resolveAuth_quiet|]. intros auth l _. by apply quiet_read. }
  intros pending l2 _. destruct (_ && _).
  - apply emits_state. intros s. eexists. split; [reflexivity|].
    eapply quiet_bind; [apply recordGeneration_quiet|]. intros restore l3 _.
    eapply (quiet_bind _ _ (λ _ _, True)); [by apply quiet_modify|]. intros [] l4 _.
    apply quiet_ret. simpl. split; [set_solver|done].
  - apply quiet_ret. simpl. split; [set_solver|done].
Qed.

(** An outcome of an attempt: at most one write, justified; another attempt
    starts from a service that was inspected again. *)
Definition attemptOutcome (stackName : string) (desired : ServiceSpec) (retry : bool)
    (pre : list Call) (r : Result applyError (DockerService * bool)) (l : list Call) : Prop :=
  justified (justifiedWrite stackName desired retry) pre l ∧ (updates l ≤ 1)%nat ∧
  ∀ current, r = Ok (current, false) →
    Inspected current ∈ l ∧ owned stackName (Name (specAnnotations desired)) current.

Lemma refresh_outcome stackName displayName desired after retry why enabled pre l0 :
  justified (justifiedWrite stackName desired enabled) pre l0 → (updates l0 ≤ 1)%nat →
  emits (refreshConcurrentUpdate stackName displayName desired after retry why)
    (λ r l, attemptOutcome stackName desired enabled pre r (l0 ++ l)).
Proof.
  intros HJ Hn. eapply emits_mono; [apply refresh_quiet|]. intros r l [Hl Hr]. split_and!.
  - apply justified_app; [done|by apply justified_silent].
  - rewrite updates_app. unfold silent in Hl. lia.
  - intros current ->. simpl in Hr. split; [set_solver|naive_solver].
Qed.
Lemma updates_one id version sent answer : updates [Updated id version sent answer] = 1%nat.
Proof. done. Qed.

Lemma sendUpdate_emits current sent options :
  emits (sendUpdate current sent options)
    (λ r l, ∃ e, r = Ok e ∧ l = [Updated (svcID current) (svcVersion current) sent e]).
Proof.
  intros s. unfold sendUpdate. destruct (Update _ _ _ _ _) as [e w]. simpl.
  exists [Updated (svcID current) (svcVersion current) sent e]. eauto.
Qed.

Lemma attemptOutcome_silent stackName desired retry pre r l :
  silent l → (∀ current, r ≠ Ok (current, false)) → attemptOutcome stackName desired retry pre r l.
Proof.
  intros Hl Hr. split_and!; [by apply justified_silent|unfold silent in Hl; lia|].
  intros current Heq. by destruct (Hr current).
Qed.

(** What follows the answer of Docker adds no write. *)
Lemma answered_outcome stackName displayName desired current retry enabled restore previous
    credentials pre lu (e : option swarmError) :
  justified (justifiedWrite stackName desired enabled) pre lu → (updates lu ≤ 1)%nat →
  emits match e with
    | None => st_bind (rememberAuth (svcID current) credentials) (λ _, st_ret (current, true))
    | Some e =>
        st_bind (ifM (ServiceUpdateRejected e)
                   (st_bind (runRestore displayName restore e)
                      (λ _, restoreGeneration displayName previous)) ())
          (λ _, if bool_decide (e = ErrServiceConflict) then
             refreshConcurrentUpdate stackName displayName desired (svcUpdatedAt current)
               retry "version conflict"
           else st_throw (wrapSwarm ("update service " +:+ displayName +:+ ": ") e))
    end (λ r l, attemptOutcome stackName desired enabled pre r (lu ++ l)).
Proof.
  intros HJ Hn.
  assert (∀ l, silent l → justified (justifiedWrite stackName desired enabled) pre (lu ++ l) ∧
    (updates (lu ++ l) ≤ 1)%nat) as Hmore.
  { intros l Hl. rewrite updates_app. unfold silent in Hl. split; [|lia].
    apply justified_app; [done|by apply justified_silent]. }
  destruct e as [e|].
  - eapply (emits_bind _ _ (λ _ l', silent l')).
    + unfold ifM. destruct (ServiceUpdateRejected e); [|by apply emits_silent].
      eapply emits_mono; [apply restore_quiet|]. by intros ? ? [? _].
    + intros [] l' Hl'. destruct (Hmore _ Hl'). case_bool_decide.
      * eapply emits_mono; [by eapply refresh_outcome|]. intros r l'' Hr. by rewrite (assoc_L (++)).
      * apply emits_silent. intros s'. rewrite app_nil_r. by split_and!.
    + intros e' l' Hl'. destruct (Hmore _ Hl'). by split_and!.
  - eapply emits_bind; [by apply modify_emits| |by intros ? ? [_ ?]]. intros [] ? [-> _].
    apply emits_silent. intros s'. split; [done|]. cbn [app]. rewrite app_nil_r. by split_and!.
Qed.

Lemma writeUpdate_outcome stackName displayName desired current retry enabled sent reused pre :
  Inspected current ∈ pre → owned stackName (Name (specAnnotations desired)) current →
  sentFor desired enabled current sent pre →
  emits (writeUpdate stackName displayName desired current retry sent reused)
    (attemptOutcome stackName desired enabled pre).
Proof.
  intros Hin Howned Hsent. unfold writeUpdate.
  eapply emits_bind; [apply updateOptions_quiet| |]; [|intros e l [Hl _]; by apply attemptOutcome_silent].
  intros encoded l [_ ->]. simpl. apply emits_state. intros s.
  eexists. split; [reflexivity|]. set (g := updateGeneration sent current _).
  eapply emits_bind; [apply recordGeneration_quiet| |]; [|intros e l [Hl _]; by apply attemptOutcome_silent].
  intros restore l [Hl Hrec].
  eapply emits_bind; [by apply modify_emits| |by intros ? ? [_ ?]]. intros [] ? [-> _]. cbn [app].
  eapply emits_bind; [apply sendUpdate_emits| |by intros e l' (? & ? & _)].
  intros ? u (e & [= ->] & Hu). eapply emits_mono; [apply (answered_outcome _ _ _ _ _ enabled _ _ _ pre (l ++ u))|].
  - subst u. apply justified_app; [by apply justified_silent|]. apply justified_one. exists current.
    split_and!; try done; [set_solver| |].
    + by apply (sentFor_mono _ _ _ _ [] pre l) in Hsent.
    + intros Hb. destruct (Hrec Hb) as [l0 ->]. eexists (pre ++ l0), displayName, _.
      by rewrite (assoc_L (++)).
  - subst u. rewrite updates_app, updates_one. unfold silent in Hl. lia.
  - intros r l' Hr. cbv beta. by rewrite (assoc_L (++) l u l').
Qed.

Lemma updateAttempt_outcome stackName displayName desired current retry pre :
  Inspected current ∈ pre → owned stackName (Name (specAnnotations desired)) current →
  emits (updateAttempt stackName displayName desired current retry)
    (attemptOutcome stackName desired retry pre).
Proof.
  intros Hin Howned s. unfold updateAttempt.
  destruct (prepareUpdate_quiet displayName desired current retry s) as (l & Hl & Hs & Hr).
  destruct (prepareUpdate _ _ _ _ s) as [[[sent reused]|e] s1]; simpl in *.
  - destruct (writeUpdate_outcome stackName displayName desired current retry retry sent reused
      (pre ++ l)) with (s := s1) as (l' & Hl' & HJ & Hn & Hc); [set_solver|done| |].
    { by apply (sentFor_mono _ _ _ _ pre l []) in Hr; rewrite app_nil_r in Hr. }
    exists (l ++ l'). rewrite Hl', Hl, (assoc_L (++)). split; [done|]. split_and!.
    + apply justified_app; [by apply justified_silent|done].
    + rewrite updates_app. unfold silent in Hs. lia.
    + intros c Hc'. destruct (Hc c Hc'). split; [set_solver|done].
  - destruct (isSafetyChanged e).
    + destruct (refresh_outcome stackName displayName desired (svcUpdatedAt current) retry
        "external execution inspection" retry pre l) with (s := s1) as (l' & Hl' & Ho).
      { by apply justified_silent. }
      { unfold silent in Hs. lia. }
      exists (l ++ l'). rewrite Hl', Hl, (assoc_L (++)). by split.
    + exists l. split; [done|]. by apply attemptOutcome_silent.
Qed.

Lemma update_outcome attempts stackName displayName desired current retry pre :
  Inspected current ∈ pre → owned stackName (Name (specAnnotations desired)) current →
  emits (update attempts stackName displayName desired current retry)
    (λ _ l, justified (justifiedWrite stackName desired retry) pre l ∧ (updates l ≤ attempts)%nat).
Proof.
  revert current pre. induction attempts as [|attempts IH]; intros current pre Hin Howned; simpl.
  { apply emits_silent. intros s. split; [done|]. split; [by apply justified_silent|done]. }
  eapply emits_bind; [by eapply updateAttempt_outcome| |].
  - intros [refreshed done] l (HJ & Hn & Hr). destruct done.
    + apply emits_silent. intros s. rewrite app_nil_r. split_and!; [done..|lia].
    + destruct (Hr _ eq_refl) as [Hin' Howned'].
      eapply emits_mono; [apply (IH _ (pre ++ l)); [set_solver|done]|]. intros r l' [HJ' Hn'].
      split; [by apply justified_app|]. rewrite updates_app. lia.
  - intros e l (HJ & Hn & _). split; [done|lia].
Qed.

(** A body that runs after a call, or in another world. *)
Lemma quiet_logged {B} c (m : A B) (Q : B → list Call → Prop) s w :
  isUpdated c = false → quiet m (λ b l, Q b ([c] ++ l)) →
  ∃ l, calls (m (logCall s w c)).2 = calls s ++ l ∧ silent l ∧
    match (m (logCall s w c)).1 with Ok b => Q b l | Err _ => True end.
Proof.
  intros Hc Hm. destruct (Hm (logCall s w c)) as (l & Hl & Hs & HQ). exists ([c] ++ l).
  split_and!; [by rewrite Hl, (assoc_L (++))| |done].
  apply silent_app. split; [|done]. unfold silent, updates.
  by rewrite filter_cons_False by (by rewrite Hc).
Qed.

Lemma quiet_moved {B} (m : A B) (Q : B → list Call → Prop) s w :
  quiet m Q →
  ∃ l, calls (m (setWorld s w)).2 = calls s ++ l ∧ silent l ∧
    match (m (setWorld s w)).1 with Ok b => Q b l | Err _ => True end.
Proof. intros Hm. apply (Hm (setWorld s w)). Qed.

(** ** One service, and all of them *)
Lemma inspectOrCreate_quiet stackName displayName desired :
  quiet (inspectOrCreate stackName displayName desired)
    (λ p l, p.2 = false →
       Inspected p.1 ∈ l ∧ owned stackName (Name (specAnnotations desired)) p.1).
Proof.
  set (Q := λ (p : DockerService * bool) (l : list Call), p.2 = false →
    Inspected p.1 ∈ l ∧ owned stackName (Name (specAnnotations desired)) p.1).
  assert (∀ current l, Inspected current ∈ l → quiet (st_bind
    (requireOwnership stackName (Name (specAnnotations desired)) current)
    (λ _, st_ret (current, false))) (λ p l', Q p (l ++ l'))) as Hown.
  { intros current l Hin. eapply quiet_bind; [apply requireOwnership_quiet|].
    intros [] l' [-> Ho]. apply quiet_ret. intros _. split; [set_solver|done]. }
  intros s. unfold inspectOrCreate. destruct (Inspect _ _) as [[current|[]] w];
    try (by exists []; rewrite app_nil_r).
  - apply (quiet_logged _ (λ s, _ s)); [done|]. apply Hown. set_solver.
  - apply (quiet_moved (λ s, _ s)).
    eapply (quiet_bind _ _ (λ _ _, True)).
    { eapply quiet_bind; [apply resolveAuth_quiet|]. intros auth l _. by apply quiet_ret. }
    intros options l _. intros s1. destruct (Create _ _ _) as [[id|[]] w1];
      try (by exists [Created desired]).
    apply (quiet_logged _ (λ s, _ s)); [done|].
    eapply quiet_bind; [apply inspect_quiet|]. intros current l' ->.
    eapply quiet_mono; [apply (Hown current [Inspected current]); set_solver|].
    intros p l' _ Hp Hc. destruct (Hp Hc). split; [set_solver|done].
Qed.
Lemma updateRequired_quiet displayName desired current retry :
  quiet (updateRequired displayName desired current retry) (λ _ _, True).
Proof.
  unfold updateRequired. destruct (negb _); [by apply quiet_ret|].
  eapply quiet_bind; [apply retryRequired_quiet|]. intros [] l _; [by apply quiet_ret|].
  destruct (negb _); [by apply quiet_ret|].
  eapply quiet_bind; [apply resolveAuth_quiet|]. intros c l' _. by apply quiet_read.
Qed.

Lemma justifiedWrite_retry stackName desired retry retry' l id version sent :
  (retry = true → retry' = true) → justifiedWrite stackName desired retry l id version sent →
  justifiedWrite stackName desired retry' l id version sent.
Proof. unfold justifiedWrite, sentFor. naive_solver. Qed.

Lemma justified_mono (J J' : list Call → string → N → ServiceSpec → Prop) pre l :
  (∀ l id version sent, J l id version sent → J' l id version sent) →
  justified J pre l → justified J' pre l.
Proof. intros HJ Hl l1 id v sent answer l2 Heq. eapply HJ, Hl, Heq. Qed.

Lemma apply_outcome stackName desired options :
  emits (apply stackName desired options)
    (λ _ l, justified (justifiedWrite stackName desired (RetryFailedUpdates options)) [] l ∧
            (updates l ≤ serviceUpdateAttempts)%nat).
Proof.
  set (Q := λ l, justified (justifiedWrite stackName desired (RetryFailedUpdates options)) [] l ∧
                 (updates l ≤ serviceUpdateAttempts)%nat).
  assert (∀ l, silent l → Q l) as HQ.
  { intros l Hl. split; [by apply justified_silent|unfold silent in Hl; lia]. }
  unfold apply. destruct (ReplicasManaged desired) as [managed|];
    [|apply emits_silent; split; [done|by apply HQ]].
  eapply emits_bind; [apply inspectOrCreate_quiet| |by intros e l [? _]; apply HQ].
  intros [current created] l [Hl Hc]. destruct created; simpl in Hc.
  { eapply emits_bind; [by apply modify_emits| |by intros ? ? [_ ?]]. intros [] ? [-> _].
    apply emits_silent. intros s. split; [done|]. rewrite !app_nil_r. by apply HQ. }
  destruct (Hc eq_refl) as [Hin Howned].
  eapply emits_bind; [apply updateRequired_quiet| |].
  2: { intros e l' [Hl' _]. apply HQ. by apply silent_app. }
  intros required l' [Hl' _]. destruct required; cbn [negb].
  2: { apply emits_silent. intros s. split; [done|]. rewrite app_nil_r. apply HQ. by apply silent_app. }
  assert (∀ l'', justified (justifiedWrite stackName desired (RetryFailedUpdates options && managed))
      (l ++ l') l'' → (updates l'' ≤ serviceUpdateAttempts)%nat → Q (l ++ l' ++ l'')) as Hjoin.
  { intros l'' HJ Hn. rewrite (assoc_L (++)). split.
    - apply justified_app; [by apply justified_silent, silent_app|].
      eapply justified_mono; [|exact HJ]. intros ? ? ? ?. apply justifiedWrite_retry.
      by intros [? _]%andb_true_iff.
    - rewrite updates_app. assert (silent (l ++ l')) as Hs by (by apply silent_app).
      unfold silent in Hs. lia. }
  eapply emits_bind; [apply (update_outcome _ _ _ _ _ _ (l ++ l')); [set_solver|done]| |].
  - intros [] l'' [HJ Hn]. apply emits_silent. intros s. split; [done|]. rewrite app_nil_r.
    by apply Hjoin.
  - intros e l'' [HJ Hn]. by apply Hjoin.
Qed.

(** A write of one of the services. *)
Definition stackWrite (stackName : string) (options : ApplyOptions) (specs : list ServiceSpec)
    (l : list Call) (id : string) (version : N) (sent : ServiceSpec) : Prop :=
  ∃ desired, desired ∈ specs ∧
    justifiedWrite stackName desired (RetryFailedUpdates options) l id version sent.

Lemma applyEach_outcome stackName options specs changed blocked s :
  ∃ l, calls (applyEach stackName options specs changed blocked s).2 = calls s ++ l ∧
    justified (stackWrite stackName options specs) [] l ∧
    (updates l ≤ serviceUpdateAttempts * length specs)%nat.
Proof.
  revert changed blocked s. induction specs as [|spec specs IH]; intros changed blocked s.
  { exists []. rewrite app_nil_r. split_and!; [done|by apply justified_silent|done]. }
  cbn [applyEach length].
  destruct (apply_outcome stackName spec options s) as (l & Hl & HJ & Hn).
  assert (justified (stackWrite stackName options (spec :: specs)) [] l) as Hhead.
  { eapply justified_mono; [|exact HJ]. intros ? ? ? ? ?. exists spec. split; [by left|done]. }
  assert (∀ (r : list string * option applyError * ApplierState W) (s1 : ApplierState W),
    calls s1 = calls s ++ l →
    (∃ l', calls r.2 = calls s1 ++ l' ∧ justified (stackWrite stackName options specs) [] l' ∧
       (updates l' ≤ serviceUpdateAttempts * length specs)%nat) →
    ∃ l', calls r.2 = calls s ++ l' ∧
      justified (stackWrite stackName options (spec :: specs)) [] l' ∧
      (updates l' ≤ serviceUpdateAttempts * S (length specs))%nat) as Hrest.
  { intros r s1 Hs1 (l' & Hl' & HJ' & Hn'). exists (l ++ l'). rewrite Hl', Hs1, (assoc_L (++)).
    split; [done|]. rewrite updates_app. split; [|lia]. apply justified_app; [done|]. simpl.
    apply justified_weaken.
    - intros l1 id v sent (desired & Hd & Hw). exists desired. split; [done|].
      by apply justifiedWrite_mono.
    - eapply justified_mono; [|exact HJ']. intros ? ? ? ? (desired & Hd & Hw).
      exists desired. split; [by right|done]. }
  destruct (apply _ _ _ _) as [[[]|e] s1]; simpl in Hl; [by eapply Hrest|by eapply Hrest|].
  destruct (isBlocked e); [by eapply Hrest|]. exists l. split_and!; [done..|]. cbn [snd] in *. nia.
Qed.

Lemma stable_sort_elem (less : ServiceSpec → ServiceSpec → bool) specs x :
  x ∈ stable_sort less specs → x ∈ specs.
Proof. by rewrite stable_sort_perm. Qed.
Lemma Apply_outcome stackName specs options s :
  ∃ l, calls (Apply stackName specs options s).2 = calls s ++ l ∧
    justified (stackWrite stackName options specs) [] l ∧
    (updates l ≤ serviceUpdateAttempts * length specs)%nat.
Proof.
  destruct (applyEach_outcome stackName options (stable_sort specLess specs) [] [] s)
    as (l & Hl & HJ & Hn). exists l. split_and!; [done| |].
  - eapply justified_mono; [|exact HJ]. intros ? ? ? ? (desired & Hd & Hw). exists desired.
    split; [by eapply stable_sort_elem|done].
  - by rewrite (Permutation_length (stable_sort_perm specLess specs)) in Hn.
Qed.

(** The write that follows [l1] in a run of [Apply] is one of the stack. *)
Lemma Apply_write stackName specs options s l1 id version sent answer l2 :
  calls (Apply stackName specs options s).2 = calls s ++ l1 ++ Updated id version sent answer :: l2 →
  stackWrite stackName options specs l1 id version sent.
Proof.
  intros Hcalls. destruct (Apply_outcome stackName specs options s) as (l & Hl & HJ & _).
  rewrite Hl in Hcalls. apply app_inv_head in Hcalls. exact (HJ _ _ _ _ _ _ Hcalls).
Qed.

(** C12. Every specification [Apply] sends goes to a service of the stack: it was
    inspected earlier in the run with the identifier and the version of the
    write, it has the name of one of the desired services, and its namespace
    label is the stack. So a service of another stack is never touched, and a
    write never overwrites a version the run has not seen. *)
Theorem Apply_writes_what_it_owns (stackName : string) (specs : list ServiceSpec)
    (options : ApplyOptions) (s : ApplierState W) (l1 : list Call) (id : string) (version : N)
    (sent : ServiceSpec) (answer : option swarmError) (l2 : list Call)
    (Hcalls : calls (Apply stackName specs options s).2 =
              calls s ++ l1 ++ Updated id version sent answer :: l2) :
  ∃ desired current, desired ∈ specs ∧ Inspected current ∈ l1 ∧
    svcID current = id ∧ svcVersion current = version ∧ id ≠ "" ∧
    Name (specAnnotations (Spec current)) = Name (specAnnotations desired) ∧
    map_index (Labels (specAnnotations (Spec current))) StackNamespace = stackName.
Proof.
  apply Apply_write in Hcalls as (desired & Hd & current & Hi & <- & Hv & (Hid & Hn & Hs) & _).
  by exists desired, current.
Qed.


(** Verification obligations are persisted write-ahead: when the caller
    records them, the call directly before every write records the generation of
    exactly the specification that is sent, for the service it goes to. *)
Theorem obligation_is_recorded_first (stackName : string) (specs : list ServiceSpec)
    (options : ApplyOptions) (s : ApplierState W) (l1 : list Call) (id : string) (version : N)
    (sent : ServiceSpec) (answer : option swarmError) (l2 : list Call)
    (Hcalls : calls (Apply stackName specs options s).2 =
              calls s ++ l1 ++ Updated id version sent answer :: l2)
    (Hrecords : is_Some (BeforeUpdate (W := W))) :
  ∃ l0 name current previous,
    l1 = l0 ++ [Recorded name (updateGeneration sent current previous)] ∧
    Inspected current ∈ l0 ∧ svcID current = id ∧ svcVersion current = version.
Proof.
  apply Apply_write in Hcalls as (desired & Hd & current & Hi & Hid & Hv & Ho & _ & Hrec).
  destruct (Hrec Hrecords) as (l0 & name & previous & ->). exists l0, name, current, previous.
  split_and!; try done. apply elem_of_app in Hi as [?|Hi]; [done|].
  by apply list_elem_of_singleton in Hi.
Qed.

(** An apply of a stack sends at most three writes for each service, whatever
    the other writers of the cluster do. *)
Theorem Apply_write_bound (stackName : string) (specs : list ServiceSpec)
    (options : ApplyOptions) (s : ApplierState W) :
  ∃ l, calls (Apply stackName specs options s).2 = calls s ++ l ∧
    (updates l ≤ 3 * length specs)%nat.
Proof.
  destruct (Apply_outcome stackName specs options s) as (l & Hl & _ & Hn). by exists l.
Qed.
End Traces.
