(* ===== verification/ApplierResults.v ===== *)
(** * What the applier reports, and when an execution is settled

    The slots of a replicated service that never restarts tasks, the report of
    an apply, the refresh of registry credentials, and runs on concrete
    services. *)
From S2P Require Import Prelude GoStrings TaskSpecs Deployments ServiceSpecs TaskFailure Applier ApplierSafety.
Local Open Scope go_scope.

(** ** The newest task of a slot *)

(** The first of the most recently created tasks of the slot. *)
Definition newestOf (slot : Z) (tasks : list ServiceTask) (t : ServiceTask) : Prop :=
  ∃ l1 l2, tasks = l1 ++ t :: l2 ∧ Slot t = slot ∧
    (∀ t', t' ∈ l1 → Slot t' = slot → (taskCreatedAt t' < taskCreatedAt t)%Z) ∧
    (∀ t', t' ∈ l2 → Slot t' = slot → (taskCreatedAt t' ≤ taskCreatedAt t)%Z).

Lemma newestOf_snoc_same slot tasks x t :
  Slot x ≠ slot → newestOf slot (tasks ++ [x]) t ↔ newestOf slot tasks t.
Proof.
  intros Hx. split.
  - intros (l1 & l2 & Heq & Ht & H1 & H2).
    destruct l2 as [|y l2 _] using rev_ind.
    { apply app_inj_2 in Heq as [_ Heq]; [|done]. by simplify_eq. }
    assert (tasks ++ [x] = (l1 ++ t :: l2) ++ [y]) as Heq' by (by rewrite Heq, <- (assoc_L (++))).
    apply app_inj_2 in Heq' as [-> _]; [|done]. exists l1, l2. split_and!; try done.
    intros t' ?. apply H2. set_solver.
  - intros (l1 & l2 & -> & Ht & H1 & H2). exists l1, (l2 ++ [x]).
    rewrite <- (assoc_L (++)). split_and!; try done. intros t' [?|Hin]%elem_of_app; [by apply H2|].
    apply list_elem_of_singleton in Hin as ->. done.
Qed.

Lemma newestOf_None_snoc slot tasks x :
  Slot x = slot → (∀ t, t ∈ tasks → Slot t ≠ slot) → newestOf slot (tasks ++ [x]) x.
Proof. intros Hx Hno. exists tasks, []. split_and!; [done..|set_solver|set_solver]. Qed.

Lemma newestOf_snoc slot tasks x p :
  Slot x = slot → newestOf slot tasks p →
  newestOf slot (tasks ++ [x]) (if (taskCreatedAt p <? taskCreatedAt x)%Z then x else p).
Proof.
  intros Hx (l1 & l2 & -> & Hp & H1 & H2). destruct (Z.ltb_spec (taskCreatedAt p) (taskCreatedAt x)).
  - exists (l1 ++ p :: l2), []. split_and!; [done..| |set_solver].
    intros t' [Hin|[->|Hin]%elem_of_cons]%elem_of_app Ht'; [|lia|].
    + specialize (H1 _ Hin Ht'). lia.
    + specialize (H2 _ Hin Ht'). lia.
  - exists l1, (l2 ++ [x]). rewrite <- (assoc_L (++)). split_and!; try done.
    intros t' [Hin|Hin]%elem_of_app Ht'; [by apply H2|]. apply list_elem_of_singleton in Hin as ->. lia.
Qed.

(** What the map holds for a slot. *)
Definition holdsNewest (slot : Z) (tasks : list ServiceTask) (o : option ServiceTask) : Prop :=
  match o with Some t => newestOf slot tasks t | None => ∀ t, t ∈ tasks → Slot t ≠ slot end.

Lemma newestBySlot_spec replicas tasks slot :
  (1 ≤ slot ≤ Z.of_N replicas)%Z → holdsNewest slot tasks (newestBySlot replicas tasks !! slot).
Proof.
  intros Hslot. induction tasks as [|x tasks IH] using rev_ind; [set_solver|].
  unfold newestBySlot in *. rewrite foldl_app. simpl.
  set (m := foldl _ _ tasks) in *. clearbody m. destruct (decide (Slot x = slot)) as [Hx|Hx].
  - assert ((Slot x <? 1)%Z || (replicas <? Z.to_N (Slot x))%N = false) as ->.
    { apply orb_false_iff. split; [apply Z.ltb_ge; lia|apply N.ltb_ge; lia]. }
    rewrite Hx. destruct (m !! slot) as [p|] eqn:Hm; simpl in IH.
    + pose proof (newestOf_snoc _ _ _ _ Hx IH) as Hnew. revert Hnew.
      destruct (_ <? _)%Z; simpl; [by rewrite lookup_insert_eq|by rewrite Hm].
    + rewrite lookup_insert_eq. by apply newestOf_None_snoc.
  - assert (holdsNewest slot (tasks ++ [x]) (m !! slot)) as Hsame.
    { destruct (m !! slot); simpl in *; [by apply newestOf_snoc_same|].
      intros t [?|Hin]%elem_of_app; [by apply IH|]. by apply list_elem_of_singleton in Hin as ->. }
    destruct (_ || _); [done|]. destruct (m !! Slot x) as [p|]; [destruct (_ <? _)%Z; [|done]|];
      by rewrite lookup_insert_ne.
Qed.

Lemma newestOf_unique slot tasks t t' : newestOf slot tasks t → newestOf slot tasks t' → t = t'.
Proof.
  intros (l1 & l2 & -> & Ht & H1 & H2) (k1 & k2 & Heq & Ht' & H1' & H2').
  apply app_eq_inv in Heq as [(k & Hk1 & Hk)|(k & Hk1 & Hk)]; destruct k as [|y k]; simplify_eq/=; try done.
  - specialize (H1 y ltac:(set_solver) Ht'). specialize (H2' t ltac:(set_solver) eq_refl). lia.
  - specialize (H1' y ltac:(set_solver) eq_refl). specialize (H2 t' ltac:(set_solver) Ht'). lia.
Qed.

(** ** Settled executions *)
Lemma settleSlots_settled template newest slots acc :
  reason (settleSlots template newest slots acc) = executionSettledReason ↔
  reason acc = executionSettledReason ∧
  ∀ slot, slot ∈ slots → ∃ t, newest !! slot = Some t ∧ DesiredState t ≠ TaskStateRemove ∧
    taskSpec t = normalizeTaskSpec template.
Proof.
  revert acc. induction slots as [|slot slots IH]; intros acc; simpl; [set_solver|].
  destruct (newest !! slot) as [t|] eqn:Ht.
  2: { split; [done|]. intros [_ Hall]. destruct (Hall slot) as (? & ? & _); [by left|congruence]. }
  destruct (decide (DesiredState t = TaskStateRemove)) as [Hrem|Hrem].
  { rewrite bool_decide_true by done. split; [done|]. intros [_ Hall].
    destruct (Hall slot) as (? & ? & ? & _); [by left|congruence]. }
  rewrite bool_decide_false by done. pose proof (Equal_spec (taskSpec t) template) as HE.
  destruct (Equal _).
  - rewrite IH. split; intros [Hacc Hall]; split; try done; intros slot' Hin; [|apply Hall; by right].
    apply elem_of_cons in Hin as [->|Hin]; [|by apply Hall]. exists t. split_and!; [done..|naive_solver].
  - assert (∀ P : Prop, P ∧ (∀ slot', slot' ∈ slot :: slots → ∃ t, newest !! slot' = Some t ∧
      DesiredState t ≠ TaskStateRemove ∧ taskSpec t = normalizeTaskSpec template) → False) as Hno.
    { intros P [_ Hall]. destruct (Hall slot) as (t' & ? & _ & Hspec); [by left|].
      assert (t' = t) as -> by congruence. by apply HE in Hspec. }
    destruct (negb _); [|rewrite IH]; split; try done; [|intros [? _]; done|]; by intros ?%Hno.
Qed.

(** An execution of a service that never restarts tasks is settled exactly
    when no task is active and, in every slot up to the replica count, the most
    recent task was created from the current template, the generation counter
    included, and is not being removed. *)
Theorem executionSettled_exact (template : TaskSpec) (replicas : N) (tasks : list ServiceTask) :
  reason (executionSettled template replicas tasks) = executionSettledReason ↔
  (∀ t, t ∈ tasks → taskActive (CurrentState t) = false) ∧
  ∀ slot, (1 ≤ slot ≤ Z.of_N replicas)%Z → ∃ t, newestOf slot tasks t ∧
    DesiredState t ≠ TaskStateRemove ∧ taskSpec t = normalizeTaskSpec template.
Proof.
  unfold executionSettled. destruct (firstActive tasks) as [t|] eqn:Hact.
  - split; [done|]. intros [Hno _]. unfold firstActive in Hact.
    apply find_some in Hact as [Hin%list_elem_of_In Ha]. by rewrite (Hno t Hin) in Ha.
  - rewrite settleSlots_settled. simpl. split.
    + intros [_ Hall]. split.
      { intros t Hin%list_elem_of_In. exact (find_none _ _ Hact t Hin). }
      intros slot Hslot. destruct (Hall slot) as (t & Ht & ?); [apply elem_of_seqZ; lia|].
      exists t. split; [|done]. pose proof (newestBySlot_spec replicas tasks slot Hslot) as Hn.
      by rewrite Ht in Hn.
    + intros [_ Hall]. split; [done|]. intros slot Hslot%elem_of_seqZ.
      destruct (Hall slot) as (t & Ht & ?); [lia|]. exists t. split; [|done].
      pose proof (newestBySlot_spec replicas tasks slot ltac:(lia)) as Hn.
      destruct (newestBySlot replicas tasks !! slot) as [t'|]; simpl in Hn.
      * f_equal. by eapply newestOf_unique.
      * destruct Ht as (l1 & l2 & -> & Hs & _). destruct (Hn t); [set_solver|done].
Qed.

Section Reports.
Context `{DockerSDK, PlacementConstraints} {W : Type} `{ServiceManager W}.

(** ** The report of an apply *)

(** The services that were applied in turn, each with its outcome. *)
Inductive applyRuns (stackName : string) (options : ApplyOptions)
    : ApplierState W → list (ServiceSpec * Result applyError bool) → ApplierState W → Prop :=
| runs_none s : applyRuns stackName options s [] s
| runs_one s spec r s1 runs s2 :
    apply stackName spec options s = (r, s1) →
    applyRuns stackName options s1 runs s2 →
    applyRuns stackName options s ((spec, r) :: runs) s2.

Definition outcomeError (run : ServiceSpec * Result applyError bool) : option applyError :=
  match run.2 with Err e => Some e | Ok _ => None end.

Definition changedName (stackName : string) (run : ServiceSpec * Result applyError bool)
    : option string :=
  match run.2 with
  | Ok true => Some (displayNameOf stackName (Name (specAnnotations run.1)))
  | _ => None
  end.

Definition allBlocked (runs : list (ServiceSpec * Result applyError bool)) : bool :=
  forallb isBlocked (omap outcomeError runs).

Lemma applyEach_reports stackName options specs changed blocked s changed' err s' :
  forallb isBlocked blocked = true →
  applyEach stackName options specs changed blocked s = (changed', err, s') →
  ∃ runs rest, applyRuns stackName options s runs s' ∧ specs = map fst runs ++ rest ∧
    changed' = changed ++ omap (changedName stackName) runs ∧
    let errs := blocked ++ omap outcomeError runs in
    if allBlocked runs then rest = [] ∧ err = blockedApplyError errs
    else err = Some (joinApplyErrors errs).
Proof.
  revert changed blocked s. induction specs as [|spec specs IH]; intros changed blocked s Hb.
  { intros [= <- <- <-]. exists [], []. rewrite !app_nil_r. split_and!; [constructor|done..]. }
  cbn [applyEach]. destruct (apply _ _ _ _) as [r s1] eqn:Hrun.
  assert (∀ changed1 blocked1, forallb isBlocked blocked1 = true →
    changed1 = changed ++ omap (changedName stackName) [(spec, r)] →
    blocked1 = blocked ++ omap outcomeError [(spec, r)] → allBlocked [(spec, r)] = true →
    applyEach stackName options specs changed1 blocked1 s1 = (changed', err, s') →
    ∃ runs rest, applyRuns stackName options s runs s' ∧ spec :: specs = map fst runs ++ rest ∧
      changed' = changed ++ omap (changedName stackName) runs ∧
      let errs := blocked ++ omap outcomeError runs in
      if allBlocked runs then rest = [] ∧ err = blockedApplyError errs
      else err = Some (joinApplyErrors errs)) as Hgo.
  { intros changed1 blocked1 Hb1 -> -> Hall Heq.
    destruct (IH _ _ _ Hb1 Heq) as (runs & rest & Hruns & -> & -> & Hend).
    exists ((spec, r) :: runs), rest. split_and!; [by econstructor|done| |].
    - rewrite <- (assoc_L (++)). f_equal. simpl. by destruct (changedName _ _).
    - revert Hall Hend. unfold allBlocked. rewrite <- (assoc_L (++)). simpl.
      destruct (outcomeError (spec, r)) as [e|]; simpl; [|done].
      by intros ->%andb_true_iff%proj1. }
  destruct r as [b|e].
  - apply Hgo; try done; [by destruct b; rewrite ?app_nil_r|by rewrite app_nil_r].
  - destruct (isBlocked e) eqn:He.
    + apply Hgo; try done; [by rewrite forallb_app, Hb; simpl; rewrite He|by rewrite app_nil_r|].
      unfold allBlocked. simpl. by rewrite He.
    + intros [= <- <- <-]. exists [(spec, Err e)], specs.
      split_and!; [econstructor; [exact Hrun|constructor]|done|by rewrite app_nil_r|].
      unfold allBlocked. simpl. by rewrite He.
Qed.

(** An apply handles the services one after the other in the order of their
    names. A service whose update is blocked does not stop the others; any other
    error ends the apply there. The services reported as changed are exactly
    those that were created or updated, the error carries every error that
    occurred, and the apply succeeds only when every service did; it is deferred,
    to be retried when the executions end, exactly when all that occurred was
    busy services. *)
Theorem Apply_reports (stackName : string) (specs : list ServiceSpec) (options : ApplyOptions)
    (s : ApplierState W) :
  let '(changed, err, s') := Apply stackName specs options s in
  ∃ runs rest, applyRuns stackName options s runs s' ∧
    stable_sort specLess specs = map fst runs ++ rest ∧
    changed = omap (changedName stackName) runs ∧
    let errs := omap outcomeError runs in
    (if forallb isBlocked errs then rest = [] else True) ∧
    applyText <$> err = match errs with
                        | [] => None
                        | _ => Some ((if forallb isBusy errs && forallb isBlocked errs
                                      then "externally managed service update deferred until active tasks finish: "
                                      else "") +:+ applyText (joinApplyErrors errs))
                        end.
Proof.
  destruct (Apply stackName specs options s) as [[changed err] s'] eqn:Heq. unfold Apply in Heq.
  apply applyEach_reports in Heq as (runs & rest & Hruns & Hspecs & Hchanged & Herr); [|done].
  exists runs, rest. split_and!; [done..|]. revert Herr. unfold allBlocked. simpl.
  destruct (forallb isBlocked (omap _ _)) eqn:Hall.
  - intros [-> ->]. split; [done|]. rewrite andb_true_r. unfold blockedApplyError.
    destruct (omap outcomeError runs) as [|e errs]; [done|]. by destruct (forallb isBusy (e :: errs)).
  - intros ->. split; [done|]. rewrite andb_false_r. revert Hall.
    by destruct (omap outcomeError runs).
Qed.
(** ** Registry credentials *)
Definition credentialsWrite (stackName : string) (specs : list ServiceSpec) (l : list Call)
    (id : string) (version : N) (sent : ServiceSpec) : Prop :=
  ∃ expected current, expected ∈ specs ∧ Inspected current ∈ l ∧
    svcID current = id ∧ svcVersion current = version ∧
    owned stackName (Name (specAnnotations expected)) current ∧
    registryAuthRefreshAllowed current expected = true ∧ sent = cloneSpec (Spec current).

Lemma credentialsWrite_mono stackName specs pre l id version sent :
  credentialsWrite stackName specs l id version sent →
  credentialsWrite stackName specs (pre ++ l) id version sent.
Proof.
  intros (expected & current & ? & ? & ?). exists expected, current. split_and!; try naive_solver.
  set_solver.
Qed.

Definition refreshOutcome (stackName : string) (specs : list ServiceSpec) (n : nat)
    (l : list Call) : Prop :=
  justified (credentialsWrite stackName specs) [] l ∧ (updates l ≤ n)%nat.

Lemma refreshOutcome_silent stackName specs n l : silent l → refreshOutcome stackName specs n l.
Proof. intros Hl. split; [by apply justified_silent|unfold silent in Hl; lia]. Qed.

Lemma refreshOutcome_app stackName specs n n' l l' :
  refreshOutcome stackName specs n l → refreshOutcome stackName specs n' l' →
  refreshOutcome stackName specs (n + n') (l ++ l').
Proof.
  intros [HJ Hn] [HJ' Hn']. split; [|rewrite updates_app; lia].
  apply justified_app; [done|]. apply justified_weaken; [|done].
  intros ? ? ? ?. apply credentialsWrite_mono.
Qed.

(** The part of an attempt after the service was inspected. *)
Lemma sendCredentials_outcome stackName specs expected current attempts (rest : A ())
    (f : swarmError → applyError) n credentials options :
  expected ∈ specs → owned stackName (Name (specAnnotations expected)) current →
  registryAuthRefreshAllowed current expected = true →
  emits rest (λ _ l, refreshOutcome stackName specs attempts l) → n = S attempts →
  emits (st_bind (sendUpdate current (cloneSpec (Spec current)) options) (λ e, match e with
      | None => rememberAuth (svcID current) credentials
      | Some ErrServiceConflict => rest
      | Some e => st_throw (f e)
      end)) (λ _ l, refreshOutcome stackName specs n ([Inspected current] ++ l)).
Proof.
  intros Hin Howned Hallowed Hrest ->.
  assert (∀ e l, refreshOutcome stackName specs attempts l → refreshOutcome stackName specs (S attempts)
    ([Inspected current] ++ [Updated (svcID current) (svcVersion current) (cloneSpec (Spec current)) e]
     ++ l)) as Hmore.
  { intros e l Hl. rewrite (assoc_L (++)). apply (refreshOutcome_app _ _ 1 attempts); [|done].
    split; [|done]. apply justified_app; [by apply justified_silent|]. apply justified_one.
    exists expected, current. split_and!; try done. set_solver. }
  eapply emits_bind; [apply sendUpdate_emits| |by intros ? ? (? & ? & _)].
  intros ? u (e & [= ->] & ->). destruct e as [[]|].
  1,3,4: apply emits_silent; intros s; split; [done|]; by apply Hmore, refreshOutcome_silent.
  - eapply emits_mono; [exact Hrest|]. intros r l Hl. by apply Hmore.
  - eapply emits_mono; [by apply modify_emits|]. intros r l [-> _]. by apply Hmore, refreshOutcome_silent.
Qed.

Lemma refreshRegistryAuth_outcome attempts stackName specs expected :
  expected ∈ specs →
  emits (refreshRegistryAuth attempts stackName expected)
    (λ _ l, refreshOutcome stackName specs attempts l).
Proof.
  intros Hin. induction attempts as [|attempts IH]; cbn [refreshRegistryAuth].
  { apply emits_silent. intros s. split; [done|by apply refreshOutcome_silent]. }
  intros s. destruct (Inspect _ _) as [[current|[]] w];
    try (exists []; rewrite app_nil_r; split; [done|by apply refreshOutcome_silent]).
  match goal with |- ∃ l, calls (?m ?s1).2 = _ ∧ _ =>
    assert (emits m (λ _ l, refreshOutcome stackName specs (S attempts) ([Inspected current] ++ l)))
      as Hm; [|destruct (Hm s1) as (l & Hl & HQ); exists ([Inspected current] ++ l);
               rewrite Hl; simpl; by rewrite <- (assoc_L (++))]
  end.
  assert (∀ l, silent l → refreshOutcome stackName specs (S attempts) ([Inspected current] ++ l)) as Hs
    by (intros l Hl; by apply refreshOutcome_silent, silent_app).
  eapply emits_bind; [apply requireOwnership_quiet| |by intros e l [? _]; apply Hs].
  intros [] l [_ [-> Howned]]. cbn [app].
  destruct (registryAuthRefreshAllowed current expected) eqn:Hallowed; cbn [negb].
  2: { apply emits_silent. intros s'. split; [done|by apply Hs]. }
  eapply emits_bind; [apply updateOptions_quiet| |by intros e l [? _]; apply Hs].
  intros encoded l [_ ->]. cbn [app]. apply emits_state. intros s1.
  destruct (negb _).
  - exists (λ s, (Ok (), s)). split; [done|]. apply emits_silent. intros s'. split; [done|by apply Hs].
  - eexists. split; [reflexivity|]. by eapply sendCredentials_outcome.
Qed.

Lemma refreshEach_outcome stackName all specs errs s :
  specs ⊆ all →
  ∃ l, calls (refreshEach stackName specs errs s).2 = calls s ++ l ∧
    refreshOutcome stackName all (serviceUpdateAttempts * length specs) l.
Proof.
  revert errs s. induction specs as [|spec specs IH]; intros errs s Hsub; cbn [refreshEach].
  { exists []. rewrite app_nil_r. split; [done|by apply refreshOutcome_silent]. }
  destruct (refreshRegistryAuth_outcome serviceUpdateAttempts stackName all spec ltac:(set_solver) s)
    as (l & Hl & HQ).
  assert (∀ errs s1, calls s1 = calls s ++ l → ∃ l, calls (refreshEach stackName specs errs s1).2 =
    calls s ++ l ∧ refreshOutcome stackName all (serviceUpdateAttempts * length (spec :: specs)) l)
    as Hrest.
  { intros errs1 s1 Hs1. destruct (IH errs1 s1 ltac:(set_solver)) as (l' & Hl' & HQ').
    exists (l ++ l'). rewrite Hl', Hs1, (assoc_L (++)). split; [done|].
    replace (serviceUpdateAttempts * length (spec :: specs))%nat with
      (serviceUpdateAttempts + serviceUpdateAttempts * length specs)%nat by (simpl; lia).
    by apply refreshOutcome_app. }
  by destruct (refreshRegistryAuth _ _ _ _) as [[]s1]; apply Hrest.
Qed.

(** Refreshing registry credentials changes no specification: everything it
    sends is the specification the service was inspected with, at that version,
    for a service of the stack that is up to date with what is expected, that no
    update is in flight for, and whose tasks the write cannot restart; at most
    three times for each service. *)
Theorem credentials_refresh_keeps_specs (stackName : string) (specs : list ServiceSpec)
    (s : ApplierState W) :
  ∃ l, calls (RefreshRegistryAuth stackName specs s).2 = calls s ++ l ∧
    (updates l ≤ 3 * length specs)%nat ∧
    ∀ l1 id version sent answer l2, l = l1 ++ Updated id version sent answer :: l2 →
      ∃ expected current, expected ∈ specs ∧ Inspected current ∈ l1 ∧
        svcID current = id ∧ svcVersion current = version ∧
        Name (specAnnotations (Spec current)) = Name (specAnnotations expected) ∧
        map_index (Labels (specAnnotations (Spec current))) StackNamespace = stackName ∧
        SpecsEqual (Spec current) expected = true ∧ authOnlyUpdateSafe (Spec current) = true ∧
        (∀ status, svcUpdateStatus current = Some status → State status = "completed") ∧
        sent = cloneSpec (Spec current).
Proof.
  destruct (refreshEach_outcome stackName specs (stable_sort specLess specs) [] s) as (l & Hl & HJ & Hn).
  { intros x. apply stable_sort_elem. }
  exists l. split_and!; [done|by rewrite (Permutation_length (stable_sort_perm specLess specs)) in Hn|].
  intros l1 id version sent answer l2 Heq.
  destruct (HJ _ _ _ _ _ _ Heq) as (expected & current & ? & ? & ? & ? & (? & ? & ?) & Hallowed & ?).
  exists expected, current. unfold registryAuthRefreshAllowed in Hallowed.
  destruct (_ && negb _) eqn:Hbusy; [done|]. apply andb_true_iff in Hallowed as [? ?].
  split_and!; try done. intros status Hstatus. rewrite Hstatus in Hbusy.
  rewrite bool_decide_true in Hbusy by done. apply negb_false_iff, bool_decide_eq_true in Hbusy.
  by injection Hbusy.
Qed.
End Reports.

(** ** Runs on concrete services *)
Module ApplierExample.
Import SpecsExample.
#[local] Existing Instance sdk.

#[local] Instance constraints : PlacementConstraints :=
  {| Constraint := string; constraint_Parse := λ l, Some l; NodeMatches := λ _ _, true |}.

Definition live (managed : bool) (replicas : N) : DockerService :=
  {| svcID := "api-id"; svcVersion := 4; svcCreatedAt := 1; svcUpdatedAt := 2;
     Spec := spec "app_api" "api:1" managed replicas; svcPreviousSpec := None;
     svcUpdateStatus := None; svcJobStatus := None |}.

(** One service that accepts every write. *)
#[local] Instance docker (managed : bool) (replicas : N) : ServiceManager unit :=
  {| Inspect := λ _ w, (Ok (live managed replicas), w); Create := λ _ _ w, (Ok "new-id", w);
     Update := λ _ _ _ _ w, (None, w); ServiceTasks := λ _ w, (Ok [], w);
     Backoff := λ _ w, (None, w); ResolveImage := λ _ w, (Ok "", w); anonymousAuth := Ok "e30=";
     BeforeUpdate := Some (λ _ _ w, (Ok None, w)); sha256 := λ s, s |}.

Definition start : ApplierState unit :=
  {| world := (); auth := ∅; generations := ∅; calls := [] |}.

Definition options : ApplyOptions := {| RetryFailedUpdates := true |}.

Definition wanted (managed : bool) : list ServiceSpec := [spec "app_api" "api:2" managed 1].

(** The obligation of a new image: running tasks of the old one do not count. *)
Definition obligation : UpdateGeneration :=
  {| ServiceID := "api-id"; ForceUpdate := 0; After_ := 2; Mode := VerifyNewGeneration;
     BeforeSpecDigest := "1"; TasksAfter := 0 |}.

Lemma Apply_writes_what_it_owns_witness :
  ∃ desired current, desired ∈ wanted true ∧
    Inspected current ∈ [Inspected (live true 1); Recorded "api" obligation] ∧
    svcID current = "api-id" ∧ svcVersion current = 4%N ∧ "api-id" ≠ "" ∧
    Name (specAnnotations (Spec current)) = Name (specAnnotations desired) ∧
    map_index (Labels (specAnnotations (Spec current))) StackNamespace = "app".
Proof.
  refine (Apply_writes_what_it_owns (H1 := docker true 1) "app" (wanted true) options start
    [Inspected (live true 1); Recorded "api" obligation] "api-id" 4
    (spec "app_api" "api:2" true 1) None [] _).
  by vm_compute.
Defined.
Lemma obligation_is_recorded_first_witness :
  ∃ l0 name current previous,
    [Inspected (live true 1); Recorded "api" obligation] =
      l0 ++ [Recorded name (updateGeneration (spec "app_api" "api:2" true 1) current previous)] ∧
    Inspected current ∈ l0 ∧ svcID current = "api-id" ∧ svcVersion current = 4%N.
Proof.
  refine (obligation_is_recorded_first (H1 := docker true 1) "app" (wanted true) options start
    [Inspected (live true 1); Recorded "api" obligation] "api-id" 4
    (spec "app_api" "api:2" true 1) None [] _ _); [by vm_compute|by eexists].
Defined.

(** A service that an external scheduler has scaled to zero: the write keeps the
    zero replicas, after a listing without active tasks. *)
Definition idleTrace : list Call :=
  [Inspected (live false 0); Listed "api-id" []; Recorded "api" obligation].

End ApplierExample.
