(* ===== verification/ApplierObligations.v ===== *)
(** * Every write that Docker may have accepted leaves an obligation

    The generations of an apply name each service whose update may have been
    accepted: after a definite refusal the previous entry is restored, after any
    other answer the entry of the write stays. *)
From S2P Require Import Prelude GoStrings TaskSpecs Deployments ServiceSpecs TaskFailure Applier ApplierSafety ApplierResults.
Local Open Scope go_scope.

(** An answer that is not a definite refusal. *)
Definition accepted (answer : option swarmError) : bool :=
  match answer with Some e => negb (ServiceUpdateRejected e) | None => true end.

Definition acceptedIn (l : list Call) (id : string) : Prop :=
  ∃ version sent answer, Updated id version sent answer ∈ l ∧ accepted answer = true.

Lemma acceptedIn_app l l' id : acceptedIn (l ++ l') id ↔ acceptedIn l id ∨ acceptedIn l' id.
Proof. unfold acceptedIn. set_solver. Qed.

Lemma acceptedIn_silent l id : silent l → ¬ acceptedIn l id.
Proof.
  intros Hl (v & sent & answer & [l1 [l2 ->]]%list_elem_of_split & _). by eapply silent_split in Hl.
Qed.

Lemma acceptedIn_one id version sent answer id' :
  acceptedIn [Updated id version sent answer] id' ↔ id' = id ∧ accepted answer = true.
Proof.
  unfold acceptedIn. split.
  - intros (v & s & a & Hin & Ha). apply list_elem_of_singleton in Hin. by simplify_eq.
  - intros [-> Ha]. exists version, sent, answer. split; [by left|done].
Qed.

Section Obligations.
Context `{DockerSDK, PlacementConstraints} {W : Type} `{ServiceManager W}.
Implicit Types (g : gmap string UpdateGeneration).

(** ** Runs from given generations *)
Definition runsFrom {B} g (m : A B)
    (Q : Result applyError B → list Call → gmap string UpdateGeneration → Prop) : Prop :=
  ∀ s : ApplierState W, generations s = g →
    ∃ l, calls (m s).2 = calls s ++ l ∧ Q (m s).1 l (generations (m s).2).

Lemma runsFrom_mono {B} g (m : A B) Q Q' :
  runsFrom g m Q → (∀ r l g', Q r l g' → Q' r l g') → runsFrom g m Q'.
Proof. intros Hm HQ s Hs. destruct (Hm s Hs) as (l & ? & ?). eauto. Qed.

Lemma runsFrom_bind {B C} g (m : A B) (f : B → A C) Q Q' :
  runsFrom g m Q →
  (∀ b l g1, Q (Ok b) l g1 → runsFrom g1 (f b) (λ r l' g2, Q' r (l ++ l') g2)) →
  (∀ e l g1, Q (Err e) l g1 → Q' (Err e) l g1) →
  runsFrom g (st_bind m f) Q'.
Proof.
  intros Hm Hf He s Hs. destruct (Hm s Hs) as (l & Hl & HQ). unfold st_bind.
  destruct (m s) as [[b|e] s1]; simpl in *; [|eauto].
  destruct (Hf b l _ HQ s1 eq_refl) as (l' & Hl' & HQ'). exists (l ++ l').
  by rewrite Hl', Hl, (assoc_L (++)).
Qed.

(** Steps that leave the generations as they are. *)
Definition keeps {B} (m : A B) : Prop := ∀ s : ApplierState W, generations (m s).2 = generations s.

Lemma keeps_bind {B C} (m : A B) (f : B → A C) :
  keeps m → (∀ b, keeps (f b)) → keeps (st_bind m f).
Proof.
  intros Hm Hf s. unfold st_bind. specialize (Hm s). destruct (m s) as [[b|e] s1]; [|done].
  by rewrite Hf.
Qed.

Lemma keeps_ret {B} (b : B) : keeps (st_ret b).
Proof. done. Qed.

Lemma keeps_throw {B} e : keeps (st_throw e : A B).
Proof. done. Qed.

Lemma runsFrom_still {B} g (m : A B) (Q : B → list Call → Prop) :
  quiet m Q → keeps m →
  runsFrom g m (λ r l g', silent l ∧ g' = g ∧ match r with Ok b => Q b l | Err _ => True end).
Proof.
  intros Hq Hk s Hs. destruct (Hq s) as (l & Hl & Hs' & HQ). exists l. by rewrite Hk.
Qed.

Lemma inspect_keeps id failed : keeps (inspect id failed).
Proof. intros s. unfold inspect. by destruct (Inspect _ _) as [[?|?] ?]. Qed.

Lemma listTasks_keeps id failed : keeps (listTasks id failed).
Proof. intros s. unfold listTasks. by destruct (ServiceTasks _ _) as [[?|?] ?]. Qed.

Lemma requireOwnership_keeps stackName desiredName current :
  keeps (requireOwnership stackName desiredName current).
Proof. intros s. unfold requireOwnership. by destruct (validateOwnership _ _ _). Qed.

Lemma resolveAuth_keeps spec failed : keeps (resolveAuth spec failed).
Proof.
  intros s. unfold resolveAuth. destruct (taskContainer _); [|done].
  by destruct (ResolveImage _ _) as [[?|?] ?].
Qed.

#[local] Hint Resolve keeps_bind keeps_ret keeps_throw inspect_keeps listTasks_keeps
  requireOwnership_keeps resolveAuth_keeps : keeps.

Lemma updateOptions_keeps id spec name : keeps (updateOptions id spec name).
Proof.
  apply keeps_bind; [eauto with keeps|]. intros c s. destruct (_ && _); [|done].
  by destruct anonymousAuth.
Qed.

Lemma retryRequired_keeps service enabled : keeps (retryRequired service enabled).
Proof.
  unfold retryRequired. repeat case_match; eauto with keeps.
Qed.

Lemma recheck_keeps rechecks name current replicas observed :
  keeps (recheckTemplateMismatch rechecks name current replicas observed).
Proof.
  revert observed. induction rechecks as [|rechecks IH]; intros observed; simpl;
    (apply keeps_bind; [eauto with keeps|]); intros latest.
  all: destruct (_ || _); [eauto with keeps|]; destruct (negb _); [eauto with keeps|].
  { eauto with keeps. }
  intros s. destruct (Backoff _ _) as [[cause|] w]; [done|].
  rewrite (keeps_bind _ _ (listTasks_keeps _ _) (λ _, IH _)). done.
Qed.

Lemma checkUpdateSafety_keeps name current desired : keeps (checkUpdateSafety name current desired).
Proof.
  unfold checkUpdateSafety. destruct (negb _); [eauto with keeps|].
  destruct (currentReplicas _); [|eauto with keeps]. destruct (_ && negb _); [eauto with keeps|].
  apply keeps_bind; [eauto with keeps|]. intros tasks. apply keeps_bind.
  - destruct (bool_decide (reason _ = _)); [apply recheck_keeps|eauto with keeps].
  - intros o. destruct (settlementError _ _); eauto with keeps.
Qed.

Lemma prepareUpdate_keeps name desired current retry :
  keeps (prepareUpdate name desired current retry).
Proof.
  unfold prepareUpdate. apply keeps_bind; [apply retryRequired_keeps|]. intros again.
  destruct (_ && _); [eauto with keeps|]. destruct (normalizeImageResolution _ _).
  destruct (default _ _); [eauto with keeps|].
  apply keeps_bind; [apply checkUpdateSafety_keeps|eauto with keeps].
Qed.

Lemma recordGeneration_keeps name u failed : keeps (recordGeneration name u failed).
Proof.
  intros s. unfold recordGeneration. destruct BeforeUpdate as [before|]; [|done].
  by destruct (before _ _ _) as [[?|?] ?].
Qed.

Lemma runRestore_keeps name restore e : keeps (runRestore name restore e).
Proof.
  intros s. unfold runRestore. destruct restore as [f|]; [|done]. by destruct (f _) as [[?|] ?].
Qed.

Lemma sendUpdate_keeps current sent options : keeps (sendUpdate current sent options).
Proof. intros s. unfold sendUpdate. by destruct (Update _ _ _ _ _). Qed.
(** ** Tracking *)

(** Only the entry of [n] changes, and it names every service a write of which
    may have been accepted. *)
Definition tracked (n : string) g (l : list Call) (g' : gmap string UpdateGeneration) : Prop :=
  (∀ k, k ≠ n → g' !! k = g !! k) ∧
  ∀ id, acceptedIn l id → ∃ e, g' !! n = Some e ∧ ServiceID e = id.

Lemma tracked_silent n g l : silent l → tracked n g l g.
Proof. intros Hl. split; [done|]. intros id Ha. by apply acceptedIn_silent in Ha. Qed.

(** A part in which every write was refused does not count. *)
Lemma tracked_after n g l g1 l' g2 :
  (∀ k, k ≠ n → g1 !! k = g !! k) → (∀ id, ¬ acceptedIn l id) →
  tracked n g1 l' g2 → tracked n g (l ++ l') g2.
Proof.
  intros Hk Hno [Hk' Ha]. split; [intros k Hne; by rewrite Hk', Hk|].
  intros id [?|?]%acceptedIn_app; [by destruct (Hno id)|by apply Ha].
Qed.

Lemma tracked_before n g l g1 l' :
  tracked n g l g1 → silent l' → tracked n g (l ++ l') g1.
Proof.
  intros [Hk Ha] Hl. split; [done|]. intros id [?|Hin]%acceptedIn_app; [by apply Ha|].
  by apply acceptedIn_silent in Hin.
Qed.

Definition attemptTracks (n : string) g (r : Result applyError (DockerService * bool))
    (l : list Call) (g' : gmap string UpdateGeneration) : Prop :=
  tracked n g l g' ∧ (∀ c, r = Ok (c, true) → is_Some (g' !! n)) ∧
  (∀ c, r = Ok (c, false) → ∀ id, ¬ acceptedIn l id).

Lemma attemptTracks_error n g l e : silent l → attemptTracks n g (Err e) l g.
Proof. intros Hl. split; [by apply tracked_silent|done]. Qed.

Lemma updateGeneration_id spec current previous :
  ServiceID (updateGeneration spec current previous) = svcID current.
Proof. unfold updateGeneration. by repeat case_match. Qed.

Lemma attemptTracks_prefix n g r l l' g' :
  silent l → attemptTracks n g r l' g' → attemptTracks n g r (l ++ l') g'.
Proof.
  intros Hl (Ht & Hok & Hno). split_and!; [|done|].
  - eapply tracked_after; [done| |done]. intros id. by apply acceptedIn_silent.
  - intros c Hr id [Ha|Ha]%acceptedIn_app; [by apply acceptedIn_silent in Ha|by eapply Hno].
Qed.

(** A step that sends nothing and keeps the generations, before the rest. *)
Lemma tracks_bind {B} n g (m : A B) f (Q : B → list Call → Prop) :
  quiet m Q → keeps m → (∀ b l, Q b l → runsFrom g (f b) (attemptTracks n g)) →
  runsFrom g (st_bind m f) (attemptTracks n g).
Proof.
  intros Hq Hk Hf. eapply runsFrom_bind; [by apply runsFrom_still| |].
  - intros b l g1 (Hl & -> & HQ). eapply runsFrom_mono; [by eapply Hf|].
    intros r l' g2. by apply attemptTracks_prefix.
  - intros e l g1 (Hl & -> & _). by apply attemptTracks_error.
Qed.

Lemma tracks_state n g m :
  (∀ s, generations s = g → ∃ m', m s = m' s ∧ runsFrom g m' (attemptTracks n g)) →
  runsFrom g m (attemptTracks n g).
Proof. intros Hm s Hs. destruct (Hm s Hs) as (m' & -> & Hm'). by apply Hm'. Qed.

(** The entry is written and nothing is sent. *)
Lemma put_tracks n g (gen : UpdateGeneration) (c : DockerService) :
  runsFrom g (st_bind (putGeneration n gen) (λ _, st_ret (c, true))) (attemptTracks n g).
Proof.
  intros s <-. exists []. simpl. rewrite app_nil_r. split; [done|]. split_and!.
  - split; [intros k Hk; by rewrite lookup_insert_ne|]. intros id Ha.
    by apply acceptedIn_silent in Ha.
  - intros _ _. rewrite lookup_insert_eq. by eexists.
  - done.
Qed.

Lemma refresh_tracks g stackName displayName desired after retry why :
  runsFrom g (refreshConcurrentUpdate stackName displayName desired after retry why)
    (attemptTracks displayName g).
Proof.
  unfold refreshConcurrentUpdate.
  eapply tracks_bind; [apply inspect_quiet|apply inspect_keeps|]. intros current _ _.
  eapply tracks_bind; [apply requireOwnership_quiet|apply requireOwnership_keeps|]. intros [] _ _.
  eapply tracks_bind; [apply retryRequired_quiet|apply retryRequired_keeps|]. intros again _ _.
  eapply (tracks_bind _ _ _ _ (λ _ _, True)).
  { unfold ifM. destruct (authOnlyUpdateSafe _); [|by apply quiet_ret].
    eapply quiet_bind; [apply resolveAuth_quiet|]. intros auth l _. by apply quiet_read. }
  { unfold ifM. destruct (authOnlyUpdateSafe _); [|done]. by apply keeps_bind; [apply resolveAuth_keeps|]. }
  intros pending _ _. destruct (_ && _).
  - apply tracks_state. intros s Hs. eexists. split; [reflexivity|].
    eapply tracks_bind; [apply recordGeneration_quiet|apply recordGeneration_keeps|].
    intros restore _ _. apply put_tracks.
  - intros s <-. exists []. simpl. rewrite app_nil_r. split; [done|]. split_and!; [by apply tracked_silent|done|].
    intros _ _ id. by apply acceptedIn_silent.
Qed.

Lemma restoreGeneration_others n previous (s : ApplierState W) k :
  k ≠ n → generations (restoreGeneration n previous s).2 !! k = generations s !! k.
Proof.
  intros Hk. simpl. case_bool_decide; [by rewrite lookup_delete_ne|by rewrite lookup_insert_ne].
Qed.

(** What follows a refused write. *)
Lemma refused_tracks g g1 stackName n desired current retry restore previous (c : Call) e :
  (∀ k, k ≠ n → g1 !! k = g !! k) → (∀ id, ¬ acceptedIn [c] id) →
  runsFrom g1
    (st_bind (st_bind (runRestore n restore e) (λ _, restoreGeneration n previous))
       (λ _, if bool_decide (e = ErrServiceConflict) then
          refreshConcurrentUpdate stackName n desired (svcUpdatedAt current) retry "version conflict"
        else st_throw (wrapSwarm ("update service " +:+ n +:+ ": ") e)))
    (λ r l g2, attemptTracks n g r ([c] ++ l) g2).
Proof.
  intros Hothers Hno.
  assert (∀ err (g2 : gmap string UpdateGeneration), (∀ k, k ≠ n → g2 !! k = g !! k) →
    attemptTracks n g (Err err) [c] g2) as Herr.
  { intros err g2 Hg2. split_and!; [split; [done|]|done|done]. intros id Ha. by destruct (Hno id). }
  eapply (runsFrom_bind _ _ _ (λ r l g2, l = [] ∧ ∀ k, k ≠ n → g2 !! k = g !! k)).
  - eapply (runsFrom_bind _ _ _ (λ r l g2, l = [] ∧ g2 = g1)).
    + intros s <-. exists []. rewrite app_nil_r, runRestore_keeps. split; [|done].
      unfold runRestore. destruct restore as [f|]; [|done]. by destruct (f _) as [[?|] ?].
    + intros [] l g2 [-> ->] s <-. exists []. rewrite app_nil_r. split_and!; [done..|].
      intros k Hk. by rewrite restoreGeneration_others, Hothers.
    + intros err l g2 [-> ->]. by split.
  - intros [] l g2 [-> Hg2]. cbn [app]. case_bool_decide.
    + eapply runsFrom_mono; [apply refresh_tracks|]. intros r l g3 (Ht & Hok & Hf).
      split_and!; [by apply (tracked_after _ _ [c] g2)|done|].
      intros c' Hr id [Ha|Ha]%(acceptedIn_app [c]); [by destruct (Hno id)|by eapply Hf].
    + intros s <-. exists []. rewrite app_nil_r. split; [done|]. by apply Herr.
  - intros err l g2 [-> Hg2]. by apply Herr.
Qed.

(** After a definite refusal the entry is the previous one, and another attempt
    may follow; after any other answer it stays. *)
Lemma writeUpdate_tracks g stackName displayName desired current retry sent reused :
  runsFrom g (writeUpdate stackName displayName desired current retry sent reused)
    (attemptTracks displayName g).
Proof.
  unfold writeUpdate.
  eapply tracks_bind; [apply updateOptions_quiet|apply updateOptions_keeps|]. intros encoded _ _.
  apply tracks_state. intros s Hs. eexists. split; [reflexivity|].
  eapply tracks_bind; [apply recordGeneration_quiet|apply recordGeneration_keeps|].
  intros restore _ _. set (gen := updateGeneration sent current _).
  assert (∀ k, k ≠ displayName → <[displayName := gen]> g !! k = g !! k) as Hothers.
  { intros k Hk. by rewrite lookup_insert_ne. }
  eapply (runsFrom_bind _ _ _ (λ r l g1, r = Ok () ∧ l = [] ∧ g1 = <[displayName := gen]> g)).
  { intros s1 <-. exists []. simpl. by rewrite app_nil_r. }
  2: { by intros ? ? ? (? & _). }
  intros [] ? g1 (_ & -> & ->). cbn [app].
  eapply (runsFrom_bind _ _ _ (λ r l g1, ∃ e, r = Ok e ∧
    l = [Updated (svcID current) (svcVersion current) sent e] ∧ g1 = <[displayName := gen]> g)).
  { intros s1 Hs1. unfold sendUpdate. destruct (Update _ _ _ _ _) as [e w]. simpl.
    eexists. split; [reflexivity|]. rewrite Hs1. eauto. }
  2: { by intros ? ? ? (? & ? & _). }
  intros ? l g1 (e & [= ->] & -> & ->).
  set (call := Updated (svcID current) (svcVersion current) sent e).
  assert (∀ r, (∀ c, r ≠ Ok (c, false)) →
    attemptTracks displayName g r ([call] ++ []) (<[displayName := gen]> g)) as Hkept.
  { intros r Hr. split_and!; [split; [done|]| |].
    - intros id [-> _]%acceptedIn_one. rewrite lookup_insert_eq. exists gen.
      split; [done|apply updateGeneration_id].
    - intros _ _. rewrite lookup_insert_eq. by eexists.
    - intros c Hc. by destruct (Hr c). }
  destruct e as [e|].
  - destruct (ServiceUpdateRejected e) eqn:He; cbn [ifM].
    + apply refused_tracks; [done|]. intros id [_ Ha]%acceptedIn_one. simpl in Ha. by rewrite He in Ha.
    + rewrite bool_decide_false by (by intros ->). intros s1 Hs1. exists []. rewrite app_nil_r.
      split; [done|]. simpl. rewrite Hs1. by apply Hkept.
  - intros s1 Hs1. exists []. simpl. rewrite app_nil_r, Hs1. split; [done|]. by apply Hkept.
Qed.

Lemma updateAttempt_tracks g stackName displayName desired current retry :
  runsFrom g (updateAttempt stackName displayName desired current retry)
    (attemptTracks displayName g).
Proof.
  intros s Hs. unfold updateAttempt.
  destruct (prepareUpdate_quiet displayName desired current retry s) as (l & Hl & Hsil & _).
  pose proof (prepareUpdate_keeps displayName desired current retry s) as Hk.
  destruct (prepareUpdate _ _ _ _ s) as [[[sent reused]|e] s1]; simpl in *; rewrite Hs in Hk.
  - destruct (writeUpdate_tracks g stackName displayName desired current retry sent reused s1 Hk)
      as (l' & Hl' & Ht). exists (l ++ l'). rewrite Hl', Hl, (assoc_L (++)). split; [done|].
    by apply attemptTracks_prefix.
  - destruct (isSafetyChanged e).
    + destruct (refresh_tracks g stackName displayName desired (svcUpdatedAt current) retry
        "external execution inspection" s1 Hk) as (l' & Hl' & Ht).
      exists (l ++ l'). rewrite Hl', Hl, (assoc_L (++)). split; [done|]. by apply attemptTracks_prefix.
    + exists l. split; [done|]. simpl. rewrite Hk. by apply attemptTracks_error.
Qed.

(** The whole update of a service, and what [apply] makes of it. *)
Definition serviceTracks {B} (n : string) (succeeded : B → bool) g (r : Result applyError B)
    (l : list Call) (g' : gmap string UpdateGeneration) : Prop :=
  tracked n g l g' ∧
  match r with
  | Ok b => if succeeded b then is_Some (g' !! n) else ∀ id, ¬ acceptedIn l id
  | Err _ => True
  end.

Lemma update_tracks attempts g stackName n desired current retry :
  runsFrom g (update attempts stackName n desired current retry)
    (serviceTracks n (λ _, true) g).
Proof.
  revert g current. induction attempts as [|attempts IH]; intros g current; simpl.
  { intros s <-. exists []. rewrite app_nil_r. split; [done|]. split; [by apply tracked_silent|done]. }
  eapply runsFrom_bind; [apply updateAttempt_tracks| |].
  - intros [refreshed done] l g1 (Ht & Hok & Hno). destruct done.
    + intros s Hs. exists []. rewrite !app_nil_r. simpl. rewrite Hs. split; [reflexivity|].
      split; [done|]. by eapply Hok.
    + eapply runsFrom_mono; [apply IH|]. intros r l' g2 [Ht' Hr]. split; [|by destruct r].
      eapply tracked_after; [apply Ht| |done]. by eapply Hno.
  - intros e l g1 (Ht & _). by split.
Qed.

(** The steps before the update send nothing and keep the generations. *)
Lemma serviceTracks_bind {B C} n ok g (m : A B) (f : B → A C) (Q : B → list Call → Prop) :
  quiet m Q → keeps m → (∀ b l, Q b l → runsFrom g (f b) (serviceTracks n ok g)) →
  runsFrom g (st_bind m f) (serviceTracks n ok g).
Proof.
  intros Hq Hk Hf. eapply runsFrom_bind; [by apply runsFrom_still| |].
  - intros b l g1 (Hl & -> & HQ). eapply runsFrom_mono; [by eapply Hf|].
    intros r l' g2 [Ht Hr]. split.
    { eapply tracked_after; [done| |done]. intros id. by apply acceptedIn_silent. }
    destruct r as [b'|]; [|done]. destruct (ok b'); [done|].
    intros id [Ha|Ha]%acceptedIn_app; [by apply acceptedIn_silent in Ha|by eapply Hr].
  - intros e l g1 (Hl & -> & _). split; [by apply tracked_silent|done].
Qed.

Lemma inspectOrCreate_keeps stackName displayName desired :
  keeps (inspectOrCreate stackName displayName desired).
Proof.
  intros s. unfold inspectOrCreate.
  destruct (Inspect _ _) as [[current|[]] w]; try done.
  { by rewrite (keeps_bind _ _ (requireOwnership_keeps _ _ _) (λ _, keeps_ret _)). }
  match goal with |- generations (?m ?s1).2 = _ => assert (keeps m) as Hm; [|apply (Hm s1)] end.
  apply keeps_bind; [apply keeps_bind; eauto with keeps|]. intros options s1.
  destruct (Create _ _ _) as [[id|[]] w1]; try done.
  rewrite (keeps_bind _ _ (inspect_keeps _ _)); [done|].
  intros current. apply keeps_bind; eauto with keeps.
Qed.

Lemma updateRequired_keeps displayName desired current retry :
  keeps (updateRequired displayName desired current retry).
Proof.
  unfold updateRequired. destruct (negb _); [done|].
  apply keeps_bind; [apply retryRequired_keeps|]. intros []; [done|]. destruct (negb _); [done|].
  by apply keeps_bind; [apply resolveAuth_keeps|].
Qed.

Lemma apply_tracks g stackName desired options :
  let n := displayNameOf stackName (Name (specAnnotations desired)) in
  runsFrom g (apply stackName desired options) (serviceTracks n id g).
Proof.
  intros n. unfold apply. fold n. destruct (ReplicasManaged desired) as [managed|].
  2: { intros s <-. exists []. rewrite app_nil_r. split; [done|]. split; [by apply tracked_silent|done]. }
  eapply serviceTracks_bind; [apply inspectOrCreate_quiet|apply inspectOrCreate_keeps|].
  intros [current created] _ _. destruct created.
  { intros s <-. exists []. simpl. rewrite app_nil_r. split; [done|]. split.
    - split; [intros k Hk; by rewrite lookup_insert_ne|]. intros i Ha. by apply acceptedIn_silent in Ha.
    - simpl. rewrite lookup_insert_eq. by eexists. }
  eapply serviceTracks_bind; [apply updateRequired_quiet|apply updateRequired_keeps|].
  intros required _ _. destruct required; cbn [negb].
  2: { intros s <-. exists []. rewrite app_nil_r. split; [done|]. split; [by apply tracked_silent|].
       intros i. by apply acceptedIn_silent. }
  eapply runsFrom_bind; [apply update_tracks| |].
  - intros [] l g1 [Ht Hok]. intros s <-. exists []. rewrite !app_nil_r. by split_and!.
  - intros e l g1 [Ht _]. by split.
Qed.

(** ** All services *)
Definition displayNames (stackName : string) (specs : list ServiceSpec) : list string :=
  map (λ spec, displayNameOf stackName (Name (specAnnotations spec))) specs.

(** The entries of other names stay; every service that may have accepted a write
    has its entry, and it is among the changed ones unless the apply failed. *)
Definition stackTracks (names : list string) (changed : list string) (failed : Prop) g
    (l : list Call) (changed' : list string) (g' : gmap string UpdateGeneration) : Prop :=
  changed ⊆ changed' ∧
  (∀ k, k ∉ names → g' !! k = g !! k) ∧
  (∀ id, acceptedIn l id → ∃ n e, n ∈ names ∧ g' !! n = Some e ∧ ServiceID e = id ∧
     (n ∈ changed' ∨ failed)) ∧
  (∀ n, n ∈ changed' → n ∈ changed ∨ n ∈ names ∧ is_Some (g' !! n)).

Lemma stackTracks_cons n names changed changed1 (failed : Prop) g l g1 l' changed' g' :
  n ∉ names → tracked n g l g1 → changed ⊆ changed1 →
  (∀ m, m ∈ changed1 → m ∈ changed ∨ m = n ∧ is_Some (g1 !! n)) →
  (∀ id, acceptedIn l id → n ∈ changed1 ∨ failed) →
  stackTracks names changed1 failed g1 l' changed' g' →
  stackTracks (n :: names) changed failed g (l ++ l') changed' g'.
Proof.
  intros Hn [Hk Ha] Hsub Hc Hf (Hsub' & Hk' & Ha' & Hc'). split_and!.
  - by etrans.
  - intros k [Hkn Hks]%not_elem_of_cons. by rewrite Hk', Hk.
  - intros id [Hin|(m & e & Hm & He & Hid & Hr)%Ha']%acceptedIn_app.
    + destruct (Ha _ Hin) as (e & He & Hid). exists n, e. rewrite Hk' by done.
      split_and!; [by left|done..|]. destruct (Hf _ Hin); [left; by apply Hsub'|by right].
    + exists m, e. split_and!; [by right|done..].
  - intros m [[?|[-> Hs]]%Hc|[Hm Hs]]%Hc'; [by left|right|right].
    + rewrite Hk' by done. split; [by left|done].
    + split; [by right|done].
Qed.

Lemma stackTracks_nil names changed failed g : stackTracks names changed failed g [] changed g.
Proof.
  split_and!; [done|done| |by left]. intros id Ha. by apply acceptedIn_silent in Ha.
Qed.

Lemma applyEach_tracks stackName options specs changed blocked s :
  NoDup (displayNames stackName specs) →
  let '(changed', err, s') := applyEach stackName options specs changed blocked s in
  (blocked ≠ [] → is_Some err) ∧
  ∃ l, calls s' = calls s ++ l ∧
    stackTracks (displayNames stackName specs) changed (is_Some err) (generations s) l changed'
      (generations s').
Proof.
  revert changed blocked s. induction specs as [|spec specs IH]; intros changed blocked s Hnd.
  { simpl. split.
    - intros Hb. unfold blockedApplyError. destruct blocked; [done|].
      destruct (forallb _ _); by eexists.
    - exists []. rewrite app_nil_r. split; [done|apply stackTracks_nil]. }
  cbn [applyEach displayNames map]. apply NoDup_cons in Hnd as [Hn Hnd].
  set (n := displayNameOf stackName _) in *.
  destruct (apply_tracks (generations s) stackName spec options s eq_refl) as (l & Hl & Ht & Hok).
  fold n in Ht, Hok.
  assert (∀ changed1 blocked1 s1, calls s1 = calls s ++ l → tracked n (generations s) l (generations s1) →
    (blocked ≠ [] → blocked1 ≠ []) → changed ⊆ changed1 →
    (∀ m, m ∈ changed1 → m ∈ changed ∨ m = n ∧ is_Some (generations s1 !! n)) →
    (∀ id, acceptedIn l id → n ∈ changed1 ∨ blocked1 ≠ []) →
    let '(changed', err, s') := applyEach stackName options specs changed1 blocked1 s1 in
    (blocked ≠ [] → is_Some err) ∧
    ∃ l', calls s' = calls s ++ l' ∧ stackTracks (n :: displayNames stackName specs) changed
      (is_Some err) (generations s) l' changed' (generations s')) as Hrest.
  { intros changed1 blocked1 s1 Hs1 Ht1 Hb Hsub Hc Hf. specialize (IH changed1 blocked1 s1 Hnd).
    destruct (applyEach _ _ _ changed1 _ _) as [[changed' err] s'].
    destruct IH as (He & l' & Hl' & Hst). split; [auto|].
    exists (l ++ l'). rewrite Hl', Hs1, (assoc_L (++)). split; [done|].
    eapply stackTracks_cons; try done. intros id Ha. destruct (Hf id Ha); auto. }
  destruct (apply _ _ _ s) as [[b|e] s1]; cbn [fst snd] in *.
  - destruct b; cbn in Hok; apply Hrest; try set_solver.
  - destruct (isBlocked e).
    { apply Hrest; [done|done|by destruct blocked|done|by left|right; by destruct blocked]. }
    split; [by eexists|]. exists l. split; [done|]. rewrite <- (app_nil_r l).
    eapply stackTracks_cons; [done|done|done|by left|by right; eexists|apply stackTracks_nil].
Qed.

Lemma Apply_tracks stackName specs options s :
  NoDup (displayNames stackName specs) →
  let '(changed, err, s') := Apply stackName specs options s in
  ∃ l, calls s' = calls s ++ l ∧
    stackTracks (displayNames stackName specs) [] (is_Some err) (generations s) l changed
      (generations s').
Proof.
  assert (displayNames stackName (stable_sort specLess specs) ≡ₚ displayNames stackName specs) as Hp.
  { apply Permutation_map, (stable_sort_perm specLess specs). }
  intros Hnd. pose proof (applyEach_tracks stackName options (stable_sort specLess specs) [] [] s)
    as Hrun. rewrite Hp in Hrun. specialize (Hrun Hnd). unfold Apply.
  destruct (applyEach _ _ _ _ _ _) as [[changed err] s'].
  destruct Hrun as (_ & l & Hl & Hsub & Hk & Ha & Hc). exists l. split; [done|]. split_and!; [done|..].
  - intros k. rewrite <- Hp. apply Hk.
  - intros id (n & e & Hn & Hrest)%Ha. exists n, e. by rewrite <- Hp.
  - intros n Hn. rewrite <- Hp. by apply Hc.
Qed.

(** No write that Docker may have accepted is forgotten: when an apply ends,
    with whatever result, every service whose update was not definitely refused
    has an entry among the generations to verify, under the display name of one
    of the desired services and for the identifier the write went to; when the
    apply succeeded it is reported as changed, and everything reported as changed
    has an entry. The entries of other services are the ones they were. *)
Theorem accepted_writes_leave_obligations (stackName : string) (specs : list ServiceSpec)
    (options : ApplyOptions) (s : ApplierState W)
    (Hnames : NoDup (displayNames stackName specs)) :
  let '(changed, err, s') := Apply stackName specs options s in
  ∃ l, calls s' = calls s ++ l ∧
    (∀ id version sent answer, Updated id version sent answer ∈ l →
       (∀ e, answer = Some e → ServiceUpdateRejected e = false) →
       ∃ name entry, name ∈ displayNames stackName specs ∧ generations s' !! name = Some entry ∧
         ServiceID entry = id ∧ (err = None → name ∈ changed)) ∧
    (∀ name, name ∈ changed → is_Some (generations s' !! name)) ∧
    (∀ name, name ∉ displayNames stackName specs →
       generations s' !! name = generations s !! name).
Proof.
  pose proof (Apply_tracks stackName specs options s Hnames) as Hrun.
  destruct (Apply _ _ _ _) as [[changed err] s']. destruct Hrun as (l & Hl & _ & Hk & Ha & Hc).
  exists l. split_and!; [done| | |done].
  - intros id version sent answer Hin Hans. destruct (Ha id) as (n & e & ? & ? & ? & Hr).
    { exists version, sent, answer. split; [done|]. destruct answer as [e|]; [|done].
      simpl. by rewrite Hans. }
    exists n, e. split_and!; [done..|]. intros ->. by destruct Hr as [?|[]].
  - intros n [Hn|[_ ?]]%Hc; [by apply not_elem_of_nil in Hn|done].
Qed.
End Obligations.

Module ObligationExample.
Import SpecsExample ApplierExample.
#[local] Existing Instances sdk constraints.

(** An update that ends without an answer: the write may have been accepted. *)
#[local] Instance silentDocker : ServiceManager unit :=
  {| Inspect := λ _ w, (Ok (live true 1), w); Create := λ _ _ w, (Ok "new-id", w);
     Update := λ _ _ _ _ w, (Some (ErrSwarm "connection lost"), w);
     ServiceTasks := λ _ w, (Ok [], w); Backoff := λ _ w, (None, w);
     ResolveImage := λ _ w, (Ok "", w); anonymousAuth := Ok "e30=";
     BeforeUpdate := Some (λ _ _ w, (Ok None, w)); sha256 := λ s, s |}.

Lemma accepted_writes_leave_obligations_witness :
  let '(changed, err, s') := Apply "app" (wanted true) options start in
  changed = [] ∧ is_Some err ∧
  ∃ name entry, name ∈ ["api"] ∧ generations s' !! name = Some entry ∧ ServiceID entry = "api-id" ∧
    (err = None → name ∈ changed).
Proof.
  pose proof (accepted_writes_leave_obligations "app" (wanted true) options start
    ltac:(apply NoDup_singleton)) as H.
  set (run := Apply "app" (wanted true) options start) in *. vm_compute in run. subst run.
  destruct H as (l & Hl & Hw & _). split_and!; [done|by eexists|].
  simpl in Hl. refine (Hw _ _ _ (Some (ErrSwarm "connection lost")) _ _); [|by intros e [= <-]].
  rewrite <- Hl. do 2 right. by left.
Defined.
End ObligationExample.
