(* ===== verification/Deployer.v ===== *)
(** * The deployment pipelines ([deployments/deployer/pipeline.go], [deployer.go],
      [payload.go], [deployer/stack/compose.go])

    The steps of a stack and of a single-service deployment, in the order the
    pipelines run them. The converter, the reconcilers of networks, configs and
    secrets, the init job runner and the waiter are interfaces; the applier is
    the one of [Applier.v]. Deadlines belong to the contexts of the environment. *)
From S2P Require Import Prelude GoStrings TaskSpecs Deployments ServiceSpecs TaskFailure Waiter Applier Gopipe.
Local Open Scope go_scope.

(** ** Compose definitions

    The fields these packages read; a network, secret, config or volume
    definition is opaque to them. *)
Record ObjectRef := { Source : string; refTarget : string }.
Record InitJob := { jobName : string; jobImage : string; jobNetworks : list string }.
Record ServiceVolume := { volumeType : string; volumeSource : string }.
Record ComposeService := {
  composeName : string; serviceNetworks : list string; InitJobs : list InitJob;
  serviceSecrets : list ObjectRef; serviceConfigs : list ObjectRef;
  credentialConfig : option string; serviceVolumes : list ServiceVolume;
}.
Record Compose := {
  Services : list ComposeService; Networks : gmap string string; Secrets : gmap string string;
  Configs : gmap string string; Volumes : gmap string string;
}.
#[export] Instance ObjectRef_eq_dec : EqDecision ObjectRef.
Proof. solve_decision. Defined.
#[export] Instance InitJob_eq_dec : EqDecision InitJob.
Proof. solve_decision. Defined.

Definition ServiceVolumeTypeVolume : string := "volume".
Definition EffectiveType (v : ServiceVolume) : string :=
  if bool_decide (volumeType v = "") then ServiceVolumeTypeVolume else volumeType v.

(** ** [SingleServiceCompose] *)

(** The members of a map under the given keys. *)
Definition selectKeys (m : gmap string string) (keys : list string) : gmap string string :=
  filter (λ kv, kv.1 ∈ keys) m.

Definition defaultNetworkAlias : string := "default".
Definition aliasesOrDefault (aliases : list string) : list string :=
  match aliases with [] => [defaultNetworkAlias] | _ => aliases end.

Definition selectNetworks (networks : gmap string string) (s : ComposeService) : gmap string string :=
  selectKeys networks (aliasesOrDefault (serviceNetworks s) ++ mjoin (map jobNetworks (InitJobs s))).

Definition selectObjects (objects : gmap string string) (refs : list ObjectRef) : gmap string string :=
  selectKeys objects (map Source refs).

Definition selectVolumes (volumes : gmap string string) (refs : list ServiceVolume)
    : gmap string string :=
  selectKeys volumes (map volumeSource
    (filter (λ v, EffectiveType v = ServiceVolumeTypeVolume) refs)).

Definition SingleServiceCompose (desired : Compose) (name : string) : Result string Compose :=
  match find (λ s, bool_decide (composeName s = name)) (Services desired) with
  | None => Err ("service " +:+ quoted name +:+ " not found in compose")
  | Some s =>
      let credentials :=
        match credentialConfig s with
        | Some config => if bool_decide (config = "") then []
                         else [{| Source := config; refTarget := "" |}]
        | None => []
        end in
      Ok {| Services := [s]; Networks := selectNetworks (Networks desired) s;
            Secrets := selectObjects (Secrets desired) (serviceSecrets s);
            Configs := selectObjects (Configs desired) (serviceConfigs s ++ credentials);
            Volumes := selectVolumes (Volumes desired) (serviceVolumes s) |}
  end.

(** ** Interfaces of the pipelines *)
Record NetworkSpec := { networkAlias : string; networkID : string }.
Record StackSpec := { convertedNetworks : list NetworkSpec; convertedServices : list ServiceSpec }.
Definition noStackSpec : StackSpec := {| convertedNetworks := []; convertedServices := [] |}.

(** Resolved configs and secrets: the Docker object of every alias. *)
Record resolvedResources := { configs : gmap string string; secrets : gmap string string }.
Definition noResources : resolvedResources := {| configs := ∅; secrets := ∅ |}.

Record InitJobResult := { resultService : string; resultJob : string; resultStartedAt : Time }.

Record InitJobSpec := {
  initStack : string; initService : string; DefaultNetwork : list string;
  NetworkTargets : gmap string string; initSecrets : list ObjectRef; initConfigs : list ObjectRef;
  ResolvedSecrets : gmap string string; ResolvedConfigs : gmap string string; Job : InitJob;
}.

(** What a step of the pipelines fails with. *)
Inductive deployCause :=
| CauseText (text : string) | CauseApply (e : applyError) | CauseWait (e : waitError).

Class DeployComponents (W : Type) := {
  (** The converter: a local check, the plan of the networks, and the conversion
      that reads the Docker identities. *)
  Validate : string → Compose → option string;
  planNetworks : string → Compose → list NetworkSpec;
  Convert : string → Compose → W → Result string StackSpec * W;
  ReconcileNetworks : string → list NetworkSpec → W → option string * W;
  (** The secret resolver, then the reconciler of configs and secrets. *)
  ResolveSecrets : string → string → gmap string string → Result string (gmap string string);
  ReconcileObjects :
    string → gmap string string → gmap string string → gmap string string → W →
    Result string resolvedResources * W;
  RunInitJob : InitJobSpec → W → InitJobResult * option string * W;
  (** The snapshot and the wait of the waiter. *)
  Snapshot : string → W → Result string (list StackService) * W;
  WaitFor : ServiceWaitRequest → W → ServiceWaitResult * option waitError * W;
  (** Adds the logs of failed tasks to a convergence failure. *)
  withConvergenceTaskLogs : ServiceWaitResult → waitError → W → waitError * W;
}.

(** What the pipelines rely on: the converter gives every service of the
    definition the name of the stack and its own. *)
Class ConverterContract (W : Type) `{DeployComponents W} := {
  converted_names stackName desired w : ∀ c, (Convert stackName desired w).1 = Ok c →
    map (λ spec, Name (specAnnotations spec)) (convertedServices c) ≡ₚ
    map (λ s, stackName +:+ "_" +:+ composeName s) (Services desired);
}.

(** ** Payloads *)

(** The state of a run. [applier] carries the world, the credentials that were
    acknowledged and the log of the calls; its generations are those of the last
    apply. *)
Record Payload (W : Type) := {
  prepared : Compose; converted : StackSpec; resolved : resolvedResources;
  specificationOnly : list string; verification : Verification; initJobs : list InitJobResult;
  baseline : list StackService; changed : list string;
  updateGenerations : gmap string UpdateGeneration; applier : ApplierState W;
}.
Arguments prepared {W}.
Arguments converted {W}.
Arguments resolved {W}.
Arguments specificationOnly {W}.
Arguments verification {W}.
Arguments initJobs {W}.
Arguments baseline {W}.
Arguments changed {W}.
Arguments updateGenerations {W}.
Arguments applier {W}.

Record StackRequest (W : Type) := {
  reqStackName : string; reqSourcePath : string; reqDesired : Compose;
  retryFailedUpdates : bool; unresolvedServices : list string;
  reqGenerations : gmap string UpdateGeneration;
  beforeUpdate :
    option (string → UpdateGeneration → W → Result string (option (W → option string * W)) * W);
}.
Arguments reqStackName {W}.
Arguments reqSourcePath {W}.
Arguments reqDesired {W}.
Arguments retryFailedUpdates {W}.
Arguments unresolvedServices {W}.
Arguments reqGenerations {W}.
Arguments beforeUpdate {W}.

Record ServiceRequest := {
  VerifyOnly : bool; srvStackName : string; srvSourcePath : string; srvServiceName : string;
  srvDesired : Compose;
}.

Section Payloads.
Context {W : Type}.
Implicit Types (p : Payload W).

Definition setPrepared p (c : Compose) : Payload W :=
  {| prepared := c; converted := converted p; resolved := resolved p;
     specificationOnly := specificationOnly p; verification := verification p;
     initJobs := initJobs p; baseline := baseline p; changed := changed p;
     updateGenerations := updateGenerations p; applier := applier p |}.
Definition setConverted p (c : StackSpec) : Payload W :=
  {| prepared := prepared p; converted := c; resolved := resolved p;
     specificationOnly := specificationOnly p; verification := verification p;
     initJobs := initJobs p; baseline := baseline p; changed := changed p;
     updateGenerations := updateGenerations p; applier := applier p |}.
Definition setResolved p (r : resolvedResources) : Payload W :=
  {| prepared := prepared p; converted := converted p; resolved := r;
     specificationOnly := specificationOnly p; verification := verification p;
     initJobs := initJobs p; baseline := baseline p; changed := changed p;
     updateGenerations := updateGenerations p; applier := applier p |}.
Definition setInitJobs p (l : list InitJobResult) : Payload W :=
  {| prepared := prepared p; converted := converted p; resolved := resolved p;
     specificationOnly := specificationOnly p; verification := verification p;
     initJobs := l; baseline := baseline p; changed := changed p;
     updateGenerations := updateGenerations p; applier := applier p |}.
Definition setBaseline p (l : list StackService) : Payload W :=
  {| prepared := prepared p; converted := converted p; resolved := resolved p;
     specificationOnly := specificationOnly p; verification := verification p;
     initJobs := initJobs p; baseline := l; changed := changed p;
     updateGenerations := updateGenerations p; applier := applier p |}.
Definition setApplied p (l : list string) (g : gmap string UpdateGeneration) (a : ApplierState W)
    : Payload W :=
  {| prepared := prepared p; converted := converted p; resolved := resolved p;
     specificationOnly := specificationOnly p; verification := verification p;
     initJobs := initJobs p; baseline := baseline p; changed := l; updateGenerations := g;
     applier := a |}.
Definition setVerification p (only : list string) (v : Verification) : Payload W :=
  {| prepared := prepared p; converted := converted p; resolved := resolved p;
     specificationOnly := only; verification := v; initJobs := initJobs p; baseline := baseline p;
     changed := changed p; updateGenerations := updateGenerations p; applier := applier p |}.
Definition setApplier p (a : ApplierState W) : Payload W :=
  {| prepared := prepared p; converted := converted p; resolved := resolved p;
     specificationOnly := specificationOnly p; verification := verification p;
     initJobs := initJobs p; baseline := baseline p; changed := changed p;
     updateGenerations := updateGenerations p; applier := a |}.

Definition inWorld p (w : W) : Payload W := setApplier p (setWorld (applier p) w).
End Payloads.

(** ** Names and specifications of the converted services *)
Definition convertedServiceNames (stackName : string) (specs : list ServiceSpec) : list string :=
  map (λ spec, trim_prefix (stackName +:+ "_") (Name (specAnnotations spec))) specs.

Definition expectedServiceSpecs (stackName : string) (specs : list ServiceSpec)
    : gmap string ServiceSpec :=
  foldl (λ m spec,
    <[trim_prefix (stackName +:+ "_") (Name (specAnnotations spec)) := spec]> m) ∅ specs.

(** Appends the names that are not there yet. *)
Definition appendMissing (names more : list string) : list string :=
  foldl (λ names name, if bool_decide (name ∈ names) then names else names ++ [name]) names more.

(** The services of the baseline whose update is in progress. *)
Definition stillUpdating (services : list StackService) : list string :=
  map serviceName (filter (λ s,
    updateState <$> serviceUpdateStatus s = Some ServiceUpdateStateUpdating) services).

Definition verificationServiceNames (stackName : string) (specs : list ServiceSpec)
    (changed : list string) (baseline : list StackService) : list string :=
  appendMissing changed
    (filter (λ name, name ∈ convertedServiceNames stackName specs) (stillUpdating baseline)).

Section Deployer.
Context `{DockerSDK, PlacementConstraints} {W : Type} `{HM : ServiceManager W}
        `{DeployComponents W}.

(** The service manager as the options of an apply make it. *)
Definition withBeforeUpdate
    (before : option (string → UpdateGeneration → W → Result string (option (W → option string * W)) * W))
    : ServiceManager W :=
  {| Inspect := Inspect; Create := Create; Update := Update; ServiceTasks := ServiceTasks;
     Backoff := Backoff; ResolveImage := ResolveImage; anonymousAuth := anonymousAuth;
     BeforeUpdate := before; sha256 := sha256 |}.

Definition applyWith before (stackName : string) (specs : list ServiceSpec) (retry : bool)
    (g : gmap string UpdateGeneration) (a : ApplierState W)
    : list string * option applyError * ApplierState W :=
  Apply (H1 := withBeforeUpdate before) stackName specs {| RetryFailedUpdates := retry |}
    (setGenerations a g).

(** ** Operations both pipelines use *)
Definition PlanNetworks (stackName : string) (desired : Compose) : Result string (list NetworkSpec) :=
  match Validate stackName desired with
  | Some e => Err e
  | None => Ok (planNetworks stackName desired)
  end.

Definition validateDesired (stackName : string) (desired : Compose) (p : Payload W)
    : option deployCause * Payload W :=
  (CauseText <$> Validate stackName desired, p).

Definition reconcilePlanned (stackName : string) (desired : Compose) (p : Payload W)
    : option deployCause * Payload W :=
  match PlanNetworks stackName desired with
  | Err e => (Some (CauseText e), p)
  | Ok planned =>
      let '(e, w) := ReconcileNetworks stackName planned (world (applier p)) in
      (CauseText <$> e, inWorld p w)
  end.

Definition reconcileResources (stackName source : string) (desired : Compose) (p : Payload W)
    : option deployCause * Payload W :=
  if bool_decide (Configs desired = ∅) && bool_decide (Secrets desired = ∅)
  then (None, setResolved p noResources)
  else match ResolveSecrets stackName source (Secrets desired) with
       | Err e => (Some (CauseText ("resolve secrets: " +:+ e)), setResolved p noResources)
       | Ok data =>
           match ReconcileObjects stackName (Configs desired) (Secrets desired) data
                   (world (applier p)) with
           | (Ok r, w) => (None, setResolved (inWorld p w) r)
           | (Err e, w) =>
               (Some (CauseText ("reconcile configs and secrets: " +:+ e)),
                setResolved (inWorld p w) noResources)
           end
       end.

Definition convertDesired (stackName : string) (desired : Compose) (p : Payload W)
    : option deployCause * Payload W :=
  match Convert stackName desired (world (applier p)) with
  | (Ok c, w) => (None, setConverted (inWorld p w) c)
  | (Err e, w) => (Some (CauseText e), setConverted (inWorld p w) noStackSpec)
  end.

Definition captureBaseline (stackName : string) (p : Payload W) : option deployCause * Payload W :=
  match Snapshot stackName (world (applier p)) with
  | (Ok services, w) => (None, setBaseline (inWorld p w) services)
  | (Err e, w) => (Some (CauseText e), setBaseline (inWorld p w) [])
  end.

(** ** Init jobs *)
Definition initJobSpec (stackName : string) (r : resolvedResources) (targets : gmap string string)
    (s : ComposeService) (job : InitJob) : InitJobSpec :=
  {| initStack := stackName; initService := composeName s;
     DefaultNetwork := aliasesOrDefault (serviceNetworks s); NetworkTargets := targets;
     initSecrets := serviceSecrets s; initConfigs := serviceConfigs s;
     ResolvedSecrets := secrets r; ResolvedConfigs := configs r; Job := job |}.

Definition networkTargets (networks : list NetworkSpec) : gmap string string :=
  foldl (λ m n, <[networkAlias n := networkID n]> m) ∅ networks.

(** The jobs in the order of the services; the first error ends them. A job that
    never started has no result. *)
Fixpoint runJobs (jobs : list InitJobSpec) (results : list InitJobResult) (w : W)
    : list InitJobResult * option string * W :=
  match jobs with
  | [] => (results, None, w)
  | job :: jobs =>
      let '(execution, err, w) := RunInitJob job w in
      let results :=
        if is_zero (resultStartedAt execution) then results else results ++ [execution] in
      match err with
      | Some e =>
          (results, Some ("service " +:+ initService job +:+ " init job " +:+ jobName (Job job) +:+
             ": " +:+ e), w)
      | None => runJobs jobs results w
      end
  end.

Definition stackInitJobs (stackName : string) (services : list ComposeService)
    (r : resolvedResources) (networks : list NetworkSpec) : list InitJobSpec :=
  mjoin (map (λ s, map (initJobSpec stackName r (networkTargets networks) s) (InitJobs s)) services).

(** ** Waiting *)
Definition wait (request : ServiceWaitRequest) (w : W)
    : ServiceWaitResult * option deployCause * W :=
  let '(result, err, w) := WaitFor request w in
  match err with
  | None => (result, None, w)
  | Some e =>
      let '(e, w) := withConvergenceTaskLogs result e w in
      (result,
       Some (CauseWait
         {| isConvergenceFailed := isConvergenceFailed e; isTransient := isTransient e;
            errorText := "wait for stack " +:+ StackName request +:+ " service convergence: " +:+
              errorText e |}), w)
  end.

Definition verified (unresolved : list string) : Verification :=
  {| Known := true; Deployments.UnresolvedServices := unresolved; Generations := ∅ |}.

(** ** The pipeline of a stack *)
Section Stack.
Variable request : StackRequest W.
Let stackName := reqStackName request.
Let desired := reqDesired request.

Definition runStackInitJobs (p : Payload W) : option deployCause * Payload W :=
  let '(results, err, w) :=
    runJobs (stackInitJobs stackName (Services desired) (resolved p) (convertedNetworks (converted p)))
      [] (world (applier p)) in
  (CauseText <$> err, setInitJobs (inWorld p w) results).

(** Once the apply begins, a failure may leave partially accepted updates. A
    definite refusal creates no obligation for the specification it refused. *)
Definition applyStack (p : Payload W) : option deployCause * Payload W :=
  let '(changed, err, a) :=
    applyWith (beforeUpdate request) stackName (convertedServices (converted p))
      (retryFailedUpdates request) (updateGenerations p) (applier p) in
  let p := setApplied p changed (generations a ∪ updateGenerations p) a in
  let v :=
    match err with
    | Some e =>
        if isRejected e
        then verified (unresolvedServices request ++ (map_to_list (generations a)).*1)
        else noVerification
    | None => noVerification
    end in
  (CauseApply <$> err, setVerification p (specificationOnly p) v).

(** An ownership policy that is not valid has failed the apply before. *)
Definition waitTargets (p : Payload W) : list string :=
  let specs := convertedServices (converted p) in
  let names :=
    if retryFailedUpdates request then convertedServiceNames stackName specs
    else verificationServiceNames stackName specs (changed p) (baseline p) in
  let names := appendMissing names (unresolvedServices request) in
  let expected := expectedServiceSpecs stackName specs in
  filter (λ name,
    ¬ (default true (ReplicasManaged (default noServiceSpec (expected !! name))) = false ∧
       name ∉ changed p ∧ name ∉ unresolvedServices request)) names.

Definition stackWaitRequest (p : Payload W) : ServiceWaitRequest :=
  {| StackName := stackName; ServiceNames := waitTargets p; Baseline := baseline p;
     AppliedServices := changed p; Waiter.UnresolvedServices := unresolvedServices request;
     ExpectedSpecs := expectedServiceSpecs stackName (convertedServices (converted p));
     UpdateGenerations := updateGenerations p |}.

Definition waitForStack (p : Payload W) : option deployCause * Payload W :=
  match convertedServices (converted p) with
  | [] => (None, p)
  | _ =>
      let '(result, err, w) := wait (stackWaitRequest p) (world (applier p)) in
      (err, setVerification (inWorld p w) (SpecificationOnlyServices result)
              (verified (ResultUnresolved result)))
  end.

Definition always (_ : Payload W) : bool := true.

Definition stackPipeline : list (Step deployCause (Payload W)) :=
  [{| stepName := "validate desired state"; When := always;
      Run := validateDesired stackName desired |};
   {| stepName := "reconcile networks"; When := always; Run := reconcilePlanned stackName desired |};
   {| stepName := "reconcile resources"; When := always;
      Run := reconcileResources stackName (reqSourcePath request) desired |};
   {| stepName := "convert stack"; When := always; Run := convertDesired stackName desired |};
   {| stepName := "run init jobs"; When := always; Run := runStackInitJobs |};
   {| stepName := "capture service baseline"; When := always; Run := captureBaseline stackName |};
   {| stepName := "apply stack"; When := always; Run := applyStack |};
   {| stepName := "wait for service convergence"; When := always; Run := waitForStack |}].

(** [payload.result] starts with a known verification without obligations. *)
Definition stackPayload (a : ApplierState W) : Payload W :=
  {| prepared := desired; converted := noStackSpec; resolved := noResources;
     specificationOnly := []; verification := verified []; initJobs := []; baseline := [];
     changed := []; updateGenerations := reqGenerations request; applier := a |}.

Definition DeployStack `{Gopipe} (a : ApplierState W)
    : option (string * deployCause) * Payload W :=
  runPipeline stackPipeline (stackPayload a).
End Stack.

(** ** The pipeline of one service *)
Section Service.
Variable request : ServiceRequest.
Let stackName := srvStackName request.

Definition prepareService (p : Payload W) : option deployCause * Payload W :=
  match SingleServiceCompose (srvDesired request) (srvServiceName request) with
  | Ok c => (None, setPrepared p c)
  | Err e => (Some (CauseText e), setPrepared p
      {| Services := []; Networks := ∅; Secrets := ∅; Configs := ∅; Volumes := ∅ |})
  end.

(** A step on the compose definition that was prepared. *)
Definition onPrepared (step : Compose → Payload W → option deployCause * Payload W) (p : Payload W)
    : option deployCause * Payload W := step (prepared p) p.

Definition applyService (p : Payload W) : option deployCause * Payload W :=
  let '(changed, err, a) :=
    applyWith None stackName (convertedServices (converted p)) false ∅ (applier p) in
  (CauseApply <$> err, setApplied p changed (generations a ∪ updateGenerations p) a).

Definition serviceWaitRequest (p : Payload W) : ServiceWaitRequest :=
  {| StackName := stackName;
     ServiceNames := convertedServiceNames stackName (convertedServices (converted p));
     Baseline := baseline p; AppliedServices := changed p; Waiter.UnresolvedServices := [];
     ExpectedSpecs := expectedServiceSpecs stackName (convertedServices (converted p));
     UpdateGenerations := updateGenerations p |}.

Definition waitForService (p : Payload W) : option deployCause * Payload W :=
  match convertedServices (converted p) with
  | [] => (None, p)
  | _ =>
      let '(result, err, w) := wait (serviceWaitRequest p) (world (applier p)) in
      (err, setVerification (inWorld p w) (SpecificationOnlyServices result)
              (verified (ResultUnresolved result)))
  end.

Definition applies (_ : Payload W) : bool := negb (VerifyOnly request).

Definition servicePipeline : list (Step deployCause (Payload W)) :=
  [{| stepName := "prepare single-service compose"; When := always; Run := prepareService |};
   {| stepName := "validate desired state"; When := always;
      Run := onPrepared (validateDesired stackName) |};
   {| stepName := "reconcile networks"; When := applies;
      Run := onPrepared (reconcilePlanned stackName) |};
   {| stepName := "reconcile resources"; When := applies;
      Run := onPrepared (reconcileResources stackName (srvSourcePath request)) |};
   {| stepName := "convert stack"; When := always; Run := onPrepared (convertDesired stackName) |};
   {| stepName := "capture service baseline"; When := always; Run := captureBaseline stackName |};
   {| stepName := "apply service"; When := applies; Run := applyService |};
   {| stepName := "wait for service convergence"; When := always; Run := waitForService |}].

Definition servicePayload (a : ApplierState W) : Payload W :=
  {| prepared := {| Services := []; Networks := ∅; Secrets := ∅; Configs := ∅; Volumes := ∅ |};
     converted := noStackSpec; resolved := noResources; specificationOnly := [];
     verification := noVerification; initJobs := []; baseline := []; changed := [];
     updateGenerations := ∅; applier := a |}.

Definition DeployService `{Gopipe} (a : ApplierState W)
    : option (string * deployCause) * Payload W :=
  runPipeline servicePipeline (servicePayload a).
End Service.

(** ** Registry credentials *)
Definition RefreshRegistryAuth (stackName : string) (desired : Compose) (a : ApplierState W)
    : option deployCause * ApplierState W :=
  match Convert stackName desired (world a) with
  | (Err e, w) => (Some (CauseText ("convert registry authentication targets: " +:+ e)), setWorld a w)
  | (Ok c, w) =>
      let '(err, a) := Applier.RefreshRegistryAuth stackName (convertedServices c) (setWorld a w) in
      (CauseApply <$> err, a)
  end.
End Deployer.
