(* ===== verification/DeployerSafety.v ===== *)
(** * What a deployment guarantees ([deployments/deployer/pipeline.go])

    The applier and the waiter composed by the pipelines: a failure of the
    preparation touches no service, every write that Docker may have accepted is
    verified or stays an obligation, and a deployment that succeeds has seen its
    services converge. *)
From S2P Require Import Prelude GoStrings TaskSpecs Deployments ServiceSpecs TaskFailure Waiter WaiterConvergence Applier ApplierSafety ApplierResults ApplierObligations Gopipe Deployer.
Local Open Scope go_scope.

(** ** Names *)
Lemma has_prefix_app p s : has_prefix p (p +:+ s) = true.
Proof. apply has_prefix_spec. by exists s. Qed.

Lemma string_drop_length p s : string_drop (String.length p) (p +:+ s) = s.
Proof. induction p as [|c p IH]; [done|]. cbn. apply IH. Qed.

Lemma trim_prefix_app p s : trim_prefix p (p +:+ s) = s.
Proof. unfold trim_prefix. by rewrite has_prefix_app, string_drop_length. Qed.

Lemma displayNameOf_app stackName name :
  name ≠ "" → displayNameOf stackName (stackName +:+ "_" +:+ name) = name.
Proof.
  intros Hne. unfold displayNameOf. rewrite <- string_app_assoc, has_prefix_app, string_drop_length.
  rewrite andb_true_r. destruct (_ <? _)%nat eqn:Hlt; [done|]. apply Nat.ltb_ge in Hlt.
  rewrite !string_length_app in Hlt. destruct name; [done|]. simpl in Hlt. lia.
Qed.

Lemma elem_of_appendMissing x names more :
  x ∈ appendMissing names more ↔ x ∈ names ∨ x ∈ more.
Proof.
  unfold appendMissing. revert names. induction more as [|m more IH]; intros names; simpl; [set_solver|].
  rewrite IH. case_bool_decide; set_solver.
Qed.

(** Service names of a Compose definition are the keys of a mapping. *)
Definition wellNamed (c : Compose) : Prop :=
  NoDup (map composeName (Services c)) ∧ "" ∉ map composeName (Services c).

Section Names.
Context {W : Type} `{ConverterContract W}.

Lemma mapped_names (f : string → string) stackName desired w c :
  wellNamed desired → (Convert stackName desired w).1 = Ok c →
  (∀ name, name ≠ "" → f (stackName +:+ "_" +:+ name) = name) →
  map (λ spec, f (Name (specAnnotations spec))) (convertedServices c) ≡ₚ
  map composeName (Services desired).
Proof.
  intros [_ Hne] Hc Hf. rewrite <- (map_map (λ spec, Name (specAnnotations spec)) f).
  rewrite (converted_names _ _ _ _ Hc), map_map.
  erewrite map_ext_in; [done|]. intros s Hs. apply Hf. intros Heq. apply Hne.
  rewrite <- Heq. by apply list_elem_of_In, in_map.
Qed.

Lemma converted_displayNames stackName desired w c :
  wellNamed desired → (Convert stackName desired w).1 = Ok c →
  displayNames stackName (convertedServices c) ≡ₚ map composeName (Services desired).
Proof. intros Hd Hc. eapply mapped_names; [done..|]. apply displayNameOf_app. Qed.

Lemma converted_serviceNames stackName desired w c :
  wellNamed desired → (Convert stackName desired w).1 = Ok c →
  convertedServiceNames stackName (convertedServices c) ≡ₚ map composeName (Services desired).
Proof.
  intros Hd Hc. eapply (mapped_names (trim_prefix _)); [done..|]. intros name _.
  by rewrite <- string_app_assoc, trim_prefix_app.
Qed.
End Names.

(** The waiter of a deployer is [Waiter.Wait]: with enough ticks it returns what
    it returns ([wait_terminates]). *)
Class WaiterContract `{DockerSDK, PlacementConstraints} (mask : string → string) (W : Type)
    `{DeployComponents W, WaitEnvironment W} := {
  waits request w : ∃ fuel s, Wait mask fuel request w =
    Some ((WaitFor request w).1.1, (WaitFor request w).1.2, s, (WaitFor request w).2);
}.

(** ** The pipeline of a stack *)
Section StackSafety.
Context `{DockerSDK, PlacementConstraints} {W : Type} `{HM : ServiceManager W}
        `{DeployComponents W} `{GopipeLaws}.
Variable request : StackRequest W.
Let stackName := reqStackName request.

(** What no step before the apply changes. *)
Definition untouched (p p' : Payload W) : Prop :=
  calls (applier p') = calls (applier p) ∧ auth (applier p') = auth (applier p) ∧
  generations (applier p') = generations (applier p) ∧ verification p' = verification p ∧
  changed p' = changed p ∧ updateGenerations p' = updateGenerations p.

#[export] Instance untouched_preorder : PreOrder untouched.
Proof.
  split; [by intros p|]. intros p1 p2 p3 (?&?&?&?&?&?) (?&?&?&?&?&?).
  unfold untouched. by split_and!; etrans.
Qed.

Lemma validate_untouched n d p : untouched p (validateDesired n d p).2.
Proof. done. Qed.

Lemma reconcilePlanned_untouched n d p : untouched p (reconcilePlanned n d p).2.
Proof.
  unfold reconcilePlanned. destruct (PlanNetworks _ _); [|done]. by destruct (ReconcileNetworks _ _ _).
Qed.

Lemma reconcileResources_untouched n source d p : untouched p (reconcileResources n source d p).2.
Proof.
  unfold reconcileResources. destruct (_ && _); [done|]. destruct (ResolveSecrets _ _ _); [|done].
  by destruct (ReconcileObjects _ _ _ _ _) as [[]].
Qed.

Lemma convert_untouched n d p : untouched p (convertDesired n d p).2.
Proof. unfold convertDesired. by destruct (Convert _ _ _) as [[]]. Qed.

Lemma baseline_untouched n p : untouched p (captureBaseline n p).2.
Proof. unfold captureBaseline. by destruct (Snapshot _ _) as [[]]. Qed.

Lemma initJobs_untouched p : untouched p (runStackInitJobs request p).2.
Proof. unfold runStackInitJobs. by destruct (runJobs _ _ _) as [[]]. Qed.

#[local] Hint Resolve validate_untouched reconcilePlanned_untouched reconcileResources_untouched
  convert_untouched baseline_untouched initJobs_untouched : untouched.

(** The steps before the apply. *)
Definition preparation : list (Step deployCause (Payload W)) := take 6 (stackPipeline request).

Lemma preparation_untouched p : untouched p (runPipeline preparation p).2.
Proof.
  apply pipeline_preserves; [apply _|].
  repeat first [apply Forall_nil_2 | apply Forall_cons_2]; intros ? _; cbn [Run]; eauto with untouched.
Qed.

Lemma DeployStack_steps a :
  DeployStack request a =
  match runPipeline preparation (stackPayload request a) with
  | (None, p) =>
      match applyStack request p with
      | (Some e, p) => (Some ("apply stack", e), p)
      | (None, p) =>
          let '(e, p) := waitForStack request p in
          (pair "wait for service convergence" <$> e, p)
      end
  | stopped => stopped
  end.
Proof.
  unfold DeployStack. rewrite <- (take_drop 6 (stackPipeline request)), pipeline_app. fold preparation.
  destruct (runPipeline preparation _) as [[e|] p]; [done|]. simpl.
  rewrite pipeline_cons. simpl. destruct (applyStack request p) as [[e|] p1]; [done|].
  rewrite pipeline_cons. simpl. destruct (waitForStack request p1) as [[e|] p2]; [done|].
  by rewrite pipeline_nil.
Qed.

(** A deployment that fails before the apply has touched no service: whether
    the definition is invalid, the networks, configs or secrets can not be
    reconciled, the conversion fails, an init job fails or the baseline can not
    be read, no call to a service was made, no obligation was added, and the
    verification is known with nothing unresolved. *)
Theorem early_failure_touches_nothing (a : ApplierState W) (step : string) (e : deployCause)
    (p : Payload W) (Hfailed : DeployStack request a = (Some (step, e), p))
    (Hearly : step ≠ "apply stack" ∧ step ≠ "wait for service convergence") :
  calls (applier p) = calls a ∧ generations (applier p) = generations a ∧
  auth (applier p) = auth a ∧ changed p = [] ∧
  updateGenerations p = reqGenerations request ∧
  verification p = {| Known := true; Deployments.UnresolvedServices := []; Generations := ∅ |}.
Proof.
  rewrite DeployStack_steps in Hfailed. destruct Hearly as [Ha Hw].
  pose proof (preparation_untouched (stackPayload request a)) as Hu.
  destruct (runPipeline preparation _) as [[[step' e']|] p'].
  - injection Hfailed as <- <- <-. by destruct Hu as (?&?&?&?&?&?).
  - destruct (applyStack request p') as [[]]; [by simplify_eq|].
    destruct (waitForStack request _) as [[]]; by simplify_eq/=.
Qed.

(** ** Writes and their verification *)
Lemma preparation_converted a p :
  runPipeline preparation (stackPayload request a) = (None, p) →
  ∃ w, (Convert stackName (reqDesired request) w).1 = Ok (converted p).
Proof.
  set (R := λ p p' : Payload W, converted p' = converted p).
  assert (PreOrder R) as HR.
  { split; [by intros ?|]. intros p1 p2 p3 ? ?. unfold R in *. congruence. }
  unfold preparation. rewrite <- (take_drop 4 (take 6 _)), pipeline_app.
  change (take 4 (take 6 (stackPipeline request))) with
    (take 3 (stackPipeline request) ++
     [{| stepName := "convert stack"; When := always;
         Run := convertDesired (reqStackName request) (reqDesired request) |}]).
  rewrite pipeline_app. destruct (runPipeline (take 3 _) _) as [[e|] p1]; [done|].
  rewrite pipeline_cons. cbn [When Run stepName]. unfold always.
  destruct (convertDesired _ _ p1) as [[e|] p2] eqn:Hc; [done|]. rewrite pipeline_nil. intros Hrun.
  assert (R p2 p) as Hp.
  { change p with ((@None (string * deployCause), p).2). rewrite <- Hrun.
    apply pipeline_preserves; [done|]. simpl.
    repeat first [apply Forall_nil_2 | apply Forall_cons_2]; intros s _; cbn [Run]; unfold R.
    - unfold runStackInitJobs. by destruct (runJobs _ _ _) as [[]].
    - unfold captureBaseline. by destruct (Snapshot _ _) as [[]]. }
  revert Hc. unfold convertDesired. destruct (Convert _ _ _) as [[c|] w] eqn:Hconv; [|done].
  intros [= <-]. exists (world (applier p1)). unfold stackName. rewrite Hp. by rewrite Hconv.
Qed.

(** A write that Docker may have accepted. *)
Definition mayHaveAccepted (l : list Call) (id : string) : Prop :=
  ∃ version sent answer, Updated id version sent answer ∈ l ∧
    ∀ e, answer = Some e → ServiceUpdateRejected e = false.

Lemma mayHaveAccepted_accepted l id : mayHaveAccepted l id → acceptedIn l id.
Proof.
  intros (v & sent & answer & Hin & Ha). exists v, sent, answer. split; [done|].
  destruct answer as [e|]; [|done]. simpl. by rewrite Ha.
Qed.

Lemma applyStack_tracks p :
  NoDup (displayNames stackName (convertedServices (converted p))) →
  let '(err, p') := applyStack request p in
  converted p' = converted p ∧ baseline p' = baseline p ∧
  ∃ l, calls (applier p') = calls (applier p) ++ l ∧
    (∀ id, acceptedIn l id →
       ∃ name entry, name ∈ displayNames stackName (convertedServices (converted p)) ∧
         updateGenerations p' !! name = Some entry ∧ ServiceID entry = id ∧
         match err with
         | Some _ => Known (verification p') = false ∨
                     name ∈ Deployments.UnresolvedServices (verification p')
         | None => name ∈ changed p'
         end) ∧
    ∀ name, name ∈ changed p' → name ∈ displayNames stackName (convertedServices (converted p)).
Proof.
  intros Hnd. unfold applyStack, applyWith.
  pose proof (Apply_tracks (H1 := withBeforeUpdate (beforeUpdate request)) stackName _
    {| RetryFailedUpdates := retryFailedUpdates request |}
    (setGenerations (applier p) (updateGenerations p)) Hnd) as Hrun.
  fold stackName. destruct (Apply _ _ _ _) as [[names err] a].
  destruct Hrun as (l & Hl & _ & _ & Ha & Hc). cbn. split_and!; [done..|]. exists l.
  split_and!; [done| |].
  - intros id (name & entry & Hn & He & Hid & Hr)%Ha. exists name, entry.
    split_and!; [done|by apply lookup_union_Some_l|done|].
    destruct err as [e|]; simpl; [|by destruct Hr as [?|[]]]. destruct (isRejected e); [|by left].
    right. simpl. apply elem_of_app. right. apply list_elem_of_fmap. exists (name, entry).
    split; [done|by apply elem_of_map_to_list].
  - intros name [Hn|[? _]]%Hc; [by apply not_elem_of_nil in Hn|done].
Qed.

(** Every service that was written or left unresolved before is waited for. *)
Lemma waitTargets_targets p name :
  name ∈ changed p ∧ name ∈ convertedServiceNames stackName (convertedServices (converted p)) ∨
  name ∈ unresolvedServices request →
  name ∈ waitTargets request p.
Proof.
  intros Hname. unfold waitTargets. apply list_elem_of_filter. split.
  { intros (_ & Hc & Hu). destruct Hname as [[? _]|?]; [by apply Hc|by apply Hu]. }
  apply elem_of_appendMissing. destruct Hname as [[Hc Hn]|?]; [left|by right].
  destruct (retryFailedUpdates request); [done|]. apply elem_of_appendMissing. by left.
Qed.

(** The wait of a deployment of some services. *)
Lemma waitForStack_run p :
  convertedServices (converted p) ≠ [] →
  let '(err, p') := waitForStack request p in
  let '(result, e, w) := WaitFor (stackWaitRequest request p) (world (applier p)) in
  (err = None ↔ e = None) ∧
  verification p' = {| Known := true; Deployments.UnresolvedServices := ResultUnresolved result;
                       Generations := ∅ |} ∧
  calls (applier p') = calls (applier p) ∧ changed p' = changed p ∧
  updateGenerations p' = updateGenerations p ∧ converted p' = converted p ∧ baseline p' = baseline p.
Proof.
  intros Hne. unfold waitForStack. destruct (convertedServices (converted p)); [done|].
  unfold wait. destruct (WaitFor _ _) as [[result e] w].
  destruct e as [e|]; simpl; [|by split_and!]. by destruct (withConvergenceTaskLogs _ _ _).
Qed.

Context `{!ConverterContract W}.

(** C24. Every write of a deployment that Docker may have accepted is accounted
    for, however the deployment ends. Its service has an entry among the update
    generations, and either the verification is unknown, so that everything is
    verified again; or it names the service as unresolved; or the waiter was
    asked about the service with that entry, and the unresolved services are
    those it reports. *)
Theorem accepted_writes_are_accounted (a : ApplierState W)
    (Hdesired : wellNamed (reqDesired request)) :
  let '(err, p) := DeployStack request a in
  ∃ l, calls (applier p) = calls a ++ l ∧
    ∀ id, mayHaveAccepted l id →
      ∃ name entry, name ∈ map composeName (Services (reqDesired request)) ∧
        updateGenerations p !! name = Some entry ∧ ServiceID entry = id ∧
        (Known (verification p) = false ∨
         name ∈ Deployments.UnresolvedServices (verification p) ∨
         ∃ w, name ∈ ServiceNames (stackWaitRequest request p) ∧
           UpdateGenerations (stackWaitRequest request p) !! name = Some entry ∧
           Deployments.UnresolvedServices (verification p) =
             ResultUnresolved (WaitFor (stackWaitRequest request p) w).1.1).
Proof.
  rewrite DeployStack_steps.
  pose proof (preparation_untouched (stackPayload request a)) as Hu.
  pose proof (preparation_converted a) as Hconv.
  destruct (runPipeline preparation _) as [[[step e]|] p1]; simpl in Hu.
  { exists []. rewrite app_nil_r. split; [apply Hu|]. intros id (v & s & ans & Hin & _).
    by apply not_elem_of_nil in Hin. }
  destruct (Hconv p1 eq_refl) as [w0 Hw0]. destruct Hu as (Hcalls & _).
  pose proof (converted_displayNames _ _ _ _ Hdesired Hw0) as Hnames.
  pose proof (converted_serviceNames _ _ _ _ Hdesired Hw0) as Hservices.
  pose proof (applyStack_tracks p1) as Happly. rewrite Hnames in Happly.
  specialize (Happly (proj1 Hdesired)).
  destruct (applyStack request p1) as [[e|] p2];
    destruct Happly as (Hc2 & Hb2 & l & Hl & Hacc & Hchanged).
  { exists l. rewrite Hl. split; [by rewrite Hcalls|]. intros id Hid%mayHaveAccepted_accepted.
    destruct (Hacc id Hid) as (name & entry & Hn & ? & ? & Hv). exists name, entry.
    rewrite Hnames in Hn. split_and!; [done..|]. destruct Hv; [by left|by right; left]. }
  destruct (decide (convertedServices (converted p2) = [])) as [Hnil|Hne].
  { unfold waitForStack. rewrite Hnil. simpl. exists l. rewrite Hl. split; [by rewrite Hcalls|].
    intros id Hid%mayHaveAccepted_accepted. destruct (Hacc id Hid) as (name & _ & Hn & _).
    rewrite <- Hc2, Hnil in Hn. by apply not_elem_of_nil in Hn. }
  pose proof (waitForStack_run p2 Hne) as Hwait.
  destruct (waitForStack request p2) as [err p3]. cbv beta iota.
  destruct (WaitFor _ _) as [[result e] w] eqn:Hw.
  destruct Hwait as (_ & Hv & Hcalls3 & Hch & Hg & Hc3 & Hb3).
  exists l. rewrite Hcalls3, Hl. split; [by rewrite Hcalls|].
  intros id Hid%mayHaveAccepted_accepted. destruct (Hacc id Hid) as (name & entry & Hn & He & ? & Hin).
  exists name, entry. rewrite Hnames in Hn. rewrite Hg. split_and!; [done..|]. right. right.
  assert (stackWaitRequest request p3 = stackWaitRequest request p2) as ->.
  { unfold stackWaitRequest, waitTargets. by rewrite Hch, Hg, Hc3, Hb3. }
  exists (world (applier p2)). rewrite Hv, Hw. split_and!; [|done|done].
  apply waitTargets_targets. left. split; [exact Hin|].
  by rewrite Hc2, Hservices.
Qed.

End StackSafety.
