(* ===== verification/DeployerServices.v ===== *)
(** * Deployments of one service, and init jobs ([deployments/deployer/pipeline.go],
      [deployer/stack/compose.go])

    The projection of a definition to one service, the pipeline that applies or
    only verifies it, and the order of the init jobs. *)
From S2P Require Import Prelude GoStrings TaskSpecs Deployments ServiceSpecs TaskFailure Waiter WaiterConvergence Applier ApplierSafety ApplierResults ApplierObligations Gopipe Deployer DeployerSafety.
Local Open Scope go_scope.

(** ** The projection to one service *)
Lemma lookup_selectKeys m keys k :
  selectKeys m keys !! k = if bool_decide (k ∈ keys) then m !! k else None.
Proof.
  unfold selectKeys. apply option_eq. intros v. rewrite map_lookup_filter_Some.
  case_bool_decide; naive_solver.
Qed.

Lemma selectKeys_idemp m keys : selectKeys (selectKeys m keys) keys = selectKeys m keys.
Proof. apply map_eq. intros k. rewrite !lookup_selectKeys. by case_bool_decide. Qed.

(** The top-level objects a service refers to. *)
Definition referencedConfigs (s : ComposeService) : list string :=
  map Source (serviceConfigs s) ++
  match credentialConfig s with
  | Some config => if bool_decide (config = "") then [] else [config]
  | None => []
  end.

Definition referencedVolumes (s : ComposeService) : list string :=
  map volumeSource (filter (λ v, EffectiveType v = ServiceVolumeTypeVolume) (serviceVolumes s)).

Definition referencedNetworks (s : ComposeService) : list string :=
  aliasesOrDefault (serviceNetworks s) ++ mjoin (map jobNetworks (InitJobs s)).

Definition projection (desired : Compose) (s : ComposeService) : Compose :=
  {| Services := [s]; Networks := selectKeys (Networks desired) (referencedNetworks s);
     Secrets := selectKeys (Secrets desired) (map Source (serviceSecrets s));
     Configs := selectKeys (Configs desired) (referencedConfigs s);
     Volumes := selectKeys (Volumes desired) (referencedVolumes s) |}.

Lemma SingleServiceCompose_projection desired name :
  SingleServiceCompose desired name =
  match find (λ s, bool_decide (composeName s = name)) (Services desired) with
  | Some s => Ok (projection desired s)
  | None => Err ("service " +:+ quoted name +:+ " not found in compose")
  end.
Proof.
  unfold SingleServiceCompose. destruct (find _ _) as [s|]; [|done].
  unfold projection, selectObjects, referencedConfigs. rewrite map_app.
  destruct (credentialConfig s) as [c|]; [|done]. by destruct (bool_decide (c = "")).
Qed.

(** The definition of one service has exactly that service, and of every kind
    of object exactly those it refers to: the networks of the service and of its
    init jobs (the default network when it names none), its secrets, its configs
    and the one of its credential specification, and the sources of its named
    volumes. Projecting it again changes nothing, and a name the definition does
    not have is an error. *)
Theorem SingleServiceCompose_exact (desired : Compose) (name : string) :
  match SingleServiceCompose desired name with
  | Err _ => name ∉ map composeName (Services desired)
  | Ok single =>
      SingleServiceCompose single name = Ok single ∧
      ∃ s, s ∈ Services desired ∧ composeName s = name ∧ Services single = [s] ∧
      (∀ k, Networks single !! k =
         if bool_decide (k ∈ referencedNetworks s) then Networks desired !! k else None) ∧
      (∀ k, Secrets single !! k =
         if bool_decide (k ∈ map Source (serviceSecrets s)) then Secrets desired !! k else None) ∧
      (∀ k, Configs single !! k =
         if bool_decide (k ∈ referencedConfigs s) then Configs desired !! k else None) ∧
      (∀ k, Volumes single !! k =
         if bool_decide (k ∈ referencedVolumes s) then Volumes desired !! k else None)
  end.
Proof.
  rewrite SingleServiceCompose_projection. destruct (find _ _) as [s|] eqn:Hf.
  - apply find_some in Hf as [Hin Hname]. apply bool_decide_eq_true in Hname as <-. split.
    + rewrite SingleServiceCompose_projection. cbn [find Services projection].
      rewrite bool_decide_true by done. unfold projection. cbn. by rewrite !selectKeys_idemp.
    + exists s. split_and!; [by apply list_elem_of_In|done|done|..]; intros k; apply lookup_selectKeys.
  - intros (s & -> & Hin)%list_elem_of_fmap. apply list_elem_of_In in Hin.
    apply (find_none _ _ Hf) in Hin. by apply bool_decide_eq_false in Hin.
Qed.

(** ** Init jobs *)
Section InitJobs.
Context {W : Type} `{DeployComponents W}.

(** The jobs that ran, each with its outcome, from one world to the other. *)
Inductive jobRuns : W → list (InitJobSpec * InitJobResult * option string) → W → Prop :=
| runs_done w : jobRuns w [] w
| runs_job w job execution err w1 runs w2 :
    RunInitJob job w = (execution, err, w1) →
    (err ≠ None → runs = []) → jobRuns w1 runs w2 →
    jobRuns w ((job, execution, err) :: runs) w2.

Definition started (r : InitJobResult) : Prop := is_zero (resultStartedAt r) = false.
#[local] Instance started_dec r : Decision (started r).
Proof. unfold started. apply _. Defined.

(** Init jobs run one after the other, in the order of the services and of
    their definitions, and none runs after one that failed. The runs end well
    exactly when all jobs ran without an error; otherwise the last one failed and
    the error names it. The results are those of the jobs that were started. *)
Theorem init_jobs_run_in_order (jobs : list InitJobSpec) (w : W) :
  let '(results, err, w') := runJobs jobs [] w in
  ∃ runs rest, jobRuns w runs w' ∧ jobs = map (λ r, r.1.1) runs ++ rest ∧
    results = filter started (map (λ r, r.1.2) runs) ∧
    match err with
    | None => rest = [] ∧ Forall (λ r, r.2 = None) runs
    | Some e => ∃ before job execution cause, runs = before ++ [(job, execution, Some cause)] ∧
        e = "service " +:+ initService job +:+ " init job " +:+ jobName (Job job) +:+ ": " +:+ cause
    end.
Proof.
  assert (∀ acc, let '(results, err, w') := runJobs jobs acc w in
    ∃ runs rest, jobRuns w runs w' ∧ jobs = map (λ r, r.1.1) runs ++ rest ∧
      results = acc ++ filter started (map (λ r, r.1.2) runs) ∧
      match err with
      | None => rest = [] ∧ Forall (λ r, r.2 = None) runs
      | Some e => ∃ before job execution cause, runs = before ++ [(job, execution, Some cause)] ∧
          e = "service " +:+ initService job +:+ " init job " +:+ jobName (Job job) +:+ ": " +:+ cause
      end) as Hgo; [|exact (Hgo [])].
  revert w. induction jobs as [|job jobs IH]; intros w acc; simpl.
  { exists [], []. simpl. rewrite !app_nil_r. split_and!; by try constructor. }
  destruct (RunInitJob job w) as [[execution err] w1] eqn:Hrun.
  assert (∀ tail, (if is_zero (resultStartedAt execution) then acc else acc ++ [execution]) ++ tail =
    acc ++ filter started [execution] ++ tail) as Hacc.
  { intros tail. destruct (is_zero _) eqn:Hz; [by rewrite filter_cons_False by (unfold started; by rewrite Hz)|].
    by rewrite filter_cons_True, <- (assoc_L (++)) by done. }
  destruct err as [e|].
  - exists [(job, execution, Some e)], jobs. split_and!; [by econstructor; [|done|constructor]|done| |].
    + specialize (Hacc []). by rewrite !app_nil_r in Hacc.
    + by exists [], job, execution, e.
  - specialize (IH w1 (if is_zero (resultStartedAt execution) then acc else acc ++ [execution])).
    destruct (runJobs jobs _ w1) as [[results err] w']. destruct IH as (runs & rest & Hr & -> & -> & Hend).
    exists ((job, execution, None) :: runs), rest. split_and!; [by econstructor|done| |].
    + rewrite Hacc. f_equal. simpl. by rewrite <- filter_app.
    + destruct err as [e|]; [|naive_solver]. destruct Hend as (before & j & x & c & -> & ->).
      by exists ((job, execution, None) :: before), j, x, c.
Qed.
End InitJobs.

(** ** The pipeline of one service *)
Section ServiceSafety.
Context `{DockerSDK, PlacementConstraints} {W : Type} `{HM : ServiceManager W}
        `{DeployComponents W} `{GopipeLaws}.
Variable request : ServiceRequest.
Let stackName := srvStackName request.

(** The world is [p]'s up to [R], and the applier has done nothing. *)
Definition quietly (R : W → W → Prop) (p p' : Payload W) : Prop :=
  untouched (setVerification p (specificationOnly p) noVerification)
    (setVerification p' (specificationOnly p') noVerification) ∧
  resolved p' = resolved p ∧ R (world (applier p)) (world (applier p')).

#[local] Instance quietly_preorder R `{!PreOrder R} : PreOrder (quietly R).
Proof.
  split; [by intros p|]. intros p1 p2 p3 (Hu & ? & ?) (Hu' & ? & ?).
  split_and!; [|by etrans..]. destruct Hu as (?&?&?&?&?&?), Hu' as (?&?&?&?&?&?).
  unfold untouched. by split_and!; etrans.
Qed.

(** A verification is read-only. When a run of a single service only verifies,
    whatever the reads of Docker preserve (the conversion, the snapshot, the wait
    and the collection of logs) the run preserves: it reconciles no network,
    config or secret, makes no call to a service, and records nothing. *)
Theorem verification_is_read_only (R : W → W → Prop) `{!PreOrder R}
    (Hconvert : ∀ n c w, R w (Convert n c w).2)
    (Hsnapshot : ∀ n w, R w (Snapshot n w).2)
    (Hwait : ∀ r w, R w (WaitFor r w).2)
    (Hlogs : ∀ r e w, R w (withConvergenceTaskLogs r e w).2)
    (Hverify : VerifyOnly request = true) (a : ApplierState W) :
  let '(err, p) := DeployService request a in
  R (world a) (world (applier p)) ∧ calls (applier p) = calls a ∧
  auth (applier p) = auth a ∧ generations (applier p) = generations a ∧
  changed p = [] ∧ resolved p = noResources.
Proof.
  assert (quietly R (servicePayload a) (DeployService request a).2) as (Hu & Hr & HR).
  { unfold DeployService, servicePipeline. apply pipeline_preserves; [apply _|].
    repeat first [apply Forall_nil_2 | apply Forall_cons_2]; intros p Happly; cbn [Run When] in *;
      unfold applies in *; rewrite ?Hverify in Happly; try done.
    - unfold prepareService. by destruct (SingleServiceCompose _ _).
    - unfold onPrepared, convertDesired. specialize (Hconvert stackName (prepared p) (world (applier p))).
      fold stackName. by destruct (Convert _ _ _) as [[] w].
    - unfold captureBaseline. specialize (Hsnapshot stackName (world (applier p))). fold stackName.
      by destruct (Snapshot _ _) as [[] w].
    - unfold waitForService. destruct (convertedServices _); [done|]. unfold wait.
      specialize (Hwait (serviceWaitRequest request p) (world (applier p))).
      destruct (WaitFor _ _) as [[result [e|]] w]; [|done]. specialize (Hlogs result e w).
      destruct (withConvergenceTaskLogs _ _ _) as [e' w']. simpl in *.
      split_and!; [done|done|simpl]. by etrans. }
  destruct (DeployService request a) as [err p]. by destruct Hu as (?&?&?&?&?&?).
Qed.

Context `{!ConverterContract W}.
Let serviceName := srvServiceName request.

Definition servicePreparation : list (Step deployCause (Payload W)) := take 6 (servicePipeline request).

Lemma DeployService_steps a :
  DeployService request a =
  match runPipeline servicePreparation (servicePayload a) with
  | (None, p) =>
      match (if VerifyOnly request then (None, p) else applyService request p) with
      | (Some e, p) => (Some ("apply service", e), p)
      | (None, p) =>
          let '(e, p) := waitForService request p in
          (pair "wait for service convergence" <$> e, p)
      end
  | stopped => stopped
  end.
Proof.
  unfold DeployService. rewrite <- (take_drop 6 (servicePipeline request)), pipeline_app.
  fold servicePreparation. destruct (runPipeline servicePreparation _) as [[e|] p]; [done|]. simpl.
  rewrite pipeline_cons. simpl. unfold applies. destruct (VerifyOnly request); simpl.
  - rewrite pipeline_cons. simpl. destruct (waitForService request p) as [[e|] p2]; [done|].
    by rewrite pipeline_nil.
  - destruct (applyService request p) as [[e|] p1]; [done|].
    rewrite pipeline_cons. simpl. destruct (waitForService request p1) as [[e|] p2]; [done|].
    by rewrite pipeline_nil.
Qed.

Lemma servicePreparation_untouched p : untouched p (runPipeline servicePreparation p).2.
Proof.
  apply pipeline_preserves; [apply _|].
  repeat first [apply Forall_nil_2 | apply Forall_cons_2]; intros s _; cbn [Run]; unfold onPrepared.
  - unfold prepareService. by destruct (SingleServiceCompose _ _).
  - apply validate_untouched.
  - apply reconcilePlanned_untouched.
  - apply reconcileResources_untouched.
  - apply convert_untouched.
  - apply baseline_untouched.
Qed.

(** The preparation converts the definition of the one service. *)
Lemma servicePreparation_converted a p :
  runPipeline servicePreparation (servicePayload a) = (None, p) →
  ∃ single w, SingleServiceCompose (srvDesired request) serviceName = Ok single ∧
    (Convert stackName single w).1 = Ok (converted p).
Proof.
  unfold servicePreparation. cbn [take servicePipeline].
  rewrite pipeline_cons. cbn [When Run stepName always]. unfold prepareService. fold serviceName.
  destruct (SingleServiceCompose _ _) as [single|]; [|done].
  set (p1 := setPrepared _ single). change single with (prepared p1). clearbody p1.
  change (?x :: ?y :: ?z :: ?l) with ([x; y; z] ++ l).
  rewrite pipeline_app.
  set (R := λ p p' : Payload W, prepared p' = prepared p).
  assert (PreOrder R) as HR.
  { split; [by intros ?|]. intros ? ? ? ? ?. unfold R in *. congruence. }
  match goal with |- context [runPipeline ?steps p1] =>
    assert (R p1 (runPipeline steps p1).2) as Hp;
    [apply pipeline_preserves; [done|]|destruct (runPipeline steps p1) as [[e|] p2]; [done|]]
  end.
  { repeat first [apply Forall_nil_2 | apply Forall_cons_2]; intros s _; cbn [Run];
      unfold onPrepared, R.
    - done.
    - unfold reconcilePlanned. destruct (PlanNetworks _ _); [|done]. by destruct (ReconcileNetworks _ _ _).
    - unfold reconcileResources. destruct (_ && _); [done|]. destruct (ResolveSecrets _ _ _); [|done].
      by destruct (ReconcileObjects _ _ _ _ _) as [[]]. }
  rewrite <- Hp.
  rewrite pipeline_cons. cbn [When Run stepName]. unfold always, onPrepared at 1, convertDesired.
  destruct (Convert _ _ _) as [[c|] w] eqn:Hc; [|done].
  rewrite pipeline_cons. cbn [When Run stepName]. unfold captureBaseline.
  intros Hrun. exists (prepared p2), (world (applier p2)). unfold stackName. rewrite Hc. split; [done|].
  destruct (Snapshot _ _) as [[services|] w1]; [|done]. rewrite pipeline_nil in Hrun.
  by injection Hrun as <-.
Qed.

(** A write to the service of the request, inspected before it. *)
Definition writesService (l : list Call) : Prop :=
  ∀ l1 id version sent answer l2, l = l1 ++ Updated id version sent answer :: l2 →
    ∃ current, Inspected current ∈ l1 ∧ svcID current = id ∧ svcVersion current = version ∧
      Name (specAnnotations (Spec current)) = stackName +:+ "_" +:+ serviceName ∧
      map_index (Labels (specAnnotations (Spec current))) StackNamespace = stackName.

Lemma applyService_tracks p :
  map (λ spec, Name (specAnnotations spec)) (convertedServices (converted p)) =
    [stackName +:+ "_" +:+ serviceName] → serviceName ≠ "" →
  let '(err, p') := applyService request p in
  converted p' = converted p ∧ verification p' = verification p ∧
  ∃ l, calls (applier p') = calls (applier p) ++ l ∧ writesService l ∧
    ∀ id, acceptedIn l id → ∃ entry,
      updateGenerations p' !! serviceName = Some entry ∧ ServiceID entry = id.
Proof.
  intros Hnames Hne. unfold applyService, applyWith. fold stackName.
  assert (displayNames stackName (convertedServices (converted p)) = [serviceName]) as Hdisplay.
  { unfold displayNames.
    rewrite <- (map_map (λ spec, Name (specAnnotations spec)) (displayNameOf stackName)), Hnames.
    simpl. by rewrite displayNameOf_app. }
  set (options := {| RetryFailedUpdates := false |}).
  pose proof (Apply_tracks (H1 := withBeforeUpdate None) stackName (convertedServices (converted p))
    options (setGenerations (applier p) ∅)) as Hrun.
  rewrite Hdisplay in Hrun. specialize (Hrun (NoDup_singleton _)).
  destruct (Apply_outcome (H1 := withBeforeUpdate None) stackName (convertedServices (converted p))
    options (setGenerations (applier p) ∅)) as (l & Hl & Hwrites & _).
  destruct (Apply _ _ _ _) as [[names err] a]. destruct Hrun as (l' & Hl' & _ & _ & Ha & _).
  simpl in Hl. rewrite Hl in Hl'. apply app_inv_head in Hl' as <-. cbn. split_and!; [done..|].
  exists l. split_and!; [done| |].
  - intros l1 id version sent answer l2 Heq. destruct (Hwrites _ _ _ _ _ _ Heq)
      as (desired & Hin & current & Hi & Hid & Hv & (_ & Hn & Hs) & _).
    exists current. split_and!; [done..| |done]. rewrite Hn.
    assert (Name (specAnnotations desired) ∈
      map (λ spec, Name (specAnnotations spec)) (convertedServices (converted p))) as Hin'
      by (apply list_elem_of_fmap; eauto).
    rewrite Hnames in Hin'. by apply list_elem_of_singleton in Hin'.
  - intros id (name & entry & ->%list_elem_of_singleton & He & Hid & _)%Ha. exists entry.
    split; [by apply lookup_union_Some_l|done].
Qed.

(** The wait of a deployment of one service. *)
Lemma waitForService_run p :
  convertedServices (converted p) ≠ [] →
  let '(err, p') := waitForService request p in
  let '(result, _, w) := WaitFor (serviceWaitRequest request p) (world (applier p)) in
  verification p' = {| Known := true; Deployments.UnresolvedServices := ResultUnresolved result;
                       Generations := ∅ |} ∧
  calls (applier p') = calls (applier p) ∧ updateGenerations p' = updateGenerations p ∧
  serviceWaitRequest request p' = serviceWaitRequest request p.
Proof.
  intros Hne. unfold waitForService. destruct (convertedServices (converted p)); [done|].
  unfold wait. destruct (WaitFor _ _) as [[result e] w].
  destruct e as [e|]; simpl; [|by split_and!]. by destruct (withConvergenceTaskLogs _ _ _).
Qed.

(** Remediating one service touches only that service: every write of the run
    goes to a service that was inspected at that version, with its name and the
    label of the stack. When Docker may have accepted one, the service has its
    entry among the update generations, and the verification is unknown or it is
    what the waiter, asked about the service with that entry, reports. *)
Theorem remediation_touches_one_service (a : ApplierState W) (Hname : srvServiceName request ≠ "") :
  let '(err, p) := DeployService request a in
  ∃ l, calls (applier p) = calls a ++ l ∧
    (∀ l1 id version sent answer l2, l = l1 ++ Updated id version sent answer :: l2 →
       ∃ current, Inspected current ∈ l1 ∧ svcID current = id ∧ svcVersion current = version ∧
         Name (specAnnotations (Spec current)) =
           srvStackName request +:+ "_" +:+ srvServiceName request ∧
         map_index (Labels (specAnnotations (Spec current))) StackNamespace = srvStackName request) ∧
    ∀ id, mayHaveAccepted l id → ∃ entry,
      updateGenerations p !! srvServiceName request = Some entry ∧ ServiceID entry = id ∧
      (Known (verification p) = false ∨
       ∃ w, srvServiceName request ∈ ServiceNames (serviceWaitRequest request p) ∧
         UpdateGenerations (serviceWaitRequest request p) !! srvServiceName request = Some entry ∧
         Deployments.UnresolvedServices (verification p) =
           ResultUnresolved (WaitFor (serviceWaitRequest request p) w).1.1).
Proof.
  rewrite DeployService_steps.
  pose proof (servicePreparation_untouched (servicePayload a)) as Hu.
  pose proof (servicePreparation_converted a) as Hconv.
  assert (∀ id, ¬ mayHaveAccepted [] id) as Hnone.
  { intros id (v & s & ans & Hin & _). by apply not_elem_of_nil in Hin. }
  destruct (runPipeline servicePreparation _) as [[[step e]|] p1]; simpl in Hu.
  { exists []. rewrite app_nil_r. split_and!; [apply Hu|by intros []|]. by intros id ?%Hnone. }
  destruct (Hconv p1 eq_refl) as (single & w0 & Hsingle & Hw0). destruct Hu as (Hcalls & _ & _ & Hver & _).
  rewrite SingleServiceCompose_projection in Hsingle. destruct (find _ _) as [s|] eqn:Hf; [|done].
  injection Hsingle as <-. apply find_some in Hf as [_ Hs%bool_decide_eq_true].
  pose proof (converted_names _ _ _ _ Hw0) as Hnames. simpl in Hnames.
  symmetry in Hnames. apply Permutation_length_1_inv in Hnames. rewrite Hs in Hnames.
  assert (let '(err, p') := if VerifyOnly request then (None, p1) else applyService request p1 in
    converted p' = converted p1 ∧ verification p' = noVerification ∧
    ∃ l, calls (applier p') = calls (applier p1) ++ l ∧ writesService l ∧
      ∀ id, acceptedIn l id → ∃ entry,
        updateGenerations p' !! serviceName = Some entry ∧ ServiceID entry = id) as Happly.
  { destruct (VerifyOnly request).
    - split_and!; [done..|]. exists []. rewrite app_nil_r. split_and!; [done|by intros []|].
      intros id (v & s' & ans & Hin & _). by apply not_elem_of_nil in Hin.
    - pose proof (applyService_tracks p1 Hnames Hname) as Htr.
      destruct (applyService request p1) as [err p']. by rewrite Hver in Htr. }
  destruct (if VerifyOnly request then _ else _) as [[e|] p2];
    destruct Happly as (Hc2 & Hv2 & l & Hl & Hw & Hacc).
  { exists l. rewrite Hl. split_and!; [by rewrite Hcalls|exact Hw|].
    intros id Hid%mayHaveAccepted_accepted. destruct (Hacc id Hid) as (entry & ? & ?).
    exists entry. split_and!; [done..|]. left. by rewrite Hv2. }
  pose proof (waitForService_run p2) as Hwait. rewrite Hc2 in Hwait.
  destruct (convertedServices (converted p1)) as [|spec specs] eqn:Hspecs; [done|].
  specialize (Hwait ltac:(done)).
  destruct (waitForService request p2) as [err p3]. cbv beta iota.
  destruct (WaitFor _ _) as [[result e] w] eqn:Hwf.
  destruct Hwait as (Hv & Hcalls3 & Hg & Hr). exists l. rewrite Hcalls3, Hl.
  split_and!; [by rewrite Hcalls|exact Hw|].
  intros id Hid%mayHaveAccepted_accepted. destruct (Hacc id Hid) as (entry & He & ?).
  exists entry. rewrite Hg. split_and!; [done..|]. right. exists (world (applier p2)).
  rewrite Hr, Hwf, Hv. split_and!; [|done|done].
  unfold serviceWaitRequest, convertedServiceNames. cbn [ServiceNames]. fold stackName.
  rewrite Hc2, Hspecs, <- (map_map (λ spec, Name (specAnnotations spec)) (trim_prefix (stackName +:+ "_"))), Hnames.
  simpl. rewrite <- string_app_assoc, trim_prefix_app. by left.
Qed.
End ServiceSafety.

(** ** A deployment on a concrete cluster *)
Module DeployerExample.
Import SpecsExample.
#[local] Existing Instances sdk ApplierExample.constraints.

(** Whether the write was accepted, and the ticks left until the deadline. *)
Record Cluster := { written : bool; ticks : nat }.

Definition serving (c : Cluster) : ServiceSpec :=
  spec "app_api" (if written c then "api:2" else "api:1") true 1.

Definition dockerService (c : Cluster) : DockerService :=
  {| svcID := "api-id"; svcVersion := 4; svcCreatedAt := 1; svcUpdatedAt := 2; Spec := serving c;
     svcPreviousSpec := None; svcUpdateStatus := None; svcJobStatus := None |}.

Definition stackService (c : Cluster) : StackService :=
  {| CompletedTasks := 0; JobStatus := None; serviceID := "api-id"; serviceName := "api";
     serviceMode := "replicated"; serviceReplicas := Some 1%N; DesiredTasks := 1; CreatedAt := 1;
     UpdatedAt := if written c then 6%Z else 2%Z;
     serviceUpdateStatus :=
       if written c then Some {| updateState := ServiceUpdateStateCompleted; updateStartedAt := 5;
                                 updateCompletedAt := 6; updateMessage := "" |} else None;
     liveSpec := serving c;
     PreviousSpec := if written c then Some (spec "app_api" "api:1" true 1) else None |}.

Definition runningTask : ServiceTask :=
  {| taskID := "t1"; taskNode := "n1"; NodeInfo := None; Slot := 1; JobIteration := None;
     DesiredState := TaskStateRunning; taskCreatedAt := 7; taskUpdatedAt := 7;
     CurrentState := TaskStateRunning; ExitCode := None; taskError := "";
     taskSpec := NewTaskSpec (template "api:2") |}.

#[local] Instance docker : ServiceManager Cluster :=
  {| Inspect := λ _ c, (Ok (dockerService c), c); Create := λ _ _ c, (Ok "new-id", c);
     Update := λ _ _ _ _ c, (None, {| written := true; ticks := ticks c |});
     ServiceTasks := λ _ c, (Ok [], c); Backoff := λ _ c, (None, c);
     ResolveImage := λ _ c, (Ok "", c); anonymousAuth := Ok "e30="; BeforeUpdate := None;
     sha256 := λ s, s |}.

Definition tick (c : Cluster) : option string * Cluster :=
  match ticks c with
  | O => (Some "context deadline exceeded", c)
  | S n => (None, {| written := written c; ticks := n |})
  end.

#[local] Instance environment : WaitEnvironment Cluster :=
  {| ListServices := λ _ c, (Ok [stackService c], c); ListTasks := λ _ c, (Ok [runningTask], c);
     ListNodes := λ c, (Ok [], c); ctxErr := λ _, None; selectNext := tick |}.

Definition waitFor (request : ServiceWaitRequest) (c : Cluster)
    : ServiceWaitResult * option waitError * Cluster :=
  match Wait (λ t, t) (S (ticks c)) request c with
  | Some (result, err, _, c) => (result, err, c)
  | None => ({| SpecificationOnlyServices := []; FailedTasks := []; ResultUnresolved := [] |}, None, c)
  end.

Definition convertTo (image : string) (stackName : string) (c : Compose) : StackSpec :=
  {| convertedNetworks := [];
     convertedServices := map (λ s, spec (stackName +:+ "_" +:+ composeName s) image true 1) (Services c) |}.

#[local] Instance components : DeployComponents Cluster :=
  {| Validate := λ _ _, None; planNetworks := λ _ _, [];
     Convert := λ n c w, (Ok (convertTo "api:2" n c), w);
     ReconcileNetworks := λ _ _ w, (None, w); ResolveSecrets := λ _ _ m, Ok m;
     ReconcileObjects := λ _ _ _ _ w, (Ok noResources, w);
     RunInitJob := λ job w,
       ({| resultService := initService job; resultJob := jobName (Job job); resultStartedAt := 1 |},
        (if bool_decide (jobName (Job job) = "migrate") then None else Some "exit code 1"), w);
     Snapshot := λ _ w, (Ok [stackService w], w); WaitFor := waitFor;
     withConvergenceTaskLogs := λ _ e w, (e, w) |}.

#[local] Instance converterContract : ConverterContract Cluster.
Proof. split. intros n d w c [= <-]. simpl. by rewrite map_map. Defined.

#[local] Instance waiterContract : WaiterContract (λ t, t) Cluster.
Proof.
  split. intros r w. destruct (Wait_total (λ t, t) ticks) with (fuel := S (ticks w)) (request := r) (w := w)
    as [[[[result e] s] w'] Hw]; [|done..|lia|].
  - intros c c' Hc. unfold selectNext, environment, tick in Hc. destruct (ticks c) eqn:Ht; [done|].
    injection Hc as <-. simpl. lia.
  - exists (S (ticks w)), s. simpl. unfold waitFor. by rewrite Hw.
Defined.

#[local] Existing Instances Ordered.gopipe Ordered.gopipeLaws.

Definition service (jobs : list InitJob) : ComposeService :=
  {| composeName := "api"; serviceNetworks := []; InitJobs := jobs; serviceSecrets := [];
     serviceConfigs := []; credentialConfig := None; serviceVolumes := [] |}.
Definition compose (jobs : list InitJob) : Compose :=
  {| Services := [service jobs]; Networks := ∅; Secrets := ∅; Configs := ∅; Volumes := ∅ |}.

Definition request (jobs : list InitJob) : StackRequest Cluster :=
  {| reqStackName := "app"; reqSourcePath := "app.yaml"; reqDesired := compose jobs;
     retryFailedUpdates := false; unresolvedServices := []; reqGenerations := ∅;
     beforeUpdate := None |}.

Definition start : ApplierState Cluster :=
  {| world := {| written := false; ticks := 2 |}; auth := ∅; generations := ∅; calls := [] |}.

Definition job (name : string) : InitJob := {| jobName := name; jobImage := "job"; jobNetworks := [] |}.

Lemma wellNamed_compose jobs : wellNamed (compose jobs).
Proof. split; [apply NoDup_singleton|by intros ?%list_elem_of_singleton]. Qed.


(** The first init job runs, the second one fails: nothing was applied. *)
Lemma early_failure_touches_nothing_witness :
  let run := DeployStack (request [job "migrate"; job "seed"]) start in
  FailedStep run.1 = "run init jobs" ∧ length (initJobs run.2) = 2%nat ∧
  calls (applier run.2) = [] ∧ Known (verification run.2) = true.
Proof.
  intros run. split; [by vm_compute|]. split; [by vm_compute|].
  assert (run = (Some ("run init jobs", CauseText "service api init job seed: exit code 1"), run.2))
    as Hrun by (by vm_compute).
  pose proof (early_failure_touches_nothing _ _ _ _ _ Hrun ltac:(by split))
    as (Hc & _ & _ & _ & _ & Hv).
  split; [exact Hc|by rewrite Hv].
Defined.

Lemma accepted_writes_are_accounted_witness :
  let p := (DeployStack (request []) start).2 in
  ∃ name entry, name ∈ ["api"] ∧ updateGenerations p !! name = Some entry ∧ ServiceID entry = "api-id".
Proof.
  intros p. pose proof (accepted_writes_are_accounted (request []) start (wellNamed_compose _)) as H.
  assert (DeployStack (request []) start = (None, p)) as Hrun by (by vm_compute).
  assert (Updated "api-id" 4 (spec "app_api" "api:2" true 1) None ∈ calls (applier p)) as Hin
    by (apply list_elem_of_In; vm_compute; by auto).
  rewrite Hrun in H. clear Hrun. clearbody p. destruct H as (l & Hl & Ha). rewrite Hl in Hin.
  destruct (Ha "api-id") as (name & entry & ? & ? & ? & _); [|by exists name, entry].
  exists 4%N, (spec "app_api" "api:2" true 1), None. by split.
Defined.

Definition serviceRequest (verify : bool) : ServiceRequest :=
  {| VerifyOnly := verify; srvStackName := "app"; srvSourcePath := "app.yaml";
     srvServiceName := "api"; srvDesired := compose [] |}.

(** A waiter that sees no service converge. *)
Definition observing : DeployComponents Cluster :=
  {| Validate := Validate; planNetworks := planNetworks; Convert := Convert;
     ReconcileNetworks := ReconcileNetworks; ResolveSecrets := ResolveSecrets;
     ReconcileObjects := ReconcileObjects; RunInitJob := RunInitJob; Snapshot := Snapshot;
     WaitFor := λ r w,
       ({| SpecificationOnlyServices := []; FailedTasks := []; ResultUnresolved := ServiceNames r |},
        Some {| isConvergenceFailed := true; isTransient := false; errorText := "not converged" |}, w);
     withConvergenceTaskLogs := λ _ e w, (e, w) |}.

(** The service still has the old image: the run reports it and writes nothing. *)
Lemma verification_is_read_only_witness :
  let run := DeployService (H1 := observing) (serviceRequest true) start in
  FailedStep run.1 = "wait for service convergence" ∧
  Deployments.UnresolvedServices (verification run.2) = ["api"] ∧
  world (applier run.2) = world start ∧ calls (applier run.2) = [].
Proof.
  intros run. split; [by vm_compute|]. split; [by vm_compute|].
  pose proof (verification_is_read_only (H1 := observing) (serviceRequest true) eq
    (λ _ _ _, eq_refl) (λ _ _, eq_refl) (λ _ _, eq_refl) (λ _ _ _, eq_refl) eq_refl start) as Hrun.
  change (DeployService (H1 := observing) (serviceRequest true) start) with run in Hrun.
  destruct run as [err p]. destruct Hrun as (Hw & Hc & _). by split.
Defined.

Lemma remediation_touches_one_service_witness :
  let p := (DeployService (serviceRequest false) start).2 in
  Known (verification p) = true ∧
  ∃ entry, updateGenerations p !! "api" = Some entry ∧ ServiceID entry = "api-id".
Proof.
  intros p. split; [by vm_compute|].
  pose proof (remediation_touches_one_service (serviceRequest false) start ltac:(done)) as H.
  assert (DeployService (serviceRequest false) start = (None, p)) as Hrun by (by vm_compute).
  assert (Updated "api-id" 4 (spec "app_api" "api:2" true 1) None ∈ calls (applier p)) as Hin
    by (apply list_elem_of_In; vm_compute; by auto).
  rewrite Hrun in H. clear Hrun. clearbody p. destruct H as (l & Hl & _ & Ha). rewrite Hl in Hin.
  destruct (Ha "api-id") as (entry & ? & ? & _); [|by exists entry].
  exists 4%N, (spec "app_api" "api:2" true 1), None. by split.
Defined.
End DeployerExample.
