(* ===== verification/Alerts.v ===== *)
(** * Alert management: data and store ([alertmanagement/model],
      [alertmanagement/modelstore], [storage/projection.go])

    Alerts, their rows, and the SQLite store: the open-fingerprint index, the
    failure streaks, the retention of resolved alerts and the projection versions
    that order the source events. *)
From S2P Require Import Prelude GoStrings Deployments.
Local Open Scope go_scope.

(** ** Data *)
Inductive AlertKind :=
| AlertKindSyncFailed | AlertKindNodeDisconnected | AlertKindGitRepositoryUnavailable
| AlertKindServiceDrift.
Inductive ResourceType :=
| ResourceTypeStack | ResourceTypeNode | ResourceTypeRepository | ResourceTypeService.
Inductive AlertStatus := AlertStatusOpen | AlertStatusResolved.
Inductive ResolutionReason := ResolutionReasonRecovered | ResolutionReasonResourceRemoved.
#[export] Instance AlertKind_eq_dec : EqDecision AlertKind.
Proof. solve_decision. Defined.
#[export] Instance ResourceType_eq_dec : EqDecision ResourceType.
Proof. solve_decision. Defined.
#[export] Instance AlertStatus_eq_dec : EqDecision AlertStatus.
Proof. solve_decision. Defined.
#[export] Instance ResolutionReason_eq_dec : EqDecision ResolutionReason.
Proof. solve_decision. Defined.

Definition kindText (k : AlertKind) : string :=
  match k with
  | AlertKindSyncFailed => "sync_failed"
  | AlertKindNodeDisconnected => "node_disconnected"
  | AlertKindGitRepositoryUnavailable => "git_repository_unavailable"
  | AlertKindServiceDrift => "service_drift"
  end.
Definition resourceText (t : ResourceType) : string :=
  match t with
  | ResourceTypeStack => "stack"
  | ResourceTypeNode => "node"
  | ResourceTypeRepository => "repository"
  | ResourceTypeService => "service"
  end.

Record AlertResolution := {
  resolutionReason : ResolutionReason; resolutionMessage : string; resolutionEventID : string;
}.

(** [model.Alert] *)
Record Alert := {
  alertID : string; Fingerprint : string; Kind : AlertKind; resourceType : ResourceType;
  ResourceID : string; alertStatus : AlertStatus; Title : string; Message : string;
  FailureStage : string; ErrorCode : string; DeploymentID : string; alertCommit : string;
  Occurrences : N; OpenedAt : Time; UpdatedAt : Time; OpenEventID : string; LatestEventID : string;
  ResolvedAt : option Time; Resolution : option AlertResolution;
}.

(** ** Fingerprints *)
Definition fingerprintOf (k : AlertKind) (t : ResourceType) (resource : string) : string :=
  kindText k +:+ ":" +:+ resourceText t +:+ ":" +:+ resource.
Definition SyncFailedFingerprint (stackID : string) : string :=
  fingerprintOf AlertKindSyncFailed ResourceTypeStack stackID.
Definition GitRepositoryUnavailableFingerprint (repository : string) : string :=
  fingerprintOf AlertKindGitRepositoryUnavailable ResourceTypeRepository repository.
Definition ServiceDriftFingerprint (stackName serviceName : string) : string :=
  fingerprintOf AlertKindServiceDrift ResourceTypeService (stackName +:+ "/" +:+ serviceName).
Definition NodeDisconnectedFingerprint (nodeID : string) : string :=
  fingerprintOf AlertKindNodeDisconnected ResourceTypeNode nodeID.

(** ** Rows *)
Record alertPayload := {
  payloadTitle : string; payloadMessage : string; payloadFailureStage : string;
  payloadErrorCode : string; payloadCommit : string; payloadOccurrences : N;
  payloadOpenEventID : string; payloadLatestEventID : string;
  payloadResolution : option AlertResolution;
}.

Definition payloadFromAlert (a : Alert) : alertPayload :=
  {| payloadTitle := Title a; payloadMessage := Message a; payloadFailureStage := FailureStage a;
     payloadErrorCode := ErrorCode a; payloadCommit := alertCommit a;
     payloadOccurrences := Occurrences a; payloadOpenEventID := OpenEventID a;
     payloadLatestEventID := LatestEventID a; payloadResolution := Resolution a |}.

(** A nullable column is an option. *)
Record alertRow := {
  rowID : string; rowFingerprint : string; rowKind : AlertKind; rowResourceType : ResourceType;
  rowResourceID : string; rowDeploymentID : option string; rowStatus : AlertStatus;
  rowOpenedAt : Time; rowUpdatedAt : Time; rowResolvedAt : option Time; rowPayload : alertPayload;
}.

Definition toAlert (r : alertRow) : Alert :=
  let p := rowPayload r in
  {| alertID := rowID r; Fingerprint := rowFingerprint r; Kind := rowKind r;
     resourceType := rowResourceType r; ResourceID := rowResourceID r; alertStatus := rowStatus r;
     Title := payloadTitle p; Message := payloadMessage p; FailureStage := payloadFailureStage p;
     ErrorCode := payloadErrorCode p; DeploymentID := default "" (rowDeploymentID r);
     alertCommit := payloadCommit p; Occurrences := payloadOccurrences p;
     OpenedAt := rowOpenedAt r; UpdatedAt := rowUpdatedAt r; OpenEventID := payloadOpenEventID p;
     LatestEventID := payloadLatestEventID p; ResolvedAt := rowResolvedAt r;
     Resolution := payloadResolution p |}.

(** ** The database *)

(** The notification of a transition ([events.AlertOpened], [events.AlertResolved]). *)
Record AlertSnapshot := {
  snapshotID : string; snapshotKind : AlertKind; snapshotTitle : string; snapshotMessage : string;
  snapshotResourceType : ResourceType; snapshotResourceID : string; snapshotDeploymentID : string;
  snapshotErrorCode : string; snapshotOccurrences : N; snapshotDuration : string;
  snapshotOpenedAt : Time; snapshotResolvedAt : option Time;
  snapshotResolution : option (ResolutionReason * string);
}.
Record AlertRecipient := { BotIdentity : string; ChatID : string; ThreadID : Z }.
Inductive AlertTransition :=
| AlertOpened (alert : AlertSnapshot) (recipients : list AlertRecipient)
| AlertResolved (alert : AlertSnapshot) (recipients : list AlertRecipient).

(** The tables, the transitions published, the identifiers issued and the number
    of statements executed. [versions] is the part of [projection_versions] of this
    projection: the time and the identifier of the last event of a resource. *)
Record AlertDB := {
  alerts : gmap string alertRow; streaks : gmap string N; versions : gmap string (Time * string);
  transitions : list AlertTransition; issued : nat; statements : nat;
}.

Inductive alertError :=
| ErrAlertNotFound
| ErrAlertOpenedAtChanged
| ErrOpenAlertExists
| AlertFault (text : string)
| AlertWrapped (text : string) (cause : alertError).

(** [errors.Is] *)
Fixpoint rootCause (e : alertError) : alertError :=
  match e with AlertWrapped _ cause => rootCause cause | _ => e end.

(** What the code does not define: the JSON of a payload, the identifiers of
    new alerts, the routes of notifications, the text of a duration, the
    masking of diagnostics, and which statements the database fails. *)
Class AlertEnvironment := {
  (** [json.Unmarshal] of [json.Marshal]: invalid UTF-8 in a text is replaced. *)
  json : alertPayload → alertPayload;
  newUUID : nat → string;
  recipientsOf : AlertKind → list AlertRecipient;
  durationText : Duration → string;
  maskText : string → string;
  statementFault : nat → option string;
}.

(** The replacement of invalid texts keeps which fields there are. *)
Class AlertEnvironmentLaws `{AlertEnvironment} := {
  json_resolution p : is_Some (payloadResolution (json p)) ↔ is_Some (payloadResolution p);
}.

Definition withAlerts (m : gmap string alertRow) (db : AlertDB) : AlertDB :=
  {| alerts := m; streaks := streaks db; versions := versions db; transitions := transitions db;
     issued := issued db; statements := statements db |}.
Definition withStreaks (m : gmap string N) (db : AlertDB) : AlertDB :=
  {| alerts := alerts db; streaks := m; versions := versions db; transitions := transitions db;
     issued := issued db; statements := statements db |}.
Definition withVersions (m : gmap string (Time * string)) (db : AlertDB) : AlertDB :=
  {| alerts := alerts db; streaks := streaks db; versions := m; transitions := transitions db;
     issued := issued db; statements := statements db |}.
Definition withTransition (t : AlertTransition) (db : AlertDB) : AlertDB :=
  {| alerts := alerts db; streaks := streaks db; versions := versions db;
     transitions := transitions db ++ [t]; issued := issued db; statements := statements db |}.

Notation Db := (St AlertDB alertError).

Section Store.
Context `{AlertEnvironment}.

(** One statement: it may fail. *)
Definition statement : Db () := λ db,
  let db' := {| alerts := alerts db; streaks := streaks db; versions := versions db;
                transitions := transitions db; issued := issued db;
                statements := S (statements db) |} in
  match statementFault (statements db) with
  | Some text => (Err (AlertFault text), db')
  | None => (Ok (), db')
  end.

(** The row an alert is written as. *)
Definition rowOf (a : Alert) : alertRow :=
  {| rowID := alertID a; rowFingerprint := Fingerprint a; rowKind := Kind a;
     rowResourceType := resourceType a; rowResourceID := ResourceID a;
     rowDeploymentID := if bool_decide (DeploymentID a = "") then None else Some (DeploymentID a);
     rowStatus := alertStatus a; rowOpenedAt := OpenedAt a; rowUpdatedAt := UpdatedAt a;
     rowResolvedAt := ResolvedAt a; rowPayload := json (payloadFromAlert a) |}.

Definition MaxStoredAlerts : nat := 100.

(** [alertResolvedAt]: the check of the timestamps. *)
Definition timestampsValid (a : Alert) : option alertError :=
  if is_zero (OpenedAt a) || is_zero (UpdatedAt a) then
    Some (AlertFault "alert timestamps are required")
  else match ResolvedAt a with
       | Some at_ => if is_zero at_ then Some (AlertFault "resolved alert timestamp is required") else None
       | None => None
       end.

(** The unique index [idx_alert_open_fingerprint]. *)
Definition conflicts (db : AlertDB) (row : alertRow) : bool :=
  existsb (λ kv : string * alertRow,
    bool_decide (kv.1 ≠ rowID row) && bool_decide (rowStatus kv.2 = AlertStatusOpen) &&
    bool_decide (rowFingerprint kv.2 = rowFingerprint row)) (map_to_list (alerts db)).

(** The constraints of the table on a row: a row with the identifier must not exist
    for an insert. *)
Definition constraintFault (db : AlertDB) (row : alertRow) (update : bool) : option alertError :=
  if bool_decide (rowResourceID row = "") then Some (AlertFault "CHECK constraint failed: resource_id <> ''")
  else if negb update && bool_decide (is_Some (alerts db !! rowID row))
  then Some (AlertFault "UNIQUE constraint failed: alerts.id")
  else if bool_decide (rowStatus row = AlertStatusOpen) && conflicts db row then Some ErrOpenAlertExists
  else None.

(** The rows that the statement touches. *)
Definition writtenRow (db : AlertDB) (row : alertRow) (update : bool) : option alertRow :=
  if update then
    match alerts db !! rowID row with
    | Some old => if bool_decide (rowOpenedAt old = rowOpenedAt row) then Some row else None
    | None => None
    end
  else Some row.

(** [alertWriteStatement] and its execution: the number of rows affected. *)
Definition execWrite (row : alertRow) (update : bool) : Db nat :=
  do! statement in
  λ db,
    match writtenRow db row update with
    | None => (Ok 0%nat, db)
    | Some row =>
        match constraintFault db row update with
        | Some e => (Err e, db)
        | None => (Ok 1%nat, withAlerts (<[rowID row := row]> (alerts db)) db)
        end
    end.

(** [alertWriteMiss] *)
Definition alertWriteMiss (id : string) (update : bool) : Db () :=
  if negb update then st_throw ErrAlertNotFound
  else
    do! statement in
    λ db, match alerts db !! id with
          | None => (Err ErrAlertNotFound, db)
          | Some _ => (Err ErrAlertOpenedAtChanged, db)
          end.

(** [ORDER BY resolved_at,id]: a null comes first. *)
Definition resolvedBefore (a b : alertRow) : bool :=
  match rowResolvedAt a, rowResolvedAt b with
  | None, Some _ => true
  | Some _, None => false
  | Some t, Some u => bool_decide (t < u)%Z || (bool_decide (t = u) && string_lt (rowID a) (rowID b))
  | None, None => string_lt (rowID a) (rowID b)
  end.

Definition resolvedRows (m : gmap string alertRow) : list alertRow :=
  stable_sort resolvedBefore
    (filter (λ r, rowStatus r = AlertStatusResolved) (map snd (map_to_list m))).

(** The deletion of the oldest resolved alerts beyond the limit. *)
Definition prunedRows (m : gmap string alertRow) : list alertRow :=
  take (size m - MaxStoredAlerts) (resolvedRows m).
Definition pruneRows (m : gmap string alertRow) : gmap string alertRow :=
  foldr (λ r m, delete (rowID r) m) m (prunedRows m).

Definition pruneResolved : Db () :=
  do! statement in st_modify (λ db, withAlerts (pruneRows (alerts db)) db).

(** [SQLStore.write] *)
Definition write (a : Alert) (update : bool) : Db () :=
  match timestampsValid a with
  | Some e => st_throw e
  | None =>
      within_transaction (
        let! count := execWrite (rowOf a) update in
        if bool_decide (count = 1%nat) then pruneResolved else alertWriteMiss (alertID a) update)
  end.
Definition Create (a : Alert) : Db () := write a false.
Definition Update (a : Alert) : Db () := write a true.

(** [SQLStore.Get] and [FindOpenByFingerprint] *)
Definition Get (id : string) : Db Alert :=
  do! statement in
  λ db, match alerts db !! id with
        | Some row => (Ok (toAlert row), db)
        | None => (Err ErrAlertNotFound, db)
        end.

Definition openRow (db : AlertDB) (fingerprint : string) : option alertRow :=
  find (λ r, bool_decide (rowFingerprint r = fingerprint) && bool_decide (rowStatus r = AlertStatusOpen))
    (map snd (map_to_list (alerts db))).

Definition FindOpenByFingerprint (fingerprint : string) : Db Alert :=
  do! statement in
  λ db, match openRow db fingerprint with
        | Some row => (Ok (toAlert row), db)
        | None => (Err ErrAlertNotFound, db)
        end.

(** [SQLStore.List] *)
Record ListFilter := {
  filterStatus : option AlertStatus; filterKind : option AlertKind;
  filterResourceType : option ResourceType; filterResourceID : string;
  filterDeploymentID : string; Limit : Z;
}.

Definition listed (f : ListFilter) (r : alertRow) : bool :=
  (match filterStatus f with Some s => bool_decide (rowStatus r = s) | None => true end) &&
  (match filterKind f with Some k => bool_decide (rowKind r = k) | None => true end) &&
  (match filterResourceType f with Some t => bool_decide (rowResourceType r = t) | None => true end) &&
  (bool_decide (filterResourceID f = "") || bool_decide (rowResourceID r = filterResourceID f)) &&
  (bool_decide (filterDeploymentID f = "") ||
   bool_decide (rowDeploymentID r = Some (filterDeploymentID f))).

Definition updatedBefore (a b : alertRow) : bool :=
  bool_decide (rowUpdatedAt b < rowUpdatedAt a)%Z ||
  (bool_decide (rowUpdatedAt a = rowUpdatedAt b) && string_lt (rowID a) (rowID b)).

Definition List (f : ListFilter) : Db (list Alert) :=
  do! statement in
  λ db,
    let rows := stable_sort updatedBefore
      (filter (λ r, listed f r = true) (map snd (map_to_list (alerts db)))) in
    (Ok (map toAlert (if bool_decide (0 < Limit f)%Z then take (Z.to_nat (Limit f)) rows else rows)), db).

(** ** Failure streaks *)
Definition IncrementFailureStreak (fingerprint : string) : Db N :=
  within_transaction (
    do! statement in
    do! st_modify (λ db, withStreaks
      (<[fingerprint := (default 0 (streaks db !! fingerprint) + 1)%N]> (streaks db)) db) in
    do! statement in
    λ db, match streaks db !! fingerprint with
          | Some failures => (Ok failures, db)
          | None => (Err (AlertFault "sql: no rows in result set"), db)
          end).

Definition ResetFailureStreak (fingerprint : string) : Db () :=
  do! statement in st_modify (λ db, withStreaks (delete fingerprint (streaks db)) db).

(** [LIKE 'sync_failed:stack:%']: an underscore matches any character, and the
    case of ASCII letters is ignored. *)
Fixpoint likePrefix (pattern s : string) : bool :=
  match pattern, s with
  | EmptyString, _ => true
  | String p pattern, String c s =>
      (bool_decide (p = Ascii.ascii_of_N 95) || bool_decide (lower_ascii p = lower_ascii c)) &&
      likePrefix pattern s
  | String _ _, EmptyString => false
  end.

Definition ResetFailureStreaksExcept (fingerprints : list string) : Db () :=
  do! statement in
  st_modify (λ db, withStreaks
    (filter (λ kv : string * N,
       likePrefix (SyncFailedFingerprint "") kv.1 = false ∨ kv.1 ∈ fingerprints) (streaks db)) db).

(** ** Source events in their order *)

(** [(at,id) > (occurred_at,source_event_id)] *)
Definition newer (v w : Time * string) : bool :=
  bool_decide (w.1 < v.1)%Z || (bool_decide (v.1 = w.1) && string_lt w.2 v.2).

(** [storage.AdvanceProjection] for a time that is not zero; the second statement
    runs when the insertion conflicts. *)
Definition AdvanceProjection (resource : string) (at_ : Time) (id : string) : Db bool :=
  if is_zero at_ then st_throw (AlertFault "projection occurrence time is required")
  else within_transaction (
    do! statement in
    λ db,
      match versions db !! resource with
      | None => (Ok true, withVersions (<[resource := (at_, id)]> (versions db)) db)
      | Some current =>
          (do! statement in
           λ db,
             if newer (at_, id) current
             then (Ok true, withVersions (<[resource := (at_, id)]> (versions db)) db)
             else (Ok false, db)) db
      end).

(** [SQLStore.ConsumeLatest] *)
Definition ConsumeLatest (id resource : string) (at_ : Time) (apply : Db ()) : Db () :=
  if bool_decide (id = "") || is_zero at_
  then st_throw (AlertFault "alert projection requires source event ID and timestamp")
  else within_transaction (
    let! accepted := AdvanceProjection resource at_ id in
    if accepted : bool then apply else st_ret ()).
End Store.
