(* ===== verification/AlertStore.v ===== *)
(** * What the alert store guarantees

    Writes keep the rows well formed and the open fingerprints unique, retention
    removes only the oldest resolved alerts, rows read back as they were written, and
    source events are accepted in their order. *)
From S2P Require Import Prelude GoStrings Deployments Alerts.
Local Open Scope go_scope.

(** ** Open alerts *)
Definition isOpenRow (fingerprint : string) (r : alertRow) : Prop :=
  rowStatus r = AlertStatusOpen ∧ rowFingerprint r = fingerprint.

(** Whether a fingerprint has an open alert. *)
Definition opens (db : AlertDB) (fingerprint : string) : bool :=
  bool_decide (is_Some (openRow db fingerprint)).

Lemma openRow_some db fingerprint r :
  openRow db fingerprint = Some r →
  ∃ id, alerts db !! id = Some r ∧ isOpenRow fingerprint r.
Proof.
  unfold openRow. intros Hf. apply find_some in Hf as [Hin Hb].
  apply list_elem_of_In, list_elem_of_fmap in Hin as ([id r'] & -> & Hin).
  apply elem_of_map_to_list in Hin. exists id. split; [done|].
  apply andb_true_iff in Hb as [H1%bool_decide_eq_true_1 H2%bool_decide_eq_true_1]. by split.
Qed.

Lemma opens_spec db fingerprint :
  opens db fingerprint = true ↔ ∃ id r, alerts db !! id = Some r ∧ isOpenRow fingerprint r.
Proof.
  unfold opens. rewrite bool_decide_eq_true. split.
  - intros [r Hr]. apply openRow_some in Hr as (id & ? & ?). by exists id, r.
  - intros (id & r & Hr & Hs & Hf). destruct (openRow db fingerprint) eqn:Hn; [by eexists|].
    unfold openRow in Hn. apply find_none with (x := r) in Hn.
    + rewrite !bool_decide_eq_true_2 in Hn by done. done.
    + apply list_elem_of_In, list_elem_of_fmap. exists (id, r). by rewrite elem_of_map_to_list.
Qed.

Lemma opens_ext db db' fingerprint :
  (∀ id r, isOpenRow fingerprint r → alerts db' !! id = Some r ↔ alerts db !! id = Some r) →
  opens db' fingerprint = opens db fingerprint.
Proof.
  intros Hext. apply eq_bool_prop_intro. rewrite !Is_true_true, !opens_spec.
  split; intros (id & r & Hr & Ho); exists id, r; (split; [by apply Hext|done]).
Qed.

Lemma opens_false db fingerprint id r :
  opens db fingerprint = false → alerts db !! id = Some r → ¬ isOpenRow fingerprint r.
Proof.
  intros Hf Hr Ho. assert (opens db fingerprint = true); [|congruence].
  apply opens_spec. by exists id, r.
Qed.

(** ** Well-formed rows *)
Definition kindOn (k : AlertKind) (t : ResourceType) : Prop :=
  match k, t with
  | AlertKindSyncFailed, ResourceTypeStack | AlertKindNodeDisconnected, ResourceTypeNode
  | AlertKindGitRepositoryUnavailable, ResourceTypeRepository
  | AlertKindServiceDrift, ResourceTypeService => True
  | _, _ => False
  end.

(** A row under its identifier: the fingerprint tells the resource, and a resolved
    alert, and no other, has an end and a resolution. *)
Record rowWellFormed (id : string) (r : alertRow) : Prop := {
  row_id : rowID r = id;
  row_fingerprint : rowFingerprint r = fingerprintOf (rowKind r) (rowResourceType r) (rowResourceID r);
  row_kind : kindOn (rowKind r) (rowResourceType r);
  row_resource : rowResourceID r ≠ "";
  row_times : rowOpenedAt r ≠ 0%Z ∧ rowUpdatedAt r ≠ 0%Z;
  row_end : rowStatus r = AlertStatusOpen ↔ rowResolvedAt r = None;
  row_resolution :
    rowStatus r = AlertStatusResolved ↔ is_Some (payloadResolution (rowPayload r));
}.

(** One open alert per fingerprint, and well-formed rows. *)
Record tablesOk (db : AlertDB) : Prop := {
  rows_well_formed : map_Forall rowWellFormed (alerts db);
  open_unique : ∀ fingerprint id id' r r',
    alerts db !! id = Some r → alerts db !! id' = Some r' →
    isOpenRow fingerprint r → isOpenRow fingerprint r' → id = id';
}.

Lemma openRow_unique db fingerprint id r :
  tablesOk db → alerts db !! id = Some r → isOpenRow fingerprint r →
  openRow db fingerprint = Some r.
Proof.
  intros Hok Hr Ho. assert (opens db fingerprint = true) as Hop.
  { apply opens_spec. by exists id, r. }
  unfold opens in Hop. apply bool_decide_eq_true_1 in Hop as [r' Hr'].
  rewrite Hr'. apply openRow_some in Hr' as (id' & Hr' & Ho').
  assert (id' = id) as -> by (by eapply (open_unique db Hok)). congruence.
Qed.

(** ** Retention *)
Section Retention.
Implicit Types (m : gmap string alertRow) (l : list alertRow).

Lemma delete_rows_lookup l m id :
  foldr (λ r m, delete (rowID r) m) m l !! id =
  if decide (id ∈ map rowID l) then None else m !! id.
Proof.
  induction l as [|r l IH]; cbn [foldr map]; [by rewrite decide_False by (by apply not_elem_of_nil)|].
  destruct (decide (rowID r = id)) as [<-|Hne].
  - rewrite lookup_delete_eq, decide_True by left. done.
  - rewrite lookup_delete_ne, IH by done. destruct (decide (id ∈ map rowID l)) as [Hin|Hno].
    + by rewrite decide_True by (by right).
    + rewrite decide_False; [done|]. by intros [?|?]%elem_of_cons.
Qed.

Lemma resolvedRows_in m r :
  r ∈ resolvedRows m ↔ rowStatus r = AlertStatusResolved ∧ ∃ id, m !! id = Some r.
Proof.
  unfold resolvedRows. rewrite (stable_sort_perm resolvedBefore), list_elem_of_filter, list_elem_of_fmap.
  split.
  - intros (Hs & [id r'] & -> & Hin). split; [done|]. exists id. by apply elem_of_map_to_list.
  - intros (Hs & id & Hr). split; [done|]. exists (id, r). by rewrite elem_of_map_to_list.
Qed.

Lemma take_in {A} (x : A) n (l : list A) : x ∈ take n l → x ∈ l.
Proof. intros Hin. rewrite <- (take_drop n l). apply elem_of_app. by left. Qed.

Lemma pruneRows_some m id r : pruneRows m !! id = Some r → m !! id = Some r.
Proof. unfold pruneRows. rewrite delete_rows_lookup. by destruct (decide _). Qed.

(** An open row stays. *)
Lemma pruneRows_open m id r :
  (∀ id r, m !! id = Some r → rowID r = id) →
  m !! id = Some r → rowStatus r = AlertStatusOpen → pruneRows m !! id = Some r.
Proof.
  intros Hids Hr Ho. unfold pruneRows. rewrite delete_rows_lookup, decide_False; [done|].
  intros (r' & Hid & Hin)%list_elem_of_fmap. apply take_in, resolvedRows_in in Hin as (Hs & id' & Hr').
  assert (id' = id) as -> by (rewrite <- (Hids _ _ Hr'); done). congruence.
Qed.
End Retention.

(** ** Writes *)
Section Writes.
Context `{AlertEnvironmentLaws}.

(** The parts of a state that a statement or an identifier leaves. *)
Definition sameTables (db db' : AlertDB) : Prop :=
  alerts db' = alerts db ∧ streaks db' = streaks db ∧ versions db' = versions db ∧
  transitions db' = transitions db.
#[export] Instance sameTables_preorder : PreOrder sameTables.
Proof. split; [done|]. unfold sameTables. intros ??? ??. intuition congruence. Qed.

Lemma statement_same db : sameTables db (statement db).2.
Proof. unfold statement. by case_match. Qed.

Lemma statement_ok db db' : statement db = (Ok (), db') → sameTables db db'.
Proof. intros Hs. pose proof (statement_same db) as Hd. by rewrite Hs in Hd. Qed.

Lemma tablesOk_same db db' : sameTables db db' → tablesOk db → tablesOk db'.
Proof. intros (Ha & _) [Hr Hu]. split; by rewrite Ha. Qed.
Lemma opens_same db db' fingerprint : sameTables db db' → opens db' fingerprint = opens db fingerprint.
Proof. intros (Ha & _). apply opens_ext. by rewrite Ha. Qed.
Lemma openRow_same db db' fingerprint :
  sameTables db db' → openRow db' fingerprint = openRow db fingerprint.
Proof. intros (Ha & _). unfold openRow. by rewrite Ha. Qed.

Lemma conflicts_false db row :
  conflicts db row = false →
  ∀ id r, alerts db !! id = Some r → id ≠ rowID row → ¬ isOpenRow (rowFingerprint row) r.
Proof.
  intros Hc id r Hr Hne [Ho Hf]. assert (conflicts db row = true); [|congruence].
  unfold conflicts. apply existsb_exists. exists (id, r). split.
  - apply list_elem_of_In. by rewrite elem_of_map_to_list.
  - simpl. by rewrite !bool_decide_eq_true_2.
Qed.

(** A write that succeeds. *)
Lemma write_ok a update db db' :
  write a update db = (Ok (), db') →
  timestampsValid a = None ∧ ResourceID a ≠ "" ∧
  (if update then ∃ old, alerts db !! alertID a = Some old ∧ rowOpenedAt old = OpenedAt a
   else alerts db !! alertID a = None) ∧
  (alertStatus a = AlertStatusOpen → conflicts db (rowOf a) = false) ∧
  alerts db' = pruneRows (<[alertID a := rowOf a]> (alerts db)) ∧
  streaks db' = streaks db ∧ versions db' = versions db ∧ transitions db' = transitions db.
Proof.
  unfold write. destruct (timestampsValid a) eqn:Ht; [done|]. intros Hw. st_inv.
  unfold execWrite in Hrun. st_inv. destruct a1. apply statement_ok in Hrun0 as (Ha & Hs & Hv & Htr).
  destruct (writtenRow s0 (rowOf a) update) as [row|] eqn:Hrow.
  2: { simplify_eq. rewrite bool_decide_eq_false_2 in Hw by done. unfold alertWriteMiss in Hw.
       destruct update; simpl in Hw; [|done]. st_inv. by case_match. }
  destruct (constraintFault s0 row update) eqn:Hc; [done|]. simplify_eq.
  rewrite bool_decide_eq_true_2 in Hw by done. unfold pruneResolved in Hw. st_inv. destruct a0.
  apply statement_ok in Hrun as (Ha' & Hs' & Hv' & Htr'). simpl in *.
  assert (row = rowOf a ∧ if update then ∃ old, alerts db !! alertID a = Some old ∧ rowOpenedAt old = OpenedAt a
    else True) as [-> Hold].
  { unfold writtenRow in Hrow. rewrite Ha in Hrow. destruct update; [|by simplify_eq].
    simpl in Hrow. destruct (alerts db !! alertID a) as [old|] eqn:Hold; [|done].
    destruct (bool_decide (rowOpenedAt old = OpenedAt a)) eqn:Ho; [|done]. simplify_eq.
    apply bool_decide_eq_true_1 in Ho. split; [done|]. by exists old. }
  unfold constraintFault in Hc. simpl in Hc.
  destruct (bool_decide (ResourceID a = "")) eqn:Hres; [done|]. apply bool_decide_eq_false_1 in Hres.
  destruct (negb update && bool_decide (is_Some (alerts s0 !! alertID a))) eqn:Hid; [done|].
  destruct (bool_decide (alertStatus a = AlertStatusOpen) && conflicts s0 (rowOf a)) eqn:Hconf; [done|].
  split_and!; try congruence.
  - destruct update; [done|]. simpl in Hid. apply bool_decide_eq_false_1 in Hid. rewrite Ha in Hid.
    by apply eq_None_not_Some.
  - intros Ho. rewrite bool_decide_eq_true_2 in Hconf by done. simpl in Hconf.
    unfold conflicts in *. by rewrite <- Ha.
  - by rewrite Ha', Ha.
Qed.

Lemma write_err a update db e db' : write a update db = (Err e, db') → db' = db.
Proof.
  unfold write. destruct (timestampsValid a); [by intros [= _ <-]|]. apply within_transaction_err.
Qed.

(** A well-formed alert: its row will be. *)
Record alertWellFormed (a : Alert) : Prop := {
  alert_fingerprint : Fingerprint a = fingerprintOf (Kind a) (resourceType a) (ResourceID a);
  alert_kind : kindOn (Kind a) (resourceType a);
  alert_end : alertStatus a = AlertStatusOpen ↔ ResolvedAt a = None;
  alert_resolution : alertStatus a = AlertStatusResolved ↔ is_Some (Resolution a);
}.

Lemma timestampsValid_none a :
  timestampsValid a = None → OpenedAt a ≠ 0%Z ∧ UpdatedAt a ≠ 0%Z.
Proof.
  unfold timestampsValid, is_zero. destruct (bool_decide (OpenedAt a = 0%Z)) eqn:H1; [done|].
  destruct (bool_decide (UpdatedAt a = 0%Z)) eqn:H2; [done|]. intros _.
  by apply bool_decide_eq_false_1 in H1, H2.
Qed.

Lemma rowOf_wellFormed a :
  alertWellFormed a → timestampsValid a = None → ResourceID a ≠ "" →
  rowWellFormed (alertID a) (rowOf a).
Proof.
  intros [Hf Hk He Hr] Ht Hres. split; simpl; [done..|by apply timestampsValid_none|done|].
  rewrite json_resolution. done.
Qed.

Lemma toAlert_wellFormed id r : rowWellFormed id r → alertWellFormed (toAlert r).
Proof. intros []. by split. Qed.

(** What a write does to the tables. *)
Lemma write_tables a update db db' :
  tablesOk db → alertWellFormed a →
  (update = true → ∃ old, alerts db !! alertID a = Some old ∧ isOpenRow (Fingerprint a) old) →
  write a update db = (Ok (), db') →
  tablesOk db' ∧
  (update = false → alertStatus a = AlertStatusOpen → opens db (Fingerprint a) = false) ∧
  (∀ fingerprint, opens db' fingerprint =
     if decide (fingerprint = Fingerprint a) then bool_decide (alertStatus a = AlertStatusOpen)
       || (negb update && opens db fingerprint)
     else opens db fingerprint).
Proof.
  intros Hok Hwf Hold Hw. apply write_ok in Hw as (Ht & Hres & Hid & Hconf & Ha & _).
  assert (∀ id r, <[alertID a := rowOf a]> (alerts db) !! id = Some r → rowWellFormed id r) as Hrows.
  { intros id r [[<- <-]|[_ Hr]]%lookup_insert_Some; [by apply rowOf_wellFormed|].
    by apply (rows_well_formed db Hok). }
  assert (∀ id r, rowStatus r = AlertStatusOpen →
    alerts db' !! id = Some r ↔ <[alertID a := rowOf a]> (alerts db) !! id = Some r) as Hopen.
  { intros id r Ho. rewrite Ha. split; [apply pruneRows_some|]. intros Hr.
    apply pruneRows_open; [|done|done]. intros id' r' Hr'. by apply (row_id _ _ (Hrows _ _ Hr')). }
  assert (∀ id r, alertStatus a = AlertStatusOpen → alerts db !! id = Some r → id ≠ alertID a →
    ¬ isOpenRow (Fingerprint a) r) as Hnew.
  { intros id r Ho Hr Hne. by eapply (conflicts_false db (rowOf a) (Hconf Ho)). }
  split_and!.
  - split.
    + intros id r Hr. rewrite Ha in Hr. apply Hrows. by apply pruneRows_some.
    + intros fingerprint id id' r r' Hr Hr' Ho Ho'.
      apply Hopen in Hr; [|apply Ho]. apply Hopen in Hr'; [|apply Ho'].
      apply lookup_insert_Some in Hr as [[<- <-]|[Hne Hr]];
        apply lookup_insert_Some in Hr' as [[<- <-]|[Hne' Hr']]; [done| | |].
      * exfalso. destruct Ho as [Ho <-]. by eapply (Hnew id' r').
      * exfalso. destruct Ho' as [Ho' <-]. by eapply (Hnew id r).
      * by eapply (open_unique db Hok).
  - intros -> Ho. destruct (opens db (Fingerprint a)) eqn:Hop; [|done].
    apply opens_spec in Hop as (id & r & Hr & Hop). exfalso. eapply (Hnew id r Ho Hr); [|done].
    intros ->. congruence.
  - intros fingerprint. destruct (decide (fingerprint = Fingerprint a)) as [->|Hne].
    + destruct (bool_decide (alertStatus a = AlertStatusOpen)) eqn:Hst; simpl.
      * apply bool_decide_eq_true_1 in Hst. apply opens_spec. exists (alertID a), (rowOf a).
        split; [|by split]. apply Hopen; [done|]. by rewrite lookup_insert_eq.
      * apply bool_decide_eq_false_1 in Hst. destruct update; simpl.
        -- destruct (opens db' (Fingerprint a)) eqn:Hop; [|done].
           apply opens_spec in Hop as (id & r & Hr & Hop). apply Hopen in Hr; [|apply Hop].
           apply lookup_insert_Some in Hr as [[<- <-]|[Hne Hr]]; [by destruct Hop|].
           destruct (Hold eq_refl) as (old & Hold' & Ho). exfalso. apply Hne.
           by eapply (open_unique db Hok).
        -- apply opens_ext. intros id r Ho. rewrite Hopen by apply Ho.
           rewrite lookup_insert_Some. split; [|intros Hr; right; split; [by intros <-; congruence|done]].
           intros [[<- <-]|[_ Hr]]; [by destruct Ho|done].
    + apply opens_ext. intros id r Ho. rewrite Hopen by apply Ho. rewrite lookup_insert_Some. split.
      * intros [[<- <-]|[_ Hr]]; [by destruct Ho|done].
      * intros Hr. destruct (decide (alertID a = id)) as [<-|Hneq]; [|by right]. exfalso.
        destruct update; [|congruence]. destruct (Hold eq_refl) as (old & Hold' & Ho').
        rewrite Hr in Hold'. simplify_eq. apply Hne. by destruct Ho as [_ <-], Ho' as [_ <-].
Qed.
End Writes.

(** ** Retention keeps the limit *)
Lemma resolvedBefore_asym r r' : resolvedBefore r r' = true → resolvedBefore r' r = false.
Proof.
  unfold resolvedBefore. destruct (rowResolvedAt r) as [t|], (rowResolvedAt r') as [u|]; try done.
  - intros [H%bool_decide_eq_true_1|[H%bool_decide_eq_true_1 Hs]%andb_true_iff]%orb_true_iff.
    + rewrite !bool_decide_eq_false_2 by lia. done.
    + subst. rewrite bool_decide_eq_false_2 by lia. by rewrite (string_lt_asym _ _ Hs), andb_false_r.
  - apply string_lt_asym.
Qed.

Lemma resolvedBefore_cotrans r r' r'' :
  resolvedBefore r r'' = true → resolvedBefore r r' = true ∨ resolvedBefore r' r'' = true.
Proof.
  unfold resolvedBefore.
  destruct (rowResolvedAt r) as [t|], (rowResolvedAt r') as [u|], (rowResolvedAt r'') as [v|];
    try done; try (by left); try (by right).
  - rewrite !orb_true_iff, !andb_true_iff, !bool_decide_eq_true. intros [H|[<- H]].
    + destruct (decide (t < u)%Z); [by left; left|]. right. left. lia.
    + destruct (decide (t = u)) as [<-|Hne].
      * destruct (string_lt_cotrans _ (rowID r') _ H); [left|right]; by right.
      * destruct (decide (t < u)%Z); [by left; left|]. right. left. lia.
  - apply string_lt_cotrans.
Qed.

(** The open alerts of a table. *)
Definition openCount (m : gmap string alertRow) : nat :=
  length (filter (λ r, rowStatus r = AlertStatusOpen) (map snd (map_to_list m))).

Lemma counts (m : gmap string alertRow) : size m = (openCount m + length (resolvedRows m))%nat.
Proof.
  unfold openCount, resolvedRows. rewrite (Permutation_length (stable_sort_perm _ _)).
  rewrite <- length_map_to_list. rewrite <- (length_fmap snd (map_to_list m)).
  change (snd <$> map_to_list m) with (map snd (map_to_list m)).
  induction (map snd (map_to_list m)) as [|r l IH]; [done|]. rewrite !filter_cons. simpl.
  destruct (rowStatus r); rewrite ?decide_True, ?decide_False by done; simpl; lia.
Qed.

Section RetentionLimit.
Implicit Types (m : gmap string alertRow).
Context m (Hids : ∀ id r, m !! id = Some r → rowID r = id).

Lemma resolvedRows_nodup : NoDup (map rowID (resolvedRows m)).
Proof.
  unfold resolvedRows. rewrite (stable_sort_perm _ _).
  assert (∀ l : list (string * alertRow), NoDup l.*1 → (∀ id r, (id, r) ∈ l → rowID r = id) →
    NoDup (map rowID (filter (λ r, rowStatus r = AlertStatusResolved) (map snd l)))) as Hl.
  { induction l as [|[id r] l IH]; intros Hnd Hin; [constructor|]. simpl in Hnd.
    apply NoDup_cons in Hnd as [Hn Hnd]. cbn [map]. rewrite filter_cons.
    assert (NoDup (map rowID (filter (λ r, rowStatus r = AlertStatusResolved) (map snd l)))) as Hr.
    { apply IH; [done|]. intros ???. apply Hin. by right. }
    destruct (decide _); [|done]. simpl. constructor; [|done].
    intros (r' & Hid & Hr')%list_elem_of_fmap. apply list_elem_of_filter in Hr' as [_ Hr'].
    apply list_elem_of_fmap in Hr' as ([id' r''] & -> & Hr').
    assert (rowID r = id) as Hid1 by (apply Hin; by left).
    assert (rowID r'' = id') as Hid2 by (apply Hin; by right).
    apply Hn. simpl in Hid. rewrite <- Hid1, Hid, Hid2. by apply (list_elem_of_fmap_2 fst _ (id', r'')). }
  apply Hl; [apply NoDup_fst_map_to_list|]. intros id r Hr%elem_of_map_to_list. by apply Hids.
Qed.

Lemma prunedRows_nodup : NoDup (map rowID (prunedRows m)).
Proof.
  unfold prunedRows. rewrite <- firstn_map. pose proof resolvedRows_nodup as Hnd.
  rewrite <- (take_drop (size m - MaxStoredAlerts) (map rowID (resolvedRows m))) in Hnd.
  by apply NoDup_app in Hnd as [? _].
Qed.

Lemma delete_rows_size l :
  NoDup (map rowID l) → (∀ r, r ∈ l → m !! rowID r = Some r) →
  (size (foldr (λ r m, delete (rowID r) m) m l) + length l = size m)%nat.
Proof.
  induction l as [|r l IH]; intros Hnd Hin; [simpl; lia|]. simpl in Hnd.
  apply NoDup_cons in Hnd as [Hr Hnd]. cbn [foldr length]. rewrite map_size_delete, delete_rows_lookup.
  rewrite decide_False by done. rewrite (Hin r ltac:(by left)).
  specialize (IH Hnd ltac:(intros; apply Hin; by right)).
  assert (size (foldr (λ r m, delete (rowID r) m) m l) ≠ 0)%nat; [|lia].
  apply map_size_non_empty_iff. intros Hempty.
  pose proof (delete_rows_lookup l m (rowID r)) as Hl. rewrite Hempty, decide_False, lookup_empty in Hl by done.
  rewrite (Hin r ltac:(by left)) in Hl. done.
Qed.

Lemma pruneRows_size : size (pruneRows m) = (size m - min (size m - MaxStoredAlerts) (length (resolvedRows m)))%nat.
Proof.
  pose proof (delete_rows_size (prunedRows m) prunedRows_nodup) as Hs.
  assert (∀ r, r ∈ prunedRows m → m !! rowID r = Some r) as Hin.
  { intros r Hr. apply take_in, resolvedRows_in in Hr as (_ & id & Hr). by rewrite (Hids _ _ Hr). }
  specialize (Hs Hin). unfold pruneRows. unfold prunedRows in Hs at 2. rewrite length_take in Hs. lia.
Qed.

(** A pruned row is resolved, and no remaining resolved row ended before it. *)
Lemma pruneRows_oldest id r r' id' :
  m !! id = Some r → pruneRows m !! id = None →
  pruneRows m !! id' = Some r' → rowStatus r' = AlertStatusResolved →
  rowStatus r = AlertStatusResolved ∧ resolvedBefore r' r = false.
Proof.
  intros Hr Hn Hr' Hs. unfold pruneRows in Hn, Hr'. rewrite delete_rows_lookup in Hn, Hr'.
  destruct (decide (id ∈ map rowID (prunedRows m))) as [Hin|]; [|congruence].
  destruct (decide (id' ∈ map rowID (prunedRows m))) as [|Hout]; [done|].
  apply list_elem_of_fmap in Hin as (r1 & -> & Hin).
  assert (r1 = r) as ->.
  { pose proof Hin as Hr1. apply take_in, resolvedRows_in in Hr1 as (_ & id1 & Hr1).
    rewrite <- (Hids _ _ Hr1) in Hr1. congruence. }
  assert (r' ∈ resolvedRows m) as Hres by (apply resolvedRows_in; split; [done|by exists id']).
  pose proof Hin as Hstat. apply take_in, resolvedRows_in in Hstat as [Hstat _]. split; [done|].
  assert (StronglySorted (λ a b, resolvedBefore b a = false) (resolvedRows m)) as Hsort.
  { apply stable_sort_sorted; [apply resolvedBefore_asym|apply resolvedBefore_cotrans]. }
  unfold prunedRows in Hin, Hout. set (n := (size m - MaxStoredAlerts)%nat) in *. clearbody n.
  rewrite <- (take_drop n (resolvedRows m)) in Hres, Hsort.
  apply elem_of_app in Hres as [Hres|Hres].
  { exfalso. apply Hout. rewrite <- (Hids _ _ Hr'). by apply (list_elem_of_fmap_2 rowID). }
  exact (StronglySorted_app_1_elem_of _ _ _ r r' Hsort Hin Hres).
Qed.
End RetentionLimit.

Section RetentionTheorem.
Context `{AlertEnvironmentLaws}.


(** A row reads back as the alert it was written from: when the texts survive
    JSON, converting an alert to its row and back is the identity, and
    a row that an alert was stored as is stored again unchanged. *)
Theorem alert_row_roundtrip a (Hjson : json (payloadFromAlert a) = payloadFromAlert a) :
  toAlert (rowOf a) = a ∧ rowOf (toAlert (rowOf a)) = rowOf a.
Proof.
  assert (toAlert (rowOf a) = a) as Heq; [|by rewrite Heq].
  destruct a. unfold toAlert, rowOf in *. simpl in *. rewrite Hjson. simpl.
  f_equal. by case_bool_decide.
Qed.

(** ** Reading *)
Lemma FindOpen_ok fingerprint db a db' :
  FindOpenByFingerprint fingerprint db = (Ok a, db') →
  sameTables db db' ∧ ∃ r, openRow db fingerprint = Some r ∧ a = toAlert r.
Proof.
  unfold FindOpenByFingerprint. intros Hf. st_inv. destruct a0. apply statement_ok in Hrun.
  destruct (openRow s fingerprint) as [r|] eqn:Ho; [|done]. simplify_eq. split; [done|].
  exists r. by rewrite <- (openRow_same _ _ _ Hrun).
Qed.

Lemma FindOpen_missing fingerprint db e db' :
  FindOpenByFingerprint fingerprint db = (Err e, db') → rootCause e = ErrAlertNotFound →
  sameTables db db' ∧ opens db fingerprint = false.
Proof.
  unfold FindOpenByFingerprint, st_bind. pose proof (statement_same db) as Hsame.
  unfold statement in *. destruct (statementFault _); intros ?; simplify_eq; [done|].
  simpl in Hsame. intros _. destruct (openRow _ fingerprint) as [r|] eqn:Ho; [done|]. simplify_eq.
  split; [done|]. rewrite <- (opens_same _ _ _ Hsame). unfold opens. by rewrite Ho.
Qed.

(** ** Source events *)
Lemma newer_irrefl v : newer v v = false.
Proof.
  unfold newer. rewrite bool_decide_eq_false_2 by lia. unfold string_lt.
  by rewrite (bool_decide_eq_false_2 (_ ∧ _)), andb_false_r by (by intros []).
Qed.

Lemma AdvanceProjection_ok resource at_ id db accepted db' :
  AdvanceProjection resource at_ id db = (Ok accepted, db') →
  let fresh := match versions db !! resource with Some v => newer (at_, id) v | None => true end in
  accepted = fresh ∧
  if accepted : bool then
    alerts db' = alerts db ∧ streaks db' = streaks db ∧ transitions db' = transitions db ∧
    versions db' = <[resource := (at_, id)]> (versions db)
  else sameTables db db'.
Proof.
  unfold AdvanceProjection. destruct (is_zero at_); [done|]. intros Ha. st_inv. destruct a.
  apply statement_ok in Hrun as (Hal & Hst & Hv & Htr). rewrite Hv in Ha.
  destruct (versions db !! resource) as [v|] eqn:Hver.
  - st_inv. destruct a. apply statement_ok in Hrun as (Hal' & Hst' & Hv' & Htr').
    destruct (newer (at_, id) v) eqn:Hn; simplify_eq; (split; [done|]); simpl.
    + by rewrite Hal', Hst', Htr', Hv', Hal, Hst, Htr, Hv.
    + by split_and!; congruence.
  - simplify_eq. simpl. by rewrite Hal, Hst, Htr.
Qed.

(** A source event is applied when it is the newest of its resource. *)
Lemma ConsumeLatest_ok id resource at_ apply db db' :
  ConsumeLatest id resource at_ apply db = (Ok (), db') →
  if match versions db !! resource with Some v => newer (at_, id) v | None => true end then
    ∃ db1, apply db1 = (Ok (), db') ∧ alerts db1 = alerts db ∧ streaks db1 = streaks db ∧
      transitions db1 = transitions db ∧ versions db1 = <[resource := (at_, id)]> (versions db)
  else sameTables db db'.
Proof.
  unfold ConsumeLatest. destruct (_ || _); [done|]. intros Hc. st_inv.
  apply AdvanceProjection_ok in Hrun as [<- Hdb]. destruct a; [by exists s|].
  unfold st_ret in Hc. by simplify_eq.
Qed.

Lemma ConsumeLatest_stale id resource at_ apply db v :
  versions db !! resource = Some v → newer (at_, id) v = false →
  sameTables db (ConsumeLatest id resource at_ apply db).2.
Proof.
  intros Hv Hn. unfold ConsumeLatest. destruct (_ || _); [done|].
  unfold within_transaction. destruct (st_bind _ _ db) as [[[]|e] db'] eqn:Hrun; [|done].
  st_inv. apply AdvanceProjection_ok in Hrun0 as [Ha Hdb]. rewrite Hv, Hn in Ha. subst a.
  unfold st_ret in Hrun. by simplify_eq.
Qed.
End RetentionTheorem.

(** ** An example *)
Module AlertExample.
#[export] Instance environment : AlertEnvironment := {
  json p := p; newUUID n := match n with O => "alert-0" | _ => "alert-n" end;
  recipientsOf _ := [{| BotIdentity := "bot"; ChatID := "1"; ThreadID := 0 |}];
  durationText _ := "1m"; maskText text := text; statementFault _ := None;
}.
#[export] Instance environment_laws : AlertEnvironmentLaws.
Proof. by split. Qed.

Definition noAlerts : AlertDB :=
  {| alerts := ∅; streaks := ∅; versions := ∅; transitions := []; issued := 0; statements := 0 |}.
Lemma noAlerts_ok : tablesOk noAlerts.
Proof.
  split; [apply map_Forall_empty|]. intros fingerprint id id' r r' Hr. simpl in Hr.
  by rewrite lookup_empty in Hr.
Qed.

Definition incident : Alert :=
  {| alertID := "alert-0"; Fingerprint := SyncFailedFingerprint "shop"; Kind := AlertKindSyncFailed;
     resourceType := ResourceTypeStack; ResourceID := "shop"; alertStatus := AlertStatusOpen;
     Title := "Synchronization failed"; Message := "exit status 1"; FailureStage := "apply";
     ErrorCode := "apply_failed"; DeploymentID := ""; alertCommit := "c1"; Occurrences := 1;
     OpenedAt := 7; UpdatedAt := 7; OpenEventID := "e1"; LatestEventID := "e1"; ResolvedAt := None;
     Resolution := None |}.
Lemma incident_wellFormed : alertWellFormed incident.
Proof. split; simpl; [done|done|done|]. split; [done|]. by intros []. Qed.

Lemma alert_row_roundtrip_witness : toAlert (rowOf incident) = incident.
Proof. exact (proj1 (alert_row_roundtrip incident eq_refl)). Defined.

End AlertExample.
