(* ===== verification/AlertSubscriber.v ===== *)
(** * The alert subscriber ([alertmanagement/subscriber.go], [node.go],
      [sqlite_subscriber.go])

    The handlers of the source events. Every event is handled once per resource in
    the order of its occurrence ([SQLSubscriber.Handle]); a handler opens, updates or
    resolves the alert of a fingerprint and publishes the transition. *)
From S2P Require Import Prelude GoStrings Deployments Alerts.
Local Open Scope go_scope.

(** The events that alerts are made from, with the fields the handlers read. *)
Inductive SourceEvent :=
| ConfigurationChanged (previousRepository : string)
| NodeDisconnected (nodeID : string)
| NodeConnected (nodeID : string)
| DeployFailed (deployment stack commit code stage : string) (error : option fault) (logs : list string)
| DeployPreparationFailed (stack commit code stage : string) (error : option fault)
| DeployInterrupted (deployment stack commit reason stage : string) (error : option fault)
| DeploySuccess (stack : string)
| GitPullFailed (repository category description : string)
| GitPullSucceeded (repository : string)
| ServiceMissed (stack service commit : string) (resolved : bool)
| ServiceDrifted (stack service commit reason : string) (resolved : bool)
| ServiceDriftFixed (stack service : string)
| ServiceRemovedFromDesired (stack service : string)
| OtherEvent.

Record Envelope := { envelopeID : string; OccurredAt : Time; envelopeEvent : SourceEvent }.

(** What a handler observes: the clock, and the desired stacks, whose provider may
    tell whether it is ready. *)
Record Surroundings := { clock : Time; Ready : option bool; desiredStacks : list string }.

Record failureDetails := {
  message : string; hasDiagnostic : bool; stage_ : string; code_ : string; deployment_ : string;
  commit_ : string;
}.

Definition temporaryFailureThreshold : N := 3.
Definition GitFailureNetwork : string := "network".

(** [alert.Occurrences++] on a [uint64]. *)
Definition increment (n : N) : N := ((n + 1) mod 18446744073709551616)%N.

Section Subscriber.
Context `{AlertEnvironment}.

Definition newID : Db string := λ db,
  (Ok (newUUID (issued db)),
   {| alerts := alerts db; streaks := streaks db; versions := versions db;
      transitions := transitions db; issued := S (issued db); statements := statements db |}).

Definition eventReferenceID (eventID : string) : Db string :=
  if bool_decide (eventID = "") then newID else st_ret eventID.

(** [duration.Round(time.Second)] of a duration that is not negative. *)
Definition roundSecond (d : Duration) : Duration :=
  let r := (d mod second)%Z in if (r + r <? second)%Z then (d - r)%Z else (d + second - r)%Z.

Definition alertSnapshot (a : Alert) : AlertSnapshot :=
  {| snapshotID := alertID a; snapshotKind := Kind a; snapshotTitle := Title a;
     snapshotMessage := Message a; snapshotResourceType := resourceType a;
     snapshotResourceID := ResourceID a; snapshotDeploymentID := DeploymentID a;
     snapshotErrorCode := ErrorCode a; snapshotOccurrences := Occurrences a;
     snapshotDuration :=
       match Kind a, ResolvedAt a with
       | AlertKindGitRepositoryUnavailable, Some at_ =>
           durationText (roundSecond (Z.max 0 (at_ - OpenedAt a)))
       | _, _ => ""
       end;
     snapshotOpenedAt := OpenedAt a; snapshotResolvedAt := ResolvedAt a;
     snapshotResolution :=
       (λ r, (resolutionReason r, resolutionMessage r)) <$> Resolution a |}.

(** The dispatcher stores the event in the open transaction: one statement. *)
Definition publish (t : AlertTransition) : Db () := do! statement in st_modify (withTransition t).
Definition publishOpened (a : Alert) : Db () :=
  publish (AlertOpened (alertSnapshot a) (recipientsOf (Kind a))).
Definition publishResolved (a : Alert) : Db () :=
  publish (AlertResolved (alertSnapshot a) (recipientsOf (Kind a))).

Definition wrapping {A} (text : string) (m : Db A) : Db A := λ db,
  match m db with (Ok a, db) => (Ok a, db) | (Err e, db) => (Err (AlertWrapped text e), db) end.

(** The open alert of a fingerprint, if any; another error is wrapped. *)
Definition findOpen (text fingerprint : string) : Db (option Alert) := λ db,
  match FindOpenByFingerprint fingerprint db with
  | (Ok a, db) => (Ok (Some a), db)
  | (Err e, db) =>
      match rootCause e with
      | ErrAlertNotFound => (Ok None, db)
      | _ => (Err (AlertWrapped text e), db)
      end
  end.

(** An alert that recovered, or whose resource was removed. *)
Definition resolved (a : Alert) (now : Time) (reason : ResolutionReason) (text eventID : string) : Alert :=
  {| alertID := alertID a; Fingerprint := Fingerprint a; Kind := Kind a; resourceType := resourceType a;
     ResourceID := ResourceID a; alertStatus := AlertStatusResolved; Title := Title a;
     Message := Message a; FailureStage := FailureStage a; ErrorCode := ErrorCode a;
     DeploymentID := DeploymentID a; alertCommit := alertCommit a; Occurrences := Occurrences a;
     OpenedAt := OpenedAt a; UpdatedAt := now; OpenEventID := OpenEventID a;
     LatestEventID := LatestEventID a; ResolvedAt := Some now;
     Resolution := Some {| resolutionReason := reason; resolutionMessage := text;
                           resolutionEventID := eventID |} |}.

(** Another failure of an open incident. *)
Definition repeated (a : Alert) (now : Time) (eventID title text stage code deployment commit : string)
    : Alert :=
  {| alertID := alertID a; Fingerprint := Fingerprint a; Kind := Kind a; resourceType := resourceType a;
     ResourceID := ResourceID a; alertStatus := alertStatus a; Title := title; Message := text;
     FailureStage := stage; ErrorCode := code; DeploymentID := deployment; alertCommit := commit;
     Occurrences := increment (Occurrences a); OpenedAt := OpenedAt a; UpdatedAt := now;
     OpenEventID := OpenEventID a; LatestEventID := eventID; ResolvedAt := ResolvedAt a;
     Resolution := Resolution a |}.

(** A new incident. *)
Definition opened (id : string) (k : AlertKind) (t : ResourceType) (resource : string) (now : Time)
    (eventID title text stage code deployment commit : string) (occurrences : N) : Alert :=
  {| alertID := id; Fingerprint := fingerprintOf k t resource; Kind := k; resourceType := t;
     ResourceID := resource; alertStatus := AlertStatusOpen; Title := title; Message := text;
     FailureStage := stage; ErrorCode := code; DeploymentID := deployment; alertCommit := commit;
     Occurrences := occurrences; OpenedAt := now; UpdatedAt := now; OpenEventID := eventID;
     LatestEventID := eventID; ResolvedAt := None; Resolution := None |}.

(** [updateConcurrentFailure] *)
Definition updateConcurrentFailure (now : Time) (eventID : string) (incoming : Alert)
    (useful : bool) (createErr : alertError) : Db () :=
  let! found := findOpen "refetch concurrent deployment alert" (Fingerprint incoming) in
  match found with
  | None => st_throw createErr
  | Some existing =>
      Update (repeated existing now eventID (Title incoming)
        (if useful || bool_decide (Message existing = "") then Message incoming else Message existing)
        (FailureStage incoming) (ErrorCode incoming) (DeploymentID incoming) (alertCommit incoming))
  end.

(** The creation of an alert, and its publication. *)
Definition openAlert (now : Time) (eventID : string) (a : Alert) (useful : bool) (text : string) : Db () := λ db,
  match Create a db with
  | (Ok _, db) => publishOpened a db
  | (Err e, db) =>
      match rootCause e with
      | ErrOpenAlertExists => updateConcurrentFailure now eventID a useful e db
      | _ => (Err (AlertWrapped text e), db)
      end
  end.

(** The resolution of the open alert of a fingerprint, and its publication. *)
Definition resolveOpen (now : Time) (eventID fingerprint findText updateText : string)
    (reason : ResolutionReason) (text : string) : Db () :=
  let! found := findOpen findText fingerprint in
  match found with
  | None => st_ret ()
  | Some a =>
      let! reference := eventReferenceID eventID in
      let a := resolved a now reason text reference in
      do! wrapping updateText (Update a) in publishResolved a
  end.

Definition handleServiceDrift (now : Time) (eventID stack service commit reason : string)
    (isResolved : bool) : Db () :=
  if isResolved then st_ret ()
  else
    let! eventID := eventReferenceID eventID in
    let! found := findOpen "find open service drift alert" (ServiceDriftFingerprint stack service) in
    match found with
    | Some a =>
        wrapping "update service drift alert"
          (Update (repeated a now eventID (Title a) reason (FailureStage a) (ErrorCode a)
                     (DeploymentID a) commit))
    | None =>
        let! id := newID in
        openAlert now eventID
          (opened id AlertKindServiceDrift ResourceTypeService (stack +:+ "/" +:+ service) now eventID
             "Service drift detected" reason "" "" "" commit 1) true "create service drift alert"
    end.

Definition handleServiceDriftFixed (now : Time) (eventID stack service : string) : Db () :=
  resolveOpen now eventID (ServiceDriftFingerprint stack service) "find open service drift alert"
    "resolve service drift alert" ResolutionReasonRecovered "Service drift resolved".

(** [resolveRemovedAlert] *)
Definition resolveRemovedAlert (a : Alert) (eventID : string) (now : Time) (text : string) : Db () :=
  let! reference := eventReferenceID eventID in
  let a := resolved a now ResolutionReasonResourceRemoved text reference in
  do! wrapping ("resolve alert for removed resource " +:+ quoted (ResourceID a)) (Update a) in
  wrapping ("publish resolved alert for removed resource " +:+ quoted (ResourceID a)) (publishResolved a).

Definition handleServiceRemovedFromDesired (now : Time) (eventID stack service : string) : Db () :=
  let! found := findOpen "find removed desired service alert" (ServiceDriftFingerprint stack service) in
  match found with
  | None => st_ret ()
  | Some a => resolveRemovedAlert a eventID now "Service removed from desired configuration"
  end.

Definition handleGitPullFailed (now : Time) (eventID repository category description : string) : Db () :=
  let fingerprint := GitRepositoryUnavailableFingerprint repository in
  let! failures := wrapping "increment Git repository failure streak"
                     (IncrementFailureStreak fingerprint) in
  let! eventID := eventReferenceID eventID in
  let! found := findOpen "find open Git repository alert" fingerprint in
  match found with
  | Some a =>
      wrapping "update Git repository alert"
        (Update (repeated a now eventID (Title a) description (FailureStage a) category
                   (DeploymentID a) (alertCommit a)))
  | None =>
      if bool_decide (category = GitFailureNetwork) && (failures <? temporaryFailureThreshold)%N
      then st_ret ()
      else
        let! id := newID in
        openAlert now eventID
          (opened id AlertKindGitRepositoryUnavailable ResourceTypeRepository repository now eventID
             "Git repository unavailable" description "git_pull" category "" "" failures) true
          "create Git repository alert"
  end.

Definition handleGitPullSucceeded (now : Time) (eventID repository : string) : Db () :=
  let fingerprint := GitRepositoryUnavailableFingerprint repository in
  do! wrapping "reset Git repository failure streak" (ResetFailureStreak fingerprint) in
  resolveOpen now eventID fingerprint "find open Git repository alert" "resolve Git repository alert"
    ResolutionReasonRecovered "Git repository access recovered".

Definition handleGitRepositoryChanged (now : Time) (eventID previous : string) : Db () :=
  let fingerprint := GitRepositoryUnavailableFingerprint previous in
  do! wrapping "reset removed Git repository failure streak" (ResetFailureStreak fingerprint) in
  resolveOpen now eventID fingerprint "find removed Git repository alert"
    "resolve removed Git repository alert" ResolutionReasonResourceRemoved
    "Git repository removed from configuration".

(** [strings.Cut(s, "/")] when the separator occurs. *)
Definition slash : Ascii.ascii := Ascii.ascii_of_N 47.
Definition beforeSlash (s : string) : option string :=
  (λ n, string_take n s) <$> index_byte slash s.

Definition alertStackName (a : Alert) : option string :=
  if bool_decide (resourceType a = ResourceTypeStack) then Some (ResourceID a)
  else if bool_decide (Kind a = AlertKindServiceDrift) && bool_decide (resourceType a = ResourceTypeService)
  then beforeSlash (ResourceID a)
  else None.

(** [slices.Contains] over the names of the desired stacks. *)
Definition isDesired (env : Surroundings) (stack : string) : bool := bool_decide (stack ∈ desiredStacks env).

Fixpoint resolveRemoved (env : Surroundings) (eventID : string) (found : list Alert) : Db () :=
  match found with
  | [] => st_ret ()
  | a :: found =>
      match alertStackName a with
      | Some stack =>
          if isDesired env stack then resolveRemoved env eventID found
          else
            do! resolveRemovedAlert a eventID (clock env)
                  (if bool_decide (Kind a = AlertKindServiceDrift)
                   then "Service removed with stack from desired configuration"
                   else "Stack removed from desired configuration") in
            resolveRemoved env eventID found
      | None => resolveRemoved env eventID found
      end
  end.

Definition openAlerts : ListFilter :=
  {| filterStatus := Some AlertStatusOpen; filterKind := None; filterResourceType := None;
     filterResourceID := ""; filterDeploymentID := ""; Limit := 0 |}.

Definition handleConfigurationChanged (env : Surroundings) (eventID : string) : Db () :=
  if bool_decide (Ready env = Some false)
  then st_throw (AlertFault "desired configuration has not completed its initial reload")
  else
    do! wrapping "reset deployment failure streaks for removed stacks"
          (ResetFailureStreaksExcept (map SyncFailedFingerprint (desiredStacks env))) in
    let! found := wrapping "list open alerts for configuration reconciliation" (List openAlerts) in
    resolveRemoved env eventID found.

Definition stackRemoved (env : Surroundings) (stack : string) : bool :=
  bool_decide (Ready env = Some true) && negb (isDesired env stack).

(** [handleFailed] *)
Definition handleFailed (env : Surroundings) (eventID stack title : string) (d : failureDetails)
    (temporary : bool) : Db () :=
  let fingerprint := SyncFailedFingerprint stack in
  if stackRemoved env stack then
    wrapping "reset deployment failure streak for removed stack" (ResetFailureStreak fingerprint)
  else
    let! failures := wrapping "increment deployment failure streak"
                       (IncrementFailureStreak fingerprint) in
    let! eventID := eventReferenceID eventID in
    let! found := findOpen "find open deployment alert" fingerprint in
    match found with
    | Some a =>
        wrapping "update deployment alert"
          (Update (repeated a (clock env) eventID title
                     (if hasDiagnostic d || bool_decide (Message a = "") then message d else Message a)
                     (stage_ d) (code_ d) (deployment_ d) (commit_ d)))
    | None =>
        if temporary && (failures <? temporaryFailureThreshold)%N then st_ret ()
        else
          let! id := newID in
          openAlert (clock env) eventID
            (opened id AlertKindSyncFailed ResourceTypeStack stack (clock env) eventID title (message d)
               (stage_ d) (code_ d) (deployment_ d) (commit_ d) failures) (hasDiagnostic d)
            "create deployment alert"
    end.

Definition handleSucceeded (now : Time) (eventID stack : string) : Db () :=
  let fingerprint := SyncFailedFingerprint stack in
  do! wrapping "reset deployment failure streak" (ResetFailureStreak fingerprint) in
  resolveOpen now eventID fingerprint "find open deployment alert" "resolve deployment alert"
    ResolutionReasonRecovered "Synchronization completed successfully".

(** [handleNode]: the errors are not wrapped, and the identifier of the event is used
    as it is. *)
Definition handleNode (now : Time) (eventID nodeID : string) (disconnected : bool) : Db () := λ db,
  match FindOpenByFingerprint (NodeDisconnectedFingerprint nodeID) db with
  | (Ok a, db) =>
      if disconnected then
        Update (repeated a now eventID (Title a) (Message a) (FailureStage a) (ErrorCode a)
                  (DeploymentID a) (alertCommit a)) db
      else
        let a := resolved a now ResolutionReasonRecovered "Swarm node reconnected" eventID in
        (do! Update a in publishResolved a) db
  | (Err e, db) =>
      match rootCause e with
      | ErrAlertNotFound =>
          if disconnected then
            (let! id := newID in
             let a := opened id AlertKindNodeDisconnected ResourceTypeNode nodeID now eventID
                        "Node disconnected" "Swarm node is not ready" "" "" "" "" 1 in
             do! Create a in publishOpened a) db
          else (Ok (), db)
      | _ => (Err e, db)
      end
  end.

(** ** Messages *)
Definition usefulDiagnostic (err : option fault) (code : string) : option string :=
  let diagnostic := SafeDiagnostic maskText err in
  if bool_decide (diagnostic = "") || bool_decide (diagnostic = code) then None else Some diagnostic.
Definition hasUsefulDiagnostic (err : option fault) (code : string) : bool :=
  bool_decide (is_Some (usefulDiagnostic err code)).

Definition isTemporaryError (err : option fault) : bool :=
  match err with Some e => isTemporary e | None => false end.

Definition stageName (stage : string) : string :=
  if bool_decide (stage = "") then "an unknown stage" else stage.
Definition safeFailureMessage (err : option fault) (code stage : string) : string :=
  match usefulDiagnostic err code with
  | Some diagnostic => diagnostic
  | None => "Synchronization failed during " +:+ stageName stage +:+
            ". No detailed diagnostic was recorded."
  end.
Definition safeUnknownOutcomeMessage (err : option fault) (code stage : string) : string :=
  match usefulDiagnostic err code with
  | Some diagnostic => diagnostic
  | None => "Deployment outcome is unknown after interruption during " +:+ stageName stage +:+
            ". No detailed diagnostic was recorded."
  end.

(** Without an error the logs are the diagnostic. *)
Definition deployDiagnostic (err : option fault) (logs : list string) : option fault :=
  match err with
  | Some e => Some e
  | None =>
      let text := trim_space (join_strings (String (Ascii.ascii_of_N 10) EmptyString) logs) in
      if bool_decide (text = "") then None
      else Some {| faultText := text; isDeadlineExceeded := false; isUpdateDeferred := false;
                   isTemporary := false |}
  end.

Definition deployFailureDetails (deployment commit code stage : string) (err : option fault)
    (logs : list string) : failureDetails :=
  let diagnostic := deployDiagnostic err logs in
  {| message := safeFailureMessage diagnostic code stage;
     hasDiagnostic := hasUsefulDiagnostic diagnostic code; stage_ := stage; code_ := code;
     deployment_ := deployment; commit_ := commit |}.

Definition syncFailed : string := "Synchronization failed".

(** ** The subscriber *)
Definition Handle (env : Surroundings) (eventID : string) (event : SourceEvent) : Db () :=
  let now := clock env in
  match event with
  | ConfigurationChanged previous =>
      if bool_decide (previous = "") then handleConfigurationChanged env eventID
      else handleGitRepositoryChanged now eventID previous
  | NodeDisconnected node => handleNode now eventID node true
  | NodeConnected node => handleNode now eventID node false
  | DeployFailed deployment stack commit code stage err logs =>
      handleFailed env eventID stack syncFailed (deployFailureDetails deployment commit code stage err logs)
        (isTemporaryError err)
  | DeployPreparationFailed stack commit code stage err =>
      handleFailed env eventID stack syncFailed
        {| message := safeFailureMessage err code stage; hasDiagnostic := hasUsefulDiagnostic err code;
           stage_ := stage; code_ := code; deployment_ := ""; commit_ := commit |}
        (isTemporaryError err)
  | DeployInterrupted deployment stack commit reason stage err =>
      handleFailed env eventID stack "Synchronization outcome unknown"
        {| message := safeUnknownOutcomeMessage err reason stage;
           hasDiagnostic := hasUsefulDiagnostic err reason; stage_ := stage; code_ := reason;
           deployment_ := deployment; commit_ := commit |}
        (isTemporaryError err)
  | DeploySuccess stack => handleSucceeded now eventID stack
  | GitPullFailed repository category description =>
      handleGitPullFailed now eventID repository category description
  | GitPullSucceeded repository => handleGitPullSucceeded now eventID repository
  | ServiceMissed stack service commit isResolved =>
      handleServiceDrift now eventID stack service commit "service is missing" isResolved
  | ServiceDrifted stack service commit reason isResolved =>
      handleServiceDrift now eventID stack service commit reason isResolved
  | ServiceDriftFixed stack service => handleServiceDriftFixed now eventID stack service
  | ServiceRemovedFromDesired stack service =>
      handleServiceRemovedFromDesired now eventID stack service
  | OtherEvent => st_ret ()
  end.

(** The resource whose events are ordered. *)
Definition eventResource (event : SourceEvent) : option string :=
  match event with
  | ConfigurationChanged previous =>
      Some (if bool_decide (previous = "") then "configuration" else "repository:" +:+ previous)
  | DeploySuccess stack | DeployFailed _ stack _ _ _ _ _ | DeployPreparationFailed stack _ _ _ _
  | DeployInterrupted _ stack _ _ _ _ => Some ("stack:" +:+ stack)
  | NodeDisconnected node | NodeConnected node => Some ("node:" +:+ node)
  | GitPullFailed repository _ _ | GitPullSucceeded repository => Some ("repository:" +:+ repository)
  | ServiceMissed stack service _ _ | ServiceDrifted stack service _ _ _
  | ServiceDriftFixed stack service | ServiceRemovedFromDesired stack service =>
      Some ("service:" +:+ stack +:+ "/" +:+ service)
  | OtherEvent => None
  end.

(** [SQLSubscriber.Handle] *)
Definition HandleOnce (env : Surroundings) (e : Envelope) : Db () :=
  match eventResource (envelopeEvent e) with
  | None => st_ret ()
  | Some resource =>
      ConsumeLatest (envelopeID e) resource (OccurredAt e)
        (Handle env (envelopeID e) (envelopeEvent e))
  end.

(** A sequence of deliveries; a failed one is rolled back. *)
Fixpoint deliver (events : list (Surroundings * Envelope)) (db : AlertDB) : AlertDB :=
  match events with
  | [] => db
  | (env, e) :: events => deliver events (HandleOnce env e db).2
  end.
End Subscriber.
