(* ===== verification/AlertLifecycle.v ===== *)
(** * The lifecycle of alerts

    The handlers keep the tables well formed, publish an opening and a resolution
    exactly when an alert opens and ends, and decide which fingerprints are open as an
    abstract transition function says. *)
From S2P Require Import Prelude GoStrings Deployments Alerts AlertStore AlertSubscriber.
Local Open Scope go_scope.

(** ** Episodes told by the published transitions *)
Definition snapshotFingerprint (s : AlertSnapshot) : string :=
  fingerprintOf (snapshotKind s) (snapshotResourceType s) (snapshotResourceID s).
Definition transitionOf (t : AlertTransition) : string :=
  match t with AlertOpened s _ | AlertResolved s _ => snapshotFingerprint s end.

(** An opening when none is open, a resolution when one is; anything else is out
    of order. *)
Definition alertStep (open : bool) (t : AlertTransition) : option bool :=
  match t with
  | AlertOpened _ _ => if open then None else Some true
  | AlertResolved _ _ => if open then Some false else None
  end.
Fixpoint replayAlert (open : bool) (ts : list AlertTransition) : option bool :=
  match ts with
  | [] => Some open
  | t :: ts => alertStep open t ≫= λ open, replayAlert open ts
  end.
Definition transitionsOf (fingerprint : string) (ts : list AlertTransition) : list AlertTransition :=
  filter (λ t, transitionOf t = fingerprint) ts.

Lemma replayAlert_app open ts ts' :
  replayAlert open (ts ++ ts') = replayAlert open ts ≫= λ open, replayAlert open ts'.
Proof.
  revert open. induction ts as [|t ts IH]; intros open; [done|]. simpl.
  destruct (alertStep open t); simpl; [apply IH|done].
Qed.

(** ** How a handler changes the tables *)
Definition evolves (db db' : AlertDB) : Prop :=
  tablesOk db' ∧ versions db' = versions db ∧
  ∃ ts, transitions db' = transitions db ++ ts ∧
    ∀ fingerprint, replayAlert (opens db fingerprint) (transitionsOf fingerprint ts) =
                   Some (opens db' fingerprint).

Lemma evolves_trans db1 db2 db3 : evolves db1 db2 → evolves db2 db3 → evolves db1 db3.
Proof.
  intros (_ & Hv1 & ts1 & Ht1 & Hr1) (Hok & Hv2 & ts2 & Ht2 & Hr2).
  split; [done|]. split; [congruence|]. exists (ts1 ++ ts2). split.
  - by rewrite Ht2, Ht1, app_assoc.
  - intros fingerprint. unfold transitionsOf. rewrite filter_app, replayAlert_app.
    fold (transitionsOf fingerprint ts1). rewrite Hr1. apply Hr2.
Qed.

(** Everything but the streaks stays. *)
Definition sameAlerts (db db' : AlertDB) : Prop :=
  alerts db' = alerts db ∧ versions db' = versions db ∧ transitions db' = transitions db.

Lemma sameTables_alerts db db' : sameTables db db' → sameAlerts db db'.
Proof. unfold sameTables, sameAlerts. tauto. Qed.
Lemma opens_alerts db db' fingerprint : alerts db' = alerts db → opens db' fingerprint = opens db fingerprint.
Proof. intros Ha. apply opens_ext. by rewrite Ha. Qed.
Lemma sameAlerts_evolves db db' : tablesOk db → sameAlerts db db' → evolves db db'.
Proof.
  intros [Hr Hu] (Ha & Hv & Ht). split; [by split; rewrite Ha|]. split; [done|]. exists [].
  rewrite app_nil_r. split; [done|]. intros fingerprint. simpl. by rewrite (opens_alerts db db').
Qed.

(** The alert of one fingerprint is open or not afterwards; the others stay. *)
Definition settles (fingerprint : string) (open : bool) (db db' : AlertDB) : Prop :=
  evolves db db' ∧ streaks db' = streaks db ∧
  ∀ fingerprint', opens db' fingerprint' =
    if decide (fingerprint' = fingerprint) then open else opens db fingerprint'.

Lemma settles_same fingerprint db db' :
  tablesOk db → sameTables db db' → settles fingerprint (opens db fingerprint) db db'.
Proof.
  intros Hok Hs. split; [by apply sameAlerts_evolves, sameTables_alerts|]. split; [apply Hs|].
  intros fingerprint'. rewrite (opens_same _ _ _ Hs). by destruct (decide _) as [->|].
Qed.

Lemma settles_trans fingerprint open open' db1 db2 db3 :
  settles fingerprint open db1 db2 → settles fingerprint open' db2 db3 →
  settles fingerprint open' db1 db3.
Proof.
  intros (He1 & Hs1 & Ho1) (He2 & Hs2 & Ho2). split; [by eapply evolves_trans|].
  split; [congruence|]. intros fingerprint'. rewrite Ho2, Ho1. by destruct (decide _).
Qed.

Section Lifecycle.
Context `{AlertEnvironmentLaws}.

(** ** Identifiers, wrapping and reading *)
Lemma newID_ok db id db' : newID db = (Ok id, db') → sameTables db db'.
Proof. unfold newID. intros ?. by simplify_eq. Qed.
Lemma eventReferenceID_ok eventID db id db' :
  eventReferenceID eventID db = (Ok id, db') → sameTables db db'.
Proof.
  unfold eventReferenceID. case_bool_decide; [apply newID_ok|]. unfold st_ret. intros ?. by simplify_eq.
Qed.
Lemma wrapping_ok {A} text (m : Db A) db a db' :
  wrapping text m db = (Ok a, db') → m db = (Ok a, db').
Proof. unfold wrapping. destruct (m db) as [[?|?] ?]; congruence. Qed.

Lemma findOpen_ok text fingerprint db found db' :
  findOpen text fingerprint db = (Ok found, db') →
  sameTables db db' ∧ found = toAlert <$> openRow db fingerprint.
Proof.
  unfold findOpen. destruct (FindOpenByFingerprint fingerprint db) as [[a|e] db1] eqn:Hf.
  - intros ?. simplify_eq. apply FindOpen_ok in Hf as (Hs & r & Ho & ->). by rewrite Ho.
  - destruct (rootCause e) eqn:He; intros ?; simplify_eq.
    apply FindOpen_missing in Hf as [Hs Ho]; [|done]. split; [done|].
    unfold opens in Ho. by destruct (openRow db fingerprint).
Qed.

Lemma openRow_opens db fingerprint r : openRow db fingerprint = Some r → opens db fingerprint = true.
Proof. intros Hr. unfold opens. by rewrite Hr. Qed.
Lemma openRow_none db fingerprint : openRow db fingerprint = None → opens db fingerprint = false.
Proof. intros Hr. unfold opens. by rewrite Hr. Qed.

(** ** The elementary moves *)

(** An update that keeps the identity of an open alert. *)
Definition continues (r : alertRow) (a : Alert) : Prop :=
  alertID a = rowID r ∧ Fingerprint a = rowFingerprint r ∧ Kind a = rowKind r ∧
  resourceType a = rowResourceType r ∧ ResourceID a = rowResourceID r.

Lemma update_open db db' fingerprint r a :
  tablesOk db → openRow db fingerprint = Some r → continues r a → alertWellFormed a →
  Update a db = (Ok (), db') →
  tablesOk db' ∧ streaks db' = streaks db ∧ versions db' = versions db ∧
  transitions db' = transitions db ∧
  ∀ fingerprint', opens db' fingerprint' =
    if decide (fingerprint' = fingerprint) then bool_decide (alertStatus a = AlertStatusOpen)
    else opens db fingerprint'.
Proof.
  intros Hok Hr (Hid & Hf & _) Hwf Hu. apply openRow_some in Hr as (id & Hr & Ho).
  assert (id = rowID r) as -> by (symmetry; apply (row_id _ _ (rows_well_formed db Hok _ _ Hr))).
  assert (Fingerprint a = fingerprint) as Hfp by (rewrite Hf; apply Ho).
  pose proof (write_ok _ _ _ _ Hu) as (_ & _ & _ & _ & _ & Hs & Hv & Ht).
  apply write_tables in Hu as (Hok' & _ & Hops); [|done|done|].
  - split_and!; try done. intros fingerprint'. rewrite Hops, Hfp. destruct (decide _); [|done].
    by rewrite orb_false_r.
  - intros _. exists r. rewrite Hid, Hfp. by split.
Qed.

Lemma repeated_wellFormed a now eventID title text stage code deployment commit :
  alertWellFormed a → alertWellFormed (repeated a now eventID title text stage code deployment commit).
Proof. intros []. by split. Qed.

Lemma update_repeated db db' fingerprint r now eventID title text stage code deployment commit :
  tablesOk db → openRow db fingerprint = Some r →
  Update (repeated (toAlert r) now eventID title text stage code deployment commit) db = (Ok (), db') →
  settles fingerprint true db db'.
Proof.
  intros Hok Hr Hu. pose proof Hr as Hopen. apply openRow_some in Hopen as (id & Hin & Ho).
  pose proof (rows_well_formed db Hok _ _ Hin) as Hwf.
  eapply update_open in Hu as (Hok' & Hs & Hv & Ht & Hops);
    [|done|done|done|by eapply repeated_wellFormed, toAlert_wellFormed].
  simpl in Hops. rewrite bool_decide_eq_true_2 in Hops by apply Ho.
  split; [|done]. split; [done|]. split; [done|]. exists []. rewrite app_nil_r. split; [done|].
  intros fingerprint'. simpl. rewrite Hops. destruct (decide _) as [->|]; [|done].
  by rewrite (openRow_opens _ _ _ Hr).
Qed.

Lemma publish_ok t db db' :
  publish t db = (Ok (), db') →
  alerts db' = alerts db ∧ streaks db' = streaks db ∧ versions db' = versions db ∧
  transitions db' = transitions db ++ [t].
Proof.
  unfold publish. intros Hp. st_inv. destruct a. apply statement_ok in Hrun as (Ha & Hs & Hv & Ht).
  simpl. by rewrite Ha, Hs, Hv, Ht.
Qed.

Lemma transitionsOf_one fingerprint t :
  transitionsOf fingerprint [t] = if decide (fingerprint = transitionOf t) then [t] else [].
Proof.
  unfold transitionsOf. rewrite filter_cons, filter_nil.
  destruct (decide (transitionOf t = fingerprint)) as [<-|Hne]; [by rewrite decide_True|].
  by rewrite decide_False.
Qed.

(** A resolution and its publication. *)
Lemma resolve_settles db db1 db' fingerprint r now reason text reference :
  tablesOk db → openRow db fingerprint = Some r →
  let a := resolved (toAlert r) now reason text reference in
  Update a db = (Ok (), db1) → publishResolved a db1 = (Ok (), db') →
  settles fingerprint false db db'.
Proof.
  intros Hok Hr a Hu Hp. pose proof Hr as Hopen. apply openRow_some in Hopen as (id & Hin & Ho).
  destruct (rows_well_formed db Hok _ _ Hin) as [Hid Hf Hk _ _ _ _].
  eapply update_open in Hu as (Hok' & Hs & Hv & Ht & Hops); [|done|done|done|].
  2: { split; simpl; [done|done|by split|]. split; [|done]. by eexists. }
  cbn [a resolved alertStatus] in Hops. rewrite bool_decide_eq_false_2 in Hops by done.
  apply publish_ok in Hp as (Ha' & Hs' & Hv' & Ht').
  assert (transitionOf (AlertResolved (alertSnapshot a) (recipientsOf (Kind a))) = fingerprint) as Hfp.
  { destruct Ho as [_ <-]. rewrite Hf. done. }
  assert (∀ fingerprint', opens db' fingerprint' =
    if decide (fingerprint' = fingerprint) then false else opens db fingerprint') as Hops'.
  { intros fingerprint'. rewrite (opens_alerts db1 db') by done. apply Hops. }
  split; [|split; [congruence|done]]. split; [by destruct Hok'; split; rewrite Ha'|]. split; [congruence|].
  eexists. split; [by rewrite Ht', Ht|]. intros fingerprint'. rewrite transitionsOf_one, Hfp, Hops'.
  destruct (decide (fingerprint' = fingerprint)) as [->|]; [|done].
  simpl. by rewrite (openRow_opens _ _ _ Hr).
Qed.

(** A creation, or the update of the alert found instead, and the publication. *)
Lemma openAlert_settles db db' now eventID a useful text :
  tablesOk db → alertWellFormed a → alertStatus a = AlertStatusOpen →
  openAlert now eventID a useful text db = (Ok (), db') →
  settles (Fingerprint a) true db db'.
Proof.
  intros Hok Hwf Hst. unfold openAlert. destruct (Create a db) as [[[]|e] db1] eqn:Hc.
  - intros Hp. pose proof (write_ok _ _ _ _ Hc) as (_ & _ & _ & _ & _ & Hs & Hv & Ht).
    apply write_tables in Hc as (Hok' & Hclosed & Hops); [|done|done|done].
    apply publish_ok in Hp as (Ha' & Hs' & Hv' & Ht').
    assert (transitionOf (AlertOpened (alertSnapshot a) (recipientsOf (Kind a))) = Fingerprint a) as Hfp.
    { by rewrite (alert_fingerprint a Hwf). }
    assert (∀ fingerprint', opens db' fingerprint' =
      if decide (fingerprint' = Fingerprint a) then true else opens db fingerprint') as Hops'.
    { intros fingerprint'. rewrite (opens_alerts db1 db'), Hops by done.
      by rewrite bool_decide_eq_true_2. }
    split; [|split; [congruence|done]]. split; [by destruct Hok'; split; rewrite Ha'|].
    split; [congruence|]. eexists. split; [by rewrite Ht', Ht|]. intros fingerprint'.
    rewrite transitionsOf_one, Hfp, Hops'. destruct (decide (fingerprint' = Fingerprint a)) as [->|]; [|done].
    simpl. by rewrite Hclosed.
  - apply write_err in Hc as ->. destruct (rootCause e); try done.
    unfold updateConcurrentFailure. intros Hu. st_inv.
    apply findOpen_ok in Hrun as [Hs ->]. destruct (openRow db (Fingerprint a)) as [r|] eqn:Hr; [|done].
    simpl in Hu. eapply settles_trans; [by apply settles_same|].
    eapply update_repeated; [by eapply tablesOk_same| |exact Hu]. by rewrite (openRow_same _ _ _ Hs).
Qed.

Lemma opened_wellFormed id k t resource now eventID title text stage code deployment commit n :
  kindOn k t →
  alertWellFormed (opened id k t resource now eventID title text stage code deployment commit n).
Proof. intros Hk. split; simpl; [done|done|done|]. split; [done|]. by intros []. Qed.

(** The resolution of whatever is open. *)
Lemma resolveOpen_settles db db' now eventID fingerprint findText updateText reason text :
  tablesOk db →
  resolveOpen now eventID fingerprint findText updateText reason text db = (Ok (), db') →
  settles fingerprint false db db'.
Proof.
  intros Hok Hr. unfold resolveOpen in Hr. st_inv. apply findOpen_ok in Hrun as [Hs ->].
  destruct (openRow db fingerprint) as [r|] eqn:Hopen; simpl in Hr.
  - st_inv. destruct a0. apply eventReferenceID_ok in Hrun as Hs'. apply wrapping_ok in Hrun0.
    assert (sameTables db s0) as Hsame by (by etrans).
    eapply settles_trans; [by apply settles_same|].
    eapply resolve_settles; [by eapply tablesOk_same| |exact Hrun0|exact Hr].
    by rewrite (openRow_same _ _ _ Hsame).
  - unfold st_ret in Hr. simplify_eq. rewrite <- (openRow_none _ _ Hopen). by apply settles_same.
Qed.

(** ** Streaks *)
Definition nextStreak (fingerprint : string) (m : gmap string N) : N :=
  (default 0 (m !! fingerprint) + 1)%N.

Lemma Increment_ok fingerprint db n db' :
  IncrementFailureStreak fingerprint db = (Ok n, db') →
  sameAlerts db db' ∧ n = nextStreak fingerprint (streaks db) ∧
  streaks db' = <[fingerprint := n]> (streaks db).
Proof.
  unfold IncrementFailureStreak. intros Hi. st_inv. destruct a, a1.
  apply statement_ok in Hrun as (Ha & Hs & Hv & Ht). apply statement_ok in Hrun1 as (Ha' & Hs' & Hv' & Ht').
  simpl in *. rewrite Hs', lookup_insert_eq in Hi. simplify_eq.
  split_and!; [by split_and!; congruence|by rewrite Hs|by rewrite Hs', Hs].
Qed.

Lemma Reset_ok fingerprint db db' :
  ResetFailureStreak fingerprint db = (Ok (), db') →
  sameAlerts db db' ∧ streaks db' = delete fingerprint (streaks db).
Proof.
  unfold ResetFailureStreak. intros Hr. st_inv. destruct a. apply statement_ok in Hrun as (Ha & Hs & Hv & Ht).
  simpl. by rewrite Hs.
Qed.

(** ** Removed stacks *)
Definition removable (env : Surroundings) (a : Alert) : bool :=
  match alertStackName a with Some stack => negb (isDesired env stack) | None => false end.

(** Every alert of a list is the open one of its fingerprint. *)
Definition allOpen (db : AlertDB) (found : list Alert) : Prop :=
  ∀ a, a ∈ found → ∃ r, openRow db (Fingerprint a) = Some r ∧ a = toAlert r.

Lemma resolveRemovedAlert_settles db db' a eventID now text :
  tablesOk db → (∃ r, openRow db (Fingerprint a) = Some r ∧ a = toAlert r) →
  resolveRemovedAlert a eventID now text db = (Ok (), db') →
  settles (Fingerprint a) false db db' ∧
  ∀ fingerprint, fingerprint ≠ Fingerprint a → openRow db' fingerprint = openRow db fingerprint.
Proof.
  intros Hok (r & Hr & ->) Hrem. unfold resolveRemovedAlert in Hrem. st_inv. destruct a0.
  apply eventReferenceID_ok in Hrun as Hs. apply wrapping_ok in Hrun0, Hrem.
  assert (tablesOk s) as Hok1 by (by eapply tablesOk_same).
  assert (openRow s (rowFingerprint r) = Some r) as Hr1 by (by rewrite (openRow_same _ _ _ Hs)).
  assert (settles (rowFingerprint r) false db db') as Hset.
  { eapply settles_trans; [by apply settles_same|]. eapply resolve_settles; [done|exact Hr1|exact Hrun0|exact Hrem]. }
  split; [done|]. intros fingerprint Hne. simpl in Hne. destruct Hset as ((Hok' & _) & _ & Hops).
  specialize (Hops fingerprint). rewrite decide_False in Hops by done.
  apply write_ok in Hrun0 as (_ & _ & _ & _ & Ha & _).
  apply publish_ok in Hrem as (Ha' & _).
  destruct (openRow db fingerprint) as [r'|] eqn:Hr'.
  - apply openRow_opens in Hr' as Hop. rewrite Hop in Hops. unfold opens in Hops.
    apply bool_decide_eq_true_1 in Hops as [r'' Hr'']. rewrite Hr''. f_equal.
    apply openRow_some in Hr'' as (id & Hin & Ho). rewrite Ha', Ha in Hin. apply pruneRows_some in Hin.
    apply lookup_insert_Some in Hin as [[_ <-]|[_ Hin]]; [by destruct Ho|].
    destruct Hs as (Has & _). rewrite Has in Hin.
    pose proof (openRow_unique db _ _ _ Hok Hin Ho). congruence.
  - apply openRow_none in Hr'. rewrite Hr' in Hops. unfold opens in Hops.
    apply bool_decide_eq_false_1 in Hops. by apply eq_None_not_Some.
Qed.

Lemma resolveRemoved_spec env eventID found db db' :
  tablesOk db → allOpen db found → NoDup (map Fingerprint found) →
  resolveRemoved env eventID found db = (Ok (), db') →
  evolves db db' ∧ streaks db' = streaks db ∧
  ∀ fingerprint, opens db' fingerprint =
    opens db fingerprint &&
    negb (existsb (λ a, bool_decide (Fingerprint a = fingerprint) && removable env a) found).
Proof.
  revert db. induction found as [|a found IH]; intros db Hok Hall Hnd Hr; cbn [resolveRemoved] in Hr.
  { unfold st_ret in Hr. simplify_eq. split; [by apply sameAlerts_evolves|]. split; [done|].
    intros fingerprint. by rewrite andb_true_r. }
  simpl in Hnd. apply NoDup_cons in Hnd as [Ha Hnd].
  assert (resolveRemoved env eventID found db = (Ok (), db') → removable env a = false →
    evolves db db' ∧ streaks db' = streaks db ∧
    ∀ fingerprint, opens db' fingerprint =
      opens db fingerprint &&
      negb (existsb (λ a, bool_decide (Fingerprint a = fingerprint) && removable env a) (a :: found)))
    as Hskip.
  { intros Hrun Hno. destruct (IH db Hok) as (He & Hs & Hops); [|done|done|].
    - intros a' Ha'. apply Hall. by right.
    - split_and!; [done..|]. intros fingerprint. rewrite Hops. simpl. by rewrite Hno, andb_false_r. }
  unfold removable in Hskip at 1.
  destruct (alertStackName a) as [stack|] eqn:Hstack; [|by apply Hskip].
  destruct (isDesired env stack) eqn:Hdes; [by apply Hskip|]. clear Hskip. st_inv. destruct a0.
  apply resolveRemovedAlert_settles in Hrun as [(He1 & Hs1 & Hops1) Hrows]; [|done|by apply Hall; left].
  destruct (IH s) as (He2 & Hs2 & Hops2); [by destruct He1| |done|done|].
  { intros a' Ha'. destruct (Hall a') as (r & Hr' & ->); [by right|]. exists r. split; [|done].
    rewrite Hrows; [done|]. intros Heq. apply Ha. rewrite <- Heq. by apply (list_elem_of_fmap_2 Fingerprint). }
  split; [by eapply evolves_trans|]. split; [congruence|]. intros fingerprint. rewrite Hops2, Hops1. simpl.
  assert (removable env a = true) as -> by (unfold removable; by rewrite Hstack, Hdes).
  destruct (decide (fingerprint = Fingerprint a)) as [->|Hne].
  - by rewrite bool_decide_eq_true_2, andb_false_r.
  - by rewrite bool_decide_eq_false_2 by congruence.
Qed.

Lemma List_open db found db' :
  tablesOk db → List openAlerts db = (Ok found, db') →
  sameTables db db' ∧ allOpen db found ∧ NoDup (map Fingerprint found) ∧
  ∀ fingerprint r, openRow db fingerprint = Some r → toAlert r ∈ found.
Proof.
  intros Hok Hl. unfold List in Hl. apply st_bind_ok in Hl as ([] & s & Hrun & Hl).
  apply statement_ok in Hrun as Hs. injection Hl as <- <-. split; [done|]. destruct Hs as (Ha & _). rewrite Ha. clear Ha Hrun.
  set (rows := filter _ _).
  assert (∀ r, r ∈ rows ↔ rowStatus r = AlertStatusOpen ∧ ∃ id, alerts db !! id = Some r) as Hrows.
  { intros r. subst rows. rewrite list_elem_of_filter, list_elem_of_fmap. unfold listed, openAlerts. simpl.
    rewrite !andb_true_r, bool_decide_eq_true. split.
    - intros (? & [id r'] & -> & Hin). split; [done|]. exists id. by apply elem_of_map_to_list.
    - intros (? & id & Hr). split; [done|]. exists (id, r). by rewrite elem_of_map_to_list. }
  assert (∀ r, r ∈ rows → openRow db (rowFingerprint r) = Some r) as Hopen.
  { intros r Hr. apply Hrows in Hr as (Ho & id & Hr). by eapply openRow_unique. }
  split_and!.
  - intros a (r & -> & Hr)%list_elem_of_fmap. rewrite (stable_sort_perm updatedBefore) in Hr.
    exists r. split; [by apply Hopen|done].
  - rewrite map_map. change (λ x, Fingerprint (toAlert x)) with rowFingerprint.
    rewrite (stable_sort_perm updatedBefore).
    assert (NoDup rows) as Hnd.
    { subst rows. apply NoDup_filter. pose proof (NoDup_fst_map_to_list (alerts db)) as Hnd.
      apply NoDup_fmap_2_strong; [|by apply NoDup_map_to_list].
      intros [id r] [id' r'] Hin Hin' Heq. simpl in Heq. subst r'.
      apply elem_of_map_to_list in Hin, Hin'.
      pose proof (row_id _ _ (rows_well_formed db Hok _ _ Hin)).
      pose proof (row_id _ _ (rows_well_formed db Hok _ _ Hin')). by subst. }
    apply NoDup_fmap_2_strong; [|done]. intros r r' Hr Hr' Heq.
    apply Hopen in Hr, Hr'. rewrite Heq in Hr. congruence.
  - intros fingerprint r Hr. apply (list_elem_of_fmap_2 toAlert). rewrite (stable_sort_perm updatedBefore).
    apply openRow_some in Hr as (id & Hr & Ho). apply Hrows. split; [apply Ho|by exists id].
Qed.

(** ** The abstract transition function *)

(** Whether the failure of a source opens an alert: a temporary one does at the
    third in a row. *)
Definition reaches (temporary : bool) (failures : N) : bool :=
  negb (temporary && (failures <? temporaryFailureThreshold)%N).

(** The stack whose failure an event reports, and whether it is temporary. *)
Definition failedSync (event : SourceEvent) : option (string * bool) :=
  match event with
  | DeployFailed _ stack _ _ _ err _ | DeployPreparationFailed stack _ _ _ err
  | DeployInterrupted _ stack _ _ _ err => Some (stack, isTemporaryError err)
  | _ => None
  end.

(** The fingerprint that an event decides, and whether its alert is open then. *)
Definition decided (env : Surroundings) (event : SourceEvent) (db : AlertDB) : option (string * bool) :=
  match event with
  | ConfigurationChanged previous =>
      if bool_decide (previous = "") then None
      else Some (GitRepositoryUnavailableFingerprint previous, false)
  | NodeDisconnected node => Some (NodeDisconnectedFingerprint node, true)
  | NodeConnected node => Some (NodeDisconnectedFingerprint node, false)
  | DeployFailed _ _ _ _ _ _ _ | DeployPreparationFailed _ _ _ _ _ | DeployInterrupted _ _ _ _ _ _ =>
      failedSync event ≫= λ '(stack, temporary),
        let fingerprint := SyncFailedFingerprint stack in
        if stackRemoved env stack then None
        else Some (fingerprint, opens db fingerprint ||
                                reaches temporary (nextStreak fingerprint (streaks db)))
  | DeploySuccess stack => Some (SyncFailedFingerprint stack, false)
  | GitPullFailed repository category _ =>
      let fingerprint := GitRepositoryUnavailableFingerprint repository in
      Some (fingerprint, opens db fingerprint ||
              reaches (bool_decide (category = GitFailureNetwork)) (nextStreak fingerprint (streaks db)))
  | GitPullSucceeded repository => Some (GitRepositoryUnavailableFingerprint repository, false)
  | ServiceMissed stack service _ isResolved | ServiceDrifted stack service _ _ isResolved =>
      if isResolved : bool then None else Some (ServiceDriftFingerprint stack service, true)
  | ServiceDriftFixed stack service | ServiceRemovedFromDesired stack service =>
      Some (ServiceDriftFingerprint stack service, false)
  | OtherEvent => None
  end.

(** A reload of the configuration ends the alerts of the stacks that are gone. *)
Definition survivesReload (env : Surroundings) (db : AlertDB) (fingerprint : string) : bool :=
  match openRow db fingerprint with
  | Some r => negb (removable env (toAlert r))
  | None => false
  end.

Definition opensNext (env : Surroundings) (event : SourceEvent) (db : AlertDB) (fingerprint : string)
    : bool :=
  match event with
  | ConfigurationChanged "" => survivesReload env db fingerprint
  | _ =>
      match decided env event db with
      | Some (fingerprint', open) =>
          if decide (fingerprint = fingerprint') then open else opens db fingerprint
      | None => opens db fingerprint
      end
  end.

(** The failures in a row of a fingerprint after an event. *)
Definition streaksNext (env : Surroundings) (event : SourceEvent) (m : gmap string N) : gmap string N :=
  match event with
  | ConfigurationChanged previous =>
      if bool_decide (previous = "") then
        filter (λ kv : string * N, likePrefix (SyncFailedFingerprint "") kv.1 = false ∨
                  kv.1 ∈ map SyncFailedFingerprint (desiredStacks env)) m
      else delete (GitRepositoryUnavailableFingerprint previous) m
  | DeployFailed _ stack _ _ _ _ _ | DeployPreparationFailed stack _ _ _ _
  | DeployInterrupted _ stack _ _ _ _ =>
      let fingerprint := SyncFailedFingerprint stack in
      if stackRemoved env stack then delete fingerprint m
      else <[fingerprint := nextStreak fingerprint m]> m
  | DeploySuccess stack => delete (SyncFailedFingerprint stack) m
  | GitPullFailed repository _ _ =>
      let fingerprint := GitRepositoryUnavailableFingerprint repository in
      <[fingerprint := nextStreak fingerprint m]> m
  | GitPullSucceeded repository => delete (GitRepositoryUnavailableFingerprint repository) m
  | _ => m
  end.

(** ** The handlers *)

(** What a handler that decides one fingerprint does. *)
Definition decides (d : option (string * bool)) (db db' : AlertDB) : Prop :=
  evolves db db' ∧
  ∀ fingerprint, opens db' fingerprint =
    match d with
    | Some (fingerprint', open) =>
        if decide (fingerprint = fingerprint') then open else opens db fingerprint
    | None => opens db fingerprint
    end.

Lemma settles_decides fingerprint open db db' :
  settles fingerprint open db db' → decides (Some (fingerprint, open)) db db'.
Proof. by intros (? & _ & ?). Qed.

(** A handler that settles a fingerprint after the streaks changed. *)
Lemma settles_after fingerprint open db db1 db' :
  tablesOk db → sameAlerts db db1 → settles fingerprint open db1 db' →
  decides (Some (fingerprint, open)) db db' ∧ streaks db' = streaks db1.
Proof.
  intros Hok Hs (He & Hst & Hops). split; [|done]. split.
  - eapply evolves_trans; [by apply sameAlerts_evolves|done].
  - intros fingerprint'. rewrite Hops. destruct (decide _); [done|]. apply opens_alerts, Hs.
Qed.

Lemma tablesOk_alerts db db' : alerts db' = alerts db → tablesOk db → tablesOk db'.
Proof. intros Ha [Hr Hu]. split; by rewrite Ha. Qed.

(** A new alert of a fingerprint that is not open. *)
Lemma open_new_settles db db' now eventID k t resource title text stage code deployment commit n useful
    createText :
  tablesOk db → kindOn k t →
  (let! id := newID in
   openAlert now eventID
     (opened id k t resource now eventID title text stage code deployment commit n) useful createText) db =
    (Ok (), db') →
  settles (fingerprintOf k t resource) true db db'.
Proof.
  intros Hok Hk Ho. apply st_bind_ok in Ho as (id & s & Hid & Ho). apply newID_ok in Hid.
  eapply settles_trans; [by apply settles_same|].
  eapply (openAlert_settles _ _ _ _ (opened _ _ _ _ _ _ _ _ _ _ _ _ _));
    [by eapply tablesOk_same|by apply opened_wellFormed|done|exact Ho].
Qed.

Lemma handleServiceDrift_spec db db' now eventID stack service commit reason isResolved :
  tablesOk db →
  handleServiceDrift now eventID stack service commit reason isResolved db = (Ok (), db') →
  decides (if isResolved : bool then None else Some (ServiceDriftFingerprint stack service, true)) db db' ∧
  streaks db' = streaks db.
Proof.
  intros Hok Hh. unfold handleServiceDrift in Hh. destruct isResolved.
  { unfold st_ret in Hh. simplify_eq. split; [split; [by apply sameAlerts_evolves|done]|done]. }
  apply st_bind_ok in Hh as (reference & s1 & Hid & Hh). apply eventReferenceID_ok in Hid.
  apply st_bind_ok in Hh as (found & s2 & Hf & Hh). apply findOpen_ok in Hf as [Hs ->].
  assert (sameTables db s2) as Hsame by (by etrans).
  assert (settles (ServiceDriftFingerprint stack service) true db db') as Hset.
  { eapply settles_trans; [by apply settles_same|].
    assert (tablesOk s2) as Hok2 by (by eapply tablesOk_same).
    destruct (openRow s1 _) as [r|] eqn:Hr; simpl in Hh.
    - apply wrapping_ok in Hh. eapply update_repeated; [done| |exact Hh].
      by rewrite (openRow_same _ _ _ Hs).
    - by eapply open_new_settles in Hh. }
  split; [by apply settles_decides|apply Hset].
Qed.

Lemma resolve_spec db db' now eventID fingerprint findText updateText reason text :
  tablesOk db →
  resolveOpen now eventID fingerprint findText updateText reason text db = (Ok (), db') →
  decides (Some (fingerprint, false)) db db' ∧ streaks db' = streaks db.
Proof.
  intros Hok Hr. apply resolveOpen_settles in Hr; [|done]. split; [by apply settles_decides|apply Hr].
Qed.

Lemma reset_resolve_spec db db' now eventID fingerprint resetText findText updateText reason text :
  tablesOk db →
  (do! wrapping resetText (ResetFailureStreak fingerprint) in
   resolveOpen now eventID fingerprint findText updateText reason text) db = (Ok (), db') →
  decides (Some (fingerprint, false)) db db' ∧ streaks db' = delete fingerprint (streaks db).
Proof.
  intros Hok Hr. apply st_bind_ok in Hr as ([] & s & Hreset & Hr). apply wrapping_ok, Reset_ok in Hreset as [Hs Hst].
  apply resolveOpen_settles in Hr; [|by eapply tablesOk_alerts; [apply Hs|]].
  rewrite <- Hst. by eapply settles_after.
Qed.

(** The failure of a source with a streak. *)
Lemma failure_spec db db' (m : N → Db ()) fingerprint text (temporary : bool) :
  tablesOk db →
  (∀ s s' n, tablesOk s → m n s = (Ok (), s') →
     settles fingerprint (opens s fingerprint || reaches temporary n) s s') →
  (let! failures := wrapping text (IncrementFailureStreak fingerprint) in m failures) db = (Ok (), db') →
  decides (Some (fingerprint, opens db fingerprint ||
                   reaches temporary (nextStreak fingerprint (streaks db)))) db db' ∧
  streaks db' = <[fingerprint := nextStreak fingerprint (streaks db)]> (streaks db).
Proof.
  intros Hok Hm Hh. apply st_bind_ok in Hh as (n & s & Hi & Hh).
  apply wrapping_ok, Increment_ok in Hi as (Hs & -> & Hst).
  apply Hm in Hh; [|by eapply tablesOk_alerts; [apply Hs|]].
  rewrite (opens_alerts db s) in Hh by apply Hs. rewrite <- Hst. by eapply settles_after.
Qed.

(** The shared shape of the failures: update the open alert, wait for the threshold, or open one. *)
Lemma report_settles fingerprint (temporary : bool) n eventID findText (update : string → Alert → Db ())
    (creates : string → Db ()) s s' :
  tablesOk s →
  (∀ r reference s1 s2, tablesOk s1 → openRow s1 fingerprint = Some r →
     update reference (toAlert r) s1 = (Ok (), s2) → settles fingerprint true s1 s2) →
  (∀ reference s1 s2, tablesOk s1 → creates reference s1 = (Ok (), s2) → settles fingerprint true s1 s2) →
  (let! reference := eventReferenceID eventID in
   let! found := findOpen findText fingerprint in
   match found with
   | Some a => update reference a
   | None => if temporary && (n <? temporaryFailureThreshold)%N then st_ret () else creates reference
   end) s = (Ok (), s') →
  settles fingerprint (opens s fingerprint || reaches temporary n) s s'.
Proof.
  intros Hok Hupd Hcre Hh. apply st_bind_ok in Hh as (reference & s1 & Hid & Hh).
  apply eventReferenceID_ok in Hid. apply st_bind_ok in Hh as (found & s2 & Hf & Hh).
  apply findOpen_ok in Hf as [Hs ->]. assert (sameTables s s2) as Hsame by (by etrans).
  assert (tablesOk s2) as Hok2 by (by eapply tablesOk_same).
  rewrite (openRow_same _ _ _ Hid) in Hh.
  pose proof (openRow_same _ _ fingerprint Hsame) as Hrow.
  destruct (openRow s fingerprint) as [r|] eqn:Hr; simpl in Hh.
  - rewrite (openRow_opens _ _ _ Hr). eapply settles_trans; [by apply settles_same|]. by eapply Hupd.
  - rewrite (openRow_none _ _ Hr). unfold reaches. simpl.
    destruct (temporary && (n <? temporaryFailureThreshold)%N); simpl.
    + unfold st_ret in Hh. simplify_eq. rewrite <- (openRow_none _ _ Hr). by apply settles_same.
    + eapply settles_trans; [by apply settles_same|]. by eapply Hcre.
Qed.

Lemma handleGitPullFailed_spec db db' now eventID repository category description :
  tablesOk db →
  handleGitPullFailed now eventID repository category description db = (Ok (), db') →
  let fingerprint := GitRepositoryUnavailableFingerprint repository in
  decides (Some (fingerprint, opens db fingerprint ||
             reaches (bool_decide (category = GitFailureNetwork)) (nextStreak fingerprint (streaks db)))) db db' ∧
  streaks db' = <[fingerprint := nextStreak fingerprint (streaks db)]> (streaks db).
Proof.
  intros Hok Hh fingerprint. unfold handleGitPullFailed in Hh. cbv zeta in Hh. fold fingerprint in Hh.
  eapply (failure_spec _ _ _ _ _ _ Hok); [|exact Hh]. clear Hok Hh. intros s s' n Hok Hh. cbv beta in Hh.
  eapply (report_settles fingerprint _ n eventID); [exact Hok| | |exact Hh].
  - intros r reference s1 s2 Hok1 Hr Hu. apply wrapping_ok in Hu. by eapply update_repeated.
  - intros reference s1 s2 Hok1 Hc. by eapply open_new_settles in Hc.
Qed.

Lemma handleFailed_spec db db' env eventID stack title d temporary :
  tablesOk db →
  handleFailed env eventID stack title d temporary db = (Ok (), db') →
  let fingerprint := SyncFailedFingerprint stack in
  decides (if stackRemoved env stack then None
           else Some (fingerprint, opens db fingerprint ||
                        reaches temporary (nextStreak fingerprint (streaks db)))) db db' ∧
  streaks db' =
    if stackRemoved env stack then delete fingerprint (streaks db)
    else <[fingerprint := nextStreak fingerprint (streaks db)]> (streaks db).
Proof.
  intros Hok Hh fingerprint. unfold handleFailed in Hh. cbv zeta in Hh. fold fingerprint in Hh.
  destruct (stackRemoved env stack).
  { apply wrapping_ok, Reset_ok in Hh as [Hs Hst]. split; [|done]. split; [by apply sameAlerts_evolves|].
    intros fingerprint'. apply opens_alerts, Hs. }
  eapply (failure_spec _ _ _ _ _ _ Hok); [|exact Hh]. clear Hok Hh. intros s s' n Hok Hh. cbv beta in Hh.
  eapply (report_settles fingerprint _ n eventID); [exact Hok| | |exact Hh].
  - intros r reference s1 s2 Hok1 Hr Hu. apply wrapping_ok in Hu. by eapply update_repeated.
  - intros reference s1 s2 Hok1 Hc. by eapply open_new_settles in Hc.
Qed.

Lemma handleNode_spec db db' now eventID node disconnected :
  tablesOk db →
  handleNode now eventID node disconnected db = (Ok (), db') →
  decides (Some (NodeDisconnectedFingerprint node, disconnected)) db db' ∧ streaks db' = streaks db.
Proof.
  intros Hok Hh. set (fingerprint := NodeDisconnectedFingerprint node) in *.
  assert (settles fingerprint disconnected db db') as Hset; [|by split; [apply settles_decides|apply Hset]].
  unfold handleNode in Hh. fold fingerprint in Hh.
  destruct (FindOpenByFingerprint fingerprint db) as [[a|e] s] eqn:Hf.
  - apply FindOpen_ok in Hf as (Hs & r & Hr & ->).
    eapply settles_trans; [by apply settles_same|].
    assert (tablesOk s) as Hok1 by (by eapply tablesOk_same).
    rewrite <- (openRow_same _ _ _ Hs) in Hr. destruct disconnected.
    + by eapply update_repeated.
    + apply st_bind_ok in Hh as ([] & s1 & Hu & Hp). by eapply resolve_settles.
  - destruct (rootCause e) eqn:He; try done. apply FindOpen_missing in Hf as [Hs Hclosed]; [|done].
    assert (tablesOk s) as Hok1 by (by eapply tablesOk_same).
    destruct disconnected; [|simplify_eq; rewrite <- Hclosed; by apply settles_same].
    eapply settles_trans; [by apply settles_same|].
    apply st_bind_ok in Hh as (id & s1 & Hid & Hh). cbv zeta in Hh. apply newID_ok in Hid.
    eapply settles_trans; [by apply settles_same|].
    eapply (openAlert_settles s1 db' now eventID (opened id AlertKindNodeDisconnected ResourceTypeNode node
      now eventID "Node disconnected" "Swarm node is not ready" "" "" "" "" 1) true "");
      [by eapply tablesOk_same|by apply opened_wellFormed|done|].
    apply st_bind_ok in Hh as ([] & s2 & Hc & Hp). unfold openAlert. by rewrite Hc.
Qed.

Lemma handleServiceRemoved_spec db db' now eventID stack service :
  tablesOk db →
  handleServiceRemovedFromDesired now eventID stack service db = (Ok (), db') →
  decides (Some (ServiceDriftFingerprint stack service, false)) db db' ∧ streaks db' = streaks db.
Proof.
  intros Hok Hh. set (fingerprint := ServiceDriftFingerprint stack service).
  assert (settles fingerprint false db db') as Hset; [|by split; [apply settles_decides|apply Hset]].
  unfold handleServiceRemovedFromDesired in Hh. fold fingerprint in Hh.
  apply st_bind_ok in Hh as (found & s & Hf & Hh). apply findOpen_ok in Hf as [Hs ->].
  assert (tablesOk s) as Hok1 by (by eapply tablesOk_same).
  pose proof (openRow_same _ _ fingerprint Hs) as Hrow.
  destruct (openRow db fingerprint) as [r|] eqn:Hr; simpl in Hh.
  - assert (Fingerprint (toAlert r) = fingerprint) as Hfp.
    { apply openRow_some in Hr as (id & _ & Ho). apply Ho. }
    eapply settles_trans; [by apply settles_same|]. rewrite <- Hfp.
    eapply resolveRemovedAlert_settles; [done| |exact Hh]. exists r. by rewrite Hfp.
  - unfold st_ret in Hh. simplify_eq. rewrite <- (openRow_none _ _ Hr). by apply settles_same.
Qed.

Lemma handleConfigurationChanged_spec db db' env eventID :
  tablesOk db →
  handleConfigurationChanged env eventID db = (Ok (), db') →
  evolves db db' ∧ (∀ fingerprint, opens db' fingerprint = survivesReload env db fingerprint) ∧
  streaks db' = streaksNext env (ConfigurationChanged "") (streaks db).
Proof.
  intros Hok Hh. unfold handleConfigurationChanged in Hh. destruct (bool_decide _); [done|].
  apply st_bind_ok in Hh as ([] & s1 & Hres & Hh). apply wrapping_ok in Hres.
  unfold ResetFailureStreaksExcept in Hres. apply st_bind_ok in Hres as ([] & s0 & Hst & Hres).
  apply statement_ok in Hst as (Ha0 & Hs0 & Hv0 & Ht0). unfold st_modify in Hres. injection Hres as <-.
  set (s1 := withStreaks _ s0) in *. assert (sameAlerts db s1) as Hsame by done.
  assert (tablesOk s1) as Hok1 by (eapply tablesOk_alerts; [apply Hsame|done]).
  apply st_bind_ok in Hh as (found & s2 & Hl & Hh). apply wrapping_ok, List_open in Hl as (Hs2 & Hall & Hnd & Hin); [|done].
  apply resolveRemoved_spec in Hh as (He & Hst & Hops); [|by eapply tablesOk_same| |done].
  2: { intros a Ha. destruct (Hall a Ha) as (r & Hr & ->). exists r. by rewrite (openRow_same _ _ _ Hs2). }
  assert (alerts s1 = alerts db) as Ha1 by done.
  split; [|split].
  - eapply evolves_trans; [|exact He]. apply sameAlerts_evolves; [done|].
    destruct Hs2 as (Ha & _ & Hv & Ht), Hsame as (? & ? & ?). split_and!; congruence.
  - intros fingerprint. rewrite Hops, (opens_same _ _ _ Hs2), (opens_alerts db s1) by done.
    unfold survivesReload.
    assert (openRow s1 fingerprint = openRow db fingerprint) as Hrow by (unfold openRow; by rewrite Ha1).
    destruct (openRow db fingerprint) as [r|] eqn:Hr; [|by rewrite (openRow_none _ _ Hr)].
    rewrite (openRow_opens _ _ _ Hr). simpl. f_equal.
    assert (Fingerprint (toAlert r) = fingerprint) as Hfp.
    { pose proof Hr as Hr'. apply openRow_some in Hr' as (id & _ & Ho). apply Ho. }
    destruct (removable env (toAlert r)) eqn:Hrem.
    + apply existsb_exists. exists (toAlert r). split; [by apply list_elem_of_In, (Hin fingerprint)|].
      by rewrite Hfp, bool_decide_eq_true_2, Hrem.
    + apply not_true_is_false. intros (a & Ha & Hb)%existsb_exists.
      apply list_elem_of_In in Ha. destruct (Hall a Ha) as (r' & Hr' & ->).
      apply andb_true_iff in Hb as [Hb%bool_decide_eq_true_1 Hb']. rewrite Hb, Hrow in Hr'. simplify_eq. congruence.
  - rewrite Hst. destruct Hs2 as (_ & -> & _). unfold s1. simpl. by rewrite Hs0.
Qed.

(** ** The subscriber *)
Lemma Handle_spec env eventID event db db' :
  tablesOk db → Handle env eventID event db = (Ok (), db') →
  evolves db db' ∧ (∀ fingerprint, opens db' fingerprint = opensNext env event db fingerprint) ∧
  streaks db' = streaksNext env event (streaks db).
Proof.
  intros Hok Hh.
  assert (∀ d m, decides d db db' ∧ streaks db' = m → decided env event db = d →
    streaksNext env event (streaks db) = m → event ≠ ConfigurationChanged "" →
    evolves db db' ∧ (∀ fingerprint, opens db' fingerprint = opensNext env event db fingerprint) ∧
    streaks db' = streaksNext env event (streaks db)) as Hgo.
  { intros d m [[He Hops] Hst] Hd Hm Hev. split; [done|]. split; [|by rewrite Hm].
    intros fingerprint. rewrite Hops. unfold opensNext. rewrite Hd.
    destruct event; try done. by destruct previousRepository. }
  destruct event; simpl in Hh.
  - destruct (decide (previousRepository = "")) as [->|Hne].
    + rewrite bool_decide_eq_true_2 in Hh by done. by apply handleConfigurationChanged_spec in Hh.
    + rewrite bool_decide_eq_false_2 in Hh by done.
      eapply Hgo; [by eapply reset_resolve_spec|simpl; by rewrite bool_decide_eq_false_2
        |simpl; by rewrite bool_decide_eq_false_2|by intros [= ->]].
  - by eapply Hgo; [by eapply handleNode_spec|..].
  - by eapply Hgo; [by eapply handleNode_spec|..].
  - by eapply Hgo; [by eapply handleFailed_spec|..].
  - by eapply Hgo; [by eapply handleFailed_spec|..].
  - by eapply Hgo; [by eapply handleFailed_spec|..].
  - by eapply Hgo; [by eapply reset_resolve_spec|..].
  - by eapply Hgo; [by eapply handleGitPullFailed_spec|..].
  - by eapply Hgo; [by eapply reset_resolve_spec|..].
  - by eapply Hgo; [by eapply handleServiceDrift_spec|..].
  - by eapply Hgo; [by eapply handleServiceDrift_spec|..].
  - by eapply Hgo; [by eapply resolve_spec|..].
  - by eapply Hgo; [by eapply handleServiceRemoved_spec|..].
  - unfold st_ret in Hh. simplify_eq.
    by eapply (Hgo None); [split; [split; [by apply sameAlerts_evolves|done]|done]|..].
Qed.
End Lifecycle.
