(* ===== verification/AlertSafety.v ===== *)
(** * The properties of alert management

    Over any sequence of deliveries the tables stay well formed and the published
    transitions alternate; a delivery is an abstract transition and is applied once; and
    temporary failures open an alert at the third in a row. *)
From S2P Require Import Prelude GoStrings Deployments Alerts AlertStore AlertSubscriber AlertLifecycle.
Local Open Scope go_scope.

Definition emptyAlerts : AlertDB :=
  {| alerts := ∅; streaks := ∅; versions := ∅; transitions := []; issued := 0; statements := 0 |}.

(** Whether the event is the newest of its resource. *)
Definition accepted (db : AlertDB) (e : Envelope) : bool :=
  match eventResource (envelopeEvent e) with
  | Some resource =>
      match versions db !! resource with
      | Some v => newer (OccurredAt e, envelopeID e) v
      | None => true
      end
  | None => false
  end.

Section Safety.
Context `{AlertEnvironmentLaws}.

Lemma opensNext_ext env event db db1 fingerprint :
  alerts db1 = alerts db → streaks db1 = streaks db →
  opensNext env event db1 fingerprint = opensNext env event db fingerprint.
Proof.
  intros Ha Hs. unfold opensNext, survivesReload, decided, opens, openRow. by rewrite Ha, Hs.
Qed.

(** What a delivery does. *)
Definition delivered (env : Surroundings) (e : Envelope) (db db' : AlertDB) : Prop :=
  if accepted db e then
    (∀ fingerprint, opens db' fingerprint = opensNext env (envelopeEvent e) db fingerprint) ∧
    streaks db' = streaksNext env (envelopeEvent e) (streaks db) ∧
    ∃ resource, eventResource (envelopeEvent e) = Some resource ∧
      versions db' = <[resource := (OccurredAt e, envelopeID e)]> (versions db)
  else sameTables db db'.

Definition tellsEpisodes (db db' : AlertDB) : Prop :=
  ∃ ts, transitions db' = transitions db ++ ts ∧ ∀ fingerprint,
    replayAlert (opens db fingerprint) (transitionsOf fingerprint ts) = Some (opens db' fingerprint).

Lemma HandleOnce_ok env e db db' :
  tablesOk db → HandleOnce env e db = (Ok (), db') →
  tablesOk db' ∧ tellsEpisodes db db' ∧ delivered env e db db'.
Proof.
  intros Hok Hh. unfold HandleOnce in Hh. unfold delivered, accepted.
  assert (sameTables db db' → tablesOk db' ∧ tellsEpisodes db db' ∧ sameTables db db') as Hsame.
  { intros Hs. pose proof (sameTables_alerts _ _ Hs) as Ha.
    destruct (sameAlerts_evolves db db' Hok Ha) as (? & _ & ?). done. }
  destruct (eventResource (envelopeEvent e)) as [resource|] eqn:Hres.
  2: { unfold st_ret in Hh. simplify_eq. by apply Hsame. }
  apply ConsumeLatest_ok in Hh.
  destruct (match versions db !! resource with Some v => _ | None => true end); [|by apply Hsame].
  destruct Hh as (db1 & Happ & Ha & Hs & Ht & Hv).
  assert (tablesOk db1) as Hok1 by (by eapply tablesOk_alerts).
  destruct (Handle_spec _ _ _ _ _ Hok1 Happ) as ((Hok' & Hv' & ts & Hts & Hrep) & Hops & Hst).
  split; [done|]. split.
  - exists ts. rewrite Hts, Ht. split; [done|]. intros fingerprint. rewrite <- Hrep.
    by rewrite (opens_alerts db db1).
  - split; [intros fingerprint; rewrite Hops; by apply opensNext_ext|].
    split; [by rewrite Hst, Hs|]. exists resource. by rewrite Hv', Hv.
Qed.

Lemma HandleOnce_err env e db err db' : HandleOnce env e db = (Err err, db') → db' = db.
Proof.
  unfold HandleOnce, ConsumeLatest. destruct (eventResource _); [|done].
  destruct (_ || _); [by intros [= _ <-]|]. apply within_transaction_err.
Qed.

Lemma deliver_keeps events db :
  tablesOk db → tablesOk (deliver events db) ∧ tellsEpisodes db (deliver events db).
Proof.
  revert db. induction events as [|[env e] events IH]; intros db Hok; cbn [deliver].
  { split; [done|]. exists []. by rewrite app_nil_r. }
  destruct (HandleOnce env e db) as [[[]|err] db1] eqn:Hh; cbn [snd].
  - apply HandleOnce_ok in Hh as (Hok1 & (ts1 & Ht1 & Hr1) & _); [|done].
    destruct (IH db1 Hok1) as [Hok2 (ts2 & Ht2 & Hr2)]. split; [done|].
    exists (ts1 ++ ts2). rewrite Ht2, Ht1, app_assoc. split; [done|]. intros fingerprint.
    unfold transitionsOf. rewrite filter_app, replayAlert_app.
    fold (transitionsOf fingerprint ts1). rewrite Hr1. apply Hr2.
  - apply HandleOnce_err in Hh as ->. by apply IH.
Qed.

Lemma emptyAlerts_ok : tablesOk emptyAlerts.
Proof.
  split; [apply map_Forall_empty|]. intros fingerprint id id' r r' Hr. simpl in Hr.
  by rewrite lookup_empty in Hr.
Qed.

(** C20. The alert table is well formed at all times. Whatever events are delivered, in
    whatever order and with whatever failures of the database, every row is stored under its
    identifier with the fingerprint of its kind and resource, a kind that fits the
    type of the resource, a resource and set timestamps; it has an end and a
    resolution exactly when it is resolved; and no two rows are open for one fingerprint. *)
Theorem alert_rows_are_well_formed (events : list (Surroundings * Envelope)) :
  let db := deliver events emptyAlerts in
  (∀ id r, alerts db !! id = Some r → rowWellFormed id r) ∧
  ∀ id id' r r', alerts db !! id = Some r → alerts db !! id' = Some r' →
    rowStatus r = AlertStatusOpen → rowStatus r' = AlertStatusOpen →
    rowFingerprint r = rowFingerprint r' → id = id'.
Proof.
  destruct (deliver_keeps events emptyAlerts emptyAlerts_ok) as [[Hrows Huniq] _].
  split; [intros id r; apply Hrows|]. intros id id' r r' Hr Hr' Ho Ho' Hf.
  by apply (Huniq (rowFingerprint r') id id' r r').
Qed.

(** C6. The notifications tell the truth about the alerts. Whatever is delivered, the published
    transitions of every fingerprint alternate, an opening first, and the last of them
    tells whether the fingerprint has an open alert: none is lost, repeated or out of
    order, also when deliveries fail and are repeated. *)
Theorem alert_transitions_alternate (events : list (Surroundings * Envelope)) fingerprint :
  let db := deliver events emptyAlerts in
  replayAlert false (transitionsOf fingerprint (transitions db)) = Some (opens db fingerprint).
Proof.
  destruct (deliver_keeps events emptyAlerts emptyAlerts_ok) as [_ (ts & Ht & Hr)].
  cbv zeta. rewrite Ht, <- Hr. done.
Qed.

(** C16. A delivery refines the abstract transition function. A delivery that succeeds
    either is the newest of its resource, and then exactly the fingerprints that the
    function says are open, the failures in a row are counted as it says, and the
    event is remembered; or it is not, and then nothing changes. One that fails changes
    nothing. *)
Theorem delivery_refines_transition env e db r db'
    (Hok : tablesOk db) (Hrun : HandleOnce env e db = (r, db')) :
  match r with
  | Err _ => db' = db
  | Ok _ => tablesOk db' ∧
      if accepted db e then
        (∀ fingerprint, opens db' fingerprint = opensNext env (envelopeEvent e) db fingerprint) ∧
        streaks db' = streaksNext env (envelopeEvent e) (streaks db) ∧
        ∃ resource, eventResource (envelopeEvent e) = Some resource ∧
          versions db' = <[resource := (OccurredAt e, envelopeID e)]> (versions db)
      else
        alerts db' = alerts db ∧ streaks db' = streaks db ∧ versions db' = versions db ∧
        transitions db' = transitions db
  end.
Proof.
  destruct r as [[]|err]; [|by eapply HandleOnce_err].
  destruct (HandleOnce_ok _ _ _ _ Hok Hrun) as (Hok' & _ & Hdel). split; [done|].
  unfold delivered in Hdel. by destruct (accepted db e).
Qed.

(** An event is applied once. After a successful delivery a repetition of the
    event, and any event of the same resource that is not newer, leaves
    the alerts, the failure streaks, the versions and the notifications as they are. *)
Theorem stale_event_changes_nothing env env' e e' db db'
    (Hrun : HandleOnce env e db = (Ok (), db')) (Haccepted : accepted db e = true)
    (Hok : tablesOk db)
    (Hresource : eventResource (envelopeEvent e') = eventResource (envelopeEvent e))
    (Hstale : newer (OccurredAt e', envelopeID e') (OccurredAt e, envelopeID e) = false) :
  let db'' := (HandleOnce env' e' db').2 in
  alerts db'' = alerts db' ∧ streaks db'' = streaks db' ∧ versions db'' = versions db' ∧
  transitions db'' = transitions db'.
Proof.
  destruct (HandleOnce_ok _ _ _ _ Hok Hrun) as (_ & _ & Hdel). unfold delivered in Hdel.
  rewrite Haccepted in Hdel. destruct Hdel as (_ & _ & resource & Hres & Hv).
  unfold HandleOnce. rewrite Hresource, Hres.
  apply (ConsumeLatest_stale _ _ _ _ _ (OccurredAt e, envelopeID e)); [|done].
  by rewrite Hv, lookup_insert_eq.
Qed.

(** ** The threshold *)
Fixpoint handleAll (events : list (Surroundings * string * SourceEvent)) : Db () :=
  match events with
  | [] => st_ret ()
  | (env, eventID, event) :: events => do! Handle env eventID event in handleAll events
  end.

(** A temporary failure of a stack that was not removed. *)
Definition temporaryFailureOf (stack : string) (h : Surroundings * string * SourceEvent) : Prop :=
  stackRemoved h.1.1 stack = false ∧ failedSync h.2 = Some (stack, true).

Lemma temporaryFailure_next env event db stack :
  stackRemoved env stack = false → failedSync event = Some (stack, true) →
  let fingerprint := SyncFailedFingerprint stack in
  opensNext env event db fingerprint =
    opens db fingerprint || reaches true (nextStreak fingerprint (streaks db)) ∧
  streaksNext env event (streaks db) !! fingerprint = Some (nextStreak fingerprint (streaks db)).
Proof.
  intros Hst Hf. cbv zeta. unfold opensNext, decided, streaksNext.
  destruct event; try discriminate Hf; simpl in Hf; injection Hf as -> Htemp; simpl;
    rewrite Hst, Htemp, decide_True by done; by rewrite lookup_insert_eq.
Qed.

Lemma handleAll_failures events stack db db' n :
  tablesOk db → Forall (temporaryFailureOf stack) events →
  default 0%N (streaks db !! SyncFailedFingerprint stack) = n →
  opens db (SyncFailedFingerprint stack) = (3 <=? n)%N →
  handleAll events db = (Ok (), db') →
  default 0%N (streaks db' !! SyncFailedFingerprint stack) = (n + N.of_nat (length events))%N ∧
  opens db' (SyncFailedFingerprint stack) = (3 <=? n + N.of_nat (length events))%N.
Proof.
  intros Hok Hall. revert db n Hok. induction Hall as [|[[env eventID] event] events [Hst Hf] Hall IH];
    intros db n Hok Hn Hop Hrun; cbn [handleAll] in Hrun.
  { unfold st_ret in Hrun. simplify_eq. simpl. by rewrite N.add_0_r. }
  apply st_bind_ok in Hrun as ([] & s & Hh & Hrun). apply Handle_spec in Hh as ((Hok' & _) & Hops & Hst'); [|done].
  destruct (temporaryFailure_next env event db stack Hst Hf) as [Hnext Hstreak].
  specialize (Hops (SyncFailedFingerprint stack)). rewrite Hnext, Hop in Hops.
  rewrite <- Hst' in Hstreak. unfold nextStreak in *. rewrite Hn in *.
  destruct (IH s (n + 1)%N Hok') as [H1 H2]; [by rewrite Hstreak| |done|].
  - rewrite Hops. unfold reaches, temporaryFailureThreshold. simpl.
    destruct (N.leb_spec 3 n), (N.ltb_spec (n + 1) 3), (N.leb_spec 3 (n + 1)); simpl; try done; lia.
  - cbn [length]. rewrite Nat2N.inj_succ. replace (n + N.succ (N.of_nat (length events)))%N
      with (n + 1 + N.of_nat (length events))%N by lia. done.
Qed.

(** Temporary failures open an alert at the third in a row. From a state in which a
    stack has no open alert and no failures counted, handling temporary failures of it,
    and nothing else, counts each, and leaves an open alert exactly when there were at
    least three. *)
Theorem temporary_failures_open_at_third events stack db db'
    (Hok : tablesOk db)
    (Hfailures : Forall (temporaryFailureOf stack) events)
    (Hnone : streaks db !! SyncFailedFingerprint stack = None)
    (Hclosed : opens db (SyncFailedFingerprint stack) = false)
    (Hrun : handleAll events db = (Ok (), db')) :
  default 0%N (streaks db' !! SyncFailedFingerprint stack) = N.of_nat (length events) ∧
  opens db' (SyncFailedFingerprint stack) = bool_decide (3 ≤ length events).
Proof.
  destruct (handleAll_failures events stack db db' 0%N) as [Hc Ho]; [done|done|by rewrite Hnone|done|done|].
  rewrite N.add_0_l in Hc, Ho. split; [done|]. rewrite Ho. apply eq_bool_prop_intro.
  rewrite !Is_true_true, bool_decide_eq_true, N.leb_le. lia.
Qed.
End Safety.

(** ** An example *)
Module SafetyExample.
Import AlertExample.

Definition surroundings : Surroundings := {| clock := 7; Ready := Some true; desiredStacks := ["shop"] |}.
Definition temporaryFault : fault :=
  {| faultText := "registry unavailable"; isDeadlineExceeded := false; isUpdateDeferred := false;
     isTemporary := true |}.
Definition failure (id : string) : Envelope :=
  {| envelopeID := id; OccurredAt := 5;
     envelopeEvent := DeployFailed "d1" "shop" "c1" "apply_failed" "apply" (Some temporaryFault) [] |}.
Definition drifted (id : string) : Envelope :=
  {| envelopeID := id; OccurredAt := 5;
     envelopeEvent := ServiceDrifted "shop" "api" "c1" "replica count differs" false |}.

Lemma alert_rows_are_well_formed_witness :
  let db := deliver [(surroundings, drifted "e1")] emptyAlerts in
  size (alerts db) = 1%nat ∧ ∀ id r, alerts db !! id = Some r → rowWellFormed id r.
Proof.
  split; [by vm_compute|].
  exact (proj1 (alert_rows_are_well_formed [(surroundings, drifted "e1")])).
Defined.

Lemma alert_transitions_alternate_witness :
  let db := deliver [(surroundings, drifted "e1")] emptyAlerts in
  length (transitions db) = 1%nat ∧
  replayAlert false (transitionsOf (ServiceDriftFingerprint "shop" "api") (transitions db)) =
  Some (opens db (ServiceDriftFingerprint "shop" "api")).
Proof.
  split; [by vm_compute|].
  exact (alert_transitions_alternate [(surroundings, drifted "e1")] (ServiceDriftFingerprint "shop" "api")).
Defined.

Lemma delivery_refines_transition_witness :
  let run := HandleOnce surroundings (drifted "e1") emptyAlerts in
  run.1 = Ok () ∧ opens run.2 (ServiceDriftFingerprint "shop" "api") = true.
Proof.
  cbv zeta. destruct (HandleOnce surroundings (drifted "e1") emptyAlerts) as [r db'] eqn:Hrun.
  assert (r = Ok ()) as -> by (change r with (r, db').1; rewrite <- Hrun; by vm_compute).
  split; [done|]. destruct (delivery_refines_transition _ _ _ _ _ emptyAlerts_ok Hrun) as [_ Hdel].
  destruct Hdel as [Hops _]. cbn [snd]. rewrite Hops. by vm_compute.
Defined.

Lemma stale_event_changes_nothing_witness :
  let db := (HandleOnce surroundings (drifted "e1") emptyAlerts).2 in
  alerts (HandleOnce surroundings (drifted "e1") db).2 = alerts db.
Proof.
  cbv zeta. destruct (HandleOnce surroundings (drifted "e1") emptyAlerts) as [r db'] eqn:Hrun.
  assert (r = Ok ()) as -> by (change r with (r, db').1; rewrite <- Hrun; by vm_compute).
  exact (proj1 (stale_event_changes_nothing surroundings surroundings (drifted "e1") (drifted "e1")
    emptyAlerts db' Hrun eq_refl emptyAlerts_ok eq_refl (newer_irrefl _))).
Defined.

Definition threeFailures : list (Surroundings * string * SourceEvent) :=
  [(surroundings, "e1", envelopeEvent (failure "e1")); (surroundings, "e2", envelopeEvent (failure "e2"));
   (surroundings, "e3", envelopeEvent (failure "e3"))].

Lemma temporary_failures_open_at_third_witness :
  let run := handleAll threeFailures emptyAlerts in
  run.1 = Ok () ∧ opens run.2 (SyncFailedFingerprint "shop") = true.
Proof.
  cbv zeta. destruct (handleAll threeFailures emptyAlerts) as [r db'] eqn:Hrun.
  assert (r = Ok ()) as -> by (change r with (r, db').1; rewrite <- Hrun; by vm_compute).
  split; [done|].
  destruct (temporary_failures_open_at_third threeFailures "shop" emptyAlerts db' emptyAlerts_ok) as [_ Ho];
    [by repeat constructor|done|done|exact Hrun|]. exact Ho.
Defined.
End SafetyExample.
