(* ===== verification/DriftAlerts.v ===== *)
(** * Drift from the reconciler to the alerts

    The drift events of the stack reconciler delivered to the alert subscriber: the
    open alert of a service follows the drift flag of its stack. *)
From S2P Require Import Prelude GoStrings Config Runtime Comparison Deployments Pruner StackDrift Gopipe StackReconciler StackReconcilerSafety.
From S2P Require Import Alerts AlertStore AlertSubscriber AlertLifecycle AlertSafety.
Local Open Scope go_scope.

(** The fields of a GitOps event that the subscriber reads. *)
Definition alertEvent (e : Event) : SourceEvent :=
  match e with
  | Runtime.ConfigurationChanged previous _ => ConfigurationChanged previous
  | Runtime.GitPullFailed repository category description _ =>
      GitPullFailed repository category description
  | Runtime.GitPullSucceeded repository _ => GitPullSucceeded repository
  | Runtime.DeployPreparationFailed stack commit _ code stage text temporary =>
      DeployPreparationFailed stack commit code stage
        (Some {| faultText := text; isDeadlineExceeded := false; isUpdateDeferred := false;
                 isTemporary := temporary |})
  | Runtime.ServiceMissed stack service commit isResolved => ServiceMissed stack service commit isResolved
  | Runtime.ServiceDrifted stack service commit reason isResolved =>
      ServiceDrifted stack service commit reason isResolved
  | Runtime.ServiceDriftFixed stack service _ => ServiceDriftFixed stack service
  | _ => OtherEvent
  end.

(** What an event does to the drift alert of its service. *)
Definition driftAlertStep (open : bool) (e : Event) : bool :=
  match e with
  | Runtime.ServiceMissed _ _ _ isResolved | Runtime.ServiceDrifted _ _ _ _ isResolved =>
      if isResolved : bool then open else true
  | Runtime.ServiceDriftFixed _ _ _ => false
  | _ => open
  end.

(** A drift event of a stack. *)
Definition driftOfStack (stack : string) (e : Event) : Prop :=
  match e with
  | Runtime.ServiceMissed stack' _ _ _ | Runtime.ServiceDrifted stack' _ _ _ _
  | Runtime.ServiceDriftFixed stack' _ _ => stack' = stack
  | _ => False
  end.

Lemma string_app_inj (a b c : string) : a +:+ b = a +:+ c → b = c.
Proof. induction a as [|x a IH]; [done|]. rewrite !string_app_cons. intros [= ?]. by apply IH. Qed.

(** Within a stack the fingerprint tells the service. *)
Lemma ServiceDriftFingerprint_inj stack name name' :
  ServiceDriftFingerprint stack name = ServiceDriftFingerprint stack name' → name = name'.
Proof.
  unfold ServiceDriftFingerprint, fingerprintOf. intros Heq.
  by do 6 apply string_app_inj in Heq.
Qed.

Lemma serviceDriftEvents_stack stack commit prev h name :
  Forall (driftOfStack stack) (serviceDriftEvents stack commit prev h name).
Proof.
  unfold serviceDriftEvents. apply Forall_app. split.
  - destruct (_ && _); [|done]. apply Forall_singleton. by destruct (isMissed _).
  - destruct (_ && _); [|done]. by apply Forall_singleton.
Qed.

Lemma driftEvents_stack stack commit prev services h :
  Forall (driftOfStack stack) (driftEvents stack commit prev services h).
Proof.
  unfold driftEvents. destruct (RemainingDrift h); [|done].
  induction services as [|s services IH]; [done|]. cbn [map].
  change (mjoin (?x :: ?l)) with (x ++ mjoin l). apply Forall_app. split; [|done].
  apply serviceDriftEvents_stack.
Qed.

(** The events of a run lead the alert from the old flag to the new one. *)
Lemma serviceDriftEvents_alert stack commit prev h name :
  foldl driftAlertStep (flagged prev name) (serviceDriftEvents stack commit prev h name) =
  bool_decide (is_Some (remaining h name)).
Proof.
  unfold serviceDriftEvents, flagged.
  destruct (remaining h name) as [final|]; destruct (Drift h !! name) as [initial|];
    destruct (default false (DriftedServices prev !! name)); simpl; try done;
    by repeat (case_match; simpl).
Qed.

Section Composition.
Context `{AlertEnvironmentLaws}.

(** Every event is delivered, in order, and is the newest of its resource. *)
Fixpoint deliveredAll (events : list (Surroundings * Envelope)) (db db' : AlertDB) : Prop :=
  match events with
  | [] => db' = db
  | (env, e) :: events =>
      ∃ db1, HandleOnce env e db = (Ok (), db1) ∧ accepted db e = true ∧ deliveredAll events db1 db'
  end.

Lemma drift_event_alert env event db stack name :
  driftOfStack stack event →
  opensNext env (alertEvent event) db (ServiceDriftFingerprint stack name) =
  if aboutDrift name event
  then driftAlertStep (opens db (ServiceDriftFingerprint stack name)) event
  else opens db (ServiceDriftFingerprint stack name).
Proof.
  assert (∀ name', (if decide (ServiceDriftFingerprint stack name = ServiceDriftFingerprint stack name')
    then true else false) = bool_decide (name' = name)) as Hfp.
  { intros name'. destruct (decide _) as [Heq|Hne]; symmetry.
    - apply bool_decide_eq_true. symmetry. by apply ServiceDriftFingerprint_inj in Heq.
    - apply bool_decide_eq_false. congruence. }
  intros Hd.
  destruct event as [| | | | | |stack' name' c b|stack' name' c re b|stack' name' c]; try by destruct Hd.
  all: cbn [driftOfStack] in Hd; subst stack'; cbn [alertEvent aboutDrift driftAlertStep];
    unfold opensNext, decided; specialize (Hfp name'); destruct (bool_decide (name' = name));
    try destruct b; destruct (decide (ServiceDriftFingerprint stack name = _)); done.
Qed.

Lemma deliveredAll_drift events gitops stack name db db' :
  tablesOk db → Forall (driftOfStack stack) gitops →
  map (λ d, envelopeEvent d.2) events = map alertEvent gitops →
  deliveredAll events db db' →
  opens db' (ServiceDriftFingerprint stack name) =
  foldl driftAlertStep (opens db (ServiceDriftFingerprint stack name))
    (filter (λ e, aboutDrift name e = true) gitops).
Proof.
  revert gitops db. induction events as [|[env e] events IH]; intros [|event gitops] db Hok Hall Hmap Hdel;
    try done; [by simpl in Hdel; subst|].
  simpl in Hmap. injection Hmap as He Hmap. apply Forall_cons in Hall as [Hd Hall].
  destruct Hdel as (db1 & Hh & Hacc & Hdel).
  apply HandleOnce_ok in Hh as (Hok1 & _ & Hdl); [|done]. unfold delivered in Hdl. rewrite Hacc in Hdl.
  destruct Hdl as (Hops & _). rewrite (IH gitops db1) by done. rewrite Hops, He, filter_cons.
  rewrite (drift_event_alert env event db stack name Hd).
  destruct (decide (aboutDrift name event = true)) as [Ha|Ha]; [by rewrite Ha|].
  by apply not_true_is_false in Ha as ->.
Qed.

Context {S : Type} `{StackEnvironment S, GitOpsStore S, !GitOpsStoreLaws S} `{GopipeLaws}.

(** C9. From the reconciler to the alerts: once the drift events that a recorded run
    published are delivered, a service of the stack has an open drift alert exactly
    when the recorded state lists it as drifted, provided that the same was so
    before the run. *)
Theorem drift_alert_follows_flag now prev req (p0 p : pipelinePayload S) (s s' : S) events db db'
    (Hnames : NoDup (map desiredName (fileServices (Desired_ (input p)))))
    (Hstart : healing p0 = noHealing)
    (Hrun : runPipeline pipeline p0 = (None, p))
    (Hpersist : let result := resultStack now prev (input p) (execution p) (healing p) in
       persistResult req prev (input p) result.2 result.1 s = (Ok (), s'))
    (Hevents : ∃ gitops, published s' = published s ++ gitops ∧
       map (λ d, envelopeEvent d.2) events = map alertEvent gitops)
    (Hok : tablesOk db)
    (Hdelivered : deliveredAll events db db') :
  let stackName := Config.Name (reqStack req) in
  let stack := (resultStack now prev (input p) (execution p) (healing p)).1 in
  ∀ service, service ∈ fileServices (Desired_ (input p)) →
    let fingerprint := ServiceDriftFingerprint stackName (desiredName service) in
    opens db fingerprint = flagged prev (desiredName service) →
    opens db' fingerprint = flagged stack (desiredName service).
Proof.
  pose proof (run_results now prev p0 p Hnames Hrun Hstart) as Hres. cbv zeta in *.
  destruct (resultStack _ _ _ _ _) as [stack h]. destruct Hres as (Hfl & _). cbn [fst snd] in *.
  destruct (persistResult_ok _ _ _ _ _ _ _ Hpersist) as [_ Hpub].
  destruct Hevents as (gitops & Hgit & Hmap). rewrite Hpub in Hgit. apply app_inv_head in Hgit as <-.
  intros service Hin Hbefore. set (name := desiredName service) in *.
  assert (name ∈ map desiredName (fileServices (Desired_ (input p)))) as Hname.
  { by apply list_elem_of_fmap_2. }
  rewrite (deliveredAll_drift events _ _ name db db' Hok (driftEvents_stack _ _ _ _ _) Hmap Hdelivered).
  rewrite Hbefore, driftEvents_about by done. unfold flagged at 2. rewrite Hfl, driftFlags_lookup.
  destruct (decide _) as [[Hs _]|Hno].
  - rewrite serviceDriftEvents_alert. by destruct Hs as [m ->].
  - destruct (RemainingDrift h); [|done]. exfalso. apply Hno. by split; [eexists|].
Qed.
End Composition.

(** ** The example: a drift found and fixed in one run leaves no alert *)
Module CompositionExample.
Import StackExample AlertExample SafetyExample.

Definition envelope (id : string) (event : SourceEvent) : Surroundings * Envelope :=
  (surroundings, {| envelopeID := id; OccurredAt := 6; envelopeEvent := event |}).
Definition deliveries : list (Surroundings * Envelope) :=
  [envelope "e1" (ServiceDrifted "shop" "api" "c1" "replica count differs: desired=3 actual=1" true);
   envelope "e2" (ServiceDriftFixed "shop" "api")].

Definition afterFirst : AlertDB :=
  (HandleOnce surroundings (envelope "e1" (ServiceDrifted "shop" "api" "c1"
     "replica count differs: desired=3 actual=1" true)).2 emptyAlerts).2.
Definition afterSecond : AlertDB :=
  (HandleOnce surroundings (envelope "e2" (ServiceDriftFixed "shop" "api")).2 afterFirst).2.

Lemma deliveries_handled : deliveredAll deliveries emptyAlerts afterSecond.
Proof.
  exists afterFirst. split; [by vm_compute|]. split; [by vm_compute|].
  exists afterSecond. split; [by vm_compute|]. split; [by vm_compute|]. done.
Qed.

Definition persisted : Result string () * Cluster :=
  persistResult request emptyStack (input finish) recorded.2 recorded.1 (env finish).

Definition runEvents : list Event :=
  [Runtime.ServiceDrifted "shop" "api" "c1" "replica count differs: desired=3 actual=1" true;
   Runtime.ServiceDriftFixed "shop" "api" "c1"].

Lemma persisted_events : published persisted.2 = published (env finish) ++ runEvents.
Proof. by vm_compute. Qed.

Lemma drift_alert_follows_flag_witness :
  persisted.1 = Ok () ∧ opens afterSecond (ServiceDriftFingerprint "shop" "api") = flagged recorded.1 "api".
Proof.
  assert (persisted.1 = Ok ()) as Hok by (by vm_compute). split; [exact Hok|].
  assert (persistResult request emptyStack (input finish) recorded.2 recorded.1 (env finish) =
    (Ok (), persisted.2)) as Hpersist.
  { etrans; [exact (surjective_pairing persisted)|]. by rewrite Hok. }
  exact (drift_alert_follows_flag (H3 := Ordered.gopipe) (H4 := Ordered.gopipeLaws)
    5 emptyStack request start finish (env finish) persisted.2 deliveries emptyAlerts afterSecond
    names_distinct eq_refl finishes Hpersist
    (ex_intro _ runEvents (conj persisted_events eq_refl)) emptyAlerts_ok deliveries_handled
    api ltac:(by left) eq_refl).
Defined.
End CompositionExample.
