(* ===== verification/ResourceRotation.v ===== *)
(** * Rotation of configs and secrets ([stackloop/rotator.go],
      [stackloop/rotated_resource_cleaner.go])

    The rotator names a config or a secret after its content; the cleaner removes
    the generations of a stack that nothing needs any more. Docker behind the
    config and secret managers is the class [ResourceManagers]; SHA-256 in
    hexadecimal digits is the parameter [sha256_hex] of the rotator. A Go map that
    is ranged over is given with the order of the iteration. *)
From stdpp Require Import pretty.
From S2P Require Import Prelude GoStrings.
Local Open Scope go_scope.

(** ** Data *)

Definition StackNamespace : string := "com.docker.stack.namespace".
Definition RotatedResourceManagedLabelKey : string := "org.swarm-deploy.rotation.managed".
Definition RotatedResourceManagedLabelValue : string := "true".
Definition RotatedResourceLogicalNameLabelKey : string := "org.swarm-deploy.rotation.logical-name".

(** [compose.Config]; the content is [None] for a nil slice. *)
Record ConfigObject := {
  configName : string; configFile : string; configData : option string;
  configTemplateDriver : string; configLabels : gmap string string; configExternal : bool;
}.

(** [compose.Secret] *)
Record SecretObject := {
  secretName : string; secretFile : string; secretData : option string;
  secretDriver : string; secretDriverOpts : gmap string string; secretTemplateDriver : string;
  secretLabels : gmap string string; secretExternal : bool;
}.

(** The parts of [compose.File] the rotation reads and writes. *)
Record ObjectFile := { Configs : gmap string ConfigObject; Secrets : gmap string SecretObject }.

(** [config.ResourceRotationCleanupSpec] *)
Record ResourceRotationCleanupSpec := { KeepLast : Z; MinAge : Duration }.

(** [swarm.Config] and [swarm.Secret]; a nil map of labels reads like an empty one. *)
Record SwarmConfig := {
  ConfigID : string; ConfigName : string; ConfigCreatedAt : Time; ConfigLabels : gmap string string;
}.
Record SwarmSecret := {
  SecretID : string; SecretName : string; SecretCreatedAt : Time; SecretDriver : string;
  SecretLabels : gmap string string;
}.

(** The references of a service specification: the identifiers of its secrets and
    configs, a nil reference as [None]; a specification without a container has none. *)
Record ContainerRefs := { refSecrets : list (option string); refConfigs : list (option string) }.

(** [swarm.StackService], the fields the cleaner reads. *)
Record LiveServiceRefs := {
  liveName : string; liveFullName : string;
  liveSpec : option ContainerRefs; livePrevious : option (option ContainerRefs);
}.

(** ** The rotator *)
Section Rotator.
Context (sha256_hex : string → string).

Definition buildRotatedObjectName (stackName objectName fileValue fileBytes : string)
    (hashLength : Z) (includePath : bool) : string :=
  let hash := sha256_hex fileBytes in
  let hash := if includePath then hash +:+ sha256_hex fileValue else hash in
  let hash :=
    if bool_decide (0 < hashLength)%Z && bool_decide (hashLength < Z.of_nat (String.length hash))%Z
    then string_take (Z.to_nat hashLength) hash else hash in
  stackName +:+ "-" +:+ objectName +:+ "-" +:+ hash.

Definition isManagedRotatedResource (name objectName : string) (labels : gmap string string) : bool :=
  negb (bool_decide (name = "")) &&
  bool_decide (default "" (labels !! RotatedResourceManagedLabelKey) = RotatedResourceManagedLabelValue) &&
  bool_decide (default "" (labels !! RotatedResourceLogicalNameLabelKey) = objectName).

(** [Labels.Add], both labels of a rotated object. *)
Definition rotationLabels (objectName : string) (labels : gmap string string) : gmap string string :=
  <[RotatedResourceLogicalNameLabelKey := objectName]>
    (<[RotatedResourceManagedLabelKey := RotatedResourceManagedLabelValue]> labels).

(** The two functions that adapt a type of objects: its file, content and whether it
    is external; and the change of its name. *)
Record ObjectType (T : Type) := {
  properties : T → string * option string * bool;
  rename : T → string → string → T;
  nameOf : T → string;
  labelsOf : T → gmap string string;
}.
Arguments properties {T}.
Arguments rename {T}.
Arguments nameOf {T}.
Arguments labelsOf {T}.

Definition configType : ObjectType ConfigObject :=
  {| properties := λ c, (configFile c, configData c, configExternal c);
     rename := λ c name objectName,
       {| configName := name; configFile := configFile c; configData := configData c;
          configTemplateDriver := configTemplateDriver c;
          configLabels := rotationLabels objectName (configLabels c);
          configExternal := configExternal c |};
     nameOf := configName; labelsOf := configLabels |}.

Definition secretType : ObjectType SecretObject :=
  {| properties := λ s, (secretFile s, secretData s, secretExternal s);
     rename := λ s name objectName,
       {| secretName := name; secretFile := secretFile s; secretData := secretData s;
          secretDriver := secretDriver s; secretDriverOpts := secretDriverOpts s;
          secretTemplateDriver := secretTemplateDriver s;
          secretLabels := rotationLabels objectName (secretLabels s);
          secretExternal := secretExternal s |};
     nameOf := secretName; labelsOf := secretLabels |}.

Definition notLoaded (objectFile : string) : string :=
  "content of " +:+ objectFile +:+ " for rotation was not loaded".

Section ObjectTypes.
Context {T : Type} (kind : ObjectType T) (stackName : string) (hashLength : Z) (includePath : bool).
Implicit Types (objects : gmap string T) (order : list string).

(** The body of the loop for one object: an error, or the object and whether it changed. *)
Definition rotateObject (objectName : string) (object : T) : Result string (T * bool) :=
  let '(objectFile, fileBytes, external) := properties kind object in
  if external then Ok (object, false)
  else if bool_decide (objectFile = "") then Ok (object, false)
  else match fileBytes with
       | None => Err (notLoaded objectFile)
       | Some data =>
           let rotatedName :=
             buildRotatedObjectName stackName objectName objectFile data hashLength includePath in
           if bool_decide (objectFile = rotatedName) then Ok (object, false)
           else Ok (rename kind object rotatedName objectName, true)
       end.

Fixpoint rotateEach order objects (changed : bool) : Result string bool * gmap string T :=
  match order with
  | [] => (Ok changed, objects)
  | objectName :: order =>
      match objects !! objectName with
      | None => rotateEach order objects changed
      | Some object =>
          match rotateObject objectName object with
          | Err e => (Err e, objects)
          | Ok (object, objectChanged) =>
              rotateEach order (<[objectName := object]> objects) (objectChanged || changed)
          end
      end
  end.

Definition applyObjectTypeRotation order objects : Result string bool * gmap string T :=
  rotateEach order objects false.

(** [resolveDesiredResourceNames] for one object; [None] when it is passed over. *)
Definition desiredNameOf (objectName : string) (object : T) : Result string (option string) :=
  let '(objectFile, fileBytes, external) := properties kind object in
  if external || bool_decide (objectFile = "") then Ok None
  else if isManagedRotatedResource (nameOf kind object) objectName (labelsOf kind object)
  then Ok (Some (nameOf kind object))
  else match fileBytes with
       | None => Err (notLoaded objectFile)
       | Some data =>
           Ok (Some (buildRotatedObjectName stackName objectName objectFile data hashLength includePath))
       end.

Fixpoint resolveEach order objects (resolved : gmap string string) : Result string (gmap string string) :=
  match order with
  | [] => Ok resolved
  | objectName :: order =>
      match objects !! objectName with
      | None => resolveEach order objects resolved
      | Some object =>
          match desiredNameOf objectName object with
          | Err e => Err e
          | Ok None => resolveEach order objects resolved
          | Ok (Some name) => resolveEach order objects (<[objectName := name]> resolved)
          end
      end
  end.

Definition resolveDesiredResourceNames order objects : Result string (gmap string string) :=
  resolveEach order objects ∅.
End ObjectTypes.

(** [Rotator.Rotate]: the result and the file, changed in place. *)
Definition Rotate (configRange : gmap string ConfigObject → list string)
    (secretRange : gmap string SecretObject → list string) (file : ObjectFile)
    (stackName : string) (hashLength : Z) (includePath : bool) : Result string bool * ObjectFile :=
  match applyObjectTypeRotation configType stackName hashLength includePath
          (configRange (Configs file)) (Configs file) with
  | (Err e, cs) => (Err ("configs: " +:+ e), {| Configs := cs; Secrets := Secrets file |})
  | (Ok configsChanged, cs) =>
      match applyObjectTypeRotation secretType stackName hashLength includePath
              (secretRange (Secrets file)) (Secrets file) with
      | (Err e, ss) => (Err ("secrets: " +:+ e), {| Configs := cs; Secrets := ss |})
      | (Ok secretsChanged, ss) =>
          (Ok (secretsChanged || configsChanged), {| Configs := cs; Secrets := ss |})
      end
  end.

(** [Rotator.DesiredResourceNames] *)
Definition DesiredResourceNames (configRange : gmap string ConfigObject → list string)
    (secretRange : gmap string SecretObject → list string) (file : ObjectFile)
    (stackName : string) (hashLength : Z) (includePath : bool)
    : Result string (gmap string string * gmap string string) :=
  match resolveDesiredResourceNames configType stackName hashLength includePath
          (configRange (Configs file)) (Configs file) with
  | Err e => Err ("configs: " +:+ e)
  | Ok cs =>
      match resolveDesiredResourceNames secretType stackName hashLength includePath
              (secretRange (Secrets file)) (Secrets file) with
      | Err e => Err ("secrets: " +:+ e)
      | Ok ss => Ok (cs, ss)
      end
  end.
End Rotator.
Arguments properties {T}.
Arguments rename {T}.
Arguments nameOf {T}.
Arguments labelsOf {T}.

(** ** The cleaner *)

Record rotatedCleanupResult := { Removed : nat; Failed : nat; Skipped : nat }.
Definition noCleanup : rotatedCleanupResult := {| Removed := 0; Failed := 0; Skipped := 0 |}.
Definition addSkipped (n : nat) (r : rotatedCleanupResult) : rotatedCleanupResult :=
  {| Removed := Removed r; Failed := Failed r; Skipped := Skipped r + n |}.

Record rotatedResource := {
  resourceID : string; resourceName : string; createdAt : Time; resourceLabels_ : gmap string string;
}.

Inductive resourceType := TypeConfig | TypeSecret.
#[export] Instance resourceType_eq_dec : EqDecision resourceType.
Proof. solve_decision. Defined.
Definition typeName (t : resourceType) : string :=
  match t with TypeConfig => "config" | TypeSecret => "secret" end.

#[export] Instance rotatedResource_eq_dec : EqDecision rotatedResource.
Proof. solve_decision. Defined.

Definition mapConfigResources (configs : list SwarmConfig) : list rotatedResource :=
  map (λ c, {| resourceID := ConfigID c; resourceName := ConfigName c;
               createdAt := ConfigCreatedAt c; resourceLabels_ := ConfigLabels c |}) configs.

Definition mapSecretResources (secrets : list SwarmSecret) : list rotatedResource :=
  map (λ s, {| resourceID := SecretID s; resourceName := SecretName s;
               createdAt := SecretCreatedAt s; resourceLabels_ := SecretLabels s |})
    (filter (λ s, SecretDriver s = "") secrets).

(** A label of a resource, "" when it is absent. *)
Definition label (r : rotatedResource) (key : string) : string := default "" (resourceLabels_ r !! key).

Definition isManaged (r : rotatedResource) : bool :=
  bool_decide (label r RotatedResourceManagedLabelKey = RotatedResourceManagedLabelValue).
Definition logicalNameOf (r : rotatedResource) : string :=
  trim_space (label r RotatedResourceLogicalNameLabelKey).

Fixpoint groupEach (stackName : string) (resources : list rotatedResource)
    (groups : gmap string (list rotatedResource)) : Result string (gmap string (list rotatedResource)) :=
  match resources with
  | [] => Ok groups
  | r :: resources =>
      if negb (isManaged r) then groupEach stackName resources groups
      else if negb (bool_decide (label r StackNamespace = stackName))
      then Err ("managed resource " +:+ resourceName r +:+ " has unexpected stack namespace")
      else
        let logicalName := logicalNameOf r in
        if bool_decide (logicalName = "") || bool_decide (resourceID r = "") ||
           bool_decide (resourceName r = "") || is_zero (createdAt r)
        then Err ("managed resource " +:+ resourceName r +:+ " has incomplete ownership metadata")
        else groupEach stackName resources
               (<[logicalName := default [] (groups !! logicalName) ++ [r]]> groups)
  end.

Definition groupManagedResources (stackName : string) (resources : list rotatedResource)
    : Result string (gmap string (list rotatedResource)) :=
  groupEach stackName resources ∅.

(** The order of the generations: the newest first. *)
Definition newerGeneration (x y : rotatedResource) : bool :=
  if bool_decide (createdAt x = createdAt y) then string_lt (resourceID y) (resourceID x)
  else bool_decide (createdAt y < createdAt x)%Z.

(** [time.Time.Sub] saturates. *)
Definition timeSub (t u : Time) : Duration := Z.max (- max_int64 - 1) (Z.min max_int64 (t - u)).

Section Cleaner.
Context (policy : ResourceRotationCleanupSpec).

(** Whether the generation at index [i] is kept. *)
Definition isProtected (now : Time) (logicalName : string) (desired : gmap string string)
    (referenced : gset string) (i : nat) (r : rotatedResource) : bool :=
  let existsInDesired := bool_decide (is_Some (desired !! logicalName)) in
  (existsInDesired && bool_decide (Z.of_nat i < KeepLast policy)%Z) ||
  (existsInDesired && bool_decide (default "" (desired !! logicalName) = resourceName r)) ||
  bool_decide (resourceID r ∈ referenced) ||
  bool_decide (timeSub now (createdAt r) < MinAge policy)%Z.

Definition expiredGenerations (now : Time) (logicalName : string) (generations : list rotatedResource)
    (desired : gmap string string) (referenced : gset string) : list rotatedResource :=
  map snd
    (filter (λ ir, isProtected now logicalName desired referenced ir.1 ir.2 = false)
       (imap pair (stable_sort newerGeneration generations))).

(** [plan]; the clock is read once for every logical name. *)
Definition plan (now : string → Time) (stackName : string) (resources : list rotatedResource)
    (desired : gmap string string) (referenced : gset string) : Result string (list rotatedResource) :=
  match groupManagedResources stackName resources with
  | Err e => Err e
  | Ok groups =>
      Ok (flat_map (λ g, expiredGenerations (now g.1) g.1 g.2 desired referenced) (map_to_list groups))
  end.

(** [planType]: the plan, and whether the type was skipped. *)
Definition planType (now : string → Time) (stackName : string) (resources : list rotatedResource)
    (desired : gmap string string) (referenced : gset string) : list rotatedResource * bool :=
  match plan now stackName resources desired referenced with
  | Ok l => (l, false)
  | Err _ => ([], true)
  end.
End Cleaner.

(** *** References *)

(** The identifiers of references that are not nil, or that one has none. *)
Fixpoint addRefs (kind idName serviceName : string) (refs : list (option string)) (ids : gset string)
    : Result string (gset string) :=
  match refs with
  | [] => Ok ids
  | None :: refs => addRefs kind idName serviceName refs ids
  | Some id :: refs =>
      if bool_decide (id = "")
      then Err ("service " +:+ serviceName +:+ " has a " +:+ kind +:+ " reference without " +:+ idName)
      else addRefs kind idName serviceName refs ({[id]} ∪ ids)
  end.

Definition addServiceSpecResourceRefs (serviceName : string) (spec : option ContainerRefs)
    (ids : gset string * gset string) : Result string (gset string * gset string) :=
  match spec with
  | None => Ok ids
  | Some refs =>
      match addRefs "secret" "SecretID" serviceName (refSecrets refs) ids.1 with
      | Err e => Err e
      | Ok ss =>
          match addRefs "config" "ConfigID" serviceName (refConfigs refs) ids.2 with
          | Err e => Err e
          | Ok cs => Ok (ss, cs)
          end
      end
  end.

Fixpoint referencedEach (services : list LiveServiceRefs) (ids : gset string * gset string)
    : Result string (gset string * gset string) :=
  match services with
  | [] => Ok ids
  | s :: services =>
      match addServiceSpecResourceRefs (liveFullName s) (liveSpec s) ids with
      | Err e => Err e
      | Ok ids =>
          match addServiceSpecResourceRefs (liveFullName s +:+ " previous spec")
                  (default None (livePrevious s)) ids with
          | Err e => Err e
          | Ok ids => referencedEach services ids
          end
      end
  end.

(** [referencedResourceIDs]: the secrets and the configs in use. *)
Definition referencedResourceIDs (services : list LiveServiceRefs)
    : Result string (gset string * gset string) :=
  referencedEach services (∅, ∅).

Definition liveServicesAfterPrune (services : list LiveServiceRefs) (pruned : list string)
    : list LiveServiceRefs :=
  if bool_decide (pruned = []) then services
  else filter (λ s, liveName s ∉ pruned) services.

(** *** Removal *)
Definition rotatedResourceRemoval : Type := resourceType * rotatedResource.

(** Equal elements, two listings of one resource, are not told apart. *)
Definition removalLess (x y : rotatedResourceRemoval) : bool :=
  if bool_decide (x.1 = y.1) then string_lt (resourceID x.2) (resourceID y.2)
  else string_lt (typeName x.1) (typeName y.1).

Class ResourceManagers (S : Type) := {
  (** [List] of the manager of a type, for the managed resources of a stack. *)
  ListConfigs : string → S → Result string (list SwarmConfig) * S;
  ListSecrets : string → S → Result string (list SwarmSecret) * S;
  (** [Remove] of the manager of a type, by identifier: an error or none. *)
  Remove : resourceType → string → S → option string * S;
  (** The services of a stack, and its definition at a commit. *)
  ListStackServices : string → S → Result string (list LiveServiceRefs) * S;
  LoadDefinition : string → string → S → Result string ObjectFile * S;
}.

(** [config.ResourceRotationSpec], with the digest and the orders of iteration. *)
Record Rotation := {
  HashLength : Z; IncludePath : bool; Policy : ResourceRotationCleanupSpec;
  sha256Hex : string → string;
  configRange : gmap string ConfigObject → list string;
  secretRange : gmap string SecretObject → list string;
}.

(** A cluster with the removals that were requested of it. *)
Record Cluster (S : Type) := { cluster : S; requested : list (resourceType * string) }.
Arguments cluster {S}.
Arguments requested {S}.

Section Cleanup.
Context {S : Type} `{ResourceManagers S} (cfg : Rotation).

Fixpoint executeEach (removals : list rotatedResourceRemoval) (result : rotatedCleanupResult)
    (c : Cluster S) : rotatedCleanupResult * Cluster S :=
  match removals with
  | [] => (result, c)
  | (t, r) :: removals =>
      let '(err, s) := Remove t (resourceID r) (cluster c) in
      executeEach removals
        (match err with
         | Some _ => {| Removed := Removed result; Failed := Failed result + 1; Skipped := Skipped result |}
         | None => {| Removed := Removed result + 1; Failed := Failed result; Skipped := Skipped result |}
         end)
        {| cluster := s; requested := requested c ++ [(t, resourceID r)] |}
  end.

Definition execute (removals : list rotatedResourceRemoval) : Cluster S → rotatedCleanupResult * Cluster S :=
  executeEach removals noCleanup.

(** [clean]; the clock depends on the type and the logical name. *)
Definition clean (now : resourceType → string → Time) (stackName : string)
    (desiredConfigs desiredSecrets : gmap string string) (services : list LiveServiceRefs)
    (configs : list SwarmConfig) (secrets : list SwarmSecret) (c : Cluster S)
    : rotatedCleanupResult * Cluster S :=
  match referencedResourceIDs services with
  | Err _ => (addSkipped 1 noCleanup, c)
  | Ok (secretRefs, configRefs) =>
      let '(configPlan, configSkipped) :=
        planType (Policy cfg) (now TypeConfig) stackName (mapConfigResources configs) desiredConfigs configRefs in
      let '(secretPlan, secretSkipped) :=
        planType (Policy cfg) (now TypeSecret) stackName (mapSecretResources secrets) desiredSecrets secretRefs in
      let removals :=
        stable_sort removalLess (map (pair TypeConfig) configPlan ++ map (pair TypeSecret) secretPlan) in
      let '(result, c) := execute removals c in
      (addSkipped ((if configSkipped then 1 else 0) + (if secretSkipped then 1 else 0)) result, c)
  end.

Definition onCluster (c : Cluster S) (s : S) : Cluster S := {| cluster := s; requested := requested c |}.

(** A listing that failed is cleaned like an empty one. *)
Definition listed {A} (r : Result string (list A)) : list A := match r with Ok l => l | Err _ => [] end.

(** [Reconciler.cleanRotatedResources]: the result that is added to the payload. *)
Definition cleanRotatedResources (now : resourceType → string → Time) (stackName : string)
    (desired : ObjectFile) (services : list LiveServiceRefs) (pruned : list string) (c : Cluster S)
    : rotatedCleanupResult * Cluster S :=
  match DesiredResourceNames (sha256Hex cfg) (configRange cfg) (secretRange cfg) desired stackName
          (HashLength cfg) (IncludePath cfg) with
  | Err _ => (addSkipped 1 noCleanup, c)
  | Ok (desiredConfigs, desiredSecrets) =>
      let '(configs, s) := ListConfigs stackName (cluster c) in
      let '(secrets, s) := ListSecrets stackName s in
      let '(result, c) :=
        clean now stackName desiredConfigs desiredSecrets (liveServicesAfterPrune services pruned)
          (listed configs) (listed secrets) (onCluster c s) in
      (addSkipped ((if is_ok configs then 0 else 1) + (if is_ok secrets then 0 else 1)) result, c)
  end.

(** [Reconciler.Cleanup] *)
Definition Cleanup (now : resourceType → string → Time) (stackName commit : string) (c : Cluster S)
    : option string * Cluster S :=
  let '(loaded, s) := LoadDefinition stackName commit (cluster c) in
  match loaded with
  | Err e => (Some ("load compose for cleanup: " +:+ e), onCluster c s)
  | Ok desired =>
      let '(live, s) := ListStackServices stackName s in
      match live with
      | Err e => (Some ("list stack services for cleanup: " +:+ e), onCluster c s)
      | Ok services =>
          let '(result, c) := cleanRotatedResources now stackName desired services [] (onCluster c s) in
          (if bool_decide (0 < Failed result) || bool_decide (0 < Skipped result)
           then Some ("rotated resource cleanup incomplete: removed=" +:+ pretty (N.of_nat (Removed result)) +:+
                      " failed=" +:+ pretty (N.of_nat (Failed result)) +:+
                      " skipped=" +:+ pretty (N.of_nat (Skipped result)))
           else None, c)
      end
  end.
End Cleanup.
