(* ===== verification/ResourceCleanup.v ===== *)
(** * What the rotation and its cleanup promise

    The names that the rotator gives are the names that the cleaner keeps, and the
    cleaner requests the removal of the obsolete generations of a stack and of
    nothing else. *)
From S2P Require Import Prelude GoStrings ResourceRotation.
Local Open Scope go_scope.

(** ** The rotator *)
Definition enumerates {T} (order : list string) (m : gmap string T) : Prop :=
  NoDup order ∧ ∀ k, k ∈ order ↔ is_Some (m !! k).

Section RotatorLemmas.
Context (sha256_hex : string → string).
Context {T : Type} (kind : ObjectType T) (stackName : string) (hashLength : Z) (includePath : bool).

(** Renaming keeps the content, sets the name and adds the labels. *)
Class ObjectTypeLaws := {
  rename_properties o n a : properties kind (rename kind o n a) = properties kind o;
  rename_name o n a : nameOf kind (rename kind o n a) = n;
  rename_labels o n a : labelsOf kind (rename kind o n a) = rotationLabels a (labelsOf kind o);
  rename_twice o n a : rename kind (rename kind o n a) n a = rename kind o n a;
}.
Context `{!ObjectTypeLaws}.

Local Notation rotateObject' := (rotateObject sha256_hex kind stackName hashLength includePath).
Local Notation rotateEach' := (rotateEach sha256_hex kind stackName hashLength includePath).
Local Notation desiredNameOf' := (desiredNameOf sha256_hex kind stackName hashLength includePath).
Local Notation resolveEach' := (resolveEach sha256_hex kind stackName hashLength includePath).

Lemma rotationLabels_managed n a labels : n ≠ "" → isManagedRotatedResource n a (rotationLabels a labels) = true.
Proof.
  intros Hn. unfold isManagedRotatedResource, rotationLabels.
  rewrite lookup_insert_ne by done. rewrite !lookup_insert_eq. simpl.
  by repeat case_bool_decide.
Qed.

Lemma rotationLabels_twice a labels : rotationLabels a (rotationLabels a labels) = rotationLabels a labels.
Proof.
  unfold rotationLabels. apply map_eq. intros k. rewrite !lookup_insert. by repeat case_decide.
Qed.

Lemma built_nonempty o f d : buildRotatedObjectName sha256_hex stackName o f d hashLength includePath ≠ "".
Proof.
  unfold buildRotatedObjectName. cbv zeta. destruct stackName; simpl; [|done]. done.
Qed.

Lemma rotateEach_lookup order objects ch ch' objects' :
  NoDup order → rotateEach' order objects ch = (Ok ch', objects') →
  ∀ k, objects' !! k =
    match objects !! k with
    | Some o => if decide (k ∈ order)
                then match rotateObject' k o with Ok (o', _) => Some o' | Err _ => None end
                else Some o
    | None => None
    end ∧
  (k ∈ order → ∀ o, objects !! k = Some o → is_ok (rotateObject' k o) = true).
Proof.
  intros Hnd. revert objects ch. induction Hnd as [|a order Hna Hnd IH]; simpl; intros objects ch Hrun k.
  { inversion Hrun; subst. split; [|by intros ?%elem_of_nil].
    by destruct (objects' !! k). }
  destruct (objects !! a) as [o|] eqn:Hoa.
  - destruct (rotateObject' a o) as [[o' b]|e] eqn:Hro; [|done].
    destruct (IH _ _ Hrun k) as [Hl Hok]. destruct (decide (k = a)) as [->|Hk].
    + rewrite Hl, lookup_insert_eq, Hoa, decide_False by done.
      rewrite decide_True by (by left). rewrite Hro. split; [done|].
      intros _ o0 [= <-]. by rewrite Hro.
    + rewrite lookup_insert_ne in Hl, Hok by done. rewrite Hl. split.
      * destruct (objects !! k); [|done].
        destruct (decide (k ∈ order)) as [Hi|Hi].
        -- by rewrite decide_True by (by right).
        -- rewrite decide_False; [done|]. intros [?|?]%elem_of_cons; done.
      * intros [?|?]%elem_of_cons; [done|]. by apply Hok.
  - destruct (IH _ _ Hrun k) as [Hl Hok]. split.
    + rewrite Hl. destruct (objects !! k) as [o|] eqn:Hok'; [|done].
      assert (k ≠ a) by congruence. destruct (decide (k ∈ order)) as [Hi|Hi].
      * by rewrite decide_True by (by right).
      * rewrite decide_False; [done|]. intros [?|?]%elem_of_cons; done.
    + intros [->|?]%elem_of_cons; [intros o; congruence|by apply Hok].
Qed.

Lemma resolveEach_lookup order objects res0 res :
  NoDup order → resolveEach' order objects res0 = Ok res →
  (∀ k, k ∈ order → ∀ o, objects !! k = Some o → is_ok (desiredNameOf' k o) = true) ∧
  ∀ k, res !! k =
    match objects !! k with
    | Some o => if decide (k ∈ order)
                then match desiredNameOf' k o with Ok (Some n) => Some n | _ => res0 !! k end
                else res0 !! k
    | None => res0 !! k
    end.
Proof.
  intros Hnd. revert res0. induction Hnd as [|a order Hna Hnd IH]; simpl; intros res0 Hrun.
  { inversion Hrun; subst. split; [by intros k ?%elem_of_nil|]. intros k.
    by destruct (objects !! k). }
  assert (∀ k, k ≠ a → (k ∈ a :: order ↔ k ∈ order)) as Hin.
  { intros k Hk. rewrite elem_of_cons. naive_solver. }
  destruct (objects !! a) as [o|] eqn:Hoa.
  - destruct (desiredNameOf' a o) as [[n|]|e] eqn:Hd; [| |done];
      destruct (IH _ Hrun) as [Hok Hl]; split.
    1,3: intros k [->|Hk]%elem_of_cons o' Ho'; [|by eapply Hok];
      rewrite Hoa in Ho'; inversion Ho'; subst; by rewrite Hd.
    all: intros k; rewrite Hl; destruct (decide (k = a)) as [->|Hk].
    + rewrite Hoa, decide_False by done. rewrite decide_True by (by left). by rewrite Hd, lookup_insert_eq.
    + rewrite lookup_insert_ne by done. destruct (objects !! k); [|done].
      by rewrite (decide_ext _ _ _ _ (Hin k Hk)).
    + rewrite Hoa, decide_False by done. rewrite decide_True by (by left). by rewrite Hd.
    + destruct (objects !! k); [|done]. by rewrite (decide_ext _ _ _ _ (Hin k Hk)).
  - destruct (IH _ Hrun) as [Hok Hl]. split.
    + intros k [->|Hk]%elem_of_cons o' Ho'; [congruence|by eapply Hok].
    + intros k. rewrite Hl. destruct (objects !! k) eqn:Hk; [|done].
      assert (k ≠ a) by congruence. by rewrite (decide_ext _ _ _ _ (Hin k ltac:(done))).
Qed.

(** Resolving succeeds when every object resolves. *)
Lemma resolveEach_total order objects res0 :
  (∀ k, k ∈ order → ∀ o, objects !! k = Some o → is_ok (desiredNameOf' k o) = true) →
  ∃ res, resolveEach' order objects res0 = Ok res.
Proof.
  revert res0. induction order as [|a order IH]; simpl; intros res0 Hok; [by eexists|].
  assert (∀ res0, ∃ res, resolveEach' order objects res0 = Ok res) as Hnext.
  { intros res1. apply IH. intros k Hk. apply Hok. by right. }
  destruct (objects !! a) as [o|] eqn:Ho; [|apply Hnext].
  specialize (Hok a ltac:(by left) o Ho). destruct (desiredNameOf' a o) as [[n|]|e]; [apply Hnext..|done].
Qed.

(** An object that the rotation has passed, with its desired name. *)
Definition carriesName (k : string) (o : T) (name : option string) : Prop :=
  let '(objectFile, _, external) := properties kind o in
  match name with
  | None => external = true ∨ objectFile = ""
  | Some n => external = false ∧ objectFile ≠ "" ∧
      (objectFile = n ∨ nameOf kind o = n ∧ isManagedRotatedResource n k (labelsOf kind o) = true)
  end.

Definition unrotated (objects : gmap string T) : Prop :=
  ∀ k o, objects !! k = Some o →
    isManagedRotatedResource (nameOf kind o) k (labelsOf kind o) = false.

Lemma rotateObject_spec k o o' b :
  isManagedRotatedResource (nameOf kind o) k (labelsOf kind o) = false →
  rotateObject' k o = Ok (o', b) →
  (∃ b', rotateObject' k o' = Ok (o', b')) ∧
  ∃ name, desiredNameOf' k o = Ok name ∧ desiredNameOf' k o' = Ok name ∧ carriesName k o' name.
Proof.
  intros Hfresh. unfold rotateObject, desiredNameOf, carriesName.
  destruct (properties kind o) as [[f data] external] eqn:Hp. destruct external.
  { intros [= <- <-]. rewrite Hp. simpl. split; [by eexists|]. exists None. auto. }
  case_bool_decide as Hf.
  { intros [= <- <-]. rewrite Hp. simpl. rewrite bool_decide_eq_true_2 by done.
    split; [by eexists|]. exists None. auto. }
  destruct data as [d|]; [|done]. simpl. rewrite Hfresh.
  set (n := buildRotatedObjectName sha256_hex stackName k f d hashLength includePath).
  case_bool_decide as Hn; intros [= <- <-].
  - rewrite Hp, Hfresh. simpl. rewrite bool_decide_eq_false_2 by done.
    rewrite bool_decide_eq_true_2 by done. split; [by eexists|]. exists (Some n).
    split; [done|]. split; [done|]. auto.
  - assert (isManagedRotatedResource n k (rotationLabels k (labelsOf kind o)) = true) as Hm
      by apply rotationLabels_managed, built_nonempty.
    rewrite rename_properties, rename_name, rename_labels, Hp. simpl.
    rewrite bool_decide_eq_false_2 by done. rewrite bool_decide_eq_false_2 by done.
    split; [eexists; fold n; by rewrite rename_twice|].
    exists (Some n). rewrite Hm. do 4 (split; [done|]). by right.
Qed.

(** The rotation of all the objects of a type. *)
Lemma rotation_spec order order' objects ch objects' :
  enumerates order objects → enumerates order' objects' → unrotated objects →
  applyObjectTypeRotation sha256_hex kind stackName hashLength includePath order objects =
    (Ok ch, objects') →
  (applyObjectTypeRotation sha256_hex kind stackName hashLength includePath order' objects').2 = objects' ∧
  ∃ names,
    resolveDesiredResourceNames sha256_hex kind stackName hashLength includePath order objects = Ok names ∧
    resolveDesiredResourceNames sha256_hex kind stackName hashLength includePath order' objects' = Ok names ∧
    ∀ k o, objects' !! k = Some o → carriesName k o (names !! k).
Proof.
  intros [Hnd Ho] [Hnd' Ho'] Hfresh Hrun.
  pose proof (rotateEach_lookup _ _ _ _ _ Hnd Hrun) as Hl.
  assert (∀ k o', objects' !! k = Some o' → ∃ o, objects !! k = Some o ∧
    (∃ b, rotateObject' k o' = Ok (o', b)) ∧
    ∃ name, desiredNameOf' k o = Ok name ∧ desiredNameOf' k o' = Ok name ∧ carriesName k o' name) as Hobj.
  { intros k o' Hk. destruct (Hl k) as [Hlk Hok]. rewrite Hlk in Hk.
    destruct (objects !! k) as [o|] eqn:Hko; [|done].
    rewrite decide_True in Hk by (apply Ho; by rewrite Hko).
    destruct (rotateObject' k o) as [[o1 b]|] eqn:Hro; [|done]. inversion Hk; subst o1.
    exists o. split; [done|]. by eapply rotateObject_spec; [apply Hfresh|]. }
  assert (∀ k, is_Some (objects' !! k) ↔ is_Some (objects !! k)) as Hdom.
  { intros k. destruct (Hl k) as [Hlk Hok]. split.
    - intros [o' Hk]. destruct (Hobj _ _ Hk) as (o & -> & _). by eexists.
    - intros [o Hk]. rewrite Hlk, Hk, decide_True by (apply Ho; by rewrite Hk).
      specialize (Hok (proj2 (Ho k) ltac:(by rewrite Hk)) o Hk).
      destruct (rotateObject' k o) as [[o1 b]|]; [by eexists|done]. }
  assert (∃ names, resolveEach' order objects ∅ = Ok names) as [names Hnames].
  { apply resolveEach_total. intros k Hk o Hko. destruct (proj2 (Hdom k) ltac:(by rewrite Hko)) as [o' Hk'].
    destruct (Hobj _ _ Hk') as (o1 & Ho1 & _ & name & Hd & _).
    rewrite Hko in Ho1. inversion Ho1; subst. by rewrite Hd. }
  assert (∃ names', resolveEach' order' objects' ∅ = Ok names') as [names' Hnames'].
  { apply resolveEach_total. intros k Hk o Hko.
    destruct (Hobj _ _ Hko) as (o1 & _ & _ & name & _ & Hd & _). by rewrite Hd. }
  destruct (resolveEach_lookup _ _ _ _ Hnd Hnames) as [_ HN].
  destruct (resolveEach_lookup _ _ _ _ Hnd' Hnames') as [_ HN'].
  assert (∀ k o', objects' !! k = Some o' → names !! k = names' !! k ∧ carriesName k o' (names !! k)) as Hsame.
  { intros k o' Hk. destruct (Hobj _ _ Hk) as (o & Hko & _ & name & Hd & Hd' & Hc).
    assert (k ∈ order) by (apply Ho; by rewrite Hko).
    assert (k ∈ order') by (apply Ho'; by rewrite Hk).
    rewrite HN, HN', Hko, Hk, !decide_True, Hd, Hd' by done. destruct name; simpl; auto. }
  split; [|exists names; split; [done|]; split; [|intros k o Hk; by apply Hsame]].
  - destruct (applyObjectTypeRotation _ _ _ _ _ order' objects') as [r o2] eqn:Hr. simpl.
    unfold applyObjectTypeRotation in Hr.
    assert (∀ ord ch0 r o2, rotateEach' ord objects' ch0 = (r, o2) → o2 = objects') as Hkeep.
    { induction ord as [|a ord IH]; simpl; intros ch0 r1 o3 Hr1; [by inversion Hr1|].
      destruct (objects' !! a) as [o'|] eqn:Ha; [|by eapply IH].
      destruct (Hobj _ _ Ha) as (o & _ & (b & Hb) & _). rewrite Hb, insert_id in Hr1 by done.
      by eapply IH. }
    by eapply Hkeep.
  - unfold resolveDesiredResourceNames. rewrite Hnames'. f_equal. apply map_eq. intros k.
    destruct (objects' !! k) as [o'|] eqn:Hk; [symmetry; by eapply Hsame|].
    rewrite HN, HN', Hk. destruct (objects !! k) as [o|] eqn:Hko; [|done].
    destruct (proj2 (Hdom k)); [by rewrite Hko|congruence].
Qed.
End RotatorLemmas.

#[export] Instance configType_laws : ObjectTypeLaws configType.
Proof. split; try done. intros o n a. unfold rename, configType. f_equal. apply rotationLabels_twice. Qed.
#[export] Instance secretType_laws : ObjectTypeLaws secretType.
Proof. split; try done. intros o n a. unfold rename, secretType. f_equal. apply rotationLabels_twice. Qed.

(** The rotator and the cleaner agree on names. When the rotation of a definition that
    is not rotated yet succeeds, the names that the cleaner keeps are the same before
    and after it; every object with local content that is not external has one,
    and carries it together with the labels of its logical name, unless its
    file has that name; the other objects have none. Rotating again changes nothing. *)
Theorem rotated_names_are_desired sha256_hex configRange secretRange file stackName hashLength
    includePath changed file'
    (Hconfigs : ∀ m, enumerates (configRange m) m) (Hsecrets : ∀ m, enumerates (secretRange m) m)
    (Hfresh : unrotated configType (Configs file) ∧ unrotated secretType (Secrets file))
    (Hrun : Rotate sha256_hex configRange secretRange file stackName hashLength includePath =
              (Ok changed, file')) :
  ∃ configs secrets,
    DesiredResourceNames sha256_hex configRange secretRange file stackName hashLength includePath =
      Ok (configs, secrets) ∧
    DesiredResourceNames sha256_hex configRange secretRange file' stackName hashLength includePath =
      Ok (configs, secrets) ∧
    (∀ k c, Configs file' !! k = Some c → carriesName configType k c (configs !! k)) ∧
    (∀ k s, Secrets file' !! k = Some s → carriesName secretType k s (secrets !! k)) ∧
    (Rotate sha256_hex configRange secretRange file' stackName hashLength includePath).2 = file'.
Proof.
  unfold Rotate in Hrun. destruct Hfresh as [Hfc Hfs].
  destruct (applyObjectTypeRotation _ configType _ _ _ _ _) as [[ch|e] cs] eqn:Hc; [|done].
  destruct (applyObjectTypeRotation _ secretType _ _ _ _ _) as [[ch'|e] ss] eqn:Hs; [|done].
  inversion Hrun; subst changed file'. simpl.
  destruct (rotation_spec _ _ _ _ _ _ (configRange cs) _ _ _ (Hconfigs _) (Hconfigs _) Hfc Hc)
    as (Hagain & configs & Hn & Hn' & Hcar).
  destruct (rotation_spec _ _ _ _ _ _ (secretRange ss) _ _ _ (Hsecrets _) (Hsecrets _) Hfs Hs)
    as (Hagain' & secrets & Hm & Hm' & Hcar').
  exists configs, secrets. unfold DesiredResourceNames, Rotate. simpl. rewrite Hn, Hm, Hn', Hm'.
  do 4 (split; [done|]).
  destruct (applyObjectTypeRotation _ configType _ _ _ _ cs) as [[?|?] cs2]; simpl in Hagain; subst cs2; [|done].
  by destruct (applyObjectTypeRotation _ secretType _ _ _ _ ss) as [[?|?] ss2]; simpl in Hagain'; subst ss2.
Qed.

(** ** The cleaner *)

(** The managed generations of a logical name. *)
Definition generationsOf (resources : list rotatedResource) (logicalName : string) : list rotatedResource :=
  filter (λ r, isManaged r = true ∧ logicalNameOf r = logicalName) resources.

(** How many generations of its logical name are newer than a resource. *)
Definition newerCount (resources : list rotatedResource) (r : rotatedResource) : nat :=
  length (filter (λ x, newerGeneration x r = true) (generationsOf resources (logicalNameOf r))).

(** Every managed resource names its stack and is completely described. *)
Definition ownershipKnown (stackName : string) (resources : list rotatedResource) : Prop :=
  ∀ r, r ∈ resources → isManaged r = true →
    label r StackNamespace = stackName ∧ logicalNameOf r ≠ "" ∧ resourceID r ≠ "" ∧
    resourceName r ≠ "" ∧ createdAt r ≠ time_zero.

(** A managed resource that nothing needs: no service uses it, it is old enough, and it is
    neither the desired generation nor among the newest of a name that is still desired. *)
Definition obsolete (policy : ResourceRotationCleanupSpec) (now : string → Time)
    (resources : list rotatedResource) (desired : gmap string string) (inUse : string → Prop)
    (r : rotatedResource) : Prop :=
  isManaged r = true ∧ ¬ inUse (resourceID r) ∧
  (MinAge policy ≤ timeSub (now (logicalNameOf r)) (createdAt r))%Z ∧
  ∀ name, desired !! logicalNameOf r = Some name →
    name ≠ resourceName r ∧ (KeepLast policy ≤ Z.of_nat (newerCount resources r))%Z.

Lemma newerGeneration_irrefl x : newerGeneration x x = false.
Proof.
  unfold newerGeneration. rewrite bool_decide_eq_true_2 by done. unfold string_lt.
  apply bool_decide_eq_false_2. by intros [_ ?].
Qed.

Lemma newerGeneration_eq x y :
  createdAt x = createdAt y → newerGeneration x y = string_lt (resourceID y) (resourceID x).
Proof. intros Heq. unfold newerGeneration. by rewrite bool_decide_eq_true_2. Qed.

Lemma newerGeneration_ne x y :
  createdAt x ≠ createdAt y → newerGeneration x y = true ↔ (createdAt y < createdAt x)%Z.
Proof. intros Hne. unfold newerGeneration. rewrite bool_decide_eq_false_2 by done. apply bool_decide_eq_true. Qed.

Lemma newerGeneration_total x y :
  resourceID x ≠ resourceID y → newerGeneration x y = false → newerGeneration y x = true.
Proof.
  intros Hne. destruct (decide (createdAt x = createdAt y)) as [Heq|Heq].
  - rewrite !newerGeneration_eq by done. apply string_lt_trichotomy. by apply not_eq_sym.
  - rewrite <- not_true_iff_false, !newerGeneration_ne by congruence. lia.
Qed.

Lemma newerGeneration_asym x y : newerGeneration x y = true → newerGeneration y x = false.
Proof.
  destruct (decide (createdAt x = createdAt y)) as [Heq|Heq].
  - rewrite !newerGeneration_eq by done. apply string_lt_asym.
  - rewrite <- not_true_iff_false, !newerGeneration_ne by congruence. lia.
Qed.

Lemma newerGeneration_cotrans x y z :
  newerGeneration x z = true → newerGeneration x y = true ∨ newerGeneration y z = true.
Proof.
  destruct (decide (createdAt x = createdAt y)) as [Hxy|Hxy];
  destruct (decide (createdAt y = createdAt z)) as [Hyz|Hyz].
  - rewrite !newerGeneration_eq by congruence. intros. apply or_comm. by apply string_lt_cotrans.
  - rewrite !(newerGeneration_ne _ z) by congruence. rewrite Hxy. by right.
  - rewrite !(newerGeneration_ne x) by congruence. rewrite Hyz. by left.
  - rewrite (newerGeneration_ne x y), (newerGeneration_ne y z) by done.
    destruct (decide (createdAt x = createdAt z)); [lia|]. rewrite newerGeneration_ne by done. lia.
Qed.

(** *** Grouping *)
Lemma groupEach_spec stackName resources groups :
  match groupEach stackName resources groups with
  | Ok groups' => ownershipKnown stackName resources ∧
      (∀ n, default [] (groups' !! n) = default [] (groups !! n) ++ generationsOf resources n)
  | Err _ => ¬ ownershipKnown stackName resources
  end.
Proof.
  revert groups. induction resources as [|r resources IH]; simpl; intros groups.
  { split; [by intros r ?%elem_of_nil|]. intros n. by rewrite app_nil_r. }
  assert (∀ P, P → ownershipKnown stackName resources →
    (isManaged r = true → label r StackNamespace = stackName ∧ logicalNameOf r ≠ "" ∧ resourceID r ≠ "" ∧
     resourceName r ≠ "" ∧ createdAt r ≠ time_zero) → ownershipKnown stackName (r :: resources) ∧ P) as Hcons.
  { intros P HP Hown Hr. split; [|done]. intros r' [->|Hin]%elem_of_cons; [done|by apply Hown]. }
  assert (ownershipKnown stackName (r :: resources) → ownershipKnown stackName resources) as Htail.
  { intros Hown r' Hin. apply Hown. by right. }
  destruct (isManaged r) eqn:Hm; simpl.
  - case_bool_decide as Hns; simpl.
    2:{ intros Hown. destruct (Hown r ltac:(by left) Hm) as [? _]. done. }
    destruct (bool_decide (logicalNameOf r = "") || bool_decide (resourceID r = "") ||
              bool_decide (resourceName r = "") || is_zero (createdAt r)) eqn:Hmeta.
    { intros Hown. destruct (Hown r ltac:(by left) Hm) as (_ & Hln & Hid & Hn & Hc).
      unfold is_zero in Hmeta. rewrite !bool_decide_eq_false_2 in Hmeta by done. done. }
    repeat apply orb_false_iff in Hmeta as [Hmeta ?]. unfold is_zero in *. 
    repeat match goal with H : bool_decide _ = false |- _ => apply bool_decide_eq_false_1 in H end.
    specialize (IH (<[logicalNameOf r := default [] (groups !! logicalNameOf r) ++ [r]]> groups)).
    destruct (groupEach _ resources _) as [groups'|e]; [|by intros ?%Htail].
    destruct IH as [Hown IH]. refine (Hcons _ _ Hown _); [|by repeat split]. intros n. rewrite IH. unfold generationsOf.
    destruct (decide (n = logicalNameOf r)) as [->|Hn].
    + rewrite lookup_insert_eq, filter_cons_True by done. simpl. by rewrite <- app_assoc.
    + rewrite lookup_insert_ne, filter_cons_False by (try done; by intros [_ ?]). done.
  - specialize (IH groups). destruct (groupEach _ resources _) as [groups'|e]; [|by intros ?%Htail].
    destruct IH as [Hown IH]. refine (Hcons _ _ Hown _); [|congruence]. intros n. rewrite IH. unfold generationsOf.
    rewrite filter_cons_False; [done|]. intros [? _]. congruence.
Qed.

(** *** Planning *)
Section Plan.
Context (policy : ResourceRotationCleanupSpec) (now : string → Time) (stackName : string).
Context (resources : list rotatedResource) (desired : gmap string string) (referenced : gset string).
Hypothesis Hids : NoDup (map resourceID resources).

Lemma generationsOf_NoDup n : NoDup (generationsOf resources n).
Proof. apply NoDup_filter. by eapply (NoDup_fmap_1 resourceID). Qed.

Lemma resource_by_id r r' : r ∈ resources → r' ∈ resources → resourceID r = resourceID r' → r = r'.
Proof.
  intros [i Hi]%list_elem_of_lookup_1 [j Hj]%list_elem_of_lookup_1 Heq.
  assert (i = j) as <-; [|congruence].
  eapply (NoDup_lookup (resourceID <$> resources)); [done| |];
    rewrite list_lookup_fmap_Some; eauto.
Qed.

(** Without the list: the conditions that keep a generation. *)
Lemma expiredGenerations_spec n r :
  r ∈ expiredGenerations policy (now n) n (generationsOf resources n) desired referenced ↔
  r ∈ generationsOf resources n ∧
  ¬ resourceID r ∈ referenced ∧ (MinAge policy ≤ timeSub (now n) (createdAt r))%Z ∧
  ∀ name, desired !! n = Some name →
    name ≠ resourceName r ∧ (KeepLast policy ≤ Z.of_nat (newerCount resources r))%Z.
Proof.
  pose proof (stable_sort_sorted newerGeneration newerGeneration_asym newerGeneration_cotrans
    (generationsOf resources n)) as Hsorted.
  pose proof (stable_sort_perm newerGeneration (generationsOf resources n)) as Hperm.
  assert (∀ i, stable_sort newerGeneration (generationsOf resources n) !! i = Some r →
    r ∈ generationsOf resources n ∧ i = newerCount resources r) as Hrank.
  { intros i Hi. assert (r ∈ generationsOf resources n) as Hr.
    { rewrite <- Hperm. by eapply list_elem_of_lookup_2. }
    split; [done|]. apply list_elem_of_filter in Hr as Hr'. destruct Hr' as [[_ Hn] Hin].
    unfold newerCount. rewrite Hn, <- Hperm. symmetry.
    apply (sorted_rank newerGeneration); [done|rewrite Hperm; apply generationsOf_NoDup
      |apply newerGeneration_irrefl| |done].
    intros y Hy Hne. rewrite Hperm in Hy. apply list_elem_of_filter in Hy as [_ Hy].
    apply newerGeneration_total. intros Heq. apply Hne. symmetry. by apply resource_by_id. }
  unfold expiredGenerations. rewrite list_elem_of_fmap. setoid_rewrite list_elem_of_filter.
  setoid_rewrite elem_of_lookup_imap. unfold isProtected. split.
  - intros ([i r'] & Heq & Hp & j & y & [= -> ->] & Hj). simpl in *. subst y.
    destruct (Hrank j Hj) as [Hr Hi]. split; [by apply list_elem_of_filter in Hr|].
    apply orb_false_iff in Hp as [Hp Hage]. apply orb_false_iff in Hp as [Hp Hused].
    apply orb_false_iff in Hp as [Hkeep Hname].
    apply bool_decide_eq_false_1 in Hage, Hused. split; [done|]. split; [lia|]. intros name Hd.
    rewrite Hd, bool_decide_eq_true_2 in Hkeep, Hname by (by eexists). simpl in *.
    apply bool_decide_eq_false_1 in Hkeep, Hname. rewrite <- Hi. split; [done|lia].
  - intros (Hr & Hused & Hage & Hd). assert (r ∈ stable_sort newerGeneration (generationsOf resources n)) as Hs
      by (rewrite Hperm; by apply list_elem_of_filter).
    apply list_elem_of_lookup_1 in Hs as [i Hi]. exists (i, r). split; [done|]. split; [|by exists i, r].
    destruct (Hrank i Hi) as [_ ->]. simpl. rewrite (bool_decide_eq_false_2 (_ ∈ _)), (bool_decide_eq_false_2 (_ < MinAge _)%Z) by (done || lia).
    destruct (desired !! n) as [name|]; [|done]. destruct (Hd name eq_refl) as [Hname Hkeep].
    simpl. by rewrite !bool_decide_eq_false_2 by (done || lia).
Qed.

Lemma expiredGenerations_NoDup n :
  NoDup (map resourceID (expiredGenerations policy (now n) n (generationsOf resources n) desired referenced)).
Proof.
  unfold expiredGenerations. rewrite map_map.
  set (l := stable_sort newerGeneration (generationsOf resources n)).
  assert (NoDup (map resourceID l)) as Hl.
  { unfold l. rewrite stable_sort_perm. unfold generationsOf. eapply sublist_NoDup; [exact Hids|].
    apply map_sublist, sublist_filter. }
  eapply sublist_NoDup; [exact Hl|].
  trans (map (λ x, resourceID x.2) (imap (@pair nat rotatedResource) l)).
  - apply map_sublist, sublist_filter.
  - erewrite (fmap_imap pair (λ x, resourceID x.2)). erewrite (imap_const resourceID). done.
Qed.

Lemma flat_map_ids (F : string * list rotatedResource → list rotatedResource) L :
  NoDup L.*1 →
  (∀ g, g ∈ L → NoDup (map resourceID (F g)) ∧ ∀ r, r ∈ F g → r ∈ resources ∧ logicalNameOf r = g.1) →
  NoDup (map resourceID (flat_map F L)).
Proof.
  induction L as [|g L IH]; simpl; intros Hnd HF; [constructor|].
  apply NoDup_cons in Hnd as [Hg Hnd]. rewrite map_app. apply NoDup_app.
  split; [apply HF; by left|]. split; [|apply IH; [done|]; intros; apply HF; by right].
  intros i Hi Hi'. apply list_elem_of_fmap in Hi as (r & -> & Hr).
  apply list_elem_of_fmap in Hi' as (r' & Heq & Hr'). apply list_elem_of_In, in_flat_map in Hr' as (g' & Hg' & Hr').
  apply list_elem_of_In in Hg', Hr'.
  destruct (proj2 (HF g ltac:(by left)) r Hr) as [Hin Hn].
  destruct (proj2 (HF g' ltac:(by right)) r' Hr') as [Hin' Hn'].
  apply Hg. assert (r = r') as -> by by apply resource_by_id.
  rewrite <- Hn, Hn'. by apply list_elem_of_fmap_2.
Qed.

Lemma plan_spec :
  match plan policy now stackName resources desired referenced with
  | Err _ => ¬ ownershipKnown stackName resources
  | Ok l => ownershipKnown stackName resources ∧ NoDup (map resourceID l) ∧
      ∀ r, r ∈ l ↔ r ∈ resources ∧ obsolete policy now resources desired (λ i, i ∈ referenced) r
  end.
Proof.
  unfold plan, groupManagedResources. pose proof (groupEach_spec stackName resources ∅) as Hg.
  destruct (groupEach stackName resources ∅) as [groups|e]; [|done]. destruct Hg as [Hown Hg].
  assert (∀ n gens, groups !! n = Some gens → gens = generationsOf resources n) as Hgens.
  { intros n gens Hn. specialize (Hg n). by rewrite Hn, lookup_empty in Hg. }
  split; [done|]. split.
  - apply flat_map_ids; [apply NoDup_fst_map_to_list|]. intros [n gens] Hin.
    apply elem_of_map_to_list in Hin. rewrite (Hgens _ _ Hin). simpl.
    split; [apply expiredGenerations_NoDup|]. intros r Hr.
    apply expiredGenerations_spec in Hr as [Hr _]. apply list_elem_of_filter in Hr. naive_solver.
  - intros r. rewrite list_elem_of_In, in_flat_map. setoid_rewrite <- list_elem_of_In. split.
    + intros ([n gens] & Hin & Hr). apply elem_of_map_to_list in Hin. simpl in Hr.
      rewrite (Hgens _ _ Hin) in Hr. apply expiredGenerations_spec in Hr as (Hr & Hrest).
      apply list_elem_of_filter in Hr as [[Hm <-] Hr]. split; [done|]. split; [done|]. exact Hrest.
    + intros (Hr & Hm & Hrest). set (n := logicalNameOf r) in *.
      assert (r ∈ generationsOf resources n) as Hrg by by apply list_elem_of_filter.
      exists (n, generationsOf resources n). split.
      * apply elem_of_map_to_list. specialize (Hg n). rewrite lookup_empty in Hg. simpl in Hg.
        destruct (groups !! n) as [gens|]; simpl in Hg; [by rewrite Hg|].
        rewrite <- Hg in Hrg. by apply elem_of_nil in Hrg.
      * simpl. apply expiredGenerations_spec. split; [done|]. exact Hrest.
Qed.
End Plan.

(** *** References *)
Definition specRefs (t : resourceType) (spec : option ContainerRefs) : list (option string) :=
  match spec with
  | None => []
  | Some refs => match t with TypeConfig => refConfigs refs | TypeSecret => refSecrets refs end
  end.

(** The current and the previous specification of a service. *)
Definition specsOf (s : LiveServiceRefs) : list (option ContainerRefs) :=
  [liveSpec s; default None (livePrevious s)].

(** A service of the stack refers to a resource, now or after a rollback. *)
Definition refersTo (services : list LiveServiceRefs) (t : resourceType) (i : string) : Prop :=
  ∃ s spec, s ∈ services ∧ spec ∈ specsOf s ∧ Some i ∈ specRefs t spec.

(** A reference without an identifier. *)
Definition incomplete (services : list LiveServiceRefs) : Prop :=
  refersTo services TypeConfig "" ∨ refersTo services TypeSecret "".

Lemma addRefs_spec kind idName name refs ids :
  match addRefs kind idName name refs ids with
  | Ok ids' => ¬ Some "" ∈ refs ∧ ∀ i, i ∈ ids' ↔ i ∈ ids ∨ Some i ∈ refs
  | Err _ => Some "" ∈ refs
  end.
Proof.
  revert ids. induction refs as [|[i|] refs IH]; simpl; intros ids; [set_solver| |].
  - case_bool_decide as Hi; [subst; by left|].
    specialize (IH ({[i]} ∪ ids)). destruct (addRefs _ _ _ refs _); set_solver.
  - specialize (IH ids). destruct (addRefs _ _ _ refs ids); set_solver.
Qed.

Lemma addServiceSpecResourceRefs_spec name spec ids :
  match addServiceSpecResourceRefs name spec ids with
  | Ok ids' => ¬ Some "" ∈ specRefs TypeSecret spec ∧ ¬ Some "" ∈ specRefs TypeConfig spec ∧
      (∀ i, i ∈ ids'.1 ↔ i ∈ ids.1 ∨ Some i ∈ specRefs TypeSecret spec) ∧
      (∀ i, i ∈ ids'.2 ↔ i ∈ ids.2 ∨ Some i ∈ specRefs TypeConfig spec)
  | Err _ => Some "" ∈ specRefs TypeSecret spec ∨ Some "" ∈ specRefs TypeConfig spec
  end.
Proof.
  destruct spec as [refs|]; simpl; [|set_solver].
  pose proof (addRefs_spec "secret" "SecretID" name (refSecrets refs) ids.1) as H1.
  destruct (addRefs "secret" _ _ _ _) as [ss|]; [|by left].
  pose proof (addRefs_spec "config" "ConfigID" name (refConfigs refs) ids.2) as H2.
  destruct (addRefs "config" _ _ _ _) as [cs|]; [|by right]. naive_solver.
Qed.

Lemma refersTo_cons s services t i :
  refersTo (s :: services) t i ↔
  Some i ∈ specRefs t (liveSpec s) ∨ Some i ∈ specRefs t (default None (livePrevious s)) ∨
  refersTo services t i.
Proof.
  unfold refersTo. split.
  - intros (s' & spec & [->|Hs]%elem_of_cons & Hspec & Hi); [|naive_solver].
    unfold specsOf in Hspec. apply elem_of_cons in Hspec as [->|Hspec]; [by left|].
    apply list_elem_of_singleton in Hspec as ->. by right; left.
  - unfold specsOf. intros [Hi|[Hi|(s' & spec & Hs & Hspec & Hi)]].
    + exists s, (liveSpec s). split; [by left|]. split; [by left|done].
    + exists s, (default None (livePrevious s)). split; [by left|]. split; [right; by left|done].
    + exists s', spec. split; [by right|done].
Qed.

Lemma referencedEach_spec services ids :
  match referencedEach services ids with
  | Ok ids' => ¬ incomplete services ∧
      (∀ i, i ∈ ids'.1 ↔ i ∈ ids.1 ∨ refersTo services TypeSecret i) ∧
      (∀ i, i ∈ ids'.2 ↔ i ∈ ids.2 ∨ refersTo services TypeConfig i)
  | Err _ => incomplete services
  end.
Proof.
  revert ids. induction services as [|s services IH]; simpl; intros ids.
  { assert (∀ t i, ¬ refersTo [] t i) as Hnil by (intros t i (? & ? & ?%elem_of_nil & _); done).
    unfold incomplete. naive_solver. }
  assert (incomplete (s :: services) ↔
    (Some "" ∈ specRefs TypeSecret (liveSpec s) ∨ Some "" ∈ specRefs TypeConfig (liveSpec s)) ∨
    (Some "" ∈ specRefs TypeSecret (default None (livePrevious s)) ∨
     Some "" ∈ specRefs TypeConfig (default None (livePrevious s))) ∨ incomplete services) as Hi.
  { unfold incomplete. rewrite !refersTo_cons. tauto. }
  pose proof (addServiceSpecResourceRefs_spec (liveFullName s) (liveSpec s) ids) as H1.
  destruct (addServiceSpecResourceRefs _ (liveSpec s) ids) as [ids1|]; [|apply Hi; tauto].
  pose proof (addServiceSpecResourceRefs_spec (liveFullName s +:+ " previous spec")
    (default None (livePrevious s)) ids1) as H2.
  destruct (addServiceSpecResourceRefs _ (default None (livePrevious s)) ids1) as [ids2|];
    [|apply Hi; tauto].
  specialize (IH ids2). destruct (referencedEach services ids2) as [ids3|]; [|apply Hi; tauto].
  destruct H1 as (? & ? & H1s & H1c), H2 as (? & ? & H2s & H2c), IH as (Hinc & IHs & IHc).
  split; [tauto|]. split; intros i; rewrite refersTo_cons.
  - rewrite IHs, H2s, H1s. tauto.
  - rewrite IHc, H2c, H1c. tauto.
Qed.

(** *** Removal *)
Section Removal.
Context {S : Type} `{ResourceManagers S} (cfg : Rotation).

Lemma executeEach_spec removals result (c : Cluster S) :
  let '(result', c') := executeEach removals result c in
  requested c' = requested c ++ map (λ x, (x.1, resourceID x.2)) removals ∧
  Removed result' + Failed result' = Removed result + Failed result + length removals ∧
  Skipped result' = Skipped result.
Proof.
  revert result c. induction removals as [|[t r] removals IH]; simpl; intros result c.
  { rewrite app_nil_r. split; [done|]. split; [lia|done]. }
  destruct (Remove t (resourceID r) (cluster c)) as [err s].
  set (result1 := match err with Some _ => _ | None => _ end).
  specialize (IH result1 {| cluster := s; requested := requested c ++ [(t, resourceID r)] |}).
  destruct (executeEach removals result1 _) as [result' c']. simpl in IH.
  destruct IH as (Hreq & Hcount & Hskip). rewrite Hreq, <- app_assoc. split; [done|].
  split; [|rewrite Hskip; by destruct err]. rewrite Hcount. destruct err; simpl; lia.
Qed.

Lemma obsolete_iff policy now resources desired (P Q : string → Prop) r :
  (∀ i, P i ↔ Q i) → obsolete policy now resources desired P r ↔ obsolete policy now resources desired Q r.
Proof. intros HPQ. unfold obsolete. by rewrite HPQ. Qed.

Lemma planType_spec policy now stackName resources desired refs (inUse : string → Prop) :
  NoDup (map resourceID resources) → (∀ i, i ∈ refs ↔ inUse i) →
  let '(l, skipped) := planType policy now stackName resources desired refs in
  (skipped = false ↔ ownershipKnown stackName resources) ∧ NoDup (map resourceID l) ∧
  ∀ r, r ∈ l ↔ ownershipKnown stackName resources ∧ r ∈ resources ∧
    obsolete policy now resources desired inUse r.
Proof.
  intros Hnd Hrefs. unfold planType.
  pose proof (plan_spec policy now stackName resources desired refs Hnd) as Hp.
  destruct (plan _ _ _ _ _ _) as [l|e].
  - destruct Hp as (Hown & Hl & Hin). split; [done|]. split; [done|]. intros r.
    rewrite Hin, (obsolete_iff _ _ _ _ _ _ _ Hrefs). tauto.
  - split; [done|]. split; [constructor|]. intros r. rewrite elem_of_nil. tauto.
Qed.

Lemma elem_of_requested (t u : resourceType) (l : list rotatedResource) i :
  (t, i) ∈ map (pair u) (map resourceID l) ↔ t = u ∧ ∃ r, r ∈ l ∧ resourceID r = i.
Proof.
  rewrite map_map, list_elem_of_fmap. split.
  - intros (r & [= -> ->] & Hr). eauto.
  - intros (-> & r & Hr & <-). eauto.
Qed.

Lemma clean_spec now stackName desiredConfigs desiredSecrets services configs
    secrets (c : Cluster S) :
  NoDup (map ConfigID configs) → NoDup (map SecretID secrets) →
  let '(result, c') := clean cfg now stackName desiredConfigs desiredSecrets services configs secrets c in
  let live t := match t with
                | TypeConfig => mapConfigResources configs
                | TypeSecret => mapSecretResources secrets
                end in
  let desired t := match t with TypeConfig => desiredConfigs | TypeSecret => desiredSecrets end in
  (incomplete services → c' = c ∧ Skipped result = 1) ∧
  (¬ incomplete services → ∃ ids,
     requested c' = requested c ++ ids ∧ NoDup ids ∧ length ids = Removed result + Failed result ∧
     (Skipped result = 0 ↔ ∀ t, ownershipKnown stackName (live t)) ∧
     ∀ t i, (t, i) ∈ ids ↔ ownershipKnown stackName (live t) ∧ ∃ r,
       r ∈ live t ∧ resourceID r = i ∧
       obsolete (Policy cfg) (now t) (live t) (desired t) (refersTo services t) r).
Proof.
  intros Hconfigs Hsecrets. unfold clean, referencedResourceIDs. pose proof (referencedEach_spec services (∅, ∅)) as Hrefs.
  destruct (referencedEach services (∅, ∅)) as [[ss cs]|e]; [|by split].
  destruct Hrefs as (Hinc & Hss & Hcs). simpl in Hss, Hcs.
  assert (NoDup (map resourceID (mapConfigResources configs))) as HndC.
  { unfold mapConfigResources. by rewrite map_map. }
  assert (NoDup (map resourceID (mapSecretResources secrets))) as HndS.
  { unfold mapSecretResources. rewrite map_map. eapply sublist_NoDup; [exact Hsecrets|].
    apply map_sublist, sublist_filter. }
  pose proof (planType_spec (Policy cfg) (now TypeConfig) stackName _ desiredConfigs cs
    (refersTo services TypeConfig) HndC) as HC.
  pose proof (planType_spec (Policy cfg) (now TypeSecret) stackName _ desiredSecrets ss
    (refersTo services TypeSecret) HndS) as HS.
  destruct (planType _ (now TypeConfig) _ _ _ _) as [lc skippedC].
  destruct (planType _ (now TypeSecret) _ _ _ _) as [ls skippedS].
  destruct HC as (HskipC & HlC & HinC); [set_solver|]. destruct HS as (HskipS & HlS & HinS); [set_solver|].
  set (removals := stable_sort removalLess _).
  assert (removals ≡ₚ map (pair TypeConfig) lc ++ map (pair TypeSecret) ls) as Hperm
    by apply stable_sort_perm.
  clearbody removals. pose proof (executeEach_spec removals noCleanup c) as Hex. fold (execute removals c) in Hex.
  destruct (execute removals c) as [result c']. destruct Hex as (Hreq & Hcount & Hskip).
  split; [done|]. intros _. eexists. split; [exact Hreq|].
  assert (map (λ x, (x.1, resourceID x.2)) removals ≡ₚ
    map (pair TypeConfig) (map resourceID lc) ++ map (pair TypeSecret) (map resourceID ls)) as Hids.
  { etrans; [by apply Permutation_map|]. by rewrite map_app, !map_map. }
  split; [|split; [by rewrite length_map|split]].
  - rewrite Hids. apply NoDup_app. split; [by apply (NoDup_fmap_2 _)|].
    split; [|by apply (NoDup_fmap_2 _)].
    intros x (? & -> & _)%list_elem_of_fmap (? & ? & _)%list_elem_of_fmap. done.
  - simpl. rewrite Hskip. simpl. split.
    + intros Hz [].
      * apply HskipC. by destruct skippedC.
      * apply HskipS. by destruct skippedS, skippedC.
    + intros Hown. by rewrite (proj2 HskipC (Hown TypeConfig)), (proj2 HskipS (Hown TypeSecret)).
  - intros t i. rewrite Hids, elem_of_app, !elem_of_requested.
    setoid_rewrite HinC. setoid_rewrite HinS. destruct t; split; intros Hx.
    1,3: destruct Hx as [[Ht (r & ? & ?)]|[Ht (r & ? & ?)]]; try done;
      (split; [tauto|]); exists r; tauto.
    all: destruct Hx as (? & r & ? & ? & ?); first [left; split; [done|]|right; split; [done|]];
      exists r; tauto.
Qed.

(** C21. The cleaner removes the obsolete generations and nothing else. When a service refers
    to a resource without an identifier, nothing is requested. Otherwise exactly the
    obsolete configs and secrets of the stack are requested to be removed, each once, whatever
    the answers: those that are managed by the rotation, that no service refers to now or after
    a rollback, that are old enough and, as long as their logical name is desired, are
    neither the desired generation nor among the newest [KeepLast]. A type with a managed
    resource whose owner is not known is left alone. *)
Theorem cleanup_removes_the_obsolete now stackName desiredConfigs desiredSecrets services configs
    secrets (c : Cluster S)
    (Hconfigs : NoDup (map ConfigID configs)) (Hsecrets : NoDup (map SecretID secrets)) :
  let '(result, c') := clean cfg now stackName desiredConfigs desiredSecrets services configs secrets c in
  let live t := match t with
                | TypeConfig => mapConfigResources configs
                | TypeSecret => mapSecretResources secrets
                end in
  let desired t := match t with TypeConfig => desiredConfigs | TypeSecret => desiredSecrets end in
  (incomplete services → c' = c ∧ Skipped result = 1) ∧
  (¬ incomplete services → ∃ ids,
     requested c' = requested c ++ ids ∧ NoDup ids ∧ length ids = Removed result + Failed result ∧
     (Skipped result = 0 ↔ ∀ t, ownershipKnown stackName (live t)) ∧
     ∀ t i, (t, i) ∈ ids ↔ ownershipKnown stackName (live t) ∧ ∃ r,
       r ∈ live t ∧ resourceID r = i ∧
       obsolete (Policy cfg) (now t) (live t) (desired t) (refersTo services t) r).
Proof. by apply clean_spec. Qed.
End Removal.

(** ** An example: a rotated config with three generations *)
Module RotationExample.

(** A digest that is short enough to be read. *)
Definition digest (s : string) : string := "h" +:+ s.
Definition keys {T} (m : gmap string T) : list string := (map_to_list m).*1.

Lemma keys_enumerate {T} (m : gmap string T) : enumerates (keys m) m.
Proof.
  split; [apply NoDup_fst_map_to_list|]. intros k. unfold keys. rewrite list_elem_of_fmap. split.
  - intros ([k' v] & -> & Hin). apply elem_of_map_to_list in Hin. by eexists.
  - intros [v Hv]. exists (k, v). split; [done|]. by apply elem_of_map_to_list.
Qed.

Definition appConfig : ConfigObject :=
  {| configName := ""; configFile := "app.conf"; configData := Some "v3"; configTemplateDriver := "";
     configLabels := ∅; configExternal := false |}.
Definition definition : ObjectFile := {| Configs := {["app" := appConfig]}; Secrets := ∅ |}.

Lemma rotated_names_are_desired_witness :
  ∃ configs secrets,
    DesiredResourceNames digest keys keys (Rotate digest keys keys definition "shop" 8 false).2
      "shop" 8 false = Ok (configs, secrets) ∧
    configs !! "app" = Some "shop-app-hv3".
Proof.
  destruct (rotated_names_are_desired digest keys keys definition "shop" 8 false true
    (Rotate digest keys keys definition "shop" 8 false).2) as (configs & secrets & Hn & Hn' & _).
  - apply keys_enumerate.
  - apply keys_enumerate.
  - split; intros k o Hk.
    + destruct (decide (k = "app")) as [->|Hne].
      * vm_compute in Hk. inversion Hk. by vm_compute.
      * simpl in Hk. by rewrite lookup_singleton_ne in Hk.
    + simpl in Hk. by rewrite lookup_empty in Hk.
  - vm_compute. reflexivity.
  - exists configs, secrets. split; [exact Hn'|]. vm_compute in Hn. inversion Hn. reflexivity.
Defined.

Definition generation (i name : string) (t : Time) : SwarmConfig :=
  {| ConfigID := i; ConfigName := name; ConfigCreatedAt := t;
     ConfigLabels := <[StackNamespace := "shop"]> (rotationLabels "app" ∅) |}.
Definition generations : list SwarmConfig :=
  [generation "c1" "shop-app-hv1" 100; generation "c2" "shop-app-hv2" 200;
   generation "c3" "shop-app-hv3" 300].

#[local] Instance managers : ResourceManagers unit := {
  ListConfigs _ s := (Ok generations, s);
  ListSecrets _ s := (Ok [], s);
  Remove _ _ s := (None, s);
  ListStackServices _ s := (Ok [], s);
  LoadDefinition _ _ s := (Ok definition, s);
}.
Definition rotation : Rotation :=
  {| HashLength := 8; IncludePath := false; Policy := {| KeepLast := 1; MinAge := 50 |};
     sha256Hex := digest; configRange := keys; secretRange := keys |}.
(** The service runs with the second generation. *)
Definition service : LiveServiceRefs :=
  {| liveName := "web"; liveFullName := "shop_web";
     liveSpec := Some {| refSecrets := []; refConfigs := [Some "c2"] |}; livePrevious := None |}.
Definition idle : Cluster unit := {| cluster := (); requested := [] |}.

Lemma cleanup_removes_the_obsolete_witness :
  let c' := (clean rotation (λ _ _, 1000%Z) "shop" {["app" := "shop-app-hv3"]} ∅ [service]
               generations [] idle).2 in
  requested c' = [(TypeConfig, "c1")] ∧
  ∃ r, r ∈ mapConfigResources generations ∧ resourceID r = "c1" ∧
    obsolete (Policy rotation) (λ _, 1000%Z) (mapConfigResources generations)
      {["app" := "shop-app-hv3"]} (refersTo [service] TypeConfig) r.
Proof.
  pose proof (cleanup_removes_the_obsolete rotation (λ _ _, 1000%Z) "shop" {["app" := "shop-app-hv3"]} ∅
    [service] generations [] idle) as Hthm.
  assert (requested (clean rotation (λ _ _, 1000%Z) "shop" {["app" := "shop-app-hv3"]} ∅ [service]
               generations [] idle).2 = [(TypeConfig, "c1")]) as Hreq by (vm_compute; reflexivity).
  split; [exact Hreq|].
  destruct (clean _ _ _ _ _ _ _ _ _) as [result c'].
  destruct Hthm as [_ Hthm].
  - simpl. repeat (apply NoDup_cons; split; [set_solver|]). constructor.
  - constructor.
  - destruct Hthm as (ids & Hids & _ & _ & _ & Hiff).
    + unfold incomplete. rewrite !refersTo_cons. simpl.
      intros [[H|[H|(? & ? & H & _)]]|[H|[H|(? & ? & H & _)]]]; revert H; clear; set_solver.
    + simpl in Hreq. rewrite Hids in Hreq. simpl in Hreq.
      apply (Hiff TypeConfig "c1"). rewrite Hreq. by left.
Defined.
End RotationExample.
