(* ===== verification/ResourceReconciler.v ===== *)
(** * Reconcilers of configs, secrets and networks ([deployments/deployer/resources],
      [deployments/deployer/networks])

    Before a stack is applied its networks, configs and secrets are resolved to Docker
    objects, and created when they are missing. Docker is the class [ObjectStore] for configs
    and secrets and [NetworkStore] for networks; what is written is recorded. *)
From S2P Require Import Prelude GoStrings ResourceRotation.
Local Open Scope go_scope.

(** ** Data *)

(** [resources.ResolvedResource] and [resources.Resolved] *)
Record ResolvedResource := { resolvedID : string; resolvedName : string }.
Record Resolved := {
  resolvedConfigs : gmap string ResolvedResource; resolvedSecrets : gmap string ResolvedResource;
}.

(** [swarm.CreateConfigRequest] and [swarm.CreateSecretRequest] *)
Record CreateConfigRequest := {
  newConfigName : string; newConfigLabels : gmap string string; newConfigData : option string;
  newConfigTemplateDriver : string;
}.
Record CreateSecretRequest := {
  newSecretName : string; newSecretLabels : gmap string string; newSecretData : option string;
  newSecretDriver : string; newSecretDriverOptions : gmap string string; newSecretTemplateDriver : string;
}.

Class ObjectStore (S : Type) := {
  (** [List] of the managers for the given names; Docker matches a name by prefix. *)
  FindConfigs : list string → S → Result string (list SwarmConfig) * S;
  FindSecrets : list string → S → Result string (list SwarmSecret) * S;
  (** The identifier of the new object, or an error. *)
  CreateConfig : CreateConfigRequest → S → Result string string * S;
  CreateSecret : CreateSecretRequest → S → Result string string * S;
  UpdateLabels : string → gmap string string → S → Result string unit * S;
}.

(** The writes, with the identifier that Docker answered. *)
Inductive ObjectWrite :=
| ConfigCreated (request : CreateConfigRequest) (answer : Result string string)
| SecretCreated (request : CreateSecretRequest) (answer : Result string string)
| SecretLabeled (secret : string) (labels : gmap string string) (answer : Result string unit).

Record Objects (S : Type) := { store : S; writes : list ObjectWrite }.
Arguments store {S}.
Arguments writes {S}.

(** ** Names and labels *)
Definition resourceName (stackName alias name : string) (external : bool) : string :=
  if negb (bool_decide (name = "")) then name
  else if external then alias else stackName +:+ "_" +:+ alias.

Definition dockerConfigName (stackName alias : string) (c : ConfigObject) : string :=
  resourceName stackName alias (configName c) (configExternal c).
Definition dockerSecretName (stackName alias : string) (s : SecretObject) : string :=
  resourceName stackName alias (secretName s) (secretExternal s).

Definition resourceLabels (stackName : string) (labels : gmap string string) : gmap string string :=
  <[StackNamespace := stackName]> labels.

Definition sortedObjectAliases {T} (objects : gmap string T) : list string :=
  sort_strings (map_to_list objects).*1.

(** The names of the objects, in the order of the aliases. *)
Definition namesOf {T} (nameOf : string → T → string) (objects : gmap string T) : list string :=
  omap (λ alias, nameOf alias <$> objects !! alias) (sortedObjectAliases objects).
Definition configNames (stackName : string) : gmap string ConfigObject → list string :=
  namesOf (dockerConfigName stackName).
Definition secretNames (stackName : string) : gmap string SecretObject → list string :=
  namesOf (dockerSecretName stackName).

(** Later objects of a name replace earlier ones. *)
Definition configsByName (configs : list SwarmConfig) : gmap string SwarmConfig :=
  foldl (λ m c, <[ConfigName c := c]> m) ∅ configs.
Definition secretsByName (secrets : list SwarmSecret) : gmap string SwarmSecret :=
  foldl (λ m s, <[SecretName s := s]> m) ∅ secrets.

(** [faults.SanitizeError] replaces the text of an error of Docker. *)
Definition sanitized : string := "Docker API request failed".

(** ** The reconciler of configs and secrets *)
Section Resources.
Context {S : Type} `{ObjectStore S}.

Definition Reconciling (A : Type) : Type := St (Objects S) string A.

Definition reading {A} (prefix : string) (m : S → Result string A * S) : Reconciling A := λ o,
  let '(r, s) := m (store o) in
  (match r with Ok a => Ok a | Err e => Err (prefix +:+ e) end, {| store := s; writes := writes o |}).

Definition writing {A} (prefix : string) (error : string → string) (m : S → Result string A * S)
    (record : Result string A → ObjectWrite) : Reconciling A := λ o,
  let '(r, s) := m (store o) in
  (match r with Ok a => Ok a | Err e => Err (prefix +:+ error e) end,
   {| store := s; writes := writes o ++ [record r] |}).

Definition newConfig (stackName name : string) (c : ConfigObject) : CreateConfigRequest :=
  {| newConfigName := name; newConfigLabels := resourceLabels stackName (configLabels c);
     newConfigData := configData c; newConfigTemplateDriver := configTemplateDriver c |}.

Fixpoint reconcileConfigEach (stackName : string) (aliases : list string)
    (objects : gmap string ConfigObject) (existing : gmap string SwarmConfig)
    (resolved : gmap string ResolvedResource) : Reconciling (gmap string ResolvedResource) :=
  match aliases with
  | [] => st_ret resolved
  | alias :: aliases =>
      match objects !! alias with
      | None => reconcileConfigEach stackName aliases objects existing resolved
      | Some c =>
          let name := dockerConfigName stackName alias c in
          match existing !! name with
          | Some found =>
              reconcileConfigEach stackName aliases objects existing
                (<[alias := {| resolvedID := ConfigID found; resolvedName := ConfigName found |}]> resolved)
          | None =>
              if configExternal c then st_throw ("external config " +:+ name +:+ " does not exist")
              else
                let request := newConfig stackName name c in
                let! createdID := writing ("create config " +:+ name +:+ ": ") (λ e, e)
                                    (CreateConfig request) (ConfigCreated request) in
                reconcileConfigEach stackName aliases objects
                  (<[name := {| ConfigID := createdID; ConfigName := name; ConfigCreatedAt := time_zero;
                                ConfigLabels := ∅ |}]> existing)
                  (<[alias := {| resolvedID := createdID; resolvedName := name |}]> resolved)
          end
      end
  end.

Definition reconcileConfigs (stackName : string) (objects : gmap string ConfigObject)
    : Reconciling (gmap string ResolvedResource) :=
  if bool_decide (objects = ∅) then st_ret ∅
  else
    let! existing := reading "list configs: " (FindConfigs (configNames stackName objects)) in
    reconcileConfigEach stackName (sortedObjectAliases objects) objects (configsByName existing) ∅.

(** [validateSecretOwnership]: the first secret of the definition that another stack owns. *)
Definition ownedByOther (stackName : string) (objects : gmap string SecretObject)
    (existing : gmap string SwarmSecret) (alias : string) : bool :=
  match objects !! alias with
  | None => false
  | Some s =>
      match existing !! dockerSecretName stackName alias s with
      | None => false
      | Some found =>
          negb (secretExternal s) &&
          negb (bool_decide (default "" (SecretLabels found !! StackNamespace) = stackName))
      end
  end.

Definition validateSecretOwnership (stackName : string) (objects : gmap string SecretObject)
    (existing : gmap string SwarmSecret) : option string :=
  match find (ownedByOther stackName objects existing) (sortedObjectAliases objects) with
  | None => None
  | Some alias =>
      Some ("secret " +:+ default "" (dockerSecretName stackName alias <$> objects !! alias) +:+
            " ownership conflict: expected stack " +:+ stackName)
  end.

Definition newSecret (stackName name : string) (s : SecretObject) (data : option string)
    : CreateSecretRequest :=
  {| newSecretName := name; newSecretLabels := resourceLabels stackName (secretLabels s);
     newSecretData := data; newSecretDriver := secretDriver s;
     newSecretDriverOptions := secretDriverOpts s; newSecretTemplateDriver := secretTemplateDriver s |}.

Definition withLabels (s : SwarmSecret) (labels : gmap string string) : SwarmSecret :=
  {| SecretID := SecretID s; SecretName := SecretName s; SecretCreatedAt := SecretCreatedAt s;
     SecretDriver := SecretDriver s; SecretLabels := labels |}.

Fixpoint reconcileSecretEach (stackName : string) (data : gmap string string) (aliases : list string)
    (objects : gmap string SecretObject) (existing : gmap string SwarmSecret)
    (resolved : gmap string ResolvedResource) : Reconciling (gmap string ResolvedResource) :=
  match aliases with
  | [] => st_ret resolved
  | alias :: aliases =>
      match objects !! alias with
      | None => reconcileSecretEach stackName data aliases objects existing resolved
      | Some s =>
          let name := dockerSecretName stackName alias s in
          let labels := resourceLabels stackName (secretLabels s) in
          match existing !! name with
          | Some found =>
              let resolved :=
                <[alias := {| resolvedID := SecretID found; resolvedName := SecretName found |}]> resolved in
              if negb (secretExternal s) && negb (bool_decide (SecretLabels found = labels))
              then
                do! writing ("update secret " +:+ name +:+ ": ") (λ _, sanitized)
                      (UpdateLabels (SecretID found) labels) (SecretLabeled (SecretID found) labels) in
                reconcileSecretEach stackName data aliases objects
                  (<[name := withLabels found labels]> existing) resolved
              else reconcileSecretEach stackName data aliases objects existing resolved
          | None =>
              if secretExternal s then st_throw ("external secret " +:+ name +:+ " does not exist")
              else
                let request := newSecret stackName name s (data !! alias) in
                let! createdID := writing ("create secret " +:+ name +:+ ": ") (λ _, sanitized)
                                    (CreateSecret request) (SecretCreated request) in
                reconcileSecretEach stackName data aliases objects
                  (<[name := {| SecretID := createdID; SecretName := name; SecretCreatedAt := time_zero;
                                SecretDriver := ""; SecretLabels := labels |}]> existing)
                  (<[alias := {| resolvedID := createdID; resolvedName := name |}]> resolved)
          end
      end
  end.

Definition reconcileSecrets (stackName : string) (objects : gmap string SecretObject)
    (data : gmap string string) : Reconciling (gmap string ResolvedResource) :=
  if bool_decide (objects = ∅) then st_ret ∅
  else
    let! existing := reading "list secrets: " (FindSecrets (secretNames stackName objects)) in
    let existing := secretsByName existing in
    match validateSecretOwnership stackName objects existing with
    | Some e => st_throw e
    | None => reconcileSecretEach stackName data (sortedObjectAliases objects) objects existing ∅
    end.

(** [Reconciler.Reconcile] of the package [resources]. *)
Definition ReconcileResources (stackName : string) (configs : gmap string ConfigObject)
    (secrets : gmap string SecretObject) (data : gmap string string) : Reconciling Resolved :=
  let! cs := reconcileConfigs stackName configs in
  let! ss := reconcileSecrets stackName secrets data in
  st_ret {| resolvedConfigs := cs; resolvedSecrets := ss |}.
End Resources.

(** ** The reconciler of the networks of a stack *)
Section NetworkData.
(** The address configuration of Docker. *)
Context (IPAM : Type).

(** [swarm.CreateNetworkRequest] *)
Record NetworkRequest := {
  requestIPAM : option IPAM; requestName : string; requestDriver : string;
  requestAttachable : bool; requestInternal : bool;
  requestOptions : gmap string string; requestLabels : gmap string string;
}.

(** [converter.NetworkSpec], planned. *)
Record PlannedNetwork := { Alias : string; External : bool; Spec : NetworkRequest }.
End NetworkData.
Arguments requestName {IPAM}.
Arguments Alias {IPAM}.
Arguments External {IPAM}.
Arguments Spec {IPAM}.

(** [swarm.Network], the fields that are validated. *)
Record LiveNetwork := {
  networkID : string; networkName : string; networkScope : string; networkLabels : gmap string string;
}.

Inductive getError := NetworkNotFound | GetFailed (text : string).
Definition getErrorText (e : getError) : string :=
  match e with NetworkNotFound => "network not found" | GetFailed text => text end.

Class NetworkStore (IPAM S : Type) := {
  GetNetwork : string → S → Result getError LiveNetwork * S;
  CreateNetwork : NetworkRequest IPAM → S → option string * S;
  (** The pause between two attempts: the error of the context when it ends first. *)
  Pause : S → option string * S;
}.

Definition createdNetworkInspectAttempts : nat := 40.

(** [swarm.ServiceNetworkScope] *)
Definition ServiceNetworkScope (name scope : string) (external : bool) : bool :=
  bool_decide (scope = "swarm") ||
  (external && bool_decide (scope = "local") && (bool_decide (name = "host") || bool_decide (name = "none"))).

Section StackNetworks.
Context {IPAM S : Type} `{NetworkStore IPAM S}.
Implicit Types (desired : PlannedNetwork IPAM).

Definition plannedName desired : string := requestName (Spec desired).

Definition validateNetwork (stackName : string) desired (current : LiveNetwork) : option string :=
  if bool_decide (networkID current = "") || negb (bool_decide (networkName current = plannedName desired)) ||
     negb (ServiceNetworkScope (networkName current) (networkScope current) (External desired))
  then Some ("expected an existing swarm network with exact name " +:+ plannedName desired)
  else if External desired then None
  else if negb (bool_decide (default "" (networkLabels current !! StackNamespace) = stackName))
  then Some ("network " +:+ plannedName desired +:+ " is not owned by stack " +:+ stackName)
  else None.

(** One attempt: inspect and validate. *)
Definition inspectCreated (stackName : string) desired (s : S) : option string * S :=
  let '(r, s) := GetNetwork (plannedName desired) s in
  (match r with
   | Ok current => validateNetwork stackName desired current
   | Err e => Some (getErrorText e)
   end, s).

(** The remaining attempts of [waitForCreatedNetwork]. *)
Fixpoint waitCreated (attempts : nat) (stackName : string) desired (lastErr : string) (s : S)
    : option string * S :=
  match attempts with
  | O => (Some ("validate created network " +:+ plannedName desired +:+ ": " +:+ lastErr), s)
  | Datatypes.S attempts =>
      let '(err, s) := inspectCreated stackName desired s in
      match err with
      | None => (None, s)
      | Some e =>
          match attempts with
          | O => (Some ("validate created network " +:+ plannedName desired +:+ ": " +:+ e), s)
          | Datatypes.S _ =>
              let '(stopped, s) := Pause s in
              match stopped with
              | Some ctx => (Some ("wait for created network " +:+ plannedName desired +:+ ": " +:+ ctx), s)
              | None => waitCreated attempts stackName desired e s
              end
          end
      end
  end.

Definition waitForCreatedNetwork (stackName : string) desired : S → option string * S :=
  waitCreated createdNetworkInspectAttempts stackName desired "".

(** [Reconciler.reconcile] *)
Definition reconcileNetwork (stackName : string) desired (s : S) : option string * S :=
  let '(r, s) := GetNetwork (plannedName desired) s in
  match r with
  | Ok current => (validateNetwork stackName desired current, s)
  | Err (GetFailed text) => (Some ("inspect network " +:+ plannedName desired +:+ ": " +:+ text), s)
  | Err NetworkNotFound =>
      if External desired
      then (Some ("external network " +:+ plannedName desired +:+ " does not exist"), s)
      else
        let '(created, s) := CreateNetwork (Spec desired) s in
        match created with
        | None => waitForCreatedNetwork stackName desired s
        | Some createErr =>
            let '(r, s) := GetNetwork (plannedName desired) s in
            match r with
            | Ok current => (validateNetwork stackName desired current, s)
            | Err _ => (Some ("create network " +:+ plannedName desired +:+ ": " +:+ createErr), s)
            end
        end
  end.

(** [Reconciler.Reconcile] of the package [networks]. *)
Fixpoint ReconcileStackNetworks (stackName : string) (planned : list (PlannedNetwork IPAM)) (s : S)
    : option string * S :=
  match planned with
  | [] => (None, s)
  | network :: planned =>
      let '(err, s) := reconcileNetwork stackName network s in
      match err with
      | Some e => (Some ("networks." +:+ Alias network +:+ ": " +:+ e), s)
      | None => ReconcileStackNetworks stackName planned s
      end
  end.
End StackNetworks.
