(* ===== verification/ResourceSafety.v ===== *)
(** * What the reconcilers of configs, secrets and networks promise

    Every alias of a definition is resolved to an object of its name, objects are created
    once and only when they are missing, the secrets of other stacks are neither adopted nor
    changed, and what a deployment uses survives the cleanup of rotated resources. *)
From S2P Require Import Prelude GoStrings ResourceRotation ResourceCleanup ResourceReconciler.
Local Open Scope go_scope.

(** ** Names *)
Lemma elem_of_sortedObjectAliases {T} (objects : gmap string T) alias :
  alias ∈ sortedObjectAliases objects ↔ is_Some (objects !! alias).
Proof.
  unfold sortedObjectAliases. rewrite elem_of_sort_strings, list_elem_of_fmap. split.
  - intros ([k v] & -> & Hin). apply elem_of_map_to_list in Hin. by eexists.
  - intros [v Hv]. exists (alias, v). split; [done|]. by apply elem_of_map_to_list.
Qed.

Section ByName.
Context {R : Type} (nameOf : R → string).
Local Notation byName := (foldl (λ (m : gmap string R) (x : R), <[nameOf x := x]> m)).

Lemma byName_Some l m name found :
  byName m l !! name = Some found → m !! name = Some found ∨ (found ∈ l ∧ nameOf found = name).
Proof.
  revert m. induction l as [|x l IH]; simpl; intros m Hf; [by left|].
  destruct (IH _ Hf) as [Hm|[Hin Hn]].
  - destruct (decide (nameOf x = name)) as [Heq|Hne].
    + rewrite <- Heq, lookup_insert_eq in Hm. inversion Hm; subst. right. split; [by left|done].
    + rewrite lookup_insert_ne in Hm by done. by left.
  - right. split; [by right|done].
Qed.

Lemma byName_mono l m name : is_Some (m !! name) → is_Some (byName m l !! name).
Proof.
  revert m. induction l as [|x l IH]; simpl; intros m Hm; [done|]. apply IH.
  destruct (decide (nameOf x = name)) as [->|Hne]; [rewrite lookup_insert_eq; by eexists|].
  by rewrite lookup_insert_ne.
Qed.

Lemma byName_None l m name :
  byName m l !! name = None → ∀ found, found ∈ l → nameOf found ≠ name.
Proof.
  revert m. induction l as [|x l IH]; simpl; intros m Hf found Hin; [by apply elem_of_nil in Hin|].
  apply elem_of_cons in Hin as [->|Hin]; [|by eapply IH].
  intros Hn. destruct (byName_mono l (<[nameOf x := x]> m) name) as [y Hy]; [|congruence].
  rewrite Hn, lookup_insert_eq. by eexists.
Qed.
End ByName.

(** ** The loop over the aliases

    Both loops keep the same books: a write is justified by the writes so far, a name is
    created once, and an alias is resolved to an object that is provided under its name. *)
Section Loop.
Context {S T : Type} (objects : gmap string T) (dockerName : string → T → string).
Context (provided : list ObjectWrite → string → string → Prop).
Context (justified : list ObjectWrite → ObjectWrite → Prop).
Context (created : list ObjectWrite → list string).

Class LoopLaws := {
  provided_mono ws ws' name i : provided ws name i → provided (ws ++ ws') name i;
  justified_mono ws ws' w : justified ws w → justified (ws ++ ws') w;
  created_app ws ws' : created (ws ++ ws') = created ws ++ created ws';
}.
Context `{!LoopLaws}.

Definition resolvedTo (ws : list ObjectWrite) (resolved : gmap string ResolvedResource) : Prop :=
  ∀ alias x, resolved !! alias = Some x → ∃ c, objects !! alias = Some c ∧
    resolvedName x = dockerName alias c ∧ provided ws (resolvedName x) (resolvedID x).

Definition booked (ws : list ObjectWrite) : Prop :=
  Forall (justified ws) ws ∧ NoDup (created ws).

(** What the loop has established when it ends. *)
Definition loopDone (base : list ObjectWrite) (aliases : list string)
    (resolved : gmap string ResolvedResource) (r : Result string (gmap string ResolvedResource))
    (o' : Objects S) : Prop :=
  ∃ ws, writes o' = base ++ ws ∧ booked ws ∧
    ∀ resolved', r = Ok resolved' → resolvedTo ws resolved' ∧
      ∀ alias, is_Some (resolved' !! alias) ↔
        is_Some (resolved !! alias) ∨ alias ∈ aliases ∧ is_Some (objects !! alias).

Lemma resolvedTo_insert ws resolved alias c x :
  resolvedTo ws resolved → objects !! alias = Some c →
  resolvedName x = dockerName alias c → provided ws (resolvedName x) (resolvedID x) →
  resolvedTo ws (<[alias := x]> resolved).
Proof.
  intros Hr Halias Hn Hp alias' x'. destruct (decide (alias' = alias)) as [->|Hne].
  - rewrite lookup_insert_eq. intros [= <-]. by exists c.
  - rewrite lookup_insert_ne by done. apply Hr.
Qed.

Lemma resolvedTo_mono ws ws' resolved : resolvedTo ws resolved → resolvedTo (ws ++ ws') resolved.
Proof.
  intros Hr alias x Hx. destruct (Hr _ _ Hx) as (c & ? & ? & ?). exists c.
  split; [done|]. split; [done|]. by apply provided_mono.
Qed.

Lemma booked_snoc ws w :
  booked ws → justified (ws ++ [w]) w → (∀ n, n ∈ created [w] → n ∉ created ws) → NoDup (created [w]) →
  booked (ws ++ [w]).
Proof.
  intros [Hall Hnd] Hw Hn Hndw. split.
  - apply Forall_app. split; [|by constructor].
    eapply Forall_impl; [exact Hall|]. intros w'. apply justified_mono.
  - rewrite created_app. apply NoDup_app. split; [done|]. split; [|done]. intros n Hin Hin'. by eapply Hn.
Qed.

Lemma loopDone_nil base ws resolved (o : Objects S) :
  writes o = base ++ ws → booked ws → resolvedTo ws resolved →
  loopDone base [] resolved (Ok resolved) o.
Proof.
  intros Hw Hb Hr. exists ws. split; [done|]. split; [done|]. intros resolved' [= <-].
  split; [done|]. intros alias. rewrite elem_of_nil. naive_solver.
Qed.

Lemma loopDone_err base aliases ws resolved (o : Objects S) e :
  writes o = base ++ ws → booked ws → loopDone base aliases resolved (Err e) o.
Proof. intros Hw Hb. by exists ws. Qed.

Lemma loopDone_skip base alias aliases resolved r o' :
  objects !! alias = None → loopDone base aliases resolved r o' →
  loopDone base (alias :: aliases) resolved r o'.
Proof.
  intros Hnone (ws & Hw & Hb & Hres). exists ws. do 2 (split; [done|]). intros resolved' Hr.
  destruct (Hres _ Hr) as [Hok Hdom]. split; [done|]. intros a. rewrite Hdom, elem_of_cons.
  split; [naive_solver|]. intros [?|[[->|?] [? ?]]]; [by left|congruence|right; eauto].
Qed.

Lemma loopDone_take base alias aliases resolved x r o' :
  is_Some (objects !! alias) → loopDone base aliases (<[alias := x]> resolved) r o' →
  loopDone base (alias :: aliases) resolved r o'.
Proof.
  intros Hsome (ws & Hw & Hb & Hres). exists ws. do 2 (split; [done|]). intros resolved' Hr.
  destruct (Hres _ Hr) as [Hok Hdom]. split; [done|]. intros a. rewrite Hdom, elem_of_cons.
  destruct (decide (a = alias)) as [->|Hne].
  - rewrite lookup_insert_eq. split; [intros _; right; auto|intros _; left; by eexists].
  - rewrite lookup_insert_ne by done. naive_solver.
Qed.
End Loop.

(** ** Configs *)
Section Configs.
Context {S : Type} `{ObjectStore S}.
Context (stackName : string) (objects : gmap string ConfigObject) (listed : list SwarmConfig).

(** The names of the configs that were created. *)
Definition createdConfigs (ws : list ObjectWrite) : list string :=
  omap (λ w, match w with ConfigCreated request _ => Some (newConfigName request) | _ => None end) ws.

(** An object of Docker with the name: listed, or created by the run for the definition. *)
Definition configProvided (ws : list ObjectWrite) (name i : string) : Prop :=
  (∃ found, found ∈ listed ∧ ConfigName found = name ∧ ConfigID found = i) ∨
  (∃ alias c, objects !! alias = Some c ∧ configExternal c = false ∧
     dockerConfigName stackName alias c = name ∧
     ConfigCreated (newConfig stackName name c) (Ok i) ∈ ws).

(** The creation of a config of the definition that is missing in the listing. *)
Definition configWrite (ws : list ObjectWrite) (w : ObjectWrite) : Prop :=
  match w with
  | ConfigCreated request _ => ∃ alias c, objects !! alias = Some c ∧ configExternal c = false ∧
      request = newConfig stackName (dockerConfigName stackName alias c) c ∧
      ∀ found, found ∈ listed → ConfigName found ≠ newConfigName request
  | _ => False
  end.

#[export] Instance config_laws : LoopLaws configProvided configWrite createdConfigs.
Proof.
  split; [|done|intros; apply omap_app].
  unfold configProvided. setoid_rewrite elem_of_app. naive_solver.
Qed.

(** What the map of existing configs says while the run has made the writes [ws]. *)
Record configsKnown (ws : list ObjectWrite) (existing : gmap string SwarmConfig) : Prop := {
  known_provided name found : existing !! name = Some found →
    ConfigName found = name ∧ configProvided ws name (ConfigID found);
  known_listed found : found ∈ listed → is_Some (existing !! ConfigName found);
  known_created name : name ∈ createdConfigs ws → is_Some (existing !! name);
}.

Lemma configsKnown_create ws existing alias c i :
  configsKnown ws existing → objects !! alias = Some c → configExternal c = false →
  let name := dockerConfigName stackName alias c in
  configsKnown (ws ++ [ConfigCreated (newConfig stackName name c) (Ok i)])
    (<[name := {| ConfigID := i; ConfigName := name; ConfigCreatedAt := time_zero; ConfigLabels := ∅ |}]>
       existing).
Proof.
  intros [Hp Hl Hc] Halias Hext name. split.
  - intros name' found. destruct (decide (name' = name)) as [->|Hne].
    + rewrite lookup_insert_eq. intros [= <-]. simpl. split; [done|]. right.
      exists alias, c. do 3 (split; [done|]). apply elem_of_app. right. by left.
    + rewrite lookup_insert_ne by done. intros Hf. destruct (Hp _ _ Hf). split; [done|].
      by apply (provided_mono _ _ _ (LoopLaws := config_laws)).
  - intros found Hin. rewrite lookup_insert. case_decide; [by eexists|]. by apply Hl.
  - intros name'. rewrite (created_app _ _ _ (LoopLaws := config_laws)), elem_of_app. simpl.
    rewrite list_elem_of_singleton, lookup_insert. case_decide; [by eexists|].
    intros [Hin| ->]; [by apply Hc|done].
Qed.

Lemma reconcileConfigEach_spec aliases existing resolved (o : Objects S) base ws r o' :
  writes o = base ++ ws → configsKnown ws existing → booked configWrite createdConfigs ws →
  resolvedTo objects (dockerConfigName stackName) configProvided ws resolved →
  reconcileConfigEach stackName aliases objects existing resolved o = (r, o') →
  loopDone objects (dockerConfigName stackName) configProvided configWrite createdConfigs
    base aliases resolved r o'.
Proof.
  revert existing resolved o ws. induction aliases as [|alias aliases IH];
    simpl; intros existing resolved o ws Hw Hknown Hb Hok Hrun.
  { inversion Hrun; subst. by eapply loopDone_nil. }
  destruct (objects !! alias) as [c|] eqn:Hc; [|eapply loopDone_skip; eauto].
  destruct (existing !! dockerConfigName stackName alias c) as [found|] eqn:He.
  { destruct (known_provided _ _ Hknown _ _ He) as [Hname Hprov].
    eapply loopDone_take; [by eexists|]. eapply IH; [done..| |done].
    eapply resolvedTo_insert; [done|done|done|]. simpl. by rewrite Hname. }
  destruct (configExternal c) eqn:Hext.
  { inversion Hrun; subst. by eapply loopDone_err. }
  set (name := dockerConfigName stackName alias c) in *.
  unfold st_bind, writing in Hrun. destruct (CreateConfig _ (store o)) as [answer s] eqn:Hcreate.
  set (w := ConfigCreated (newConfig stackName name c) answer) in *.
  assert (booked configWrite createdConfigs (ws ++ [w])) as Hb'.
  { apply (booked_snoc configProvided); [apply config_laws|done| | |apply NoDup_singleton].
    - exists alias, c. do 3 (split; [done|]). intros found Hin Hn. simpl in Hn.
      destruct (known_listed _ _ Hknown _ Hin) as [? ?]. congruence.
    - simpl. intros n ->%list_elem_of_singleton Hin.
      destruct (known_created _ _ Hknown _ Hin) as [? ?]. congruence. }
  destruct answer as [i|e].
  - eapply loopDone_take; [by eexists|]. eapply IH; [|by apply configsKnown_create|done| |exact Hrun].
    + simpl. by rewrite Hw, <- app_assoc.
    + eapply resolvedTo_insert; [by eapply resolvedTo_mono; [apply config_laws|]|done|done|].
      simpl. right. exists alias, c. do 3 (split; [done|]). apply elem_of_app. right. by left.
  - inversion Hrun; subst. eapply loopDone_err; [|exact Hb']. simpl. by rewrite Hw, <- app_assoc.
Qed.
End Configs.

(** ** Secrets *)
Section Secrets.
Context {S : Type} `{ObjectStore S}.
Context (stackName : string) (objects : gmap string SecretObject) (data : gmap string string).
Context (listed : list SwarmSecret).

Definition ownerOf (s : SwarmSecret) : string := default "" (SecretLabels s !! StackNamespace).

(** The names of the secrets that were created. *)
Definition createdSecrets (ws : list ObjectWrite) : list string :=
  omap (λ w, match w with SecretCreated request _ => Some (newSecretName request) | _ => None end) ws.

(** The creation of a secret of the definition. *)
Definition secretCreation (alias : string) (s : SecretObject) : CreateSecretRequest :=
  newSecret stackName (dockerSecretName stackName alias s) s (data !! alias).

Definition secretProvided (ws : list ObjectWrite) (name i : string) : Prop :=
  (∃ found, found ∈ listed ∧ SecretName found = name ∧ SecretID found = i) ∨
  (∃ alias s, objects !! alias = Some s ∧ secretExternal s = false ∧
     dockerSecretName stackName alias s = name ∧
     SecretCreated (secretCreation alias s) (Ok i) ∈ ws).

(** A secret that the stack owns: it was listed with its label, or the run created it. *)
Definition secretOwned (ws : list ObjectWrite) (name i : string) : Prop :=
  (∃ found, found ∈ listed ∧ SecretName found = name ∧ SecretID found = i ∧ ownerOf found = stackName) ∨
  (∃ alias s, objects !! alias = Some s ∧ secretExternal s = false ∧
     dockerSecretName stackName alias s = name ∧
     SecretCreated (secretCreation alias s) (Ok i) ∈ ws).

(** The creation of a missing secret of the definition, or new labels for a secret of the
    stack. *)
Definition secretWrite (ws : list ObjectWrite) (w : ObjectWrite) : Prop :=
  match w with
  | SecretCreated request _ => ∃ alias s, objects !! alias = Some s ∧ secretExternal s = false ∧
      request = secretCreation alias s ∧
      ∀ found, found ∈ listed → SecretName found ≠ newSecretName request
  | SecretLabeled i labels _ => ∃ alias s, objects !! alias = Some s ∧ secretExternal s = false ∧
      labels = resourceLabels stackName (secretLabels s) ∧
      secretOwned ws (dockerSecretName stackName alias s) i
  | ConfigCreated _ _ => False
  end.

Lemma secretOwned_mono ws ws' name i : secretOwned ws name i → secretOwned (ws ++ ws') name i.
Proof. unfold secretOwned. setoid_rewrite elem_of_app. naive_solver. Qed.

#[export] Instance secret_laws : LoopLaws secretProvided secretWrite createdSecrets.
Proof.
  split; [| |intros; apply omap_app].
  - unfold secretProvided. setoid_rewrite elem_of_app. naive_solver.
  - intros ws ws' [| |i labels answer]; simpl; [done|done|].
    intros (alias & s & ? & ? & ? & Ho). exists alias, s. do 3 (split; [done|]). by apply secretOwned_mono.
Qed.

(** The names that the definition owns. *)
Definition ownName (name : string) : Prop :=
  ∃ alias s, objects !! alias = Some s ∧ secretExternal s = false ∧ dockerSecretName stackName alias s = name.

Record secretsKnown (ws : list ObjectWrite) (existing : gmap string SwarmSecret) : Prop := {
  secret_provided name found : existing !! name = Some found →
    SecretName found = name ∧ secretProvided ws name (SecretID found);
  secret_owned name found : existing !! name = Some found → ownName name →
    secretOwned ws name (SecretID found);
  secret_listed found : found ∈ listed → is_Some (existing !! SecretName found);
  secret_created name : name ∈ createdSecrets ws → is_Some (existing !! name);
}.

Lemma secretsKnown_create ws existing alias s i labels :
  secretsKnown ws existing → objects !! alias = Some s → secretExternal s = false →
  let name := dockerSecretName stackName alias s in
  secretsKnown (ws ++ [SecretCreated (secretCreation alias s) (Ok i)])
    (<[name := {| SecretID := i; SecretName := name; SecretCreatedAt := time_zero; SecretDriver := "";
                  SecretLabels := labels |}]> existing).
Proof.
  intros [Hp Ho Hl Hc] Halias Hext name.
  assert (∃ alias s, objects !! alias = Some s ∧ secretExternal s = false ∧
    dockerSecretName stackName alias s = name ∧
    SecretCreated (secretCreation alias s) (Ok i) ∈
      ws ++ [SecretCreated (secretCreation alias s) (Ok i)]) as Hnew.
  { exists alias, s. do 3 (split; [done|]). apply elem_of_app. right. by left. }
  assert (∃ alias0 s0, objects !! alias0 = Some s0 ∧ secretExternal s0 = false ∧
    dockerSecretName stackName alias0 s0 = name ∧
    SecretCreated (secretCreation alias0 s0) (Ok i) ∈
      ws ++ [SecretCreated (secretCreation alias s) (Ok i)]) as Hnew'.
  { exists alias, s. do 3 (split; [done|]). apply elem_of_app. right. by left. }
  split.
  - intros name' found. rewrite lookup_insert. case_decide as Hn; [subst name'|].
    + intros [= <-]. split; [done|]. by right.
    + intros Hf. destruct (Hp _ _ Hf). split; [done|].
      by apply (provided_mono _ _ _ (LoopLaws := secret_laws)).
  - intros name' found. rewrite lookup_insert. case_decide as Hn; [subst name'|].
    + intros [= <-] _. by right.
    + intros Hf Hown. by apply secretOwned_mono, Ho.
  - intros found Hin. rewrite lookup_insert. case_decide; [by eexists|]. by apply Hl.
  - intros name'. rewrite (created_app _ _ _ (LoopLaws := secret_laws)), elem_of_app. simpl.
    rewrite list_elem_of_singleton, lookup_insert. case_decide; [by eexists|].
    intros [Hin| ->]; [by apply Hc|done].
Qed.

Lemma secretsKnown_label ws existing name found labels i answer :
  secretsKnown ws existing → existing !! name = Some found →
  secretsKnown (ws ++ [SecretLabeled i labels answer]) (<[name := withLabels found labels]> existing).
Proof.
  intros [Hp Ho Hl Hc] Hfound. split.
  - intros name' found'. rewrite lookup_insert. case_decide as Hn; [subst name'|].
    + intros [= <-]. destruct (Hp _ _ Hfound). split; [done|].
      by apply (provided_mono _ _ _ (LoopLaws := secret_laws)).
    + intros Hf. destruct (Hp _ _ Hf). split; [done|].
      by apply (provided_mono _ _ _ (LoopLaws := secret_laws)).
  - intros name' found'. rewrite lookup_insert. case_decide as Hn; [subst name'|].
    + intros [= <-] Hown. by apply secretOwned_mono, (Ho _ _ Hfound).
    + intros Hf Hown. by apply secretOwned_mono, Ho.
  - intros found' Hin. rewrite lookup_insert. case_decide; [by eexists|]. by apply Hl.
  - intros name'. rewrite (created_app _ _ _ (LoopLaws := secret_laws)), elem_of_app. simpl.
    rewrite lookup_insert. intros [Hin|Hin]; [|by apply elem_of_nil in Hin].
    case_decide; [by eexists|]. by apply Hc.
Qed.

Lemma reconcileSecretEach_spec aliases existing resolved (o : Objects S) base ws r o' :
  writes o = base ++ ws → secretsKnown ws existing → booked secretWrite createdSecrets ws →
  resolvedTo objects (dockerSecretName stackName) secretProvided ws resolved →
  reconcileSecretEach stackName data aliases objects existing resolved o = (r, o') →
  loopDone objects (dockerSecretName stackName) secretProvided secretWrite createdSecrets
    base aliases resolved r o'.
Proof.
  revert existing resolved o ws. induction aliases as [|alias aliases IH];
    simpl; intros existing resolved o ws Hw Hknown Hb Hok Hrun.
  { inversion Hrun; subst. by eapply loopDone_nil. }
  destruct (objects !! alias) as [s|] eqn:Hs; [|eapply loopDone_skip; eauto].
  set (name := dockerSecretName stackName alias s) in *.
  destruct (existing !! name) as [found|] eqn:He.
  - destruct (secret_provided _ _ Hknown _ _ He) as [Hname Hprov].
    assert (resolvedTo objects (dockerSecretName stackName) secretProvided ws
      (<[alias := {| resolvedID := SecretID found; resolvedName := SecretName found |}]> resolved)) as Hok'.
    { eapply resolvedTo_insert; [done|done|done|]. simpl. by rewrite Hname. }
    eapply loopDone_take; [by eexists|].
    destruct (negb (secretExternal s) && _) eqn:Hlabel; [|by eapply IH].
    apply andb_prop in Hlabel as [Hext%negb_true_iff _].
    unfold st_bind, writing in Hrun. destruct (UpdateLabels _ _ (store o)) as [answer s'] eqn:Hupdate.
    set (labels := resourceLabels stackName (secretLabels s)) in *.
    set (w := SecretLabeled (SecretID found) labels answer) in *.
    assert (booked secretWrite createdSecrets (ws ++ [w])) as Hb'.
    { apply (booked_snoc secretProvided); [apply secret_laws|done| | |constructor].
      - exists alias, s. do 3 (split; [done|]). apply secretOwned_mono.
        apply (secret_owned _ _ Hknown _ _ He). by exists alias, s.
      - simpl. by intros n ?%elem_of_nil. }
    destruct answer as [[]|e].
    + eapply IH; [|by apply secretsKnown_label|done| |exact Hrun].
      * simpl. by rewrite Hw, <- app_assoc.
      * by eapply resolvedTo_mono; [apply secret_laws|].
    + inversion Hrun; subst. eapply loopDone_err; [|exact Hb']. simpl. by rewrite Hw, <- app_assoc.
  - destruct (secretExternal s) eqn:Hext.
    { inversion Hrun; subst. by eapply loopDone_err. }
    fold (secretCreation alias s) in Hrun.
    unfold st_bind, writing in Hrun. destruct (CreateSecret _ (store o)) as [answer s'] eqn:Hcreate.
    set (w := SecretCreated (secretCreation alias s) answer) in *.
    assert (booked secretWrite createdSecrets (ws ++ [w])) as Hb'.
    { apply (booked_snoc secretProvided); [apply secret_laws|done| | |apply NoDup_singleton].
      - exists alias, s. do 3 (split; [done|]). intros found Hin Hn.
        change (newSecretName (secretCreation alias s)) with name in Hn.
        destruct (secret_listed _ _ Hknown _ Hin) as [? ?]. congruence.
      - simpl. intros n ->%list_elem_of_singleton Hin.
        change (dockerSecretName stackName alias s) with name in Hin.
        destruct (secret_created _ _ Hknown _ Hin) as [? ?]. congruence. }
    destruct answer as [i|e].
    + eapply loopDone_take; [by eexists|]. eapply IH; [|by apply secretsKnown_create|done| |exact Hrun].
      * simpl. by rewrite Hw, <- app_assoc.
      * eapply resolvedTo_insert; [by eapply resolvedTo_mono; [apply secret_laws|]|done|done|].
        simpl. right. exists alias, s. do 3 (split; [done|]). apply elem_of_app. right. by left.
    + inversion Hrun; subst. eapply loopDone_err; [|exact Hb']. simpl. by rewrite Hw, <- app_assoc.
Qed.
End Secrets.

(** ** The whole reconciliation *)

(** A secret of the definition that another stack owns. *)
Definition secretConflict (stackName : string) (objects : gmap string SecretObject)
    (listed : list SwarmSecret) : Prop :=
  ∃ alias s found, objects !! alias = Some s ∧ secretExternal s = false ∧
    secretsByName listed !! dockerSecretName stackName alias s = Some found ∧ ownerOf found ≠ stackName.

Section Whole.
Context {S : Type} `{ObjectStore S}.
Context (stackName : string).

(** A listing that Docker gave; without one nothing is written. *)
Definition listedBy {A} (m : S → Result string (list A) * S) (l : list A) (ws : list ObjectWrite) : Prop :=
  (∃ s s', m s = (Ok l, s')) ∨ (l = [] ∧ ws = []).

Lemma configsKnown_initial objects listed :
  configsKnown stackName objects listed [] (configsByName listed).
Proof.
  split.
  - intros name found Hf. destruct (byName_Some ConfigName _ _ _ _ Hf) as [Hm|[Hin Hn]].
    + by rewrite lookup_empty in Hm.
    + split; [done|]. left. by exists found.
  - intros found Hin. destruct (configsByName listed !! ConfigName found) eqn:Hf; [by eexists|].
    by destruct (byName_None ConfigName _ _ _ Hf found Hin).
  - by intros name ?%elem_of_nil.
Qed.

Lemma validateSecretOwnership_spec objects listed :
  match validateSecretOwnership stackName objects (secretsByName listed) with
  | None => ¬ secretConflict stackName objects listed
  | Some _ => secretConflict stackName objects listed
  end.
Proof.
  assert (∀ alias, ownedByOther stackName objects (secretsByName listed) alias = true ↔
    ∃ s found, objects !! alias = Some s ∧ secretExternal s = false ∧
      secretsByName listed !! dockerSecretName stackName alias s = Some found ∧
      ownerOf found ≠ stackName) as Hspec.
  { intros alias. unfold ownedByOther, ownerOf. destruct (objects !! alias) as [s|]; [|naive_solver].
    destruct (secretsByName listed !! _) as [found|] eqn:Hf; [|naive_solver].
    rewrite andb_true_iff, !negb_true_iff, bool_decide_eq_false. naive_solver. }
  unfold validateSecretOwnership, secretConflict. destruct (find _ _) as [alias|] eqn:Hfind.
  - apply find_some in Hfind as [_ Hc]. apply Hspec in Hc. naive_solver.
  - intros (alias & s & found & Hs & Hext & Hf & Howner).
    assert (ownedByOther stackName objects (secretsByName listed) alias = false) as Hno.
    { eapply find_none; [exact Hfind|]. apply list_elem_of_In, elem_of_sortedObjectAliases. by eexists. }
    rewrite <- not_true_iff_false, Hspec in Hno. naive_solver.
Qed.

Lemma secretsKnown_initial objects data listed :
  ¬ secretConflict stackName objects listed →
  secretsKnown stackName objects data listed [] (secretsByName listed).
Proof.
  intros Hok. split.
  - intros name found Hf. destruct (byName_Some SecretName _ _ _ _ Hf) as [Hm|[Hin Hn]].
    + by rewrite lookup_empty in Hm.
    + split; [done|]. left. by exists found.
  - intros name found Hf (alias & s & Hs & Hext & Hname).
    destruct (byName_Some SecretName _ _ _ _ Hf) as [Hm|[Hin Hn]]; [by rewrite lookup_empty in Hm|].
    left. exists found. do 3 (split; [done|]). destruct (decide (ownerOf found = stackName)); [done|].
    destruct Hok. exists alias, s, found. by rewrite Hname.
  - intros found Hin. destruct (secretsByName listed !! SecretName found) eqn:Hf; [by eexists|].
    by destruct (byName_None SecretName _ _ _ Hf found Hin).
  - by intros name ?%elem_of_nil.
Qed.

Lemma booked_nil justified created : created [] = [] → booked justified created [].
Proof. intros Hc. split; [constructor|]. rewrite Hc. constructor. Qed.

Lemma reconcileConfigs_spec objects (o : Objects S) r o' :
  reconcileConfigs stackName objects o = (r, o') →
  ∃ listed ws, listedBy (FindConfigs (configNames stackName objects)) listed ws ∧
    writes o' = writes o ++ ws ∧ booked (configWrite stackName objects listed) createdConfigs ws ∧
    ∀ resolved, r = Ok resolved →
      resolvedTo objects (dockerConfigName stackName) (configProvided stackName objects listed) ws resolved ∧
      dom resolved = dom objects.
Proof.
  unfold reconcileConfigs. case_bool_decide as Hempty.
  { intros [= <- <-]. exists [], []. split; [by right|]. rewrite app_nil_r. split; [done|].
    split; [by apply booked_nil|]. intros resolved [= <-]. subst. split; [|by rewrite !dom_empty_L].
    intros alias x Hx. by rewrite lookup_empty in Hx. }
  unfold st_bind, reading. destruct (FindConfigs _ (store o)) as [[listed|e] s] eqn:Hlist.
  2:{ intros [= <- <-]. exists [], []. split; [by right|]. rewrite app_nil_r. split; [done|].
      split; [by apply booked_nil|done]. }
  intros Hrun. eapply (reconcileConfigEach_spec _ _ _ _ _ _ _ (writes o) []) in Hrun as (ws & Hw & Hb & Hres);
    [|by rewrite app_nil_r|apply configsKnown_initial|by apply booked_nil|].
  2:{ intros alias x Hx. by rewrite lookup_empty in Hx. }
  exists listed, ws. split; [left; by eauto|]. split; [done|]. split; [done|]. intros resolved Hr.
  destruct (Hres _ Hr) as [Hok Hdom]. split; [done|]. apply set_eq. intros alias.
  rewrite !elem_of_dom, Hdom, lookup_empty, elem_of_sortedObjectAliases. split; [|tauto].
  intros [[? ?]|[? ?]]; done.
Qed.

Lemma reconcileSecrets_spec objects data (o : Objects S) r o' :
  reconcileSecrets stackName objects data o = (r, o') →
  ∃ listed ws, listedBy (FindSecrets (secretNames stackName objects)) listed ws ∧
    writes o' = writes o ++ ws ∧ booked (secretWrite stackName objects data listed) createdSecrets ws ∧
    (secretConflict stackName objects listed → ws = [] ∧ is_ok r = false) ∧
    ∀ resolved, r = Ok resolved →
      resolvedTo objects (dockerSecretName stackName) (secretProvided stackName objects data listed) ws resolved ∧
      dom resolved = dom objects.
Proof.
  assert (∀ objects, ¬ secretConflict stackName objects []) as Hnone.
  { intros objs (alias & s & found & _ & _ & Hf & _).
    unfold secretsByName in Hf. simpl in Hf. by rewrite lookup_empty in Hf. }
  unfold reconcileSecrets. case_bool_decide as Hempty.
  { intros [= <- <-]. exists [], []. split; [by right|]. rewrite app_nil_r. split; [done|].
    split; [by apply booked_nil|]. split; [by intros ?%Hnone|].
    intros resolved [= <-]. subst. split; [|by rewrite !dom_empty_L].
    intros alias x Hx. by rewrite lookup_empty in Hx. }
  unfold st_bind, reading. destruct (FindSecrets _ (store o)) as [[listed|e] s] eqn:Hlist.
  2:{ intros [= <- <-]. exists [], []. split; [by right|]. rewrite app_nil_r. split; [done|].
      split; [by apply booked_nil|]. split; [by intros ?%Hnone|done]. }
  cbv zeta. pose proof (validateSecretOwnership_spec objects listed) as Hv.
  destruct (validateSecretOwnership _ _ _) as [e|].
  { intros [= <- <-]. exists listed, []. split; [left; by eauto|]. rewrite app_nil_r. split; [done|].
    split; [by apply booked_nil|]. done. }
  intros Hrun.
  eapply (reconcileSecretEach_spec _ _ _ _ _ _ _ _ (writes o) []) in Hrun as (ws & Hw & Hb & Hres);
    [|by rewrite app_nil_r|by apply secretsKnown_initial|by apply booked_nil|].
  2:{ intros alias x Hx. by rewrite lookup_empty in Hx. }
  exists listed, ws. split; [left; by eauto|]. split; [done|]. split; [done|]. split; [done|].
  intros resolved Hr.
  destruct (Hres _ Hr) as [Hok Hdom]. split; [done|]. apply set_eq. intros alias.
  rewrite !elem_of_dom, Hdom, lookup_empty, elem_of_sortedObjectAliases. split; [|tauto].
  intros [[? ?]|[? ?]]; done.
Qed.

End Whole.

(** ** From the rotation to the cleanup *)

(** An object whose file does not happen to have the name of its generation. *)
Definition renamedObject {T} (kind : ObjectType T) (names : gmap string string) (alias : string) (k : T) : Prop :=
  let '(file, _, external) := properties kind k in
  external = false ∧ file ≠ "" ∧ names !! alias ≠ Some file.

Lemma carriesName_renamed {T} (kind : ObjectType T) names alias k :
  carriesName kind alias k (names !! alias) → renamedObject kind names alias k →
  nameOf kind k ≠ "" ∧ names !! alias = Some (nameOf kind k).
Proof.
  unfold carriesName, renamedObject. destruct (properties kind k) as [[file d] external].
  intros Hc (-> & Hf & Hne). destruct (names !! alias) as [n|]; [|by destruct Hc].
  destruct Hc as (_ & _ & [->|[-> Hm]]); [done|]. split; [|done].
  unfold isManagedRotatedResource in Hm. intros ->. by rewrite bool_decide_eq_true_2 in Hm.
Qed.

(** A live object that carries the desired name of its logical name is not requested. *)
Lemma desired_not_requested {S} `{ResourceManagers S} cfg now stackName dC dS services configs secrets
    (c : Cluster S) t live :
  NoDup (map ConfigID configs) → NoDup (map SecretID secrets) →
  live ∈ (match t with TypeConfig => mapConfigResources configs | TypeSecret => mapSecretResources secrets end) →
  (match t with TypeConfig => dC | TypeSecret => dS end : gmap string string) !! logicalNameOf live =
    Some (ResourceRotation.resourceName live) →
  (t, resourceID live) ∈ requested (clean cfg now stackName dC dS services configs secrets c).2 →
  (t, resourceID live) ∈ requested c.
Proof.
  intros HC HS Hlive Hdesired. pose proof (clean_spec cfg now stackName dC dS services configs secrets c HC HS) as Hspec.
  destruct (clean _ _ _ _ _ _ _ _ _) as [result c']. simpl in *. destruct Hspec as [Hinc Hcomplete].
  destruct (referencedResourceIDs services) as [refs|e] eqn:Hrefs;
    pose proof (referencedEach_spec services (∅, ∅)) as Hr; unfold referencedResourceIDs in Hrefs;
    rewrite Hrefs in Hr.
  2:{ by destruct (Hinc Hr) as [-> _]. }
  destruct (Hcomplete (proj1 Hr)) as (ids & -> & _ & _ & _ & Hiff).
  rewrite elem_of_app. intros [?|Hin]; [done|]. exfalso.
  apply Hiff in Hin as (_ & r & Hin & Hid & Hobs).
  assert (r = live) as ->.
  { destruct t; (eapply resource_by_id; [|exact Hin|exact Hlive|exact Hid]).
    - unfold mapConfigResources. by rewrite map_map.
    - unfold mapSecretResources. rewrite map_map. eapply sublist_NoDup; [exact HS|].
      apply map_sublist, sublist_filter. }
  destruct Hobs as (_ & _ & _ & Hd). destruct t; by destruct (Hd _ Hdesired).
Qed.


(** ** Networks *)
Section NetworkSafety.
Context {IPAM S : Type} `{NetworkStore IPAM S}.
Implicit Types (desired : PlannedNetwork IPAM).

(** Docker showed a network that the stack may use. *)
Definition networkSeen (stackName : string) desired : Prop :=
  ∃ s s' current, GetNetwork (plannedName desired) s = (Ok current, s') ∧
    networkID current ≠ "" ∧ networkName current = plannedName desired ∧
    ServiceNetworkScope (networkName current) (networkScope current) (External desired) = true ∧
    (External desired = false → default "" (networkLabels current !! StackNamespace) = stackName).

Lemma validateNetwork_None stackName desired current s s' :
  GetNetwork (plannedName desired) s = (Ok current, s') →
  validateNetwork stackName desired current = None → networkSeen stackName desired.
Proof.
  intros Hget. unfold validateNetwork.
  destruct (_ || _) eqn:Hc; [done|]. apply orb_false_iff in Hc as [Hc Hscope].
  apply orb_false_iff in Hc as [Hid Hname]. apply bool_decide_eq_false_1 in Hid.
  apply negb_false_iff in Hname, Hscope. apply bool_decide_eq_true_1 in Hname.
  intros Hrest. exists s, s', current. do 4 (split; [done|]). intros Hext. rewrite Hext in Hrest.
  case_bool_decide; done.
Qed.

Lemma waitCreated_None attempts stackName desired lastErr s s' :
  waitCreated attempts stackName desired lastErr s = (None, s') → networkSeen stackName desired.
Proof.
  revert lastErr s. induction attempts as [|attempts IH]; simpl; intros lastErr s Hrun; [done|].
  unfold inspectCreated in Hrun. destruct (GetNetwork _ s) as [[current|e] s1] eqn:Hget.
  - destruct (validateNetwork stackName desired current) as [e|] eqn:Hv; [|by eapply validateNetwork_None].
    destruct attempts as [|attempts]; [done|]. destruct (Pause s1) as [[ctx|] s2]; [done|]. by eapply IH.
  - destruct attempts as [|attempts]; [done|]. destruct (Pause s1) as [[ctx|] s2]; [done|]. by eapply IH.
Qed.

Lemma reconcileNetwork_None stackName desired s s' :
  reconcileNetwork stackName desired s = (None, s') → networkSeen stackName desired.
Proof.
  unfold reconcileNetwork. destruct (GetNetwork _ s) as [[current|[|text]] s1] eqn:Hget; [| |done].
  - intros [= Hv <-]. by eapply validateNetwork_None.
  - destruct (External desired) eqn:Hext; [done|].
    destruct (CreateNetwork _ s1) as [[e|] s2].
    + destruct (GetNetwork _ s2) as [[current|e'] s3] eqn:Hget'; [|done].
      intros [= Hv <-]. by eapply validateNetwork_None.
    + apply waitCreated_None.
Qed.

(** A reconciliation of the networks of a stack that succeeds has seen every planned
    network with its exact name and a scope that services can use, and owned by the stack
    unless it is external: whether the network was there, was just created, or was created
    by somebody else in the meantime. *)
Theorem stack_networks_are_validated stackName planned (s s' : S)
    (Hrun : ReconcileStackNetworks stackName planned s = (None, s')) :
  ∀ network, network ∈ planned → networkSeen stackName network.
Proof.
  revert s Hrun. induction planned as [|n planned IH]; simpl; intros s Hrun network Hin.
  { by apply elem_of_nil in Hin. }
  destruct (reconcileNetwork stackName n s) as [[e|] s1] eqn:Hn; [done|].
  apply elem_of_cons in Hin as [->|Hin]; [by eapply reconcileNetwork_None|by eapply IH].
Qed.
End NetworkSafety.

(** ** An example: a stack with a rotated config and a secret *)
Module ObjectsExample.
Import RotationExample.
#[local] Existing Instance managers.

#[local] Instance docker : ObjectStore unit := {
  FindConfigs _ s := (Ok [generation "c2" "shop-app-hv2" 200], s);
  FindSecrets _ s := (Ok [{| SecretID := "s1"; SecretName := "shop_key"; SecretCreatedAt := 10;
                             SecretDriver := ""; SecretLabels := {[StackNamespace := "shop"]} |}], s);
  CreateConfig _ s := (Ok "c3", s);
  CreateSecret _ s := (Ok "s2", s);
  UpdateLabels _ _ s := (Ok (), s);
}.

Definition key : SecretObject :=
  {| secretName := ""; secretFile := ""; secretData := None; secretDriver := ""; secretDriverOpts := ∅;
     secretTemplateDriver := ""; secretLabels := {["tier" := "front"]}; secretExternal := false |}.
Definition shop : ObjectFile := {| Configs := {["app" := appConfig]}; Secrets := {["key" := key]} |}.
Definition rotated : ObjectFile := (Rotate digest keys keys shop "shop" 8 false).2.
Definition untouched : Objects unit := {| store := (); writes := [] |}.
Definition run := ReconcileResources "shop" (Configs rotated) (Secrets rotated) ∅ untouched.


Lemma shop_unrotated : unrotated configType (Configs shop) ∧ unrotated secretType (Secrets shop).
Proof.
  split; intros k o Hk; unfold shop in Hk; simpl in Hk; apply lookup_singleton_Some in Hk as [<- <-]; vm_compute; reflexivity.
Qed.


(** A network that somebody else created in the meantime. *)
#[local] Instance daemon : NetworkStore unit nat := {
  GetNetwork name s :=
    (if bool_decide (s = 0) then Err NetworkNotFound
     else Ok {| networkID := "n1"; networkName := name; networkScope := "swarm";
                networkLabels := {[StackNamespace := "shop"]} |}, 1);
  CreateNetwork _ s := (Some "already exists", s);
  Pause s := (None, s);
}.
Definition backend : PlannedNetwork unit :=
  {| Alias := "backend"; External := false;
     Spec := {| requestIPAM := None; requestName := "shop_backend"; requestDriver := "overlay";
                requestAttachable := false; requestInternal := false; requestOptions := ∅;
                requestLabels := {[StackNamespace := "shop"]} |} |}.

Lemma stack_networks_are_validated_witness :
  ReconcileStackNetworks "shop" [backend] 0 = (None, 1) ∧ networkSeen "shop" backend.
Proof.
  assert (ReconcileStackNetworks "shop" [backend] 0 = (None, 1)) as Hrun by (vm_compute; reflexivity).
  split; [exact Hrun|]. apply (stack_networks_are_validated "shop" [backend] 0 1 Hrun). left.
Defined.
End ObjectsExample.
