(* ===== verification/GoEncoding.v ===== *)
(** * Encodings of the Go standard library ([encoding/base64], [strconv])

    Unpadded URL-safe base64, and decimal numbers of 64 bits, as the program uses them
    for cursors and subscription identifiers. *)
From S2P Require Import Prelude GoStrings.
Local Open Scope go_scope.

(** ** Decimal numbers ([strconv.FormatInt] and [strconv.ParseInt] with base 10) *)

Definition min_int64 : Z := (- max_int64 - 1)%Z.
Definition is_int64 (z : Z) : bool := (min_int64 <=? z)%Z && (z <=? max_int64)%Z.

Definition digit (n : N) : Ascii.ascii := Ascii.ascii_of_N (48 + n).
Definition digitValue (c : Ascii.ascii) : option N :=
  let n := Ascii.N_of_ascii c in
  if (48 <=? n)%N && (n <=? 57)%N then Some (n - 48)%N else None.

(** The digits of [n] in front of [acc]; 20 digits are enough for 64 bits. *)
Fixpoint formatDigits (fuel : nat) (n : N) (acc : string) : string :=
  match fuel with
  | O => acc
  | S fuel =>
      if (n <? 10)%N then String (digit n) acc
      else formatDigits fuel (n / 10) (String (digit (n mod 10)) acc)
  end.
Definition FormatInt (z : Z) : string :=
  if (z <? 0)%Z then String "-" (formatDigits 20 (Z.to_N (- z)) "")
  else formatDigits 20 (Z.to_N z) "".

Fixpoint parseDigits (s : string) (acc : N) : option N :=
  match s with
  | EmptyString => Some acc
  | String c s => match digitValue c with Some d => parseDigits s (acc * 10 + d) | None => None end
  end.

(** An unsigned number has at least one digit. *)
Definition parseUint (s : string) : option N :=
  match s with EmptyString => None | _ => parseDigits s 0 end.

Definition ParseInt (s : string) : option Z :=
  let value :=
    match s with
    | EmptyString => None
    | String c rest =>
        if Ascii.eqb c "-" then Z.opp <$> (Z.of_N <$> parseUint rest)
        else if Ascii.eqb c "+" then Z.of_N <$> parseUint rest
        else Z.of_N <$> parseUint s
    end in
  z ← value; if is_int64 z then Some z else None.

Lemma digitValue_digit n : (n < 10)%N → digitValue (digit n) = Some n.
Proof.
  intros Hn. unfold digitValue, digit. rewrite Ascii.N_ascii_embedding by lia.
  replace ((48 <=? 48 + n)%N && (48 + n <=? 57)%N) with true; [f_equal; lia|].
  symmetry. apply andb_true_iff. split; apply N.leb_le; lia.
Qed.

Lemma formatDigits_parse fuel n acc :
  (n < 10 ^ N.of_nat fuel)%N → fuel ≠ 0 →
  parseDigits (formatDigits fuel n acc) 0 = parseDigits acc n.
Proof.
  revert n acc. induction fuel as [|fuel IH]; intros n acc Hn Hfuel; [done|]. cbn [formatDigits].
  destruct (N.ltb_spec n 10) as [Hlt|Hge].
  - cbn [parseDigits]. by rewrite digitValue_digit by done.
  - assert (n mod 10 < 10)%N by (apply N.mod_lt; lia).
    rewrite IH.
    + cbn [parseDigits]. rewrite digitValue_digit by done. f_equal.
      rewrite (N.div_mod n 10) at 3 by lia. lia.
    + apply N.Div0.div_lt_upper_bound. rewrite Nat2N.inj_succ, N.pow_succ_r in Hn by lia. lia.
    + intros ->. simpl in Hn. lia.
Qed.

Lemma formatDigits_nonempty fuel n acc : fuel ≠ 0 ∨ acc ≠ "" → formatDigits fuel n acc ≠ "".
Proof.
  revert n acc. induction fuel as [|fuel IH]; simpl; intros n acc H; [naive_solver|].
  destruct (n <? 10)%N; [done|]. apply IH. by right.
Qed.

Lemma formatDigits_digits fuel n acc c :
  c ∈ chars (formatDigits fuel n acc) → (∃ m, (m < 10)%N ∧ c = digit m) ∨ c ∈ chars acc.
Proof.
  revert n acc. induction fuel as [|fuel IH]; simpl; intros n acc Hc; [by right|].
  destruct (N.ltb_spec n 10) as [Hlt|Hge].
  - cbn in Hc. apply elem_of_cons in Hc as [->|Hc]; [left; by exists n|by right].
  - destruct (IH _ _ Hc) as [?|Hacc]; [by left|]. cbn in Hacc.
    apply elem_of_cons in Hacc as [->|?]; [|by right]. left. exists (n mod 10)%N.
    split; [apply N.mod_lt; lia|done].
Qed.

Lemma formatDigits_digit0 fuel n acc c s :
  formatDigits fuel n acc = String c s → (∃ m, (m < 10)%N ∧ c = digit m) ∨ (c ∈ chars acc).
Proof. intros Heq. apply (formatDigits_digits fuel n). rewrite Heq. cbn. by left. Qed.

Lemma digit_ne m c : (m < 10)%N → (Ascii.N_of_ascii c < 48 ∨ 57 < Ascii.N_of_ascii c)%N → digit m ≠ c.
Proof.
  intros Hm Hc <-. unfold digit in Hc. rewrite Ascii.N_ascii_embedding in Hc by lia. lia.
Qed.

Lemma parseUint_format n : (n < 10 ^ 20)%N → parseUint (formatDigits 20 n "") = Some n.
Proof.
  intros Hn. pose proof (formatDigits_parse 20 n "" Hn ltac:(done)) as Hp.
  pose proof (formatDigits_nonempty 20 n "" ltac:(by left)) as Hne.
  unfold parseUint. destruct (formatDigits 20 n "") as [|c s]; [done|]. exact Hp.
Qed.

(** Parsing reads back what was formatted. *)
Lemma ParseInt_FormatInt z : is_int64 z = true → ParseInt (FormatInt z) = Some z.
Proof.
  intros Hz. pose proof Hz as Hz'. unfold is_int64, min_int64, max_int64 in Hz'.
  apply andb_prop in Hz' as [Hlo%Z.leb_le Hhi%Z.leb_le].
  unfold ParseInt, FormatInt. destruct (Z.ltb_spec z 0) as [Hneg|Hpos].
  - simpl Ascii.eqb. cbv iota. rewrite parseUint_format by lia. simpl.
    rewrite Z2N.id by lia. rewrite Z.opp_involutive. by rewrite Hz.
  - pose proof (parseUint_format (Z.to_N z) ltac:(lia)) as Hp.
    destruct (formatDigits 20 (Z.to_N z) "") as [|c s] eqn:Hd; [done|].
    destruct (formatDigits_digit0 _ _ _ _ _ Hd) as [(m & Hm & ->)|Hin]; [|by apply elem_of_nil in Hin].
    rewrite !(proj2 (Ascii.eqb_neq (digit m) _)) by (apply digit_ne; [done|vm_compute; by left]).
    rewrite Hp. simpl. rewrite Z2N.id by lia. by rewrite Hz.
Qed.

(** A formatted number has digits and at most a sign. *)
Lemma FormatInt_without c z :
  c ≠ "-"%char → (Ascii.N_of_ascii c < 48 ∨ 57 < Ascii.N_of_ascii c)%N → without c (FormatInt z).
Proof.
  intros Hsign Hc. unfold without. assert (∀ n, c ∉ chars (formatDigits 20 n "")) as Hd.
  { intros n Hin. apply formatDigits_digits in Hin as [(m & Hm & Heq)|Hin]; [|by apply elem_of_nil in Hin].
    by apply (digit_ne m c Hm Hc). }
  unfold FormatInt. destruct (z <? 0)%Z; [|apply Hd].
  apply (without_cons c "-"%char). split; [congruence|apply Hd].
Qed.

(** ** Base64 ([base64.RawURLEncoding]) *)

(** The sextet of a value below 64, and its value. *)
Definition sextet (n : N) : Ascii.ascii :=
  Ascii.ascii_of_N
    (if n <? 26 then 65 + n else if n <? 52 then 71 + n else if n <? 62 then n - 4
     else if n =? 62 then 45 else 95)%N.
Definition sextetValue (c : Ascii.ascii) : option N :=
  let n := Ascii.N_of_ascii c in
  (if (65 <=? n) && (n <=? 90) then Some (n - 65)
   else if (97 <=? n) && (n <=? 122) then Some (n - 71)
   else if (48 <=? n) && (n <=? 57) then Some (n + 4)
   else if n =? 45 then Some 62 else if n =? 95 then Some 63 else None)%N.

Fixpoint EncodeToString (s : string) : string :=
  match s with
  | EmptyString => EmptyString
  | String a EmptyString =>
      let a := Ascii.N_of_ascii a in
      String (sextet (a / 4)) (String (sextet (a mod 4 * 16)) EmptyString)
  | String a (String b EmptyString) =>
      let a := Ascii.N_of_ascii a in
      let b := Ascii.N_of_ascii b in
      String (sextet (a / 4)) (String (sextet (a mod 4 * 16 + b / 16))
        (String (sextet (b mod 16 * 4)) EmptyString))
  | String a (String b (String c s)) =>
      let a := Ascii.N_of_ascii a in
      let b := Ascii.N_of_ascii b in
      let c := Ascii.N_of_ascii c in
      String (sextet (a / 4)) (String (sextet (a mod 4 * 16 + b / 16))
        (String (sextet (b mod 16 * 4 + c / 64)) (String (sextet (c mod 64)) (EncodeToString s))))
  end.

(** The values of the sextets; line breaks are ignored, other characters are errors. *)
Fixpoint sextets (s : string) : option (list N) :=
  match s with
  | EmptyString => Some []
  | String c s =>
      if bool_decide (Ascii.N_of_ascii c = 10 ∨ Ascii.N_of_ascii c = 13)%N then sextets s
      else n ← sextetValue c; l ← sextets s; Some (n :: l)
  end.

(** Groups of four sextets; the unused bits of the last group are ignored. *)
Fixpoint groups (l : list N) : option string :=
  match l with
  | [] => Some EmptyString
  | [_] => None
  | [x; y] => Some (String (Ascii.ascii_of_N (x * 4 + y / 16)) EmptyString)
  | [x; y; z] =>
      Some (String (Ascii.ascii_of_N (x * 4 + y / 16))
             (String (Ascii.ascii_of_N (y mod 16 * 16 + z / 4)) EmptyString))
  | x :: y :: z :: w :: l =>
      s ← groups l;
      Some (String (Ascii.ascii_of_N (x * 4 + y / 16))
             (String (Ascii.ascii_of_N (y mod 16 * 16 + z / 4))
               (String (Ascii.ascii_of_N (z mod 4 * 64 + w)) s)))
  end%N.

Definition DecodeString (s : string) : option string := sextets s ≫= groups.

Lemma sextet_spec n :
  (n < 64)%N → sextetValue (sextet n) = Some n ∧
    Ascii.N_of_ascii (sextet n) ≠ 10%N ∧ Ascii.N_of_ascii (sextet n) ≠ 13%N ∧ sextet n ≠ ":"%char.
Proof.
  intros Hn.
  assert (Forall (λ n, sextetValue (sextet n) = Some n ∧
    Ascii.N_of_ascii (sextet n) ≠ 10%N ∧ Ascii.N_of_ascii (sextet n) ≠ 13%N ∧ sextet n ≠ ":"%char)
    (map N.of_nat (seq 0 64))) as Hall.
  { apply (bool_decide_eq_true_1 (Forall _ _)). vm_compute. reflexivity. }
  rewrite Forall_forall in Hall. apply Hall. apply list_elem_of_fmap. exists (N.to_nat n).
  split; [by rewrite N2Nat.id|]. apply elem_of_seq. lia.
Qed.

Lemma sextets_cons n s :
  (n < 64)%N → sextets (String (sextet n) s) = (l ← sextets s; Some (n :: l)).
Proof.
  intros Hn. destruct (sextet_spec n Hn) as (Hv & H10 & H13 & _). simpl.
  rewrite bool_decide_eq_false_2 by tauto. by rewrite Hv.
Qed.

Lemma N_of_ascii_lt c : (Ascii.N_of_ascii c < 256)%N.
Proof. apply Ascii.N_ascii_bounded. Qed.

(** Strings by groups of three bytes. *)
Lemma string_ind3 (P : string → Prop) :
  P "" → (∀ a, P (String a "")) → (∀ a b, P (String a (String b ""))) →
  (∀ a b c s, P s → P (String a (String b (String c s)))) → ∀ s, P s.
Proof.
  intros H0 H1 H2 H3. fix IH 1. intros [|a [|b [|c s]]]; [done..|]. apply H3, IH.
Qed.

Lemma mod_low x r k : (r < k)%N → ((x * k + r) mod k = r)%N.
Proof. intros Hr. by rewrite N.add_comm, N.Div0.mod_add, N.mod_small. Qed.

Lemma DecodeString_EncodeToString s : DecodeString (EncodeToString s) = Some s.
Proof.
  unfold DecodeString.
  assert (∀ a, (a / 4 * 4 + a mod 4 * 16 / 16 = a)%N) as E1.
  { intros a. rewrite N.div_mul by done. rewrite (N.div_mod a 4) at 3 by done. lia. }
  assert (∀ a r, (r < 16 → (a / 4) * 4 + (a mod 4 * 16 + r) / 16 = a)%N) as E2.
  { intros a r Hr. rewrite N.div_add_l, (N.div_small r) by lia. rewrite (N.div_mod a 4) at 3 by done. lia. }
  assert (∀ a b r, (b < 256 → r < 4 → (a mod 4 * 16 + b / 16) mod 16 * 16 + (b mod 16 * 4 + r) / 4 = b)%N) as E3.
  { intros a b r Hb Hr. rewrite N.div_add_l, (N.div_small r) by lia.
    rewrite mod_low by (apply N.Div0.div_lt_upper_bound; lia).
    rewrite (N.div_mod b 16) at 3 by done. lia. }
  assert (∀ b c, (c < 256 → (b mod 16 * 4 + c / 64) mod 4 * 64 + c mod 64 = c)%N) as E4.
  { intros b c Hc. rewrite (N.add_comm (_ * 4)), N.Div0.mod_add, N.mod_small by (apply N.Div0.div_lt_upper_bound; lia).
    rewrite (N.div_mod c 64) at 3 by done. lia. }
  assert (∀ a, (a < 256 → a / 4 < 64)%N) as B1 by (intros; apply N.Div0.div_lt_upper_bound; lia).
  assert (∀ a, (a < 256 → a / 16 < 16)%N) as B2 by (intros; apply N.Div0.div_lt_upper_bound; lia).
  assert (∀ a, (a < 256 → a / 64 < 4)%N) as B3 by (intros; apply N.Div0.div_lt_upper_bound; lia).
  assert (∀ a, (a mod 4 < 4)%N) as M1 by (intros; by apply N.mod_lt).
  assert (∀ a, (a mod 16 < 16)%N) as M2 by (intros; by apply N.mod_lt).
  assert (∀ a, (a mod 64 < 64)%N) as M3 by (intros; by apply N.mod_lt).
  induction s as [|a|a b|a b c s IH] using string_ind3; [done|..]; cbn [EncodeToString];
    pose proof (N_of_ascii_lt a); try pose proof (N_of_ascii_lt b); try pose proof (N_of_ascii_lt c);
    pose proof (M1 (Ascii.N_of_ascii a));
    try (pose proof (M2 (Ascii.N_of_ascii b)); pose proof (B2 (Ascii.N_of_ascii b) ltac:(done)));
    try (pose proof (M3 (Ascii.N_of_ascii c)); pose proof (B3 (Ascii.N_of_ascii c) ltac:(done))).
  - rewrite !sextets_cons by (auto; lia). simpl. rewrite E1. by rewrite Ascii.ascii_N_embedding.
  - rewrite !sextets_cons by (auto; lia). simpl. rewrite E2 by done.
    rewrite <- (N.add_0_r (_ mod 16 * 4)), E3 by (done || lia). by rewrite !Ascii.ascii_N_embedding.
  - rewrite !sextets_cons by (auto; lia). destruct (sextets (EncodeToString s)) as [l|]; [|done].
    simpl in *. rewrite IH. simpl. rewrite E2, E3, E4 by done. by rewrite !Ascii.ascii_N_embedding.
Qed.

(** The alphabet has no colon. *)
Lemma EncodeToString_without s : without ":"%char (EncodeToString s).
Proof.
  assert (∀ n s, (n < 64)%N → without ":"%char s → without ":"%char (String (sextet n) s)) as Hs.
  { intros n t Hn Ht. apply without_cons. split; [by apply sextet_spec|done]. }
  assert (without ":"%char "") as H0 by (by intros ?%elem_of_nil).
  assert (∀ a, (a < 256 → a / 4 < 64)%N) as B1 by (intros; apply N.Div0.div_lt_upper_bound; lia).
  assert (∀ a, (a < 256 → a / 16 < 16)%N) as B2 by (intros; apply N.Div0.div_lt_upper_bound; lia).
  assert (∀ a, (a < 256 → a / 64 < 4)%N) as B3 by (intros; apply N.Div0.div_lt_upper_bound; lia).
  assert (∀ a, (a mod 4 < 4)%N) as M1 by (intros; by apply N.mod_lt).
  assert (∀ a, (a mod 16 < 16)%N) as M2 by (intros; by apply N.mod_lt).
  assert (∀ a, (a mod 64 < 64)%N) as M3 by (intros; by apply N.mod_lt).
  induction s as [|a|a b|a b c s IH] using string_ind3; cbn [EncodeToString]; [done|..];
    pose proof (N_of_ascii_lt a); try pose proof (N_of_ascii_lt b); try pose proof (N_of_ascii_lt c);
    pose proof (M1 (Ascii.N_of_ascii a));
    try (pose proof (M2 (Ascii.N_of_ascii b)); pose proof (B2 (Ascii.N_of_ascii b) ltac:(done)));
    try (pose proof (M3 (Ascii.N_of_ascii c)); pose proof (B3 (Ascii.N_of_ascii c) ltac:(done)));
    repeat (apply Hs; [by auto || lia|]); done.
Qed.

(** ** Separators *)

(** [strings.Cut] with a separator of one byte. *)
Definition Cut (c : Ascii.ascii) (s : string) : option (string * string) :=
  i ← index_byte c s; Some (string_take i s, string_drop (S i) s).

Lemma Cut_app c a s : without c a → Cut c (a +:+ String c s) = Some (a, s).
Proof.
  intros Ha. unfold Cut. rewrite index_byte_app by done. cbn [mbind option_bind].
  by rewrite string_take_app, string_drop_app.
Qed.

Lemma Cut_spec c s a b : Cut c s = Some (a, b) → s = a +:+ String c b ∧ without c a.
Proof.
  revert a b. induction s as [|d s IH]; intros a b; [done|]. unfold Cut. cbn [index_byte].
  destruct (Ascii.eqb_spec c d) as [->|Hne].
  - cbn [mbind option_bind string_take string_drop]. intros [= <- <-]. split; [done|by intros ?%elem_of_nil].
  - unfold Cut in IH. destruct (index_byte c s) as [i|]; [|done]. cbn [fmap option_fmap option_map mbind option_bind] in *.
    cbn [string_take string_drop]. intros [= <- <-]. destruct (IH _ _ eq_refl) as [Heq Hw]. split.
    + rewrite string_app_cons. f_equal. exact Heq.
    + by apply without_cons.
Qed.

(** [strings.Split] with a separator of one byte. *)
Fixpoint splitByte (c : Ascii.ascii) (s : string) : list string :=
  match s with
  | EmptyString => [EmptyString]
  | String d s =>
      if Ascii.eqb d c then EmptyString :: splitByte c s
      else match splitByte c s with
           | [] => [String d EmptyString]
           | part :: parts => String d part :: parts
           end
  end.

Lemma splitByte_without c a : without c a → splitByte c a = [a].
Proof.
  induction a as [|d a IH]; [done|]. intros [Hd Ha]%without_cons. simpl.
  rewrite (proj2 (Ascii.eqb_neq d c)) by done. by rewrite IH.
Qed.

Lemma splitByte_app c a s : without c a → splitByte c (a +:+ String c s) = a :: splitByte c s.
Proof.
  induction a as [|d a IH]; [intros _; rewrite string_app_nil; simpl; by rewrite Ascii.eqb_refl|].
  intros [Hd Ha]%without_cons. rewrite string_app_cons. simpl.
  rewrite (proj2 (Ascii.eqb_neq d c)) by done. by rewrite IH.
Qed.
