(* ===== verification/DeploymentQueries.v ===== *)
(** * Queries over the deployments ([deployments/modelstore/sqlite.go])

    The pages of the deployment list with their cursors, the deployments of one service, the
    filter options, the activity of a stack by days or weeks, and the stored logs. The tables
    are those of [DeploymentStore]; started times are stored as nanoseconds of the Unix epoch. *)
From S2P Require Import Prelude GoStrings GoEncoding Comparison Deployments DeploymentStore.
Local Open Scope go_scope.

Inductive queryError :=
| ErrInvalidCursor | ErrLogsUnavailable | QueryNotFound
| UnsupportedInterval (interval : string) | StartNotBeforeEnd | BucketOutsideRange (bucket : Time).

(** ** Cursors *)

(** The Unix epoch on the time line of the program. *)
Definition unixEpoch : Time := (62135596800 * second)%Z.

(** [int64] arithmetic wraps around. *)
Definition wrapInt64 (z : Z) : Z := ((z - min_int64) mod 2 ^ 64 + min_int64)%Z.
Definition UnixNano (t : Time) : Z := wrapInt64 (t - unixEpoch).
(** [time.Unix(0, n).UTC()] *)
Definition unixTime (n : Z) : Time := (unixEpoch + n)%Z.

Definition encodeCursor (started : Z) (id : string) : string :=
  EncodeToString (FormatInt started +:+ ":" +:+ id).

Definition decodeCursor (cursor : string) : Result queryError (Z * string) :=
  match DecodeString cursor with
  | None => Err ErrInvalidCursor
  | Some decoded =>
      match Cut ":" decoded with
      | None => Err ErrInvalidCursor
      | Some (startedRaw, id) =>
          if bool_decide (id = "") then Err ErrInvalidCursor
          else match ParseInt startedRaw with
               | None => Err ErrInvalidCursor
               | Some started => Ok (started, id)
               end
      end
  end.

(** ** The list *)

(** [model.ListFilter]; an empty status or phase is [None]. *)
Record ListFilter := {
  Stacks : list string; filterServices : list string; filterStatus : option Status;
  filterErrorCode : string; filterPhase : option Phase; Limit : Z; Cursor : string;
}.

(** [model.DeploymentSummary] *)
Record DeploymentSummary := {
  summaryID : string; summaryStack : string; summaryCommit : string; summaryStatus : Status;
  summaryStartedAt : Time; summaryFinishedAt : option Time; summaryErrorCode : string;
  summaryPhase : Phase; summaryOutcome : Outcome;
  summaryBasis : ComparisonBasis; summaryComparison : ComparisonStatus; summaryBasisID : string;
  summaryChanges : ChangeSummary; summaryResources : ResourceSummary; summaryDiffAvailable : bool;
  summaryLatestAttempt : string; summaryAttempts : Z;
}.

Record Page := { pageDeployments : list DeploymentSummary; NextCursor : string }.

(** [summaryRow.toSummary], of the columns that the query computes; error text and
    retry flag are not part of a summary. *)
Definition toSummary (t : Tables) (row : deploymentRow) : DeploymentSummary :=
  let details := row_details row in
  let o := detailsOutcome details in
  {| summaryID := row_id row; summaryStack := row_stack row; summaryCommit := row_commit row;
     summaryStatus := projectedStatus (row_status row) (isSuperseded t row);
     summaryStartedAt := row_started_at row; summaryFinishedAt := row_finished_at row;
     summaryErrorCode := row_error_code row; summaryPhase := row_phase row;
     summaryOutcome :=
       {| ErrorDiagnostic := ""; Retryable := false; ApplyStatus := ApplyStatus o;
          VerificationStatus := VerificationStatus o; CleanupStatus := CleanupStatus o;
          ActualState := ActualState o; ObservedAt := ObservedAt o |};
     summaryBasis := detailsBasis details; summaryComparison := detailsComparison details;
     summaryBasisID := detailsBasisID details; summaryChanges := detailsSummary details;
     summaryResources := detailsResources details; summaryDiffAvailable := detailsDiffAvailable details;
     summaryLatestAttempt := match newestFirst (attemptRows t (row_id row)) with
                             | a :: _ => arow_id a | [] => "" end;
     summaryAttempts := Z.of_nat (length (attemptRows t (row_id row))) |}.

(** [filterDeploymentIdentities] *)
Definition matchesIdentities (f : ListFilter) (row : deploymentRow) : bool :=
  (bool_decide (Stacks f = []) || bool_decide (row_stack row ∈ Stacks f)) &&
  (bool_decide (filterServices f = []) ||
   existsb (λ s, bool_decide (serviceName s ∈ filterServices f)) (Services (Definition_ (row_desired row)))).

Definition matchesStatus (t : Tables) (f : ListFilter) (row : deploymentRow) : bool :=
  match filterStatus f with
  | None => true
  | Some Superseded => isSuperseded t row
  | Some status => bool_decide (row_status row = status) && negb (isSuperseded t row)
  end.

Definition matchesFilter (t : Tables) (f : ListFilter) (row : deploymentRow) : bool :=
  matchesIdentities f row && matchesStatus t f row &&
  (bool_decide (filterErrorCode f = "") || bool_decide (row_error_code row = filterErrorCode f)) &&
  match filterPhase f with None => true | Some phase => bool_decide (row_phase row = phase) end.

(** The condition of the cursor, and the order of the page: the newest first, then by
    identifier. *)
Definition afterKey (k : Time * string) (row : deploymentRow) : bool :=
  bool_decide (row_started_at row < k.1)%Z ||
  (bool_decide (row_started_at row = k.1) && string_lt k.2 (row_id row)).
Definition rowLess (x y : deploymentRow) : bool := afterKey (row_started_at x, row_id x) y.

Definition pageSize (f : ListFilter) : nat :=
  if (Limit f <? 1)%Z || (100 <? Limit f)%Z then 20 else Z.to_nat (Limit f).

(** The rows that the query fetches: one more than a page. *)
Definition fetch (t : Tables) (f : ListFilter) (after : deploymentRow → bool) : list deploymentRow :=
  take (S (pageSize f))
    (stable_sort rowLess (filter (λ r, matchesFilter t f r && after r = true) (deployments t))).

Definition pageOf (limit : nat) (items : list DeploymentSummary) : Page :=
  if bool_decide (limit < length items)
  then {| pageDeployments := take limit items;
          NextCursor := match items !! Nat.pred limit with
                        | Some last => encodeCursor (UnixNano (summaryStartedAt last)) (summaryID last)
                        | None => ""
                        end |}
  else {| pageDeployments := items; NextCursor := "" |}.

Definition List (t : Tables) (f : ListFilter) : Result queryError Page :=
  if bool_decide (Cursor f = "") then Ok (pageOf (pageSize f) (map (toSummary t) (fetch t f (λ _, true))))
  else match decodeCursor (Cursor f) with
       | Err e => Err e
       | Ok (started, id) =>
           Ok (pageOf (pageSize f) (map (toSummary t) (fetch t f (afterKey (unixTime started, id)))))
       end.

(** ** The deployments of a service *)
Record ServiceDeployment := {
  sdID : string; sdCommit : string; sdStatus : Status; sdStartedAt : Time; sdImage : string;
}.

Definition serviceRows (t : Tables) (stack service : string) : list (deploymentRow * Service) :=
  flat_map (λ row, map (pair row) (filter (λ s, serviceName s = service) (Services (Definition_ (row_desired row)))))
    (filter (λ row, row_stack row = stack) (deployments t)).

Definition ListServiceDeployments (t : Tables) (stack service : string) (limit : Z) : list ServiceDeployment :=
  let limit := if (limit <? 1)%Z || (100 <? limit)%Z then 5 else Z.to_nat limit in
  map (λ rs, {| sdID := row_id rs.1; sdCommit := row_commit rs.1;
                sdStatus := projectedStatus (row_status rs.1) (isSuperseded t rs.1);
                sdStartedAt := row_started_at rs.1; sdImage := serviceImage rs.2 |})
    (take limit (stable_sort (λ x y, rowLess x.1 y.1) (serviceRows t stack service))).

(** ** Filter options *)
Record FilterService := { StackName : string; FilterServiceName : string }.
#[export] Instance FilterService_eq_dec : EqDecision FilterService.
Proof. solve_decision. Defined.

Definition filterServiceLess (x y : FilterService) : bool :=
  if bool_decide (StackName x = StackName y)
  then string_lt (FilterServiceName x) (FilterServiceName y) else string_lt (StackName x) (StackName y).

Definition FilterOptions (t : Tables) : list string * list FilterService :=
  (sort_strings (remove_dups (filter (λ s, s ≠ "") (map row_stack (deployments t)))),
   stable_sort filterServiceLess (remove_dups (flat_map (λ row,
     map (λ s, {| StackName := row_stack row; FilterServiceName := serviceName s |})
       (filter (λ s, serviceName s ≠ "") (Services (Definition_ (row_desired row))))) (deployments t)))).

(** ** Logs *)
Definition InitJobLogs (t : Tables) (deploymentID attemptID : string) (ordinal : Z)
    : Result queryError string :=
  match find (λ j, bool_decide (jrow_attempt_id j = attemptID) && bool_decide (jrow_ordinal j = ordinal) &&
                   existsb (λ a, bool_decide (arow_id a = jrow_attempt_id j) &&
                                 bool_decide (arow_deployment_id a = deploymentID)) (deployment_attempts t))
          (deployment_init_jobs t) with
  | None => Err QueryNotFound
  | Some job => match jrow_logs job with None => Err ErrLogsUnavailable | Some logs => Ok logs end
  end.

(** ** Activity *)
Definition ActivityIntervalDaily : string := "daily".
Definition ActivityIntervalWeekly : string := "weekly".
Definition activityDaysPerWeek : Z := 7.
Definition day : Duration := (24 * hour)%Z.

Record ActivityBucket := {
  bucketStart : Time; bucketSucceeded : nat; bucketFailed : nat; bucketRunning : nat;
  bucketInterrupted : nat; bucketSuperseded : nat;
}.
Definition emptyBucket (start : Time) : ActivityBucket :=
  {| bucketStart := start; bucketSucceeded := 0; bucketFailed := 0; bucketRunning := 0;
     bucketInterrupted := 0; bucketSuperseded := 0 |}.
Definition setCount (status : Status) (n : nat) (b : ActivityBucket) : ActivityBucket :=
  let pick (s : Status) (old : nat) := if bool_decide (status = s) then n else old in
  {| bucketStart := bucketStart b; bucketSucceeded := pick Succeeded (bucketSucceeded b);
     bucketFailed := pick Failed (bucketFailed b); bucketRunning := pick Running (bucketRunning b);
     bucketInterrupted := pick Interrupted (bucketInterrupted b);
     bucketSuperseded := pick Superseded (bucketSuperseded b) |}.

(** The length of a bucket: in UTC a calendar day has 24 hours. *)
Definition bucketLength (interval : string) : Duration :=
  if bool_decide (interval = ActivityIntervalWeekly) then (activityDaysPerWeek * day)%Z else day.

(** The date that the query groups by, as the number of its day; SQLite divides integers
    towards zero, and the week begins on Monday. Day 0 is a Thursday. *)
Definition bucketDate (interval : string) (started : Time) : Z :=
  let date := (Z.quot (started - unixEpoch) second / 86400)%Z in
  if bool_decide (interval = ActivityIntervalWeekly)
  then let weekday := ((date + 4) mod 7)%Z in (date - (weekday + 6) mod 7)%Z
  else date.
Definition dateStart (date : Z) : Time := (unixEpoch + date * day)%Z.

Definition activityStatus (t : Tables) (row : deploymentRow) : Status :=
  projectedStatus (row_status row) (isSuperseded t row).

(** The rows of the range. *)
Definition activityRows (t : Tables) (stack : string) (start stop : Time) : list deploymentRow :=
  filter (λ r, row_stack r = stack ∧ (start ≤ row_started_at r)%Z ∧ (row_started_at r < stop)%Z)
    (deployments t).

(** The order of the texts of the statuses. *)
Definition statusOrder (s : Status) : nat :=
  match s with Failed => 0 | Interrupted => 1 | Running => 2 | Succeeded => 3 | Superseded => 4 end.

Section Grouping.
(** The query selects a status that is computed for one row of each group: SQLite leaves open
    which one it is. *)
Context (pick : list deploymentRow → deploymentRow).

(** The groups of one date. [GROUP BY status] names the column of the table and not the
    computed status, which only decides under which name the group is reported, and the
    order. *)
Definition dateGroups (t : Tables) (interval : string) (rows : list deploymentRow) (date : Z)
    : list (Z * Status * nat) :=
  stable_sort (λ g h, (statusOrder g.1.2 <? statusOrder h.1.2)%nat)
    (omap (λ status,
        let group := filter (λ r, bucketDate interval (row_started_at r) = date ∧ row_status r = status) rows in
        if bool_decide (group = []) then None
        else Some (date, activityStatus t (pick group), length group))
      [Failed; Interrupted; Running; Succeeded; Superseded]).

(** The groups of the query in their order: date, status and count. *)
Definition activityGroups (t : Tables) (interval stack : string) (start stop : Time)
    : list (Z * Status * nat) :=
  let rows := activityRows t stack start stop in
  let dates := stable_sort Z.ltb (remove_dups (map (λ r, bucketDate interval (row_started_at r)) rows)) in
  flat_map (dateGroups t interval rows) dates.
End Grouping.

Fixpoint bucketsFrom (fuel : nat) (step : Duration) (start stop : Time) : list ActivityBucket :=
  match fuel with
  | O => []
  | S fuel =>
      if (start <? stop)%Z then emptyBucket start :: bucketsFrom fuel step (start + step) stop else []
  end.
(** Enough steps to reach the end. *)
Definition bucketFuel (start stop : Time) : nat := S (Z.to_nat ((stop - start) / day)).

(** The count of a group replaces that of its bucket; the statuses of the table are all supported. *)
Definition fillBucket (buckets : list ActivityBucket) (g : Z * Status * nat)
    : Result queryError (list ActivityBucket) :=
  let '(date, status, n) := g in
  match list_find (λ b, bucketStart b = dateStart date) buckets with
  | None => Err (BucketOutsideRange (dateStart date))
  | Some (i, b) => Ok (<[i := setCount status n b]> buckets)
  end.

Fixpoint fillBuckets (groups : list (Z * Status * nat)) (buckets : list ActivityBucket)
    : Result queryError (list ActivityBucket) :=
  match groups with
  | [] => Ok buckets
  | g :: groups => match fillBucket buckets g with Err e => Err e | Ok buckets => fillBuckets groups buckets end
  end.

Definition Activity (pick : list deploymentRow → deploymentRow) (t : Tables) (stack interval : string) (start stop : Time)
    : Result queryError (list ActivityBucket) :=
  if negb (bool_decide (interval = ActivityIntervalDaily)) && negb (bool_decide (interval = ActivityIntervalWeekly))
  then Err (UnsupportedInterval interval)
  else if negb (start <? stop)%Z then Err StartNotBeforeEnd
  else fillBuckets (activityGroups pick t interval stack start stop)
         (bucketsFrom (bucketFuel start stop) (bucketLength interval) start stop).
