(* ===== verification/DeploymentPages.v ===== *)
(** * What the deployment queries promise

    A cursor is read back as it was written, following the cursors of the pages lists every
    matching deployment once and in order, and the activity counts every deployment of the range. *)
From S2P Require Import Prelude GoStrings GoEncoding Comparison Deployments DeploymentStore DeploymentQueries.
Local Open Scope go_scope.

(** ** Cursors *)
Lemma encodeCursor_decode started id :
  is_int64 started = true → id ≠ "" → decodeCursor (encodeCursor started id) = Ok (started, id).
Proof.
  intros Hz Hid. unfold decodeCursor, encodeCursor. rewrite DecodeString_EncodeToString.
  change (":" +:+ id) with (String ":" id). rewrite Cut_app.
  - rewrite bool_decide_eq_false_2 by done. by rewrite ParseInt_FormatInt.
  - apply FormatInt_without; [done|right; vm_compute; done].
Qed.

Lemma encodeCursor_nonempty started id : encodeCursor started id ≠ "".
Proof.
  unfold encodeCursor. intros Heq.
  pose proof (DecodeString_EncodeToString (FormatInt started +:+ ":" +:+ id)) as Hd.
  rewrite Heq in Hd. change (DecodeString "") with (Some "") in Hd.
  destruct (FormatInt started); discriminate Hd.
Qed.

Lemma ParseInt_int64 s z : ParseInt s = Some z → is_int64 z = true.
Proof.
  unfold ParseInt. destruct (match s with EmptyString => None | String _ _ => _ end) as [v|]; [|done].
  simpl. destruct (is_int64 v) eqn:Hv; [|done]. by intros [= <-].
Qed.

(** A cursor reads back as it was written, for every time of 64 bits and every identifier
    that is not empty, and the time it is made of is the time it stands for; and whatever text
    is accepted as a cursor stands for such a pair. *)
Theorem cursor_roundtrip started id
    (Hstarted : is_int64 started = true) (Hid : id ≠ "") :
  decodeCursor (encodeCursor started id) = Ok (started, id) ∧
  UnixNano (unixTime started) = started ∧
  ∀ cursor n i, decodeCursor cursor = Ok (n, i) → is_int64 n = true ∧ i ≠ "".
Proof.
  split; [by apply encodeCursor_decode|]. split.
  - unfold UnixNano, unixTime, wrapInt64. unfold is_int64, min_int64, max_int64 in *.
    apply andb_prop in Hstarted as [?%Z.leb_le ?%Z.leb_le]. rewrite Z.mod_small; lia.
  - intros cursor n i. unfold decodeCursor. destruct (DecodeString cursor) as [decoded|]; [|done].
    destruct (Cut ":" decoded) as [[raw j]|]; [|done]. case_bool_decide; [done|].
    destruct (ParseInt raw) as [m|] eqn:Hp; [|done]. intros [= <- <-]. split; [by eapply ParseInt_int64|done].
Qed.

(** ** The order of the pages *)
Lemma rowLess_asym x y : rowLess x y = true → rowLess y x = false.
Proof.
  unfold rowLess, afterKey. simpl. intros H.
  destruct (decide (row_started_at x = row_started_at y)) as [Heq|Hne].
  - rewrite Heq, bool_decide_eq_false_2 in H |- * by lia.
    rewrite !bool_decide_eq_true_2 in H |- * by done. simpl in *. by apply string_lt_asym.
  - rewrite (bool_decide_eq_false_2 (row_started_at y = _)) in H by congruence.
    rewrite (bool_decide_eq_false_2 (row_started_at x = _)) by congruence.
    rewrite orb_false_r in H |- *. apply bool_decide_eq_true_1 in H. apply bool_decide_eq_false_2. lia.
Qed.

Lemma rowLess_cotrans x y z : rowLess x z = true → rowLess x y = true ∨ rowLess y z = true.
Proof.
  unfold rowLess, afterKey. simpl. rewrite !orb_true_iff, !andb_true_iff, !bool_decide_eq_true.
  intros [Hlt|[Heq Hid]].
  - destruct (Z.lt_trichotomy (row_started_at y) (row_started_at x)) as [?|[Hxy|?]]; [by left; left| |].
    + right. left. lia.
    + right. left. lia.
  - destruct (Z.lt_trichotomy (row_started_at y) (row_started_at x)) as [?|[Hxy|?]]; [by left; left| |].
    + destruct (string_lt_cotrans _ (row_id y) _ Hid); [left|right]; right; split; congruence || done.
    + right. left. lia.
Qed.

Lemma rowLess_irrefl x : rowLess x x = false.
Proof. destruct (rowLess x x) eqn:Hx; [|done]. by rewrite (rowLess_asym x x Hx) in Hx. Qed.

Lemma rowLess_total x y : row_id x ≠ row_id y → rowLess x y = false → rowLess y x = true.
Proof.
  unfold rowLess, afterKey. simpl. rewrite orb_false_iff, bool_decide_eq_false. intros Hne [Hge Hid].
  apply orb_true_iff. destruct (decide (row_started_at x = row_started_at y)) as [Heq|Hne'].
  - right. rewrite Heq in *. rewrite bool_decide_eq_true_2 in * by done. simpl in *.
    by apply string_lt_trichotomy.
  - left. apply bool_decide_eq_true_2. lia.
Qed.

(** ** Following the cursors *)
Definition withCursor (f : ListFilter) (cursor : string) : ListFilter :=
  {| Stacks := Stacks f; filterServices := filterServices f; filterStatus := filterStatus f;
     filterErrorCode := filterErrorCode f; filterPhase := filterPhase f; Limit := Limit f;
     Cursor := cursor |}.

(** The pages from a cursor on, at most [fuel] further ones. *)
Fixpoint follow (fuel : nat) (t : Tables) (f : ListFilter) (cursor : string)
    : Result queryError (list (list DeploymentSummary)) :=
  match List t (withCursor f cursor) with
  | Err e => Err e
  | Ok page =>
      if bool_decide (NextCursor page = "") then Ok [pageDeployments page]
      else match fuel with
           | O => Ok [pageDeployments page]
           | S fuel =>
               match follow fuel t f (NextCursor page) with
               | Err e => Err e
               | Ok pages => Ok (pageDeployments page :: pages)
               end
           end
  end.

(** All the deployments that match, in the order of the list. *)
Definition matching (t : Tables) (f : ListFilter) : list deploymentRow :=
  stable_sort rowLess (filter (λ r, matchesFilter t f r = true) (deployments t)).

Section Pages.
Context (t : Tables) (f : ListFilter).
Hypothesis Hids : NoDup (rowIDs t).

Lemma row_by_id x y : x ∈ deployments t → y ∈ deployments t → row_id x = row_id y → x = y.
Proof.
  intros [i Hi]%list_elem_of_lookup_1 [j Hj]%list_elem_of_lookup_1 Heq.
  assert (i = j) as <-; [|congruence].
  eapply (NoDup_lookup (rowIDs t)); [done| |]; unfold rowIDs; rewrite list_lookup_fmap_Some; eauto.
Qed.

Lemma matching_elem r : r ∈ matching t f → r ∈ deployments t.
Proof. unfold matching. rewrite stable_sort_perm. by intros [_ ?]%list_elem_of_filter. Qed.

Lemma matching_NoDup : NoDup (matching t f).
Proof. unfold matching. rewrite stable_sort_perm. apply NoDup_filter. by eapply (NoDup_fmap_1 row_id). Qed.

Lemma matching_sorted : StronglySorted (λ a b, rowLess b a = false) (matching t f).
Proof. apply stable_sort_sorted; [apply rowLess_asym|apply rowLess_cotrans]. Qed.

Lemma fetch_all : fetch t (withCursor f "") (λ _, true) = take (S (pageSize f)) (matching t f).
Proof.
  unfold fetch, matching. f_equal. f_equal. apply list_filter_iff_in. intros r _.
  by rewrite andb_true_r.
Qed.

(** The rows behind the one at index [i]. *)
Lemma fetch_after i r c :
  matching t f !! i = Some r →
  fetch t (withCursor f c) (afterKey (row_started_at r, row_id r)) =
    take (S (pageSize f)) (drop (S i) (matching t f)).
Proof.
  intros Hi. unfold fetch. f_equal.
  rewrite <- (sorted_after rowLess (matching t f) i r matching_sorted matching_NoDup (rowLess_irrefl r));
    [|intros y Hy Hne Hlt|done].
  - unfold matching. rewrite <- stable_sort_filter_comm.
    + f_equal. rewrite list_filter_filter. apply list_filter_iff_in. intros x _.
      rewrite andb_true_iff. unfold rowLess. tauto.
    + apply rowLess_asym.
    + apply rowLess_cotrans.
    + intros x y Hx%list_elem_of_filter Hy%list_elem_of_filter Hxy Hyx.
      destruct (decide (row_id x = row_id y)) as [Heq|Hne]; [by apply row_by_id; tauto|].
      by rewrite (rowLess_total x y Hne Hxy) in Hyx.
  - apply rowLess_total in Hlt; [done|]. intros Heq. apply Hne, row_by_id; [by apply matching_elem| |done].
    apply matching_elem. by eapply list_elem_of_lookup_2.
Qed.
End Pages.

(** The rows of the table can be read back from their cursors. *)
Definition storable (t : Tables) : Prop :=
  Forall (λ r, is_int64 (row_started_at r - unixEpoch) = true ∧ row_id r ≠ "") (deployments t).

Lemma UnixNano_int64 u : is_int64 (u - unixEpoch) = true → UnixNano u = (u - unixEpoch)%Z.
Proof.
  unfold UnixNano, wrapInt64, is_int64, min_int64, max_int64. intros [?%Z.leb_le ?%Z.leb_le]%andb_prop.
  rewrite Z.mod_small; lia.
Qed.

Lemma pageSize_bounds f : 1 ≤ pageSize f ≤ 100.
Proof.
  unfold pageSize. destruct (Z.ltb_spec (Limit f) 1), (Z.ltb_spec 100 (Limit f)); simpl; lia.
Qed.

Section Following.
Context (t : Tables) (f : ListFilter).
Hypothesis Hids : NoDup (rowIDs t).
Hypothesis Hstorable : storable t.

(** The cursor of a page that begins at index [j]. *)
Definition cursorAt (j : nat) (cursor : string) : Prop :=
  match j with
  | O => cursor = ""
  | S i => ∃ r, matching t f !! i = Some r ∧ cursor = encodeCursor (UnixNano (row_started_at r)) (row_id r)
  end.

Lemma List_at j cursor :
  cursorAt j cursor →
  List t (withCursor f cursor) =
    Ok (pageOf (pageSize f) (map (toSummary t) (take (S (pageSize f)) (drop j (matching t f))))).
Proof.
  destruct j as [|i]; simpl.
  - intros ->. unfold List. simpl. by rewrite fetch_all, drop_0.
  - intros (r & Hi & ->). unfold List. simpl. rewrite bool_decide_eq_false_2 by apply encodeCursor_nonempty.
    assert (is_int64 (row_started_at r - unixEpoch) = true ∧ row_id r ≠ "") as [Hz Hid].
    { unfold storable in Hstorable. rewrite Forall_forall in Hstorable. apply Hstorable.
      apply (matching_elem t f). by eapply list_elem_of_lookup_2. }
    rewrite UnixNano_int64, encodeCursor_decode by done.
    replace (unixTime _) with (row_started_at r) by (unfold unixTime; lia).
    by rewrite (fetch_after t f Hids i r _ Hi).
Qed.

(** A page of the rows: the next cursor is that of its last row when there are more. *)
Lemma pageOf_rows limit rows :
  1 ≤ limit →
  (length rows ≤ limit ∧
     pageOf limit (map (toSummary t) (take (S limit) rows)) =
       {| pageDeployments := map (toSummary t) rows; NextCursor := "" |}) ∨
  (limit < length rows ∧ ∃ r, rows !! Nat.pred limit = Some r ∧
     pageOf limit (map (toSummary t) (take (S limit) rows)) =
       {| pageDeployments := map (toSummary t) (take limit rows);
          NextCursor := encodeCursor (UnixNano (row_started_at r)) (row_id r) |}).
Proof.
  intros Hl. unfold pageOf. rewrite length_map, length_take.
  destruct (decide (length rows ≤ limit)) as [Hle|Hgt].
  - left. split; [done|]. rewrite bool_decide_eq_false_2 by lia. by rewrite take_ge by lia.
  - right. split; [lia|]. rewrite bool_decide_eq_true_2 by lia.
    destruct (rows !! Nat.pred limit) as [r|] eqn:Hr; [|apply lookup_ge_None_1 in Hr; lia].
    exists r. split; [done|]. rewrite list_lookup_fmap, lookup_take_lt, Hr by lia.
    simpl. f_equal. rewrite <- firstn_map, firstn_firstn, Nat.min_l by lia. by rewrite firstn_map.
Qed.

Lemma follow_at fuel j cursor :
  cursorAt j cursor → length (drop j (matching t f)) ≤ fuel →
  ∃ pages, follow fuel t f cursor = Ok pages ∧
    concat pages = map (toSummary t) (drop j (matching t f)) ∧
    Forall (λ page, length page ≤ pageSize f) pages.
Proof.
  pose proof (pageSize_bounds f) as [Hl _]. revert j cursor.
  induction fuel as [|fuel IH]; intros j cursor Hc Hlen; cbn [follow];
    rewrite (List_at j cursor Hc);
    destruct (pageOf_rows (pageSize f) (drop j (matching t f)) Hl) as [[Hle ->]|[Hgt (r & Hr & ->)]];
    cbn [NextCursor pageDeployments].
  1,3: rewrite bool_decide_eq_true_2 by done; eexists; split; [done|]; cbn [concat];
    rewrite app_nil_r; split; [done|]; repeat constructor; by rewrite length_map.
  { lia. }
  rewrite bool_decide_eq_false_2 by apply encodeCursor_nonempty.
  destruct (IH (j + pageSize f) (encodeCursor (UnixNano (row_started_at r)) (row_id r)))
    as (pages & -> & Hconcat & Hsizes).
  - rewrite lookup_drop in Hr. destruct (pageSize f) as [|l]; [lia|]. rewrite Nat.add_succ_r. by exists r.
  - rewrite length_drop in *. lia.
  - eexists. split; [done|]. cbn [concat]. rewrite Hconcat, <- map_app, <- drop_drop, take_drop.
    split; [done|]. constructor; [|done]. rewrite length_map, length_take. lia.
Qed.
End Following.


(** ** Activity *)

Definition countOf (status : Status) (b : ActivityBucket) : nat :=
  match status with
  | Succeeded => bucketSucceeded b | Failed => bucketFailed b | Running => bucketRunning b
  | Interrupted => bucketInterrupted b | Superseded => bucketSuperseded b
  end.

Lemma countOf_setCount s status n b :
  countOf s (setCount status n b) = if decide (status = s) then n else countOf s b.
Proof. by destruct s, status. Qed.

Lemma bucketsFrom_lookup fuel step start stop k :
  (0 < step)%Z → (stop - start ≤ Z.of_nat fuel * step)%Z →
  bucketsFrom fuel step start stop !! k =
    if decide (start + Z.of_nat k * step < stop)%Z then Some (emptyBucket (start + Z.of_nat k * step)) else None.
Proof.
  intros Hstep. revert start k. induction fuel as [|fuel IH]; intros start k Hfuel; simpl.
  { rewrite decide_False by nia. done. }
  destruct (Z.ltb_spec start stop) as [Hlt|Hge].
  - destruct k as [|k]; simpl.
    + rewrite Z.mul_0_l, Z.add_0_r. by rewrite decide_True.
    + rewrite IH by lia. replace (start + step + Z.of_nat k * step)%Z
        with (start + Z.of_nat (S k) * step)%Z by lia. done.
  - rewrite decide_False by nia. done.
Qed.

Lemma bucketLength_days interval : ∃ n, (1 ≤ n)%Z ∧ bucketLength interval = (n * day)%Z.
Proof.
  unfold bucketLength, activityDaysPerWeek. destruct (bool_decide _); [by exists 7%Z|].
  exists 1%Z. split; [done|]. by rewrite Z.mul_1_l.
Qed.

Lemma bucketFuel_enough start stop interval :
  (start < stop)%Z → (stop - start ≤ Z.of_nat (bucketFuel start stop) * bucketLength interval)%Z.
Proof.
  intros Hlt. destruct (bucketLength_days interval) as (n & Hn & ->). unfold bucketFuel.
  assert (0 < day)%Z by done. assert (0 ≤ (stop - start) / day)%Z by (apply Z.div_pos; lia).
  rewrite Nat2Z.inj_succ, Z2Nat.id by done.
  pose proof (Z.mul_succ_div_gt (stop - start) day ltac:(done)). nia.
Qed.

(** The date of a time of the epoch or later: the bucket that contains it begins there. *)
Lemma bucketDate_days interval u :
  (unixEpoch ≤ u)%Z →
  let D := ((u - unixEpoch) / day)%Z in
  bucketDate interval u =
    (if bool_decide (interval = ActivityIntervalWeekly) then 7 * ((D + 3) / 7) - 3 else D)%Z.
Proof.
  intros Hu D. unfold bucketDate.
  assert (Z.quot (u - unixEpoch) second / 86400 = D)%Z as ->.
  { rewrite Z.quot_div_nonneg by (unfold second; lia). unfold D, day, hour, minute.
    rewrite Z.div_div by done. f_equal. }
  destruct (bool_decide _); [|done]. rewrite Z.add_mod_idemp_l by done.
  replace (D + 4 + 6)%Z with (D + 3 + 1 * 7)%Z by lia. rewrite Z.mod_add by done.
  pose proof (Z.div_mod (D + 3) 7 ltac:(done)). lia.
Qed.

Lemma day_range D u : (D = (u - unixEpoch) / day ↔ unixEpoch + D * day ≤ u < unixEpoch + (D + 1) * day)%Z.
Proof.
  assert (0 < day)%Z by done. split.
  - intros ->. pose proof (Z.mul_div_le (u - unixEpoch) day ltac:(done)).
    pose proof (Z.mul_succ_div_gt (u - unixEpoch) day ltac:(done)). lia.
  - intros ?. apply Z.div_unique_pos with (r := (u - unixEpoch - D * day)%Z); lia.
Qed.

(** A time of the range is grouped into the bucket that contains it. *)
Lemma bucketDate_bucket interval start u k :
  (unixEpoch ≤ start)%Z → dateStart (bucketDate interval start) = start → (start ≤ u)%Z →
  dateStart (bucketDate interval u) = (start + k * bucketLength interval)%Z ↔
    (start + k * bucketLength interval ≤ u < start + (k + 1) * bucketLength interval)%Z.
Proof.
  intros Hepoch Haligned Hu. assert (0 < day)%Z by done.
  pose proof (bucketDate_days interval u ltac:(lia)) as Hd. cbv zeta in Hd.
  pose proof (bucketDate_days interval start Hepoch) as Hs. cbv zeta in Hs.
  rewrite Hd. rewrite Hs in Haligned. clear Hd Hs. unfold dateStart in *.
  pose proof (proj1 (day_range _ u) eq_refl) as HD.
  set (D := ((u - unixEpoch) / day)%Z) in *. set (D0 := ((start - unixEpoch) / day)%Z) in *.
  unfold bucketLength, activityDaysPerWeek. destruct (bool_decide _).
  - set (W0 := ((D0 + 3) / 7)%Z) in *. pose proof (Z.div_mod (D + 3) 7 ltac:(done)) as Hdiv.
    pose proof (Z.mod_pos_bound (D + 3) 7 ltac:(done)) as Hmod.
    set (W := ((D + 3) / 7)%Z) in *. rewrite <- Haligned. split.
    + intros Heq. assert (W = W0 + k)%Z by nia. nia.
    + intros Hr. assert (W = W0 + k)%Z as ->; [|nia].
      assert (7 * (W0 + k) - 3 ≤ D)%Z by nia. assert (D < 7 * (W0 + k + 1) - 3)%Z by nia. lia.
  - rewrite <- Haligned. split.
    + intros Heq. assert (D = D0 + k)%Z by nia. nia.
    + intros Hr. assert (D = D0 + k)%Z as ->; [|nia].
      assert (D0 + k ≤ D)%Z by nia. assert (D < D0 + k + 1)%Z by nia. lia.
Qed.

(** The count that the last group has for a bucket and a status. *)
Definition groupCount (groups : list (Z * Status * nat)) (start : Time) (status : Status) : option nat :=
  last (omap (λ g, if decide (dateStart g.1.1 = start ∧ g.1.2 = status) then Some g.2 else None) groups).

Lemma dateStart_inj d d' : dateStart d = dateStart d' → d = d'.
Proof. unfold dateStart. assert (0 < day)%Z by done. nia. Qed.

Lemma groupCount_cons g groups start s :
  groupCount (g :: groups) start s =
    match groupCount groups start s with
    | Some n => Some n
    | None => if decide (dateStart g.1.1 = start ∧ g.1.2 = s) then Some g.2 else None
    end.
Proof.
  unfold groupCount. simpl. case_decide; [|by destruct (last _)].
  rewrite last_cons. by destruct (last _).
Qed.

Lemma groupCount_spec groups d s :
  match groupCount groups (dateStart d) s with
  | Some n => (d, s, n) ∈ groups
  | None => ∀ n, (d, s, n) ∉ groups
  end.
Proof.
  induction groups as [|[[d' s'] n] groups IH]; [by intros n ?%elem_of_nil|].
  rewrite groupCount_cons. destruct (groupCount groups (dateStart d) s) as [m|]; [by right|].
  simpl. case_decide as Hm.
  - destruct Hm as [Hd ->]. apply dateStart_inj in Hd. subst. by left.
  - intros m [Heq|Hin]%elem_of_cons; [|by eapply IH]. inversion Heq; subst. by apply Hm.
Qed.

Lemma fillBuckets_spec groups buckets :
  NoDup (map bucketStart buckets) →
  (∀ g, g ∈ groups → ∃ b, b ∈ buckets ∧ bucketStart b = dateStart g.1.1) →
  ∃ buckets', fillBuckets groups buckets = Ok buckets' ∧
    map bucketStart buckets' = map bucketStart buckets ∧
    ∀ k b b', buckets !! k = Some b → buckets' !! k = Some b' →
      ∀ s, countOf s b' = default (countOf s b) (groupCount groups (bucketStart b) s).
Proof.
  revert buckets. induction groups as [|[[d s] n] groups IH]; intros buckets Hstarts Hin.
  { exists buckets. split; [done|]. split; [done|]. intros k b b' Hb Hb' s.
    rewrite Hb in Hb'. by inversion Hb'. }
  destruct (Hin (d, s, n) ltac:(by left)) as (b0 & Hb0 & Hstart0). cbn [fillBuckets fillBucket]. simpl in Hstart0.
  destruct (list_find (λ b, bucketStart b = dateStart d) buckets) as [[i b1]|] eqn:Hfind.
  2:{ apply list_find_None in Hfind. rewrite Forall_forall in Hfind. by apply Hfind in Hb0. }
  apply list_find_Some in Hfind as (Hi & Hb1 & _).
  assert (map bucketStart (<[i:=setCount s n b1]> buckets) = map bucketStart buckets) as Hsame.
  { change (bucketStart <$> (<[i:=setCount s n b1]> buckets) = bucketStart <$> buckets).
    rewrite list_fmap_insert. apply list_insert_id. rewrite list_lookup_fmap, Hi. done. }
  destruct (IH (<[i:=setCount s n b1]> buckets)) as (buckets' & Hrun & Hstarts' & Hcounts).
  - by rewrite Hsame.
  - intros g Hg. destruct (Hin g ltac:(by right)) as (b & Hb & Hbs).
    apply list_elem_of_lookup_1 in Hb as [j Hj]. destruct (decide (i = j)) as [<-|Hne].
    + rewrite Hi in Hj. inversion Hj; subst b. exists (setCount s n b1). split; [|done].
      apply list_elem_of_insert. by eapply lookup_lt_Some.
    + exists b. split; [|done]. apply (list_elem_of_lookup_2 _ j). by rewrite list_lookup_insert_ne.
  - exists buckets'. split; [done|]. split; [by rewrite Hstarts'|]. intros k b b' Hb Hb' s'.
    rewrite groupCount_cons. simpl. destruct (decide (i = k)) as [<-|Hne].
    + rewrite Hi in Hb. inversion Hb; subst b1. clear Hb.
      rewrite (Hcounts i (setCount s n b) b') by
        (done || by apply list_lookup_insert_eq; eapply lookup_lt_Some).
      rewrite countOf_setCount. simpl. rewrite Hb1. destruct (groupCount groups (dateStart d) s'); [done|].
      simpl. destruct (decide (s = s')) as [<-|Hs]; [by rewrite decide_True|].
      by rewrite decide_False by (by intros [_ ?]).
    + rewrite (Hcounts k b b') by (by rewrite ?list_lookup_insert_ne).
      destruct (groupCount groups (bucketStart b) s'); [done|]. simpl. rewrite decide_False; [done|].
      intros [Heq _]. apply Hne. eapply (NoDup_lookup (map bucketStart buckets)); [done| |].
      * change (map bucketStart buckets) with (bucketStart <$> buckets). rewrite list_lookup_fmap, Hi. simpl. done.
      * change (map bucketStart buckets) with (bucketStart <$> buckets). rewrite list_lookup_fmap, Hb. simpl. by rewrite Hb1, Heq.
Qed.

Section Groups.
Context (pick : list deploymentRow → deploymentRow).
Hypothesis Hpick : ∀ rows, rows ≠ [] → pick rows ∈ rows.
Context (t : Tables) (interval stack : string) (start stop : Time).

Definition groupRows (d : Z) (s : Status) : list deploymentRow :=
  filter (λ r, bucketDate interval (row_started_at r) = d ∧ row_status r = s)
    (activityRows t stack start stop).

Lemma activityGroups_elem d s n :
  (d, s, n) ∈ activityGroups pick t interval stack start stop ↔
    ∃ raw, groupRows d raw ≠ [] ∧ s = activityStatus t (pick (groupRows d raw)) ∧
      n = length (groupRows d raw).
Proof. clear Hpick.
  unfold activityGroups. rewrite list_elem_of_In, in_flat_map. setoid_rewrite <- list_elem_of_In.
  unfold dateGroups. setoid_rewrite stable_sort_perm. setoid_rewrite list_elem_of_omap. split.
  - intros (d' & _ & raw & _ & Heq). case_bool_decide as Hn; [done|]. inversion Heq; subst. by exists raw.
  - intros (raw & Hn & -> & ->). exists d. split.
    + destruct (groupRows d raw) as [|r rows] eqn:Hr; [done|].
      assert (r ∈ groupRows d raw) as Hin by (rewrite Hr; by left).
      apply list_elem_of_filter in Hin as [[Hd _] Hin].
      rewrite elem_of_remove_dups, list_elem_of_fmap. by exists r.
    + exists raw. split; [destruct raw; set_solver|]. fold (groupRows d raw).
      by rewrite bool_decide_eq_false_2.
Qed.

(** A status under which no row of the range is reported but those that have it. *)
Definition plainStatus (s : Status) : Prop :=
  ∀ r, r ∈ activityRows t stack start stop → activityStatus t r = s ↔ row_status r = s.

Lemma plainStatus_intro s :
  s = Succeeded ∨ s = Running ∨
    (s ≠ Superseded ∧ ∀ r, r ∈ activityRows t stack start stop → isSuperseded t r = false) → plainStatus s.
Proof.
  intros Hs r Hr. unfold activityStatus, projectedStatus.
  destruct (isSuperseded t r) eqn:Hsup; [|done].
  assert (row_status r = Failed ∨ row_status r = Interrupted) as Hst.
  { unfold isSuperseded in Hsup. apply andb_prop in Hsup as [Hsup _]. by apply bool_decide_eq_true_1 in Hsup. }
  destruct Hs as [->|[->|[_ Hs]]]; [| |by rewrite Hs in Hsup].
  all: split; [done|]. all: intros Heq; rewrite Heq in Hst; by destruct Hst.
Qed.

Lemma groupCount_rows d s :
  plainStatus s →
  default 0 (groupCount (activityGroups pick t interval stack start stop) (dateStart d) s) =
    length (filter (λ r, bucketDate interval (row_started_at r) = d ∧ activityStatus t r = s)
              (activityRows t stack start stop)).
Proof.
  intros Hplain.
  assert (length (filter (λ r, bucketDate interval (row_started_at r) = d ∧ activityStatus t r = s)
    (activityRows t stack start stop)) = length (groupRows d s)) as ->.
  { unfold groupRows. f_equal. apply list_filter_iff_in. intros r Hr. by rewrite (Hplain r Hr). }
  assert (∀ raw, groupRows d raw ≠ [] → pick (groupRows d raw) ∈ activityRows t stack start stop ∧
    row_status (pick (groupRows d raw)) = raw) as Hpicked.
  { intros raw Hne. specialize (Hpick _ Hne). apply list_elem_of_filter in Hpick. tauto. }
  pose proof (groupCount_spec (activityGroups pick t interval stack start stop) d s) as Hg.
  destruct (groupCount _ _ _) as [n|]; simpl.
  - apply activityGroups_elem in Hg as (raw & Hne & Hs & ->). destruct (Hpicked raw Hne) as [Hin Hraw].
    symmetry in Hs. apply Hplain in Hs; [|done]. by rewrite <- Hs, Hraw.
  - destruct (decide (groupRows d s = [])) as [->|Hne]; [done|]. exfalso.
    destruct (Hpicked s Hne) as [Hin Hraw]. apply (Hg (length (groupRows d s))).
    apply activityGroups_elem. exists s. split; [done|]. split; [|done]. symmetry. by apply Hplain.
Qed.
End Groups.

Section Range.
Context (pick : list deploymentRow → deploymentRow).
Context (t : Tables) (interval stack : string) (start stop : Time).
Hypothesis Haligned : dateStart (bucketDate interval start) = start.
Hypothesis Hepoch : (unixEpoch ≤ start)%Z.

Lemma bucketLength_pos : (0 < bucketLength interval)%Z.
Proof.
  destruct (bucketLength_days interval) as (n & Hn & ->). unfold day, hour, minute, second. lia.
Qed.

(** A group of the range has its bucket. *)
Lemma group_bucket d raw (buckets : list ActivityBucket) :
  (∀ k, buckets !! k =
    if decide (start + Z.of_nat k * bucketLength interval < stop)%Z
    then Some (emptyBucket (start + Z.of_nat k * bucketLength interval)) else None) →
  groupRows t interval stack start stop d raw ≠ [] →
  ∃ b, b ∈ buckets ∧ bucketStart b = dateStart d.
Proof.
  intros Hlookup Hne. pose proof bucketLength_pos as Hpos.
  destruct (groupRows _ _ _ _ _ d raw) as [|r rows] eqn:Hr; [done|].
  assert (r ∈ groupRows t interval stack start stop d raw) as Hin by (rewrite Hr; by left).
  apply list_elem_of_filter in Hin as [[<- _] Hin]. apply list_elem_of_filter in Hin as [(_ & Hlo & Hhi) _].
  set (k := ((row_started_at r - start) / bucketLength interval)%Z).
  assert (0 ≤ k)%Z by (apply Z.div_pos; lia).
  assert (start + k * bucketLength interval ≤ row_started_at r <
    start + (k + 1) * bucketLength interval)%Z as Hk.
  { pose proof (Z.mul_div_le (row_started_at r - start) _ Hpos).
    pose proof (Z.mul_succ_div_gt (row_started_at r - start) _ Hpos). unfold k. lia. }
  exists (emptyBucket (start + k * bucketLength interval)%Z). split.
  - apply (list_elem_of_lookup_2 _ (Z.to_nat k)). rewrite Hlookup, Z2Nat.id by done.
    rewrite decide_True by lia. done.
  - symmetry. simpl. by apply (bucketDate_bucket interval start (row_started_at r) k).
Qed.

(** The count of a bucket is that of its rows. *)
Lemma bucket_rows k status :
  (∀ rows, rows ≠ [] → pick rows ∈ rows) → plainStatus t stack start stop status →
  let first := (start + Z.of_nat k * bucketLength interval)%Z in
  default 0 (groupCount (activityGroups pick t interval stack start stop) first status) =
    length (filter (λ r, row_stack r = stack ∧
              (first ≤ row_started_at r < first + bucketLength interval)%Z ∧
              (row_started_at r < stop)%Z ∧ activityStatus t r = status) (deployments t)).
Proof.
  intros Hpick Hplain first. pose proof bucketLength_pos as Hpos.
  assert (dateStart (bucketDate interval first) = first) as Hfirst.
  { apply (bucketDate_bucket interval start first (Z.of_nat k)); [done|done|unfold first; nia|unfold first; lia]. }
  rewrite <- Hfirst at 1. rewrite groupCount_rows by done. unfold activityRows.
  rewrite list_filter_filter. f_equal. apply list_filter_iff_in. intros r _.
  assert ((start ≤ row_started_at r)%Z →
    bucketDate interval (row_started_at r) = bucketDate interval first ↔
    (first ≤ row_started_at r < first + bucketLength interval)%Z) as Hrow.
  { intros Hge. pose proof (bucketDate_bucket interval start (row_started_at r) (Z.of_nat k) Hepoch Haligned Hge) as Hb'.
    fold first in Hb'. replace (start + (Z.of_nat k + 1) * bucketLength interval)%Z
      with (first + bucketLength interval)%Z in Hb' by (unfold first; lia).
    rewrite <- Hb'. split; [by intros ->|]. intros Heq. apply dateStart_inj. by rewrite Heq, Hfirst. }
  split.
  - intros ((Hd & Hs) & Hst & Hlo & Hhi). apply Hrow in Hd; tauto.
  - intros (Hst & Hr & Hhi & Hs). assert (start ≤ row_started_at r)%Z by (unfold first in Hr; nia).
    split; [|tauto]. split; [by apply Hrow|done].
Qed.
End Range.

(** The activity covers its range and counts what is not superseded. For a range that begins
    at a boundary of the interval, on or after the Unix epoch, the answer has the buckets
    from the beginning to the end without a gap, empty ones included, and each bucket
    has the number of the succeeded and of the running deployments of the stack that
    began in it and in the range, whatever row SQLite computes the status of a
    group for. When no deployment of the range is superseded, this is so for failed
    and interrupted ones, too. *)
Theorem activity_counts_deployments pick t stack interval start stop
    (Hpick : ∀ rows, rows ≠ [] → pick rows ∈ rows)
    (Hinterval : interval = ActivityIntervalDaily ∨ interval = ActivityIntervalWeekly)
    (Haligned : dateStart (bucketDate interval start) = start)
    (Hepoch : (unixEpoch ≤ start)%Z) (Hrange : (start < stop)%Z) :
  ∃ buckets, Activity pick t stack interval start stop = Ok buckets ∧
    ∀ k, match buckets !! k with
         | None => (stop ≤ start + Z.of_nat k * bucketLength interval)%Z
         | Some b =>
             let first := (start + Z.of_nat k * bucketLength interval)%Z in
             (first < stop)%Z ∧ bucketStart b = first ∧
             ∀ status,
               status = Succeeded ∨ status = Running ∨
               (status ≠ Superseded ∧ ∀ r, r ∈ activityRows t stack start stop → isSuperseded t r = false) →
               countOf status b =
               length (filter (λ r, row_stack r = stack ∧
                         (first ≤ row_started_at r < first + bucketLength interval)%Z ∧
                         (row_started_at r < stop)%Z ∧ activityStatus t r = status) (deployments t))
         end.
Proof.
  unfold Activity. destruct (negb _ && negb _) eqn:Hi.
  { apply andb_prop in Hi as [Hd%negb_true_iff Hw%negb_true_iff].
    apply bool_decide_eq_false_1 in Hd, Hw. tauto. }
  rewrite (proj2 (Z.ltb_lt start stop)) by done. simpl negb. cbv iota.
  destruct (bucketLength_days interval) as (n & Hn & Hlen).
  assert (0 < bucketLength interval)%Z as Hpos by (rewrite Hlen; unfold day, hour, minute, second; lia).
  pose proof (λ k, bucketsFrom_lookup (bucketFuel start stop) (bucketLength interval) start stop k Hpos
    (bucketFuel_enough start stop interval Hrange)) as Hlookup.
  set (buckets := bucketsFrom _ _ start stop) in *.
  assert (∀ k b, buckets !! k = Some b → b = emptyBucket (start + Z.of_nat k * bucketLength interval)%Z ∧
    (start + Z.of_nat k * bucketLength interval < stop)%Z) as Hbucket.
  { intros k b Hk. rewrite Hlookup in Hk. case_decide; [|done]. by inversion Hk. }
  destruct (fillBuckets_spec (activityGroups pick t interval stack start stop) buckets) as (filled & Hrun & Hstarts & Hcounts).
  - apply NoDup_alt. intros i j x Hi' Hj'. change (map bucketStart buckets) with (bucketStart <$> buckets) in Hi', Hj'.
    rewrite list_lookup_fmap_Some in Hi', Hj'. destruct Hi' as (bi & -> & Hbi), Hj' as (bj & Heq & Hbj).
    apply Hbucket in Hbi as [-> _], Hbj as [-> _]. simpl in Heq. nia.
  - intros [[d s] m] Hg. apply activityGroups_elem in Hg as (raw & Hne & _).
    by apply (group_bucket t interval stack start stop Haligned Hepoch d raw).
  - exists filled. split; [done|]. intros k.
    assert (length filled = length buckets) as Hlength.
    { by rewrite <- (length_map bucketStart filled), Hstarts, length_map. }
    destruct (filled !! k) as [b|] eqn:Hk.
    + destruct (buckets !! k) as [b0|] eqn:Hk0.
      2:{ apply lookup_ge_None_1 in Hk0. apply lookup_lt_Some in Hk. lia. }
      destruct (Hbucket _ _ Hk0) as [-> Hlt]. split; [done|].
      assert (bucketStart b = start + Z.of_nat k * bucketLength interval)%Z as Hb.
      { assert ((map bucketStart filled) !! k = Some (bucketStart b)) as Hx.
        { change (map bucketStart filled) with (bucketStart <$> filled). by rewrite list_lookup_fmap, Hk. }
        rewrite Hstarts in Hx. change (map bucketStart buckets) with (bucketStart <$> buckets) in Hx.
        rewrite list_lookup_fmap, Hk0 in Hx. simpl in Hx. by inversion Hx. }
      split; [done|]. intros status Hstatus. rewrite (Hcounts k _ b Hk0 Hk). simpl bucketStart.
      replace (countOf status (emptyBucket _)) with 0 by by destruct status.
      apply bucket_rows; [done..|]. by apply plainStatus_intro.
    + apply lookup_ge_None_1 in Hk. rewrite Hlength in Hk. apply lookup_ge_None_2 in Hk.
      rewrite Hlookup in Hk. case_decide; [done|]. lia.
Qed.

(** ** An example: three deployments of a stack in two days *)
Module QueryExample.

Definition outcome : Outcome :=
  {| ErrorDiagnostic := ""; Retryable := false; ApplyStatus := StageSucceeded;
     VerificationStatus := StageSucceeded; CleanupStatus := StageSkipped; ActualState := ActualStateUnknown;
     ObservedAt := None |}.
Definition desired : Prepared :=
  {| Definition_ := {| Path := "app.yaml"; Services := []; fileDigest := "d" |}; Digest := "d";
     Fields := ∅; Fingerprints := ∅; Redacted := ∅ |}.
Definition details : deploymentDetails :=
  {| UpdateGenerations := ∅; unresolved_services := None; detailsOutcome := outcome;
     detailsBasis := BasisNone; detailsComparison := ComparisonUnknown; detailsBasisID := "";
     detailsSummary := {| SummaryAdded := 0; SummaryChanged := 0; SummaryRemoved := 0; SummaryRedacted := 0 |};
     detailsResources := {| SummaryServices := 0; SummaryConfigs := 0; SummarySecrets := 0;
                            SummaryNetworks := 0; SummaryVolumes := 0 |};
     detailsDiffAvailable := false |}.
Definition row (id : string) (status : Status) (started : Time) : deploymentRow :=
  {| row_id := id; row_stack := "shop"; row_commit := "c"; row_status := status; row_error_code := "";
     row_phase := PhaseCompleted; row_started_at := started; row_finished_at := Some (started + 1)%Z;
     row_desired := desired; row_details := details; row_changes := [] |}.

(** Thursday, the 1st of January 1970, and the day after it. *)
Definition table : Tables :=
  {| deployments := [row "a" Failed unixEpoch; row "b" Succeeded (unixEpoch + hour)%Z;
                     row "c" Succeeded (unixEpoch + hour)%Z];
     deployment_attempts := []; deployment_init_jobs := []; desired_snapshots := ∅ |}.
Definition two : ListFilter :=
  {| Stacks := ["shop"]; filterServices := []; filterStatus := None; filterErrorCode := "";
     filterPhase := None; Limit := 2; Cursor := "" |}.

Lemma cursor_roundtrip_witness :
  decodeCursor (encodeCursor (-42) "id:1") = Ok ((-42)%Z, "id:1") ∧ UnixNano (unixTime (-42)) = (-42)%Z.
Proof.
  destruct (cursor_roundtrip (-42) "id:1") as (Hd & Hu & _); [reflexivity|discriminate|].
  split; [exact Hd|exact Hu].
Defined.


Definition firstRow (rows : list deploymentRow) : deploymentRow :=
  match rows with r :: _ => r | [] => row "" Failed 0 end.

Lemma activity_counts_deployments_witness :
  ∃ buckets, Activity firstRow table "shop" "daily" unixEpoch (unixEpoch + 2 * day) = Ok buckets ∧
    length buckets = 2 ∧ ∃ b, buckets !! 0 = Some b ∧ bucketSucceeded b = 2.
Proof.
  destruct (activity_counts_deployments firstRow table "shop" "daily" unixEpoch (unixEpoch + 2 * day))
    as (buckets & Ha & Hb).
  - intros [|r rows] Hne; [congruence|apply list_elem_of_here].
  - left. reflexivity.
  - vm_compute. reflexivity.
  - vm_compute. discriminate.
  - vm_compute. reflexivity.
  - exists buckets. split; [exact Ha|].
    assert (Activity firstRow table "shop" "daily" unixEpoch (unixEpoch + 2 * day) =
      Ok [setCount Superseded 1 (setCount Succeeded 2 (emptyBucket unixEpoch)); emptyBucket (unixEpoch + day)])
      as Heq by (vm_compute; reflexivity).
    rewrite Heq in Ha. inversion Ha. split; [reflexivity|]. eexists. split; reflexivity.
Defined.

(** Two failed deployments on one day, the first of them superseded. *)
Definition failures : Tables :=
  {| deployments := [row "a" Failed unixEpoch; row "b" Failed (unixEpoch + hour)%Z];
     deployment_attempts := []; deployment_init_jobs := []; desired_snapshots := ∅ |}.

(** The activity of that day never has one failed and one superseded deployment: the two rows
    are one group of the query, which is counted as failed or as superseded. *)
Lemma activity_misreports_failures pick :
  (∀ rows, rows ≠ [] → pick rows ∈ rows) →
  map (activityStatus failures) (deployments failures) = [Superseded; Failed] ∧
  ∃ b, Activity pick failures "shop" "daily" unixEpoch (unixEpoch + day) = Ok [b] ∧
    ((bucketFailed b = 2 ∧ bucketSuperseded b = 0) ∨ (bucketFailed b = 0 ∧ bucketSuperseded b = 2)).
Proof.
  intros Hpick. split; [vm_compute; reflexivity|].
  assert (activityGroups pick failures "daily" "shop" unixEpoch (unixEpoch + day) =
    [(0%Z, activityStatus failures (pick (deployments failures)), 2)]) as Hgroups by (vm_compute; reflexivity).
  assert (Activity pick failures "shop" "daily" unixEpoch (unixEpoch + day) =
    fillBuckets (activityGroups pick failures "daily" "shop" unixEpoch (unixEpoch + day)) [emptyBucket unixEpoch])
    as -> by reflexivity.
  rewrite Hgroups. assert (deployments failures ≠ []) as Hne by done.
  specialize (Hpick _ Hne). set (r := pick _) in *. clearbody r.
  apply elem_of_cons in Hpick as [->|Hpick]; [|apply list_elem_of_singleton in Hpick as ->].
  - eexists. split; [vm_compute; reflexivity|]. by right.
  - eexists. split; [vm_compute; reflexivity|]. by left.
Qed.
End QueryExample.
