(* ===== verification/GoRunes.v ===== *)
(** * Runes of Go strings ([unicode/utf8], [unicode/utf16], [html])

    A string is ranged over by its runes: the UTF-8 encodings of code points, and U+FFFD for
    every byte that begins none. *)
From S2P Require Import Prelude GoStrings GoEncoding.
Local Open Scope go_scope.

#[local] Ltac Zify.zify_post_hook ::= Z.to_euclidean_division_equations.

Definition rune : Type := N.
Definition RuneError : rune := 65533%N.
(** [utf8.ValidRune] *)
Definition ValidRune (r : rune) : bool := (r <? 55296)%N || ((57343 <? r)%N && (r <? 1114112)%N).

Definition code (c : Ascii.ascii) : N := Ascii.N_of_ascii c.
Definition byte (n : N) : Ascii.ascii := Ascii.ascii_of_N n.

(** The payload of a continuation byte at the front. *)
Definition continuation (s : string) : option (N * string) :=
  match s with
  | String c s => if (128 <=? code c)%N && (code c <? 192)%N then Some (code c - 128, s)%N else None
  | EmptyString => None
  end.

(** The rune that begins with the byte [c], and the number of bytes that follow it: a code
    point has only its shortest encoding, and surrogates have none. *)
Definition decodeRune (c : Ascii.ascii) (s : string) : rune * nat :=
  let b := code c in
  if (b <? 128)%N then (b, 0)
  else
    default (RuneError, 0)
      ('(x, s) ← continuation s;
       if (192 <=? b)%N && (b <? 224)%N then
         let r := ((b - 192) * 64 + x)%N in
         if (128 <=? r)%N then Some (r, 1) else None
       else
         '(y, s) ← continuation s;
         if (224 <=? b)%N && (b <? 240)%N then
           let r := ((b - 224) * 4096 + x * 64 + y)%N in
           if (2048 <=? r)%N && ValidRune r then Some (r, 2) else None
         else
           '(z, s) ← continuation s;
           if (240 <=? b)%N && (b <? 248)%N then
             let r := ((b - 240) * 262144 + x * 4096 + y * 64 + z)%N in
             if (65536 <=? r)%N && ValidRune r then Some (r, 3) else None
           else None).

(** The runes of a string, in order. *)
Fixpoint runes (s : string) : list rune :=
  match s with
  | EmptyString => []
  | String c s1 =>
      match decodeRune c s1 with
      | (r, 0) => r :: runes s1
      | (r, 1) => r :: match s1 with String _ s2 => runes s2 | _ => [] end
      | (r, 2) => r :: match s1 with String _ (String _ s3) => runes s3 | _ => [] end
      | (r, _) => r :: match s1 with String _ (String _ (String _ s4)) => runes s4 | _ => [] end
      end
  end.

(** [utf8.EncodeRune] *)
Definition encodeRune (r : rune) : string :=
  let r := if ValidRune r then r else RuneError in
  bytes (if (r <? 128)%N then [r]
         else if (r <? 2048)%N then [192 + r / 64; 128 + r mod 64]
         else if (r <? 65536)%N then [224 + r / 4096; 128 + r / 64 mod 64; 128 + r mod 64]
         else [240 + r / 262144; 128 + r / 4096 mod 64; 128 + r / 64 mod 64; 128 + r mod 64])%N.

(** The conversion of a slice of runes. *)
Definition fromRunes (l : list rune) : string := foldr (λ r s, encodeRune r +:+ s) "" l.

Lemma code_byte n : (n < 256)%N → code (byte n) = n.
Proof. apply Ascii.N_ascii_embedding. Qed.

Lemma continuation_byte n s : (n < 64)%N → continuation (String (byte (128 + n)) s) = Some (n, s).
Proof.
  intros Hn. unfold continuation. rewrite code_byte by lia.
  rewrite (proj2 (N.leb_le _ _)), (proj2 (N.ltb_lt _ _)) by lia. simpl. do 2 f_equal. lia.
Qed.

Lemma ValidRune_spec r : ValidRune r = true ↔ (r < 55296 ∨ 57343 < r < 1114112)%N.
Proof. unfold ValidRune. rewrite orb_true_iff, andb_true_iff, !N.ltb_lt. tauto. Qed.

Ltac decide_bytes :=
  repeat match goal with
  | |- context [(?x <? ?y)%N] =>
      first [rewrite (proj2 (N.ltb_lt x y)) by lia | rewrite (proj2 (N.ltb_ge x y)) by lia]
  | |- context [(?x <=? ?y)%N] =>
      first [rewrite (proj2 (N.leb_le x y)) by lia | rewrite (proj2 (N.leb_gt x y)) by lia]
  end; cbn [andb].

(** What is encoded is read back. *)
Lemma decode_encode r s : ValidRune r = true → runes (encodeRune r +:+ s) = r :: runes s.
Proof.
  intros Hr. pose proof Hr as Hb. apply ValidRune_spec in Hb. unfold encodeRune. rewrite Hr.
  destruct (N.ltb_spec r 128); [|destruct (N.ltb_spec r 2048); [|destruct (N.ltb_spec r 65536)]].
  all: cbn [bytes]; rewrite ?string_app_cons, ?string_app_nil; fold (byte r); cbn [runes]; unfold decodeRune.
  - rewrite code_byte by lia. decide_bytes. done.
  - change Ascii.ascii_of_N with byte. rewrite (code_byte (192 + r / 64)) by lia. decide_bytes.
    rewrite continuation_byte by lia. cbn [mbind option_bind]. decide_bytes. cbn [default]. f_equal. lia.
  - change Ascii.ascii_of_N with byte. rewrite (code_byte (224 + r / 4096)) by lia. decide_bytes.
    rewrite continuation_byte by lia. cbn [mbind option_bind]. decide_bytes.
    rewrite continuation_byte by lia. cbn [mbind option_bind]. decide_bytes.
    replace ((224 + r / 4096 - 224) * 4096 + (r / 64 mod 64) * 64 + r mod 64)%N with r by lia.
    rewrite Hr. decide_bytes. done.
  - change Ascii.ascii_of_N with byte. rewrite (code_byte (240 + r / 262144)) by lia. decide_bytes.
    rewrite continuation_byte by lia. cbn [mbind option_bind]. decide_bytes.
    rewrite continuation_byte by lia. cbn [mbind option_bind]. decide_bytes.
    rewrite continuation_byte by lia. cbn [mbind option_bind]. decide_bytes.
    replace ((240 + r / 262144 - 240) * 262144 + (r / 4096 mod 64) * 4096 + (r / 64 mod 64) * 64 + r mod 64)%N
      with r by lia.
    rewrite Hr. decide_bytes. done.
Qed.

Lemma runes_fromRunes l : Forall (λ r, ValidRune r = true) l → runes (fromRunes l) = l.
Proof. induction 1 as [|r l Hr _ IH]; [done|]. simpl. by rewrite decode_encode, IH. Qed.

Lemma runes_fromRunes_app l s :
  Forall (λ r, ValidRune r = true) l → runes (fromRunes l +:+ s) = l ++ runes s.
Proof.
  induction 1 as [|r l Hr _ IH]; [by rewrite string_app_nil|]. simpl.
  by rewrite string_app_assoc, decode_encode, IH.
Qed.

Lemma decodeRune_valid c s : ValidRune (decodeRune c s).1 = true.
Proof.
  unfold decodeRune. destruct (N.ltb_spec (code c) 128); [by apply ValidRune_spec; simpl; lia|].
  destruct (continuation s) as [[x s1]|] eqn:Hx; [|done]. cbn [mbind option_bind].
  assert (x < 64)%N as Hlt.
  { unfold continuation in Hx. destruct s as [|d s]; [done|].
    destruct ((128 <=? code d)%N && (code d <? 192)%N) eqn:Hd; [|done].
    apply andb_prop in Hd as [?%N.leb_le ?%N.ltb_lt]. injection Hx as <- <-. lia. }
  case_match eqn:H1.
  { case_match; [|done]. simpl. apply andb_prop in H1 as [?%N.leb_le ?%N.ltb_lt].
    apply ValidRune_spec. lia. }
  destruct (continuation s1) as [[y s2]|]; [|done]. cbn [mbind option_bind].
  case_match eqn:H2. { case_match eqn:Hv; [|done]. simpl. by apply andb_prop in Hv as [_ ?]. }
  destruct (continuation s2) as [[z s3]|]; [|done]. cbn [mbind option_bind].
  case_match; [|done]. case_match eqn:Hv; [|done]. simpl. by apply andb_prop in Hv as [_ ?].
Qed.

Lemma string_wf (P : string → Prop) :
  (∀ s, (∀ t, String.length t < String.length s → P t) → P s) → ∀ s, P s.
Proof. intros Hstep s. induction s as [s IH] using (induction_ltof1 _ String.length). by apply Hstep. Qed.

(** The runes of any string are code points. *)
Lemma runes_valid s : Forall (λ r, ValidRune r = true) (runes s).
Proof.
  induction s as [s IH] using string_wf. destruct s as [|c s1]; [constructor|]. cbn [runes].
  pose proof (decodeRune_valid c s1) as Hv. destruct (decodeRune c s1) as [r n]. simpl in Hv.
  destruct n as [|[|[|n]]]; constructor; try done.
  all: repeat (match goal with |- Forall _ (match ?t with _ => _ end) => destruct t end); try constructor.
  all: try apply IH; simpl; lia.
Qed.

(** ** UTF-16 *)
(** [utf16.RuneLen] *)
Definition RuneLen (r : rune) : Z :=
  if ValidRune r then if (r <? 65536)%N then 1 else 2 else -1.

Lemma RuneLen_pos r : ValidRune r = true → (1 ≤ RuneLen r ≤ 2)%Z.
Proof. intros Hr. unfold RuneLen. rewrite Hr. case_match; lia. Qed.

(** ** HTML *)
(** [html.EscapeString] *)
Fixpoint EscapeString (s : string) : string :=
  match s with
  | EmptyString => ""
  | String c s =>
      (if Ascii.eqb c "&" then "&amp;" else if Ascii.eqb c "'" then "&#39;"
       else if Ascii.eqb c "<" then "&lt;" else if Ascii.eqb c ">" then "&gt;"
       else if Ascii.eqb c quoteMark then "&#34;" else String c "") +:+ EscapeString s
  end.
