(* ===== verification/Hoare.v ===== *)
(** * Triples for the state and error monad

    A computation from a state that meets [P] ends in a result and a state that meet [Q], or
    in an error and a state that meets [R]. *)
From S2P Require Import Prelude.

Definition triple {S E A} (P : S → Prop) (m : St S E A) (Q : A → S → Prop) (R : S → Prop) : Prop :=
  ∀ s, P s → match m s with (Ok a, s') => Q a s' | (Err _, s') => R s' end.

Section Triples.
Context {S E : Type}.
Implicit Types (P R : S → Prop).

Lemma triple_ret {A} (a : A) P (Q : A → S → Prop) R : (∀ s, P s → Q a s) → triple P (st_ret (E := E) a) Q R.
Proof. intros HP s Hs. by apply HP. Qed.

Lemma triple_throw {A} (e : E) P (Q : A → S → Prop) R : (∀ s, P s → R s) → triple P (st_throw e) Q R.
Proof. intros HP s Hs. by apply HP. Qed.

Lemma triple_modify (f : S → S) P (Q : unit → S → Prop) R :
  (∀ s, P s → Q () (f s)) → triple P (st_modify (E := E) f) Q R.
Proof. intros HP s Hs. by apply HP. Qed.

Lemma triple_bind {A B} (m : St S E A) (f : A → St S E B) P (Q : A → S → Prop) (Q' : B → S → Prop) R :
  triple P m Q R → (∀ a, triple (Q a) (f a) Q' R) → triple P (st_bind m f) Q' R.
Proof.
  intros Hm Hf s Hs. specialize (Hm s Hs). unfold st_bind. destruct (m s) as [[a|e] s1]; [|done].
  by apply Hf.
Qed.

Lemma triple_weaken {A} (m : St S E A) P P' (Q Q' : A → S → Prop) R R' :
  triple P' m Q' R' → (∀ s, P s → P' s) → (∀ a s, Q' a s → Q a s) → (∀ s, R' s → R s) → triple P m Q R.
Proof.
  intros Hm HP HQ HR s Hs. specialize (Hm s (HP s Hs)). destruct (m s) as [[a|e] s1]; auto.
Qed.

(** A fact about the state before the run is available to the proof. *)
Lemma triple_intro {A} (m : St S E A) P (Q : A → S → Prop) R (X : Prop) :
  (∀ s, P s → X) → (X → triple P m Q R) → triple P m Q R.
Proof. intros HX Hm s Hs. by apply (Hm (HX s Hs)). Qed.

Lemma triple_ok {A} (m : St S E A) P (Q : A → S → Prop) R s a s' :
  triple P m Q R → P s → m s = (Ok a, s') → Q a s'.
Proof. intros Hm Hs Heq. specialize (Hm s Hs). by rewrite Heq in Hm. Qed.

Lemma triple_inv {A} (m : St S E A) P R s : triple P m (λ _, R) R → P s → R (m s).2.
Proof. intros Hm Hs. specialize (Hm s Hs). by destruct (m s) as [[a|e] s1]. Qed.
End Triples.
