(* ===== verification/NotificationConfig.v ===== *)
(** * Configuration of notifications ([config/notifications.go])

    The destinations of a notification, the routes of an alert kind, the effective templates
    and actions, and the validation of the section. The engine of templates is a parameter:
    a template is accepted for a phase of an alert, or for an event, or refused with a text.
    Go maps are ranged over in an arbitrary order: the errors are a set, listed in one order. *)
From S2P Require Import Prelude GoStrings GoEncoding Alerts.
From S2P Require Events.
Local Open Scope go_scope.

#[export] Instance AlertRecipient_eq_dec : EqDecision AlertRecipient.
Proof. solve_decision. Defined.
#[export] Program Instance AlertRecipient_countable : Countable AlertRecipient :=
  inj_countable' (λ r, (BotIdentity r, ChatID r, ThreadID r))
    (λ x, {| BotIdentity := x.1.1; ChatID := x.1.2; ThreadID := x.2 |}) _.
Next Obligation. by intros []. Qed.

(** ** Data *)
(** [config.AlertMessageSpec] *)
Record AlertMessageSpec := { Action : string; MessageTemplate : string }.
(** [config.TelegramAlertChannel]; nil chats are [None]. *)
Record TelegramAlertChannel := {
  Chats : option (list string); OpenedSpec : AlertMessageSpec; ResolvedSpec : AlertMessageSpec;
}.
Record NotificationChatSpec := { chatID : string; chatThreadID : Z }.
(** [config.NotificationTelegramSpec], with the content of the token. *)
Record NotificationTelegramSpec := {
  BotToken : string; telegramChats : gmap string NotificationChatSpec; Retries : N; SOCKS5Address : string;
}.
Record TelegramChannel := { channelChats : option (list string); channelMessage : string }.
(** [config.CustomChannel]: the text of its address. *)
Record CustomChannel := { customName : string; customURL : string }.
Record NotificationEventRoutes := { eventTelegram : list TelegramChannel; eventCustom : list CustomChannel }.
(** [config.NotificationSpec] *)
Record NotificationSpec := {
  Telegram : NotificationTelegramSpec;
  EventRoutes : gmap string NotificationEventRoutes;
  AlertRoutes : gmap string (list TelegramAlertChannel);
}.

Definition defaultNotificationTelegramRetries : N := 3.
Definition notificationAlertNameDefault : string := "default".

(** [applyDefaults] *)
Definition applyDefaults (c : NotificationSpec) : NotificationSpec :=
  let t := Telegram c in
  {| Telegram := {| BotToken := BotToken t; telegramChats := telegramChats t;
                    Retries := if bool_decide (Retries t = 0%N) then defaultNotificationTelegramRetries
                               else Retries t;
                    SOCKS5Address := SOCKS5Address t |};
     EventRoutes := EventRoutes c; AlertRoutes := AlertRoutes c |}.

(** ** Names of alert kinds *)
Definition configKeyOf (k : AlertKind) : string :=
  match k with
  | AlertKindSyncFailed => "SyncFailed"
  | AlertKindNodeDisconnected => "NodeDisconnected"
  | AlertKindGitRepositoryUnavailable => "GitRepositoryUnavailable"
  | AlertKindServiceDrift => "ServiceDrift"
  end.
Definition alertKinds : list AlertKind :=
  [AlertKindSyncFailed; AlertKindNodeDisconnected; AlertKindGitRepositoryUnavailable; AlertKindServiceDrift].

Definition notificationAlertConfigKey (kind : string) : string :=
  match find (λ k, bool_decide (kindText k = kind)) alertKinds with
  | Some k => configKeyOf k
  | None => kind
  end.
Definition notificationAlertKind (configKey : string) : string :=
  match find (λ k, bool_decide (configKeyOf k = configKey)) alertKinds with
  | Some k => kindText k
  | None => configKey
  end.
Definition validNotificationAlertConfigKey (key : string) : bool :=
  bool_decide (key = notificationAlertNameDefault) ||
  existsb (λ k, bool_decide (configKeyOf k = key)) alertKinds.

(** ** Routes *)
Definition ChatNames (chats : option (list string)) : list string := default ["default"] chats.

Definition noMessage : AlertMessageSpec := {| Action := ""; MessageTemplate := "" |}.
Definition builtInRoute : TelegramAlertChannel :=
  {| Chats := None; OpenedSpec := noMessage; ResolvedSpec := {| Action := "reply"; MessageTemplate := "" |} |}.

Definition AlertTelegramRoutes (c : NotificationSpec) (kind : string) : list TelegramAlertChannel :=
  match AlertRoutes c !! notificationAlertConfigKey kind with
  | Some routes => routes
  | None => default [builtInRoute] (AlertRoutes c !! notificationAlertNameDefault)
  end.

(** The zero value for a name that is not configured. *)
Definition chatOf (c : NotificationSpec) (name : string) : NotificationChatSpec :=
  default {| chatID := ""; chatThreadID := 0 |} (telegramChats (Telegram c) !! name).

Section Identity.
Context (sha256_hex : string → string).

Definition TelegramBotIdentity (c : NotificationSpec) : string :=
  let token := BotToken (Telegram c) in
  if bool_decide (token = "") then ""
  else sha256_hex (match Cut ":" token with Some (id, _) => id | None => token end).

Definition destination (c : NotificationSpec) (name : string) : AlertRecipient :=
  {| BotIdentity := TelegramBotIdentity c; ChatID := chatID (chatOf c name);
     ThreadID := chatThreadID (chatOf c name) |}.

(** The first occurrences. *)
Fixpoint collect (seen : gset AlertRecipient) (recipients : list AlertRecipient) : list AlertRecipient :=
  match recipients with
  | [] => []
  | r :: recipients => if bool_decide (r ∈ seen) then collect seen recipients
                       else r :: collect ({[r]} ∪ seen) recipients
  end.

Definition routeDestinations (c : NotificationSpec) (route : TelegramAlertChannel) : list AlertRecipient :=
  map (destination c) (ChatNames (Chats route)).

Definition AlertRecipients (c : NotificationSpec) (kind : string) : list AlertRecipient :=
  if bool_decide (TelegramBotIdentity c = "") then []
  else collect ∅ (flat_map (routeDestinations c) (AlertTelegramRoutes c kind)).

(** ** Templates and actions *)
Definition newline : string := bytes [10%N].
Definition siren : string := bytes [240; 159; 154; 168]%N.
Definition checkMark : string := bytes [226; 156; 133]%N.
Definition defaultAlertOpenedTemplate : string :=
  siren +:+ " {{ .Title }}" +:+ newline +:+ "{{ .Message }}".
Definition defaultSyncFailedAlertOpenedTemplate : string :=
  "<b>" +:+ siren +:+ " {{ .Title }}</b>" +:+ newline +:+ newline +:+
  "<b>Stack:</b> <code>{{ .ResourceID }}</code>" +:+ newline +:+ newline +:+
  "<b>Error:</b>" +:+ newline +:+ "<pre>{{ .Message }}</pre>".
Definition defaultAlertResolvedTemplate : string :=
  checkMark +:+ " Resolved: {{ .Title }}" +:+ newline +:+ "{{ .Resolution }}".
Definition defaultGitOpenedTemplate : string :=
  siren +:+ " {{ .Title }}" +:+ newline +:+ "Repository: <code>{{ .ResourceID }}</code>" +:+ newline +:+
  "Error: {{ .Message }}" +:+ newline +:+ "Category: {{ .ErrorCode }}" +:+ newline +:+
  "Failed attempts: {{ .Occurrences }}".
Definition defaultGitResolvedTemplate : string :=
  checkMark +:+ " Git repository recovered" +:+ newline +:+ "Repository: <code>{{ .ResourceID }}</code>" +:+
  newline +:+ "Failed attempts: {{ .Occurrences }}" +:+ newline +:+ "Incident duration: {{ .Duration }}".

Definition blank (s : string) : bool := bool_decide (trim_space s = "").

Definition AlertOpenedTemplate (route : TelegramAlertChannel) (kind : string) : string :=
  if negb (blank (MessageTemplate (OpenedSpec route))) then MessageTemplate (OpenedSpec route)
  else if bool_decide (kind = kindText AlertKindSyncFailed) then defaultSyncFailedAlertOpenedTemplate
  else if bool_decide (kind = kindText AlertKindGitRepositoryUnavailable) then defaultGitOpenedTemplate
  else defaultAlertOpenedTemplate.

(** The variadic kind is an option. *)
Definition AlertResolvedTemplate (route : TelegramAlertChannel) (kind : option string) : string :=
  if negb (blank (MessageTemplate (ResolvedSpec route))) then MessageTemplate (ResolvedSpec route)
  else if bool_decide (kind = Some (kindText AlertKindGitRepositoryUnavailable)) then defaultGitResolvedTemplate
  else defaultAlertResolvedTemplate.

Definition AlertResolvedAction (route : TelegramAlertChannel) : string :=
  if bool_decide (Action (ResolvedSpec route) = "") then "reply" else Action (ResolvedSpec route).

(** ** Validation *)
Section Validation.
(** [template.Validate] for the payload of each phase, and for those of an event type:
    [None] for a type without payloads. *)
Context (openedTemplateError resolvedTemplateError : string → option string).
Context (eventTemplateError : string → option (string → option string)).

Definition when_ (b : bool) (e : string) : list string := if b then [e] else [].

Definition validateChat (name : string) (chat : NotificationChatSpec) : list string :=
  let path := "notifications.messengers.telegram.chats[" +:+ quoted name +:+ "]" in
  when_ (blank name) "telegram chat name cannot be empty" ++
  when_ (blank (chatID chat)) (path +:+ ".id is required") ++
  when_ (chatThreadID chat <? 0)%Z (path +:+ ".threadId must be >= 0").

Definition validateTelegramMessenger (c : NotificationSpec) : list string :=
  let telegram := Telegram c in
  flat_map (λ nc, validateChat nc.1 nc.2) (map_to_list (telegramChats telegram)) ++
  when_ (negb (bool_decide (telegramChats telegram = ∅)) && bool_decide (BotToken telegram = ""))
    "notifications.messengers.telegram.botTokenPath contains empty token" ++
  when_ (negb (bool_decide (BotToken telegram = "")) && bool_decide (telegramChats telegram !! "default" = None))
    ("notifications.messengers.telegram.chats[" +:+ quoted "default" +:+ "] is required for alert fallback").

(** The loop of [validateChatNames]. *)
Fixpoint validateNames (c : NotificationSpec) (path : string) (seen : gset string) (names : list string)
    : list string :=
  match names with
  | [] => []
  | name :: names =>
      (if blank name then [path +:+ ".chats contains an empty name"]
       else if bool_decide (name ∈ seen) then [path +:+ ".chats contains duplicate " +:+ quoted name]
       else when_ (bool_decide (telegramChats (Telegram c) !! name = None))
              (path +:+ ".chats references unknown chat " +:+ quoted name)) ++
      validateNames c path ({[name]} ∪ seen) names
  end.

Definition validateChatNames (c : NotificationSpec) (path : string) (names : option (list string)) : list string :=
  match names with
  | Some [] => [path +:+ ".chats must not be empty"]
  | _ => validateNames c path ∅ (ChatNames names)
  end.

Definition templateErrors (path : string) (e : option string) : list string :=
  match e with None => [] | Some text => [path +:+ ": invalid template: " +:+ text] end.

Definition validateAlertChannel (c : NotificationSpec) (path kind : string) (route : TelegramAlertChannel)
    : list string :=
  when_ (bool_decide (BotToken (Telegram c) = ""))
    (path +:+ ": notifications.messengers.telegram.botTokenPath is required") ++
  validateChatNames c path (Chats route) ++
  when_ (negb (bool_decide (Action (OpenedSpec route) = ""))) (path +:+ ".opened.action is not supported") ++
  when_ (negb (bool_decide (AlertResolvedAction route = "reply")) &&
         negb (bool_decide (AlertResolvedAction route = "edit")))
    (path +:+ ".resolved.action must be reply or edit") ++
  templateErrors (path +:+ ".opened.message")
    (openedTemplateError (AlertOpenedTemplate route (notificationAlertKind kind))) ++
  templateErrors (path +:+ ".resolved.message") (resolvedTemplateError (AlertResolvedTemplate route None)).

(** The destinations of one route: those seen so far, with the path that has them. *)
Fixpoint validateDestinationNames (c : NotificationSpec) (routePath : string) (names : list string)
    (seen : gmap AlertRecipient string) : list string * gmap AlertRecipient string :=
  match names with
  | [] => ([], seen)
  | name :: names =>
      match telegramChats (Telegram c) !! name with
      | None => validateDestinationNames c routePath names seen
      | Some _ =>
          match seen !! destination c name with
          | Some firstPath =>
              let '(errs, seen) := validateDestinationNames c routePath names seen in
              ((routePath +:+ ".chats resolves to a duplicate Telegram destination already selected by "
                +:+ firstPath +:+ ".chats") :: errs, seen)
          | None => validateDestinationNames c routePath names (<[destination c name := routePath]> seen)
          end
      end
  end.

Definition routePath (path : string) (i : nat) : string :=
  path +:+ "[" +:+ FormatInt (Z.of_nat i) +:+ "]".

Fixpoint validateDestinations (c : NotificationSpec) (path : string) (i : nat)
    (routes : list TelegramAlertChannel) (seen : gmap AlertRecipient string) : list string :=
  match routes with
  | [] => []
  | route :: routes =>
      let '(errs, seen) := validateDestinationNames c (routePath path i) (ChatNames (Chats route)) seen in
      errs ++ validateDestinations c path (S i) routes seen
  end.

Definition validateAlertDestinations (c : NotificationSpec) (path : string)
    (routes : list TelegramAlertChannel) : list string :=
  validateDestinations c path 0 routes ∅.

Definition validateAlertRoute (c : NotificationSpec) (kind : string) (routes : list TelegramAlertChannel)
    : list string :=
  if negb (validNotificationAlertConfigKey kind)
  then ["notifications.alerts[" +:+ quoted kind +:+ "]: unknown alert kind"]
  else
    let path := "notifications.alerts[" +:+ quoted kind +:+ "].telegram" in
    when_ (bool_decide (length routes = 0)) (path +:+ " must contain at least one route") ++
    concat (imap (λ i, validateAlertChannel c (routePath path i) kind) routes) ++
    validateAlertDestinations c path routes.

Definition validateAlertRoutes (c : NotificationSpec) : list string :=
  flat_map (λ kr, validateAlertRoute c kr.1 kr.2) (map_to_list (AlertRoutes c)).

Definition validateTelegramEventTemplate (eventType path message : string) : list string :=
  if blank message then []
  else match eventTemplateError eventType with
       | None => [path +:+ ".message: notification payload is not defined"]
       | Some validate => templateErrors (path +:+ ".message") (validate message)
       end.

Definition validateTelegramEventRoute (c : NotificationSpec) (eventType : string) (i : nat)
    (rule : TelegramChannel) : list string :=
  let path := routePath ("notifications.events[" +:+ quoted eventType +:+ "].telegram") i in
  when_ (bool_decide (BotToken (Telegram c) = ""))
    (path +:+ ": notifications.messengers.telegram.botTokenPath is required") ++
  validateChatNames c path (channelChats rule) ++
  validateTelegramEventTemplate eventType path (channelMessage rule).

Definition validateCustomEventRoute (eventType : string) (i : nat) (channel : CustomChannel) : list string :=
  when_ (bool_decide (customURL channel = ""))
    (routePath ("notifications.events[" +:+ quoted eventType +:+ "].custom") i +:+ ".url or urlEnv is required").

Definition validateEventRoutes (c : NotificationSpec) (eventType : string) (routes : NotificationEventRoutes)
    : list string :=
  if negb (Events.Valid eventType)
  then ["notifications.events[" +:+ quoted eventType +:+ "] has unknown or non-public event type"]
  else concat (imap (validateTelegramEventRoute c eventType) (eventTelegram routes)) ++
       concat (imap (validateCustomEventRoute eventType) (eventCustom routes)).

(** [NotificationSpec.validate] *)
Definition validateNotifications (c : NotificationSpec) : list string :=
  validateTelegramMessenger c ++ validateAlertRoutes c ++
  flat_map (λ er, validateEventRoutes c er.1 er.2) (map_to_list (EventRoutes c)).
End Validation.
End Identity.
