(* ===== verification/TelegramNotifier.v ===== *)
(** * The Telegram notifier ([notifications/notifiers/telegram.go])

    One notification is rendered, sent, and sent again as an independent message when the
    message it refers to is gone. The Bot API behind HTTP and the retry library are the class
    [TelegramAPI]; the engine of templates is [TemplateEngine]. *)
From S2P Require Import Prelude GoStrings Alerts NotificationConfig.
Local Open Scope go_scope.

Definition ActionSend : string := "send".
Definition ActionReply : string := "reply".
Definition ActionEdit : string := "edit".

(** [notifiers.Message] of an alert, and [notifiers.Receipt] *)
Record NotifierMessage := { Payload : AlertSnapshot; messageAction : string; TargetMessageID : Z }.
Record Receipt := { MessageID : Z; receiptAction : string }.

(** The construction of a notifier: [NewTelegramNotifier] with its [TelegramOptions]. *)
Record NotifierOptions := {
  optToken : string; optChatID : string; optThreadID : Z; optMessage : string; optParseMode : string;
  optRetries : N; optSOCKS5 : string;
}.

(** What a client relies on: a notifier of given options delivers a message. *)
Class Notifier (S : Type) := {
  Deliver : NotifierOptions → NotifierMessage → S → Result string Receipt * S;
}.

(** The receipt of a message: the operation is the one asked for or an independent
    message, and an edited message keeps its identifier. *)
Definition receiptFits (m : NotifierMessage) (r : Receipt) : Prop :=
  receiptAction r = ActionSend ∨
  (TargetMessageID m ≠ 0%Z ∧ receiptAction r = ActionReply ∧ messageAction m ≠ ActionEdit) ∨
  (TargetMessageID m ≠ 0%Z ∧ receiptAction r = ActionEdit ∧ messageAction m = ActionEdit ∧
   MessageID r = TargetMessageID m).

Class NotifierLaws (S : Type) `{Notifier S} := {
  Deliver_receipt options m s r s' : Deliver options m s = (Ok r, s') → receiptFits m r;
}.

(** ** Requests and answers *)
Definition telegramSendEndpoint : string := "sendMessage".
Definition telegramEditEndpoint : string := "editMessageText".
Definition defaultTelegramRetries : N := 3.

(** The fields of the body; an absent field is [None]. *)
Record TelegramRequest := {
  chat_id : string; text : string; parse_mode : option string; message_id : option Z;
  reply_to : option Z; message_thread_id : option Z;
}.
(** The answer, decoded: its result is [true], or a message with an identifier (0 when it
    has none), or does not decode. *)
Inductive TelegramResult := ResultTrue | ResultMessage (id : Z) | ResultInvalid.
Record TelegramAnswer := {
  answerOK : bool; Description : string; answerErrorCode : Z; RetryAfter : Z; answerResult : TelegramResult;
}.
(** [None] for a body that cannot be read or decoded. *)
Record TelegramResponse := { StatusCode : Z; answer : option TelegramAnswer }.

Inductive telegramError :=
| ErrMessageReferenceInvalid
| TelegramAPIError (status code retryAfter : Z)
| TelegramFault (text : string).

(** An attempt of the retry library that failed; [retry.Unrecoverable] ends the attempts. *)
Record attemptError := { unrecoverable : bool; cause : telegramError }.

Section Attempts.
Context {S A : Type} (attempt : S → Result attemptError A * S).

(** The documented runs of [retry.Do] with a number of attempts: it returns the first success,
    or the first error that is unrecoverable, or the last error; it may end between two
    attempts with the error of its context. *)
Inductive retried : nat → S → Result telegramError A → S → Prop :=
| retried_ok n s a s' : attempt s = (Ok a, s') → retried (Datatypes.S n) s (Ok a) s'
| retried_stop n s e s' :
    attempt s = (Err e, s') → unrecoverable e = true → retried (Datatypes.S n) s (Err (cause e)) s'
| retried_last s e s' : attempt s = (Err e, s') → retried 1 s (Err (cause e)) s'
| retried_again n s e s1 r s' :
    attempt s = (Err e, s1) → unrecoverable e = false → retried n s1 r s' → retried (Datatypes.S n) s r s'
| retried_ended n s ended : retried n s (Err (TelegramFault ended)) s.
End Attempts.

Class TelegramAPI (S : Type) := {
  (** A request with the token to an endpoint: the error is already masked. *)
  Post : string → string → string → TelegramRequest → S → Result string TelegramResponse * S;
  Retry : nat → (S → Result attemptError Receipt * S) → S → Result telegramError Receipt * S;
}.
Class TelegramAPILaws (S : Type) `{TelegramAPI S} := {
  Retry_runs n attempt s r s' : Retry n attempt s = (r, s') → retried attempt n s r s';
}.

(** [text/template]: parsing, and the rendering of a parsed template. *)
Class TemplateEngine := {
  parseError : string → option string;
  Render : string → AlertSnapshot → Result string string;
  (** The client of a SOCKS5 address cannot be built. *)
  proxyError : string → option string;
}.

(** The descriptions of Telegram are ASCII. *)
Definition invalidTelegramReference (endpoint description : string) : bool :=
  let description := to_lower_ascii description in
  contains "message_id_invalid" description ||
  if bool_decide (endpoint = telegramEditEndpoint)
  then contains "message to edit not found" description || contains "message can't be edited" description ||
       contains "message can not be edited" description
  else contains "message to reply not found" description || contains "replied message not found" description.

Section Notifier.
Context {S : Type} `{TelegramAPI S, TemplateEngine}.
Context (options : NotifierOptions).

(** [sendRequest] after the answer was read. *)
Definition receiptOf (endpoint : string) (targetID : Z) (response : TelegramResponse)
    : Result telegramError Receipt :=
  match answer response with
  | None => Err (TelegramFault "decode telegram response")
  | Some a =>
      let status := StatusCode response in
      if (status <? 200)%Z || (300 <=? status)%Z || negb (answerOK a) then
        if bool_decide (endpoint = telegramEditEndpoint) && (status =? 400)%Z &&
           contains "message is not modified" (to_lower_ascii (Description a))
        then Ok {| MessageID := targetID; receiptAction := ActionEdit |}
        else if negb (targetID =? 0)%Z && (status =? 400)%Z && invalidTelegramReference endpoint (Description a)
        then Err ErrMessageReferenceInvalid
        else Err (TelegramAPIError status (answerErrorCode a) (RetryAfter a))
      else
        match answerResult a with
        | ResultTrue =>
            if bool_decide (endpoint = telegramEditEndpoint)
            then Ok {| MessageID := targetID; receiptAction := ActionEdit |}
            else Err (TelegramFault "decode telegram result")
        | ResultInvalid => Err (TelegramFault "decode telegram result")
        | ResultMessage id =>
            Ok (if bool_decide (endpoint = telegramEditEndpoint)
                then {| MessageID := targetID; receiptAction := ActionEdit |}
                else {| MessageID := id;
                        receiptAction := if (targetID =? 0)%Z then ActionSend else ActionReply |})
        end
  end.

Definition sendRequest (endpoint : string) (request : TelegramRequest) (targetID : Z) (s : S)
    : Result telegramError Receipt * S :=
  match Post (optToken options) endpoint (optSOCKS5 options) request s with
  | (Err e, s) => (Err (TelegramFault ("send request: " +:+ e)), s)
  | (Ok response, s) => (receiptOf endpoint targetID response, s)
  end.

(** Requests that Telegram refuses are not repeated, except for too many of them. *)
Definition permanent (e : telegramError) : bool :=
  match e with
  | ErrMessageReferenceInvalid => true
  | TelegramAPIError status _ _ => (400 <=? status)%Z && (status <? 500)%Z && negb (status =? 429)%Z
  | TelegramFault _ => false
  end.

Definition attemptRequest (endpoint : string) (request : TelegramRequest) (targetID : Z) (s : S)
    : Result attemptError Receipt * S :=
  match sendRequest endpoint request targetID s with
  | (Ok r, s) => (Ok r, s)
  | (Err e, s) => (Err {| unrecoverable := permanent e; cause := e |}, s)
  end.

Definition requestOf (message action : string) (targetID : Z) : TelegramRequest :=
  {| chat_id := optChatID options; text := message;
     parse_mode := if bool_decide (optParseMode options = "") then None else Some (optParseMode options);
     message_id := if bool_decide (action = ActionEdit) then Some targetID else None;
     reply_to := if bool_decide (action = ActionReply) then Some targetID else None;
     message_thread_id := if (0 <? optThreadID options)%Z && negb (bool_decide (action = ActionEdit))
                          then Some (optThreadID options) else None |}.

Definition retriesOf : nat :=
  N.to_nat (if bool_decide (optRetries options = 0%N) then defaultTelegramRetries else optRetries options).

Definition notifyAction (message action : string) (targetID : Z) (s : S)
    : Result telegramError Receipt * S :=
  let endpoint := if bool_decide (action = ActionEdit) then telegramEditEndpoint else telegramSendEndpoint in
  Retry retriesOf (attemptRequest endpoint (requestOf message action targetID) targetID) s.

Definition effectiveAction (m : NotifierMessage) : string :=
  if bool_decide (messageAction m = "") || (TargetMessageID m =? 0)%Z then ActionSend else messageAction m.

Definition errorText (e : telegramError) : string :=
  match e with
  | ErrMessageReferenceInvalid => "telegram message reference is invalid"
  | TelegramAPIError _ _ _ => "telegram API status"
  | TelegramFault text => text
  end.

(** [TelegramNotifier.Notify] with a parsed template. *)
Definition Notify (template : string) (m : NotifierMessage) (s : S) : Result string Receipt * S :=
  match Render template (Payload m) with
  | Err e => (Err ("render telegram message template: " +:+ e), s)
  | Ok message =>
      let action := effectiveAction m in
      match notifyAction message action (TargetMessageID m) s with
      | (Ok r, s) => (Ok r, s)
      | (Err e, s) =>
          match e with
          | ErrMessageReferenceInvalid =>
              if bool_decide (action = ActionSend) then (Err (errorText e), s)
              else match notifyAction message ActionSend 0 s with
                   | (Ok r, s) => (Ok r, s)
                   | (Err e, s) => (Err (errorText e), s)
                   end
          | _ => (Err (errorText e), s)
          end
      end
  end.

(** [newTelegramNotifier]: the template, or an error. *)
Definition newTelegramNotifier : Result string string :=
  let template := trim_space (optMessage options) in
  if bool_decide (template = "") then Err "message template is required"
  else match parseError template with
       | Some e => Err ("build telegram message template: " +:+ e)
       | None => match proxyError (optSOCKS5 options) with
                 | Some e => Err ("build http client: " +:+ e)
                 | None => Ok template
                 end
       end.
End Notifier.

#[export] Instance TelegramNotifier_deliver {S} `{TelegramAPI S, TemplateEngine} : Notifier S := {|
  Deliver options m s := match newTelegramNotifier options with
                         | Err e => (Err e, s)
                         | Ok template => Notify options template m s
                         end |}.

(** ** Receipts *)
Section Receipts.
Context {S : Type} `{TelegramAPILaws S, TemplateEngine}.

Lemma retried_success {A} (attempt : S → Result attemptError A * S) n s r s' a :
  retried attempt n s r s' → r = Ok a → ∃ s1, attempt s1 = (Ok a, s').
Proof. induction 1; intros Heq; simplify_eq; eauto. Qed.

Lemma receiptOf_ok endpoint targetID response r :
  receiptOf endpoint targetID response = Ok r →
  (endpoint = telegramEditEndpoint → r = {| MessageID := targetID; receiptAction := ActionEdit |}) ∧
  (endpoint ≠ telegramEditEndpoint →
   receiptAction r = if (targetID =? 0)%Z then ActionSend else ActionReply).
Proof.
  unfold receiptOf. intros Hr. destruct (answer response) as [a|]; [|done].
  destruct (decide (endpoint = telegramEditEndpoint)) as [He|He].
  - rewrite (bool_decide_eq_true_2 (endpoint = telegramEditEndpoint)) in Hr by done.
    split; [intros _|done]. repeat case_match; simplify_eq; done.
  - rewrite (bool_decide_eq_false_2 (endpoint = telegramEditEndpoint)) in Hr by done.
    split; [done|intros _]. simpl in Hr. repeat case_match; simplify_eq; done.
Qed.

Lemma notifyAction_ok options message action targetID (s : S) r s' :
  notifyAction options message action targetID s = (Ok r, s') →
  if bool_decide (action = ActionEdit) then r = {| MessageID := targetID; receiptAction := ActionEdit |}
  else receiptAction r = if (targetID =? 0)%Z then ActionSend else ActionReply.
Proof.
  unfold notifyAction. intros Hr. apply Retry_runs in Hr.
  eapply retried_success in Hr as [s1 Hr]; [|done].
  unfold attemptRequest, sendRequest in Hr. destruct (Post _ _ _ _ s1) as [[response|e] s2]; [|done].
  destruct (receiptOf _ targetID response) as [r'|e] eqn:Hres; [|done].
  injection Hr as -> ->. apply receiptOf_ok in Hres as [Hedit Hsend]. case_bool_decide.
  - by apply Hedit.
  - by apply Hsend.
Qed.

Lemma Notify_receipt options template m (s : S) r s' :
  Notify options template m s = (Ok r, s') → receiptFits m r.
Proof.
  unfold Notify, receiptFits. destruct (Render template (Payload m)) as [message|e]; [|done].
  assert (∀ target s r s', notifyAction options message ActionSend target s = (Ok r, s') →
    receiptAction r = if (target =? 0)%Z then ActionSend else ActionReply) as Hsend.
  { intros target s0 r0 s0' Hn. by apply notifyAction_ok in Hn. }
  destruct (notifyAction options message (effectiveAction m) (TargetMessageID m) s) as [[r0|e] s1] eqn:Hn.
  - intros [= -> ->]. apply notifyAction_ok in Hn. unfold effectiveAction in Hn.
    destruct (Z.eqb_spec (TargetMessageID m) 0) as [Hz|Hz].
    + rewrite orb_true_r in Hn. by left.
    + rewrite orb_false_r in Hn. destruct (decide (messageAction m = "")) as [Hempty|Hempty].
      * rewrite (bool_decide_eq_true_2 (messageAction m = "")) in Hn by done.
        right; left. repeat split; [done..|]. by rewrite Hempty.
      * rewrite (bool_decide_eq_false_2 (messageAction m = "")) in Hn by done.
        case_bool_decide as Hedit; [subst; right; right; by rewrite Hedit|right; by left].
  - destruct e; [|done..]. case_bool_decide; [done|].
    destruct (notifyAction options message ActionSend 0 s1) as [[r1|e] s2] eqn:Hn2; [|done].
    intros [= -> ->]. left. by apply Hsend in Hn2.
Qed.

#[export] Instance TelegramNotifier_laws : NotifierLaws S.
Proof.
  split. intros options m s r s'. simpl. destruct (newTelegramNotifier options); [|done]. apply Notify_receipt.
Qed.
End Receipts.
