(* ===== verification/AlertNotifications.v ===== *)
(** * Notifications of alerts ([notifications/alerts])

    For each physical destination a subscriber delivers the opening and the resolution of an
    alert, and records its progress in [notification_messages]. The messenger is an instance
    of [Notifier]; the database may fail any statement. *)
From S2P Require Import Prelude GoStrings GoEncoding GoRunes Alerts NotificationConfig TelegramNotifier.
From S2P Require Events.
Local Open Scope go_scope.

(** ** Subscriptions *)
Definition SubscriptionID (r : AlertRecipient) : string :=
  "alert:telegram:" +:+ BotIdentity r +:+ ":" +:+ EncodeToString (ChatID r) +:+ ":" +:+ FormatInt (ThreadID r).

Definition parseSubscriptionID (id : string) : option AlertRecipient :=
  match splitByte ":" id with
  | [kind; messenger; bot; encoded; threadText] =>
      if negb (bool_decide (kind = "alert")) || negb (bool_decide (messenger = "telegram")) then None
      else
        chat ← DecodeString encoded;
        thread ← ParseInt threadText;
        Some {| BotIdentity := bot; ChatID := chat; ThreadID := thread |}
  | _ => None
  end.

(** ** Texts *)
Definition telegramMessageLimit : Z := 4096.
Definition telegramHTMLParseMode : string := "HTML".
Definition syncFailedErrorTruncated : string := newline +:+ newline +:+ "[error truncated]".

Definition telegramLength (l : list rune) : Z := foldr (λ r n, RuneLen r + n)%Z 0%Z l.
Definition telegramTextLength (value : string) : Z := telegramLength (runes value).

Fixpoint takeRunes (l : list rune) (length limit : Z) : list rune :=
  match l with
  | [] => []
  | character :: l =>
      if (limit <? length + RuneLen character)%Z then []
      else character :: takeRunes l (length + RuneLen character) limit
  end.
Definition takeTelegramText (value : string) (limit : Z) : string := fromRunes (takeRunes (runes value) 0 limit).

Definition truncateTelegramText (value : string) (limit : Z) (suffix : string) : string :=
  if (limit <=? 0)%Z then ""
  else if (telegramTextLength value <=? limit)%Z then value
  else
    let suffixLength := telegramTextLength suffix in
    if (limit <=? suffixLength)%Z then takeTelegramText suffix limit
    else takeTelegramText value (limit - suffixLength) +:+ suffix.

(** A payload with other texts. *)
Definition withTexts (a : AlertSnapshot) (title resource message : string) : AlertSnapshot :=
  {| snapshotID := snapshotID a; snapshotKind := snapshotKind a; snapshotTitle := title;
     snapshotMessage := message; snapshotResourceType := snapshotResourceType a;
     snapshotResourceID := resource; snapshotDeploymentID := snapshotDeploymentID a;
     snapshotErrorCode := snapshotErrorCode a; snapshotOccurrences := snapshotOccurrences a;
     snapshotDuration := snapshotDuration a; snapshotOpenedAt := snapshotOpenedAt a;
     snapshotResolvedAt := snapshotResolvedAt a; snapshotResolution := snapshotResolution a |}.

(** The text before the message, as the template renders it. *)
Definition syncFailedHeader (a : AlertSnapshot) : string :=
  siren +:+ " " +:+ snapshotTitle a +:+ newline +:+ newline +:+ "Stack: " +:+ snapshotResourceID a +:+
  newline +:+ newline +:+ "Error:" +:+ newline.

Definition defaultSyncFailedPayload (a : AlertSnapshot) : AlertSnapshot :=
  let available := (telegramMessageLimit - telegramTextLength (syncFailedHeader a))%Z in
  withTexts a (EscapeString (snapshotTitle a)) (EscapeString (snapshotResourceID a))
    (EscapeString (truncateTelegramText (snapshotMessage a) available syncFailedErrorTruncated)).

(** ** The store *)
Definition LinkKey : Type := string * AlertRecipient.

(** [MessageLink], without its key. *)
Record MessageLink := {
  OpenedMessageID : option Z; LinkOpenedAt : option Time; LinkResolvedAt : option Time;
  ResolvedAction : option string; ReplyMessageID : option Z;
}.
Definition newLink : MessageLink :=
  {| OpenedMessageID := None; LinkOpenedAt := None; LinkResolvedAt := None; ResolvedAction := None;
     ReplyMessageID := None |}.

Inductive Phase := Opening | Resolving.
#[export] Instance Phase_eq_dec : EqDecision Phase.
Proof. solve_decision. Defined.

(** What happened: the messenger accepted a message, or its acceptance was recorded. *)
Inductive Entry :=
| Accepted (phase : Phase) (key : LinkKey) (message : NotifierMessage) (receipt : Receipt)
| Marked (phase : Phase) (key : LinkKey) (receipt : Receipt).

(** The table, the alert transitions that the outbox still stores, the messenger, the number
    of statements executed and what happened. *)
Record Notifying (S : Type) := {
  links : gmap LinkKey MessageLink; stored : list AlertTransition; telegram : S; executed : nat;
  happened : list Entry;
}.
Arguments links {S}. Arguments stored {S}. Arguments telegram {S}.
Arguments executed {S}. Arguments happened {S}.

Definition withLinks {S : Type} (m : gmap LinkKey MessageLink) (w : Notifying S) : Notifying S :=
  {| links := m; stored := stored w; telegram := telegram w; executed := executed w; happened := happened w |}.
Definition record {S : Type} (e : Entry) (w : Notifying S) : Notifying S :=
  {| links := links w; stored := stored w; telegram := telegram w; executed := executed w;
     happened := happened w ++ [e] |}.

Inductive notificationError := NoRows | NotificationFault (text : string).

(** Which statements the database fails. *)
Class LinkDatabase := { failing : nat → option string }.

Definition transitionAlert (t : AlertTransition) : AlertSnapshot :=
  match t with AlertOpened a _ | AlertResolved a _ => a end.
Definition isOpeningOf (id : string) (t : AlertTransition) : bool :=
  match t with AlertOpened a _ => bool_decide (snapshotID a = id) | AlertResolved _ _ => false end.
Definition transitionOf (id : string) (t : AlertTransition) : bool :=
  bool_decide (snapshotID (transitionAlert t) = id).

Section Subscriber.
Context (sha256_hex : string → string).
Context {S : Type} `{Notifier S, LinkDatabase}.
Notation Run := (St (Notifying S) notificationError).

Definition execute : Run unit := λ w,
  let w' := {| links := links w; stored := stored w; telegram := telegram w;
               executed := Datatypes.S (executed w); happened := happened w |} in
  match failing (executed w) with
  | Some text => (Err (NotificationFault text), w')
  | None => (Ok (), w')
  end.

Definition Ensure (key : LinkKey) : Run unit :=
  do! execute in
  st_modify (λ w, withLinks (<[key := default newLink (links w !! key)]> (links w)) w).

Definition Get (key : LinkKey) : Run MessageLink :=
  do! execute in
  λ w, match links w !! key with Some link => (Ok link, w) | None => (Err NoRows, w) end.

Definition HasAny (alertID : string) : Run bool :=
  do! execute in
  λ w, (Ok (existsb (λ kl : LinkKey * MessageLink, bool_decide (kl.1.1 = alertID)) (map_to_list (links w))), w).

(** The recipients of the opening that is still stored, if it is. *)
Definition OpeningRecipients (alertID : string) : Run (option (list AlertRecipient)) :=
  do! execute in
  λ w, (Ok (match find (isOpeningOf alertID) (stored w) with
            | Some (AlertOpened _ recipients) => Some recipients
            | _ => None
            end), w).

(** An update of the row of a key that meets a condition. *)
Definition updateLink (key : LinkKey) (condition : MessageLink → bool) (change : MessageLink → MessageLink)
    (entry : Entry) : Run unit :=
  do! execute in
  st_modify (λ w, match links w !! key with
                  | Some link => if condition link then record entry (withLinks (<[key := change link]> (links w)) w)
                                 else w
                  | None => w
                  end).

Definition MarkOpened (key : LinkKey) (receipt : Receipt) (now : Time) : Run unit :=
  if (MessageID receipt <=? 0)%Z then st_throw (NotificationFault "telegram returned no opening message ID")
  else updateLink key
    (λ link, bool_decide (OpenedMessageID link = None) && bool_decide (LinkResolvedAt link = None))
    (λ link, {| OpenedMessageID := Some (MessageID receipt); LinkOpenedAt := Some now;
                LinkResolvedAt := LinkResolvedAt link; ResolvedAction := ResolvedAction link;
                ReplyMessageID := ReplyMessageID link |})
    (Marked Opening key receipt).

Definition MarkResolved (key : LinkKey) (receipt : Receipt) (now : Time) : Run unit :=
  let action := if bool_decide (receiptAction receipt = "") then ActionSend else receiptAction receipt in
  if bool_decide (action = ActionReply) && (MessageID receipt <=? 0)%Z
  then st_throw (NotificationFault "telegram returned no reply message ID")
  else updateLink key
    (λ link, bool_decide (LinkResolvedAt link = None))
    (λ link, {| OpenedMessageID := OpenedMessageID link; LinkOpenedAt := LinkOpenedAt link;
                LinkResolvedAt := Some now; ResolvedAction := Some action;
                ReplyMessageID := if bool_decide (action = ActionReply) then Some (MessageID receipt) else None |})
    (Marked Resolving key receipt).

Definition KnownRecipients : Run (gset AlertRecipient) :=
  do! execute in λ w, (Ok (list_to_set (map (λ kl, kl.1.2) (map_to_list (links w)))), w).

(** A resolved link that no stored transition can need again. *)
Definition prunable (w : Notifying S) (kl : LinkKey * MessageLink) : bool :=
  negb (bool_decide (LinkResolvedAt kl.2 = None)) && negb (existsb (transitionOf kl.1.1) (stored w)).

Definition PruneCompleted : Run unit :=
  do! execute in st_modify (λ w, withLinks (filter (λ kl, prunable w kl = false) (links w)) w).

(** *** The subscriber of one destination *)
Context (spec : NotificationSpec) (recipient : AlertRecipient).

Definition sameChat (chat : NotificationChatSpec) : bool :=
  bool_decide (chatID chat = ChatID recipient) && bool_decide (chatThreadID chat = ThreadID recipient).

Definition routeHas (rule : TelegramAlertChannel) : bool :=
  existsb (λ name, sameChat (chatOf spec name)) (ChatNames (Chats rule)).

(** The route of a kind that has the destination, or the first one. *)
Definition rule (kind : string) : TelegramAlertChannel :=
  let rules := AlertTelegramRoutes spec kind in
  match find routeHas rules with
  | Some rule => rule
  | None => match rules with
            | rule :: _ => rule
            | [] => {| Chats := None; OpenedSpec := noMessage; ResolvedSpec := noMessage |}
            end
  end.

(** [notifier] and its [Notify]. *)
Definition notify (phase : Phase) (key : LinkKey) (template parseMode : string) (m : NotifierMessage)
    : Run Receipt := λ w,
  if negb (bool_decide (TelegramBotIdentity sha256_hex spec = BotIdentity recipient))
  then (Err (NotificationFault "telegram credentials unavailable for alert recipient"), w)
  else
    let options := {| optToken := BotToken (Telegram spec); optChatID := ChatID recipient;
                      optThreadID := ThreadID recipient; optMessage := template; optParseMode := parseMode;
                      optRetries := Retries (Telegram spec); optSOCKS5 := SOCKS5Address (Telegram spec) |} in
    match Deliver options m (telegram w) with
    | (Err e, s) =>
        (Err (NotificationFault e),
         {| links := links w; stored := stored w; telegram := s; executed := executed w; happened := happened w |})
    | (Ok receipt, s) =>
        (Ok receipt,
         record (Accepted phase key m receipt)
           {| links := links w; stored := stored w; telegram := s; executed := executed w; happened := happened w |})
    end.

Definition kindOf (a : AlertSnapshot) : string := kindText (snapshotKind a).
Definition isKind (a : AlertSnapshot) (k : AlertKind) : bool := bool_decide (snapshotKind a = k).

(** The payload and the parse mode of an opening. *)
Definition openedPayload (a : AlertSnapshot) (rule : TelegramAlertChannel) : AlertSnapshot * string :=
  if isKind a AlertKindGitRepositoryUnavailable && blank (MessageTemplate (OpenedSpec rule)) then
    (withTexts a (EscapeString (snapshotTitle a)) (EscapeString (snapshotResourceID a))
       (EscapeString (snapshotMessage a)), telegramHTMLParseMode)
  else if isKind a AlertKindSyncFailed && blank (MessageTemplate (OpenedSpec rule)) then
    (defaultSyncFailedPayload a, telegramHTMLParseMode)
  else (a, "").

Definition opened (a : AlertSnapshot) (now : Time) : Run unit :=
  let key : LinkKey := (snapshotID a, recipient) in
  do! Ensure key in
  let! link := Get key in
  if negb (bool_decide (LinkOpenedAt link = None)) || negb (bool_decide (LinkResolvedAt link = None))
  then st_ret ()
  else
    let route := rule (kindOf a) in
    let '(payload, parseMode) := openedPayload a route in
    let! receipt := notify Opening key (AlertOpenedTemplate route (kindOf a)) parseMode
                      {| Payload := payload; messageAction := ActionSend; TargetMessageID := 0 |} in
    MarkOpened key receipt now.

Definition containsRecipient (recipients : list AlertRecipient) : bool :=
  existsb (λ r, bool_decide (r = recipient)) recipients.

Definition shouldResolveWithoutLink (a : AlertSnapshot) (recipients : list AlertRecipient) : Run bool :=
  let! opening := OpeningRecipients (snapshotID a) in
  match opening with
  | Some openingRecipients => st_ret (containsRecipient openingRecipients)
  | None =>
      let! hasLinks := HasAny (snapshotID a) in
      st_ret (negb hasLinks && containsRecipient recipients)
  end.

(** The link of the resolution; [None] when it is not delivered here. *)
Definition resolutionLink (a : AlertSnapshot) (recipients : list AlertRecipient) : Run (option MessageLink) := λ w,
  let key : LinkKey := (snapshotID a, recipient) in
  match Get key w with
  | (Ok link, w) => (Ok (Some link), w)
  | (Err NoRows, w) =>
      (let! deliver := shouldResolveWithoutLink a recipients in
       if negb deliver then st_ret None
       else do! Ensure key in let! link := Get key in st_ret (Some link)) w
  | (Err e, w) => (Err e, w)
  end.

Definition resolvedPayload (a : AlertSnapshot) (rule : TelegramAlertChannel) : AlertSnapshot * string :=
  if isKind a AlertKindGitRepositoryUnavailable && blank (MessageTemplate (ResolvedSpec rule)) then
    (withTexts a (snapshotTitle a) (EscapeString (snapshotResourceID a)) (snapshotMessage a), telegramHTMLParseMode)
  else (a, "").

Definition resolved (a : AlertSnapshot) (recipients : list AlertRecipient) (now : Time) : Run unit :=
  let key : LinkKey := (snapshotID a, recipient) in
  let! found := resolutionLink a recipients in
  match found with
  | None => st_ret ()
  | Some link =>
      if negb (bool_decide (LinkResolvedAt link = None)) then st_ret ()
      else
        let route := rule (kindOf a) in
        let '(payload, parseMode) := resolvedPayload a route in
        let action := if bool_decide (OpenedMessageID link = None) then ActionSend else AlertResolvedAction route in
        let! receipt := notify Resolving key (AlertResolvedTemplate route (Some (kindOf a))) parseMode
                          {| Payload := payload; messageAction := action;
                             TargetMessageID := default 0%Z (OpenedMessageID link) |} in
        MarkResolved key receipt now
  end.

(** [Subscriber.Handle] *)
Definition Handle (t : AlertTransition) (now : Time) : Run unit :=
  do! PruneCompleted in
  match t with
  | AlertOpened a recipients => if containsRecipient recipients then opened a now else st_ret ()
  | AlertResolved a recipients => resolved a recipients now
  end.
End Subscriber.

(** ** Registration *)
Section Registration.
Context (sha256_hex : string → string).
Context {S : Type} `{LinkDatabase}.

Fixpoint recoverPending (ids : list string) (recipients : gset AlertRecipient)
    : Result notificationError (gset AlertRecipient) :=
  match ids with
  | [] => Ok recipients
  | id :: ids =>
      match parseSubscriptionID id with
      | None => Err (NotificationFault "recover alert notification subscription")
      | Some r => recoverPending ids ({[r]} ∪ recipients)
      end
  end.

Definition configuredRecipients (spec : NotificationSpec) : gset AlertRecipient :=
  list_to_set (AlertRecipients sha256_hex spec notificationAlertNameDefault ++
    flat_map (AlertRecipients sha256_hex spec)
      (filter (λ kind, kind ≠ notificationAlertNameDefault) (map_to_list (AlertRoutes spec)).*1)).

(** [Register]: the destinations, each subscribed under its identifier. [pending] are the
    subscriptions of the alert deliveries that are not done, or the error of the query. *)
Definition Register (spec : NotificationSpec) (pending : Result string (list string))
    : St (Notifying S) notificationError (list (string * AlertRecipient)) :=
  do! PruneCompleted in
  let! known := KnownRecipients in
  match pending with
  | Err e => st_throw (NotificationFault e)
  | Ok ids =>
      match recoverPending ids (known ∪ configuredRecipients spec) with
      | Err e => st_throw e
      | Ok recipients => st_ret (map (λ r, (SubscriptionID r, r)) (elements recipients))
      end
  end.
End Registration.
