(* ===== verification/NotificationLifecycle.v ===== *)
(** * The lifecycle of alert notifications

    A history interleaves the publication of transitions, their delivery to any destination with
    any configuration, their removal from the outbox, and restarts. *)
From S2P Require Import Prelude GoStrings Hoare Alerts NotificationConfig TelegramNotifier AlertNotifications.
Local Open Scope go_scope.

(** ** Lawful histories *)

(** A message is not sent again once its acceptance, or that of the resolution, is
    recorded; a resolution refers to the recorded opening message or stands alone. *)
Definition lawfulEntry (l : list Entry) (e : Entry) : Prop :=
  match e with
  | Accepted Opening key m r =>
      receiptFits m r ∧ messageAction m = ActionSend ∧ ∀ phase r', Marked phase key r' ∉ l
  | Accepted Resolving key m r =>
      receiptFits m r ∧ (∀ r', Marked Resolving key r' ∉ l) ∧
      ((∃ r', Marked Opening key r' ∈ l ∧ TargetMessageID m = MessageID r') ∨
       ((∀ r', Marked Opening key r' ∉ l) ∧ messageAction m = ActionSend ∧ TargetMessageID m = 0%Z))
  | Marked phase key r => ∃ m, last l = Some (Accepted phase key m r)
  end.

Inductive lawful : list Entry → Prop :=
| lawful_nil : lawful []
| lawful_snoc l e : lawful l → lawfulEntry l e → lawful (l ++ [e]).

(** ** Histories *)
Section Histories.
Context (sha256_hex : string → string).
Context {S : Type} `{NotifierLaws S, LinkDatabase}.
Notation World := (Notifying S).

Definition withStored (l : list AlertTransition) (w : World) : World :=
  {| links := links w; stored := l; telegram := telegram w; executed := executed w; happened := happened w |}.

Definition isResolution (t : AlertTransition) : bool :=
  match t with AlertResolved _ _ => true | AlertOpened _ _ => false end.
Definition idOf (t : AlertTransition) : string := snapshotID (transitionAlert t).

(** A step, with the identifiers of the alerts whose resolution was published: nothing is
    published of an alert after its resolution. *)
Inductive happens : World * gset string → World * gset string → Prop :=
| happens_published w ids t :
    idOf t ∉ ids →
    happens (w, ids) (withStored (stored w ++ [t]) w, if isResolution t then {[idOf t]} ∪ ids else ids)
| happens_delivered w ids spec recipient t now :
    t ∈ stored w → happens (w, ids) ((Handle sha256_hex spec recipient t now w).2, ids)
| happens_removed w ids l1 t l2 :
    stored w = l1 ++ t :: l2 → happens (w, ids) (withStored (l1 ++ l2) w, ids)
| happens_registered w ids spec pending : happens (w, ids) ((Register sha256_hex spec pending w).2, ids).

Definition initial (w : World) : Prop := links w = ∅ ∧ stored w = [] ∧ happened w = [].

Inductive reachable : World * gset string → Prop :=
| reachable_initial w : initial w → reachable (w, ∅)
| reachable_step x y : reachable x → happens x y → reachable y.

(** Nothing will be delivered of the alert any more. *)
Definition gone (ids : gset string) (l : list AlertTransition) (id : string) : Prop :=
  id ∈ ids ∧ ∀ t, t ∈ l → idOf t ≠ id.

(** The link of a key agrees with what was recorded for it. *)
Definition linkAgrees (h : list Entry) (key : LinkKey) (link : MessageLink) : Prop :=
  (OpenedMessageID link = None ↔ LinkOpenedAt link = None) ∧
  (∀ id, OpenedMessageID link = Some id → ∃ r, Marked Opening key r ∈ h ∧ MessageID r = id) ∧
  (LinkResolvedAt link ≠ None → ∃ r, Marked Resolving key r ∈ h).

Record inv (ids : gset string) (w : World) : Prop := {
  inv_resolutions t : t ∈ stored w → isResolution t = true → idOf t ∈ ids;
  inv_resolved key link : links w !! key = Some link → LinkResolvedAt link ≠ None → key.1 ∈ ids;
  inv_agrees key link : links w !! key = Some link → linkAgrees (happened w) key link;
  inv_opened key r : Marked Opening key r ∈ happened w →
    (∃ link, links w !! key = Some link ∧ OpenedMessageID link = Some (MessageID r)) ∨ gone ids (stored w) key.1;
  inv_closed key r : Marked Resolving key r ∈ happened w →
    (∃ link, links w !! key = Some link ∧ LinkResolvedAt link ≠ None) ∨ gone ids (stored w) key.1;
  inv_lawful : lawful (happened w);
}.

Lemma inv_initial w : initial w → inv ∅ w.
Proof.
  intros (Hl & Hs & Hh). split; rewrite ?Hl, ?Hs, ?Hh.
  - by intros t ?%elem_of_nil.
  - intros key link. by rewrite lookup_empty.
  - intros key link. by rewrite lookup_empty.
  - by intros key r ?%elem_of_nil.
  - by intros key r ?%elem_of_nil.
  - constructor.
Qed.

(** What the invariant reads. *)
Lemma notifier_inv_same ids w w' :
  links w' = links w → stored w' = stored w → happened w' = happened w → inv ids w → inv ids w'.
Proof. intros Hl Hs Hh []. split; rewrite ?Hl, ?Hs, ?Hh; done. Qed.

Lemma inv_published ids w t :
  idOf t ∉ ids → inv ids w →
  inv (if isResolution t then {[idOf t]} ∪ ids else ids) (withStored (stored w ++ [t]) w).
Proof.
  intros Hid [Hr Hres Ha Ho Hc Hl].
  set (ids' := if isResolution t then {[idOf t]} ∪ ids else ids).
  assert (ids ⊆ ids') as Hsub by (unfold ids'; destruct (isResolution t); set_solver).
  assert (∀ id, gone ids (stored w) id → gone ids' (stored w ++ [t]) id) as Hgone.
  { intros id [Hin Hno]. split; [by apply Hsub|]. intros t' [Ht| ->%list_elem_of_singleton]%elem_of_app; [by apply Hno|].
    by intros <-. }
  split; simpl.
  - intros t' [Ht'| ->%list_elem_of_singleton]%elem_of_app Hres'; [by apply Hsub, Hr|].
    unfold ids'. rewrite Hres'. set_solver.
  - intros key link Hk Hlink. by eapply Hsub, Hres.
  - done.
  - intros key r Hm. destruct (Ho key r Hm); [by left|right; by apply Hgone].
  - intros key r Hm. destruct (Hc key r Hm); [by left|right; by apply Hgone].
  - done.
Qed.

Lemma inv_removed ids w l1 t l2 : stored w = l1 ++ t :: l2 → inv ids w → inv ids (withStored (l1 ++ l2) w).
Proof.
  intros Heq [Hr Hres Ha Ho Hc Hl].
  assert (∀ t', t' ∈ l1 ++ l2 → t' ∈ stored w) as Hin by (intros t'; rewrite Heq; set_solver).
  assert (∀ id, gone ids (stored w) id → gone ids (l1 ++ l2) id) as Hgone.
  { intros id [Hi Hno]. split; [done|]. intros t' Ht'. by apply Hno, Hin. }
  split; simpl; try done.
  - intros t' Ht'. by apply Hr, Hin.
  - intros key r Hm. destruct (Ho key r Hm); [by left|right; by apply Hgone].
  - intros key r Hm. destruct (Hc key r Hm); [by left|right; by apply Hgone].
Qed.

(** ** The operations *)
Section Operations.
Context (ids : gset string) (t : AlertTransition).

(** The invariant while a transition that is stored is handled. *)
Definition handling (w : World) : Prop := inv ids w ∧ t ∈ stored w.

Lemma not_gone w : handling w → ¬ gone ids (stored w) (idOf t).
Proof. intros [_ Ht] [_ Hno]. by apply (Hno t). Qed.

Lemma handling_same w w' :
  links w' = links w → stored w' = stored w → happened w' = happened w → handling w → handling w'.
Proof. intros Hl Hs Hh [Hi Ht]. split; [by apply (notifier_inv_same ids w)|by rewrite Hs]. Qed.

(** A statement changes nothing that [P] reads. *)
Lemma execute_keeps (P : World → Prop) :
  (∀ w w', links w' = links w → stored w' = stored w → happened w' = happened w → P w → P w') →
  triple P execute (λ _, P) P.
Proof.
  intros HP w Hw. unfold execute. destruct (failing (executed w)); by apply (HP w).
Qed.

Lemma handling_execute : triple handling execute (λ _, handling) handling.
Proof. apply execute_keeps, handling_same. Qed.

Lemma inv_pruned w : inv ids w → inv ids (withLinks (filter (λ kl, prunable w kl = false) (links w)) w).
Proof.
  intros [Hr Hres Ha Ho Hc Hl]. unfold withLinks.
  assert (∀ key link, links w !! key = Some link →
    filter (λ kl, prunable w kl = false) (links w) !! key = Some link ∨ gone ids (stored w) key.1) as Hkept.
  { intros key link Hk. destruct (prunable w (key, link)) eqn:Hp.
    - right. unfold prunable in Hp. apply andb_prop in Hp as [Hnone Hno]. simpl in Hnone, Hno.
      apply negb_true_iff, bool_decide_eq_false_1 in Hnone. apply negb_true_iff in Hno.
      split; [by eapply Hres|]. intros t' Ht' Hid.
      assert (existsb (transitionOf key.1) (stored w) = true) as Htrue; [|by rewrite Htrue in Hno].
      apply existsb_exists. exists t'. split; [by apply list_elem_of_In|]. by apply bool_decide_eq_true_2.
    - left. apply map_lookup_filter_Some. done. }
  split; simpl; try done.
  - intros key link [Hk _]%map_lookup_filter_Some. by eapply Hres.
  - intros key link [Hk _]%map_lookup_filter_Some. by apply Ha.
  - intros key r Hm. destruct (Ho key r Hm) as [(link & Hk & Hid)|]; [|by right].
    destruct (Hkept key link Hk); [left; by exists link|by right].
  - intros key r Hm. destruct (Hc key r Hm) as [(link & Hk & Hid)|]; [|by right].
    destruct (Hkept key link Hk); [left; by exists link|by right].
Qed.

Lemma handling_prune : triple handling PruneCompleted (λ _, handling) handling.
Proof.
  apply triple_bind with (Q := λ _, handling); [apply handling_execute|]. intros [].
  apply triple_modify. intros w [Hi Ht]. split; [by apply inv_pruned|done].
Qed.

(** The links of other keys, and a link that agrees with the history, keep the invariant. *)
Lemma inv_insert w key link :
  inv ids w → linkAgrees (happened w) key link →
  (LinkResolvedAt link ≠ None → key.1 ∈ ids) →
  (∀ old, links w !! key = Some old → OpenedMessageID old ≠ None → OpenedMessageID link = OpenedMessageID old) →
  (∀ old, links w !! key = Some old → LinkResolvedAt old ≠ None → LinkResolvedAt link ≠ None) →
  inv ids (withLinks (<[key := link]> (links w)) w).
Proof.
  intros [Hr Hres Ha Ho Hc Hl] Hagrees Hids Hopened Hclosed. split; simpl; try done.
  - intros k x. destruct (decide (k = key)) as [->|Hne].
    + rewrite lookup_insert_eq. intros [= <-]. done.
    + rewrite lookup_insert_ne by done. apply Hres.
  - intros k x. destruct (decide (k = key)) as [->|Hne].
    + rewrite lookup_insert_eq. by intros [= <-].
    + rewrite lookup_insert_ne by done. apply Ha.
  - intros k r Hm. destruct (Ho k r Hm) as [(x & Hk & Hid)|]; [left|by right].
    destruct (decide (k = key)) as [->|Hne].
    + rewrite lookup_insert_eq. exists link. split; [done|]. rewrite (Hopened x) by (done || by rewrite Hid). done.
    + rewrite lookup_insert_ne by done. by exists x.
  - intros k r Hm. destruct (Hc k r Hm) as [(x & Hk & Hid)|]; [left|by right].
    destruct (decide (k = key)) as [->|Hne].
    + rewrite lookup_insert_eq. exists link. split; [done|]. by apply (Hclosed x).
    + rewrite lookup_insert_ne by done. by exists x.
Qed.

(** A longer history with the same links. *)
Lemma inv_accepted w phase key m r :
  lawfulEntry (happened w) (Accepted phase key m r) → inv ids w → inv ids (record (Accepted phase key m r) w).
Proof.
  intros Hlaw [Hr Hres Ha Ho Hc Hl].
  assert (∀ p k x, Marked p k x ∈ happened w ++ [Accepted phase key m r] ↔ Marked p k x ∈ happened w) as Hm.
  { intros p k x. rewrite elem_of_app, list_elem_of_singleton. naive_solver. }
  split; unfold record; cbn [links stored happened]; try done.
  - intros k x Hk. destruct (Ha k x Hk) as (Hx1 & Hx2 & Hx3). split; [done|]. split.
    + intros id Hid. destruct (Hx2 id Hid) as (x' & ? & ?). exists x'. by rewrite Hm.
    + intros Hx. destruct (Hx3 Hx) as (x' & ?). exists x'. by rewrite Hm.
  - intros k x. rewrite Hm. apply Ho.
  - intros k x. rewrite Hm. apply Hc.
  - by constructor.
Qed.

(** The record of an acceptance and the link that goes with it. *)
Lemma inv_marked w phase key m r link :
  inv ids w → last (happened w) = Some (Accepted phase key m r) →
  linkAgrees (happened w ++ [Marked phase key r]) key link →
  (LinkResolvedAt link ≠ None → key.1 ∈ ids) →
  (∀ old, links w !! key = Some old → OpenedMessageID old ≠ None → OpenedMessageID link = OpenedMessageID old) →
  (∀ old, links w !! key = Some old → LinkResolvedAt old ≠ None → LinkResolvedAt link ≠ None) →
  (phase = Opening → OpenedMessageID link = Some (MessageID r)) →
  (phase = Resolving → LinkResolvedAt link ≠ None) →
  inv ids (record (Marked phase key r) (withLinks (<[key := link]> (links w)) w)).
Proof.
  intros [Hr Hres Ha Ho Hc Hl] Hlast Hagrees Hids Hopened Hclosed Hopening Hresolving.
  assert (∀ p k x, Marked p k x ∈ happened w ++ [Marked phase key r] →
    Marked p k x ∈ happened w ∨ (p = phase ∧ k = key ∧ x = r)) as Hm.
  { intros p k x. rewrite elem_of_app, list_elem_of_singleton. naive_solver. }
  split; unfold record, withLinks; cbn [links stored happened]; try done.
  - intros k x. destruct (decide (k = key)) as [->|Hne].
    + rewrite lookup_insert_eq. intros [= <-]. done.
    + rewrite lookup_insert_ne by done. apply Hres.
  - intros k x. destruct (decide (k = key)) as [->|Hne]; [rewrite lookup_insert_eq; by intros [= <-]|].
    rewrite lookup_insert_ne by done. intros Hk. destruct (Ha k x Hk) as (Hx1 & Hx2 & Hx3). split; [done|]. split.
    + intros id Hid. destruct (Hx2 id Hid) as (x' & ? & ?). exists x'. split; [|done]. apply elem_of_app. by left.
    + intros Hx. destruct (Hx3 Hx) as (x' & ?). exists x'. apply elem_of_app. by left.
  - intros k x [Hx|(<- & -> & ->)]%Hm; [|left; exists link; rewrite lookup_insert_eq; auto].
    destruct (Ho k x Hx) as [(y & Hk & Hid)|]; [left|by right]. destruct (decide (k = key)) as [->|Hne].
    + rewrite lookup_insert_eq. exists link. split; [done|]. rewrite (Hopened y) by (done || by rewrite Hid). done.
    + rewrite lookup_insert_ne by done. by exists y.
  - intros k x [Hx|(<- & -> & ->)]%Hm; [|left; exists link; rewrite lookup_insert_eq; auto].
    destruct (Hc k x Hx) as [(y & Hk & Hid)|]; [left|by right]. destruct (decide (k = key)) as [->|Hne].
    + rewrite lookup_insert_eq. exists link. split; [done|]. by apply (Hclosed y).
    + rewrite lookup_insert_ne by done. by exists y.
  - constructor; [done|]. by exists m.
Qed.

Notation key r := ((idOf t, r) : LinkKey).

Lemma handling_ensure r :
  triple handling (Ensure (key r)) (λ _ w, handling w ∧ is_Some (links w !! key r)) handling.
Proof.
  apply triple_bind with (Q := λ _, handling); [apply handling_execute|]. intros []. apply triple_modify.
  intros w [Hi Ht]. split; [|simpl; rewrite lookup_insert_eq; eauto]. split; [|done].
  destruct (links w !! key r) as [link|] eqn:Hk; simpl.
  - apply inv_insert; rewrite ?Hk; [done| |by apply (inv_resolved _ _ Hi _ link)|intros ? [= <-]; done|by intros ? [= <-]].
    by apply (inv_agrees _ _ Hi).
  - apply inv_insert; rewrite ?Hk; [done|split; [done|by split]|done..].
Qed.

Lemma handling_get P r :
  (∀ w w', links w' = links w → stored w' = stored w → happened w' = happened w → P w → P w') →
  (∀ w, P w → handling w) →
  triple P (Get (key r)) (λ link w, P w ∧ links w !! key r = Some link) handling.
Proof.
  intros Hsame HP. apply triple_bind with (Q := λ _, P).
  - eapply triple_weaken; [by apply (execute_keeps P)|done..|apply HP].
  - intros [] w Hw. destruct (links w !! key r) as [link|] eqn:Hk; [done|]. by apply HP.
Qed.

Context (spec : NotificationSpec) (recipient : AlertRecipient).
Notation k := (key recipient).

(** The state before a message is sent, and after it was accepted. *)
Definition ready (link : MessageLink) (w : World) : Prop := handling w ∧ links w !! k = Some link.
Definition sent (link : MessageLink) (phase : Phase) (r : Receipt) (w : World) : Prop :=
  ready link w ∧ ∃ m, last (happened w) = Some (Accepted phase k m r).

Lemma notify_sent link phase template parseMode m :
  (∀ w r, ready link w → receiptFits m r → lawfulEntry (happened w) (Accepted phase k m r)) →
  triple (ready link) (notify sha256_hex spec recipient phase k template parseMode m)
    (λ r, sent link phase r) handling.
Proof.
  intros Hlaw w [Hw Hk]. unfold notify. destruct (negb _); [done|].
  destruct (Deliver _ m (telegram w)) as [[r|e] s] eqn:Hd; [|by apply (handling_same w)].
  apply Deliver_receipt in Hd. destruct Hw as [Hi Ht].
  split; [|exists m; apply last_snoc]. split; [|done]. split; [|done].
  by apply inv_accepted; [apply (Hlaw w); [done|done]|apply (notifier_inv_same ids w)].
Qed.

Lemma triple_update link condition change entry P :
  (∀ w w', links w' = links w → stored w' = stored w → happened w' = happened w → P w → P w') →
  (∀ w, P w → handling w ∧ links w !! k = Some link) → condition link = true →
  (∀ w, P w → inv ids (record entry (withLinks (<[k := change link]> (links w)) w))) →
  triple P (updateLink k condition change entry) (λ _ w, handling w ∧ entry ∈ happened w) handling.
Proof.
  intros Hsame Hlink Hcond Hinv. apply triple_bind with (Q := λ _, P).
  - eapply triple_weaken; [by apply (execute_keeps P)|done..|]. intros w Hw. by apply Hlink.
  - intros []. apply triple_modify. intros w Hw. destruct (Hlink w Hw) as [[Hi Ht] Hk]. rewrite Hk, Hcond.
    split; [split; [by apply Hinv|done]|]. simpl. apply elem_of_app. right. by apply list_elem_of_singleton.
Qed.

Lemma sent_same link phase r w w' :
  links w' = links w → stored w' = stored w → happened w' = happened w → sent link phase r w → sent link phase r w'.
Proof.
  intros Hl Hs Hh [[Hw Hk] Hm]. split; [|by rewrite Hh]. split; [by apply (handling_same w)|by rewrite Hl].
Qed.

Lemma marked_opened link r now :
  LinkOpenedAt link = None → LinkResolvedAt link = None →
  triple (sent link Opening r) (MarkOpened k r now) (λ _, handling) handling.
Proof.
  intros Hopen Hres. unfold MarkOpened. destruct (MessageID r <=? 0)%Z.
  { apply triple_throw. by intros w [[Hw _] _]. }
  apply triple_intro with (X := OpenedMessageID link = None).
  { intros w [[[Hi _] Hk] _]. by apply (inv_agrees _ _ Hi) in Hk as (Hiff & _); apply Hiff. }
  intros Hnone. eapply triple_weaken; [apply (triple_update link) with (P := sent link Opening r)|done| |done].
  - apply sent_same.
  - by intros w [Hw _].
  - by rewrite Hnone, Hres.
  - intros w [[[Hi Ht] Hk] [m Hlast]]. apply (inv_marked _ _ _ m); simpl; rewrite ?Hk; try done.
    + split; [done|]. split; [|done]. intros id [= <-]. exists r. split; [|done].
      apply elem_of_app. right. by apply list_elem_of_singleton.
    + intros old [= <-]. by rewrite Hnone.
    + by intros old [= <-].
  - by intros [] w [Hw _].
Qed.

Lemma marked_resolved link r now :
  isResolution t = true → LinkResolvedAt link = None →
  triple (sent link Resolving r) (MarkResolved k r now)
    (λ _ w, handling w ∧ Marked Resolving k r ∈ happened w) handling.
Proof.
  intros Ht' Hres. unfold MarkResolved. destruct (_ && _).
  { apply triple_throw. by intros w [[Hw _] _]. }
  apply (triple_update link) with (P := sent link Resolving r).
  - apply sent_same.
  - by intros w [Hw _].
  - by rewrite Hres.
  - intros w [[[Hi Ht] Hk] [m Hlast]]. pose proof (inv_agrees _ _ Hi _ _ Hk) as (Hiff & Hopen & _).
    apply (inv_marked _ _ _ m); simpl; rewrite ?Hk; try done.
    + split; [done|]. split.
      * intros id Hid. destruct (Hopen id Hid) as (x & ? & ?). exists x. split; [|done]. apply elem_of_app. by left.
      * intros _. exists r. apply elem_of_app. right. by apply list_elem_of_singleton.
    + intros _. by apply (inv_resolutions _ _ Hi).
    + by intros old [= <-].
Qed.

Lemma opened_handled a now :
  t = AlertOpened a (match t with AlertOpened _ rs | AlertResolved _ rs => rs end) →
  triple handling (opened sha256_hex spec recipient a now) (λ _, handling) handling.
Proof.
  intros Hta. assert (snapshotID a = idOf t) as Hid by (by rewrite Hta). unfold opened. rewrite Hid.
  apply triple_bind with (Q := λ _, handling).
  { eapply triple_weaken; [apply handling_ensure|done|by intros [] w [Hw _]|done]. }
  intros []. apply triple_bind with (Q := ready).
  { eapply triple_weaken; [apply (handling_get handling); [apply handling_same|done]|done|done|done]. }
  intros link. destruct (negb _ || negb _) eqn:Hopen; [apply triple_ret; by intros w [Hw _]|].
  apply orb_false_iff in Hopen as [Ho%negb_false_iff%bool_decide_eq_true_1 Hr%negb_false_iff%bool_decide_eq_true_1].
  destruct (openedPayload _ _) as [payload parseMode].
  apply triple_bind with (Q := λ r, sent link Opening r); [|intros r; by apply marked_opened].
  apply notify_sent. intros w r [[Hi Ht] Hk] Hfits. split; [done|]. split; [done|].
  pose proof (inv_agrees _ _ Hi _ _ Hk) as (Hiff & _).
  intros [|] r' Hm.
  - destruct (inv_opened _ _ Hi _ _ Hm) as [(link' & Hk' & Hid')|Hg]; [|by apply (not_gone w)].
    simplify_eq. by rewrite (proj2 Hiff) in Hid'.
  - destruct (inv_closed _ _ Hi _ _ Hm) as [(link' & Hk' & Hid')|Hg]; [|by apply (not_gone w)]. by simplify_eq.
Qed.

(** [X] is what the absence of the link would mean. *)
Lemma resolutionLink_handled a rs (X : Prop) :
  snapshotID a = idOf t →
  triple (λ w, handling w ∧ (links w !! k = None → X)) (resolutionLink recipient a rs)
    (λ found w, match found with Some link => ready link w | None => handling w ∧ X end) handling.
Proof.
  intros Hid. unfold resolutionLink. rewrite Hid. intros w [Hw HX].
  unfold Get, st_bind. unfold execute at 1.
  destruct (failing (executed w)); [by apply (handling_same w)|]. simpl.
  destruct (links w !! k) as [link|] eqn:Hk.
  { split; [by apply (handling_same w)|done]. }
  specialize (HX eq_refl). set (w0 := {| links := links w; stored := stored w; telegram := telegram w; executed := _; happened := _ |}).
  assert (handling w0 ∧ links w0 !! k = None) as Hw0 by (split; [by apply (handling_same w)|done]). clearbody w0.
  set (P := λ w : World, handling w ∧ links w !! k = None) in *.
  assert (∀ w w', links w' = links w → stored w' = stored w → happened w' = happened w → P w → P w') as Hsame.
  { intros x x' Hl Hs Hh [Hx Hn]. split; [by apply (handling_same x)|by rewrite Hl]. }
  assert (triple P (shouldResolveWithoutLink recipient a rs) (λ _, P) handling) as Hshould.
  { assert (triple P execute (λ _, P) handling) as Hex.
    { eapply triple_weaken; [by apply (execute_keeps P)|done|done|by intros ? [? _]]. }
    unfold shouldResolveWithoutLink, OpeningRecipients, HasAny. apply triple_bind with (Q := λ _, P).
    - apply triple_bind with (Q := λ _, P); [done|]. by intros [] x Hx.
    - intros [openers|]; [by apply triple_ret|]. apply triple_bind with (Q := λ _, P).
      + apply triple_bind with (Q := λ _, P); [done|]. by intros [] x Hx.
      + intros b. by apply triple_ret. }
  refine (triple_bind _ _ P (λ _, P) _ handling Hshould _ w0 Hw0). intros [|]; simpl.
  - apply triple_bind with (Q := λ _, handling).
    { eapply triple_weaken; [apply handling_ensure|by intros ? [? _]|by intros [] ? [? _]|done]. }
    intros []. apply triple_bind with (Q := ready).
    { eapply triple_weaken; [apply (handling_get handling); [apply handling_same|done]|done|done|done]. }
    intros link. by apply triple_ret.
  - apply triple_ret. by intros x [Hx _].
Qed.

Lemma resolved_handled a rs now (X : Prop) :
  t = AlertResolved a rs →
  triple (λ w, handling w ∧ (links w !! k = None → X)) (resolved sha256_hex spec recipient a rs now)
    (λ _ w, handling w ∧ (X ∨ ∃ r, Marked Resolving k r ∈ happened w)) handling.
Proof.
  intros Hta. assert (snapshotID a = idOf t) as Hid by (by rewrite Hta). unfold resolved. rewrite Hid.
  eapply triple_bind; [by apply resolutionLink_handled|].
  intros [link|]; [|by apply triple_ret; intros w [Hw Hk]; auto].
  destruct (negb _) eqn:Hres.
  { apply triple_ret. intros w [Hw Hk]. split; [done|]. right. apply negb_true_iff, bool_decide_eq_false_1 in Hres.
    by apply (inv_agrees _ _ (proj1 Hw) _ _ Hk). }
  apply negb_false_iff, bool_decide_eq_true_1 in Hres. destruct (resolvedPayload _ _) as [payload parseMode].
  apply triple_bind with (Q := λ r, sent link Resolving r).
  - apply notify_sent. intros w r [[Hi Ht] Hk] Hfits. split; [done|]. split.
    + intros r' Hm. destruct (inv_closed _ _ Hi _ _ Hm) as [(link' & Hk' & Hid')|Hg]; [|by apply (not_gone w)].
      by simplify_eq.
    + pose proof (inv_agrees _ _ Hi _ _ Hk) as (_ & Hopen & _). simpl.
      destruct (OpenedMessageID link) as [id|] eqn:Ho; simpl.
      * left. destruct (Hopen id eq_refl) as (x & ? & ?). by exists x.
      * right. split; [|done]. intros r' Hm.
        destruct (inv_opened _ _ Hi _ _ Hm) as [(link' & Hk' & Hid')|Hg]; [|by apply (not_gone w)].
        by simplify_eq.
  - intros r. assert (isResolution t = true) as Ht by (by rewrite Hta).
    eapply triple_weaken; [exact (marked_resolved link r now Ht Hres)|done| |done].
    intros [] w [Hw Hm]. split; [done|]. right. by exists r.
Qed.

Lemma Handle_handled now :
  triple handling (Handle sha256_hex spec recipient t now) (λ _, handling) handling.
Proof.
  unfold Handle. apply triple_bind with (Q := λ _, handling); [apply handling_prune|]. intros [].
  destruct t as [a rs|a rs] eqn:Ht.
  - destruct (containsRecipient recipient rs); [|by apply triple_ret].
    apply opened_handled. by rewrite Ht.
  - eapply triple_weaken; [apply (resolved_handled a rs now True); by rewrite Ht|done| |done].
    by intros [] w [Hw Hm].
Qed.
End Operations.

Lemma inv_registered ids spec pending w : inv ids w → inv ids (Register sha256_hex spec pending w).2.
Proof.
  intros Hi. apply (triple_inv _ (inv ids) (inv ids)); [|done].
  assert (triple (inv ids) execute (λ _, inv ids) (inv ids)) as Hex.
  { apply execute_keeps. intros x x'. apply notifier_inv_same. }
  unfold Register. apply triple_bind with (Q := λ _, inv ids).
  { apply triple_bind with (Q := λ _, inv ids); [done|]. intros []. apply triple_modify. apply inv_pruned. }
  intros []. apply triple_bind with (Q := λ _, inv ids).
  { apply triple_bind with (Q := λ _, inv ids); [done|]. by intros [] x Hx. }
  intros known. destruct pending as [l|e]; [|by apply triple_throw].
  destruct (recoverPending l _); [by apply triple_ret|by apply triple_throw].
Qed.

Lemma notifier_reachable_inv x : reachable x → inv x.2 x.1.
Proof.
  induction 1 as [w Hw|x y _ IH Hstep]; [by apply inv_initial|].
  destruct Hstep as [w ids t Hid|w ids spec recipient t now Ht|w ids l1 t l2 Heq|w ids spec pending]; simpl in *.
  - by apply inv_published.
  - assert (handling ids t (Handle sha256_hex spec recipient t now w).2) as [Hi _]; [|done].
    apply (triple_inv _ (handling ids t)); [|done].
    eapply triple_weaken; [apply Handle_handled|done|done|done].
  - by apply (inv_removed ids w l1 t l2).
  - by apply inv_registered.
Qed.


(** C31. Who learned of an opening learns of the resolution. When the delivery of a
    resolution succeeds for a destination for which an opening message was recorded, a
    resolution message is recorded for it too, at the latest by this delivery: whatever
    the configuration says by now, and although the alert itself may have been removed. *)
Theorem resolution_follows_opening w ids spec recipient a recipients now w' r
    (Hreach : reachable (w, ids)) (Hstored : AlertResolved a recipients ∈ stored w)
    (Hopened : Marked Opening (snapshotID a, recipient) r ∈ happened w)
    (Hdelivered : Handle sha256_hex spec recipient (AlertResolved a recipients) now w = (Ok (), w')) :
  ∃ r', Marked Resolving (snapshotID a, recipient) r' ∈ happened w'.
Proof.
  pose proof (notifier_reachable_inv _ Hreach) as Hi. simpl in Hi. set (t := AlertResolved a recipients) in *.
  unfold Handle in Hdelivered. apply st_bind_ok in Hdelivered as ([] & w1 & Hprune & Hrun).
  assert (handling ids t w1 ∧ Marked Opening (snapshotID a, recipient) r ∈ happened w1) as [Hw1 Hm1].
  { split; [by apply (triple_ok _ _ _ _ _ _ _ (handling_prune ids t) (conj Hi Hstored) Hprune)|].
    unfold PruneCompleted, execute, st_bind, st_modify in Hprune. destruct (failing (executed w)); by simplify_eq. }
  assert (links w1 !! ((snapshotID a, recipient) : LinkKey) = None → False) as Hlink.
  { intros Hk. destruct (inv_opened _ _ (proj1 Hw1) _ _ Hm1) as [(link & Hk' & _)|Hg].
    - by rewrite Hk in Hk'.
    - by destruct (not_gone ids t w1 Hw1). }
  by destruct (triple_ok _ _ _ _ _ _ _
    (resolved_handled ids t spec recipient a recipients now False eq_refl) (conj Hw1 Hlink) Hrun)
    as [_ [[]|Hm]].
Qed.
End Histories.

(** ** An example: one alert that opens and is resolved *)
Module NotificationExample.

(** Telegram numbers its messages. *)
#[local] Instance numbering : Notifier Z :=
  {| Deliver options m n :=
       (Ok (if bool_decide (TargetMessageID m = 0%Z)
            then {| MessageID := (n + 1)%Z; receiptAction := ActionSend |}
            else if bool_decide (messageAction m = ActionEdit)
            then {| MessageID := TargetMessageID m; receiptAction := ActionEdit |}
            else {| MessageID := (n + 1)%Z; receiptAction := ActionReply |}), n + 1)%Z |}.
#[local] Instance numbering_laws : NotifierLaws Z.
Proof.
  split. intros options m n r n'. simpl. unfold receiptFits. intros [= <- _].
  case_bool_decide; [by left|]. case_bool_decide; right; [right|left]; done.
Qed.
#[local] Instance reliable : LinkDatabase := {| failing _ := None |}.

Definition spec : NotificationSpec :=
  {| Telegram := {| BotToken := "7:secret"; Retries := 3; SOCKS5Address := "";
                    telegramChats := {[ "default" := {| chatID := "ops"; chatThreadID := 0 |} ]} |};
     EventRoutes := ∅; AlertRoutes := ∅ |}.
Definition ops : AlertRecipient := {| BotIdentity := "7"; ChatID := "ops"; ThreadID := 0 |}.
Definition alert : AlertSnapshot :=
  {| snapshotID := "a"; snapshotKind := AlertKindServiceDrift; snapshotTitle := "Service drift detected";
     snapshotMessage := "replicas"; snapshotResourceType := ResourceTypeService; snapshotResourceID := "shop/web";
     snapshotDeploymentID := ""; snapshotErrorCode := ""; snapshotOccurrences := 1; snapshotDuration := "";
     snapshotOpenedAt := 1; snapshotResolvedAt := None; snapshotResolution := None |}.

Definition start : Notifying Z :=
  {| links := ∅; stored := []; telegram := 0%Z; executed := 0; happened := [] |}.
Definition sha (s : string) : string := s.
Definition published (t : AlertTransition) (w : Notifying Z) : Notifying Z := withStored (stored w ++ [t]) w.
Definition closed : gset string := {["a"]} ∪ ∅.
Definition w1 := published (AlertOpened alert [ops]) start.
Definition w2 := (Handle sha spec ops (AlertOpened alert [ops]) 5 w1).2.
Definition w3 := published (AlertResolved alert [ops]) w2.
Definition w4 := (Handle sha spec ops (AlertResolved alert [ops]) 9 w3).2.
Definition w5 := (Handle sha spec ops (AlertOpened alert [ops]) 10 w4).2.

Lemma reachable3 : reachable sha (w3, closed).
Proof.
  refine (reachable_step _ (w2, ∅) _ _ _).
  2:{ apply (happens_published sha w2 ∅ (AlertResolved alert [ops])). set_solver. }
  refine (reachable_step _ (w1, ∅) _ _ _).
  2:{ apply happens_delivered. apply list_elem_of_singleton. reflexivity. }
  refine (reachable_step _ (start, ∅) _ _ _).
  2:{ apply (happens_published sha start ∅ (AlertOpened alert [ops])). set_solver. }
  apply reachable_initial. repeat split; reflexivity.
Qed.

Lemma stored3 t : t ∈ [AlertOpened alert [ops]; AlertResolved alert [ops]] → t ∈ stored w3.
Proof. vm_compute stored. done. Qed.

Lemma reachable5 : reachable sha (w5, closed).
Proof.
  refine (reachable_step _ (w4, closed) _ _ _).
  2:{ apply happens_delivered. vm_compute stored. apply list_elem_of_here. }
  refine (reachable_step _ (w3, closed) _ reachable3 _).
  apply happens_delivered, stored3, list_elem_of_further, list_elem_of_here.
Qed.


Lemma resolution_follows_opening_witness :
  Marked Opening ("a", ops) {| MessageID := 1; receiptAction := ActionSend |} ∈ happened w3 ∧
  ∃ r', Marked Resolving ("a", ops) r' ∈ happened w4.
Proof.
  assert (Marked Opening ("a", ops) {| MessageID := 1; receiptAction := ActionSend |} ∈ happened w3) as Hm.
  { vm_compute happened. apply list_elem_of_further, list_elem_of_here. }
  split; [exact Hm|].
  apply (resolution_follows_opening sha w3 closed spec ops alert [ops] 9 w4
           {| MessageID := 1; receiptAction := ActionSend |}).
  - apply reachable3.
  - apply stored3, list_elem_of_further, list_elem_of_here.
  - exact Hm.
  - vm_compute. reflexivity.
Defined.
End NotificationExample.
