(* ===== verification/NotificationRoutes.v ===== *)
(** * The routes of a valid configuration

    What the validation of the section [notifications] is for: every alert has a destination,
    and every destination belongs to one route. *)
From S2P Require Import Prelude GoStrings Alerts NotificationConfig TelegramNotifier AlertNotifications.
Local Open Scope go_scope.

Lemma flat_map_nil {A B} (f : A → list B) l : flat_map f l = [] → ∀ x, x ∈ l → f x = [].
Proof.
  induction l as [|y l IH]; simpl; [by intros _ x ?%elem_of_nil|].
  intros [Hy Hl]%app_eq_nil x [->|Hx]%elem_of_cons; auto.
Qed.

Lemma concat_imap_nil {A B} (f : nat → A → list B) l i x :
  concat (imap f l) = [] → l !! i = Some x → f i x = [].
Proof.
  revert f i. induction l as [|y l IH]; intros f i; [done|]. rewrite imap_cons. cbn [concat].
  intros [Hy Hl]%app_eq_nil. destruct i as [|i]; simpl; [by intros [= ->]|]. by apply (IH (f ∘ S)).
Qed.

Section Routes.
Context (sha256_hex : string → string).
Context (openedTemplateError resolvedTemplateError : string → option string).
Context (eventTemplateError : string → option (string → option string)).
Context (c : NotificationSpec).
Notation destination := (destination sha256_hex c).
Notation routeDestinations := (routeDestinations sha256_hex c).

Lemma when_nil b e : when_ b e = [] ↔ b = false.
Proof. by destruct b. Qed.

Lemma collect_spec l seen :
  NoDup (collect seen l) ∧ ∀ r, r ∈ collect seen l ↔ r ∈ l ∧ r ∉ seen.
Proof.
  revert seen. induction l as [|x l IH]; intros seen; cbn [collect].
  { split; [constructor|]. intros r. rewrite elem_of_nil. tauto. }
  case_bool_decide as Hx.
  - destruct (IH seen) as [Hn He]. split; [done|]. intros r. rewrite He, elem_of_cons.
    split; [tauto|]. by intros [[->|]].
  - destruct (IH ({[x]} ∪ seen)) as [Hn He]. split.
    + constructor; [rewrite He; set_solver|done].
    + intros r. rewrite !elem_of_cons, He. destruct (decide (r = x)) as [->|]; set_solver.
Qed.

(** ** Chat names *)
Definition known (name : string) : Prop := is_Some (telegramChats (Telegram c) !! name).

Lemma validateNames_known path seen names : validateNames c path seen names = [] → ∀ name, name ∈ names → known name.
Proof.
  revert seen. induction names as [|n names IH]; intros seen; [by intros _ name ?%elem_of_nil|].
  cbn [validateNames]. intros [Hn Hnames]%app_eq_nil name [->|Hin]%elem_of_cons; [|by eapply IH].
  destruct (blank n); [done|]. case_bool_decide; [done|].
  apply when_nil, bool_decide_eq_false_1, not_eq_None_Some in Hn. done.
Qed.

Lemma validateChatNames_known path names :
  validateChatNames c path names = [] → ChatNames names ≠ [] ∧ ∀ name, name ∈ ChatNames names → known name.
Proof.
  unfold validateChatNames. destruct names as [[|n names]|]; [done|..]; intros Hv; (split; [done|]).
  all: by eapply validateNames_known.
Qed.

(** ** Destinations *)
Lemma destination_names_valid routePath names seen errs seen' :
  (∀ name, name ∈ names → known name) →
  validateDestinationNames sha256_hex c routePath names seen = (errs, seen') → errs = [] →
  NoDup (map destination names) ∧ (∀ r, r ∈ map destination names → seen !! r = None) ∧
  ∀ r, is_Some (seen' !! r) ↔ is_Some (seen !! r) ∨ r ∈ map destination names.
Proof.
  revert seen errs. induction names as [|n names IH]; intros seen errs Hknown; cbn [validateDestinationNames].
  { intros [= <- <-] _. split; [constructor|]. split; [by intros r ?%elem_of_nil|].
    intros r. split; [by left|]. intros [|?%elem_of_nil]; done. }
  destruct (Hknown n) as [chat Hchat]; [left|]. rewrite Hchat.
  assert (∀ name, name ∈ names → known name) as Hrest by (intros m Hm; apply Hknown; by right).
  destruct (seen !! destination n) eqn:Hseen.
  { destruct (validateDestinationNames _ _ _ _ _) as [errs' s']. by intros [= <- <-]. }
  intros Hv Herrs. destruct (IH _ _ Hrest Hv Herrs) as (Hnd & Hnew & Hdom). cbn [map]. split; [|split].
  - constructor; [|done]. intros Hin%Hnew. by rewrite lookup_insert_eq in Hin.
  - intros r [->|Hin]%elem_of_cons; [done|]. apply Hnew in Hin. by apply lookup_insert_None in Hin as [? _].
  - intros r. rewrite Hdom, elem_of_cons, lookup_insert_is_Some'. naive_solver.
Qed.

Lemma destinations_valid path i routes seen :
  (∀ route name, route ∈ routes → name ∈ ChatNames (Chats route) → known name) →
  validateDestinations sha256_hex c path i routes seen = [] →
  NoDup (flat_map routeDestinations routes) ∧ ∀ r, r ∈ flat_map routeDestinations routes → seen !! r = None.
Proof.
  revert i seen. induction routes as [|route routes IH]; intros i seen Hknown; cbn [validateDestinations flat_map].
  { intros _. split; [constructor|]. by intros r ?%elem_of_nil. }
  destruct (validateDestinationNames _ _ _ _ _) as [errs seen'] eqn:Hnames. intros [-> Hrest]%app_eq_nil.
  apply destination_names_valid in Hnames as (Hnd & Hnew & Hdom); [|intros name; apply Hknown; left|done].
  destruct (IH (S i) seen') as [Hnd' Hnew']; [intros r name Hr; apply Hknown; by right|done|]. split.
  - apply NoDup_app. split; [done|]. split; [|done]. intros r Hr Hin%Hnew'.
    assert (is_Some (seen' !! r)) as [x Hx] by (apply Hdom; by right). by rewrite Hx in Hin.
  - intros r [Hr|Hr]%elem_of_app; [by apply Hnew|]. apply Hnew' in Hr.
    destruct (seen !! r) eqn:Hs; [|done].
    assert (is_Some (seen' !! r)) as [x Hx] by (apply Hdom; left; eauto). by rewrite Hx in Hr.
Qed.

(** A destination of a list without duplicates belongs to one route. *)
Lemma one_route routes i j route1 route2 r :
  NoDup (flat_map routeDestinations routes) →
  routes !! i = Some route1 → routes !! j = Some route2 →
  r ∈ routeDestinations route1 → r ∈ routeDestinations route2 → i = j.
Proof.
  revert i j. induction routes as [|route routes IH]; intros i j Hnd Hi Hj H1 H2; [done|].
  cbn [flat_map] in Hnd. apply NoDup_app in Hnd as (_ & Hdisj & Hnd).
  assert (∀ k route', routes !! k = Some route' → r ∈ routeDestinations route' →
    r ∈ flat_map routeDestinations routes) as Hin.
  { intros k route' Hk Hr. apply list_elem_of_In, in_flat_map. exists route'.
    split; apply list_elem_of_In; [by eapply list_elem_of_lookup_2|done]. }
  destruct i as [|i], j as [|j]; simpl in *; simplify_eq; [done| | |].
  - by destruct (Hdisj r H1); eapply Hin.
  - by destruct (Hdisj r H2); eapply Hin.
  - f_equal. by eapply IH.
Qed.

(** ** The routes of a kind *)
Lemma destination_has recipient route :
  TelegramBotIdentity sha256_hex c = BotIdentity recipient →
  routeHas c recipient route = true ↔ recipient ∈ routeDestinations route.
Proof.
  intros Hbot. unfold routeHas. rewrite existsb_exists. unfold NotificationConfig.routeDestinations.
  rewrite list_elem_of_In, in_map_iff. unfold sameChat, NotificationConfig.destination.
  split; intros (name & Hx).
  - destruct Hx as (Hin & [Hc Ht]%andb_prop). apply bool_decide_eq_true_1 in Hc, Ht.
    exists name. split; [|done]. rewrite Hc, Ht, Hbot. by destruct recipient.
  - destruct Hx as (<- & Hin). exists name. split; [done|]. by rewrite !bool_decide_eq_true_2.
Qed.

Hypothesis Hvalid : validateNotifications sha256_hex openedTemplateError resolvedTemplateError eventTemplateError c = [].
Hypothesis Htoken : BotToken (Telegram c) ≠ "".

Lemma messenger_valid : validateTelegramMessenger c = [].
Proof. unfold validateNotifications in Hvalid. by apply app_eq_nil in Hvalid as [? _]. Qed.

Lemma default_known : known "default".
Proof.
  pose proof messenger_valid as Hm. unfold validateTelegramMessenger in Hm.
  apply app_eq_nil in Hm as [_ [_ Hd]%app_eq_nil]. apply when_nil in Hd.
  rewrite (bool_decide_eq_false_2 (_ = "")) in Hd by done. simpl in Hd.
  by apply bool_decide_eq_false_1, not_eq_None_Some in Hd.
Qed.

Lemma chat_valid name chat :
  telegramChats (Telegram c) !! name = Some chat → blank (chatID chat) = false ∧ (0 ≤ chatThreadID chat)%Z.
Proof.
  intros Hchat. pose proof messenger_valid as Hm. apply app_eq_nil in Hm as [Hm _].
  assert (validateChat name chat = []) as Hv.
  { eapply (flat_map_nil _ _ Hm (name, chat)). by apply elem_of_map_to_list. }
  unfold validateChat in Hv. apply app_eq_nil in Hv as [_ [Hi Ht]%app_eq_nil].
  apply when_nil in Hi, Ht. split; [done|]. by apply Z.ltb_ge in Ht.
Qed.

Lemma routes_valid key routes :
  AlertRoutes c !! key = Some routes →
  routes ≠ [] ∧ (∀ route, route ∈ routes → ChatNames (Chats route) ≠ []) ∧
  (∀ route name, route ∈ routes → name ∈ ChatNames (Chats route) → known name) ∧
  NoDup (flat_map routeDestinations routes).
Proof.
  intros Hroutes. pose proof Hvalid as Hv. unfold validateNotifications in Hv.
  apply app_eq_nil in Hv as [_ [Hv _]%app_eq_nil].
  assert (validateAlertRoute sha256_hex openedTemplateError resolvedTemplateError c key routes = []) as Hr.
  { eapply (flat_map_nil _ _ Hv (key, routes)). by apply elem_of_map_to_list. }
  unfold validateAlertRoute in Hr. destruct (negb _); [done|].
  apply app_eq_nil in Hr as [Hlen [Hch Hdest]%app_eq_nil].
  apply when_nil, bool_decide_eq_false_1 in Hlen.
  assert (∀ route, route ∈ routes → ChatNames (Chats route) ≠ [] ∧ ∀ name, name ∈ ChatNames (Chats route) → known name)
    as Hnames.
  { intros route [i Hi]%list_elem_of_lookup_1. eapply validateChatNames_known with (path := _).
    apply (concat_imap_nil _ _ _ _ Hch) in Hi. unfold validateAlertChannel in Hi.
    apply app_eq_nil in Hi as [_ [Hn _]%app_eq_nil]. exact Hn. }
  split; [by intros ->|]. split; [intros route Hin; by apply Hnames|].
  split; [intros route name Hin; by apply Hnames|].
  eapply destinations_valid; [|exact Hdest]. intros route name Hin. by apply Hnames.
Qed.

(** Every kind has routes with destinations, no two alike. *)
Lemma kind_routes kind :
  let routes := AlertTelegramRoutes c kind in
  flat_map routeDestinations routes ≠ [] ∧
  (∀ route name, route ∈ routes → name ∈ ChatNames (Chats route) → known name) ∧
  NoDup (flat_map routeDestinations routes).
Proof.
  intros routes. unfold AlertTelegramRoutes in routes.
  assert (∀ l, l ≠ [] → (∀ route, route ∈ l → ChatNames (Chats route) ≠ []) → flat_map routeDestinations l ≠ []) as Hne.
  { intros [|route l] Hl Hch; [done|]. cbn [flat_map]. intros [Hnil _]%app_eq_nil.
    apply map_eq_nil in Hnil. apply (Hch route); [left|done]. }
  destruct (AlertRoutes c !! notificationAlertConfigKey kind) as [own|] eqn:Hown.
  { apply routes_valid in Hown as (H1 & H2 & H3 & H4). subst routes. auto. }
  destruct (AlertRoutes c !! notificationAlertNameDefault) as [common|] eqn:Hcommon; simpl in routes.
  { apply routes_valid in Hcommon as (H1 & H2 & H3 & H4). subst routes. auto. }
  subst routes. simpl. split; [done|]. split.
  - intros route name ->%list_elem_of_singleton ->%list_elem_of_singleton. apply default_known.
  - apply NoDup_singleton.
Qed.
End Routes.

(** C32. A valid configuration reaches somebody, and unambiguously. When the section is valid
    and has a token, every alert kind, whether configured, left to the default or to the
    built-in route, has a destination; the destinations are distinct, each is a configured
    chat with an identifier, and the subscriber of a destination finds for the kind the one
    route that has it. *)
Theorem valid_routes_reach_recipients sha256_hex openedError resolvedError eventError c kind
    (Hhex : ∀ s, sha256_hex s ≠ "")
    (Hvalid : validateNotifications sha256_hex openedError resolvedError eventError c = [])
    (Htoken : BotToken (Telegram c) ≠ "") :
  let recipients := AlertRecipients sha256_hex c kind in
  let routes := AlertTelegramRoutes c kind in
  recipients ≠ [] ∧ NoDup recipients ∧
  ∀ r, r ∈ recipients →
    (∃ name chat, telegramChats (Telegram c) !! name = Some chat ∧
       ChatID r = chatID chat ∧ ThreadID r = chatThreadID chat ∧
       blank (ChatID r) = false ∧ (0 ≤ ThreadID r)%Z) ∧
    ∃ i, routes !! i = Some (rule c r kind) ∧
      ∀ j route, routes !! j = Some route → r ∈ routeDestinations sha256_hex c route ↔ j = i.
Proof.
  intros recipients routes.
  destruct (kind_routes sha256_hex _ _ _ c Hvalid Htoken kind) as (Hne & Hknown & Hnd). fold routes in Hne, Hknown, Hnd.
  assert (TelegramBotIdentity sha256_hex c ≠ "") as Hbot.
  { unfold TelegramBotIdentity. by rewrite bool_decide_eq_false_2. }
  destruct (collect_spec (flat_map (routeDestinations sha256_hex c) routes) ∅) as [Hdistinct Helem].
  assert (recipients = collect ∅ (flat_map (routeDestinations sha256_hex c) routes)) as Hrec.
  { unfold recipients, AlertRecipients. by rewrite bool_decide_eq_false_2. }
  rewrite <- Hrec in Hdistinct, Helem. split; [|split; [done|]].
  { intros Hnil. destruct (flat_map _ routes) as [|r l] eqn:Hl; [done|].
    assert (r ∈ recipients) as Hin by (apply Helem; split; [left|set_solver]). rewrite Hnil in Hin. set_solver. }
  intros r [Hin _]%Helem. apply list_elem_of_In, in_flat_map in Hin as (route & Hroute & Hr).
  apply list_elem_of_In in Hroute, Hr. pose proof Hr as Hdest.
  apply list_elem_of_In, in_map_iff in Hdest as (name & Hname & Hchats). apply list_elem_of_In in Hchats.
  assert (BotIdentity r = TelegramBotIdentity sha256_hex c) as Hid by (by rewrite <- Hname). split.
  - destruct (Hknown _ _ Hroute Hchats) as [chat Hchat]. exists name, chat. split; [done|].
    unfold destination, chatOf in Hname. rewrite Hchat in Hname. rewrite <- Hname. simpl.
    by pose proof (chat_valid _ _ _ _ _ Hvalid _ _ Hchat).
  - apply list_elem_of_lookup_1 in Hroute as [i Hi].
    assert (∀ j route', routes !! j = Some route' → r ∈ routeDestinations sha256_hex c route' ↔ j = i) as Hone.
    { intros j route' Hj. split; [intros Hr'; by eapply one_route|]. intros ->. by simplify_eq. }
    exists i. split; [|done]. unfold rule. fold routes.
    destruct (find (routeHas c r) routes) as [found|] eqn:Hfind.
    + apply find_some in Hfind as [Hf Hhas]. apply (destination_has sha256_hex) in Hhas; [|done].
      apply list_elem_of_In, list_elem_of_lookup_1 in Hf as [j Hj].
      by apply (Hone j found Hj) in Hhas as ->.
    + assert (routeHas c r route = true) as Hhas by (by apply (destination_has sha256_hex)).
      rewrite (find_none _ _ Hfind route) in Hhas; [done|]. apply list_elem_of_In. by eapply list_elem_of_lookup_2.
Qed.

(** ** An example: two routes for synchronization errors *)
Module RoutesExample.
Definition channel (chats : list string) (action : string) : TelegramAlertChannel :=
  {| Chats := Some chats; OpenedSpec := noMessage; ResolvedSpec := {| Action := action; MessageTemplate := "" |} |}.
Definition config : NotificationSpec :=
  {| Telegram := {| BotToken := "7:secret"; Retries := 0; SOCKS5Address := "";
                    telegramChats := <["default" := {| chatID := "ops"; chatThreadID := 0 |}]>
                      {[ "dev" := {| chatID := "dev"; chatThreadID := 4 |} ]} |};
     EventRoutes := ∅; AlertRoutes := {[ "SyncFailed" := [channel ["default"] "edit"; channel ["dev"] "reply"] ]} |}.
Definition dev : AlertRecipient := {| BotIdentity := "h7"; ChatID := "dev"; ThreadID := 4 |}.

Lemma valid_routes_reach_recipients_witness :
  dev ∈ AlertRecipients (String "h") config "sync_failed" ∧
  ∃ i, AlertTelegramRoutes config "sync_failed" !! i = Some (rule config dev "sync_failed") ∧
    rule config dev "sync_failed" = channel ["dev"] "reply".
Proof.
  assert (dev ∈ AlertRecipients (String "h") config "sync_failed") as Hdev.
  { vm_compute AlertRecipients. apply list_elem_of_further, list_elem_of_here. }
  split; [exact Hdev|].
  destruct (valid_routes_reach_recipients (String "h") (λ _, None) (λ _, None) (λ _, None) config "sync_failed")
    as (_ & _ & Hr).
  - discriminate.
  - vm_compute. reflexivity.
  - discriminate.
  - destruct (Hr dev Hdev) as (_ & i & Hi & _). exists i. split; [exact Hi|]. vm_compute. reflexivity.
Defined.
End RoutesExample.
