(* ===== verification/GoPaths.v ===== *)
(** * Unix paths of Go ([path/filepath])

    The lexical rules of [filepath.Clean] on byte strings, with [Join], [Dir] and [IsAbs]. *)
From S2P Require Import Prelude GoStrings GoEncoding.
Local Open Scope go_scope.

Definition IsAbs (path : string) : bool := has_prefix "/" path.

(** The components that stay, the last one first: [..] removes the component before it, and
    is kept only at the front of a path that is not rooted. *)
Fixpoint cleanParts (rooted : bool) (parts kept : list string) : list string :=
  match parts with
  | [] => kept
  | part :: parts =>
      if bool_decide (part = "") || bool_decide (part = ".") then cleanParts rooted parts kept
      else if bool_decide (part = "..") then
        match kept with
        | last :: kept' =>
            if bool_decide (last = "..") then cleanParts rooted parts (".." :: kept)
            else cleanParts rooted parts kept'
        | [] => cleanParts rooted parts (if rooted then [] else [".."])
        end
      else cleanParts rooted parts (part :: kept)
  end.

Fixpoint joinParts (parts : list string) : string :=
  match parts with
  | [] => ""
  | [part] => part
  | part :: parts => part +:+ "/" +:+ joinParts parts
  end.

Definition Clean (path : string) : string :=
  let rooted := IsAbs path in
  let cleaned := joinParts (rev (cleanParts rooted (splitByte "/" path) [])) in
  if rooted then "/" +:+ cleaned else if bool_decide (cleaned = "") then "." else cleaned.

(** [filepath.Join] of two elements. *)
Definition Join (a b : string) : string :=
  if bool_decide (a = "") then if bool_decide (b = "") then "" else Clean b
  else if bool_decide (b = "") then Clean a else Clean (a +:+ "/" +:+ b).

(** The path up to its last separator. *)
Definition dirPrefix (path : string) : string :=
  string_rev (match index_byte "/" (string_rev path) with
              | Some i => string_drop i (string_rev path)
              | None => ""
              end).
Definition Dir (path : string) : string := Clean (dirPrefix path).

Example clean_examples :
  map Clean ["a//b/./c"; "../x/../../y"; "/../a"; ""; "/"; "a/.."; "./stacks"] =
  ["a/b/c"; "../../y"; "/a"; "."; "/"; "."; "stacks"] ∧
  Join "/repo/stacks" "../data" = "/repo/data" ∧ map Dir ["/repo/app.yaml"; "app.yaml"; "/app.yaml"; "a/b"] =
  ["/repo"; "."; "/"; "a"].
Proof. vm_compute. done. Qed.

Lemma IsAbs_spec path : IsAbs path = true ↔ ∃ s, path = "/" +:+ s.
Proof. apply has_prefix_spec. Qed.

Lemma Clean_abs path : IsAbs path = true → IsAbs (Clean path) = true.
Proof. intros Habs. unfold Clean. rewrite Habs. apply IsAbs_spec. by eexists. Qed.

Lemma Join_abs a b : IsAbs a = true → IsAbs (Join a b) = true.
Proof.
  intros Ha. unfold Join. rewrite bool_decide_eq_false_2 by (intros ->; done).
  apply IsAbs_spec in Ha as [s ->]. case_bool_decide; apply Clean_abs; by apply IsAbs_spec; eexists.
Qed.

(** ** Components *)
Definition plain (part : string) : Prop := part ≠ "" ∧ part ≠ "." ∧ part ≠ ".." ∧ without "/"%char part.

Lemma splitByte_parts c s part : part ∈ splitByte c s → without c part.
Proof.
  revert part. induction s as [|d s IH]; simpl; intros part.
  { intros ->%list_elem_of_singleton. by intros ?%elem_of_nil. }
  destruct (Ascii.eqb_spec d c) as [->|Hne].
  { intros [->|Hin]%elem_of_cons; [by intros ?%elem_of_nil|by apply IH]. }
  destruct (splitByte c s) as [|p ps].
  - intros ->%list_elem_of_singleton. apply without_cons. split; [done|]. by intros ?%elem_of_nil.
  - intros [->|Hin]%elem_of_cons; [|apply IH; by right].
    apply without_cons. split; [done|]. apply IH. left.
Qed.

Lemma cleanParts_plain parts kept :
  Forall (without "/"%char) parts → Forall plain kept → Forall plain (cleanParts true parts kept).
Proof.
  intros Hparts. revert kept. induction Hparts as [|part parts Hp _ IH]; intros kept Hkept; [done|].
  cbn [cleanParts]. destruct (bool_decide (part = "") || bool_decide (part = ".")) eqn:Hskip; [by apply IH|].
  apply orb_false_iff in Hskip as [H1%bool_decide_eq_false_1 H2%bool_decide_eq_false_1].
  case_bool_decide as H3.
  - destruct Hkept as [|last kept Hl Hkept]; [by apply IH|].
    rewrite bool_decide_eq_false_2 by apply Hl. by apply IH.
  - apply IH. by constructor.
Qed.

Lemma cleanParts_id parts kept : Forall plain parts → cleanParts true parts kept = rev parts ++ kept.
Proof.
  intros Hparts. revert kept. induction Hparts as [|part parts (H1 & H2 & H3 & _) _ IH]; intros kept; [done|].
  cbn [cleanParts rev]. rewrite !bool_decide_eq_false_2 by done. simpl. by rewrite IH, <- app_assoc.
Qed.

Lemma splitByte_join parts :
  Forall plain parts → parts ≠ [] → splitByte "/" (joinParts parts) = parts.
Proof.
  intros Hparts. induction Hparts as [|part parts (_ & _ & _ & Hw) Hrest IH]; [done|]. intros _.
  destruct parts as [|part' parts]; [by apply splitByte_without|].
  change (joinParts (part :: part' :: parts)) with (part +:+ String "/" (joinParts (part' :: parts))).
  rewrite splitByte_app by done. f_equal. by apply IH.
Qed.

(** A rooted path is its plain components: none is empty, [.] or [..]. *)
Lemma Clean_rooted path :
  IsAbs path = true → ∃ parts, Clean path = "/" +:+ joinParts parts ∧ Forall plain parts.
Proof.
  intros Habs. unfold Clean. rewrite Habs. eexists. split; [done|].
  apply Forall_rev, cleanParts_plain; [|constructor]. apply Forall_forall. intros part. apply splitByte_parts.
Qed.

(** Cleaning twice is cleaning once. *)
Lemma Clean_idem path : IsAbs path = true → Clean (Clean path) = Clean path.
Proof.
  intros (parts & -> & Hparts)%Clean_rooted. unfold Clean. rewrite (proj2 (IsAbs_spec _)) by by eexists.
  f_equal. change ("/" +:+ joinParts parts) with (String "/" (joinParts parts)).
  cbn [splitByte]. rewrite Ascii.eqb_refl. cbn [cleanParts]. rewrite bool_decide_eq_true_2 by done. cbn [orb].
  destruct parts as [|part parts]; [done|]. rewrite splitByte_join by done.
  rewrite cleanParts_id by done. by rewrite app_nil_r, rev_involutive.
Qed.

(** ** The directory of a rooted path is rooted *)
Lemma string_rev_app_acc s acc : string_rev_app s acc = string_rev s +:+ acc.
Proof.
  unfold string_rev. revert acc. induction s as [|c s IH]; intros acc; [done|].
  cbn [string_rev_app]. rewrite IH, (IH (String c "")), string_app_assoc. by rewrite string_app_cons, string_app_nil.
Qed.

Lemma string_rev_cons c s : string_rev (String c s) = string_rev s +:+ String c "".
Proof. apply (string_rev_app_acc s (String c "")). Qed.

Lemma string_rev_snoc s c : string_rev (s +:+ String c "") = String c (string_rev s).
Proof.
  induction s as [|d s IH]; [done|].
  rewrite string_app_cons, !string_rev_cons, IH. done.
Qed.

Lemma string_drop_snoc c n s i :
  index_byte c (s +:+ String c n) = Some i → ∃ t, string_drop i (s +:+ String c n) = t +:+ String c n.
Proof.
  revert i. induction s as [|d s IH]; intros i; rewrite ?string_app_nil, ?string_app_cons; cbn [index_byte].
  - rewrite Ascii.eqb_refl. intros [= <-]. by exists "".
  - destruct (Ascii.eqb c d); [intros [= <-]; by exists (String d s)|].
    destruct (index_byte c (s +:+ String c n)) as [j|] eqn:Hj; [|done]. intros [= <-]. by apply IH.
Qed.

Lemma index_byte_snoc c n s : is_Some (index_byte c (s +:+ String c n)).
Proof.
  induction s as [|d s IH]; rewrite ?string_app_nil, ?string_app_cons; cbn [index_byte].
  - rewrite Ascii.eqb_refl. by eexists.
  - destruct (Ascii.eqb c d); [by eexists|]. destruct IH as [i ->]. by eexists.
Qed.

Lemma Dir_abs path : IsAbs path = true → IsAbs (Dir path) = true.
Proof.
  intros (s & ->)%IsAbs_spec. apply Clean_abs. unfold dirPrefix.
  change ("/" +:+ s) with (String "/" s). rewrite string_rev_cons.
  destruct (index_byte_snoc "/" "" (string_rev s)) as [i Hi]. rewrite Hi.
  destruct (string_drop_snoc _ _ _ _ Hi) as [t ->]. rewrite string_rev_snoc.
  apply IsAbs_spec. by eexists.
Qed.
