(* ===== verification/ComposeValues.v ===== *)
(** * Values of Compose files ([compose/environment.go], [compose/labels.go],
      [compose/envfile.go], [compose/network.go], [compose/service_network.go],
      [compose/service_volume.go], [compose/service_port.go], [shared/dotenv])

    The decoders of the package over syntax nodes, and the encoders next to them. The text of
    a YAML document is parsed into nodes by a library. *)
From S2P Require Import Prelude GoStrings GoEncoding GoRunes.
Local Open Scope go_scope.

(** [yaml.Node]: the tag and value of a scalar, and the children of the other kinds. *)
Inductive Node :=
| Scalar (tag value : string)
| SequenceNode (children : list Node)
| MappingNode (children : list Node)
| OtherNode.

Definition nullTag : string := "!!null".
Definition strTag : string := "!!str".
Definition nodeValue (n : Node) : string := match n with Scalar _ v => v | _ => "" end.
Definition isNull (n : Node) : bool := match n with Scalar t _ => bool_decide (t = nullTag) | _ => false end.

(** [strings.SplitN(raw, sep, 2)] with a separator of one byte. *)
Definition splitPair (c : Ascii.ascii) (raw : string) : string * option string :=
  match Cut c raw with Some (a, b) => (a, Some b) | None => (raw, None) end.

(** ** Environments *)
Record Environment := { Unset : list string; EnvMap : gmap string string; Keys : list string; isMap : bool }.
Definition noEnvironment : Environment := {| Unset := []; EnvMap := ∅; Keys := []; isMap := false |}.

Inductive composeError := ComposeFault (text : string).
Definition fault_ {A} (text : string) : Result composeError A := Err (ComposeFault text).

Definition parseVar (raw : string) : option (string * string) :=
  match splitPair "=" raw with (k, Some v) => Some (k, v) | (_, None) => None end.

Definition putVar (e : Environment) (k v : string) : Environment :=
  {| Unset := Unset e; EnvMap := <[k := v]> (EnvMap e); Keys := Keys e ++ [k]; isMap := isMap e |}.

(** The loop of [NewEnvironment]. *)
Fixpoint NewEnvironment (values : list string) (e : Environment) : Result composeError Environment :=
  match values with
  | [] => Ok e
  | raw :: values =>
      match parseVar raw with
      | None => fault_ "contains non-pair value"
      | Some (k, v) => NewEnvironment values (putVar e k v)
      end
  end.

Fixpoint unmarshalFromSequence (items : list Node) (e : Environment) : Result composeError Environment :=
  match items with
  | [] => Ok e
  | Scalar _ value :: items =>
      match parseVar value with
      | None => fault_ "contains non-pair value"
      | Some (k, v) => unmarshalFromSequence items (putVar e k v)
      end
  | _ :: _ => fault_ "contains non-scalar node type"
  end.

(** Keys and values alternate. *)
Fixpoint unmarshalFromMapping (content : list Node) (e : Environment) : Environment :=
  match content with
  | key :: child :: content =>
      unmarshalFromMapping content (putVar e (nodeValue key) (if isNull child then "" else nodeValue child))
  | _ => {| Unset := Unset e; EnvMap := EnvMap e; Keys := Keys e; isMap := true |}
  end.

(** [Environment.UnmarshalYAML] *)
Definition unmarshalEnvironment (n : Node) : Result composeError Environment :=
  match n with
  | MappingNode content => Ok (unmarshalFromMapping content noEnvironment)
  | SequenceNode content => unmarshalFromSequence content noEnvironment
  | _ => fault_ "environment must be a map or a sequence node"
  end.

(** [Environment.MarshalYAML] *)
Definition marshalEnvironment (e : Environment) : Node :=
  if isMap e then
    MappingNode (flat_map (λ kv, [Scalar strTag kv.1;
                                  if bool_decide (kv.1 ∈ Unset e) then Scalar nullTag "" else Scalar strTag kv.2])
                   (map_to_list (EnvMap e)))
  else
    SequenceNode (map (Scalar strTag)
      (sort_strings (map (λ kv, if bool_decide (kv.1 ∈ Unset e) then kv.1 else kv.1 +:+ "=" +:+ kv.2)
                       (map_to_list (EnvMap e))))).

Definition Has (e : Environment) (key : string) : bool := bool_decide (is_Some (EnvMap e !! key)).
Definition IsEmpty (e : Environment) : bool := bool_decide (EnvMap e = ∅).

(** ** Labels *)
Record Labels := { LabelMap : gmap string string; labelsAreMap : bool }.

(** [Labels.Add]: whether it changed something. *)
Definition AddLabel (l : Labels) (key value : string) : Labels * bool :=
  ({| LabelMap := <[key := value]> (LabelMap l); labelsAreMap := labelsAreMap l |},
   negb (bool_decide (LabelMap l !! key = Some value))).

(** The sequence form: a label without [=] has the value "". *)
Fixpoint labelsFromSequence (items : list Node) (m : gmap string string) : Result composeError Labels :=
  match items with
  | [] => Ok {| LabelMap := m; labelsAreMap := false |}
  | Scalar _ value :: items =>
      let '(k, v) := splitPair "=" value in labelsFromSequence items (<[k := default "" v]> m)
  | _ :: _ => fault_ "contains non-scalar node type"
  end.

(** [Labels.MarshalYAML] of the sequence form. *)
Definition labelTexts (l : Labels) : list string :=
  map (λ kv, if bool_decide (kv.2 = "") then kv.1 else kv.1 +:+ "=" +:+ kv.2) (map_to_list (LabelMap l)).

(** ** Environment files ([dotenv.Parse]) *)
(** [utf8.Valid] *)
Fixpoint validUTF8 (s : string) : bool :=
  match s with
  | EmptyString => true
  | String c s1 =>
      match decodeRune c s1 with
      | (_, 0) => (code c <? 128)%N && validUTF8 s1
      | (_, 1) => match s1 with String _ s2 => validUTF8 s2 | _ => false end
      | (_, 2) => match s1 with String _ (String _ s3) => validUTF8 s3 | _ => false end
      | (_, _) => match s1 with String _ (String _ (String _ s4)) => validUTF8 s4 | _ => false end
      end
  end.

(** The lines of [bufio.Scanner]: a final line that is empty is none. *)
Definition lineFeed : Ascii.ascii := Ascii.ascii_of_N 10.
Definition scanLines (content : string) : list string :=
  let lines := splitByte lineFeed content in
  if bool_decide (last lines = Some "") then removelast lines else lines.
(** A carriage return before the end of a line is dropped. *)
Definition carriageReturn : string := bytes [13%N].
(** [bufio.MaxScanTokenSize] *)
Definition MaxScanTokenSize : N := 65536.

Definition utf8BOM : string := bytes [239; 187; 191]%N.
Definition blankBytes : list Ascii.ascii := [" "%char; Ascii.ascii_of_N 9].
Definition containsBlank (s : string) : bool := existsb (λ c, bool_decide (c ∈ blankBytes)) (chars s).
Definition isComment (line : string) : bool := has_prefix "#" line.

(** One line: an assignment, nothing, or an error. *)
Definition parseLine (first : bool) (line : string) : Result composeError (option (string * string)) :=
  let line := trim_suffix carriageReturn line in
  if negb (validUTF8 line) then fault_ "invalid utf8 bytes"
  else
    let line := if first then trim_prefix utf8BOM line else line in
    let line := trim_left white_space line in
    if bool_decide (line = "") || isComment line then Ok None
    else
      let '(key, value) := splitPair "=" line in
      if bool_decide (key = "") then fault_ "no variable name"
      else if containsBlank key then fault_ "variable contains whitespace"
      else match value with
           | None => fault_ "variable must have an explicit value"
           | Some value => Ok (Some (key, value))
           end.

Fixpoint parseLines (first : bool) (lines : list string) (values : gmap string string)
    : Result composeError (gmap string string) :=
  match lines with
  | [] => Ok values
  | line :: lines =>
      if (MaxScanTokenSize <=? N.of_nat (String.length line))%N then fault_ "token too long"
      else match parseLine first line with
           | Err e => Err e
           | Ok None => parseLines false lines values
           | Ok (Some (k, v)) => parseLines false lines (<[k := v]> values)
           end
  end.

Definition ParseDotenv (content : string) : Result composeError (gmap string string) :=
  parseLines true (scanLines content) ∅.

(** [compose.EnvFile], with its variables once loaded. *)
Record EnvFile := { envPath : string; Variables : gmap string string }.

(** [EnvFiles.UnmarshalYAML] *)
Fixpoint envPaths (items : list Node) : Result composeError (list EnvFile) :=
  match items with
  | [] => Ok []
  | Scalar _ path :: items =>
      match envPaths items with
      | Err e => Err e
      | Ok files => Ok ({| envPath := path; Variables := ∅ |} :: files)
      end
  | _ :: _ => fault_ "cannot unmarshal"
  end.
Definition unmarshalEnvFiles (n : Node) : Result composeError (list EnvFile) :=
  match n with
  | Scalar tag path => if bool_decide (tag = nullTag) then Ok [] else Ok [{| envPath := path; Variables := ∅ |}]
  | SequenceNode items => envPaths items
  | _ => fault_ "env_file must be a path or a list of paths"
  end.

(** [populateService]: files in their order, then the explicit values. *)
Definition effectiveVariables (files : list EnvFile) (explicit : gmap string string) : gmap string string :=
  explicit ∪ foldl (λ m f, Variables f ∪ m) ∅ files.

(** ** Volumes *)
Definition ServiceVolumeTypeBind : string := "bind".
Definition ServiceVolumeTypeVolume : string := "volume".

Record ServiceVolumeBind := { CreateHostPath : option bool; Propagation : string }.
Record ServiceVolumeVolume := { Nocopy : bool; Subpath : string }.
Record ServiceVolumeTmpfs := { tmpfsMode : N; tmpfsSize : string }.
Record ServiceVolume := {
  volumeType : string; Source : string; Target : string; Consistency : string; ReadOnly : bool;
  Bind : option ServiceVolumeBind; VolumeOptions : option ServiceVolumeVolume;
  Tmpfs : option ServiceVolumeTmpfs; UnsupportedModes : list string; isString : bool;
}.

Definition EffectiveType (v : ServiceVolume) : string :=
  if bool_decide (volumeType v = "") then ServiceVolumeTypeVolume else volumeType v.

Section Volumes.
(** [mount.Propagations] of the Docker library. *)
Context (Propagations : list string).

(** One option of the short form, in lower case; options are ASCII. *)
Definition applyMode (v : ServiceVolume) (raw : string) : ServiceVolume :=
  let mode := to_lower_ascii raw in
  let set (consistency : string) (readOnly : bool) bind volume unsupported :=
    {| volumeType := volumeType v; Source := Source v; Target := Target v; Consistency := consistency;
       ReadOnly := readOnly; Bind := bind; VolumeOptions := volume; Tmpfs := Tmpfs v;
       UnsupportedModes := unsupported; isString := isString v |} in
  if bool_decide (mode = "ro") then set (Consistency v) true (Bind v) (VolumeOptions v) (UnsupportedModes v)
  else if bool_decide (mode = "rw") then set (Consistency v) false (Bind v) (VolumeOptions v) (UnsupportedModes v)
  else if bool_decide (mode ∈ ["consistent"; "cached"; "delegated"])
  then set mode (ReadOnly v) (Bind v) (VolumeOptions v) (UnsupportedModes v)
  else if bool_decide (mode = "nocopy")
  then set (Consistency v) (ReadOnly v) (Bind v) (Some {| Nocopy := true; Subpath := "" |}) (UnsupportedModes v)
  else if bool_decide (mode ∈ Propagations)
  then set (Consistency v) (ReadOnly v) (Some {| CreateHostPath := None; Propagation := mode |}) (VolumeOptions v)
         (UnsupportedModes v)
  else set (Consistency v) (ReadOnly v) (Bind v) (VolumeOptions v) (UnsupportedModes v ++ [mode]).

Definition shortVolume (volumeType source target : string) : ServiceVolume :=
  {| volumeType := volumeType; Source := source; Target := target; Consistency := ""; ReadOnly := false;
     Bind := None; VolumeOptions := None; Tmpfs := None; UnsupportedModes := []; isString := true |}.

Definition shortType (source : string) : string :=
  if has_prefix "." source || contains "/" source then ServiceVolumeTypeBind else ServiceVolumeTypeVolume.

(** [UnmarshalString] *)
Definition unmarshalVolume (raw : string) : Result composeError ServiceVolume :=
  match splitByte ":" raw with
  | [target] => Ok (shortVolume "" "" target)
  | [source; target] => Ok (shortVolume (shortType source) source target)
  | [source; target; modes] =>
      Ok (foldl applyMode (shortVolume (shortType source) source target) (splitByte "," modes))
  | _ => fault_ "invalid service volume format"
  end.

(** [MarshalString] *)
Definition marshalVolume (v : ServiceVolume) : string :=
  if bool_decide (Source v = "") then Target v
  else
    let propagation := match Bind v with Some b => Propagation b | None => "" end in
    let propagated := negb (bool_decide (propagation = "")) in
    Source v +:+ ":" +:+ Target v +:+
    if ReadOnly v || propagated
    then ":" +:+ (if ReadOnly v then "ro" else "") +:+
         (if propagated then (if ReadOnly v then "," else "") +:+ propagation else "")
    else "".
End Volumes.

(** ** Ports *)
Record ServicePort := {
  Published : Z; portTarget : Z; Protocol : string; AppProtocol : string; PortMode : string; HostIP : string;
}.
Definition defaultServicePort (published target : Z) : ServicePort :=
  {| Published := published; portTarget := target; Protocol := "tcp"; AppProtocol := ""; PortMode := "ingress";
     HostIP := "" |}.

Definition withPort (p : ServicePort) (published target : Z) (protocol : string) : ServicePort :=
  {| Published := published; portTarget := target; Protocol := protocol; AppProtocol := AppProtocol p;
     PortMode := PortMode p; HostIP := HostIP p |}.

(** The arithmetic of [int], of 64 bits. *)
Definition wrapInt (z : Z) : Z := ((z - min_int64) mod 2 ^ 64 + min_int64)%Z.

(** The loop of [parseStringView], on the rest of the text: a byte that is not ASCII is
    refused like any other that is no digit. *)
Fixpoint parsePortText (s : string) (p : ServicePort) (value : Z) : Result composeError ServicePort :=
  match s with
  | EmptyString =>
      Ok (if bool_decide (Protocol p = "") then withPort p (Published p) (portTarget p) "tcp" else p)
  | String c s =>
      if Ascii.eqb c ":" then parsePortText s (withPort p value (portTarget p) (Protocol p)) 0
      else if Ascii.eqb c "/" then Ok (withPort p (Published p) value s)
      else match digitValue c with
           | None => fault_ "invalid target character"
           | Some d =>
               let value := wrapInt (value * 10 + Z.of_N d)%Z in
               parsePortText s (if bool_decide (s = "") then withPort p (Published p) value (Protocol p) else p) value
           end
  end.

Definition parseStringView (s : string) : Result composeError ServicePort :=
  parsePortText s (defaultServicePort 0 0) 0.

(** The mapping form: published to target. *)
Fixpoint portsFromMapping (content : list Node) : Result composeError (list ServicePort) :=
  match content with
  | [] => Ok []
  | [key] => match ParseInt (nodeValue key) with None => fault_ "parse published port" | Some _ => Ok [] end
  | key :: child :: content =>
      match ParseInt (nodeValue key), ParseInt (nodeValue child) with
      | Some published, Some target =>
          match portsFromMapping content with
          | Err e => Err e
          | Ok ports => Ok (defaultServicePort published target :: ports)
          end
      | None, _ => fault_ "parse published port"
      | _, None => fault_ "parse target port"
      end
  end.

(** [ServicePorts.MarshalYAML] of the mapping form. *)
Definition marshalPorts (ports : list ServicePort) : Node :=
  MappingNode (flat_map (λ p, [Scalar strTag (FormatInt (Published p)); Scalar strTag (FormatInt (portTarget p))]) ports).

(** ** Networks *)
Record ServiceNetwork := { networkAlias : string; ResolvedName : string }.
Record ServiceNetworks := { Names : list string; NetworkList : list ServiceNetwork }.

Fixpoint resolveEachNetwork (networks : list ServiceNetwork) (namesByAlias : gmap string string)
    (seen : gset string) (names : list string) : list ServiceNetwork * list string :=
  match networks with
  | [] => ([], names)
  | n :: networks =>
      let resolved := default "" (namesByAlias !! networkAlias n) in
      if bool_decide (resolved = "") then
        let '(l, names) := resolveEachNetwork networks namesByAlias seen names in (n :: l, names)
      else
        let names' := if bool_decide (resolved ∈ seen) then names else names ++ [resolved] in
        let '(l, names') := resolveEachNetwork networks namesByAlias ({[resolved]} ∪ seen) names' in
        ({| networkAlias := networkAlias n; ResolvedName := resolved |} :: l, names')
  end.

(** [resolveNetworkAliases]: of a network, its name is read. *)
Definition resolveNetworkAliases (networks : option ServiceNetworks) (namesByAlias : gmap string string)
    : option ServiceNetworks :=
  match networks with
  | None => None
  | Some ns =>
      if bool_decide (NetworkList ns = []) || bool_decide (namesByAlias = ∅) then Some ns
      else let '(l, names) := resolveEachNetwork (NetworkList ns) namesByAlias ∅ (Names ns) in
           Some {| Names := names; NetworkList := l |}
  end.
