(* ===== verification/ComposeRoundtrips.v ===== *)
(** * Round trips of Compose values

    What a definition was decoded from can be decoded again from its encoded form. *)
From S2P Require Import Prelude GoStrings GoEncoding GoPaths ComposeValues.
Local Open Scope go_scope.

Lemma splitByte_parts' c s : Forall (without c) (splitByte c s).
Proof. apply Forall_forall. intros part. apply splitByte_parts. Qed.

(** ** Environments *)
Lemma unmarshalFromMapping_pairs (l : list (string * string)) e :
  NoDup l.*1 →
  let e' := unmarshalFromMapping (flat_map (λ kv, [Scalar strTag kv.1; Scalar strTag kv.2]) l) e in
  EnvMap e' = list_to_map l ∪ EnvMap e ∧ isMap e' = true ∧ Unset e' = Unset e.
Proof.
  revert e. induction l as [|[k v] l IH]; intros e Hnd; simpl.
  { split; [by rewrite (left_id_L ∅ (∪))|done]. }
  apply NoDup_cons in Hnd as [Hk Hnd]. destruct (IH (putVar e k v) Hnd) as (Hm & Hi & Hu).
  split; [|done]. rewrite Hm. simpl. rewrite <- insert_union_l, insert_union_r; [done|]. by apply not_elem_of_list_to_map_1.
Qed.

Lemma unmarshalFromSequence_pairs (l : list (string * string)) e :
  NoDup l.*1 → Forall (λ kv, without "="%char kv.1) l →
  ∃ e', unmarshalFromSequence (map (Scalar strTag) (map (λ kv, kv.1 +:+ "=" +:+ kv.2) l)) e = Ok e' ∧
    EnvMap e' = list_to_map l ∪ EnvMap e ∧ isMap e' = isMap e ∧ Unset e' = Unset e.
Proof.
  revert e. induction l as [|[k v] l IH]; intros e Hnd Hw; simpl.
  { exists e. split; [done|]. split; [by rewrite (left_id_L ∅ (∪))|done]. }
  apply NoDup_cons in Hnd as [Hk Hnd]. apply Forall_cons in Hw as [Hk' Hw]. simpl in Hk'.
  unfold parseVar, splitPair. change (k +:+ "=" +:+ v) with (k +:+ String "=" v). rewrite Cut_app by done.
  destruct (IH (putVar e k v) Hnd Hw) as (e' & He & Hm & Hi & Hu). exists e'. split; [done|].
  split; [|done]. rewrite Hm. simpl. rewrite <- insert_union_l, insert_union_r; [done|]. by apply not_elem_of_list_to_map_1.
Qed.

(** What a decoder returns. *)
Definition decoded (e : Environment) : Prop :=
  Unset e = [] ∧ (isMap e = false → map_Forall (λ k _, without "="%char k) (EnvMap e)).

Lemma unmarshal_decoded n e : unmarshalEnvironment n = Ok e → decoded e.
Proof.
  destruct n as [t v|items|content|]; simpl; [done| | |done].
  - assert (∀ e0, decoded e0 → unmarshalFromSequence items e0 = Ok e → decoded e) as Hgen.
    { induction items as [|[t v| | |] items IH]; intros e0 H0; simpl; [by intros [= <-]| |done..].
      unfold parseVar, splitPair. destruct (Cut "=" v) as [[k x]|] eqn:Hcut; [|done]. apply IH.
      apply Cut_spec in Hcut as [_ Hw]. destruct H0 as [Hu Hk]. split; [done|]. intros Hi. simpl.
      apply map_Forall_insert_2; [done|by apply Hk]. }
    apply Hgen. split; [done|]. intros _. apply map_Forall_empty.
  - intros [= <-].
    assert (∀ c e0, Unset (unmarshalFromMapping c e0) = Unset e0 ∧ isMap (unmarshalFromMapping c e0) = true) as Hgen.
    { fix IH 1. intros [|k [|v c]] e0; [split; reflexivity..|]. cbn [unmarshalFromMapping]. refine (IH c _). }
    split; [by rewrite (proj1 (Hgen _ _))|]. by rewrite (proj2 (Hgen _ _)).
Qed.

Lemma environment_roundtrip n e :
  unmarshalEnvironment n = Ok e →
  ∃ e', unmarshalEnvironment (marshalEnvironment e) = Ok e' ∧ EnvMap e' = EnvMap e ∧ isMap e' = isMap e.
Proof.
  intros [Hunset Hkeys]%unmarshal_decoded. unfold marshalEnvironment. rewrite Hunset.
  destruct (isMap e) eqn:Hmap; simpl.
  - eexists. split; [done|].
    destruct (unmarshalFromMapping_pairs (map_to_list (EnvMap e)) noEnvironment) as (Hm & Hi & _);
      [apply NoDup_fst_map_to_list|].
    split; [|done]. rewrite Hm. simpl. by rewrite (right_id_L ∅ (∪)), list_to_map_to_list.
  - destruct (Permutation_map_inv _ _ (sort_strings_perm
      (map (λ kv : string * string, kv.1 +:+ "=" +:+ kv.2) (map_to_list (EnvMap e))))) as (l & Hl & Hperm).
    rewrite Hl. destruct (unmarshalFromSequence_pairs l noEnvironment) as (e' & He & Hm & Hi & _).
    + rewrite <- Hperm. apply NoDup_fst_map_to_list.
    + rewrite <- Hperm. apply Forall_forall. intros [k v] Hin%elem_of_map_to_list. by apply (Hkeys eq_refl k v).
    + exists e'. split; [done|]. split; [|done]. rewrite Hm. simpl. rewrite (right_id_L ∅ (∪)).
      rewrite <- (list_to_map_proper (map_to_list (EnvMap e)) l); [|apply NoDup_fst_map_to_list|done].
      apply list_to_map_to_list.
Qed.

(** ** Volumes *)
Section Volumes.
Context (Propagations : list string).
(** The propagations of Docker are words in lower case that no other option has. *)
Definition propagationWord (s : string) : Prop :=
  s ≠ "" ∧ to_lower_ascii s = s ∧ without ":"%char s ∧ without ","%char s ∧
  s ∉ ["ro"; "rw"; "consistent"; "cached"; "delegated"; "nocopy"].
Hypothesis Hwords : Forall propagationWord Propagations.

(** The short forms that the text shows in full. *)
Definition shown (v : ServiceVolume) : Prop :=
  Source v ≠ "" ∧ Consistency v = "" ∧ VolumeOptions v = None ∧ UnsupportedModes v = [].

(** What the decoder can leave in a volume. *)
Definition shortForm (v : ServiceVolume) : Prop :=
  isString v = true ∧ Tmpfs v = None ∧ without ":"%char (Source v) ∧ without ":"%char (Target v) ∧
  (Source v ≠ "" → volumeType v = shortType (Source v)) ∧
  match Bind v with
  | None => True
  | Some b => CreateHostPath b = None ∧ Propagation b ∈ Propagations
  end.

Lemma applyMode_form v mode : shortForm v → shortForm (applyMode Propagations v mode).
Proof.
  intros (H1 & H2 & H3 & H4 & H5 & H6). unfold applyMode.
  repeat case_bool_decide; unfold shortForm; simpl; split_and!; auto.
Qed.

Lemma unmarshalVolume_form raw v : unmarshalVolume Propagations raw = Ok v → shortForm v.
Proof.
  unfold unmarshalVolume. pose proof (splitByte_parts' ":"%char raw) as Hparts.
  destruct (splitByte ":" raw) as [|a [|b [|c [|d l]]]]; try done; intros [= <-].
  - apply Forall_cons in Hparts as [Ha _]. unfold shortForm. simpl. split_and!; try done. by intros ?%elem_of_nil.
  - apply Forall_cons in Hparts as [Ha [Hb _]%Forall_cons]. by repeat split.
  - apply Forall_cons in Hparts as [Ha [Hb _]%Forall_cons].
    assert (shortForm (shortVolume (shortType a) a b)) as Hv by (by repeat split).
    revert Hv. generalize (shortVolume (shortType a) a b). induction (splitByte "," c) as [|m ms IH]; intros v Hv; [done|].
    apply IH. by apply applyMode_form.
Qed.

Lemma splitByte_colons a b rest :
  without ":"%char a → without ":"%char b → without ":"%char rest →
  splitByte ":" (a +:+ ":" +:+ b +:+ ":" +:+ rest) = [a; b; rest].
Proof.
  intros Ha Hb Hr. assert (∀ s, ":" +:+ s = String ":" s) as Hcolon by done.
  by rewrite !Hcolon, !splitByte_app, splitByte_without by done.
Qed.

Lemma volume_roundtrip v : shortForm v → shown v → unmarshalVolume Propagations (marshalVolume v) = Ok v.
Proof.
  intros (Hstr & Htmpfs & Hs & Ht & Htype & Hbind) (Hsource & Hcons & Hopt & Hmodes).
  destruct v as [ty source target cons ro bind opts tmpfs modes str]. simpl in *. subst cons opts modes str tmpfs.
  specialize (Htype Hsource). subst ty. unfold marshalVolume. simpl. rewrite bool_decide_eq_false_2 by done.
  destruct bind as [[create propagation]|]; simpl in *.
  - destruct Hbind as [-> Hp]. pose proof (proj1 (Forall_forall _ _) Hwords _ Hp) as (Hne & Hlow & Hcolon & Hcomma & Hother).
    rewrite !bool_decide_eq_false_2 by done. simpl. rewrite orb_true_r.
    assert (∀ v, applyMode Propagations v propagation =
      {| volumeType := volumeType v; Source := Source v; Target := Target v; Consistency := Consistency v;
         ReadOnly := ReadOnly v; Bind := Some {| CreateHostPath := None; Propagation := propagation |};
         VolumeOptions := VolumeOptions v; Tmpfs := Tmpfs v; UnsupportedModes := UnsupportedModes v;
         isString := isString v |}) as Happly.
    { intros v. unfold applyMode. rewrite Hlow.
      rewrite !elem_of_cons in Hother. rewrite (bool_decide_eq_false_2 (propagation = "ro")) by tauto.
      rewrite (bool_decide_eq_false_2 (propagation = "rw")) by tauto.
      rewrite (bool_decide_eq_false_2 (propagation ∈ ["consistent"; "cached"; "delegated"]))
        by (rewrite !elem_of_cons; tauto).
      rewrite (bool_decide_eq_false_2 (propagation = "nocopy")) by tauto.
      by rewrite (bool_decide_eq_true_2 (propagation ∈ Propagations)). }
    unfold unmarshalVolume. destruct ro; simpl.
    + rewrite splitByte_colons; [|done|done|].
      2:{ change ("ro" +:+ "," +:+ propagation) with (String "r" (String "o" (String "," propagation))).
          by rewrite !without_cons. }
      change ("ro" +:+ "," +:+ propagation) with ("ro" +:+ String "," propagation).
      rewrite splitByte_app by (by apply (bool_decide_eq_true_1 (without _ _))).
      rewrite splitByte_without by done. simpl. by rewrite Happly.
    + rewrite !string_app_nil, splitByte_colons by done. rewrite splitByte_without by done. simpl. by rewrite Happly.
  - unfold unmarshalVolume. destruct ro; simpl.
    + rewrite string_app_nil_r, splitByte_colons; [done..|]. by apply (bool_decide_eq_true_1 (without _ _)).
    + rewrite string_app_nil_r. change (":" +:+ target) with (String ":" target).
      rewrite splitByte_app, splitByte_without by done. done.
Qed.
End Volumes.

(** ** Ports *)
Lemma wrapInt_id z : is_int64 z = true → wrapInt z = z.
Proof.
  intros [H1%Z.leb_le H2%Z.leb_le]%andb_prop. unfold wrapInt, min_int64, max_int64 in *.
  rewrite Z.mod_small; lia.
Qed.

Lemma parsePort_digit n acc p (value : Z) :
  (n < 10)%N → is_int64 (value * 10 + Z.of_N n) = true →
  parsePortText (String (digit n) acc) p value =
  parsePortText acc (if bool_decide (acc = "") then withPort p (Published p) (value * 10 + Z.of_N n) (Protocol p) else p)
    (value * 10 + Z.of_N n).
Proof.
  intros Hn Hz. cbn [parsePortText].
  rewrite (proj2 (Ascii.eqb_neq (digit n) ":")) by (apply digit_ne; [done|vm_compute; by right]).
  rewrite (proj2 (Ascii.eqb_neq (digit n) "/")) by (apply digit_ne; [done|vm_compute; by left]).
  rewrite digitValue_digit by done. by rewrite wrapInt_id.
Qed.

Lemma is_int64_le n m : (n ≤ m)%N → is_int64 (Z.of_N m) = true → is_int64 (Z.of_N n) = true.
Proof.
  intros Hle [H1%Z.leb_le H2%Z.leb_le]%andb_prop. apply andb_true_iff. unfold min_int64, max_int64 in *.
  split; apply Z.leb_le; lia.
Qed.

(** The digits of a number, read up to a separator. *)
Lemma parsePort_number fuel n acc p :
  (n < 10 ^ N.of_nat fuel)%N → fuel ≠ 0 → is_int64 (Z.of_N n) = true → acc ≠ "" →
  parsePortText (formatDigits fuel n acc) p 0 = parsePortText acc p (Z.of_N n).
Proof.
  revert n acc. induction fuel as [|fuel IH]; intros n acc Hn Hfuel Hz Hacc; [done|]. cbn [formatDigits].
  destruct (N.ltb_spec n 10).
  - rewrite parsePort_digit by done. by rewrite bool_decide_eq_false_2.
  - assert (n / 10 ≤ n)%N by (apply N.Div0.div_le_upper_bound; lia).
    assert (n = n / 10 * 10 + n mod 10)%N as Hdiv by (pose proof (N.div_mod n 10); lia).
    assert (n mod 10 < 10)%N as Hmod by (by apply N.mod_lt).
    rewrite IH; [|rewrite Nat2N.inj_succ, N.pow_succ_r' in Hn; by apply N.Div0.div_lt_upper_bound|
      intros ->; simpl in Hn; lia|by eapply is_int64_le|done].
    rewrite parsePort_digit; [|done|].
    + rewrite bool_decide_eq_false_2 by done. f_equal. lia.
    + replace (Z.of_N (n / 10) * 10 + Z.of_N (n mod 10))%Z with (Z.of_N n) by lia. done.
Qed.

Lemma formatDigits_last fuel n :
  (n < 10 ^ N.of_nat fuel)%N → fuel ≠ 0 → is_int64 (Z.of_N n) = true →
  ∀ p, Protocol p ≠ "" → parsePortText (formatDigits fuel n "") p 0 = Ok (withPort p (Published p) (Z.of_N n) (Protocol p)).
Proof.
  intros Hn Hfuel Hz p Hp. destruct fuel as [|fuel]; [done|]. cbn [formatDigits].
  assert (∀ q, Protocol q ≠ "" → parsePortText "" q (Z.of_N n) = Ok q) as Hend.
  { intros q Hq. cbn [parsePortText]. by rewrite bool_decide_eq_false_2. }
  destruct (N.ltb_spec n 10).
  - rewrite parsePort_digit by done. rewrite bool_decide_eq_true_2 by done. by apply Hend.
  - assert (n / 10 ≤ n)%N by (apply N.Div0.div_le_upper_bound; lia).
    assert (n = n / 10 * 10 + n mod 10)%N as Hdiv by (pose proof (N.div_mod n 10); lia).
    assert (n mod 10 < 10)%N as Hmod by (by apply N.mod_lt).
    rewrite parsePort_number; [|rewrite Nat2N.inj_succ, N.pow_succ_r' in Hn; by apply N.Div0.div_lt_upper_bound|
      intros ->; simpl in Hn; lia|by eapply is_int64_le|done].
    assert (Z.of_N (n / 10) * 10 + Z.of_N (n mod 10) = Z.of_N n)%Z as Heq by lia.
    rewrite parsePort_digit by (done || by rewrite Heq). rewrite bool_decide_eq_true_2, Heq by done. by apply Hend.
Qed.

Definition unsigned (z : Z) : Prop := (0 ≤ z)%Z ∧ is_int64 z = true.

Lemma unsigned_number z :
  unsigned z → FormatInt z = formatDigits 20 (Z.to_N z) "" ∧ (Z.to_N z < 10 ^ N.of_nat 20)%N ∧
    Z.of_N (Z.to_N z) = z.
Proof.
  intros [Hz [_ Hmax%Z.leb_le]%andb_prop]. unfold FormatInt. rewrite (proj2 (Z.ltb_ge z 0)) by done.
  split; [done|]. split; [unfold max_int64 in Hmax; change (10 ^ N.of_nat 20)%N with 100000000000000000000%N; lia|].
  by apply Z2N.id.
Qed.

Lemma formatDigits_app fuel n acc s : formatDigits fuel n acc +:+ s = formatDigits fuel n (acc +:+ s).
Proof.
  revert n acc. induction fuel as [|fuel IH]; intros n acc; [done|]. cbn [formatDigits].
  destruct (n <? 10)%N; [done|]. by rewrite IH.
Qed.

Lemma port_number z rest p :
  unsigned z → rest ≠ "" → parsePortText (FormatInt z +:+ rest) p 0 = parsePortText rest p z.
Proof.
  intros Hz Hrest. destruct (unsigned_number z Hz) as (-> & Hlt & Heq). rewrite formatDigits_app, string_app_nil.
  rewrite parsePort_number; [by rewrite Heq|done|done|rewrite Heq; apply Hz|done].
Qed.

Lemma port_last z p :
  unsigned z → Protocol p ≠ "" →
  parsePortText (FormatInt z) p 0 = Ok (withPort p (Published p) z (Protocol p)).
Proof.
  intros Hz Hp. destruct (unsigned_number z Hz) as (-> & Hlt & Heq).
  rewrite (formatDigits_last 20) by (done || rewrite Heq; apply Hz). by rewrite Heq.
Qed.

(** The texts of a port, with and without its parts. *)
Lemma port_texts published target protocol :
  unsigned published → unsigned target →
  parseStringView (FormatInt target) = Ok (defaultServicePort 0 target) ∧
  parseStringView (FormatInt published +:+ ":" +:+ FormatInt target) = Ok (defaultServicePort published target) ∧
  parseStringView (FormatInt published +:+ ":" +:+ FormatInt target +:+ "/" +:+ protocol) =
    Ok (withPort (defaultServicePort 0 0) published target protocol).
Proof.
  intros Hp Ht. unfold parseStringView. change (":" +:+ ?s) with (String ":" s).
  change ("/" +:+ protocol) with (String "/" protocol). split; [by rewrite port_last|]. split.
  - rewrite port_number by done. cbn [parsePortText]. rewrite Ascii.eqb_refl. by rewrite port_last.
  - rewrite port_number by done. cbn [parsePortText]. rewrite Ascii.eqb_refl.
    rewrite port_number by done. cbn [parsePortText]. by rewrite Ascii.eqb_refl.
Qed.

Lemma ports_mapping_roundtrip ports :
  Forall (λ p, is_int64 (Published p) = true ∧ is_int64 (portTarget p) = true) ports →
  ∃ content, marshalPorts ports = MappingNode content ∧
    portsFromMapping content = Ok (map (λ p, defaultServicePort (Published p) (portTarget p)) ports).
Proof.
  intros Hports. eexists. split; [done|]. induction Hports as [|p ports [H1 H2] _ IH]; [done|].
  cbn [flat_map app]. cbn [portsFromMapping nodeValue]. rewrite !ParseInt_FormatInt by done. by rewrite IH.
Qed.

(** ** Environment files *)
Definition assignment (kv : string * string) : string := kv.1 +:+ "=" +:+ kv.2.
Definition renderDotenv (l : list (string * string)) : string :=
  foldr (λ kv s, assignment kv +:+ String lineFeed s) "" l.

(** A variable that a line can hold: a name without separators, and a text of one line. *)
Definition writable (kv : string * string) : Prop :=
  let line := assignment kv in
  kv.1 ≠ "" ∧ without "="%char kv.1 ∧ containsBlank kv.1 = false ∧ has_prefix "#" kv.1 = false ∧
  without lineFeed line ∧ has_suffix carriageReturn line = false ∧ validUTF8 line = true ∧
  has_prefix utf8BOM line = false ∧ trim_left white_space line = line ∧
  (N.of_nat (String.length line) < MaxScanTokenSize)%N.

Lemma assignment_line first kv : writable kv → parseLine first (assignment kv) = Ok (Some kv).
Proof.
  destruct kv as [k v]. intros (Hk & Hsep & Hblank & Hcomment & _ & Hcr & Hutf & Hbom & Htrim & _). simpl in *.
  unfold parseLine. unfold trim_suffix. rewrite Hcr, Hutf. simpl negb. cbv iota.
  assert ((if first then trim_prefix utf8BOM (assignment (k, v)) else assignment (k, v)) = assignment (k, v)) as ->.
  { destruct first; [|done]. unfold trim_prefix. by rewrite Hbom. }
  rewrite Htrim. assert (assignment (k, v) ≠ "") as Hne by (destruct k; done).
  assert (isComment (assignment (k, v)) = false) as Hc.
  { destruct k as [|c k]; [done|]. change (assignment (String c k, v)) with (String c (k +:+ "=" +:+ v)).
    unfold isComment, has_prefix in *. cbn [String.prefix] in *. destruct (Ascii.ascii_dec "#" c); [|done].
    by destruct k. }
  rewrite bool_decide_eq_false_2, Hc by done. simpl orb. cbv iota. unfold splitPair, assignment.
  change ((k, v).1 +:+ "=" +:+ (k, v).2) with (k +:+ String "=" v). rewrite Cut_app by done.
  by rewrite bool_decide_eq_false_2, Hblank by done.
Qed.

Lemma dotenv_roundtrip l :
  Forall writable l → ParseDotenv (renderDotenv l) = Ok (foldl (λ m kv, <[kv.1 := kv.2]> m) ∅ l).
Proof.
  intros Hl. unfold ParseDotenv.
  assert (splitByte lineFeed (renderDotenv l) = map assignment l ++ [""]) as Hsplit.
  { induction Hl as [|kv l (_ & _ & _ & _ & Hlf & _) _ IH]; [done|]. simpl. rewrite splitByte_app by done.
    by rewrite IH. }
  unfold scanLines. rewrite Hsplit, last_snoc, bool_decide_eq_true_2, removelast_last by done. clear Hsplit.
  generalize true. generalize (∅ : gmap string string). induction Hl as [|kv l Hkv _ IH]; intros m first; [done|].
  cbn [map parseLines foldl]. rewrite (proj2 (N.leb_gt _ _)) by apply Hkv.
  rewrite assignment_line by done. destruct kv as [k v]. apply IH.
Qed.


