(* ===== verification/ComposeFile.v ===== *)
(** * Loading of Compose files ([compose/file.go], [compose/initjob.go])

    After the document is decoded, the loader links the services, reads the files that the
    definition refers to and computes the digest. Reading a file is [readFile], the YAML
    document is decoded and checked by [decode], and [sha256_hex] is the digest in
    hexadecimal digits. *)
From S2P Require Import Prelude GoStrings GoEncoding GoPaths ServiceSpecs StackDrift ResourceRotation ComposeValues.
Local Open Scope go_scope.

(** ** Data *)
(** [compose.ObjectRef]: the alias and the resolved file. *)
Record ObjectRef := { refSource : string; refFile : string }.
(** [compose.InitJob] *)
Record InitJob := { jobName : string; jobImage : string; jobNetworks : option ServiceNetworks }.

(** [compose.Service]; what the drift analysis reads is [desired]. *)
Record ComposeService := {
  desired : DesiredService; serviceImage : string; serviceNetworks : option ServiceNetworks;
  configRefs : list ObjectRef; envFiles : list EnvFile; environment : Environment;
  initJobs : list InitJob; serviceVolumes : list (option ServiceVolume);
}.

(** [compose.Compose]: of a network, its name is read. *)
Record ComposeDocument := {
  docServices : list ComposeService; docNetworks : gmap string string; docObjects : ObjectFile;
}.

(** [compose.File] *)
Record ComposeFile := {
  composePath : string; document : ComposeDocument; composeDigest : string; ResourceDigests : gmap string string;
}.

(** [compose.ValidationIssue] *)
Record ValidationIssue := {
  issueType : string; issueName : string; issueField : string; issueCode : string; issueMessage : string;
}.
Definition IssueCodeRequired : string := "required".
Definition IssueCodeInvalidValue : string := "invalid_value".

Inductive loadError :=
| ReadComposeError (path text : string)
| ParseComposeError (path text : string)
| ValidateComposeError (path : string) (issues : list ValidationIssue)
| LoadFault (text : string).

(** ** Paths *)
Definition baseDirOf (path : string) : string :=
  let dir := dirPrefix path in
  let dir := if bool_decide (dir = "") then "." else dir in
  if bool_decide (dir = "/") then dir else trim_suffix "/" dir.

Definition resolveResourceFilePath (baseDir path : string) : string :=
  if IsAbs path then path
  else
    let path := trim_left ["/"] (trim_prefix "./" path) in
    if bool_decide (baseDir = ".") then path else baseDir +:+ "/" +:+ path.

(** ** Links *)
Definition withName (j : InitJob) (name : string) (networks : option ServiceNetworks) : InitJob :=
  {| jobName := name; jobImage := jobImage j; jobNetworks := networks |}.

(** [normalizeInitJobs] *)
Definition normalizeInitJob (networks : gmap string string) (i : nat) (j : InitJob) : InitJob * list ValidationIssue :=
  if bool_decide (jobImage j = "")
  then (j, [{| issueType := ""; issueName := "";
               issueField := "init-jobs[" +:+ FormatInt (Z.of_nat i) +:+ "].image";
               issueCode := IssueCodeRequired; issueMessage := "image is required" |}])
  else (withName j (if bool_decide (jobName j = "") then "job-" +:+ FormatInt (Z.of_nat i) else jobName j)
          (resolveNetworkAliases (jobNetworks j) networks), []).
Definition normalizeInitJobs (jobs : list InitJob) (networks : gmap string string)
    : list InitJob * list ValidationIssue :=
  let results := imap (normalizeInitJob networks) jobs in (map fst results, flat_map snd results).

(** The file of a reference to a local config. *)
Definition linkConfigRef (baseDir : string) (configs : gmap string ConfigObject) (r : ObjectRef) : ObjectRef :=
  match configs !! refSource r with
  | None => r
  | Some shared =>
      if configExternal shared || bool_decide (configFile shared = "") then r
      else {| refSource := refSource r;
              refFile := if IsAbs (configFile shared) then configFile shared
                         else Join baseDir (configFile shared) |}
  end.

Definition policyLabels : list string :=
  [ServiceSyncPolicySelfHealLabelKey; ServiceSyncPolicySelfHealReplicasLabelKey;
   ServiceSyncPolicyReplicasManagedLabelKey].

Definition policyIssue (s : DesiredService) (label : string) : list ValidationIssue :=
  let result := if bool_decide (label = ServiceSyncPolicyReplicasManagedLabelKey)
                then ReplicasManagedPolicy s else servicePolicy s label in
  match result with
  | Ok _ => []
  | Err e => [{| issueType := "service"; issueName := desiredName s; issueField := "deploy.labels." +:+ label;
                 issueCode := IssueCodeInvalidValue; issueMessage := e |}]
  end.

Definition linkService (baseDir : string) (doc : ComposeDocument) (s : ComposeService)
    : ComposeService * list ValidationIssue :=
  let '(jobs, jobIssues) := normalizeInitJobs (initJobs s) (docNetworks doc) in
  ({| desired := desired s; serviceImage := serviceImage s;
      serviceNetworks := resolveNetworkAliases (serviceNetworks s) (docNetworks doc);
      configRefs := map (linkConfigRef baseDir (Configs (docObjects doc))) (configRefs s);
      envFiles := envFiles s; environment := environment s; initJobs := jobs;
      serviceVolumes := serviceVolumes s |},
   flat_map (policyIssue (desired s)) policyLabels ++
   map (λ i, {| issueType := "service"; issueName := desiredName (desired s); issueField := issueField i;
                issueCode := issueCode i; issueMessage := issueMessage i |}) jobIssues).

Definition linkServices (baseDir : string) (doc : ComposeDocument) : ComposeDocument * list ValidationIssue :=
  let results := map (linkService baseDir doc) (docServices doc) in
  ({| docServices := map fst results; docNetworks := docNetworks doc; docObjects := docObjects doc |},
   flat_map snd results).

(** ** Referenced files *)
Section Loader.
Context (sha256_hex : string → string).
Context (readFile : string → Result string string) (decode : string → string → Result loadError ComposeDocument).

Fixpoint loadServiceEnvFiles (baseDir service : string) (files : list EnvFile) : Result loadError (list EnvFile) :=
  match files with
  | [] => Ok []
  | f :: files =>
      let path := resolveResourceFilePath baseDir (envPath f) in
      match readFile path with
      | Err e => Err (LoadFault ("load env files: read env_file " +:+ path +:+ " for service " +:+ quoted service +:+ ": " +:+ e))
      | Ok content =>
          match ParseDotenv content with
          | Err (ComposeFault e) =>
              Err (LoadFault ("load env files: parse env_file " +:+ path +:+ " for service " +:+ quoted service +:+ ": " +:+ e))
          | Ok variables =>
              match loadServiceEnvFiles baseDir service files with
              | Err e => Err e
              | Ok files => Ok ({| envPath := envPath f; Variables := variables |} :: files)
              end
          end
      end
  end.

Definition withEnvFiles (s : ComposeService) (files : list EnvFile) : ComposeService :=
  {| desired := desired s; serviceImage := serviceImage s; serviceNetworks := serviceNetworks s;
     configRefs := configRefs s; envFiles := files; environment := environment s; initJobs := initJobs s;
     serviceVolumes := serviceVolumes s |}.

Fixpoint loadEnvFiles (baseDir : string) (services : list ComposeService) : Result loadError (list ComposeService) :=
  match services with
  | [] => Ok []
  | s :: services =>
      match loadServiceEnvFiles baseDir (desiredName (desired s)) (envFiles s) with
      | Err e => Err e
      | Ok files => match loadEnvFiles baseDir services with
                    | Err e => Err e
                    | Ok services => Ok (withEnvFiles s files :: services)
                    end
      end
  end.

Section Objects.
Context {T : Type} (kind : ObjectType T) (setContent : T → string → T) (objectType : string).

(** The loop over the sorted aliases: the objects with their content, and the contents. *)
Fixpoint loadObjectEach (baseDir : string) (aliases : list string) (objects : gmap string T)
    (contents : gmap string string) : Result loadError (gmap string T * gmap string string) :=
  match aliases with
  | [] => Ok (objects, contents)
  | alias :: aliases =>
      match objects !! alias with
      | None => loadObjectEach baseDir aliases objects contents
      | Some object =>
          let '(file, _, external) := properties kind object in
          if external || bool_decide (file = "") then loadObjectEach baseDir aliases objects contents
          else
            let path := resolveResourceFilePath baseDir file in
            match readFile path with
            | Err e => Err (LoadFault ("read " +:+ objectType +:+ " file " +:+ path +:+ ": " +:+ e))
            | Ok content =>
                loadObjectEach baseDir aliases (<[alias := setContent object content]> objects)
                  (<[alias := content]> contents)
            end
      end
  end.

Definition loadObjectFiles (baseDir : string) (objects : gmap string T)
    : Result loadError (gmap string T * gmap string string) :=
  loadObjectEach baseDir (sort_strings (map_to_list objects).*1) objects ∅.

(** The bytes that go into the digest, in the order of the aliases. *)
Definition objectDigestInput (objects : gmap string T) (contents : gmap string string) : string :=
  foldr (λ alias s,
    match objects !! alias with
    | None => s
    | Some object =>
        objectType +:+ alias +:+ nameOf kind object +:+ (properties kind object).1.1 +:+
        default "" (contents !! alias) +:+ s
    end) "" (sort_strings (map_to_list contents).*1).
End Objects.

Definition setConfigData (c : ConfigObject) (content : string) : ConfigObject :=
  {| configName := configName c; configFile := configFile c; configData := Some content;
     configTemplateDriver := configTemplateDriver c; configLabels := configLabels c;
     configExternal := configExternal c |}.
Definition setSecretData (s : SecretObject) (content : string) : SecretObject :=
  {| secretName := secretName s; secretFile := secretFile s; secretData := Some content;
     secretDriver := secretDriver s; secretDriverOpts := secretDriverOpts s;
     secretTemplateDriver := secretTemplateDriver s; secretLabels := secretLabels s;
     secretExternal := secretExternal s |}.

Definition resourceDigests (configs secrets : gmap string string) : gmap string string :=
  kmap (String.append "secrets/") (sha256_hex <$> secrets) ∪ kmap (String.append "configs/") (sha256_hex <$> configs).

Definition envFileDigestInput (service : string) (i : nat) (f : EnvFile) : string :=
  "env_file" +:+ service +:+ FormatInt (Z.of_nat i) +:+ envPath f +:+
  foldr (λ key s, key +:+ default "" (Variables f !! key) +:+ s) "" (sort_strings (map_to_list (Variables f)).*1).

Definition concatStrings (l : list string) : string := foldr (λ s t, s +:+ t) "" l.

Definition computeDigest (raw : string) (doc : ComposeDocument) (configs secrets : gmap string string) : string :=
  sha256_hex (raw +:+ objectDigestInput configType "configs" (Configs (docObjects doc)) configs +:+
    objectDigestInput secretType "secrets" (Secrets (docObjects doc)) secrets +:+
    concatStrings (map (λ s, concatStrings (imap (envFileDigestInput (desiredName (desired s))) (envFiles s)))
                     (docServices doc))).

(** [fileLoader.Load] *)
Definition Load (path : string) : Result loadError ComposeFile :=
  match readFile path with
  | Err e => Err (ReadComposeError path e)
  | Ok raw =>
      match decode path raw with
      | Err e => Err e
      | Ok doc =>
          let baseDir := baseDirOf path in
          let '(doc, issues) := linkServices baseDir doc in
          if negb (bool_decide (length issues = 0)) then Err (ValidateComposeError path issues)
          else match loadEnvFiles baseDir (docServices doc) with
               | Err e => Err e
               | Ok services =>
                   match loadObjectFiles configType setConfigData "configs" baseDir (Configs (docObjects doc)) with
                   | Err e => Err e
                   | Ok (configs, configFiles) =>
                       match loadObjectFiles secretType setSecretData "secrets" baseDir (Secrets (docObjects doc)) with
                       | Err e => Err e
                       | Ok (secrets, secretFiles) =>
                           let doc := {| docServices := services; docNetworks := docNetworks doc;
                                         docObjects := {| Configs := configs; Secrets := secrets |} |} in
                           Ok {| composePath := path; document := doc;
                                 composeDigest := computeDigest raw doc configFiles secretFiles;
                                 ResourceDigests := resourceDigests configFiles secretFiles |}
                       end
                   end
               end
      end
  end.
End Loader.
