(* ===== verification/Preparation.v ===== *)
(** * Preparation of Compose definitions ([gitops/controller/stackloop/preparation])

    The image policy, the environment of [compose/envfile.go], bind mounts, the downward
    variables, the label of managed services and the rotation of configs and secrets, run as
    a pipeline. Image references are parsed by [parseReference] of a library, which also
    gives the names of the downward variables. *)
From S2P Require Import Prelude GoStrings GoEncoding GoPaths Gopipe Pruner StackDrift ResourceRotation ComposeValues ComposeFile.
Local Open Scope go_scope.

(** ** Configuration *)
(** [config.ImageTagPolicySpec]; [config.ImagePolicySpec] has nothing else. *)
Record ImagePolicySpec := { Required : bool; NoLatest : bool; OnlySHA : bool }.
(** [ImagePolicySpec.Enabled] *)
Definition Enabled (s : ImagePolicySpec) : bool := Required s || NoLatest s || OnlySHA s.

(** The names of the library's variables. *)
Record DownwardNames := {
  EnvStackName : string; EnvServiceID : string; EnvServiceName : string; EnvTaskID : string;
  EnvTaskName : string; EnvTaskSlot : string; EnvNodeID : string; EnvNodeName : string;
}.

(** What the preparation reads of [config.Config]. *)
Record PreparationSpec := {
  imagePolicy : ImagePolicySpec; downwardEnabled : bool; rotationEnabled : bool; HashLength : Z;
  IncludePath : bool;
}.

Definition imageViolationInvalid : string := "image.invalid".
Definition imageViolationRequired : string := "image.tag.required".
Definition imageViolationLatest : string := "image.tag.no_latest".
Definition imageViolationOnlySHA : string := "image.tag.only_sha".

(** A parsed reference: whether it has a digest, and its tag. *)
Record Reference := { hasDigest : bool; tagOf : option string }.

(** ** Image policy *)
Section Images.
Context (parseReference : string → option Reference).

(** No violation is the empty code. *)
Definition imagePolicyViolation (policy : ImagePolicySpec) (image : string) : string :=
  if negb (Enabled policy) then ""
  else match parseReference (trim_space image) with
       | None => imageViolationInvalid
       | Some named =>
           let hasTag := bool_decide (is_Some (tagOf named)) in
           if OnlySHA policy && negb (hasDigest named) then imageViolationOnlySHA
           else if Required policy && negb hasTag && negb (hasDigest named) then imageViolationRequired
           else if NoLatest policy &&
                   (bool_decide (tagOf named = Some "latest") || (negb hasTag && negb (hasDigest named)))
           then imageViolationLatest
           else ""
       end.

Definition imagePolicyViolationMessage (code : string) : string :=
  if bool_decide (code = imageViolationInvalid) then "image reference is invalid"
  else if bool_decide (code = imageViolationRequired) then "image must have an explicit tag or digest"
  else if bool_decide (code = imageViolationLatest) then "image must not use the latest tag"
  else if bool_decide (code = imageViolationOnlySHA) then "image must use a digest"
  else "image policy rejected the service image".

Definition imageIssue (service field code message : string) : list ValidationIssue :=
  if bool_decide (code = "") then []
  else [{| issueType := "service"; issueName := service; issueField := field; issueCode := code;
           issueMessage := message |}].

Definition serviceImageIssues (policy : ImagePolicySpec) (s : ComposeService) : list ValidationIssue :=
  let name := desiredName (desired s) in
  let code := imagePolicyViolation policy (serviceImage s) in
  imageIssue name "image" code (imagePolicyViolationMessage code) ++
  flat_map (λ j,
    let code := imagePolicyViolation policy (jobImage j) in
    imageIssue name ("x-init-deploy-jobs[" +:+ quoted (jobName j) +:+ "].image") code
      ("init job " +:+ quoted (jobName j) +:+ ": " +:+ imagePolicyViolationMessage code)) (initJobs s).

(** The preparation fails with the issues of the images, or with the error of the rotation. *)
Inductive preparationError :=
| ImagesRejected (path : string) (issues : list ValidationIssue)
| RotationFault (text : string).

Definition checkImagePolicy (policy : ImagePolicySpec) (f : ComposeFile) : option preparationError :=
  let issues := flat_map (serviceImageIssues policy) (docServices (document f)) in
  if bool_decide (issues = []) then None else Some (ImagesRejected (composePath f) issues).
End Images.

(** ** Changes of services *)
Definition withServices (f : ComposeFile) (services : list ComposeService) : ComposeFile :=
  {| composePath := composePath f;
     document := {| docServices := services; docNetworks := docNetworks (document f);
                    docObjects := docObjects (document f) |};
     composeDigest := composeDigest f; ResourceDigests := ResourceDigests f |}.

Definition setEnvironment (s : ComposeService) (e : Environment) (files : list EnvFile) : ComposeService :=
  {| desired := desired s; serviceImage := serviceImage s; serviceNetworks := serviceNetworks s;
     configRefs := configRefs s; envFiles := files; environment := e; initJobs := initJobs s;
     serviceVolumes := serviceVolumes s |}.

(** [EnvFilePopulator.populateService]: the service and whether it had files. *)
Definition populateService (s : ComposeService) : ComposeService * bool :=
  if bool_decide (envFiles s = []) then (s, false)
  else
    let effective := effectiveVariables (envFiles s) (EnvMap (environment s)) in
    (setEnvironment s {| EnvMap := effective; Unset := Unset (environment s);
                         Keys := sort_strings (map_to_list effective).*1; isMap := true |} [], true).

(** [EnvFilePopulator.Populate] *)
Definition Populate (f : ComposeFile) : ComposeFile * bool :=
  let results := map populateService (docServices (document f)) in
  (withServices f results.*1, existsb snd results).

Definition withSource (v : ServiceVolume) (source : string) : ServiceVolume :=
  {| volumeType := volumeType v; Source := source; Target := Target v; Consistency := Consistency v;
     ReadOnly := ReadOnly v; Bind := Bind v; VolumeOptions := VolumeOptions v; Tmpfs := Tmpfs v;
     UnsupportedModes := UnsupportedModes v; isString := isString v |}.

(** One mount; a nil volume is passed over. *)
Definition normalizeVolume (baseDir : string) (volume : option ServiceVolume) : option ServiceVolume :=
  match volume with
  | None => None
  | Some v =>
      if negb (bool_decide (volumeType v = ServiceVolumeTypeBind)) || bool_decide (Source v = "") || IsAbs (Source v)
      then Some v else Some (withSource v (Clean (Join baseDir (Source v))))
  end.

Definition withVolumes (s : ComposeService) (volumes : list (option ServiceVolume)) : ComposeService :=
  {| desired := desired s; serviceImage := serviceImage s; serviceNetworks := serviceNetworks s;
     configRefs := configRefs s; envFiles := envFiles s; environment := environment s; initJobs := initJobs s;
     serviceVolumes := volumes |}.

Definition normalizeBindMountPaths (baseDir : string) (services : list ComposeService) : list ComposeService :=
  map (λ s, withVolumes s (map (normalizeVolume baseDir) (serviceVolumes s))) services.

Definition setDeployLabels (s : ComposeService) (labels : gmap string string) : ComposeService :=
  {| desired := {| desiredName := desiredName (desired s); desiredImage := desiredImage (desired s);
                   deployMode := deployMode (desired s); deployReplicas := deployReplicas (desired s);
                   deployLabels := labels |};
     serviceImage := serviceImage s; serviceNetworks := serviceNetworks s;
     configRefs := configRefs s; envFiles := envFiles s; environment := environment s; initJobs := initJobs s;
     serviceVolumes := serviceVolumes s |}.

(** [Labels.Add] of the managed label on one service. *)
Definition addServiceLabel (s : ComposeService) : ComposeService * bool :=
  let labels := deployLabels (desired s) in
  (setDeployLabels s (<[ServiceManagedLabelKey := ServiceManagedLabelValue]> labels),
   negb (bool_decide (labels !! ServiceManagedLabelKey = Some ServiceManagedLabelValue))).

Definition addManagedLabel (f : ComposeFile) : ComposeFile * bool :=
  let results := map addServiceLabel (docServices (document f)) in
  (withServices f results.*1, existsb snd results).

(** ** Downward variables *)
Section Downward.
Context (names : DownwardNames).

Definition downwardEnvironment : list (string * string) := [
  (EnvStackName names, "");
  (EnvServiceID names, "{{.Service.ID}}"); (EnvServiceName names, "{{.Service.Name}}");
  (EnvTaskID names, "{{.Task.ID}}"); (EnvTaskName names, "{{.Task.Name}}");
  (EnvTaskSlot names, "{{.Task.Slot}}");
  (EnvNodeID names, "{{.Node.ID}}"); (EnvNodeName names, "{{.Node.Hostname}}")].

(** The loop over the variables: one that is set is left alone. *)
Fixpoint addVariables (stackName : string) (variables : list (string * string)) (m : gmap string string)
    (changed : bool) : gmap string string * bool :=
  match variables with
  | [] => (m, changed)
  | (key, value) :: variables =>
      let value := if bool_decide (key = EnvStackName names) then stackName else value in
      if bool_decide (is_Some (m !! key)) then addVariables stackName variables m changed
      else addVariables stackName variables (<[key := value]> m) true
  end.

Definition addServiceDownward (stackName : string) (s : ComposeService) : ComposeService * bool :=
  let e := environment s in
  let '(m, changed) := addVariables stackName downwardEnvironment (EnvMap e) false in
  (setEnvironment s {| Unset := Unset e; EnvMap := m; Keys := Keys e; isMap := isMap e |} (envFiles s), changed).

Definition addDownward (f : ComposeFile) (stackName : string) : ComposeFile * bool :=
  let results := map (addServiceDownward stackName) (docServices (document f)) in
  (withServices f results.*1, existsb snd results).
End Downward.

(** ** The preparer *)
Section Preparer.
Context `{Gopipe} (parseReference : string → option Reference) (names : DownwardNames) (sha256_hex : string → string).
(** The orders in which the maps of configs and secrets are walked. *)
Context (configRange : gmap string ConfigObject → list string) (secretRange : gmap string SecretObject → list string).
Context (cfg : PreparationSpec).

Definition setObjects (f : ComposeFile) (objects : ObjectFile) : ComposeFile :=
  {| composePath := composePath f;
     document := {| docServices := docServices (document f); docNetworks := docNetworks (document f);
                    docObjects := objects |};
     composeDigest := composeDigest f; ResourceDigests := ResourceDigests f |}.

Definition imageStep : Step preparationError ComposeFile :=
  {| stepName := "check image policy"; When := λ _, true;
     Run := λ f, (checkImagePolicy parseReference (imagePolicy cfg) f, f) |}.
Definition populateStep : Step preparationError ComposeFile :=
  {| stepName := "populate environment";
     When := λ f, existsb (λ s, negb (bool_decide (envFiles s = []))) (docServices (document f));
     Run := λ f, (None, (Populate f).1) |}.
Definition bindStep : Step preparationError ComposeFile :=
  {| stepName := "prepare bind mount paths"; When := λ _, true;
     Run := λ f, (None, withServices f
       (normalizeBindMountPaths (Dir (composePath f)) (docServices (document f)))) |}.
Definition downwardStep (stackName : string) : Step preparationError ComposeFile :=
  {| stepName := "add downward"; When := λ _, true; Run := λ f, (None, (addDownward names f stackName).1) |}.
Definition labelStep : Step preparationError ComposeFile :=
  {| stepName := "add managed label"; When := λ _, true; Run := λ f, (None, (addManagedLabel f).1) |}.
Definition rotationStep (stackName : string) : Step preparationError ComposeFile :=
  {| stepName := "rotate secrets/configs"; When := λ _, true;
     Run := λ f,
       let '(result, objects) := Rotate sha256_hex configRange secretRange (docObjects (document f)) stackName
                                   (HashLength cfg) (IncludePath cfg) in
       (match result with Ok _ => None | Err e => Some (RotationFault e) end, setObjects f objects) |}.

(** [attachPipeline] *)
Definition attachPipeline (stackName : string) : list (Step preparationError ComposeFile) :=
  (if Enabled (imagePolicy cfg) then [imageStep] else []) ++
  [populateStep; bindStep] ++
  (if downwardEnabled cfg then [downwardStep stackName] else []) ++
  [labelStep] ++
  (if rotationEnabled cfg then [rotationStep stackName] else []).

(** [Preparer.Prepare]: the definition is changed in place. *)
Definition PrepareFile (stackName : string) (f : ComposeFile)
    : option (string * preparationError) * ComposeFile :=
  runPipeline (attachPipeline stackName) f.

(** [Preparer.Load]: the file at one revision, with its place in the checkout. *)
Definition LoadFile (readAt : string → string → Result string string)
    (decode : string → string → Result loadError ComposeDocument)
    (workingDir revision composeFile : string) : Result loadError ComposeFile :=
  match Load sha256_hex (readAt revision) decode composeFile with
  | Err e => Err e
  | Ok f => Ok {| composePath := Join workingDir composeFile; document := document f;
                  composeDigest := composeDigest f; ResourceDigests := ResourceDigests f |}
  end.
End Preparer.
