(* ===== verification/PreparationSafety.v ===== *)
(** * What the preparation of a definition promises

    A prepared definition runs as it stands: it has every variable, absolute paths, the label
    of managed services and the names of rotated objects; a definition that was loaded fails
    to prepare only over its images; and preparing twice is preparing once. *)
From S2P Require Import Prelude GoStrings GoEncoding GoPaths Gopipe Pruner StackDrift ResourceRotation ResourceCleanup ComposeValues ComposeFile Preparation.
Local Open Scope go_scope.

(** ** Variables *)
(** The value in the last file that sets the variable. *)
Definition fromFiles (files : list EnvFile) (k : string) : option string :=
  last (omap (λ f, Variables f !! k) files).

Lemma files_lookup files k :
  foldl (λ m f, Variables f ∪ m) (∅ : gmap string string) files !! k = fromFiles files k.
Proof.
  unfold fromFiles. induction files as [|f files IH] using rev_ind; [done|].
  rewrite foldl_app, omap_app. cbn [foldl]. rewrite lookup_union, IH. cbn [omap list_omap].
  destruct (Variables f !! k) as [v|]; [by rewrite last_snoc; destruct (last _)|].
  rewrite app_nil_r. by destruct (last _).
Qed.

Lemma effective_lookup files m k :
  effectiveVariables files m !! k = match m !! k with Some v => Some v | None => fromFiles files k end.
Proof.
  unfold effectiveVariables. rewrite lookup_union, files_lookup.
  by destruct (m !! k), (fromFiles files k).
Qed.

(** The value that the downward variables give. *)
Definition downwardValue (names : DownwardNames) (stackName k : string) : option string :=
  (λ v, if bool_decide (k = EnvStackName names) then stackName else v) <$>
  (list_to_map (downwardEnvironment names) : gmap string string) !! k.

Lemma addVariables_lookup names stackName variables m ch k :
  (addVariables names stackName variables m ch).1 !! k =
  match m !! k with
  | Some v => Some v
  | None => (λ v, if bool_decide (k = EnvStackName names) then stackName else v) <$>
            (list_to_map variables : gmap string string) !! k
  end.
Proof.
  revert m ch. induction variables as [|[key value] variables IH]; intros m ch; cbn [addVariables].
  { cbn [list_to_map foldr fst]. rewrite lookup_empty. by destruct (m !! k). }
  rewrite list_to_map_cons. destruct (bool_decide (is_Some (m !! key))) eqn:Hkey; rewrite IH.
  - apply bool_decide_eq_true_1 in Hkey. destruct (m !! k) eqn:Hk; [done|].
    rewrite lookup_insert_ne; [done|]. intros ->. rewrite Hk in Hkey. by destruct Hkey.
  - apply bool_decide_eq_false_1 in Hkey. destruct (decide (k = key)) as [->|Hne]; [|by rewrite !lookup_insert_ne].
    rewrite !lookup_insert_eq. apply eq_None_not_Some in Hkey. by rewrite Hkey.
Qed.

(** ** One service *)
Section Service.
Context (names : DownwardNames) (cfg : PreparationSpec).
Context (stackName baseDir : string).

(** The changes of all steps. *)
Definition withDownward (s : ComposeService) : ComposeService :=
  if downwardEnabled cfg then (addServiceDownward names stackName s).1 else s.
Definition prepareService (s : ComposeService) : ComposeService :=
  let s := (populateService s).1 in
  (addServiceLabel (withDownward (withVolumes s (map (normalizeVolume baseDir) (serviceVolumes s))))).1.

(** The value of a variable: explicit, of the last file, or downward. *)
Definition variableOf (s : ComposeService) (k : string) : option string :=
  match EnvMap (environment s) !! k with
  | Some v => Some v
  | None => match fromFiles (envFiles s) k with
            | Some v => Some v
            | None => if downwardEnabled cfg then downwardValue names stackName k else None
            end
  end.

(** A mount afterwards: only the source of a relative bind mount changes. *)
Definition mountedAt (v v' : option ServiceVolume) : Prop :=
  match v, v' with
  | None, None => True
  | Some v, Some v' =>
      if bool_decide (volumeType v = ServiceVolumeTypeBind ∧ Source v ≠ "" ∧ IsAbs (Source v) = false)
      then v' = withSource v (Join baseDir (Source v)) ∧ IsAbs (Source v') = true ∧ Clean (Source v') = Source v'
      else v' = v
  | _, _ => False
  end.

Record preparedService (s s' : ComposeService) : Prop := {
  prepared_variables : ∀ k, EnvMap (environment s') !! k = variableOf s k;
  prepared_files : envFiles s' = [];
  prepared_labels : deployLabels (desired s') = <[ServiceManagedLabelKey := "true"]> (deployLabels (desired s));
  prepared_volumes : Forall2 mountedAt (serviceVolumes s) (serviceVolumes s');
  prepared_rest :
    desiredName (desired s') = desiredName (desired s) ∧ desiredImage (desired s') = desiredImage (desired s) ∧
    deployMode (desired s') = deployMode (desired s) ∧ deployReplicas (desired s') = deployReplicas (desired s) ∧
    serviceImage s' = serviceImage s ∧ serviceNetworks s' = serviceNetworks s ∧ configRefs s' = configRefs s ∧
    initJobs s' = initJobs s;
}.

Lemma populate_lookup s k :
  EnvMap (environment (populateService s).1) !! k =
  match EnvMap (environment s) !! k with Some v => Some v | None => fromFiles (envFiles s) k end.
Proof.
  unfold populateService. case_bool_decide as Hfiles.
  - rewrite Hfiles. simpl. by destruct (_ !! k).
  - apply effective_lookup.
Qed.

Lemma withDownward_lookup s k :
  EnvMap (environment (withDownward s)) !! k =
  match EnvMap (environment s) !! k with
  | Some v => Some v
  | None => if downwardEnabled cfg then downwardValue names stackName k else None
  end.
Proof.
  unfold withDownward. destruct (downwardEnabled cfg); [|by destruct (_ !! k)].
  unfold addServiceDownward.
  pose proof (addVariables_lookup names stackName (downwardEnvironment names) (EnvMap (environment s)) false k) as Hl.
  by destruct (addVariables _ _ _ _ _) as [m ch].
Qed.

(** The steps leave everything else alone. *)
Definition sameButEnvironment (s s' : ComposeService) : Prop :=
  desired s' = desired s ∧ serviceImage s' = serviceImage s ∧ serviceNetworks s' = serviceNetworks s ∧
  configRefs s' = configRefs s ∧ initJobs s' = initJobs s ∧ serviceVolumes s' = serviceVolumes s.

Lemma populate_same s : sameButEnvironment s (populateService s).1 ∧ envFiles (populateService s).1 = [].
Proof. unfold populateService. by case_bool_decide. Qed.

Lemma withDownward_same s : sameButEnvironment s (withDownward s) ∧ envFiles (withDownward s) = envFiles s.
Proof.
  unfold withDownward. destruct (downwardEnabled cfg); [|done].
  unfold addServiceDownward. by destruct (addVariables _ _ _ _ _).
Qed.

Lemma normalizeVolume_mounted v : IsAbs baseDir = true → mountedAt v (normalizeVolume baseDir v).
Proof.
  intros Hbase. destruct v as [v|]; [|done]. cbn [normalizeVolume mountedAt].
  case_bool_decide as Ht; cbn [negb orb]; [|by rewrite bool_decide_eq_false_2 by tauto].
  case_bool_decide as Hs; cbn [orb]; [by rewrite bool_decide_eq_false_2 by tauto|].
  destruct (IsAbs (Source v)) eqn:Habs; cbn [mountedAt]; [by rewrite bool_decide_eq_false_2 by naive_solver|].
  rewrite bool_decide_eq_true_2 by done.
  pose proof (Join_abs baseDir (Source v) Hbase) as Hj.
  assert (Clean (Join baseDir (Source v)) = Join baseDir (Source v)) as Hc.
  { unfold Join in *. rewrite (bool_decide_eq_false_2 (baseDir = "")) in * by (by intros ->).
    rewrite bool_decide_eq_false_2 in * by done. apply Clean_idem.
    apply IsAbs_spec in Hbase as [t ->]. apply IsAbs_spec. by eexists. }
  rewrite Hc. done.
Qed.

Lemma prepareService_spec s : IsAbs baseDir = true → preparedService s (prepareService s).
Proof.
  intros Hbase. unfold prepareService. cbv zeta.
  set (p := (populateService s).1). set (q := withVolumes p (map (normalizeVolume baseDir) (serviceVolumes p))).
  destruct (populate_same s) as [(Hd & H1 & H2 & H3 & H4 & H5) H6]. fold p in Hd, H1, H2, H3, H4, H5, H6.
  destruct (withDownward_same q) as [(Hd' & H1' & H2' & H3' & H4' & H5') H6'].
  split.
  - intros k. cbn. rewrite withDownward_lookup. cbn. subst p. rewrite populate_lookup. unfold variableOf.
    by destruct (_ !! k), (fromFiles (envFiles s) k).
  - cbn. by rewrite H6'.
  - cbn. rewrite Hd'. cbn. by rewrite Hd.
  - cbn. rewrite H5'. cbn. rewrite H5. apply Forall2_fmap_r, Forall_Forall2_diag, Forall_true.
    intros v. by apply normalizeVolume_mounted.
  - cbn. rewrite Hd', H1', H2', H3', H4'. cbn. by rewrite Hd, H1, H2, H3, H4.
Qed.
End Service.

(** ** Images *)
Section Images.
Context (parseReference : string → option Reference) (policy : ImagePolicySpec).

(** What the policy asks of an image. *)
Definition imageAllowed (image : string) : Prop :=
  Enabled policy = true →
  ∃ named, parseReference (trim_space image) = Some named ∧
    (OnlySHA policy = true → hasDigest named = true) ∧
    (Required policy = true → is_Some (tagOf named) ∨ hasDigest named = true) ∧
    (NoLatest policy = true →
      tagOf named ≠ Some "latest" ∧ (is_Some (tagOf named) ∨ hasDigest named = true)).

Definition imagesAllowed (services : list ComposeService) : Prop :=
  ∀ s, s ∈ services → imageAllowed (serviceImage s) ∧ ∀ j, j ∈ initJobs s → imageAllowed (jobImage j).

Lemma violation_allowed image : imagePolicyViolation parseReference policy image = "" ↔ imageAllowed image.
Proof.
  unfold imagePolicyViolation, imageAllowed. destruct (Enabled policy); cbn [negb]; [|by split].
  destruct (parseReference _) as [[digest tag]|]; [|split; [done|intros Ha; by destruct (Ha eq_refl) as (? & ? & _)]].
  cbn [tagOf hasDigest]. split.
  - intros Hcode _. eexists. split; [done|]. cbn [tagOf hasDigest]. revert Hcode.
    destruct (OnlySHA policy), (Required policy), (NoLatest policy), digest, tag as [t|]; cbn;
      repeat case_bool_decide; naive_solver.
  - intros (? & [= <-] & Hsha & Hreq & Hlat)%(λ H, H eq_refl). cbn [tagOf hasDigest] in *.
    destruct (OnlySHA policy), digest; cbn [andb negb]; try (by specialize (Hsha eq_refl)).
    all: destruct (Required policy), (NoLatest policy), tag as [t|]; cbn; try done.
    all: repeat case_bool_decide; naive_solver.
Qed.

Lemma imageIssue_nil service field code message : imageIssue service field code message = [] ↔ code = "".
Proof. unfold imageIssue. by case_bool_decide. Qed.

Lemma flat_map_nil_iff {A B} (g : A → list B) l : flat_map g l = [] ↔ ∀ x, x ∈ l → g x = [].
Proof.
  induction l as [|x l IH]; cbn [flat_map]; [split; [by intros _ ? ?%elem_of_nil|done]|].
  split.
  - intros [Hx Hl]%app_eq_nil y [->|Hy]%elem_of_cons; [done|]. by apply IH.
  - intros Hall. rewrite (Hall x) by left. apply IH. intros y Hy. apply Hall. by right.
Qed.

Lemma serviceImageIssues_nil s :
  serviceImageIssues parseReference policy s = [] ↔
  imageAllowed (serviceImage s) ∧ ∀ j, j ∈ initJobs s → imageAllowed (jobImage j).
Proof.
  unfold serviceImageIssues. cbv zeta. split.
  - intros [H1%imageIssue_nil H2]%app_eq_nil. split; [by apply violation_allowed|].
    intros j Hj. apply violation_allowed. by eapply imageIssue_nil, (proj1 (flat_map_nil_iff _ _) H2 j Hj).
  - intros [H1%violation_allowed H2]. rewrite (proj2 (imageIssue_nil _ _ _ _) H1). apply flat_map_nil_iff. intros j Hj. by apply imageIssue_nil, violation_allowed, H2.
Qed.

Lemma imagePolicy_ok f :
  checkImagePolicy parseReference policy f = None ↔ imagesAllowed (docServices (document f)).
Proof.
  unfold checkImagePolicy, imagesAllowed. cbv zeta. case_bool_decide as Hi; rewrite flat_map_nil_iff in Hi.
  - split; [|done]. intros _ s Hs. by apply serviceImageIssues_nil, Hi.
  - split; [done|]. intros Ha. destruct Hi. intros s Hs. by apply serviceImageIssues_nil, Ha.
Qed.
End Images.

(** ** The pipeline *)
Section Pipeline.
Context `{GopipeLaws} (parseReference : string → option Reference) (names : DownwardNames)
  (sha256_hex : string → string).
Context (configRange : gmap string ConfigObject → list string) (secretRange : gmap string SecretObject → list string).
Context (cfg : PreparationSpec) (stackName : string).

Definition prepareServices (f : ComposeFile) : ComposeFile :=
  withServices f (map (prepareService names cfg stackName (Dir (composePath f))) (docServices (document f))).

Lemma withServices_id f : withServices f (docServices (document f)) = f.
Proof. by destruct f as [? [] ? ?]. Qed.

Lemma Populate_gate f :
  existsb (λ s, negb (bool_decide (envFiles s = []))) (docServices (document f)) = false → (Populate f).1 = f.
Proof.
  intros Hgate. unfold Populate. cbn [fst]. etransitivity; [|apply withServices_id]. f_equal.
  induction (docServices (document f)) as [|s l IH]; [done|]. cbn [existsb] in Hgate.
  apply orb_false_iff in Hgate as [Hs%negb_false_iff%bool_decide_eq_true_1 Hl].
  cbn [map fmap list_fmap]. rewrite IH by done. unfold populateService. by rewrite bool_decide_eq_true_2.
Qed.

Lemma populateStep_run steps f :
  runPipeline (populateStep :: steps) f = runPipeline steps (Populate f).1.
Proof.
  rewrite pipeline_cons. cbn [When Run populateStep]. destruct (existsb _ _) eqn:Hgate; [done|].
  by rewrite Populate_gate.
Qed.

Definition rotated (f : ComposeFile) : option (string * preparationError) * ComposeFile :=
  let '(result, objects) := Rotate sha256_hex configRange secretRange (docObjects (document f)) stackName
                              (HashLength cfg) (IncludePath cfg) in
  (match result with Ok _ => None | Err e => Some ("rotate secrets/configs", RotationFault e) end,
   setObjects f objects).

Lemma services_run f :
  (if downwardEnabled cfg
   then (addManagedLabel (addDownward names (withServices (Populate f).1
           (normalizeBindMountPaths (Dir (composePath f)) (docServices (document (Populate f).1)))) stackName).1).1
   else (addManagedLabel (withServices (Populate f).1
           (normalizeBindMountPaths (Dir (composePath f)) (docServices (document (Populate f).1))))).1) =
  prepareServices f.
Proof.
  unfold addManagedLabel, addDownward, Populate, normalizeBindMountPaths, prepareServices, prepareService, withDownward.
  destruct (downwardEnabled cfg); cbn [fst withServices composePath document docServices docNetworks docObjects composeDigest
    ResourceDigests]; rewrite <- !list_fmap_compose; f_equal; f_equal.
Qed.

Lemma PrepareFile_spec f :
  PrepareFile parseReference names sha256_hex configRange secretRange cfg stackName f =
  match checkImagePolicy parseReference (imagePolicy cfg) f with
  | Some e => (Some ("check image policy", e), f)
  | None => if rotationEnabled cfg then rotated (prepareServices f) else (None, prepareServices f)
  end.
Proof.
  unfold PrepareFile, attachPipeline.
  assert (∀ steps, runPipeline ((if Enabled (imagePolicy cfg) then [imageStep parseReference cfg] else []) ++ steps) f =
    match checkImagePolicy parseReference (imagePolicy cfg) f with
    | Some e => (Some ("check image policy", e), f) | None => runPipeline steps f end) as Himage.
  { intros steps. destruct (Enabled (imagePolicy cfg)) eqn:Hen; cbn [app].
    - rewrite pipeline_cons. cbn. by destruct (checkImagePolicy _ _ _).
    - rewrite (proj2 (imagePolicy_ok _ _ _)); [done|]. intros s _. split; [|intros j _]; intros Hen'; congruence. }
  rewrite Himage. destruct (checkImagePolicy _ _ _); [done|]. cbn [app].
  rewrite populateStep_run, pipeline_cons. cbn [When Run bindStep]. rewrite <- services_run.
  change (composePath (Populate f).1) with (composePath f).
  destruct (downwardEnabled cfg); cbn [app]; rewrite !pipeline_cons; cbn [When Run downwardStep labelStep];
    rewrite ?pipeline_cons; cbn [When Run labelStep];
    (destruct (rotationEnabled cfg); [|by rewrite pipeline_nil]);
    rewrite pipeline_cons; cbn [When Run rotationStep]; unfold rotated;
    destruct (Rotate _ _ _ _ _ _ _) as [[?|?] ?]; by rewrite ?pipeline_nil.
Qed.
End Pipeline.

(** ** Rotation of loaded objects *)
Section Objects.
Context {T : Type} (kind : ObjectType T) `{!ObjectTypeLaws kind}.

(** An object with a local file has its content. *)
Definition contentLoaded (o : T) : Prop :=
  let '(file, data, external) := properties kind o in external = true ∨ file = "" ∨ is_Some data.

Context (sha256_hex : string → string) (stackName : string) (hashLength : Z) (includePath : bool).
Local Notation rotateObject' := (rotateObject sha256_hex kind stackName hashLength includePath).
Local Notation rotateEach' := (rotateEach sha256_hex kind stackName hashLength includePath).

Lemma rotateObject_loaded k o : contentLoaded o → ∃ o' b, rotateObject' k o = Ok (o', b) ∧ contentLoaded o'.
Proof.
  unfold contentLoaded, rotateObject. destruct (properties kind o) as [[file data] external] eqn:Hp. intros Hl.
  destruct external; [exists o, false; by rewrite Hp|].
  case_bool_decide; [exists o, false; rewrite Hp; naive_solver|].
  destruct data as [d|]; [|destruct Hl as [?|[?|[? ?]]]; done].
  case_bool_decide; eexists _, _; (split; [done|]); rewrite ?rename_properties, Hp; naive_solver.
Qed.

Lemma rotateEach_loaded order objects ch :
  map_Forall (λ _, contentLoaded) objects → ∃ ch' objects', rotateEach' order objects ch = (Ok ch', objects').
Proof.
  revert objects ch. induction order as [|k order IH]; intros objects ch Hall; [by eexists _, _|].
  cbn [rotateEach]. destruct (objects !! k) as [o|] eqn:Hk; [|by apply IH].
  destruct (rotateObject_loaded k o (Hall _ _ Hk)) as (o' & b & -> & Ho'). apply IH. by apply map_Forall_insert_2.
Qed.

(** What is rotated does not change again. *)
Lemma rotateObject_again k o o' b : rotateObject' k o = Ok (o', b) → ∃ b', rotateObject' k o' = Ok (o', b').
Proof.
  assert (∀ n a, properties kind (rename kind o n a) = properties kind o) as Hren.
  { intros n a. by apply rename_properties. }
  unfold rotateObject. destruct (properties kind o) as [[file data] external] eqn:Hp.
  destruct external; [intros [= <- <-]; rewrite Hp; by eexists|].
  case_bool_decide as Hf; [intros [= <- <-]; rewrite Hp, bool_decide_eq_true_2 by done; by eexists|].
  destruct data as [d|]; [|done]. case_bool_decide as Hn; intros [= <- <-]; rewrite ?Hren, ?Hp;
    rewrite bool_decide_eq_false_2 by done.
  - rewrite bool_decide_eq_true_2 by done. by eexists.
  - rewrite bool_decide_eq_false_2 by done. eexists. do 2 f_equal. by apply rename_twice.
Qed.

Lemma rotateEach_fixed order objects ch :
  (∀ k o, objects !! k = Some o → ∃ b, rotateObject' k o = Ok (o, b)) →
  ∃ ch', rotateEach' order objects ch = (Ok ch', objects).
Proof.
  intros Hfix. revert ch. induction order as [|k order IH]; intros ch; [by eexists|]. cbn [rotateEach].
  destruct (objects !! k) as [o|] eqn:Hk; [|apply IH]. destruct (Hfix _ _ Hk) as [b ->]. by rewrite insert_id.
Qed.

Lemma rotateEach_again order order' objects ch ch' ch2 objects' :
  enumerates order objects → rotateEach' order objects ch = (Ok ch', objects') →
  ∃ ch3, rotateEach' order' objects' ch2 = (Ok ch3, objects').
Proof.
  intros [Hnd Hdom] Hrun. apply rotateEach_fixed. intros k o' Hk.
  destruct (rotateEach_lookup _ _ _ _ _ _ _ _ _ _ Hnd Hrun k) as [Hl _]. rewrite Hk in Hl.
  destruct (objects !! k) as [o|] eqn:Ho; [|done]. rewrite decide_True in Hl by (apply Hdom; by rewrite Ho).
  destruct (rotateObject' k o) as [[o1 b]|] eqn:Hro; [|done]. inversion Hl; subst. by eapply rotateObject_again.
Qed.

(** ** Loading *)
Context (readFile : string → Result string string) (setContent : T → string → T) (objectType baseDir : string).
Context (Hset : ∀ o c, properties kind (setContent o c) = ((properties kind o).1.1, Some c, (properties kind o).2)).

Lemma loadObjectEach_loaded aliases objects contents objects' contents' :
  loadObjectEach readFile kind setContent objectType baseDir aliases objects contents = Ok (objects', contents') →
  ∀ k o', objects' !! k = Some o' →
    ∃ o, objects !! k = Some o ∧ (k ∈ aliases ∨ contentLoaded o → contentLoaded o').
Proof using Hset.
  revert objects contents. induction aliases as [|a aliases IH]; intros objects contents; cbn [loadObjectEach].
  { intros [= <- <-] k o' Hk. exists o'. split; [done|]. intros [?%elem_of_nil|?]; done. }
  destruct (objects !! a) as [o|] eqn:Ha.
  2:{ intros Hrun k o' Hk. destruct (IH _ _ Hrun k o' Hk) as (o & Ho & Hl). exists o. split; [done|].
      intros [[->|Hin]%elem_of_cons|Hc]; [congruence|apply Hl; by left|apply Hl; by right]. }
  destruct (properties kind o) as [[file data] external] eqn:Hp.
  destruct (external || bool_decide (file = "")) eqn:Hskip.
  - intros Hrun k o' Hk. destruct (IH _ _ Hrun k o' Hk) as (o1 & Ho & Hl). exists o1. split; [done|].
    intros [[->|Hin]%elem_of_cons|Hc]; [|apply Hl; by left|apply Hl; by right].
    apply Hl. right. rewrite Ha in Ho. inversion Ho; subst. unfold contentLoaded. rewrite Hp.
    apply orb_true_iff in Hskip as [->|?%bool_decide_eq_true_1]; auto.
  - destruct (readFile _) as [c|e]; [|done]. intros Hrun k o' Hk. destruct (IH _ _ Hrun k o' Hk) as (o1 & Ho & Hl).
    destruct (decide (a = k)) as [->|Hne].
    + rewrite lookup_insert_eq in Ho. inversion Ho; subst o1. exists o. split; [done|]. intros _. apply Hl. right.
      unfold contentLoaded. rewrite Hset. eauto.
    + rewrite lookup_insert_ne in Ho by done. exists o1. split; [done|].
      intros [[->|Hin]%elem_of_cons|Hc]; [done|apply Hl; by left|apply Hl; by right].
Qed.

Lemma loadObjectFiles_loaded objects objects' contents :
  loadObjectFiles readFile kind setContent objectType baseDir objects = Ok (objects', contents) →
  map_Forall (λ _, contentLoaded) objects'.
Proof using Hset.
  intros Hrun k o' Hk. destruct (loadObjectEach_loaded _ _ _ _ _ Hrun k o' Hk) as (o & Ho & Hl). apply Hl. left.
  apply elem_of_sort_strings, list_elem_of_fmap. exists (k, o). split; [done|]. by apply elem_of_map_to_list.
Qed.
End Objects.

(** Every local object of a file has its content. *)
Definition objectsLoaded (o : ObjectFile) : Prop :=
  map_Forall (λ _, contentLoaded configType) (Configs o) ∧ map_Forall (λ _, contentLoaded secretType) (Secrets o).

Lemma Load_objects sha256_hex readFile decode path f :
  Load sha256_hex readFile decode path = Ok f → objectsLoaded (docObjects (document f)).
Proof.
  unfold Load. destruct (readFile path) as [raw|]; [|done]. destruct (decode path raw) as [doc|]; [|done].
  destruct (linkServices _ doc) as [doc' issues]. destruct (negb _); [done|].
  destruct (loadEnvFiles _ _ _) as [services|]; [|done].
  destruct (loadObjectFiles _ configType _ _ _ _) as [[configs cf]|] eqn:Hc; [|done].
  destruct (loadObjectFiles _ secretType _ _ _ _) as [[secrets sf]|] eqn:Hs; [|done].
  intros [= <-]. split; cbn; [eapply loadObjectFiles_loaded; [|exact Hc]|eapply loadObjectFiles_loaded; [|exact Hs]];
    by intros [].
Qed.

Lemma Rotate_loaded sha256_hex configRange secretRange objects stackName hashLength includePath :
  objectsLoaded objects →
  ∃ ch objects', Rotate sha256_hex configRange secretRange objects stackName hashLength includePath = (Ok ch, objects').
Proof.
  intros [Hc Hs]. unfold Rotate, applyObjectTypeRotation.
  destruct (rotateEach_loaded configType sha256_hex stackName hashLength includePath (configRange (Configs objects))
    _ false Hc) as (? & cs & ->).
  destruct (rotateEach_loaded secretType sha256_hex stackName hashLength includePath (secretRange (Secrets objects))
    _ false Hs) as (? & ss & ->).
  by eexists _, _.
Qed.

Lemma Rotate_again sha256_hex configRange secretRange objects stackName hashLength includePath ch objects' :
  enumerates (configRange (Configs objects)) (Configs objects) →
  enumerates (secretRange (Secrets objects)) (Secrets objects) →
  Rotate sha256_hex configRange secretRange objects stackName hashLength includePath = (Ok ch, objects') →
  ∃ ch', Rotate sha256_hex configRange secretRange objects' stackName hashLength includePath = (Ok ch', objects').
Proof.
  intros HC HS. unfold Rotate, applyObjectTypeRotation.
  destruct (rotateEach _ configType _ _ _ _ _ _) as [[c1|e] cs] eqn:Hc; [|done].
  destruct (rotateEach _ secretType _ _ _ _ _ _) as [[s1|e] ss] eqn:Hs; [|done]. intros [= <- <-]. cbn [Configs Secrets].
  destruct (rotateEach_again _ _ _ _ _ _ (configRange cs) _ _ _ false _ HC Hc) as [? ->].
  destruct (rotateEach_again _ _ _ _ _ _ (secretRange ss) _ _ _ false _ HS Hs) as [? ->]. by eexists.
Qed.

(** ** Preparing again *)
Section Again.
Context (names : DownwardNames) (cfg : PreparationSpec) (stackName baseDir : string).

Lemma mountedAt_again v v' : mountedAt baseDir v v' → normalizeVolume baseDir v' = v'.
Proof.
  destruct v as [v|], v' as [v'|]; try done. cbn [mountedAt normalizeVolume].
  case_bool_decide as Hrel.
  - intros (_ & Habs & _). by rewrite Habs, orb_true_r.
  - intros ->. case_bool_decide; cbn [negb orb]; [|done]. case_bool_decide; cbn [orb]; [done|].
    destruct (IsAbs (Source v)); [done|]. tauto.
Qed.

Lemma withDownward_again s :
  (∀ k, EnvMap (environment s) !! k = None → downwardEnabled cfg = true → downwardValue names stackName k = None) →
  withDownward names cfg stackName s = s.
Proof.
  intros Hset. unfold withDownward. destruct (downwardEnabled cfg); [|done]. unfold addServiceDownward.
  pose proof (addVariables_lookup names stackName (downwardEnvironment names) (EnvMap (environment s)) false) as Hl.
  destruct (addVariables _ _ _ _ _) as [m ch]. cbn [fst] in *.
  assert (m = EnvMap (environment s)) as ->.
  { apply map_eq. intros k. rewrite Hl. destruct (EnvMap (environment s) !! k) eqn:Hk; [done|]. by apply Hset. }
  by destruct s as [? ? ? ? ? [] ? ?].
Qed.

Lemma prepareService_again s :
  IsAbs baseDir = true →
  prepareService names cfg stackName baseDir (prepareService names cfg stackName baseDir s) =
  prepareService names cfg stackName baseDir s.
Proof.
  intros Hbase. pose proof (prepareService_spec names cfg stackName baseDir s Hbase) as [Hvars Hfiles Hlabels Hvols _].
  set (s' := prepareService names cfg stackName baseDir s) in *. clearbody s'. unfold prepareService. cbv zeta.
  assert ((populateService s').1 = s') as -> by (unfold populateService; by rewrite bool_decide_eq_true_2).
  assert (map (normalizeVolume baseDir) (serviceVolumes s') = serviceVolumes s') as ->.
  { clear -Hvols. induction Hvols as [|v v' l l' Hv _ IH]; [done|]. cbn [map]. rewrite IH.
    by rewrite (mountedAt_again _ _ Hv). }
  assert (withVolumes s' (serviceVolumes s') = s') as -> by by destruct s'.
  rewrite withDownward_again.
  - destruct s' as [[? ? ? ? ls] ? ? ? ? ? ? ?]. cbn in Hlabels. subst ls. cbn.
    unfold ServiceManagedLabelValue, setDeployLabels. cbn. by rewrite insert_insert_eq.
  - intros k Hk Hen. rewrite Hvars in Hk. unfold variableOf in Hk. rewrite Hen in Hk.
    by destruct (EnvMap (environment s) !! k), (fromFiles (envFiles s) k).
Qed.
End Again.

(** ** The preparation *)
Section Preparation.
Context `{GopipeLaws} (parseReference : string → option Reference) (names : DownwardNames)
  (sha256_hex : string → string).
Context (configRange : gmap string ConfigObject → list string) (secretRange : gmap string SecretObject → list string).
Context (cfg : PreparationSpec) (stackName : string).
Local Notation Prepare := (PrepareFile parseReference names sha256_hex configRange secretRange cfg stackName).

Lemma Prepare_ok f f' :
  Prepare f = (None, f') →
  checkImagePolicy parseReference (imagePolicy cfg) f = None ∧
  docServices (document f') = map (prepareService names cfg stackName (Dir (composePath f))) (docServices (document f)) ∧
  composePath f' = composePath f ∧ docNetworks (document f') = docNetworks (document f) ∧
  composeDigest f' = composeDigest f ∧ ResourceDigests f' = ResourceDigests f ∧
  if rotationEnabled cfg
  then ∃ ch, Rotate sha256_hex configRange secretRange (docObjects (document f)) stackName (HashLength cfg)
               (IncludePath cfg) = (Ok ch, docObjects (document f'))
  else docObjects (document f') = docObjects (document f).
Proof.
  rewrite PrepareFile_spec. destruct (checkImagePolicy _ _ _); [done|].
  destruct (rotationEnabled cfg); [|by intros [= <-]].
  unfold rotated. cbn [prepareServices withServices document docObjects].
  destruct (Rotate _ _ _ _ _ _ _) as [[ch|e] objects] eqn:Hrot; [|done]. intros [= <-]. cbn.
  repeat (split; [done|]). by exists ch.
Qed.
End Preparation.


(** What was loaded prepares. A definition that the loader returned has the content of
    its configs and secrets, so its preparation fails only over images: it succeeds exactly
    when the policy allows every image, and otherwise the step that checks images fails
    with at least one issue and nothing in the definition has changed. *)
Theorem loaded_definition_prepares `{GopipeLaws} parseReference names sha256_hex configRange secretRange cfg stackName
    readAt decode workingDir revision composeFile f
    (Hload : LoadFile sha256_hex readAt decode workingDir revision composeFile = Ok f) :
  let '(err, f') := PrepareFile parseReference names sha256_hex configRange secretRange cfg stackName f in
  composePath f = Join workingDir composeFile ∧
  (err = None ↔ imagesAllowed parseReference (imagePolicy cfg) (docServices (document f))) ∧
  match err with
  | None => True
  | Some e => ∃ issues, e = ("check image policy", ImagesRejected (composePath f) issues) ∧ issues ≠ [] ∧ f' = f
  end.
Proof.
  unfold LoadFile in Hload. destruct (Load _ _ _ _) as [g|] eqn:Hg; [|done]. inversion Hload; subst f; clear Hload.
  apply Load_objects in Hg. rewrite PrepareFile_spec.
  set (f := {| composePath := Join workingDir composeFile; document := document g; composeDigest := composeDigest g;
               ResourceDigests := ResourceDigests g |}).
  pose proof (imagePolicy_ok parseReference (imagePolicy cfg) f) as Himages.
  destruct (checkImagePolicy parseReference (imagePolicy cfg) f) as [e|] eqn:He.
  - split; [done|]. split; [by rewrite <- Himages|]. unfold checkImagePolicy in He. cbv zeta in He.
    case_bool_decide as Hi; [done|]. inversion He; subst e. eauto.
  - destruct (rotationEnabled cfg); [|by rewrite <- Himages].
    destruct (Rotate_loaded sha256_hex configRange secretRange (docObjects (document f)) stackName (HashLength cfg)
      (IncludePath cfg) Hg) as (ch & objects & Hrot).
    unfold rotated. cbn [prepareServices withServices document docObjects]. rewrite Hrot.
    by rewrite <- Himages.
Qed.

(** Preparing twice is preparing once: a prepared definition, whose path is rooted, is
    prepared again without an error and stays as it is, the names of its rotated objects and
    the order of its variables included. *)
Theorem preparation_is_idempotent `{GopipeLaws} parseReference names sha256_hex configRange secretRange cfg stackName f
    f' (Hpath : IsAbs (composePath f) = true)
    (Hranges : (∀ m, enumerates (configRange m) m) ∧ (∀ m, enumerates (secretRange m) m))
    (Hrun : PrepareFile parseReference names sha256_hex configRange secretRange cfg stackName f = (None, f')) :
  PrepareFile parseReference names sha256_hex configRange secretRange cfg stackName f' = (None, f').
Proof.
  destruct Hranges as [Hconfigs Hsecrets].
  apply Prepare_ok in Hrun as (Himages%imagePolicy_ok & Hservices & Hp & _ & _ & _ & Hobjects).
  apply Dir_abs in Hpath. rewrite PrepareFile_spec, (proj2 (imagePolicy_ok _ _ _)).
  - assert (prepareServices names cfg stackName f' = f') as Hf'.
    { unfold prepareServices. rewrite Hservices, Hp, map_map.
      rewrite (map_ext _ (prepareService names cfg stackName (Dir (composePath f))));
        [|intros s; by apply prepareService_again].
      rewrite <- Hservices. apply withServices_id. }
    rewrite Hf'. destruct (rotationEnabled cfg); [|done]. destruct Hobjects as [ch Hrot].
    destruct (Rotate_again _ _ _ _ _ _ _ _ _ (Hconfigs _) (Hsecrets _) Hrot) as [ch' Hagain].
    unfold rotated. rewrite Hagain. by destruct f' as [? [] ? ?].
  - rewrite Hservices. intros s' (s & -> & Hs)%list_elem_of_fmap.
    destruct (prepared_rest _ _ _ _ _ _ (prepareService_spec names cfg stackName _ s Hpath))
      as (_ & _ & _ & _ & -> & _ & _ & ->). by apply Himages.
Qed.

Module PreparationExample.
Import Ordered RotationExample.
#[local] Existing Instance gopipe.
#[local] Existing Instance gopipeLaws.

(** References with a tag behind [:] or a digest behind [@]. *)
Definition parse (s : string) : option Reference :=
  if bool_decide (s = "") then None
  else Some {| hasDigest := contains "@" s; tagOf := (splitPair ":" s).2 |}.
Definition names : DownwardNames :=
  {| EnvStackName := "STACK"; EnvServiceID := "SERVICE_ID"; EnvServiceName := "SERVICE"; EnvTaskID := "TASK_ID";
     EnvTaskName := "TASK"; EnvTaskSlot := "SLOT"; EnvNodeID := "NODE_ID"; EnvNodeName := "NODE" |}.
Definition cfg : PreparationSpec :=
  {| imagePolicy := {| Required := true; NoLatest := true; OnlySHA := false |}; downwardEnabled := true;
     rotationEnabled := true; HashLength := 8; IncludePath := false |}.

Definition mount (source : string) : ServiceVolume := shortVolume "bind" source "/data".
Definition api (image : string) : ComposeService :=
  {| desired := {| desiredName := "api"; desiredImage := image; deployMode := ""; deployReplicas := None;
                   deployLabels := {[ "team" := "shop" ]} |};
     serviceImage := image; serviceNetworks := None; configRefs := [];
     envFiles := [{| envPath := "a.env"; Variables := ∅ |}; {| envPath := "b.env"; Variables := ∅ |}];
     environment := {| Unset := []; EnvMap := {[ "PORT" := "80" ]}; Keys := ["PORT"]; isMap := true |};
     initJobs := []; serviceVolumes := [Some (mount "./data")] |}.
Definition shop (image : string) : ComposeDocument :=
  {| docServices := [api image]; docNetworks := ∅;
     docObjects := {| Configs := {["app" := {| configName := ""; configFile := "app.conf"; configData := None;
                                               configTemplateDriver := ""; configLabels := ∅;
                                               configExternal := false |}]}; Secrets := ∅ |} |}.
Definition readAt (_ path : string) : Result string string :=
  if bool_decide (path = "stacks/a.env") then Ok "LEVEL=info
PORT=1"
  else if bool_decide (path = "stacks/b.env") then Ok "LEVEL=debug"
  else if bool_decide (path = "stacks/app.conf") then Ok "v1" else Ok "services: {}".
Definition loadShop (image : string) : Result loadError ComposeFile :=
  LoadFile digest readAt (λ _ _, Ok (shop image)) "/repo" "c1" "stacks/shop.yaml".
Definition prepareShop (f : ComposeFile) : option (string * preparationError) * ComposeFile :=
  PrepareFile parse names digest keys keys cfg "shop" f.
Definition nothing : ComposeFile :=
  {| composePath := ""; document := shop ""; composeDigest := ""; ResourceDigests := ∅ |}.
Definition loaded (image : string) : ComposeFile := match loadShop image with Ok f => f | Err _ => nothing end.

Example prepared_values :
  let f := (prepareShop (loaded "api:1.2")).2 in
  map (λ s, (map ((EnvMap (environment s)) !!.) ["PORT"; "LEVEL"; "STACK"; "SLOT"],
             map (option_map Source) (serviceVolumes s))) (docServices (document f)) =
  [([Some "80"; Some "debug"; Some "shop"; Some "{{.Task.Slot}}"], [Some "/repo/stacks/data"])] ∧
  configName <$> (Configs (docObjects (document f)) !! "app") = Some "shop-app-hv1".
Proof. vm_compute. done. Qed.


Lemma loaded_definition_prepares_witness :
  (∃ issues, prepareShop (loaded "api") =
     (Some ("check image policy", ImagesRejected "/repo/stacks/shop.yaml" issues), loaded "api") ∧ issues ≠ []) ∧
  (prepareShop (loaded "api:1.2")).1 = None.
Proof.
  split; [|vm_compute; reflexivity].
  pose proof (loaded_definition_prepares parse names digest keys keys cfg "shop" readAt (λ _ _, Ok (shop "api"))
    "/repo" "c1" "stacks/shop.yaml" (loaded "api") ltac:(vm_compute; reflexivity)) as Hall.
  fold (prepareShop (loaded "api")) in Hall.
  assert ((prepareShop (loaded "api")).1 ≠ None) as Hne by (vm_compute; discriminate).
  destruct (prepareShop (loaded "api")) as [[e|] f']; [|by destruct Hne].
  destruct Hall as (_ & _ & issues & -> & Hi & ->). exists issues. split; [|exact Hi]. repeat f_equal.
Defined.

Lemma preparation_is_idempotent_witness :
  let f' := (prepareShop (loaded "api:1.2")).2 in prepareShop f' = (None, f').
Proof.
  apply (preparation_is_idempotent parse names digest keys keys cfg "shop" (loaded "api:1.2")).
  - vm_compute. reflexivity.
  - split; apply keys_enumerate.
  - vm_compute. reflexivity.
Defined.
End PreparationExample.
