(* ===== verification/Triggers.v ===== *)
(** * Triggers of a synchronization ([gitops/controller/scheduler], [gitops/controller/controller.go],
      [entrypoints/webhookserver], [config/webhook.go])

    A webhook that authenticates, a user or a ticker schedules a task; one loop runs the
    tasks, the polls and the cleanups, one at a time. The channel holds at most one task. The
    rate limiter of a library is [Allow], the keyed hash is [hmac_sha256], and the event
    dispatcher is [Publish]. *)
From S2P Require Import Prelude GoStrings GoEncoding SyncRun.
From Stdlib Require Import QArith.
Local Open Scope go_scope.
Local Open Scope Z_scope.

(** ** Strings of the standard library *)
(** [strings.Fields]; every round drops at least one byte. *)
Fixpoint fieldsFrom (fuel : nat) (s word : string) : list string :=
  let flush := if bool_decide (word = "") then [] else [word] in
  match fuel with
  | O => flush
  | S fuel =>
      match s with
      | EmptyString => flush
      | String c rest =>
          match find_prefix white_space s with
          | Some p => flush ++ fieldsFrom fuel (string_drop (String.length p) s) ""
          | None => fieldsFrom fuel rest (word +:+ String c "")
          end
      end
  end.
Definition Fields (s : string) : list string := fieldsFrom (S (String.length s)) s "".

(** [hex.DecodeString] *)
Definition hexValue (c : Ascii.ascii) : option N :=
  let n := Ascii.N_of_ascii c in
  if ((48 <=? n) && (n <=? 57))%N then Some (n - 48)%N
  else if ((97 <=? n) && (n <=? 102))%N then Some (n - 87)%N
  else if ((65 <=? n) && (n <=? 70))%N then Some (n - 55)%N
  else None.
Fixpoint hexDecode (s : string) : option string :=
  match s with
  | EmptyString => Some EmptyString
  | String a (String b s) =>
      match hexValue a, hexValue b, hexDecode s with
      | Some x, Some y, Some t => Some (String (Ascii.ascii_of_N (16 * x + y)) t)
      | _, _, _ => None
      end
  | String _ EmptyString => None
  end.

Example fields_and_hex :
  Fields "  Bearer	s3cret " = ["Bearer"; "s3cret"] ∧ hexDecode "4a4B" = Some "JK" ∧ hexDecode "4g" = None.
Proof. vm_compute. done. Qed.

(** ** Configuration ([config/webhook.go]) *)
Definition WebhookAuthTypeGitHub : string := "github".
Definition WebhookAuthTypeHeader : string := "header".
Definition WebhookAuthTypeBearer : string := "bearer".
Definition IsSupported (t : string) : bool :=
  bool_decide (t ∈ [WebhookAuthTypeGitHub; WebhookAuthTypeHeader; WebhookAuthTypeBearer]).

(** [config.WebhookAuthSpec], with the content of the secret's file. *)
Record WebhookAuthSpec := { authType : string; Secret : string; Header : string }.
(** A finite number of requests per second. *)
Record WebhookRateLimitSpec := { RequestsPerSecond : Q; Burst : Z }.
Record WebhookSpec := {
  webhookEnabled : bool; webhookPath : string; Auth : list WebhookAuthSpec; RateLimit : WebhookRateLimitSpec;
  MaxBodyBytes : Z;
}.

Definition defaultWebhookRateLimitRequestsPerSecond : Q := 5.
Definition defaultWebhookRateLimitBurst : Z := 10.
Definition defaultWebhookMaxBodyBytes : Z := 1048576.

Definition applyWebhookDefaults (c : WebhookSpec) : WebhookSpec :=
  {| webhookEnabled := webhookEnabled c; webhookPath := webhookPath c; Auth := Auth c;
     RateLimit := {| RequestsPerSecond := if Qeq_bool (RequestsPerSecond (RateLimit c)) 0
                                          then defaultWebhookRateLimitRequestsPerSecond
                                          else RequestsPerSecond (RateLimit c);
                     Burst := if bool_decide (Burst (RateLimit c) = 0) then defaultWebhookRateLimitBurst
                              else Burst (RateLimit c) |};
     MaxBodyBytes := if bool_decide (MaxBodyBytes c = 0) then defaultWebhookMaxBodyBytes else MaxBodyBytes c |}.

Definition validateWebhookAuth (i : nat) (auth : WebhookAuthSpec) : list string :=
  let path := "gitops.sync.webhook.auth[" +:+ FormatInt (Z.of_nat i) +:+ "]" in
  if negb (IsSupported (authType auth))
  then [path +:+ ".type must be one of github|header|bearer, got " +:+ quoted (authType auth)]
  else
    (if bool_decide (trim_space (Secret auth) = "") then [path +:+ ".secretPath contains empty secret"] else []) ++
    (if bool_decide (authType auth = WebhookAuthTypeHeader) && bool_decide (trim_space (Header auth) = "")
     then [path +:+ ".header is required for type=header"] else []).

Definition validateWebhook (c : WebhookSpec) : list string :=
  if negb (webhookEnabled c) then []
  else
    (if bool_decide (Auth c = []) then ["gitops.sync.webhook.auth must contain at least one authentication method"]
     else []) ++
    concat (imap validateWebhookAuth (Auth c)) ++
    (if bool_decide (MaxBodyBytes c <= 0) then ["gitops.sync.webhook.maxBodyBytes must be > 0"] else []) ++
    (if Qle_bool (RequestsPerSecond (RateLimit c)) 0
     then ["gitops.sync.webhook.rateLimit.requestsPerSecond must be > 0"] else []) ++
    (if bool_decide (Burst (RateLimit c) <= 0) then ["gitops.sync.webhook.rateLimit.burst must be > 0"] else []).

(** ** Authenticators *)
(** The value of a header, "" when it is not sent; the body, and whether it was read to the
    end without a fault of the connection. *)
Record WebhookRequest := {
  Method : string; HeaderGet : string → string; bodyBytes : string; bodyComplete : bool;
}.

Inductive authError := ErrValueNotProvided | NotAuthorized (text : string).

Section Authenticators.
Context (hmac_sha256 : string → string → string).

Definition validateSignature (secret signature body : string) : option authError :=
  if bool_decide (signature = "") then Some ErrValueNotProvided
  else
    let invalid algorithm := Some (NotAuthorized ("invalid secret, got: " +:+ quoted algorithm)) in
    match Cut "=" (trim_space signature) with
    | None => invalid (trim_space signature)
    | Some (algorithm, encodedSignature) =>
        if negb (bool_decide (algorithm = "sha256")) then invalid algorithm
        else match hexDecode encodedSignature with
             | None => Some (NotAuthorized "decode signature")
             | Some actualSignature =>
                 if bool_decide (actualSignature = hmac_sha256 secret body) then None
                 else Some (NotAuthorized "unexpected signature")
             end
    end.

(** The three authenticators: a signature of the body, a value, or a bearer token. *)
Inductive Authenticator :=
| HmacSHA256Authenticator (header secret : string)
| HeaderAuthenticator (header secret : string)
| BearerAuthenticator (secret : string).

Definition NewGitHubAuthenticator (secret : string) : Authenticator :=
  HmacSHA256Authenticator "X-Hub-Signature-256" secret.

Definition authenticateHeader (header secret : string) (r : WebhookRequest) : option authError :=
  let headerValue := HeaderGet r header in
  if bool_decide (headerValue = "") then Some ErrValueNotProvided
  else if bool_decide (headerValue = secret) then None else Some (NotAuthorized "unexpected value").

Definition authenticateBearer (secret : string) (r : WebhookRequest) : option authError :=
  let headerValue := HeaderGet r "Authorization" in
  if bool_decide (headerValue = "") then Some ErrValueNotProvided
  else match Fields headerValue with
       | [scheme; token] =>
           if negb (equal_fold scheme "Bearer") then Some (NotAuthorized "invalid authorization header")
           else if bool_decide (token = secret) then None else Some (NotAuthorized "unexpected value")
       | _ => Some (NotAuthorized "invalid authorization header")
       end.

Definition AuthenticateOne (a : Authenticator) (r : WebhookRequest) : option authError :=
  match a with
  | HmacSHA256Authenticator header secret => validateSignature secret (HeaderGet r header) (bodyBytes r)
  | HeaderAuthenticator header secret => authenticateHeader header secret r
  | BearerAuthenticator secret => authenticateBearer secret r
  end.

(** [ComposeAuthenticator.Authenticate]: the first method that passes. *)
Fixpoint Authenticate (authenticators : list Authenticator) (r : WebhookRequest) : option authError :=
  match authenticators with
  | [] => Some (NotAuthorized "not authorized")
  | a :: authenticators =>
      match AuthenticateOne a r with Some _ => Authenticate authenticators r | None => None end
  end.

Definition newMethod (m : WebhookAuthSpec) : Result string Authenticator :=
  if bool_decide (authType m = WebhookAuthTypeBearer) then Ok (BearerAuthenticator (Secret m))
  else if bool_decide (authType m = WebhookAuthTypeGitHub) then Ok (NewGitHubAuthenticator (Secret m))
  else if bool_decide (authType m = WebhookAuthTypeHeader) then Ok (HeaderAuthenticator (Header m) (Secret m))
  else Err ("unknown authentication type " +:+ quoted (authType m)).

Fixpoint NewAuthenticator (methods : list WebhookAuthSpec) : Result string (list Authenticator) :=
  match methods with
  | [] => Ok []
  | m :: methods =>
      match newMethod m with
      | Err e => Err e
      | Ok a => match NewAuthenticator methods with Err e => Err e | Ok l => Ok (a :: l) end
      end
  end.
End Authenticators.

(** ** The scheduler *)
(** [config.SyncMode] and the parts of the configuration that start tickers. *)
Inductive SyncMode := SyncModePull | SyncModeWebhook | SyncModeHybrid.
#[export] Instance SyncMode_eq_dec : EqDecision SyncMode.
Proof. solve_decision. Defined.
Record SchedulerSpec := { Mode : SyncMode; CleanupEnabled : bool }.

(** Where the loop of [Scheduler.Run] stands: before its start, before and after it has set
    [active], at the check of [shutdown], in the select, in a call of the runner, or returned. *)
Inductive loopState := LInitial | LStarting | LHead | LSelect | LRun (task : Task) | LPoll | LCleanup | LReturned.

(** [Scheduler]: the channel of one task, the two flags; and the loop. *)
Record Scheduler := { channel : option Task; shutdown : bool; active : bool; loop : loopState }.
Definition queueCapacity : nat := 1.
Definition NewScheduler : Scheduler := {| channel := None; shutdown := false; active := false; loop := LInitial |}.

Definition channelLength (s : Scheduler) : nat := match channel s with Some _ => 1%nat | None => 0%nat end.
Definition setChannel (s : Scheduler) (c : option Task) : Scheduler :=
  {| channel := c; shutdown := shutdown s; active := active s; loop := loop s |}.
Definition setLoop (s : Scheduler) (l : loopState) : Scheduler :=
  {| channel := channel s; shutdown := shutdown s; active := active s; loop := l |}.

(** [Scheduler.Schedule]: a send that does not block. *)
Definition Schedule (task : Task) (s : Scheduler) : bool * Scheduler :=
  if shutdown s || negb (active s) then (false, s)
  else if (channelLength s <? queueCapacity)%nat then (true, setChannel s (Some task)) else (false, s).

Definition Shutdown (s : Scheduler) : Scheduler :=
  {| channel := channel s; shutdown := true; active := active s; loop := loop s |}.

(** The calls of the runner that begin. *)
Inductive event := Ran (task : Task) | Polled | CleanedUp.

Definition startupTask : Task := {| TriggeredBy := ""; Reason := TriggerStartup |}.
Definition intervalTask : Task := {| TriggeredBy := ""; Reason := TriggerInterval |}.

(** [s.active.Store(true)], and the first task. *)
Definition begin (s : Scheduler) : Scheduler :=
  {| channel := channel s; shutdown := shutdown s; active := true; loop := LStarting |}.
Definition scheduleStartup (s : Scheduler) : Scheduler := setLoop (Schedule startupTask s).2 LHead.
(** The deferred [active.Store(false)]. *)
Definition return_ (s : Scheduler) : Scheduler :=
  {| channel := channel s; shutdown := shutdown s; active := false; loop := LReturned |}.
Definition checkShutdown (s : Scheduler) : Scheduler := if shutdown s then return_ s else setLoop s LSelect.

(** A received task; after a shutdown it is dropped. *)
Definition receive (task : Task) (s : Scheduler) : list event * Scheduler :=
  let s := setChannel s None in
  if shutdown s then ([], setLoop s LHead) else ([Ran task], setLoop s (LRun task)).
Definition onPollTick (s : Scheduler) : list event * Scheduler :=
  if shutdown s then ([], setLoop s LHead) else ([Polled], setLoop s LPoll).
Definition onReconcileTick (s : Scheduler) : Scheduler :=
  setLoop (if shutdown s then s else (Schedule intervalTask s).2) LHead.
Definition onCleanupTick (s : Scheduler) : list event * Scheduler :=
  if shutdown s then ([], setLoop s LHead) else ([CleanedUp], setLoop s LCleanup).

Definition polls (cfg : SchedulerSpec) : bool :=
  bool_decide (Mode cfg = SyncModePull) || bool_decide (Mode cfg = SyncModeHybrid).

(** One step of the loop, with the calls that begin in it, or one of the other goroutines: a
    request for a task or a shutdown. *)
Inductive sched_step (cfg : SchedulerSpec) : Scheduler → list event → Scheduler → Prop :=
| st_begin s : loop s = LInitial → sched_step cfg s [] (begin s)
| st_startup s : loop s = LStarting → sched_step cfg s [] (scheduleStartup s)
| st_head s : loop s = LHead → sched_step cfg s [] (checkShutdown s)
| st_done s : loop s = LSelect → sched_step cfg s [] (return_ (Shutdown s))
| st_task s task : loop s = LSelect → channel s = Some task → sched_step cfg s (receive task s).1 (receive task s).2
| st_poll s : loop s = LSelect → polls cfg = true → sched_step cfg s (onPollTick s).1 (onPollTick s).2
| st_reconcile s : loop s = LSelect → sched_step cfg s [] (onReconcileTick s)
| st_cleanup s :
    loop s = LSelect → CleanupEnabled cfg = true → sched_step cfg s (onCleanupTick s).1 (onCleanupTick s).2
| st_finished s : (∃ task, loop s = LRun task) ∨ loop s = LPoll ∨ loop s = LCleanup → sched_step cfg s [] (setLoop s LHead)
| st_schedule s task : sched_step cfg s [] (Schedule task s).2
| st_shutdown s : sched_step cfg s [] (Shutdown s).

Inductive sched_run (cfg : SchedulerSpec) : Scheduler → list event → Scheduler → Prop :=
| run_nil s : sched_run cfg s [] s
| run_cons s es s' es' s'' : sched_step cfg s es s' → sched_run cfg s' es' s'' → sched_run cfg s (es ++ es') s''.

(** ** The controller and the webhook server *)
Section Server.
Context (hmac_sha256 : string → string → string).
Context {L : Type} (Allow : L → bool * L).
(** [event.Publish] of [WebhookReceived]. *)
Context {B : Type} (Publish : bool → B → option string * B).

Record Server := { limiter : L; scheduler : Scheduler; bus : B }.

(** [Controller.Manual] *)
Definition Manual (userName : string) (s : Server) : bool * Server :=
  let '(queued, sch) := Schedule {| TriggeredBy := userName; Reason := TriggerManual |} (scheduler s) in
  (queued, {| limiter := limiter s; scheduler := sch; bus := bus s |}).

(** [Controller.Webhook] *)
Definition Webhook (s : Server) : (bool * option string) * Server :=
  let '(queued, sch) := Schedule {| TriggeredBy := ""; Reason := TriggerWebhook |} (scheduler s) in
  let '(err, b) := Publish queued (bus s) in
  ((queued, err), {| limiter := limiter s; scheduler := sch; bus := b |}).

Inductive bodyError := MaxBytesError | ReadFault.

(** [readBody]: a body longer than the limit is an error, whatever comes behind the limit. *)
Definition readBody (r : WebhookRequest) (maxBodyBytes : Z) : Result bodyError string :=
  if maxBodyBytes <? Z.of_nat (String.length (bodyBytes r)) then Err MaxBytesError
  else if bodyComplete r then Ok (bodyBytes r) else Err ReadFault.

Definition StatusAccepted : Z := 202.
Definition StatusBadRequest : Z := 400.
Definition StatusUnauthorized : Z := 401.
Definition StatusMethodNotAllowed : Z := 405.
Definition StatusRequestEntityTooLarge : Z := 413.
Definition StatusTooManyRequests : Z := 429.
Definition StatusServiceUnavailable : Z := 503.

(** [Application.handleGitWebhook]: the status, and [queued] of the answer. *)
Definition handleGitWebhook (cfg : WebhookSpec) (authenticators : list Authenticator) (r : WebhookRequest) (s : Server)
    : (Z * option bool) * Server :=
  if negb (bool_decide (Method r = "POST")) then ((StatusMethodNotAllowed, None), s)
  else
    let '(allowed, l) := Allow (limiter s) in
    let s := {| limiter := l; scheduler := scheduler s; bus := bus s |} in
    if negb allowed then ((StatusTooManyRequests, None), s)
    else match readBody r (MaxBodyBytes cfg) with
         | Err MaxBytesError => ((StatusRequestEntityTooLarge, None), s)
         | Err ReadFault => ((StatusBadRequest, None), s)
         | Ok body =>
             match Authenticate hmac_sha256 authenticators r with
             | Some _ => ((StatusUnauthorized, None), s)
             | None =>
                 let '((queued, err), s) := Webhook s in
                 match err with
                 | Some _ => ((StatusServiceUnavailable, Some queued), s)
                 | None => ((StatusAccepted, Some queued), s)
                 end
             end
         end.
End Server.
