(* ===== verification/TriggersSafety.v ===== *)
(** * What the triggers promise

    A webhook request reaches the scheduler exactly when it presents the credentials of a
    configured method, and a request that is made while the scheduler is active is followed
    by a run that begins after it. *)
From S2P Require Import Prelude GoStrings GoEncoding SyncRun Triggers.
Local Open Scope go_scope.
Local Open Scope Z_scope.

(** ** Credentials *)
Section Credentials.
Context (hmac_sha256 : string → string → string).

(** The request carries what a method asks for. *)
Definition presents (m : WebhookAuthSpec) (r : WebhookRequest) : Prop :=
  if bool_decide (authType m = WebhookAuthTypeGitHub) then
    ∃ encoded, trim_space (HeaderGet r "X-Hub-Signature-256") = "sha256=" +:+ encoded ∧
      hexDecode encoded = Some (hmac_sha256 (Secret m) (bodyBytes r))
  else if bool_decide (authType m = WebhookAuthTypeBearer) then
    ∃ scheme, Fields (HeaderGet r "Authorization") = [scheme; Secret m] ∧ equal_fold scheme "Bearer" = true
  else HeaderGet r (Header m) = Secret m.

(** A method that the configuration accepts. *)
Definition validMethod (m : WebhookAuthSpec) : Prop :=
  IsSupported (authType m) = true ∧ trim_space (Secret m) ≠ "".

Lemma valid_config cfg m :
  webhookEnabled cfg = true → validateWebhook cfg = [] → m ∈ Auth cfg → validMethod m.
Proof.
  unfold validateWebhook. intros -> Hv Hm. cbn [negb] in Hv.
  apply app_eq_nil in Hv as [_ [Hv _]%app_eq_nil].
  apply list_elem_of_lookup in Hm as [i Hi].
  assert (validateWebhookAuth i m = []) as Hnil.
  { destruct (validateWebhookAuth i m) as [|e l] eqn:He; [done|].
    assert (e ∈ concat (imap validateWebhookAuth (Auth cfg))) as Hin.
    { apply list_elem_of_In, in_concat. exists (e :: l). split; [|by left].
      apply list_elem_of_In, list_elem_of_lookup. exists i. rewrite list_lookup_imap, Hi. cbn. by rewrite He. }
    rewrite Hv in Hin. by apply elem_of_nil in Hin. }
  unfold validateWebhookAuth in Hnil. cbv zeta in Hnil. unfold validMethod.
  destruct (IsSupported (authType m)); [|done]. cbn [negb] in Hnil.
  apply app_eq_nil in Hnil as [Hs _]. by case_bool_decide.
Qed.

Lemma validateSignature_ok secret signature body :
  validateSignature hmac_sha256 secret signature body = None ↔
  ∃ encoded, trim_space signature = "sha256=" +:+ encoded ∧ hexDecode encoded = Some (hmac_sha256 secret body).
Proof.
  unfold validateSignature. cbv zeta. case_bool_decide as Hs.
  { subst. split; [done|]. by intros (encoded & Ht & _). }
  split.
  - destruct (Cut "=" (trim_space signature)) as [[algorithm encoded]|] eqn:Hc; [|done].
    case_bool_decide as Ha; cbn [negb]; [|done]. subst algorithm.
    destruct (hexDecode encoded) as [actual|] eqn:Hd; [|done]. case_bool_decide; [|done]. subst actual. intros _.
    exists encoded. split; [|done]. by apply Cut_spec in Hc as [-> _].
  - intros (encoded & -> & Hd). change ("sha256=" +:+ encoded) with ("sha256" +:+ String "=" encoded).
    rewrite Cut_app by (apply (bool_decide_eq_true_1 (without _ _)); vm_compute; reflexivity).
    rewrite bool_decide_eq_true_2 by done. cbn [negb]. rewrite Hd. by rewrite bool_decide_eq_true_2.
Qed.

Lemma authenticateBearer_ok secret r :
  authenticateBearer secret r = None ↔
  ∃ scheme, Fields (HeaderGet r "Authorization") = [scheme; secret] ∧ equal_fold scheme "Bearer" = true.
Proof.
  unfold authenticateBearer. cbv zeta. case_bool_decide as Hh.
  { rewrite Hh. split; [done|]. by intros (scheme & Hf & _). }
  split.
  - destruct (Fields _) as [|scheme [|token [|? ?]]]; try done.
    destruct (equal_fold scheme "Bearer") eqn:He; [|done]. cbn [negb]. case_bool_decide; [|done]. subst. eauto.
  - intros (scheme & -> & ->). cbn [negb]. by rewrite bool_decide_eq_true_2.
Qed.

Lemma newMethod_spec m r :
  validMethod m → ∃ a, newMethod m = Ok a ∧ (AuthenticateOne hmac_sha256 a r = None ↔ presents m r).
Proof.
  intros [Hs%bool_decide_eq_true_1 Hsecret]. unfold newMethod, presents.
  assert (Secret m ≠ "") as Hne by (by intros He; rewrite He in Hsecret).
  rewrite !elem_of_cons, elem_of_nil in Hs. destruct Hs as [->|[->|[->|[]]]]; cbn.
  - eexists. split; [done|]. apply validateSignature_ok.
  - eexists. split; [done|]. cbn [AuthenticateOne]. unfold authenticateHeader. cbv zeta.
    case_bool_decide as Hh; [split; [done|congruence]|]. by case_bool_decide.
  - eexists. split; [done|]. apply authenticateBearer_ok.
Qed.

Lemma NewAuthenticator_spec methods r :
  Forall validMethod methods →
  ∃ l, NewAuthenticator methods = Ok l ∧
    (Authenticate hmac_sha256 l r = None ↔ ∃ m, m ∈ methods ∧ presents m r).
Proof.
  intros Hall. induction Hall as [|m methods Hm Hall (l & Hl & Hiff)]; cbn [NewAuthenticator].
  { exists []. split; [done|]. split; [done|]. by intros (m & ?%elem_of_nil & _). }
  destruct (newMethod_spec m r Hm) as (a & -> & Ha). rewrite Hl. exists (a :: l). split; [done|].
  cbn [Authenticate]. destruct (AuthenticateOne hmac_sha256 a r) as [e|].
  - rewrite Hiff. split; [intros (m' & ? & ?); exists m'; split; [by right|done]|].
    intros (m' & [->|Hin]%elem_of_cons & Hp); [by apply Ha in Hp|eauto].
  - split; [|done]. intros _. exists m. split; [left|by apply Ha].
Qed.
End Credentials.


(** ** The scheduler *)
Section Scheduler.
Context (cfg : SchedulerSpec).

Lemma Schedule_shutdown task s : shutdown (Schedule task s).2 = shutdown s.
Proof. unfold Schedule. destruct (_ || _); [done|]. by case_match. Qed.

Lemma Schedule_channel task s pending :
  channel s = Some pending → (Schedule task s).2 = s.
Proof. intros Hc. unfold Schedule. destruct (_ || _); [done|]. unfold channelLength. by rewrite Hc. Qed.

(** A task in the channel stays until the loop receives it. *)
Lemma step_pending s es s' pending :
  sched_step cfg s es s' → channel s = Some pending →
  channel s' = Some pending ∨ shutdown s' = true ∨ Ran pending ∈ es.
Proof.
  intros Hs Hc. destruct Hs; auto; unfold scheduleStartup, onReconcileTick, checkShutdown, receive, onPollTick, onCleanupTick in *.
  - left. cbn. by erewrite Schedule_channel.
  - left. by destruct (shutdown s).
  - simplify_eq. cbn. destruct (shutdown s) eqn:Hsd; [right; left; done|right; right; left].
  - left. by destruct (shutdown s).
  - left. destruct (shutdown s); [done|]. cbn. by erewrite Schedule_channel.
  - left. by destruct (shutdown s).
  - left. by erewrite Schedule_channel.
Qed.

(** After a shutdown nothing begins. *)
Lemma step_shutdown s es s' : sched_step cfg s es s' → shutdown s = true → es = [] ∧ shutdown s' = true.
Proof.
  intros Hs Hsd. destruct Hs; auto; unfold scheduleStartup, onReconcileTick, checkShutdown, receive, onPollTick, onCleanupTick; cbn;
    rewrite ?Hsd; cbn; rewrite ?Schedule_shutdown; auto.
Qed.

Lemma run_shutdown s es s' : sched_run cfg s es s' → shutdown s = true → es = [] ∧ shutdown s' = true.
Proof.
  induction 1 as [|s es s1 es1 s2 Hs _ IH]; [done|]. intros Hsd.
  destruct (step_shutdown _ _ _ Hs Hsd) as [-> H1]. destruct (IH H1) as [-> ?]. done.
Qed.

Lemma run_pending s es s' pending :
  sched_run cfg s es s' → channel s = Some pending →
  channel s' = Some pending ∨ shutdown s' = true ∨ Ran pending ∈ es.
Proof.
  induction 1 as [|s es s1 es1 s2 Hs Hr IH]; [auto|]. intros Hc.
  destruct (step_pending _ _ _ _ Hs Hc) as [H1|[H1|H1]].
  - destruct (IH H1) as [|[|]]; auto. right. right. apply elem_of_app. by right.
  - right. left. by apply (run_shutdown _ _ _ Hr).
  - right. right. apply elem_of_app. by left.
Qed.

(** While the flag [active] is set the loop stands between its start and its return. *)
Definition looping (l : loopState) : Prop := l ≠ LInitial ∧ l ≠ LReturned.
Lemma step_looping s es s' :
  sched_step cfg s es s' → (active s = true → looping (loop s)) → active s' = true → looping (loop s').
Proof.
  assert (∀ task s0, active (Schedule task s0).2 = active s0 ∧ loop (Schedule task s0).2 = loop s0) as Hsch.
  { intros task s0. unfold Schedule. destruct (_ || _); [done|]. by case_match. }
  intros Hs Hl. destruct Hs; unfold scheduleStartup, onReconcileTick, checkShutdown, receive, onPollTick, onCleanupTick;
    cbn; try (destruct (shutdown s)); cbn; rewrite ?(proj1 (Hsch _ _)), ?(proj2 (Hsch _ _)); unfold looping; auto; by split.
Qed.

Lemma run_looping s es s' :
  sched_run cfg s es s' → (active s = true → looping (loop s)) → active s' = true → looping (loop s').
Proof. induction 1 as [|s es s1 es1 s2 Hs _ IH]; [done|]. intros Hl. apply IH. intros Ha. by eapply step_looping. Qed.

Lemma run_one s es s' : sched_step cfg s es s' → sched_run cfg s es s'.
Proof. intros Hs. rewrite <- (app_nil_r es). by econstructor; [|constructor]. Qed.

Lemma run_trans s es s' es' s'' : sched_run cfg s es s' → sched_run cfg s' es' s'' → sched_run cfg s (es ++ es') s''.
Proof. induction 1 as [|? ? ? ? ? Hs _ IH]; [done|]. intros Hr. rewrite <- app_assoc. by econstructor; [|apply IH]. Qed.

(** From the select, and from its check, a pending task can be received. *)
Lemma select_runs s pending :
  loop s = LSelect → channel s = Some pending → shutdown s = false → sched_run cfg s [Ran pending] (receive pending s).2.
Proof.
  intros Hl Hc Hsd. pose proof (run_one _ _ _ (st_task cfg s pending Hl Hc)) as Hr.
  unfold receive in *. cbn in *. by rewrite Hsd in *.
Qed.
Lemma head_runs s pending :
  loop s = LHead → channel s = Some pending → shutdown s = false → ∃ s', sched_run cfg s [Ran pending] s'.
Proof.
  intros Hl Hc Hsd. eexists. eapply (run_trans _ []); [apply run_one, st_head, Hl|].
  unfold checkShutdown. rewrite Hsd. by apply select_runs.
Qed.

Lemma pending_can_run s pending :
  looping (loop s) → channel s = Some pending → shutdown s = false → ∃ s', sched_run cfg s [Ran pending] s'.
Proof.
  intros [Hi Hret] Hc Hsd. assert (∀ es s1, sched_step cfg s es s1 → es = [] → loop s1 = LHead → channel s1 = Some pending →
    shutdown s1 = false → ∃ s', sched_run cfg s [Ran pending] s') as Hvia.
  { intros es s1 Hs -> Hl1 Hc1 Hsd1. destruct (head_runs s1 pending Hl1 Hc1 Hsd1) as [s' Hr].
    exists s'. by apply (run_trans _ [] s1), Hr; apply run_one. }
  destruct (loop s) eqn:Hl; try done.
  - eapply Hvia; [by apply st_startup|done|done|..]; cbn; by erewrite Schedule_channel.
  - by apply head_runs.
  - eexists. by apply select_runs.
  - eapply Hvia; [apply st_finished; left; by eexists|done..].
  - eapply Hvia; [apply st_finished; right; by left|done..].
  - eapply Hvia; [apply st_finished; right; by right|done..].
Qed.
End Scheduler.

(** C30. A request for a synchronization is not lost. When a task is scheduled while the
    scheduler is active and not shut down, then afterwards a task is pending, the requested
    one if the request was queued, else one that waited before; in every continuation this
    task stays pending until its run begins, unless the scheduler is shut down, and
    there is a continuation in which it begins; after a shutdown nothing begins any more. *)
Theorem requests_are_followed_by_a_run cfg es s task (Hreach : sched_run cfg NewScheduler es s)
    (Hactive : active s = true) (Hsd : shutdown s = false) :
  let '(queued, s') := Schedule task s in
  queued = bool_decide (channel s = None) ∧
  ∃ pending, channel s' = Some pending ∧ (if queued then pending = task else s' = s) ∧
    (∀ es' s'', sched_run cfg s' es' s'' →
      channel s'' = Some pending ∨ shutdown s'' = true ∨ Ran pending ∈ es') ∧
    (∃ s'', sched_run cfg s' [Ran pending] s'') ∧
    (∀ s1 es' s'', sched_run cfg (Shutdown s1) es' s'' → es' = []).
Proof.
  assert (looping (loop s)) as Hl by by eapply run_looping.
  assert (∀ s1 es' s'', sched_run cfg (Shutdown s1) es' s'' → es' = []) as Hstop.
  { intros s1 es' s'' Hr. by apply (run_shutdown _ _ _ _ Hr). }
  unfold Schedule. rewrite Hactive, Hsd. cbn [negb orb]. unfold channelLength.
  destruct (channel s) as [pending|] eqn:Hc; cbn; (split; [done|]).
  - exists pending. split; [done|]. split; [done|]. split; [intros; by eapply run_pending|].
    split; [by apply pending_can_run|done].
  - exists task. split; [done|]. split; [done|]. split; [intros; by eapply run_pending|].
    split; [by apply pending_can_run|done].
Qed.

Module TriggersExample.

(** A keyed hash that can be computed, and a limiter with a number of requests left. *)
Definition mac (secret body : string) : string := secret +:+ body.
Definition take1 (n : nat) : bool * nat := match n with O => (false, O) | S n => (true, n) end.
Definition publish (queued : bool) (b : list bool) : option string * list bool := (None, queued :: b).

Definition hooks : WebhookSpec :=
  {| webhookEnabled := true; webhookPath := "/hook";
     Auth := [{| authType := "github"; Secret := "K"; Header := "" |};
              {| authType := "bearer"; Secret := "token"; Header := "" |}];
     RateLimit := {| RequestsPerSecond := defaultWebhookRateLimitRequestsPerSecond; Burst := 10 |}; MaxBodyBytes := 16 |}.
Definition request (header value body : string) : WebhookRequest :=
  {| Method := "POST"; HeaderGet := λ h, if bool_decide (h = header) then value else ""; bodyBytes := body;
     bodyComplete := true |}.

(** The scheduler in its first run. *)
Definition running : Scheduler := {| channel := None; shutdown := false; active := true; loop := LRun startupTask |}.
Definition server (n : nat) : @Server nat (list bool) := {| limiter := n; scheduler := running; bus := [] |}.
Definition methods : list Authenticator := [NewGitHubAuthenticator "K"; BearerAuthenticator "token"].
Definition answer (n : nat) (r : WebhookRequest) : Z * option bool :=
  (handleGitWebhook mac take1 publish hooks methods r (server n)).1.

Example answers :
  answer 1 (request "Authorization" "bearer token" "{}") = (202, Some true) ∧
  answer 1 (request "X-Hub-Signature-256" "sha256=4b7b7D" "{}") = (202, Some true) ∧
  answer 1 (request "X-Hub-Signature-256" "sha256=4b7b7D" "{ }") = (401, None) ∧
  answer 1 (request "Authorization" "Basic token" "{}") = (401, None) ∧
  answer 0 (request "Authorization" "bearer token" "{}") = (429, None) ∧
  answer 1 (request "Authorization" "bearer token" "{              }") = (202, Some true) ∧
  answer 1 (request "Authorization" "bearer token" "{               }") = (413, None).
Proof. vm_compute. done. Qed.


Definition anyTime : SchedulerSpec := {| Mode := SyncModeHybrid; CleanupEnabled := true |}.

Lemma running_reachable : sched_run anyTime NewScheduler [Ran startupTask] running.
Proof.
  eapply (run_cons _ _ []); [by apply st_begin|]. eapply (run_cons _ _ []); [by apply st_startup|].
  eapply (run_cons _ _ []); [by apply st_head|].
  eapply (run_cons _ _ [Ran startupTask] _ []); [|constructor].
  by apply (st_task anyTime (checkShutdown (scheduleStartup (begin NewScheduler))) startupTask).
Qed.

Definition webhookTask : Task := {| TriggeredBy := ""; Reason := TriggerWebhook |}.

Lemma requests_are_followed_by_a_run_witness :
  channel (Schedule webhookTask running).2 = Some webhookTask ∧
  ∃ s'', sched_run anyTime (Schedule webhookTask running).2 [Ran webhookTask] s''.
Proof.
  destruct (requests_are_followed_by_a_run anyTime _ running webhookTask running_reachable
    ltac:(vm_compute; reflexivity) ltac:(vm_compute; reflexivity)) as (_ & pending & Hc & Hp & _ & Hrun & _).
  subst pending. split; [exact Hc|exact Hrun].
Defined.
End TriggersExample.
