(* ===== verification/DeploymentProjection.v ===== *)
(** * Projection of completed deployments ([gitops/deployment])

    The subscriber that writes the completion of a deployment into the GitOps runtime. It
    reads the deployment tables and updates the runtime in one transaction of the same
    database; both are components with their own files, and the runtime is used through its
    interface. [WithDesired] gives subscribers the definition that an event refers to. *)
From S2P Require Import Prelude GoStrings Comparison Deployments DeploymentStore.
From S2P Require Runtime DeploymentService.
Import DeploymentService(DeployEvent, event, DeploySuccess, DeployFailed, DeployInterrupted,
  eventDeploymentID, eventAttemptID, eventStack, eventCommit, eventServices, StackDefinition).
Local Open Scope go_scope.

Inductive projectionError :=
| ReferenceMissing (text : string)
| TablesFault (e : deploymentError)
| RuntimeFault (text : string).

Section Projection.
Context {DB : Type} `{Runtime.GitOpsStore DB}.

(** The database: the deployment tables and the rest of it. *)
Record ProjectionWorld := { tables : Tables; runtime : DB }.
Notation Proj := (St ProjectionWorld projectionError).

Definition onTables {A} (m : St Tables deploymentError A) : Proj A := λ w,
  let '(r, t) := m (tables w) in
  (match r with Ok a => Ok a | Err e => Err (TablesFault e) end, {| tables := t; runtime := runtime w |}).
Definition onRuntime {A} (m : St DB string A) : Proj A := λ w,
  let '(r, d) := m (runtime w) in
  (match r with Ok a => Ok a | Err e => Err (RuntimeFault e) end, {| tables := tables w; runtime := d |}).

(** [projectionEvent] *)
Definition projectionEvent (e : event) : option (DeployEvent * Status * string) :=
  match e with
  | DeploySuccess meta => Some (meta, Succeeded, "")
  | DeployFailed meta _ code _ => Some (meta, Failed, code)
  | DeployInterrupted meta _ reason _ => Some (meta, Interrupted, reason)
  | _ => None
  end.

Definition projectionTime (a : Attempt) : Time := default (attemptStartedAt a) (attemptFinishedAt a).

Definition noService : Runtime.Service :=
  {| Runtime.Image := ""; Runtime.SyncStatus := ""; Runtime.SyncError := ""; Runtime.SelfHealPending := false;
     Runtime.SyncAt := time_zero |}.
Definition noStack : Runtime.Stack :=
  {| Runtime.DriftedServices := ∅; Runtime.SourceDigest := ""; Runtime.LastCommit := "";
     Runtime.Status := {| Runtime.Synced := 0; Runtime.OutOfSynced := 0 |}; Runtime.LastError := "";
     Runtime.LastDeployAt := time_zero; Runtime.StateUpdatedAt := time_zero; Runtime.Services := ∅ |}.

(** One desired service; what is not written stays, as [SelfHealPending]. *)
Definition projectService (status : Status) (errorCode : string) (at_ : Time) (services : gmap string Runtime.Service)
    (s : Service) : gmap string Runtime.Service :=
  let current := default noService (services !! serviceName s) in
  let succeeded := bool_decide (status = Succeeded) in
  <[serviceName s :=
      {| Runtime.Image := serviceImage s;
         Runtime.SyncStatus := if succeeded then Runtime.SyncStatusSynced else Runtime.SyncStatusOutOfSync;
         Runtime.SyncError := if succeeded then "" else errorCode;
         Runtime.SelfHealPending := Runtime.SelfHealPending current; Runtime.SyncAt := at_ |}]> services.

Definition projectStack (d : Deployment) (a : Attempt) (desired : Prepared) (status : Status) (errorCode : string)
    (state : Runtime.Stack) : Runtime.Stack :=
  let services := fold_left (projectService status errorCode (projectionTime a)) (Services (Definition_ desired))
                    (Runtime.Services state) in
  {| Runtime.DriftedServices := Runtime.DriftedServices state;
     Runtime.SourceDigest := fileDigest (Definition_ desired); Runtime.LastCommit := Commit d;
     Runtime.Status := Runtime.NewStackStatus services; Runtime.LastError := errorCode;
     Runtime.LastDeployAt := attemptStartedAt a; Runtime.StateUpdatedAt := projectionTime a;
     Runtime.Services := services |}.

Definition setStacks (stacks : gmap string Runtime.Stack) (r : Runtime.Runtime) : Runtime.Runtime :=
  {| Runtime.PullFailure := Runtime.PullFailure r; Runtime.LastPollAt := Runtime.LastPollAt r;
     Runtime.LastPollResult := Runtime.LastPollResult r; Runtime.LastPollError := Runtime.LastPollError r;
     Runtime.LastSyncAt := Runtime.LastSyncAt r; Runtime.LastSyncReason := Runtime.LastSyncReason r;
     Runtime.LastSyncResult := Runtime.LastSyncResult r; Runtime.LastSyncError := Runtime.LastSyncError r;
     Runtime.GitRevision := Runtime.GitRevision r; Runtime.Stacks := stacks; Runtime.Networks := Runtime.Networks r |}.

(** [projectRuntime] *)
Definition projectRuntime (d : Deployment) (a : Attempt) (desired : Prepared) (status : Status) (errorCode : string)
    (r : Runtime.Runtime) : Runtime.Runtime :=
  let state := default noStack (Runtime.Stacks r !! deploymentStack d) in
  setStacks (<[deploymentStack d := projectStack d a desired status errorCode state]> (Runtime.Stacks r)) r.

(** The function of the update: a state that is newer than the attempt stays. *)
Definition projectNewer (d : Deployment) (a : Attempt) (desired : Prepared) (status : Status) (errorCode : string)
    (r : Runtime.Runtime) : Runtime.Runtime :=
  let current := default noStack (Runtime.Stacks r !! deploymentStack d) in
  if negb (is_zero (Runtime.StateUpdatedAt current)) &&
     negb (bool_decide (Runtime.StateUpdatedAt current < projectionTime a)%Z)
  then r else projectRuntime d a desired status errorCode r.

(** [ProjectionSubscriber.project] *)
Definition project (ref : DeployEvent) (status : Status) (errorCode : string) : Proj () :=
  let! d := onTables (Get (eventDeploymentID ref)) in
  let! a := onTables (GetAttempt (eventAttemptID ref)) in
  let! latest := onTables (Latest (deploymentStack d)) in
  let '(latest, desired) := latest in
  if negb (bool_decide (deploymentID latest = deploymentID d)) ||
     negb (bool_decide (LatestAttemptID latest = attemptID a))
  then st_ret ()
  else onRuntime (Runtime.Update (projectNewer d a desired status errorCode)).

(** [ProjectionSubscriber.Handle] *)
Definition Handle (e : event) : Proj () :=
  match projectionEvent e with
  | None => st_ret ()
  | Some (ref, status, errorCode) =>
      if bool_decide (eventDeploymentID ref = "") || bool_decide (eventAttemptID ref = "")
      then st_throw (ReferenceMissing "deployment completion reference missing")
      else within_transaction (project ref status errorCode)
  end.

(** [desiredSubscriber.Handle]: the event with the definition that it refers to. *)
Definition withDefinition (meta : DeployEvent) (desired : File) : DeployEvent :=
  {| eventDeploymentID := eventDeploymentID meta; eventAttemptID := eventAttemptID meta;
     eventStack := eventStack meta; eventCommit := eventCommit meta; eventServices := Services desired;
     StackDefinition := desired |}.
Definition WithDesired (next : event → Proj ()) (e : event) : Proj () :=
  let load meta (k : DeployEvent → event) :=
    if bool_decide (eventDeploymentID meta = "")
    then st_throw (ReferenceMissing "deployment reference missing")
    else let! desired := onTables (Desired (eventDeploymentID meta)) in next (k (withDefinition meta desired)) in
  match e with
  | DeploySuccess meta => load meta DeploySuccess
  | DeployFailed meta err code stage => load meta (λ meta, DeployFailed meta err code stage)
  | _ => next e
  end.
End Projection.
Arguments ProjectionWorld DB : clear implicits.
