(* ===== verification/ProjectionSafety.v ===== *)
(** * What the projection of deployments promises

    The runtime shows the latest attempt of every stack, however often and in whatever order
    the completions are delivered, and never replaces a newer state. *)
From S2P Require Import Prelude GoStrings Comparison Deployments DeploymentStore DeploymentProjection.
From S2P Require Runtime DeploymentService.
Import DeploymentService(DeployEvent, event, DeploySuccess, DeployFailed, DeployInterrupted,
  eventDeploymentID, eventAttemptID, eventStack, eventCommit, eventServices, StackDefinition).
Local Open Scope go_scope.

(** What an event projects: the latest deployment of its stack and its latest attempt. *)
Record projected := {
  ofDeployment : Deployment; ofAttempt : Attempt; ofDesired : Prepared; ofStatus : Status; ofCode : string;
}.

Definition target (t : Tables) (e : event) : option projected :=
  match projectionEvent e with
  | None => None
  | Some (ref, status, code) =>
      row ← findRow t (eventDeploymentID ref);
      arow ← findAttempt t (eventAttemptID ref);
      latest ← latestRow t (row_stack row);
      if bool_decide (row_id latest = row_id row) &&
         bool_decide (LatestAttemptID (deployment t latest) = arow_id arow)
      then Some {| ofDeployment := deployment t row; ofAttempt := attempt [] arow; ofDesired := row_desired latest;
                   ofStatus := status; ofCode := code |}
      else None
  end.

(** A state that the attempt may replace. *)
Definition replaceable (p : projected) (s : Runtime.Stack) : Prop :=
  Runtime.StateUpdatedAt s = time_zero ∨ (Runtime.StateUpdatedAt s < projectionTime (ofAttempt p))%Z.
#[export] Instance replaceable_dec p s : Decision (replaceable p s).
Proof. unfold replaceable. apply _. Defined.

Definition projectedStack (p : projected) (s : option Runtime.Stack) : Runtime.Stack :=
  projectStack (ofDeployment p) (ofAttempt p) (ofDesired p) (ofStatus p) (ofCode p) (default noStack s).
Definition newerStack (p : projected) (s : option Runtime.Stack) : option Runtime.Stack :=
  if decide (replaceable p (default noStack s)) then Some (projectedStack p s) else s.

Lemma projectNewer_spec p r :
  let r' := projectNewer (ofDeployment p) (ofAttempt p) (ofDesired p) (ofStatus p) (ofCode p) r in
  r' = setStacks (Runtime.Stacks r') r ∧
  ∀ k, Runtime.Stacks r' !! k =
    if decide (k = deploymentStack (ofDeployment p)) then newerStack p (Runtime.Stacks r !! k)
    else Runtime.Stacks r !! k.
Proof.
  cbv zeta. unfold projectNewer. set (s := default noStack (Runtime.Stacks r !! deploymentStack (ofDeployment p))).
  assert (negb (is_zero (Runtime.StateUpdatedAt s)) &&
    negb (bool_decide (Runtime.StateUpdatedAt s < projectionTime (ofAttempt p))%Z) = bool_decide (¬ replaceable p s)) as ->.
  { unfold replaceable, is_zero, time_zero. repeat case_bool_decide; cbn; tauto. }
  case_bool_decide as Hrep.
  - split; [by destruct r|]. intros k. case_decide as Hk; [|done]. subst k. unfold newerStack.
    by rewrite decide_False.
  - split; [by destruct r|]. intros k. unfold projectRuntime. cbn [Runtime.Stacks setStacks]. rewrite lookup_insert.
    case_decide as Hk; [subst k; rewrite decide_True by done|by rewrite decide_False by congruence].
    unfold newerStack. by rewrite decide_True.
Qed.

(** ** Projecting again *)
Lemma projectService_lookup status code at_ services s k :
  projectService status code at_ services s !! k =
  if decide (k = serviceName s)
  then Some {| Runtime.Image := serviceImage s;
               Runtime.SyncStatus := if bool_decide (status = Succeeded) then Runtime.SyncStatusSynced
                                     else Runtime.SyncStatusOutOfSync;
               Runtime.SyncError := if bool_decide (status = Succeeded) then "" else code;
               Runtime.SelfHealPending := Runtime.SelfHealPending (default noService (services !! k));
               Runtime.SyncAt := at_ |}
  else services !! k.
Proof.
  unfold projectService. cbv zeta. case_decide as Hk; [subst k; by rewrite lookup_insert_eq|by rewrite lookup_insert_ne].
Qed.

(** The last desired service of the name decides; only [SelfHealPending] comes from before. *)
Lemma projectServices_lookup status code at_ l services k :
  fold_left (projectService status code at_) l services !! k =
  match last (filter (λ s, serviceName s = k) l) with
  | Some s => Some {| Runtime.Image := serviceImage s;
                      Runtime.SyncStatus := if bool_decide (status = Succeeded) then Runtime.SyncStatusSynced
                                            else Runtime.SyncStatusOutOfSync;
                      Runtime.SyncError := if bool_decide (status = Succeeded) then "" else code;
                      Runtime.SelfHealPending := Runtime.SelfHealPending (default noService (services !! k));
                      Runtime.SyncAt := at_ |}
  | None => services !! k
  end.
Proof.
  induction l as [|s l IH] using rev_ind; [done|].
  rewrite fold_left_app. cbn [fold_left]. rewrite projectService_lookup, filter_app, filter_cons, filter_nil.
  destruct (decide (serviceName s = k)) as [->|Hne].
  - rewrite decide_True by done. rewrite last_snoc, IH. by destruct (last _).
  - rewrite decide_False by congruence. by rewrite app_nil_r.
Qed.

Lemma projectStack_again p s : projectedStack p (Some (projectedStack p s)) = projectedStack p s.
Proof.
  unfold projectedStack, projectStack. cbn [from_option id Runtime.Services Runtime.DriftedServices].
  assert (∀ services, let f := fold_left (projectService (ofStatus p) (ofCode p) (projectionTime (ofAttempt p)))
    (Services (Definition_ (ofDesired p))) in f (f services) = f services) as Hf.
  { intros services. cbv zeta. apply map_eq. intros k. rewrite !projectServices_lookup.
    by destruct (last _). }
  by rewrite Hf.
Qed.

Lemma newerStack_again p s : newerStack p (newerStack p s) = newerStack p s.
Proof.
  unfold newerStack at 2 3. case_decide as Hrep; [|unfold newerStack; by rewrite decide_False].
  unfold newerStack. case_decide; [|done]. by rewrite projectStack_again.
Qed.

(** ** Deliveries *)
Section Deliveries.
Context {DB : Type} `{Runtime.GitOpsStore DB, !Runtime.GitOpsStoreLaws DB}.
Notation World := (ProjectionWorld DB).
Implicit Types (w : World) (e : event).

Definition runtimeOf w : Runtime.Runtime := Runtime.stored (runtime w).

(** One delivery that succeeds: the tables stay, and the stack of the target is brought up to date. *)
Definition effect (t : Tables) (e : event) (r r' : Runtime.Runtime) : Prop :=
  r' = setStacks (Runtime.Stacks r') r ∧
  ∀ k, Runtime.Stacks r' !! k =
    match target t e with
    | Some p => if decide (k = deploymentStack (ofDeployment p)) then newerStack p (Runtime.Stacks r !! k)
                else Runtime.Stacks r !! k
    | None => Runtime.Stacks r !! k
    end.

Lemma effect_none t e r : target t e = None → effect t e r r.
Proof. intros Ht. unfold effect. rewrite Ht. split; [by destruct r|done]. Qed.

Lemma onTables_notFound {A} (q : Tables → option A) w :
  onTables (notFound q) w =
  (match q (tables w) with Some a => Ok a | None => Err (TablesFault ErrNotFound) end, w).
Proof. unfold onTables, notFound. destruct w as [t d]. cbn. by destruct (q t). Qed.

Lemma project_ok ref status code w w' e :
  projectionEvent e = Some (ref, status, code) → project ref status code w = (Ok (), w') →
  tables w' = tables w ∧ Runtime.published (runtime w') = Runtime.published (runtime w) ∧
  effect (tables w) e (runtimeOf w) (runtimeOf w').
Proof.
  intros He. unfold project, Get, GetAttempt, Latest. unfold st_bind. rewrite !onTables_notFound.
  destruct (findRow (tables w) (eventDeploymentID ref)) as [row|] eqn:Hrow; [|done]. cbn [fmap option_fmap option_map].
  rewrite ?onTables_notFound.
  destruct (findAttempt (tables w) (eventAttemptID ref)) as [arow|] eqn:Harow; [|done]. cbn [fmap option_fmap option_map].
  cbn [deploymentStack deployment].
  destruct (latestRow (tables w) (row_stack row)) as [latest|] eqn:Hlatest; [|done]. cbn [fmap option_fmap option_map].
  assert (target (tables w) e =
    if bool_decide (row_id latest = row_id row) &&
       bool_decide (LatestAttemptID (deployment (tables w) latest) = arow_id arow)
    then Some {| ofDeployment := deployment (tables w) row; ofAttempt := attempt [] arow;
                 ofDesired := row_desired latest; ofStatus := status; ofCode := code |}
    else None) as Ht.
  { unfold target. rewrite He. cbn. rewrite Hrow. cbn. rewrite Harow. cbn. by rewrite Hlatest. }
  change (deploymentID (deployment (tables w) latest)) with (row_id latest).
  change (deploymentID (deployment (tables w) row)) with (row_id row).
  change (attemptID (attempt [] arow)) with (arow_id arow).
  destruct (bool_decide (row_id latest = row_id row)); cbn [negb orb andb] in *;
    [|intros [= <-]; split_and!; try done; by apply effect_none].
  destruct (bool_decide (LatestAttemptID (deployment (tables w) latest) = arow_id arow)); cbn [negb] in *;
    [|intros [= <-]; split_and!; try done; by apply effect_none].
  unfold onRuntime. destruct (Runtime.Update _ (runtime w)) as [[[]|err] d] eqn:Hup; [|done]. intros [= <-].
  apply Runtime.Update_ok in Hup as [Hs Hp]. split_and!; [done|done|].
  unfold effect. rewrite Ht. unfold runtimeOf. cbn [runtime]. rewrite Hs.
  destruct (projectNewer_spec {| ofDeployment := deployment (tables w) row; ofAttempt := attempt [] arow;
    ofDesired := row_desired latest; ofStatus := status; ofCode := code |} (Runtime.stored (runtime w))) as [Hset Hl].
  by split.
Qed.

Lemma Handle_ok e w w' :
  Handle e w = (Ok (), w') →
  tables w' = tables w ∧ Runtime.published (runtime w') = Runtime.published (runtime w) ∧
  effect (tables w) e (runtimeOf w) (runtimeOf w').
Proof.
  unfold Handle. destruct (projectionEvent e) as [[[ref status] code]|] eqn:He.
  - destruct (_ || _); [done|]. rewrite within_transaction_ok. intros Hrun. exact (project_ok _ _ _ _ _ _ He Hrun).
  - intros [= <-]. split_and!; try done. apply effect_none. unfold target. by rewrite He.
Qed.

(** A delivery that fails leaves the database as it was. *)
Lemma Handle_err e w err w' : Handle e w = (Err err, w') → w' = w.
Proof.
  unfold Handle. destruct (projectionEvent e) as [[[ref status] code]|]; [|done].
  destruct (_ || _); [by intros [= _ <-]|]. apply within_transaction_err.
Qed.

(** Deliveries one after the other; the index lists those that succeed. *)
Inductive delivered : list event → World → World → Prop :=
| delivered_nil w : delivered [] w w
| delivered_ok e es w w1 w' : Handle e w = (Ok (), w1) → delivered es w1 w' → delivered (e :: es) w w'
| delivered_err e err es w w1 w' : Handle e w = (Err err, w1) → delivered es w1 w' → delivered es w w'.

Definition targets (t : Tables) (k : string) (e : event) : Prop :=
  ∃ p, target t e = Some p ∧ deploymentStack (ofDeployment p) = k.
#[export] Instance targets_dec t k e : Decision (targets t k e).
Proof.
  refine (match target t e as o return target t e = o → _ with
          | Some p => λ Hp, cast_if (decide (deploymentStack (ofDeployment p) = k))
          | None => λ Hp, right _ end eq_refl); unfold targets; rewrite Hp; naive_solver.
Defined.

(** Completions of the same attempt report the same. *)
Definition consistent (es : list event) : Prop :=
  ∀ e e' ref ref' st st' code code', e ∈ es → e' ∈ es → projectionEvent e = Some (ref, st, code) →
    projectionEvent e' = Some (ref', st', code') → eventAttemptID ref = eventAttemptID ref' → st = st' ∧ code = code'.

Lemma find_row_id t id row : findRow t id = Some row → row_id row = id.
Proof. intros Hf%List.find_some. destruct Hf as [_ Hid%bool_decide_eq_true_1]. done. Qed.
Lemma find_attempt_id t id arow : findAttempt t id = Some arow → arow_id arow = id.
Proof. intros Hf%List.find_some. destruct Hf as [_ Hid%bool_decide_eq_true_1]. done. Qed.

(** What is projected to a stack is determined by the tables and the completion. *)
Lemma target_unique t es e e' p p' :
  consistent es → e ∈ es → e' ∈ es → target t e = Some p → target t e' = Some p' →
  deploymentStack (ofDeployment p) = deploymentStack (ofDeployment p') → p = p'.
Proof.
  intros Hcons He He'. unfold target.
  destruct (projectionEvent e) as [[[ref st] code]|] eqn:Hev; [|done].
  destruct (projectionEvent e') as [[[ref' st'] code']|] eqn:Hev'; [|done].
  destruct (findRow t (eventDeploymentID ref)) as [row|] eqn:Hrow; [|done].
  destruct (findRow t (eventDeploymentID ref')) as [row'|] eqn:Hrow'; [|done].
  destruct (findAttempt t (eventAttemptID ref)) as [arow|] eqn:Ha; [|done].
  destruct (findAttempt t (eventAttemptID ref')) as [arow'|] eqn:Ha'; [|done]. cbn [mbind option_bind].
  destruct (latestRow t (row_stack row)) as [latest|] eqn:Hl; [|done].
  destruct (latestRow t (row_stack row')) as [latest'|] eqn:Hl'; [|done]. cbn [mbind option_bind].
  destruct (bool_decide (row_id latest = row_id row) && _) eqn:Hb; [|done].
  destruct (bool_decide (row_id latest' = row_id row') && _) eqn:Hb'; [|done].
  apply andb_true_iff in Hb as [H1%bool_decide_eq_true_1 H2%bool_decide_eq_true_1].
  apply andb_true_iff in Hb' as [H1'%bool_decide_eq_true_1 H2'%bool_decide_eq_true_1].
  intros [= <-] [= <-]. cbn [ofDeployment deploymentStack deployment]. intros Hstack.
  rewrite Hstack, Hl' in Hl. injection Hl as ->.
  pose proof (find_row_id _ _ _ Hrow) as Hid. pose proof (find_row_id _ _ _ Hrow') as Hid'.
  pose proof (find_attempt_id _ _ _ Ha) as Haid. pose proof (find_attempt_id _ _ _ Ha') as Haid'.
  assert (row = row') as <- by congruence.
  assert (eventAttemptID ref = eventAttemptID ref') as Hsame by congruence.
  assert (arow = arow') as <- by congruence.
  by destruct (Hcons e e' ref ref' st st' code code' He He' Hev Hev' Hsame) as [-> ->].
Qed.

(** The stack after the deliveries: projected once if an event targets it. *)
Lemma delivered_stack es w w' all k :
  delivered es w w' → consistent all → (∀ e, e ∈ es → e ∈ all) →
  tables w' = tables w ∧ runtimeOf w' = setStacks (Runtime.Stacks (runtimeOf w')) (runtimeOf w) ∧
  ((∃ e p, e ∈ es ∧ target (tables w) e = Some p ∧ deploymentStack (ofDeployment p) = k ∧
     Runtime.Stacks (runtimeOf w') !! k = newerStack p (Runtime.Stacks (runtimeOf w) !! k)) ∨
   ((∀ e, e ∈ es → ¬ targets (tables w) k e) ∧
     Runtime.Stacks (runtimeOf w') !! k = Runtime.Stacks (runtimeOf w) !! k)).
Proof.
  intros Hd Hcons. induction Hd as [w|e es w w1 w' Hh Hd IH|e err es w w1 w' Hh Hd IH]; intros Hin.
  - split; [done|]. split; [by destruct (runtimeOf w)|]. right. split; [by intros e ?%elem_of_nil|done].
  - destruct (Handle_ok _ _ _ Hh) as (Ht & _ & Hset & Hl).
    destruct IH as (Ht' & Hset' & Hcase); [intros e' ?; apply Hin; by right|].
    rewrite Ht in *. split; [done|]. split.
    { rewrite Hset', Hset at 1. by destruct (runtimeOf w). }
    specialize (Hl k). destruct (decide (targets (tables w) k e)) as [(p & Hp & Hk)|Hno].
    + left. rewrite Hp, decide_True in Hl by done. exists e, p. split; [left|]. split; [done|]. split; [done|].
      destruct Hcase as [(e' & p' & He' & Hp' & Hk' & ->)|[_ ->]]; [|done].
      assert (p = p') as <-.
      { eapply (target_unique (tables w) all e e'); try done; [apply Hin; left|apply Hin; by right|congruence]. }
      rewrite Hl. apply newerStack_again.
    + assert (Runtime.Stacks (runtimeOf w1) !! k = Runtime.Stacks (runtimeOf w) !! k) as Hsame.
      { rewrite Hl. destruct (target (tables w) e) as [p|] eqn:Hp; [|done]. rewrite decide_False; [done|].
        intros Hk. apply Hno. by exists p. }
      rewrite Hsame in Hcase. destruct Hcase as [(e' & p' & He' & Hcase)|[Hnone Hcase]].
      * left. exists e', p'. split; [by right|done].
      * right. split; [|done]. by intros e' [->|He']%elem_of_cons; [|apply Hnone].
  - apply Handle_err in Hh as ->. by apply IH.
Qed.
End Deliveries.


Module ProjectionExample.
#[local] Existing Instance Runtime.SqlStore_store.
#[local] Existing Instance Runtime.SqlStore_laws.

Definition outcome : Outcome :=
  {| ErrorDiagnostic := ""; Retryable := true; ApplyStatus := StageFailed; VerificationStatus := StageSkipped;
     CleanupStatus := StageSkipped; ActualState := ActualStateUnknown; ObservedAt := None |}.
Definition desired : Prepared :=
  {| Definition_ := {| Path := "app.yaml"; Services := [{| serviceName := "api"; serviceImage := "api:2" |}];
                       fileDigest := "d" |};
     Digest := "d"; Fields := ∅; Fingerprints := ∅; Redacted := ∅ |}.
Definition details : deploymentDetails :=
  {| UpdateGenerations := ∅; unresolved_services := None; detailsOutcome := outcome;
     detailsBasis := BasisNone; detailsComparison := ComparisonUnknown; detailsBasisID := "";
     detailsSummary := {| SummaryAdded := 0; SummaryChanged := 0; SummaryRemoved := 0; SummaryRedacted := 0 |};
     detailsResources := {| SummaryServices := 1; SummaryConfigs := 0; SummarySecrets := 0;
                            SummaryNetworks := 0; SummaryVolumes := 0 |};
     detailsDiffAvailable := false |}.
Definition attemptOf (id : string) (number : Z) (status : Status) (finished : Time) : attemptRow :=
  {| arow_id := id; arow_deployment_id := "d1"; arow_number := number; arow_status := status; arow_error_code := "";
     arow_phase := PhaseCompleted; arow_started_at := (finished - 10)%Z; arow_finished_at := Some finished;
     arow_outcome := outcome |}.

(** A deployment that was retried: the first attempt failed, the second one succeeded. *)
Definition table : Tables :=
  {| deployments := [{| row_id := "d1"; row_stack := "shop"; row_commit := "c1"; row_status := Succeeded;
                        row_error_code := ""; row_phase := PhaseCompleted; row_started_at := 90;
                        row_finished_at := Some 200%Z; row_desired := desired; row_details := details;
                        row_changes := [] |}];
     deployment_attempts := [attemptOf "a1" 1 Failed 100; attemptOf "a2" 2 Succeeded 200];
     deployment_init_jobs := []; desired_snapshots := ∅ |}.
Definition meta (attempt : string) : DeployEvent :=
  {| eventDeploymentID := "d1"; eventAttemptID := attempt; eventStack := "shop"; eventCommit := "c1";
     eventServices := []; StackDefinition := Definition_ desired |}.
Definition failure : event := DeployFailed (meta "a1") None "apply_failed" "apply".
Definition success : event := DeploySuccess (meta "a2").

Definition start : ProjectionWorld Runtime.SqlStore := {| tables := table; runtime := Runtime.openStore |}.
Definition after (es : list event) : ProjectionWorld Runtime.SqlStore := fold_left (λ w e, (Handle e w).2) es start.

(** The failure that comes late does not replace the success. *)
Example late_failure :
  (λ s, (Runtime.LastError s, Runtime.Status s, Runtime.SyncStatus <$> Runtime.Services s !! "api")) <$>
    Runtime.Stacks (runtimeOf (after [success; failure; success])) !! "shop" =
  Some ("", {| Runtime.Synced := 1; Runtime.OutOfSynced := 0 |}, Some "Synced").
Proof. vm_compute. reflexivity. Qed.

End ProjectionExample.
