(* ===== verification/Recommendations.v ===== *)
(** * Recommendations ([internal/modules/recommendations])

    The analyzers of a definition, the table of recommendations and the subscriber that keeps
    it on the newest deployment of a stack. Image references are parsed by [parseNamed] of a
    library; a statement of the database may fail. *)
From S2P Require Import Prelude GoStrings GoEncoding GoPaths Config ServiceSpecs StackDrift ComposeValues ComposeFile.
From Stdlib Require QArith.QArith_base.
From S2P Require Alerts DeploymentService.
Local Open Scope go_scope.

(** ** Data ([model]) *)
Definition SeverityLow : string := "low".
Definition SeverityMedium : string := "medium".
Definition SeverityHigh : string := "high".

Definition TypeServiceResourcesUnspecified : string := "service.resources.unspecified".
Definition TypeServiceResourcesLimitsUnspecified : string := "service.resources.limits.unspecified".
Definition TypeServiceImageLatest : string := "service.image.latest".
Definition TypeServiceImageDigestUnspecified : string := "service.image.digest.unspecified".
Definition TypeServiceRestartPolicyUnspecified : string := "service.restart-policy.unspecified".
Definition TypeServiceSelfHealScheduledService : string := "service.self-heal.scheduled-service".
Definition TypeServiceSecretsEnvironment : string := "service.secrets.environment".
Definition TypeServiceDockerSocketMount : string := "service.docker-socket.mount".
Definition TypeServiceCapabilitiesAll : string := "service.capabilities.all".
Definition TypeServiceCapabilitiesPrivileged : string := "service.capabilities.privileged".
Definition TypeServiceCapabilitiesSensitive : string := "service.capabilities.sensitive".
Definition TypeServiceHostPortStartFirst : string := "service.host-port.start-first".
Definition TypeServiceSwarmDeployDockerConfigMissing : string := "service.swarm-deploy.docker-config.missing".

Record Subject := { subjectStack : string; subjectService : string }.
Record Source := { sourceFile : string; sourceDigest : string; sourceCommit : string }.
Record Recommendation := {
  Severity : string; Type_ : string; source : Source; subject : Subject; Title : string; Text : string;
  CreatedAt : Time;
}.

(** The deploy options of [compose.Service]; a ratio is a rational number. *)
Record DiscreteResource := { resourceKind : string; resourceValue : Z }.
Record GenericResource := { DiscreteResourceSpec : option DiscreteResource }.
Record ServiceDeployResource := {
  GenericResources : list GenericResource; Cpus : string; Memory : string; Pids : option N;
}.
Record ServiceDeployResources := { Limits : option ServiceDeployResource; Reservations : option ServiceDeployResource }.
Record ServiceDeployRestartPolicy := {
  Condition : string; restartDelay : string; MaxAttempts : option N; Window : string;
}.
Definition ServiceDeployUpdateOrderStartFirst : string := "start-first".
Record ServiceDeployUpdateConfig := {
  Parallelism : option N; updateDelay : string; FailureAction : string; Monitor : string;
  MaxFailureRatio : option QArith_base.Q; Order : string;
}.
(** What the analyzers read of [compose.Service] besides [ComposeService]. *)
Record SecretRef := { secretSource : string; secretTarget : string }.
Record AnalyzedService := {
  service : ComposeService; DeployResources : option ServiceDeployResources;
  RestartPolicy : option ServiceDeployRestartPolicy; UpdateConfig : option ServiceDeployUpdateConfig;
  Ports : list ServicePort; CapAdd : list string; serviceSecrets : list SecretRef;
}.
Definition analyzedName (s : AnalyzedService) : string := desiredName (desired (service s)).

(** The parts of [compose.File], and [model.Stack]. *)
Record AnalyzedFile := { filePath : string; filesDigest : string; fileServices : list AnalyzedService }.
Record AnalyzedStack := { stackName : string; Definition_ : AnalyzedFile; stackCommit : string }.

Definition SourceFromStack (s : AnalyzedStack) : Source :=
  {| sourceFile := filePath (Definition_ s); sourceDigest := filesDigest (Definition_ s); sourceCommit := stackCommit s |}.

(** ** Strings of the standard library *)
(** [strings.ToUpper], as far as it gives ASCII letters: besides the lower-case letters these
    are the dotless i and the long s. *)
Fixpoint upperWord (s : string) : string :=
  match s with
  | EmptyString => EmptyString
  | String c s =>
      let n := Ascii.N_of_ascii c in
      match s with
      | String d s' =>
          if (n =? 196)%N && (Ascii.N_of_ascii d =? 177)%N then String "I" (upperWord s')
          else if (n =? 197)%N && (Ascii.N_of_ascii d =? 191)%N then String "S" (upperWord s')
          else String (if ((97 <=? n) && (n <=? 122))%N then Ascii.ascii_of_N (n - 32) else c) (upperWord s)
      | EmptyString => String (if ((97 <=? n) && (n <=? 122))%N then Ascii.ascii_of_N (n - 32) else c) EmptyString
      end
  end.
(** [strings.ToLower], as far as it gives ASCII letters: besides the upper-case letters these
    are the dotted I and the Kelvin sign. *)
Fixpoint lowerWord (s : string) : string :=
  match s with
  | EmptyString => EmptyString
  | String c s =>
      match s with
      | String d s' =>
          if (Ascii.N_of_ascii c =? 196)%N && (Ascii.N_of_ascii d =? 176)%N then String "i" (lowerWord s')
          else match s' with
               | String e s'' =>
                   if (Ascii.N_of_ascii c =? 226)%N && (Ascii.N_of_ascii d =? 132)%N && (Ascii.N_of_ascii e =? 170)%N
                   then String "k" (lowerWord s'') else String (lower_ascii c) (lowerWord s)
               | EmptyString => String (lower_ascii c) (lowerWord s)
               end
      | EmptyString => String (lower_ascii c) EmptyString
      end
  end.
(** [strings.EqualFold] with a word of ASCII letters other than [i] and [k]: the long s folds too. *)
Definition equalFoldWord (s t : string) : bool := bool_decide (upperWord s = upperWord t).
(** [strconv.ParseBool] *)
Definition ParseBool (s : string) : option bool :=
  if bool_decide (s ∈ ["1"; "t"; "T"; "TRUE"; "true"; "True"]) then Some true
  else if bool_decide (s ∈ ["0"; "f"; "F"; "FALSE"; "false"; "False"]) then Some false else None.

Definition isSet {A} (x : option A) : bool := match x with Some _ => true | None => false end.

(** ** The analyzers *)
(** A parsed image reference. *)
Record Named := {
  namedDigest : bool; namedTag : option string; Name : string; Domain : string; PathOf : string; FamiliarName : string;
}.

Section Analyzers.
Context (parseNamed : string → option Named).
(** The configuration: the global self-heal policy and the stacks. *)
Context (selfHealDefault : bool) (stacks : list StackSpec).

(** One finding: type, severity, title and text. *)
Definition finding : Type := string * string * string * string.

Definition analyzeResources (s : AnalyzedService) : list finding :=
  match DeployResources s with
  | None => [(TypeServiceResourcesUnspecified, SeverityMedium, "Service with unspecified resources",
              "Specify deploy.resources for the service")]
  | Some r =>
      match Limits r with
      | None => [(TypeServiceResourcesLimitsUnspecified, SeverityMedium,
                  "Service with unspecified limits of resources", "Specify deploy.resources.limits for the service")]
      | Some _ => []
      end
  end.

(** [parseImageReference]: the tag, and whether there is a digest. *)
Definition parseImageReference (image : string) : option (option string * bool) :=
  let trimmed := trim_space image in
  if bool_decide (trimmed = "") then None
  else named ← parseNamed trimmed; Some (namedTag named, namedDigest named).

Definition analyzeImage (s : AnalyzedService) : list finding :=
  match parseImageReference (serviceImage (service s)) with
  | Some (Some tag, false) =>
      if bool_decide (tag = "latest")
      then [(TypeServiceImageLatest, SeverityHigh, "Image with latest tag",
             "Replace the mutable latest image tag with a specific version or digest for reproducible deployments")]
      else [(TypeServiceImageDigestUnspecified, SeverityMedium, "Image with unspecified digest",
             "Pin the service image with @sha256:... because image tags are mutable and can change between deployments")]
  | _ => []
  end.

Definition swarmCronjobEnableLabel : string := "swarm.cronjob.enable".
Definition isSwarmCronjobService (s : AnalyzedService) : bool :=
  bool_decide (ParseBool (trim_space (default "" (deployLabels (desired (service s)) !! swarmCronjobEnableLabel))) =
               Some true).
Definition isJobService (s : AnalyzedService) : bool :=
  let mode := lowerWord (trim_space (deployMode (desired (service s)))) in
  bool_decide (mode = "replicated-job") || bool_decide (mode = "global-job") || isSwarmCronjobService s.

Definition analyzeRestartPolicy (s : AnalyzedService) : list finding :=
  if isSet (RestartPolicy s) || isJobService s then []
  else [(TypeServiceRestartPolicyUnspecified, SeverityLow, "Restart policy is unspecified",
         "Explicitly define deploy.restart_policy so restart behavior is documented and predictable")].

(** The policy of the first stack of the name that has one, else the global one. *)
Definition configuredSelfHeal (stack : string) : bool :=
  match List.find (λ c, bool_decide (Config.Name c = stack) && isSet (StackSelfHeal (Policy c))) stacks with
  | Some c => default selfHealDefault (StackSelfHeal (Policy c))
  | None => selfHealDefault
  end.

Definition scheduledPolicyChanges (s : AnalyzedService) (selfHeal : bool) : list string :=
  match ReplicasManagedPolicy (desired (service s)) with
  | Err _ => []
  | Ok (managed, specified) =>
      let mode := deployMode (desired (service s)) in
      let replicated := bool_decide (mode = "") || bool_decide (mode = "replicated") in
      (if selfHeal then [ServiceSyncPolicySelfHealLabelKey +:+ ": " +:+ quoted "false"] else []) ++
      (if replicated && (negb specified || managed)
       then [ServiceSyncPolicyReplicasManagedLabelKey +:+ ": " +:+ quoted "false"] else [])
  end.

Definition analyzeScheduled (stack : string) (s : AnalyzedService) : list finding :=
  if negb (isSwarmCronjobService s) then []
  else match SelfHealPolicy (desired (service s)) with
       | Err _ => []
       | Ok (policy, specified) =>
           match scheduledPolicyChanges s (if specified then policy else configuredSelfHeal stack) with
           | [] => []
           | changes =>
               [(TypeServiceSelfHealScheduledService, SeverityMedium, "Disable self-healing for scheduled service",
                 "This service is managed by an external scheduler. Automatic self-healing may interfere " +:+
                 "with scheduled executions. For replicated services, deployment replica management may also interfere. " +:+
                 "Set the remaining deploy labels: " +:+ join_strings "; " changes +:+ ".")]
           end
       end.

Definition usesStartFirstUpdate (s : AnalyzedService) : bool :=
  match UpdateConfig s with Some u => bool_decide (Order u = ServiceDeployUpdateOrderStartFirst) | None => false end.
Definition usesHostPublishedPort (s : AnalyzedService) : bool :=
  existsb (λ p, bool_decide (PortMode p = "host")) (Ports s).
Definition analyzeHostPort (s : AnalyzedService) : list finding :=
  if negb (usesStartFirstUpdate s) || negb (usesHostPublishedPort s) then []
  else [(TypeServiceHostPortStartFirst, SeverityMedium, "Host-published port is used with start-first updates",
         "Avoid combining ports with mode: host and deploy.update_config.order: start-first; " +:+
         "use stop-first or ingress publishing mode to prevent host-port conflicts during rolling updates")].

Definition isSwarmDeployService (s : AnalyzedService) : bool :=
  let image := trim_space (serviceImage (service s)) in
  let byName := equalFoldWord (trim_space (analyzedName s)) "swarm-deploy" in
  if bool_decide (image = "") then byName
  else match parseNamed image with
       | None => byName
       | Some named => bool_decide (FamiliarName named ∈ ["swarmdeployorg/swarm-deploy"; "swarm-deploy"]) || byName
       end.

Definition normalizeSecretTarget (r : SecretRef) : string :=
  let target := trim_space (secretTarget r) in
  let target := if bool_decide (target = "") then trim_space (secretSource r) else target in
  if bool_decide (target = "") then ""
  else if IsAbs target then Clean target else Join "/run/secrets" target.

Definition hasDockerRegistryAuth (s : AnalyzedService) : bool :=
  let variable name := trim_space (default "" (EnvMap (environment (service s)) !! name)) in
  if negb (bool_decide (variable "DOCKER_AUTH_CONFIG" = "")) then true
  else
    let configDir := variable "DOCKER_CONFIG" in
    let configDir := Clean (if bool_decide (configDir = "") then "/root/.docker" else configDir) in
    let configPath := Join configDir "config.json" in
    existsb (λ r, bool_decide (normalizeSecretTarget r = configPath)) (serviceSecrets s) ||
    existsb (λ v, match v with
                  | None => false
                  | Some v => let target := Clean (trim_space (Target v)) in
                              bool_decide (target = configPath) || bool_decide (target = configDir)
                  end) (serviceVolumes (service s)).

Definition analyzeDockerConfig (s : AnalyzedService) : list finding :=
  if negb (isSwarmDeployService s) || hasDockerRegistryAuth s then []
  else [(TypeServiceSwarmDeployDockerConfigMissing, SeverityMedium, "Docker registry credentials are not configured",
         "Provide Docker registry credentials to swarm-deploy using config.json. Prefer a Docker Secret " +:+
         "targeted as config.json with DOCKER_CONFIG=/run/secrets, or mount the file read-only at " +:+
         "$DOCKER_CONFIG/config.json, so authenticated registry images can be deployed")].

Definition dockerSocketPaths : list string := ["/run/docker.sock"; "/var/run/docker.sock"].
Definition mountsDockerSocket (s : AnalyzedService) : bool :=
  existsb (λ v, match v with
                | None => false
                | Some v => bool_decide (volumeType v = ServiceVolumeTypeBind) &&
                            bool_decide (Clean (trim_space (ComposeValues.Source v)) ∈ dockerSocketPaths)
                end) (serviceVolumes (service s)).
Definition analyzeDockerSocket (s : AnalyzedService) : list finding :=
  if negb (mountsDockerSocket s) then []
  else [(TypeServiceDockerSocketMount, SeverityHigh, "Docker socket is mounted",
         "Avoid mounting the Docker socket unless strictly required because it grants broad " +:+
         "access to the Docker daemon")].

Definition highRiskCapabilities : list string := ["SYS_ADMIN"; "SYS_MODULE"].
Definition mediumRiskCapabilities : list string := ["NET_ADMIN"; "NET_RAW"; "SYS_PTRACE"].
Definition adds (s : AnalyzedService) (capabilities : list string) : bool :=
  existsb (λ c, bool_decide (upperWord (trim_space c) ∈ capabilities)) (CapAdd s).
Definition analyzeCapabilities (s : AnalyzedService) : list finding :=
  (if adds s ["ALL"]
   then [(TypeServiceCapabilitiesAll, SeverityHigh, "All Linux capabilities are added",
          "Avoid cap_add: ALL because it grants the service every Linux capability")] else []) ++
  (if adds s highRiskCapabilities
   then [(TypeServiceCapabilitiesPrivileged, SeverityHigh, "Highly privileged Linux capabilities are added",
          "Avoid adding SYS_ADMIN or SYS_MODULE unless strictly required because they grant " +:+
          "broad control over the host kernel and system")] else []) ++
  (if adds s mediumRiskCapabilities
   then [(TypeServiceCapabilitiesSensitive, SeverityMedium, "Sensitive Linux capabilities are added",
          "Avoid adding NET_ADMIN, SYS_PTRACE, or NET_RAW unless the service explicitly requires them")] else []).

(** The variables of known images, with the variables for a file. *)
Definition serviceSecretVariables : list (string * list (string * string)) := [
  ("docker.io/library/postgres", [("POSTGRES_PASSWORD", "POSTGRES_PASSWORD_FILE")]);
  ("docker.io/library/mysql", [("MYSQL_ROOT_PASSWORD", "MYSQL_ROOT_PASSWORD_FILE");
                               ("MYSQL_PASSWORD", "MYSQL_PASSWORD_FILE")]);
  ("docker.io/library/mariadb", [("MARIADB_ROOT_PASSWORD", "MARIADB_ROOT_PASSWORD_FILE");
                                 ("MARIADB_PASSWORD", "MARIADB_PASSWORD_FILE")]);
  ("docker.io/library/mongo", [("MONGO_INITDB_ROOT_PASSWORD", "MONGO_INITDB_ROOT_PASSWORD_FILE")]);
  ("docker.io/grafana/grafana", [
    ("GF_SECURITY_ADMIN_PASSWORD", "GF_SECURITY_ADMIN_PASSWORD__FILE");
    ("GF_DATABASE_PASSWORD", "GF_DATABASE_PASSWORD__FILE");
    ("GF_AUTH_GENERIC_OAUTH_CLIENT_SECRET", "GF_AUTH_GENERIC_OAUTH_CLIENT_SECRET__FILE");
    ("GF_AUTH_GOOGLE_CLIENT_SECRET", "GF_AUTH_GOOGLE_CLIENT_SECRET__FILE")])].

Definition serviceHasEnvironmentVariable (s : AnalyzedService) (name : string) : bool :=
  Has (environment (service s)) name ||
  existsb (λ f, isSet (Variables f !! name)) (envFiles (service s)).

Definition serviceSecretReplacements (s : AnalyzedService) : list string :=
  match parseNamed (trim_space (serviceImage (service s))) with
  | None => []
  | Some named =>
      let image := if bool_decide (Domain named = "registry-1.docker.io")
                   then "docker.io/" +:+ PathOf named else Name named in
      let variables := match List.find (λ kv, bool_decide (kv.1 = image)) serviceSecretVariables with
                       | Some (_, l) => l | None => [] end in
      map (λ v, v.1 +:+ " -> " +:+ v.2) (List.filter (λ v, serviceHasEnvironmentVariable s v.1) variables)
  end.
Definition analyzeSecrets (s : AnalyzedService) : list finding :=
  match serviceSecretReplacements s with
  | [] => []
  | replacements =>
      [(TypeServiceSecretsEnvironment, SeverityMedium, "Use Docker secrets for sensitive environment variables",
        "Sensitive environment variables detected. Use the file-based alternatives supported by this image: " +:+
        join_strings "; " replacements +:+ ". Mount Docker Swarm Secrets under /run/secrets/ and set each " +:+
        "file-based variable to its secret file path. Remove the plaintext credential variables from the " +:+
        "service environment (including env_file) after migration.")]
  end.

(** The analyzers of [InitModule], in their order. *)
Definition analyzers (stack : string) : list (AnalyzedService → list finding) :=
  [analyzeResources; analyzeImage; analyzeRestartPolicy; analyzeScheduled stack; analyzeHostPort; analyzeDockerConfig;
   analyzeDockerSocket; analyzeCapabilities; analyzeSecrets].

Definition recommendation (stack : AnalyzedStack) (now : Time) (s : AnalyzedService) (f : finding) : Recommendation :=
  let '(type, severity, title, text) := f in
  {| Severity := severity; Type_ := type; source := SourceFromStack stack;
     subject := {| subjectStack := stackName stack; subjectService := analyzedName s |};
     Title := title; Text := text; CreatedAt := now |}.

(** [compositeAnalyzer.Analyze]; an analysis takes place at one instant. *)
Definition Analyze (now : Time) (stack : AnalyzedStack) : list Recommendation :=
  flat_map (λ analyze, flat_map (λ s, map (recommendation stack now s) (analyze s))
                         (fileServices (Definition_ stack))) (analyzers (stackName stack)).
End Analyzers.

(** ** The table ([modelstore/sqlite.go]) *)
(** The rows in their sequence, the versions of the projection, the definitions of the
    deployments, and the statements executed so far. *)
Record RecommendationDB := {
  rows : list Recommendation; versions : gmap string (Time * string); definitions : gmap string AnalyzedFile;
  executed : nat;
}.
Notation Db := (St RecommendationDB string).

Definition withRows (l : list Recommendation) (db : RecommendationDB) : RecommendationDB :=
  {| rows := l; versions := versions db; definitions := definitions db; executed := executed db |}.
Definition withVersions (m : gmap string (Time * string)) (db : RecommendationDB) : RecommendationDB :=
  {| rows := rows db; versions := m; definitions := definitions db; executed := executed db |}.

(** The columns of the unique index. *)
Definition keyOf (r : Recommendation) : string * string * string * string :=
  (subjectStack (subject r), subjectService (subject r), sourceFile (source r), Type_ r).

Definition setCreatedAt (r : Recommendation) (at_ : Time) : Recommendation :=
  {| Severity := Severity r; Type_ := Type_ r; source := source r; subject := subject r; Title := Title r;
     Text := Text r; CreatedAt := at_ |}.
Definition setStack (r : Recommendation) (stack : string) : Recommendation :=
  {| Severity := Severity r; Type_ := Type_ r; source := source r;
     subject := {| subjectStack := stack; subjectService := subjectService (subject r) |}; Title := Title r;
     Text := Text r; CreatedAt := CreatedAt r |}.

Section Store.
(** The error of the n-th statement. *)
Context (statementFault : nat → option string).

Definition statement : Db () := λ db,
  let db' := {| rows := rows db; versions := versions db; definitions := definitions db; executed := S (executed db) |} in
  match statementFault (executed db) with Some e => (Err e, db') | None => (Ok (), db') end.

(** [modelstore.ListFilter] *)
Record RecommendationFilter := { filterStack : string; filterLimit : Z }.

(** [SQLStore.List] *)
Definition List_ (f : RecommendationFilter) : Db (list Recommendation) :=
  do! statement in
  λ db,
    let l := if bool_decide (filterStack f = "") then rows db
             else filter (λ r, subjectStack (subject r) = filterStack f) (rows db) in
    (Ok (if (0 <? filterLimit f)%Z then take (Z.to_nat (filterLimit f)) l else l), db).

(** [recommendationForStorage], with the rows by their keys. *)
Definition recommendationForStorage (r : Recommendation)
    (previous : gmap (string * string * string * string) Recommendation) : Result string Recommendation :=
  let r := match previous !! keyOf r with Some existing => setCreatedAt r (CreatedAt existing) | None => r end in
  if is_zero (CreatedAt r) then Err "recommendation creation time is required" else Ok r.

(** The insertion: a row of the same key stays. *)
Definition insertRow (r : Recommendation) : Db () :=
  do! statement in
  st_modify (λ db, if existsb (λ r', bool_decide (keyOf r' = keyOf r)) (rows db) then db
                   else withRows (rows db ++ [r]) db).

Fixpoint insertEach (stack : string) (previous : gmap (string * string * string * string) Recommendation)
    (recommendations : list Recommendation) : Db () :=
  match recommendations with
  | [] => st_ret ()
  | r :: recommendations =>
      let! r := st_lift (recommendationForStorage (setStack r stack) previous) in
      do! insertRow r in insertEach stack previous recommendations
  end.

(** [SQLStore.UpdateStack] *)
Definition UpdateStack (stack : string) (recommendations : list Recommendation) : Db () :=
  within_transaction (
    let! previous := List_ {| filterStack := stack; filterLimit := 0 |} in
    let byKey := fold_left (λ m r, <[keyOf r := r]> m) previous ∅ in
    do! statement in
    do! st_modify (λ db, withRows (filter (λ r, subjectStack (subject r) ≠ stack) (rows db)) db) in
    insertEach stack byKey recommendations).

(** ** The subscriber *)
(** [storage.AdvanceProjection] of the projection "recommendations". *)
Definition AdvanceProjection (resource : string) (at_ : Time) (id : string) : Db bool :=
  if is_zero at_ then st_throw "projection occurrence time is required"
  else within_transaction (
    do! statement in
    λ db,
      match versions db !! resource with
      | None => (Ok true, withVersions (<[resource := (at_, id)]> (versions db)) db)
      | Some current =>
          (do! statement in
           λ db,
             if Alerts.newer (at_, id) current
             then (Ok true, withVersions (<[resource := (at_, id)]> (versions db)) db)
             else (Ok false, db)) db
      end).

(** [events.Envelope], with what the subscriber reads of the event. *)
Record Envelope := { ID : string; OccurredAt : Time; Event : DeploymentService.event }.

Definition deployEvent (e : DeploymentService.event) : option DeploymentService.DeployEvent :=
  match e with
  | DeploymentService.DeploySuccess meta | DeploymentService.DeployFailed meta _ _ _ => Some meta
  | _ => None
  end.

Context (parseNamed : string → option Named) (selfHealDefault : bool) (stacks : list StackSpec).

(** [Recommender.Recommend] *)
Definition Recommend (now : Time) (stack : AnalyzedStack) : Db () :=
  UpdateStack (stackName stack) (Analyze parseNamed selfHealDefault stacks now stack).

(** [RecommenderEventSubscriber.Handle] behind [WithDesired]: the definition is read by the
    identifier of the deployment. *)
Definition handleWithDesired (now : Time) (meta : DeploymentService.DeployEvent) : Db () :=
  if bool_decide (DeploymentService.eventDeploymentID meta = "") then st_throw "deployment reference missing"
  else
    do! statement in
    λ db,
      match definitions db !! DeploymentService.eventDeploymentID meta with
      | None => (Err "not found", db)
      | Some definition =>
          Recommend now {| stackName := DeploymentService.eventStack meta; Definition_ := definition;
                           stackCommit := DeploymentService.eventCommit meta |} db
      end.

(** [orderedSubscriber.Handle] *)
Definition Handle (now : Time) (e : Envelope) : Db () :=
  match deployEvent (Event e) with
  | None => st_ret ()
  | Some meta =>
      within_transaction (
        let! accepted := AdvanceProjection (DeploymentService.eventStack meta) (OccurredAt e) (ID e) in
        if accepted : bool then handleWithDesired now meta else st_ret ())
  end.
End Store.
