(* ===== verification/RecommendationsSafety.v ===== *)
(** * What the recommendations promise

    The table shows, for every stack, what the analyzers find in the newest deployment, however
    often and in whatever order the completions are delivered. *)
From S2P Require Import Prelude GoStrings Recommendations.
From S2P Require Alerts DeploymentService.
Import DeploymentService(DeployEvent, eventDeploymentID, eventStack, eventCommit, DeploySuccess, DeployFailed).
Local Open Scope go_scope.

(** ** Versions *)
Lemma versions_total v w : Alerts.newer v w = false → Alerts.newer w v = false → v = w.
Proof.
  destruct v as [t i], w as [u j]. unfold Alerts.newer. cbn [fst snd].
  intros [H1%bool_decide_eq_false_1 H2]%orb_false_iff [H3%bool_decide_eq_false_1 H4]%orb_false_iff.
  assert (t = u) as -> by lia. rewrite bool_decide_eq_true_2 in H2, H4 by done. cbn [andb] in *.
  destruct (decide (i = j)) as [->|Hne]; [done|]. apply string_lt_trichotomy in H4; [congruence|congruence].
Qed.

(** What is newer than something is not older than it. *)
Lemma versions_trans v w u : Alerts.newer v w = true → Alerts.newer v u = false → Alerts.newer u w = true.
Proof.
  destruct v as [t i], w as [r j], u as [s k]. unfold Alerts.newer. cbn [fst snd].
  intros H1 [H2%bool_decide_eq_false_1 H3]%orb_false_iff.
  apply orb_true_iff in H1 as [H1%bool_decide_eq_true_1|[H1%bool_decide_eq_true_1 H4]%andb_true_iff].
  { apply orb_true_iff. left. apply bool_decide_eq_true_2. lia. }
  subst r. destruct (decide (t = s)) as [->|Hne].
  - rewrite bool_decide_eq_true_2 in H3 by done. cbn [andb] in H3. apply orb_true_iff. right.
    rewrite bool_decide_eq_true_2 by done. cbn [andb].
    destruct (string_lt_cotrans _ k _ H4) as [?|?]; congruence.
  - apply orb_true_iff. left. apply bool_decide_eq_true_2. lia.
Qed.

(** ** The unique index drops nothing *)
Lemma NoDup_flat_map_tag {A B K} (f : A → list B) (u : B → K) ks l :
  Forall2 (λ k x, NoDup (f x) ∧ ∀ b, b ∈ f x → u b = k) ks l → NoDup ks → NoDup (flat_map f l).
Proof.
  induction 1 as [|k x ks l [Hnd Hu] HF IH]; intros Hks; cbn; [constructor|].
  apply NoDup_cons in Hks as [Hk Hks]. apply NoDup_app. split; [done|]. split; [|by apply IH].
  intros b Hb Hin. apply Hk. rewrite <- (Hu b Hb). clear Hnd Hu Hb Hk Hks IH.
  induction HF as [|k' x' ks l [_ Hu'] HF IH]; cbn in Hin; [by apply elem_of_nil in Hin|].
  apply elem_of_app in Hin as [Hin|Hin]; [rewrite (Hu' _ Hin); left|right; by apply IH].
Qed.

Lemma flat_map_map_out {A B C} (f : A → list B) (g : B → C) l : flat_map (λ x, map g (f x)) l = map g (flat_map f l).
Proof. induction l as [|x l IH]; cbn; [done|]. by rewrite map_app, IH. Qed.

(** The analyzer that reports a type, by its position. *)
Definition typeGroups : list (list string) := [
  [TypeServiceResourcesUnspecified; TypeServiceResourcesLimitsUnspecified];
  [TypeServiceImageLatest; TypeServiceImageDigestUnspecified]; [TypeServiceRestartPolicyUnspecified];
  [TypeServiceSelfHealScheduledService]; [TypeServiceHostPortStartFirst];
  [TypeServiceSwarmDeployDockerConfigMissing]; [TypeServiceDockerSocketMount];
  [TypeServiceCapabilitiesAll; TypeServiceCapabilitiesPrivileged; TypeServiceCapabilitiesSensitive];
  [TypeServiceSecretsEnvironment]].
Definition analyzerOf (type : string) : option nat :=
  fst <$> list_find (λ g, type ∈ g) typeGroups.

Section Types.
Context (parseNamed : string → option Named) (selfHealDefault : bool) (stacks : list Config.StackSpec).

Definition typeOf (f : finding) : string := f.1.1.1.
(** The types of a report, in order, are a sublist of its group. *)
Definition reports (i : nat) (analyze : AnalyzedService → list finding) : Prop :=
  ∀ s, NoDup (map typeOf (analyze s)) ∧ ∀ f, f ∈ analyze s → analyzerOf (typeOf f) = Some i.

Lemma report_some i (l : list finding) :
  bool_decide (NoDup (map typeOf l)) && forallb (λ f, bool_decide (analyzerOf (typeOf f) = Some i)) l = true →
  NoDup (map typeOf l) ∧ ∀ f, f ∈ l → analyzerOf (typeOf f) = Some i.
Proof.
  intros [Hnd%bool_decide_eq_true_1 Hall]%andb_true_iff. split; [done|]. intros f Hf.
  rewrite forallb_forall in Hall. by apply list_elem_of_In, Hall, bool_decide_eq_true_1 in Hf.
Qed.

Ltac report := intros ?; repeat case_match; apply report_some; vm_compute; reflexivity.
Lemma analyzers_report stack :
  Forall2 reports (seq 0 9) (analyzers parseNamed selfHealDefault stacks stack).
Proof.
  unfold analyzers, seq. repeat (apply List.Forall2_cons; [|try apply List.Forall2_nil]).
  - unfold analyzeResources. report.
  - unfold analyzeImage. report.
  - unfold analyzeRestartPolicy. report.
  - unfold analyzeScheduled. report.
  - unfold analyzeHostPort. report.
  - unfold analyzeDockerConfig. report.
  - unfold analyzeDockerSocket. report.
  - unfold analyzeCapabilities. report.
  - unfold analyzeSecrets. report.
Qed.

Lemma typeOf_recommendation stack now s f : keyOf (recommendation stack now s f) =
  (stackName stack, analyzedName s, filePath (Definition_ stack), typeOf f).
Proof. by destruct f as [[[]]]. Qed.

(** Services of different names never share a key. *)
Lemma Analyze_keys now stack :
  NoDup (map analyzedName (fileServices (Definition_ stack))) →
  NoDup (map keyOf (Analyze parseNamed selfHealDefault stacks now stack)).
Proof.
  intros Hnames. unfold Analyze. rewrite <- flat_map_map_out.
  eapply (NoDup_flat_map_tag _ (λ k, analyzerOf k.2)); [|apply (NoDup_fmap_2 Some), (NoDup_seq 0 9)].
  apply Forall2_fmap_l. eapply Forall2_impl; [apply analyzers_report|]. intros i analyze Hrep. cbn beta.
  split.
  - rewrite <- flat_map_map_out. eapply (NoDup_flat_map_tag _ (λ k, k.1.1.2)); [|exact Hnames].
    apply Forall2_fmap_l, Forall2_same_length_lookup_2; [done|]. intros j s s' Hs Hs'. simplify_eq.
    destruct (Hrep s) as [Hnd _]. split.
    + rewrite map_map. eapply (NoDup_fmap_1 (λ k, k.2)). rewrite <- list_fmap_compose.
      erewrite list_fmap_ext; [exact Hnd|]. by intros ? [[[]]] _.
    + intros k Hk. apply list_elem_of_fmap in Hk as (r & -> & (f & -> & _)%list_elem_of_fmap).
      by rewrite typeOf_recommendation.
  - intros k Hk. apply list_elem_of_fmap in Hk as (r & -> & Hr).
    apply list_elem_of_In, in_flat_map in Hr as (s & _ & Hr).
    apply list_elem_of_In, list_elem_of_fmap in Hr as (f & -> & Hf).
    rewrite typeOf_recommendation. by apply (Hrep s).
Qed.

(** A recommendation but for its time. *)
Definition content (r : Recommendation) : Recommendation := setCreatedAt r 0.

Lemma Analyze_content now stack :
  map content (Analyze parseNamed selfHealDefault stacks now stack) =
  Analyze parseNamed selfHealDefault stacks 0 stack.
Proof.
  unfold Analyze. rewrite <- flat_map_map_out. apply flat_map_ext. intros analyze.
  rewrite <- flat_map_map_out. apply flat_map_ext. intros s. rewrite map_map. apply map_ext. by intros [[[]]].
Qed.

Lemma Analyze_stack now stack r :
  r ∈ Analyze parseNamed selfHealDefault stacks now stack → subjectStack (subject r) = stackName stack.
Proof.
  intros Hr. apply list_elem_of_In, in_flat_map in Hr as (a & _ & Hr). apply in_flat_map in Hr as (s & _ & Hr).
  by apply list_elem_of_In, list_elem_of_fmap in Hr as ([[[]]] & -> & _).
Qed.
End Types.

(** ** The table *)
Section Table.
Context (statementFault : nat → option string).
Context (parseNamed : string → option Named) (selfHealDefault : bool) (stacks : list Config.StackSpec).
Local Notation Analyze := (Analyze parseNamed selfHealDefault stacks).
Local Notation Handle := (Handle statementFault parseNamed selfHealDefault stacks).

Definition sameRows (db db' : RecommendationDB) : Prop :=
  rows db' = rows db ∧ versions db' = versions db ∧ definitions db' = definitions db.

Lemma statement_advances db db' : statement statementFault db = (Ok (), db') → sameRows db db'.
Proof. unfold statement. destruct (statementFault _); [done|]. by intros [= <-]. Qed.

Definition rowsOf (k : string) (db : RecommendationDB) : list Recommendation :=
  filter (λ r, subjectStack (subject r) = k) (rows db).
Definition rowsBut (k : string) (db : RecommendationDB) : list Recommendation :=
  filter (λ r, subjectStack (subject r) ≠ k) (rows db).

#[local] Arguments keyOf : simpl never.
Lemma keyed_stack r k : (keyOf r).1.1.1 = k ↔ subjectStack (subject r) = k.
Proof. by destruct r as [? ? ? []]. Qed.

Lemma insertRow_ok k r db db' :
  insertRow statementFault r db = (Ok (), db') → subjectStack (subject r) = k →
  keyOf r ∉ map keyOf (rowsOf k db) →
  versions db' = versions db ∧ definitions db' = definitions db ∧ rowsOf k db' = rowsOf k db ++ [r] ∧
  rowsBut k db' = rowsBut k db.
Proof.
  intros Hrun Hk Hnew. unfold insertRow in Hrun. st_inv. destruct a.
  apply statement_advances in Hrun0 as (Hr & Hv & Hd). unfold rowsOf, rowsBut.
  destruct (existsb _ (rows s)) eqn:He.
  - apply existsb_exists in He as (r' & Hin & Heq%bool_decide_eq_true_1). destruct Hnew.
    apply list_elem_of_fmap. exists r'. split; [done|]. apply list_elem_of_filter. split.
    + apply (proj1 (keyed_stack _ _)). rewrite Heq. by apply (proj2 (keyed_stack _ _)).
    + by rewrite <- Hr, list_elem_of_In.
  - cbn. rewrite Hv, Hd, Hr, !filter_app, filter_cons_True by done.
    rewrite (filter_cons_False _ r) by (by intros []). by rewrite app_nil_r.
Qed.

(** What the table stores for a recommendation: a key that was there keeps its time. *)
Definition stored (previous : gmap (string * string * string * string) Recommendation) (r : Recommendation) :=
  match previous !! keyOf r with Some existing => setCreatedAt r (CreatedAt existing) | None => r end.

Lemma stored_key previous r : keyOf (stored previous r) = keyOf r.
Proof. unfold stored. by destruct (previous !! _). Qed.
Lemma stored_content previous r : content (stored previous r) = content r.
Proof. unfold stored. by destruct (previous !! _). Qed.
Lemma setStack_same r : setStack r (subjectStack (subject r)) = r.
Proof. by destruct r as [? ? ? []]. Qed.

Lemma insertEach_ok k previous recs db db' :
  insertEach statementFault k previous recs db = (Ok (), db') →
  (∀ r, r ∈ recs → subjectStack (subject r) = k) → NoDup (map keyOf (rowsOf k db) ++ map keyOf recs) →
  versions db' = versions db ∧ definitions db' = definitions db ∧
  rowsOf k db' = rowsOf k db ++ map (stored previous) recs ∧ rowsBut k db' = rowsBut k db.
Proof.
  revert db. induction recs as [|r recs IH]; intros db Hrun Hk Hnd; cbn [insertEach map] in *.
  { unfold st_ret in Hrun. simplify_eq. by rewrite app_nil_r. }
  assert (subjectStack (subject r) = k) as Hr by (apply Hk; left).
  rewrite <- Hr, setStack_same, Hr in Hrun.
  apply st_bind_ok in Hrun as (r' & s & Hst & Hrun). unfold st_lift in Hst. injection Hst as Hst <-.
  assert (r' = stored previous r) as ->.
  { change (recommendationForStorage r previous) with
      (if is_zero (CreatedAt (stored previous r)) then Err "recommendation creation time is required"
       else Ok (stored previous r)) in Hst. destruct (is_zero _); congruence. }
  apply st_bind_ok in Hrun as ([] & s & Hins & Hrun).
  apply NoDup_app in Hnd as Hnd'. destruct Hnd' as (_ & Hdis & _).
  apply (insertRow_ok k) in Hins as (Hv & Hd & Hrows & Hbut).
  - destruct (IH _ Hrun) as (Hv' & Hd' & Hrows' & Hbut').
    + intros r' ?. apply Hk. by right.
    + rewrite Hrows, map_app. cbn. by rewrite stored_key, <- app_assoc.
    + split; [congruence|]. split; [congruence|]. split; [|congruence]. by rewrite Hrows', Hrows, <- app_assoc.
  - apply (proj1 (keyed_stack _ _)). rewrite stored_key. by apply (proj2 (keyed_stack _ _)).
  - rewrite stored_key. intros Hin. apply (Hdis _ Hin). left.
Qed.

Lemma UpdateStack_ok k recs db db' :
  UpdateStack statementFault k recs db = (Ok (), db') →
  (∀ r, r ∈ recs → subjectStack (subject r) = k) → NoDup (map keyOf recs) →
  versions db' = versions db ∧ definitions db' = definitions db ∧
  map content (rowsOf k db') = map content recs ∧ rowsBut k db' = rowsBut k db.
Proof.
  unfold UpdateStack. intros Hrun Hk Hnd. rewrite within_transaction_ok in Hrun.
  apply st_bind_ok in Hrun as (previous & s & Hlist & Hrun).
  assert (sameRows db s) as (Hr & Hv & Hd).
  { unfold List_ in Hlist. apply st_bind_ok in Hlist as ([] & s' & Hst & Hlist). injection Hlist as _ <-.
    by apply statement_advances. }
  apply st_bind_ok in Hrun as ([] & s1 & Hst & Hrun). apply statement_advances in Hst as (Hr1 & Hv1 & Hd1).
  apply st_bind_ok in Hrun as ([] & s2 & Hmod & Hrun). unfold st_modify in Hmod. injection Hmod as <-.
  assert (rowsOf k (withRows (filter (λ r, subjectStack (subject r) ≠ k) (rows s1)) s1) = []) as Hnone.
  { unfold rowsOf. cbn. apply elem_of_nil_inv. intros r [Hin [Hno _]%list_elem_of_filter]%list_elem_of_filter.
    by apply Hno. }
  apply insertEach_ok in Hrun as (Hv2 & Hd2 & Hrows & Hbut); [|done|].
  - cbn in Hv2, Hd2. split; [congruence|]. split; [congruence|]. split.
    + rewrite Hrows, Hnone. cbn. rewrite map_map. apply map_ext. intros r. apply stored_content.
    + rewrite Hbut. unfold rowsBut. cbn. rewrite Hr1, Hr. rewrite list_filter_filter.
      apply list_filter_iff. naive_solver.
  - by rewrite Hnone.
Qed.

(** ** Deliveries *)
Definition version (e : Envelope) : Time * string := (OccurredAt e, ID e).
Definition fresh (k : string) (e : Envelope) (db : RecommendationDB) : bool :=
  match versions db !! k with Some v => Alerts.newer (version e) v | None => true end.
Definition concerns (k : string) (e : Envelope) : Prop :=
  ∃ meta, deployEvent (Event e) = Some meta ∧ eventStack meta = k.

#[local] Instance concerns_dec k e : Decision (concerns k e).
Proof.
  refine (match deployEvent (Event e) as o return deployEvent (Event e) = o → _ with
          | Some meta => λ Hm, cast_if (decide (eventStack meta = k))
          | None => λ Hm, right _ end eq_refl); unfold concerns; rewrite Hm; naive_solver.
Defined.

(** What the analyzers find in a deployment. *)
Definition findings (meta : DeployEvent) (f : AnalyzedFile) : list Recommendation :=
  Analyze 0 {| stackName := eventStack meta; Definition_ := f; stackCommit := eventCommit meta |}.

Definition distinctNames (db : RecommendationDB) : Prop :=
  ∀ id f, definitions db !! id = Some f → NoDup (map analyzedName (fileServices f)).

Lemma AdvanceProjection_fresh k e db accepted db' :
  AdvanceProjection statementFault k (OccurredAt e) (ID e) db = (Ok accepted, db') →
  accepted = fresh k e db ∧ rows db' = rows db ∧ definitions db' = definitions db ∧
  versions db' = if accepted : bool then <[k := version e]> (versions db) else versions db.
Proof.
  unfold AdvanceProjection, fresh, version. destruct (is_zero _); [done|]. rewrite within_transaction_ok.
  intros Hrun. apply st_bind_ok in Hrun as ([] & s & Hst & Hrun). apply statement_advances in Hst as (Hr & Hv & Hd).
  rewrite Hv in Hrun. destruct (versions db !! k) as [v|].
  - apply st_bind_ok in Hrun as ([] & s' & Hst & Hrun). apply statement_advances in Hst as (Hr' & Hv' & Hd').
    destruct (Alerts.newer _ v); injection Hrun as <- <-; cbn; split_and!; try done; congruence.
  - injection Hrun as <- <-. cbn. split_and!; try done; congruence.
Qed.

Definition effect (e : Envelope) (db db' : RecommendationDB) : Prop :=
  match deployEvent (Event e) with
  | None => sameRows db db'
  | Some meta =>
      let k := eventStack meta in
      if fresh k e db then
        ∃ f, definitions db !! eventDeploymentID meta = Some f ∧ definitions db' = definitions db ∧
          versions db' = <[k := version e]> (versions db) ∧ map content (rowsOf k db') = findings meta f ∧
          rowsBut k db' = rowsBut k db
      else sameRows db db'
  end.

Lemma Handle_effect now e db db' : Handle now e db = (Ok (), db') → distinctNames db → effect e db db'.
Proof.
  unfold Handle, effect. intros Hrun Hnames. destruct (deployEvent (Event e)) as [meta|]; [|by injection Hrun as <-].
  rewrite within_transaction_ok in Hrun. apply st_bind_ok in Hrun as (accepted & s & Hadv & Hrun).
  apply AdvanceProjection_fresh in Hadv as (-> & Hr & Hd & Hv). cbv zeta.
  destruct (fresh (eventStack meta) e db); [|by injection Hrun as <-].
  unfold handleWithDesired in Hrun. case_bool_decide; [done|].
  apply st_bind_ok in Hrun as ([] & s1 & Hst & Hrun). apply statement_advances in Hst as (Hr1 & Hv1 & Hd1).
  rewrite Hd1, Hd in Hrun. destruct (definitions db !! _) as [f|] eqn:Hf; [|done].
  apply UpdateStack_ok in Hrun as (Hv2 & Hd2 & Hrows & Hbut).
  - exists f. split; [done|]. split; [congruence|]. split; [congruence|]. split.
    + etrans; [exact Hrows|apply Analyze_content].
    + cbn in Hbut. rewrite Hbut. unfold rowsBut. by rewrite Hr1, Hr.
  - intros r Hin. exact (Analyze_stack _ _ _ _ _ _ Hin).
  - apply Analyze_keys. cbn. by apply (Hnames _ _ Hf).
Qed.

(** Deliveries one after the other, each at its time; the index lists those that succeed. *)
Inductive recommended : list Envelope → RecommendationDB → RecommendationDB → Prop :=
| recommended_nil db : recommended [] db db
| recommended_ok now e es db db1 db' :
    Handle now e db = (Ok (), db1) → recommended es db1 db' → recommended (e :: es) db db'
| recommended_err now e err es db db1 db' :
    Handle now e db = (Err err, db1) → recommended es db1 db' → recommended es db db'.

Lemma Handle_fails now e err db db' : Handle now e db = (Err err, db') → db' = db.
Proof. unfold Handle. destruct (deployEvent _); [|done]. apply within_transaction_err. Qed.

Lemma versions_asym v w : Alerts.newer v w = true → Alerts.newer w v = false.
Proof.
  destruct v as [t i], w as [r j]. unfold Alerts.newer. cbn [fst snd].
  intros [H1%bool_decide_eq_true_1|[H1%bool_decide_eq_true_1 H2]%andb_true_iff]%orb_true_iff.
  - rewrite !bool_decide_eq_false_2 by lia. done.
  - subst. rewrite bool_decide_eq_false_2, bool_decide_eq_true_2 by lia. cbn. by apply string_lt_asym.
Qed.

Lemma versions_irrefl v : Alerts.newer v v = false.
Proof. destruct (Alerts.newer v v) eqn:H; [|done]. by rewrite (versions_asym _ _ H) in H. Qed.

(** The rows of another stack are among those that an update keeps. *)
Lemma rowsOf_other k k' db db' : k ≠ k' → rowsBut k db' = rowsBut k db → rowsOf k' db' = rowsOf k' db.
Proof.
  intros Hne Hbut.
  assert (∀ d, rowsOf k' d = filter (λ r, subjectStack (subject r) = k') (rowsBut k d)) as Hof.
  { intros d. unfold rowsOf, rowsBut. rewrite list_filter_filter. apply list_filter_iff. naive_solver. }
  by rewrite !Hof, Hbut.
Qed.

Lemma effect_other k e db db' :
  effect e db db' → ¬ (concerns k e ∧ fresh k e db = true) →
  definitions db' = definitions db ∧ versions db' !! k = versions db !! k ∧ rowsOf k db' = rowsOf k db.
Proof.
  unfold effect, concerns. intros He Hno. destruct (deployEvent (Event e)) as [meta|].
  - cbv zeta in He. destruct (fresh (eventStack meta) e db) eqn:Hf.
    + assert (eventStack meta ≠ k) as Hne by naive_solver. destruct He as (f & _ & Hd & Hv & _ & Hbut).
      split; [done|]. split; [by rewrite Hv, lookup_insert_ne|]. by apply (rowsOf_other (eventStack meta)).
    + destruct He as (Hr & Hv & Hd). unfold rowsOf. by rewrite Hr, Hv, Hd.
  - destruct He as (Hr & Hv & Hd). unfold rowsOf. by rewrite Hr, Hv, Hd.
Qed.

(** The stack after the deliveries: as it was, or showing one that none of them is newer than. *)
Lemma recommended_stack es db db' k :
  recommended es db db' → distinctNames db →
  definitions db' = definitions db ∧
  ((versions db' !! k = versions db !! k ∧ rowsOf k db' = rowsOf k db ∧
    ∀ e, e ∈ es → concerns k e → fresh k e db = false) ∨
   ∃ e meta f, e ∈ es ∧ deployEvent (Event e) = Some meta ∧ eventStack meta = k ∧ fresh k e db = true ∧
     definitions db !! eventDeploymentID meta = Some f ∧ map content (rowsOf k db') = findings meta f ∧
     ∀ e', e' ∈ es → concerns k e' → Alerts.newer (version e') (version e) = false).
Proof.
  induction 1 as [db|now e es db db1 db' Hrun Hrec IH|now e err es db db1 db' Hrun Hrec IH]; intros Hnames.
  - split; [done|]. left. split; [done|]. split; [done|]. by intros e ?%elem_of_nil.
  - apply Handle_effect in Hrun; [|done].
    destruct (decide (concerns k e ∧ fresh k e db = true)) as [[Hcon Hfresh]|Hno].
    + destruct Hcon as (meta & Hm & Hk). unfold effect in Hrun. rewrite Hm in Hrun. cbv zeta in Hrun.
      rewrite Hk, Hfresh in Hrun. destruct Hrun as (f & Hf & Hd & Hv & Hrows & _).
      assert (versions db1 !! k = Some (version e)) as Hk1 by (by rewrite Hv, lookup_insert_eq).
      destruct IH as (Hd' & [(Hv' & Hrows' & Hold)|(e' & meta' & f' & He' & Hm' & Hk' & Hf1 & Hdef & Hcont & Hold)]);
        [intros id g; rewrite Hd; apply Hnames| |]; (split; [congruence|right]).
      * exists e, meta, f. split_and!; try done; [left|by rewrite Hrows'|].
        intros e' [->|He']%elem_of_cons Hc; [apply versions_irrefl|].
        specialize (Hold e' He' Hc). unfold fresh in Hold. by rewrite Hk1 in Hold.
      * unfold fresh in Hf1. rewrite Hk1 in Hf1.
        exists e', meta', f'. split_and!; try done; [by right| |congruence|].
        -- unfold fresh in *. destruct (versions db !! k) as [v|]; [|done].
           apply (versions_trans (version e)); [done|]. by apply versions_asym.
        -- intros e'' [->|He'']%elem_of_cons Hc; [by apply versions_asym|by apply Hold].
    + apply effect_other with (k := k) in Hrun as (Hd & Hv & Hrows); [|done].
      destruct IH as (Hd' & [(Hv' & Hrows' & Hold)|(e' & meta' & f' & He' & Hm' & Hk' & Hf1 & Hdef & Hcont & Hold)]);
        [intros id g; rewrite Hd; apply Hnames| |]; (split; [congruence|]).
      * left. split_and!; try congruence. intros e' [->|He']%elem_of_cons Hc.
        -- destruct (fresh k e db) eqn:Hf; [by destruct Hno|done].
        -- specialize (Hold e' He' Hc). unfold fresh in *. by rewrite Hv in Hold.
      * right. assert (fresh k e' db = true) as Hf2 by (unfold fresh in *; by rewrite Hv in Hf1).
        exists e', meta', f'. split_and!; try done; [by right|congruence|].
        intros e'' [->|He'']%elem_of_cons Hc; [|by apply Hold].
        destruct (fresh k e db) eqn:Hf; [by destruct Hno|]. unfold fresh in *.
        destruct (versions db !! k) as [v|]; [|done].
        apply versions_asym. destruct (Alerts.newer (version e') (version e)) eqn:Hn; [done|].
        by rewrite (versions_trans _ _ _ Hf2 Hn) in Hf.
  - apply Handle_fails in Hrun as ->. by apply IH.
Qed.
End Table.

(** C19. The recommendations of a stack follow its newest deployment. Completions are delivered
    in any order and any number of times, and some deliveries fail. A stack for which the
    newest successfully delivered completion is newer than what the table shows then has
    exactly what the analyzers find in the definition of that deployment, but for creation
    times: nothing is dropped at the unique index, nothing of an older deployment remains. A
    stack without a newer completion keeps its rows as they are. *)
Theorem recommendations_follow_newest statementFault parseNamed selfHealDefault stacks es db db' k
    (H : recommended statementFault parseNamed selfHealDefault stacks es db db')
    (Hnames : distinctNames db) :
  (∀ e meta, e ∈ es → deployEvent (Event e) = Some meta → eventStack meta = k → fresh k e db = true →
     (∀ e', e' ∈ es → concerns k e' → e' = e ∨ Alerts.newer (version e) (version e') = true) →
     ∃ f, definitions db !! eventDeploymentID meta = Some f ∧
       map content (rowsOf k db') = findings parseNamed selfHealDefault stacks meta f) ∧
  ((∀ e, e ∈ es → concerns k e → fresh k e db = false) → rowsOf k db' = rowsOf k db).
Proof.
  destruct (recommended_stack _ _ _ _ _ _ _ k H Hnames)
    as [_ [(_ & Hrows & Hold)|(e1 & m1 & f & He1 & Hm1 & Hk1 & Hf1 & Hdef & Hcont & Hold)]].
  - split; [|done]. intros e meta He Hm Hk Hfresh. by rewrite (Hold e He) in Hfresh by (by exists meta).
  - split.
    + intros e meta He Hm Hk Hfresh Hnewest.
      destruct (Hnewest e1 He1) as [->|Hn]; [by exists m1| |].
      * exists f. assert (m1 = meta) as -> by congruence. done.
      * rewrite (Hold e He) in Hn; [done|by exists meta].
    + intros Hnone. rewrite (Hnone e1 He1) in Hf1; [done|by exists m1].
Qed.

Module RecommendationsExample.
Definition parse (s : string) : option Named :=
  Some {| namedDigest := false; namedTag := Some "latest"; Name := "docker.io/library/" +:+ s;
          Domain := "docker.io"; PathOf := "library/" +:+ s; FamiliarName := s |}.
Definition api (capabilities : list string) (volumes : list (option ComposeValues.ServiceVolume)) : AnalyzedService :=
  {| service := {| ComposeFile.desired := {| StackDrift.desiredName := "api"; StackDrift.desiredImage := "postgres";
                     StackDrift.deployMode := ""; StackDrift.deployReplicas := None;
                     StackDrift.deployLabels := ∅ |};
       ComposeFile.serviceImage := "postgres"; ComposeFile.serviceNetworks := None; ComposeFile.configRefs := [];
       ComposeFile.envFiles := [];
       ComposeFile.environment :=
         {| ComposeValues.Unset := []; ComposeValues.EnvMap := {["POSTGRES_PASSWORD" := "x"]};
            ComposeValues.Keys := ["POSTGRES_PASSWORD"]; ComposeValues.isMap := true |};
       ComposeFile.initJobs := []; ComposeFile.serviceVolumes := volumes |};
     DeployResources := None; RestartPolicy := None; UpdateConfig := None; Ports := []; CapAdd := capabilities;
     serviceSecrets := [] |}.
Definition file (s : AnalyzedService) : AnalyzedFile :=
  {| filePath := "shop.yaml"; filesDigest := "d"; fileServices := [s] |}.
Definition socket : ComposeValues.ServiceVolume :=
  ComposeValues.shortVolume "bind" "/var/run/../run/docker.sock" "/sock".
Definition start : RecommendationDB :=
  {| rows := []; versions := ∅;
     definitions := {["d1" := file (api [" sys_admin "; "all"] [Some socket]); "d2" := file (api [] [Some socket])]};
     executed := 0 |}.
Definition meta (deployment : string) : DeployEvent :=
  {| eventDeploymentID := deployment; DeploymentService.eventAttemptID := "a"; eventStack := "shop";
     eventCommit := "c"; DeploymentService.eventServices := [];
     DeploymentService.StackDefinition :=
       {| Comparison.Path := "shop.yaml"; Comparison.Services := []; Comparison.fileDigest := "d" |} |}.
Definition completion (id deployment : string) (at_ : Time) : Envelope :=
  {| ID := id; OccurredAt := at_; Event := DeploySuccess (meta deployment) |}.
Definition old : Envelope := completion "e1" "d1" 10.
Definition new : Envelope := completion "e2" "d2" 20.
Definition run (now : Time) (e : Envelope) (db : RecommendationDB) : RecommendationDB :=
  (Handle (λ _, None) parse false [] now e db).2.
Definition final : RecommendationDB := run 7 new (run 6 old (run 5 new start)).

(** The second delivery of a deployment and the older one change nothing. *)
Example final_rows :
  map (λ r, (Type_ r, Severity r, CreatedAt r)) (rows final) =
  [(TypeServiceResourcesUnspecified, SeverityMedium, 5%Z); (TypeServiceImageLatest, SeverityHigh, 5%Z);
   (TypeServiceRestartPolicyUnspecified, SeverityLow, 5%Z); (TypeServiceDockerSocketMount, SeverityHigh, 5%Z);
   (TypeServiceSecretsEnvironment, SeverityMedium, 5%Z)].
Proof. vm_compute. reflexivity. Qed.

Example old_rows :
  map Type_ (rows (run 9 old start)) =
  [TypeServiceResourcesUnspecified; TypeServiceImageLatest; TypeServiceRestartPolicyUnspecified;
   TypeServiceDockerSocketMount; TypeServiceCapabilitiesAll; TypeServiceCapabilitiesPrivileged;
   TypeServiceSecretsEnvironment].
Proof. vm_compute. reflexivity. Qed.

Lemma recommendations_follow_newest_witness :
  ∃ f, definitions start !! "d2" = Some f ∧
    map content (rowsOf "shop" final) = findings parse false [] (meta "d2") f.
Proof.
  refine (proj1 (recommendations_follow_newest (λ _, None) parse false [] [new; old; new] start final "shop" _ _)
            new (meta "d2") _ _ _ _ _).
  - apply (recommended_ok _ _ _ _ 5 _ _ _ (run 5 new start)); [vm_compute; reflexivity|].
    apply (recommended_ok _ _ _ _ 6 _ _ _ (run 6 old (run 5 new start))); [vm_compute; reflexivity|].
    apply (recommended_ok _ _ _ _ 7 _ _ _ final); [vm_compute; reflexivity|]. apply recommended_nil.
  - intros id f Hf. cbn in Hf. apply lookup_insert_Some in Hf as [[_ <-]|[_ Hf%lookup_singleton_Some]].
    + apply NoDup_singleton.
    + destruct Hf as [_ <-]. apply NoDup_singleton.
  - left.
  - reflexivity.
  - reflexivity.
  - reflexivity.
  - intros e'. rewrite !elem_of_cons, elem_of_nil. intros [->|[->|[->|[]]]] _; [by left|right; reflexivity|by left].
Defined.
End RecommendationsExample.
