(* ===== verification/InitJobs.v ===== *)
(** * Init jobs ([deployments/deployer/initjob])

    A runner executes one job: a Docker service that runs once, is waited for, and whose
    output is collected. The service is deleted in the background. [Run] is a function over
    the class [JobEnvironment], which answers the calls; the deletion is the step relation
    [sys_step] of the callers, the delete worker and the queues between them. *)
From S2P Require Import Prelude GoStrings GoEncoding GoRunes TaskSpecs TaskFailure ResourceReconciler.
From S2P Require DeploymentQueries.
Local Open Scope go_scope.

(** ** Data *)
(** [compose.ObjectRef] and [compose.InitJob], as a job uses them. *)
Record ObjectRef := {
  refSource : string; refTarget : string; refMode : option N; refGid : string; refUid : string;
}.
Record InitJob := {
  jobName : string; jobImage : string; Entrypoint : list string; Command : list string;
  jobEnvironment : list (string * string); jobNetworks : option (list string * list string);
  jobSecrets : list ObjectRef; jobConfigs : list ObjectRef; jobTimeout : Duration;
}.

(** [initjob.Spec]. Of [Job.Networks] a job reads the aliases and the names; its environment
    is given with the order of the iteration over the map. *)
Record Spec := {
  StackName : string; ServiceName : string; DefaultNetwork : list string; NetworkTargets : gmap string string;
  ServiceSecrets : list ObjectRef; ServiceConfigs : list ObjectRef;
  ResolvedSecrets : gmap string ResolvedResource; ResolvedConfigs : gmap string ResolvedResource; Job : InitJob;
}.

Inductive JobStatus := Succeeded | Failed | Interrupted.
#[export] Instance JobStatus_eq_dec : EqDecision JobStatus.
Proof. solve_decision. Defined.

(** [initjob.Result] *)
Record JobResult := {
  resultService : string; resultJob : string; resultStatus : JobStatus; StartedAt : Time; FinishedAt : Time;
  Logs : string; LogsAvailable : bool; LogsTruncated : bool;
}.
(** The zero [Result], whose status is empty. *)
Definition noResult : option JobResult := None.

(** [JobFailedError], or another error by its text. *)
Inductive jobError :=
| JobFailedError (id name reason : string) (logs : list string)
| JobFault (text : string).

(** [swarm.ServiceTask], as the runner reads it. *)
Record JobTask := { jobTaskID : string; jobTaskUpdatedAt : Time; jobTaskState : TaskState; jobTaskError : string; Message : string }.

(** What a secret or config reference of the container holds; a config without a target has no file. *)
Record FileTarget := { fileName : string; fileUID : string; fileGID : string; fileMode : N }.
Record ObjectReference := { referenceID : string; referenceName : string; referenceFile : option FileTarget }.

(** [swarm.ServiceSpec], in the fields that a job sets; it has one replica, and its tasks are not
    restarted. *)
Record JobService := {
  serviceName : string; serviceLabels : gmap string string; containerImage : string;
  containerCommand : list string; containerArgs : list string; containerEnv : list string;
  networkAttachments : list string; secretReferences : list ObjectReference; configReferences : list ObjectReference;
}.
Record CreateOptions := { EncodedRegistryAuth : string; QueryRegistry : bool }.

(** [initJobDeleteTask] *)
Record DeleteTask := { deleteServiceID : string; deleteServiceName : string }.
#[export] Instance DeleteTask_eq_dec : EqDecision DeleteTask.
Proof. solve_decision. Defined.

Definition initJobDeleteTasksBuffer : nat := 128.
Definition initJobDeleteRetryAttempts : nat := 5.
Definition initJobObjectFileMode : N := 292.
Definition initJobLogLimit : Z := 65536.

(** ** Names *)
(** [unicode.ToLower], as far as it gives ASCII letters: besides the upper-case ones these are the
    dotted I and the Kelvin sign. *)
Definition lowerRune (r : rune) : rune :=
  if ((65 <=? r) && (r <=? 90))%N then (r + 32)%N
  else if (r =? 304)%N then 105%N else if (r =? 8490)%N then 107%N else r.

Definition nameRune (r : rune) : Ascii.ascii :=
  if ((97 <=? r) && (r <=? 122))%N || ((48 <=? r) && (r <=? 57))%N then Ascii.ascii_of_N r else "-"%char.

Definition sanitizeForName (v : string) : string :=
  if bool_decide (v = "") then "job"
  else
    let result := trim_byte "-" (String.string_of_list_ascii (map (λ r, nameRune (lowerRune r)) (runes v))) in
    if bool_decide (result = "") then "job" else result.

(** [BuildName] at an instant, in nanoseconds of the Unix epoch. *)
Definition BuildName (jobName : string) (unixNano : Z) : string :=
  sanitizeForName jobName +:+ "-" +:+ FormatInt unixNano.

(** ** The specification of the service *)
Definition uniqueStep (acc : list string * gset string) (value : string) : list string * gset string :=
  let value := trim_space value in
  if bool_decide (value = "") || bool_decide (value ∈ acc.2) then acc
  else (acc.1 ++ [value], {[value]} ∪ acc.2).
Definition uniqueStrings (values : list string) : list string := (fold_left uniqueStep values ([], ∅)).1.

Definition mergeStep (acc : list ObjectRef * gset string) (ref : ObjectRef) : list ObjectRef * gset string :=
  let key := refSource ref +:+ "|" +:+ refTarget ref in
  if bool_decide (refSource ref = "") || bool_decide (key ∈ acc.2) then acc
  else (acc.1 ++ [ref], {[key]} ∪ acc.2).
Definition mergeObjectRefs (a b : list ObjectRef) : list ObjectRef := (fold_left mergeStep (a ++ b) ([], ∅)).1.

Definition networkAliases (networks : option (list string * list string)) : list string :=
  match networks with
  | None => []
  | Some (aliases, names) => match aliases with [] => names | _ => aliases end
  end.

Definition objectMode (mode : option N) : N := default initJobObjectFileMode mode.
Definition objectOwner (object : ObjectRef) : string * string :=
  (if bool_decide (refUid object = "") then "0" else refUid object,
   if bool_decide (refGid object = "") then "0" else refGid object).

Definition objectFile (object : ObjectRef) (target : string) : FileTarget :=
  {| fileName := target; fileUID := (objectOwner object).1; fileGID := (objectOwner object).2;
     fileMode := objectMode (refMode object) |}.

Definition resolvedSecretReference (object : ObjectRef) (resolved : gmap string ResolvedResource)
    : option ObjectReference :=
  resource ← resolved !! refSource object;
  let target := if bool_decide (refTarget object = "") then "/run/secrets/" +:+ refSource object else refTarget object in
  Some {| referenceID := resolvedID resource; referenceName := resolvedName resource;
          referenceFile := Some (objectFile object target) |}.

Definition resolvedConfigReference (object : ObjectRef) (resolved : gmap string ResolvedResource)
    : option ObjectReference :=
  resource ← resolved !! refSource object;
  Some {| referenceID := resolvedID resource; referenceName := resolvedName resource;
          referenceFile := if bool_decide (refTarget object = "") then None
                           else Some (objectFile object (refTarget object)) |}.

Definition initJobEnvironment (environment : list (string * string)) : list string :=
  map (λ kv, kv.1 +:+ "=" +:+ kv.2) environment.

(** ** The calls *)
Inductive networkError := ErrNetworkNotFound | NetworkFault (text : string).
(** What the select of the wait receives: the end of the context, or a tick. *)
Inductive selected := Done (err : string) | Tick.

Class JobEnvironment (W : Type) := {
  Create : JobService → CreateOptions → W → Result string string * W;
  ListTasks : string → W → Result string (list JobTask) * W;
  LogTail : string → Z → W → Result string (string * bool) * W;
  GetNetwork : string → W → Result networkError string * W;
  ResolveSecret : string → string → W → Result string ObjectReference * W;
  ResolveConfig : string → string → W → Result string ObjectReference * W;
  (** [context.WithTimeout], for the context of the creation and the wait. *)
  WithTimeout : Duration → W → W;
  (** The registry credentials of an image. *)
  ResolveImage : string → W → Result string string * W;
  SelectWait : W → selected * W;
  (** The error of the parent context. *)
  ContextErr : W → option string * W;
  Now : W → Time * W;
  (** [sort.Slice] by the time of the update, the newest first. *)
  sortTasks : list JobTask → list JobTask;
}.

(** What a run has done with the service. *)
Inductive jobCall := Created (spec : JobService) (id : string) | Listed (id : string) (tasks : list JobTask).

Section Run.
Context {W : Type} `{JobEnvironment W}.

(** The world, and the calls in their order. *)
Record JobState := { world : W; calls : list jobCall }.
Notation Run_ := (St JobState jobError).

(** A call that answers, whose error gets a prefix. *)
Definition call {A} (prefix : string) (f : W → Result string A * W) : Run_ A := λ s,
  match f (world s) with
  | (Ok a, w) => (Ok a, {| world := w; calls := calls s |})
  | (Err e, w) => (Err (JobFault (prefix +:+ e)), {| world := w; calls := calls s |})
  end.
Definition ask {A} (f : W → A * W) : Run_ A := λ s,
  let '(a, w) := f (world s) in (Ok a, {| world := w; calls := calls s |}).
Definition note (c : jobCall) : Run_ () := st_modify (λ s, {| world := world s; calls := calls s ++ [c] |}).

Fixpoint tryNetworks (network : string) (candidates : list string) : Run_ string :=
  match candidates with
  | [] => st_ret network
  | candidate :: candidates =>
      let! answer := ask (GetNetwork candidate) in
      match answer with
      | Ok id => st_ret id
      | Err ErrNetworkNotFound => tryNetworks network candidates
      | Err (NetworkFault e) => st_throw (JobFault ("resolve init job network " +:+ candidate +:+ ": " +:+ e))
      end
  end.
Definition networkCandidates (stackName network : string) : list string :=
  uniqueStrings ([network] ++
    (if has_prefix (stackName +:+ "_") network then [] else [stackName +:+ "_" +:+ network]) ++
    (if bool_decide (network = "default") then [stackName +:+ "_default"] else [])).
Definition resolveNetworkTarget (stackName network : string) : Run_ string :=
  tryNetworks network (networkCandidates stackName network).

Fixpoint attachNetworks (spec : Spec) (networks : list string) : Run_ (list string) :=
  match networks with
  | [] => st_ret []
  | network :: networks =>
      let known := default "" (NetworkTargets spec !! network) in
      let! target := if bool_decide (known = "") then resolveNetworkTarget (StackName spec) network else st_ret known in
      let! attachments := attachNetworks spec networks in
      st_ret (if bool_decide (target = "") then attachments else target :: attachments)
  end.
Definition initJobNetworks (spec : Spec) : Run_ (list string) :=
  let networks := networkAliases (jobNetworks (Job spec)) in
  attachNetworks spec (uniqueStrings (match networks with [] => DefaultNetwork spec | _ => networks end)).

Fixpoint objectReferences (resolve : ObjectRef → option ObjectReference)
    (request : string → string → W → Result string ObjectReference * W) (objects : list ObjectRef)
    : Run_ (list ObjectReference) :=
  match objects with
  | [] => st_ret []
  | object :: objects =>
      let! ref := match resolve object with
                  | Some ref => st_ret ref
                  | None => call "" (request (refSource object) (refTarget object)) end in
      let! refs := objectReferences resolve request objects in
      st_ret (ref :: refs)
  end.

Definition buildInitServiceSpec (spec : Spec) (name : string) : Run_ JobService :=
  let job := Job spec in
  let! networks := initJobNetworks spec in
  let! secrets := objectReferences (λ o, resolvedSecretReference o (ResolvedSecrets spec)) ResolveSecret
                    (mergeObjectRefs (ServiceSecrets spec) (jobSecrets job)) in
  let! configs := objectReferences (λ o, resolvedConfigReference o (ResolvedConfigs spec)) ResolveConfig
                    (mergeObjectRefs (ServiceConfigs spec) (jobConfigs job)) in
  st_ret {|
    serviceName := name;
    serviceLabels := {["org.swarm-deploy.init-job.name" := name;
                       "org.swarm-deploy.init-job.stack" := StackName spec;
                       "org.swarm-deploy.init-job.service" := ServiceName spec]};
    containerImage := jobImage job; containerCommand := Entrypoint job; containerArgs := Command job;
    containerEnv := initJobEnvironment (jobEnvironment job); networkAttachments := networks;
    secretReferences := secrets; configReferences := configs |}.

Definition buildInitServiceCreateOptions (image : string) : Run_ CreateOptions :=
  let! auth := call "build init job service create options: " (ResolveImage image) in
  st_ret {| EncodedRegistryAuth := auth; QueryRegistry := negb (bool_decide (auth = "")) |}.

(** ** The wait *)
Definition failureReason (task : JobTask) : string :=
  let reason := trim_space (jobTaskError task) in
  let reason := if bool_decide (reason = "") then trim_space (Message task) else reason in
  if bool_decide (reason = "") then taskStateText (jobTaskState task) else reason.

(** What the tasks of one poll say: [None] to go on. *)
Definition verdict (name : string) (tasks : list JobTask) : option (option jobError) :=
  match sortTasks tasks with
  | [] => None
  | task :: _ =>
      match jobTaskState task with
      | TaskStateComplete => Some None
      | TaskStateFailed | TaskStateRejected | TaskStateShutdown | TaskStateOrphaned | TaskStateRemove =>
          Some (Some (JobFailedError (jobTaskID task) name (failureReason task) []))
      | _ => None
      end
  end.

(** [waitJob]: polls until the verdict or the end of the context; [None] when the fuel is
    used up. *)
Fixpoint waitJob (fuel : nat) (id name : string) : Run_ (option (option jobError)) :=
  match fuel with
  | O => st_ret None
  | S fuel =>
      let! event := ask SelectWait in
      match event with
      | Done e => st_ret (Some (Some (JobFault ("wait init job " +:+ name +:+ ": " +:+ e))))
      | Tick =>
          let! answer := ask (ListTasks id) in
          match answer with
          | Err e => st_ret (Some (Some (JobFault ("inspect init job " +:+ name +:+ " status: " +:+ e))))
          | Ok tasks =>
              do! note (Listed id tasks) in
              match verdict name tasks with
              | Some outcome => st_ret (Some outcome)
              | None => waitJob fuel id name
              end
          end
      end
  end.

Definition loadServiceLogs (id name : string) : Run_ (Result string (string * bool)) :=
  let! cancelled := ask ContextErr in
  match cancelled with
  | Some e => st_ret (Err e)
  | None =>
      let! answer := ask (LogTail id initJobLogLimit) in
      st_ret (match answer with Ok r => Ok r | Err e => Err ("read logs for service " +:+ name +:+ ": " +:+ e) end)
  end.

Definition initJobExecutionStatus (err : option jobError) : JobStatus :=
  match err with None => Succeeded | Some (JobFailedError _ _ _ _) => Failed | Some (JobFault _) => Interrupted end.

Definition initJobDiagnosticLogLines (logs : string) : list string :=
  let text := trim_space logs in
  if bool_decide (text = "") then [] else splitByte "010"%char text.

Definition withLogs (err : option jobError) (logs : Result string (string * bool)) : option jobError :=
  match err, logs with
  | Some (JobFailedError id name reason _), Ok (text, _) =>
      Some (JobFailedError id name reason (initJobDiagnosticLogLines text))
  | _, _ => err
  end.

(** [Run] after the creation: the result and the error. *)
Definition await (fuel : nat) (spec : Spec) (startedAt : Time) (id name : string)
    : Run_ (option (JobResult * option jobError)) :=
  let! waited := waitJob fuel id name in
  match waited with
  | None => st_ret None
  | Some waitErr =>
      let! finishedAt := ask Now in
      let! logs := loadServiceLogs id name in
      let! waitErr := match waitErr with
                      | None => let! cancelled := ask ContextErr in st_ret (option_map JobFault cancelled)
                      | Some e => st_ret (Some e) end in
      st_ret (Some
        ({| resultService := ServiceName spec; resultJob := jobName (Job spec);
            resultStatus := initJobExecutionStatus waitErr; StartedAt := startedAt; FinishedAt := finishedAt;
            Logs := match logs with Ok (text, _) => text | Err _ => "" end;
            LogsAvailable := match logs with Ok _ => true | Err _ => false end;
            LogsTruncated := match logs with Ok (_, truncated) => truncated | Err _ => false end |},
         withLogs waitErr logs))
  end.

(** The timeout of the runner, unless the job has its own. *)
Definition effectiveTimeout (timeout : Duration) (job : InitJob) : Duration :=
  if (0 <? jobTimeout job)%Z then jobTimeout job else timeout.

(** [InitJobRunner.Run] up to the creation of the service. *)
Definition start (timeout : Duration) (spec : Spec) : Run_ (Time * DeleteTask) :=
  if bool_decide (jobImage (Job spec) = "") then st_throw (JobFault "init job image is required")
  else
    do! ask (λ w, ((), WithTimeout (effectiveTimeout timeout (Job spec)) w)) in
    let! named := ask Now in
    let name := BuildName (jobName (Job spec)) (DeploymentQueries.UnixNano named) in
    let! service := buildInitServiceSpec spec name in
    let! options := buildInitServiceCreateOptions (jobImage (Job spec)) in
    let! startedAt := ask Now in
    let! id := call ("create init job service " +:+ name +:+ ": ") (Create service options) in
    do! note (Created service id) in
    st_ret (startedAt, {| deleteServiceID := id; deleteServiceName := name |}).

(** [InitJobRunner.Run]: the result, the error, and the deferred request to delete the
    service; [None] when the fuel is used up. *)
Definition Run (fuel : nat) (timeout : Duration) (spec : Spec) (s : JobState)
    : option (option JobResult * option jobError * option DeleteTask) * JobState :=
  match start timeout spec s with
  | (Err e, s) => (Some (noResult, Some e, None), s)
  | (Ok (startedAt, task), s) =>
      match await fuel spec startedAt (deleteServiceID task) (deleteServiceName task) s with
      | (Ok (Some (execution, err)), s) => (Some (Some execution, err, Some task), s)
      | (_, s) => (None, s)
      end
  end.
End Run.
Arguments JobState W : clear implicits.

(** ** The deletion *)
(** What Docker answers to a removal: [None], or an error by its text. *)
Inductive removeAnswer := Removed | RemoveNotFound | RemoveFault (text : string).
Definition removedOk (a : removeAnswer) : bool := match a with RemoveFault _ => false | _ => true end.

(** [removeServiceWithRetry], by the answers to its attempts: it succeeds with the first
    attempt that does; otherwise it ends after all its attempts, or earlier when its context
    is cancelled. *)
Definition removeServiceWithRetry (cancelled : bool) (answers : list removeAnswer) (ok : bool) : Prop :=
  if ok then ∃ failed a, answers = failed ++ [a] ∧ removedOk a = true ∧
                         Forall (λ a, removedOk a = false) failed ∧ length answers ≤ initJobDeleteRetryAttempts
  else Forall (λ a, removedOk a = false) answers ∧
       (length answers = initJobDeleteRetryAttempts ∨ cancelled = true ∧ length answers < initJobDeleteRetryAttempts).

(** A goroutine that runs a job, from the creation of its service on: waiting for it, removing
    the service itself because the queue is full, or about to wake the worker. *)
Inductive caller := CRunning (t : DeleteTask) | CFallback (t : DeleteTask) | CWake.
(** The delete worker: at its select, with a task, or at the overflow. *)
Inductive worker := WSelect | WRemove (t : DeleteTask) | WOverflow.

(** What happened to a service. *)
Inductive cleanupEvent :=
| Started (t : DeleteTask)
| Attempts (t : DeleteTask) (answers : list removeAnswer)
| Finished (t : DeleteTask) (removed : bool).

(** [deleteTasks], [deleteWake] and [deleteOverflow] of the runner; and the goroutines. *)
Record Cleanup := {
  deleteTasks : list DeleteTask; deleteWake : bool; deleteOverflow : list DeleteTask;
  callers : list caller; deleteWorker : worker; happened : list cleanupEvent;
}.
Definition NewInitJobRunner : Cleanup :=
  {| deleteTasks := []; deleteWake := false; deleteOverflow := []; callers := []; deleteWorker := WSelect;
     happened := [] |}.

Definition withCallers (l : list caller) (s : Cleanup) : Cleanup :=
  {| deleteTasks := deleteTasks s; deleteWake := deleteWake s; deleteOverflow := deleteOverflow s; callers := l;
     deleteWorker := deleteWorker s; happened := happened s |}.
Definition withWorker (w : worker) (s : Cleanup) : Cleanup :=
  {| deleteTasks := deleteTasks s; deleteWake := deleteWake s; deleteOverflow := deleteOverflow s;
     callers := callers s; deleteWorker := w; happened := happened s |}.
Definition withTasks (l : list DeleteTask) (s : Cleanup) : Cleanup :=
  {| deleteTasks := l; deleteWake := deleteWake s; deleteOverflow := deleteOverflow s; callers := callers s;
     deleteWorker := deleteWorker s; happened := happened s |}.
Definition withOverflow (l : list DeleteTask) (s : Cleanup) : Cleanup :=
  {| deleteTasks := deleteTasks s; deleteWake := deleteWake s; deleteOverflow := l; callers := callers s;
     deleteWorker := deleteWorker s; happened := happened s |}.
Definition setWake (b : bool) (s : Cleanup) : Cleanup :=
  {| deleteTasks := deleteTasks s; deleteWake := b; deleteOverflow := deleteOverflow s; callers := callers s;
     deleteWorker := deleteWorker s; happened := happened s |}.
Definition log (l : list cleanupEvent) (s : Cleanup) : Cleanup :=
  {| deleteTasks := deleteTasks s; deleteWake := deleteWake s; deleteOverflow := deleteOverflow s;
     callers := callers s; deleteWorker := deleteWorker s; happened := happened s ++ l |}.

(** [enqueueDeleteTask], the select: the caller between [before] and [after] is done when the
    queue has room. *)
Definition enqueueDeleteTask (before after : list caller) (t : DeleteTask) (s : Cleanup) : Cleanup :=
  if (length (deleteTasks s) <? initJobDeleteTasksBuffer)%nat
  then withCallers (before ++ after) (withTasks (deleteTasks s ++ [t]) s)
  else withCallers (before ++ CFallback t :: after) s.
(** The end of the fallback: a task that was not removed goes to the overflow. *)
Definition endFallback (before after : list caller) (t : DeleteTask) (ok : bool) (s : Cleanup) : Cleanup :=
  if ok then log [Finished t true] (withCallers (before ++ after) s)
  else withOverflow (deleteOverflow s ++ [t]) (withCallers (before ++ CWake :: after) s).
Definition wakeWorker (before after : list caller) (s : Cleanup) : Cleanup :=
  setWake true (withCallers (before ++ after) s).
(** One turn at the overflow. *)
Definition takeOverflow (s : Cleanup) : Cleanup :=
  match deleteOverflow s with
  | [] => withWorker WSelect s
  | t :: l => withWorker (WRemove t) (withOverflow l s)
  end.

(** A step of a caller or of [runDeleteWorker]. The calls of [removeServiceWithRetry] are one
    step each; the worker's has a context that is never cancelled. *)
Inductive quiet_step : Cleanup → Cleanup → Prop :=
| cl_return s before after t :
    callers s = before ++ CRunning t :: after → quiet_step s (enqueueDeleteTask before after t s)
| cl_fallback s before after t cancelled answers ok :
    callers s = before ++ CFallback t :: after → removeServiceWithRetry cancelled answers ok →
    quiet_step s (endFallback before after t ok (log [Attempts t answers] s))
| cl_wake s before after : callers s = before ++ CWake :: after → quiet_step s (wakeWorker before after s)
| cl_receive s t l :
    deleteWorker s = WSelect → deleteTasks s = t :: l → quiet_step s (withWorker (WRemove t) (withTasks l s))
| cl_woken s : deleteWorker s = WSelect → deleteWake s = true → quiet_step s (withWorker WOverflow (setWake false s))
| cl_remove s t answers ok :
    deleteWorker s = WRemove t → removeServiceWithRetry false answers ok →
    quiet_step s (log [Attempts t answers; Finished t ok] (withWorker WOverflow s))
| cl_overflow s : deleteWorker s = WOverflow → quiet_step s (takeOverflow s).

(** A run of a job that has created its service becomes a caller. *)
Definition startJob (t : DeleteTask) (s : Cleanup) : Cleanup :=
  log [Started t] (withCallers (callers s ++ [CRunning t]) s).

Inductive sys_step : Cleanup → Cleanup → Prop :=
| sys_start s t : sys_step s (startJob t s)
| sys_quiet s s' : quiet_step s s' → sys_step s s'.
