(* ===== verification/InitJobsSafety.v ===== *)
(** * What the runner of init jobs promises

    A job succeeds only when Docker reported its task as complete; and every service that a
    job created is removed, or given up after the last attempt, in spite of full queues. *)
From S2P Require Import Prelude GoStrings GoEncoding GoRunes TaskSpecs TaskFailure ResourceReconciler InitJobs.
From Stdlib Require Import Wellfounded.
Local Open Scope go_scope.

(** ** The deletion *)
Definition callerTask (c : caller) : list DeleteTask :=
  match c with CRunning t | CFallback t => [t] | CWake => [] end.
Definition workerTask (w : worker) : list DeleteTask := match w with WRemove t => [t] | _ => [] end.
(** The services that are neither removed nor given up. *)
Definition pendingTasks (s : Cleanup) : list DeleteTask :=
  flat_map callerTask (callers s) ++ deleteTasks s ++ deleteOverflow s ++ workerTask (deleteWorker s).

Definition startedOf (e : cleanupEvent) : list DeleteTask := match e with Started t => [t] | _ => [] end.
Definition finishedOf (e : cleanupEvent) : list DeleteTask := match e with Finished t _ => [t] | _ => [] end.
Definition startedTasks (s : Cleanup) : list DeleteTask := flat_map startedOf (happened s).
Definition finishedTasks (s : Cleanup) : list DeleteTask := flat_map finishedOf (happened s).

(** An end has its attempts. *)
Definition attempted (l : list cleanupEvent) (t : DeleteTask) (ok : bool) : Prop :=
  ∃ answers, Attempts t answers ∈ l ∧ removeServiceWithRetry false answers ok.

(** How often a task occurs. *)
Definition occurs (t : DeleteTask) (l : list DeleteTask) : nat := count_occ DeleteTask_eq_dec l t.
#[local] Arguments occurs : simpl never.
Lemma occurs_app t l k : occurs t (l ++ k) = occurs t l + occurs t k.
Proof. apply count_occ_app. Qed.
Lemma occurs_nil t : occurs t [] = 0.
Proof. done. Qed.
Lemma occurs_perm l k : (∀ t, occurs t l = occurs t k) ↔ l ≡ₚ k.
Proof. symmetry. apply Permutation_count_occ. Qed.

Record accounted (s : Cleanup) : Prop := {
  acc_tasks : ∀ t, occurs t (startedTasks s) = occurs t (finishedTasks s) + occurs t (pendingTasks s);
  acc_attempts : ∀ t answers, Attempts t answers ∈ happened s → Started t ∈ happened s;
  acc_finished : ∀ t ok, Finished t ok ∈ happened s → attempted (happened s) t ok;
  acc_buffer : length (deleteTasks s) ≤ initJobDeleteTasksBuffer;
  acc_wake : deleteOverflow s ≠ [] → deleteWake s = true ∨ deleteWorker s ≠ WSelect ∨ CWake ∈ callers s;
}.

Lemma started_elem l t : Started t ∈ l ↔ t ∈ flat_map startedOf l.
Proof.
  induction l as [|e l IH]; cbn; [by split; intros ?%elem_of_nil|].
  rewrite elem_of_cons, elem_of_app, IH. destruct e; cbn; rewrite ?list_elem_of_singleton, ?elem_of_nil; naive_solver.
Qed.

(** A pending service was started. *)
Lemma pending_started s t : accounted s → t ∈ pendingTasks s → Started t ∈ happened s.
Proof.
  intros Ha Ht. apply started_elem, list_elem_of_In, (count_occ_In DeleteTask_eq_dec).
  apply list_elem_of_In, (count_occ_In DeleteTask_eq_dec) in Ht. pose proof (acc_tasks s Ha t) as Hc.
  unfold occurs, startedTasks in *. lia.
Qed.

Lemma attempts_pending s t answers :
  accounted s → t ∈ pendingTasks s →
  ∀ t' answers', Attempts t' answers' ∈ happened s ++ [Attempts t answers] → Started t' ∈ happened s.
Proof.
  intros Ha Ht t' answers' [Hin|Hin%list_elem_of_singleton]%elem_of_app; [by apply (acc_attempts s Ha t' answers')|].
  injection Hin as -> ->. by apply pending_started.
Qed.

Lemma attempted_app l l' t ok : attempted l t ok → attempted (l ++ l') t ok.
Proof. intros (answers & Hin & Hr). exists answers. split; [|done]. apply elem_of_app. by left. Qed.

Lemma retry_ok cancelled answers : removeServiceWithRetry cancelled answers true → removeServiceWithRetry false answers true.
Proof. done. Qed.

(** The counts of a state whose lists are known. *)
Ltac counts := intros ?; unfold startedTasks, finishedTasks, pendingTasks; cbn [happened callers deleteTasks
    deleteOverflow deleteWorker log withCallers withTasks withOverflow withWorker setWake startJob];
  rewrite ?flat_map_app; cbn [flat_map startedOf finishedOf callerTask workerTask];
  rewrite ?flat_map_app, ?app_nil_r, ?occurs_app; cbn [flat_map callerTask workerTask].

Lemma start_accounted s t : accounted s → accounted (startJob t s).
Proof.
  intros Ha. pose proof (acc_tasks s Ha) as Hc. constructor.
  - unfold startedTasks, finishedTasks, pendingTasks in Hc. unfold startJob. counts.
    specialize (Hc t0). rewrite !occurs_app in Hc. cbn [app]. lia.
  - intros t' answers [Hin|Hin%list_elem_of_singleton]%elem_of_app; [|done].
    apply elem_of_app. left. by apply (acc_attempts s Ha t' answers).
  - intros t' ok [Hin|Hin%list_elem_of_singleton]%elem_of_app; [|done]. apply attempted_app. by apply (acc_finished s Ha).
  - apply (acc_buffer s Ha).
  - intros Ho. destruct (acc_wake s Ha Ho) as [?|[?|Hw]]; [by left|by right; left|right; right].
    apply elem_of_app. by left.
Qed.

(** A step that neither starts nor ends anything, and moves tasks only. *)
Lemma moved_accounted s s' :
  accounted s → happened s' = happened s → (∀ t, occurs t (pendingTasks s') = occurs t (pendingTasks s)) →
  length (deleteTasks s') ≤ initJobDeleteTasksBuffer →
  (deleteOverflow s' ≠ [] → deleteWake s' = true ∨ deleteWorker s' ≠ WSelect ∨ CWake ∈ callers s') → accounted s'.
Proof.
  intros Ha Hh Hp Hb Hw. constructor; try done; unfold startedTasks, finishedTasks; rewrite Hh; try apply Ha.
  intros t. rewrite Hp. apply (acc_tasks s Ha).
Qed.

(** The attempts of a pending service, and its end. *)
Lemma attempted_accounted s s' t answers (ends : list bool) :
  accounted s → t ∈ pendingTasks s → happened s' = happened s ++ Attempts t answers :: map (Finished t) ends →
  (∀ ok, ok ∈ ends → removeServiceWithRetry false answers ok) →
  (∀ t', occurs t' (pendingTasks s) = occurs t' (pendingTasks s') + occurs t' (map (λ _, t) ends)) →
  length (deleteTasks s') ≤ initJobDeleteTasksBuffer →
  (deleteOverflow s' ≠ [] → deleteWake s' = true ∨ deleteWorker s' ≠ WSelect ∨ CWake ∈ callers s') → accounted s'.
Proof.
  intros Ha Ht Hh Hends Hp Hb Hw.
  assert (flat_map startedOf (map (Finished t) ends) = [] ∧
          flat_map finishedOf (map (Finished t) ends) = map (λ _, t) ends) as [Hs Hf].
  { clear. induction ends as [|ok ends [IHs IHf]]; [done|]. cbn. by rewrite IHs, IHf. }
  constructor; try done.
  - intros t'. unfold startedTasks, finishedTasks. rewrite Hh, !flat_map_app. cbn [flat_map startedOf finishedOf].
    rewrite Hs, Hf. cbn [app]. rewrite !occurs_app. pose proof (acc_tasks s Ha t') as Hc. rewrite Hp in Hc.
    unfold startedTasks, finishedTasks in Hc. rewrite ?occurs_nil. lia.
  - rewrite Hh. intros t' answers' [Hin|[[= -> ->]|Hin]%elem_of_cons]%elem_of_app; apply elem_of_app; left.
    + by apply (acc_attempts s Ha t' answers').
    + by apply pending_started.
    + by apply list_elem_of_fmap in Hin as (ok & ? & _).
  - rewrite Hh. intros t' ok [Hin|[?|Hin]%elem_of_cons]%elem_of_app; [apply attempted_app; by apply (acc_finished s Ha)|done|].
    apply list_elem_of_fmap in Hin as (ok' & [= -> ->] & Hok). exists answers. split; [|by apply Hends].
    apply elem_of_app. right. left.
Qed.

Lemma split_tasks before c after :
  flat_map callerTask (before ++ c :: after) = flat_map callerTask before ++ callerTask c ++ flat_map callerTask after.
Proof. by rewrite flat_map_app. Qed.

Ltac tasks := try intros ?; unfold pendingTasks; cbn [callers deleteTasks deleteOverflow deleteWorker happened log
    withCallers withTasks withOverflow withWorker setWake];
  rewrite ?flat_map_app, ?occurs_app; cbn [flat_map callerTask workerTask map];
  rewrite ?occurs_app, ?occurs_nil; try lia.

Lemma step_accounted s s' : accounted s → quiet_step s s' → accounted s'.
Proof.
  intros Ha Hstep. pose proof (acc_wake s Ha) as Hw. pose proof (acc_buffer s Ha) as Hb.
  destruct Hstep as [s before after t Hc|s before after t cancelled answers ok Hc Hr|s before after Hc|
                     s t l Hwk Hl|s Hwk Hwake|s t answers ok Hwk Hr|s Hwk].
  - unfold enqueueDeleteTask. destruct (Nat.ltb_spec (length (deleteTasks s)) initJobDeleteTasksBuffer).
    + apply (moved_accounted s); try done; cbn.
      * tasks. rewrite Hc. tasks.
      * rewrite length_app. cbn. lia.
      * intros Ho. destruct (Hw Ho) as [?|[?|Hin]]; auto. right; right. rewrite Hc in Hin.
        apply elem_of_app in Hin as [Hin|[[=]|Hin]%elem_of_cons]; apply elem_of_app; auto.
    + apply (moved_accounted s); try done; cbn.
      * tasks. rewrite Hc. tasks.
      * intros Ho. destruct (Hw Ho) as [?|[?|Hin]]; auto. right; right. rewrite Hc in Hin.
        apply elem_of_app in Hin as [Hin|[[=]|Hin]%elem_of_cons]; apply elem_of_app; [by left|right; by right].
  - assert (t ∈ pendingTasks s) as Ht.
    { unfold pendingTasks. rewrite Hc, split_tasks. set_solver. }
    apply (attempted_accounted s _ t answers (if ok then [true] else [])); try done.
    + unfold endFallback. destruct ok; cbn; by rewrite <- ?app_assoc.
    + intros ok' Hok. destruct ok; [|by apply elem_of_nil in Hok]. by apply list_elem_of_singleton in Hok as ->.
    + unfold endFallback. destruct ok; cbn [log]; tasks; rewrite Hc; tasks.
    + unfold endFallback. by destruct ok.
    + unfold endFallback. destruct ok; cbn; intros Ho.
      * destruct (Hw Ho) as [?|[?|Hin]]; auto. right; right. rewrite Hc in Hin.
        apply elem_of_app in Hin as [Hin|[[=]|Hin]%elem_of_cons]; apply elem_of_app; auto.
      * right; right. apply elem_of_app. right. left.
  - apply (moved_accounted s); try done; cbn; [|by auto]. tasks. rewrite Hc. tasks.
  - apply (moved_accounted s); try done; cbn; [|rewrite Hl in Hb; cbn in Hb; lia|by auto].
    tasks. rewrite Hl, Hwk. change (t :: l) with ([t] ++ l). tasks.
  - apply (moved_accounted s); try done; cbn; [|by auto]. tasks. rewrite Hwk. tasks.
  - assert (t ∈ pendingTasks s) as Ht.
    { unfold pendingTasks. rewrite Hwk. cbn. set_solver. }
    apply (attempted_accounted s _ t answers [ok]); try done.
    + by intros ok' ->%list_elem_of_singleton.
    + tasks. rewrite Hwk. tasks.
    + intros _. by right; left.
  - unfold takeOverflow. destruct (deleteOverflow s) as [|t l] eqn:Ho.
    + apply (moved_accounted s); try done; cbn; try (by rewrite Ho). tasks. rewrite Hwk. tasks.
    + apply (moved_accounted s); try done; cbn; [|by auto].
      tasks. rewrite Ho, Hwk. change (t :: l) with ([t] ++ l). tasks.
Qed.

Lemma reachable_accounted s : rtc sys_step NewInitJobRunner s → accounted s.
Proof.
  revert s. apply (rtc_ind_r (R := sys_step) accounted NewInitJobRunner).
  - constructor; cbn; try lia; try done; by intros ? ? ?%elem_of_nil.
  - intros s s' _ Hstep Ha. destruct Hstep as [s t|s s' Hq]; [by apply start_accounted|by eapply step_accounted].
Qed.

(** Every step without a new job comes closer to the end. *)
Definition callerWeight (c : caller) : nat := match c with CRunning _ => 9 | CFallback _ => 8 | CWake => 4 end.
Definition workerWeight (w : worker) : nat := match w with WSelect => 0 | WRemove _ => 2 | WOverflow => 1 end.
Definition weight (s : Cleanup) : nat :=
  sum_list_with callerWeight (callers s) + 3 * length (deleteTasks s) + 3 * length (deleteOverflow s) +
  workerWeight (deleteWorker s) + (if deleteWake s then 2 else 0).

Lemma quiet_weight s s' : quiet_step s s' → weight s' < weight s.
Proof.
  unfold weight. intros Hstep.
  destruct Hstep as [s before after t Hc|s before after t cancelled answers ok Hc Hr|s before after Hc|
                     s t l Hwk Hl|s Hwk Hwake|s t answers ok Hwk Hr|s Hwk].
  - rewrite Hc. unfold enqueueDeleteTask. destruct (_ <? _)%nat; cbn; rewrite !sum_list_with_app; cbn;
      rewrite ?length_app; cbn; lia.
  - rewrite Hc. unfold endFallback. destruct ok; cbn; rewrite !sum_list_with_app; cbn; rewrite ?length_app; cbn; lia.
  - rewrite Hc. cbn. rewrite !sum_list_with_app. cbn. destruct (deleteWake s); lia.
  - rewrite Hl, Hwk. cbn. lia.
  - rewrite Hwk, Hwake. cbn. lia.
  - rewrite Hwk. cbn. lia.
  - rewrite Hwk. unfold takeOverflow. destruct (deleteOverflow s) eqn:Ho; cbn; rewrite ?Ho; cbn; lia.
Qed.

Lemma quiet_terminates s : Acc (flip quiet_step) s.
Proof.
  apply (Wf_nat.induction_ltof1 _ weight (Acc (flip quiet_step))). intros x IH. constructor. intros y Hy.
  by apply IH, quiet_weight.
Qed.

Lemma removal_succeeds : removeServiceWithRetry false [Removed] true.
Proof. exists [], Removed. split_and!; [done|done|constructor|cbn; unfold initJobDeleteRetryAttempts; lia]. Qed.

(** Where no step is left nothing is pending. *)
Lemma stuck_done s : accounted s → (∀ s', ¬ quiet_step s s') → pendingTasks s = [].
Proof.
  intros Ha Hstuck. assert (callers s = []) as Hc.
  { destruct (callers s) as [|c l] eqn:Hc; [done|]. exfalso. destruct c as [t|t|].
    - by eapply Hstuck, (cl_return s [] l).
    - eapply Hstuck, (cl_fallback s [] l); [exact Hc|exact removal_succeeds].
    - by eapply Hstuck, (cl_wake s [] l). }
  assert (deleteWorker s = WSelect) as Hwk.
  { destruct (deleteWorker s) eqn:Hwk; [done|exfalso..].
    - eapply Hstuck, cl_remove; [exact Hwk|exact removal_succeeds].
    - by eapply Hstuck, cl_overflow. }
  assert (deleteTasks s = []) as Hl.
  { destruct (deleteTasks s) eqn:Hl; [done|]. exfalso. by eapply Hstuck, cl_receive. }
  assert (deleteOverflow s = []) as Ho.
  { destruct (deleteOverflow s) as [|t l] eqn:Ho; [done|]. exfalso.
    destruct (acc_wake s Ha) as [Hwake|[Hno|Hin]]; [by rewrite Ho|by eapply Hstuck, cl_woken|done|].
    rewrite Hc in Hin. by apply elem_of_nil in Hin. }
  unfold pendingTasks. by rewrite Hc, Hl, Ho, Hwk.
Qed.

Lemma quiet_started s s' : quiet_step s s' → startedTasks s' = startedTasks s.
Proof.
  unfold startedTasks. intros [s0 before after t Hc|s0 before after t cancelled answers ok Hc Hr|s0 before after Hc|
    s0 t l Hwk Hl|s0 Hwk Hwake|s0 t answers ok Hwk Hr|s0 Hwk].
  - unfold enqueueDeleteTask. by destruct (_ <? _)%nat.
  - unfold endFallback. destruct ok; cbn; rewrite ?flat_map_app; cbn; by rewrite ?app_nil_r.
  - done.
  - done.
  - done.
  - cbn. rewrite ?flat_map_app. cbn. by rewrite ?app_nil_r.
  - unfold takeOverflow. by destruct (deleteOverflow _).
Qed.

(** C26. Services of init jobs do not stay behind. For every number of concurrent jobs, with
    full queues, cancelled contexts and failing removals: at any time the services
    that jobs have created are exactly those that are finished and those that some goroutine
    or queue still has; a finished one was removed, or not after five failed attempts of a
    removal that nothing cancels; only services of jobs are removed; and when no new job
    starts, the deletion ends, with every created service finished, each as often as it was
    created. *)
Theorem init_job_services_are_removed s (Hreach : rtc sys_step NewInitJobRunner s) :
  startedTasks s ≡ₚ finishedTasks s ++ pendingTasks s ∧
  (∀ t ok, Finished t ok ∈ happened s → ∃ answers, Attempts t answers ∈ happened s ∧
     if ok : bool then ∃ a, last answers = Some a ∧ removedOk a = true
     else length answers = initJobDeleteRetryAttempts ∧ Forall (λ a, removedOk a = false) answers) ∧
  (∀ t answers, Attempts t answers ∈ happened s → Started t ∈ happened s) ∧
  Acc (flip quiet_step) s ∧
  ∀ s', rtc quiet_step s s' → (∀ s'', ¬ quiet_step s' s'') →
    startedTasks s' ≡ₚ finishedTasks s' ∧ startedTasks s' = startedTasks s.
Proof.
  pose proof (reachable_accounted s Hreach) as Ha. split; [|split; [|split; [|split]]].
  - apply occurs_perm. intros t. rewrite occurs_app. apply (acc_tasks s Ha).
  - intros t ok Hf. destruct (acc_finished s Ha t ok Hf) as (answers & Hin & Hr). exists answers. split; [done|].
    destruct ok; cbn in Hr.
    + destruct Hr as (failed & a & -> & Hok & _). exists a. by rewrite last_snoc.
    + by destruct Hr as [Hall [Hlen|[? _]]].
  - apply (acc_attempts s Ha).
  - apply quiet_terminates.
  - intros s' Hrun Hstuck.
    assert (accounted s' ∧ startedTasks s' = startedTasks s) as [Ha' Hsame].
    { clear Hstuck. induction Hrun as [s|s s1 s' Hstep Hrun IH]; [done|].
      destruct IH as [Ha' Hs']; [by eapply rtc_r; [|apply sys_quiet]|by eapply step_accounted|].
      split; [done|]. rewrite Hs'. by apply quiet_started. }
    split; [|done]. apply occurs_perm. intros t. rewrite (acc_tasks s' Ha' t), (stuck_done s' Ha' Hstuck).
    rewrite occurs_nil. lia.
Qed.

(** ** A run *)
(** The context of the wait has a deadline, and the tasks are sorted. *)
Class JobEnvironmentLaws (W : Type) `{JobEnvironment W} := {
  remaining : W → nat;
  remaining_tick w w' : SelectWait w = (Tick, w') → remaining w' < remaining w;
  remaining_list id w : remaining (ListTasks id w).2 ≤ remaining w;
  sort_perm l : sortTasks l ≡ₚ l;
  sort_newest l t l' : sortTasks l = t :: l' → ∀ t', t' ∈ l' → (jobTaskUpdatedAt t' ≤ jobTaskUpdatedAt t)%Z;
}.

Section Run.
Context {W : Type} `{JobEnvironmentLaws W}.
Implicit Types (s : JobState W).

(** A computation that does nothing with a service. *)
Definition silent {A} (m : St (JobState W) jobError A) : Prop := ∀ s, calls (m s).2 = calls s.

Lemma silent_ret {A} (a : A) : silent (st_ret a).
Proof. done. Qed.
Lemma silent_throw {A} e : silent (A := A) (st_throw e).
Proof. done. Qed.
Lemma silent_call {A} prefix (f : W → Result string A * W) : silent (call prefix f).
Proof. intros s. unfold call. by destruct (f (world s)) as [[]]. Qed.
Lemma silent_ask {A} (f : W → A * W) : silent (ask f).
Proof. intros s. unfold ask. by destruct (f (world s)). Qed.
Lemma silent_bind {A B} (m : St (JobState W) jobError A) (f : A → St (JobState W) jobError B) :
  silent m → (∀ a, silent (f a)) → silent (st_bind m f).
Proof.
  intros Hm Hf s. unfold st_bind. pose proof (Hm s) as Hs. destruct (m s) as [[a|e] s1]; [|done].
  by rewrite (Hf a s1), <- Hs.
Qed.
Create HintDb silent.
Hint Resolve silent_ret silent_throw silent_call silent_ask silent_bind : silent.
Ltac silent := repeat (intros; eauto with silent; first [apply silent_bind|case_match]); eauto with silent.

Lemma silent_networks network candidates : silent (tryNetworks (W := W) network candidates).
Proof. induction candidates as [|c l IH]; cbn [tryNetworks]; silent. Qed.
Hint Resolve silent_networks : silent.
Lemma silent_attach spec networks : silent (attachNetworks (W := W) spec networks).
Proof. induction networks as [|n l IH]; cbn [attachNetworks]; unfold resolveNetworkTarget; silent. Qed.
Hint Resolve silent_attach : silent.
Lemma silent_references resolve request objects : silent (objectReferences (W := W) resolve request objects).
Proof. induction objects as [|o l IH]; cbn [objectReferences]; silent. Qed.
Hint Resolve silent_references : silent.

Lemma silent_spec spec name : silent (buildInitServiceSpec (W := W) spec name).
Proof. unfold buildInitServiceSpec, initJobNetworks. silent. Qed.
Lemma silent_options image : silent (buildInitServiceCreateOptions (W := W) image).
Proof. unfold buildInitServiceCreateOptions. silent. Qed.
Lemma silent_logs id name : silent (loadServiceLogs (W := W) id name).
Proof. unfold loadServiceLogs. silent. Qed.

Lemma silent_run {A} (m : St (JobState W) jobError A) s r s' : silent m → m s = (r, s') → calls s' = calls s.
Proof. intros Hm Hrun. pose proof (Hm s) as Hs. by rewrite Hrun in Hs. Qed.
Lemma ask_ok {A} (f : W → A * W) s a s' :
  ask f s = (Ok a, s') ↔ f (world s) = (a, world s') ∧ calls s' = calls s.
Proof.
  unfold ask. destruct (f (world s)) as [a0 w]. split; [by intros [= <- <-]|].
  intros [[= -> ->] Hc]. destruct s' as [w' c]. cbn in *. by subst.
Qed.

(** A job is started by the creation of its service, and by nothing else. *)
Lemma buildInitServiceSpec_ok spec name s service s' :
  buildInitServiceSpec spec name s = (Ok service, s') →
  serviceName service = name ∧ containerImage service = jobImage (Job spec).
Proof. unfold buildInitServiceSpec. intros Hrun. st_inv. done. Qed.

Lemma start_spec timeout spec s r s' :
  start timeout spec s = (r, s') →
  match r with
  | Err _ => calls s' = calls s
  | Ok (_, t) => ∃ service, calls s' = calls s ++ [Created service (deleteServiceID t)] ∧
      serviceName service = deleteServiceName t ∧ containerImage service = jobImage (Job spec) ∧
      jobImage (Job spec) ≠ ""
  end.
Proof.
  unfold start. case_bool_decide as Himage; [by intros [= <- <-]|].
  unfold st_bind at 1, ask at 1. set (s0 := {| world := _; calls := calls s |}).
  unfold st_bind at 1. destruct (ask Now s0) as [[named|e] s1] eqn:Hnow;
    [|unfold ask in Hnow; by destruct (Now (world s0))].
  apply ask_ok in Hnow as [_ Hc1]. change (calls s0) with (calls s) in Hc1. unfold st_bind at 1.
  destruct (buildInitServiceSpec _ _ s1) as [[service|e] s2] eqn:Hspec.
  2:{ intros [= <- <-]. apply (silent_run _ _ _ _ (silent_spec _ _)) in Hspec. change (calls s0) with (calls s) in Hc1. congruence. }
  pose proof (buildInitServiceSpec_ok _ _ _ _ _ Hspec) as [Hname Hcont].
  apply (silent_run _ _ _ _ (silent_spec _ _)) in Hspec as Hc2. unfold st_bind at 1.
  destruct (buildInitServiceCreateOptions _ s2) as [[options|e] s3] eqn:Hopt;
    apply (silent_run _ _ _ _ (silent_options _)) in Hopt as Hc3; [|intros [= <- <-]; congruence].
  unfold st_bind at 1. destruct (ask Now s3) as [[startedAt|e] s4] eqn:Hnow;
    [|unfold ask in Hnow; by destruct (Now (world s3))].
  apply ask_ok in Hnow as [_ Hc4]. unfold st_bind at 1.
  destruct (call _ (Create service options) s4) as [[id|e] s5] eqn:Hcreate;
    apply (silent_run _ _ _ _ (silent_call _ _)) in Hcreate as Hc5; [|intros [= <- <-]; congruence].
  unfold st_bind, note, st_modify, st_ret. intros [= <- <-]. cbn. exists service. split_and!; try done. congruence.
Qed.

(** ** The wait *)
Definition newest (tasks : list JobTask) (t : JobTask) : Prop :=
  t ∈ tasks ∧ ∀ t', t' ∈ tasks → (jobTaskUpdatedAt t' ≤ jobTaskUpdatedAt t)%Z.
Definition endedBadly (t : JobTask) : Prop :=
  jobTaskState t ∈ [TaskStateFailed; TaskStateRejected; TaskStateShutdown; TaskStateOrphaned; TaskStateRemove].

Lemma verdict_spec name tasks :
  match verdict (W := W) name tasks with
  | None => True
  | Some None => ∃ t, newest tasks t ∧ jobTaskState t = TaskStateComplete
  | Some (Some e) => ∃ t, newest tasks t ∧ endedBadly t ∧ e = JobFailedError (jobTaskID t) name (failureReason t) []
  end.
Proof.
  unfold verdict. pose proof (sort_perm tasks) as Hp. pose proof (sort_newest tasks) as Hn.
  destruct (sortTasks tasks) as [|t l]; [done|].
  assert (newest tasks t) as Ht.
  { split; [rewrite <- Hp; left|]. intros t' Hin. rewrite <- Hp in Hin. apply elem_of_cons in Hin as [->|Hin]; [lia|].
    by apply (Hn t l). }
  unfold endedBadly. destruct (jobTaskState t) eqn:Hst; try done; exists t; split_and!; try done; rewrite Hst; set_solver.
Qed.

Lemma listed_one id p s : calls s ++ [Listed id p] = calls s ++ map (Listed id) [p].
Proof. done. Qed.

Lemma waitJob_spec fuel id name s outcome s' :
  waitJob fuel id name s = (Ok (Some outcome), s') →
  ∃ polls, calls s' = calls s ++ map (Listed id) polls ∧
    Forall (λ p, verdict (W := W) name p = None) (removelast polls) ∧
    match outcome with
    | Some (JobFault _) => True
    | _ => ∃ p, last polls = Some p ∧ verdict (W := W) name p = Some outcome
    end.
Proof.
  revert s. induction fuel as [|fuel IH]; intros s Hrun; [done|]. cbn [waitJob] in Hrun.
  apply st_bind_ok in Hrun as (event & s1 & Hsel & Hrun). apply ask_ok in Hsel as [_ Hc1].
  destruct event as [e|].
  { injection Hrun as <- <-. exists []. cbn. by rewrite app_nil_r. }
  apply st_bind_ok in Hrun as (answer & s2 & Hlist & Hrun). apply ask_ok in Hlist as [_ Hc2].
  destruct answer as [tasks|e].
  2:{ injection Hrun as <- <-. exists []. cbn. rewrite app_nil_r. split; [congruence|done]. }
  apply st_bind_ok in Hrun as ([] & s3 & Hnote & Hrun). injection Hnote as <-.
  destruct (verdict (W := W) name tasks) as [o|] eqn:Hv.
  - injection Hrun as -> <-. exists [tasks]. cbn. split; [congruence|]. split; [constructor|].
    destruct outcome as [[| ]|]; try done; by exists tasks.
  - apply IH in Hrun as (polls & Hc & Hall & Hlast). cbn in Hc. exists (tasks :: polls). split; [|split].
    + rewrite Hc, Hc2, Hc1. cbn. by rewrite <- app_assoc.
    + destruct polls; [constructor|]. by constructor.
    + destruct outcome as [[| ]|]; try done; destruct Hlast as (p & Hp & Hvp); exists p; (split; [|done]);
        by destruct polls.
Qed.

Lemma waitJob_ends fuel id name s :
  remaining (world s) < fuel → ∃ outcome s', waitJob fuel id name s = (Ok (Some outcome), s').
Proof.
  revert s. induction fuel as [|fuel IH]; intros s Hf; [lia|]. cbn [waitJob].
  unfold st_bind at 1, ask at 1. destruct (SelectWait (world s)) as [[e|] w1] eqn:Hsel; [by eexists _, _|].
  apply remaining_tick in Hsel. unfold st_bind at 1, ask at 1. cbn [world].
  pose proof (remaining_list id w1) as Hle. destruct (ListTasks id w1) as [[tasks|e] w2]; [|by eexists _, _].
  unfold st_bind, note, st_modify. destruct (verdict name tasks) as [o|]; [by eexists _, _|].
  apply IH. cbn in *. lia.
Qed.

Lemma failureReason_named t : endedBadly t → failureReason t ≠ "".
Proof.
  unfold failureReason, endedBadly. intros Hst. cbv zeta. repeat case_bool_decide; try done.
  rewrite !elem_of_cons, elem_of_nil in Hst. by destruct Hst as [->|[->|[->|[->|[->|[]]]]]].
Qed.

Lemma await_spec fuel spec startedAt id name s execution err s' :
  await fuel spec startedAt id name s = (Ok (Some (execution, err)), s') →
  ∃ outcome s1, waitJob fuel id name s = (Ok (Some outcome), s1) ∧ calls s' = calls s1 ∧
    resultService execution = ServiceName spec ∧ resultJob execution = jobName (Job spec) ∧
    resultStatus execution = initJobExecutionStatus err ∧
    match outcome with
    | Some (JobFailedError i n reason l) =>
        err = Some (JobFailedError i n reason
                (if LogsAvailable execution then initJobDiagnosticLogLines (Logs execution) else l))
    | Some (JobFault e) => err = Some (JobFault e)
    | None => err = None ∨ ∃ e, err = Some (JobFault e)
    end.
Proof.
  unfold await. intros Hrun. apply st_bind_ok in Hrun as (waited & s1 & Hwait & Hrun).
  destruct waited as [outcome|]; [|done]. apply st_bind_ok in Hrun as (finishedAt & s2 & Hnow & Hrun).
  apply ask_ok in Hnow as [_ Hc2]. apply st_bind_ok in Hrun as (logs & s3 & Hlogs & Hrun).
  apply (silent_run _ _ _ _ (silent_logs _ _)) in Hlogs as Hc3.
  apply st_bind_ok in Hrun as (waitErr & s4 & Herr & Hrun). injection Hrun as <- <- <-.
  exists outcome, s1. split; [done|]. cbn [resultService resultJob resultStatus LogsAvailable Logs].
  assert (calls s4 = calls s3) as Hc4.
  { destruct outcome; [by injection Herr as _ <-|]. apply st_bind_ok in Herr as (c & s5 & Hask & Herr).
    apply ask_ok in Hask as [_ Hc]. by injection Herr as _ <-. }
  split; [congruence|]. split; [done|]. split; [done|].
  destruct outcome as [e|].
  - injection Herr as <- <-. destruct e as [i n reason l|e].
    + split; by destruct logs as [[]|].
    + by split.
  - apply st_bind_ok in Herr as (c & s5 & Hask & Herr). injection Herr as <- <-. destruct c as [e|]; cbn; eauto.
Qed.

(** The wait and what follows it answer. *)
Definition answers {A} (m : St (JobState W) jobError A) : Prop := ∀ s, ∃ a s', m s = (Ok a, s').

Lemma answers_ret {A} (a : A) : answers (st_ret a).
Proof. intros s. by exists a, s. Qed.
Lemma answers_ask {A} (f : W → A * W) : answers (ask f).
Proof. intros s. unfold ask. destruct (f (world s)) as [a w]. by eexists _, _. Qed.
Lemma answers_note c : answers (note (W := W) c).
Proof. intros s. by eexists _, _. Qed.
Lemma answers_bind {A B} (m : St (JobState W) jobError A) (f : A → St (JobState W) jobError B) :
  answers m → (∀ a, answers (f a)) → answers (st_bind m f).
Proof. intros Hm Hf s. unfold st_bind. destruct (Hm s) as (a & s' & ->). apply Hf. Qed.
Hint Resolve answers_ret answers_ask answers_note answers_bind : silent.
Ltac answers := repeat (intros; eauto with silent; first [apply answers_bind|case_match]); eauto with silent.

Lemma waitJob_answers fuel id name : answers (waitJob (W := W) fuel id name).
Proof. induction fuel as [|fuel IH]; cbn [waitJob]; answers. Qed.

Lemma await_total fuel spec startedAt id name s :
  (∃ x s', await fuel spec startedAt id name s = (Ok (Some x), s')) ∨
  (fuel ≤ remaining (world s) ∧ ∃ s', await fuel spec startedAt id name s = (Ok None, s')).
Proof.
  unfold await. destruct (waitJob_answers fuel id name s) as ([outcome|] & s1 & Hwait); unfold st_bind at 1; rewrite Hwait.
  - left. unshelve epose proof (_ : answers (λ s, (let! finishedAt := ask Now in
      let! logs := loadServiceLogs id name in
      let! waitErr := match outcome with
                      | None => let! cancelled := ask ContextErr in st_ret (option_map JobFault cancelled)
                      | Some e => st_ret (Some e) end in
      st_ret (finishedAt, logs, waitErr)) s)) as Ha; [unfold loadServiceLogs; answers|].
    destruct (Ha s1) as ([[finishedAt logs] waitErr] & s2 & Hrun).
    apply st_bind_ok in Hrun as (a & s3 & H1 & Hrun). apply st_bind_ok in Hrun as (b & s4 & H2 & Hrun).
    apply st_bind_ok in Hrun as (c & s5 & H3 & Hrun). injection Hrun as -> -> -> ->.
    unfold st_bind at 1. rewrite H1. unfold st_bind at 1. rewrite H2. unfold st_bind at 1. rewrite H3. by eexists _, _.
  - right. split; [|exists s1; unfold st_bind at 1; by rewrite Hwait]. apply Nat.nlt_ge. intros Hf.
    destruct (waitJob_ends fuel id name s Hf) as (o & s2 & Hw). congruence.
Qed.

End Run.

Module InitJobsExample.
Definition later (t u : JobTask) : Prop := (jobTaskUpdatedAt u ≤ jobTaskUpdatedAt t)%Z.
#[local] Instance later_dec t u : Decision (later t u).
Proof. unfold later. apply _. Defined.
#[local] Instance later_total : Total later.
Proof. intros t u. unfold later. lia. Qed.
#[local] Instance later_trans : Transitive later.
Proof. intros t u v. unfold later. lia. Qed.

Definition task (id : string) (updated : Time) (state : TaskState) : JobTask :=
  {| jobTaskID := id; jobTaskUpdatedAt := updated; jobTaskState := state; jobTaskError := ""; Message := " boom " |}.

(** The number of polls before the deadline; with the last state of the task. *)
Definition polls (state : TaskState) (n : nat) : list JobTask :=
  match n with
  | 3 => [] | 2 => [task "t1" 5 TaskStateRunning]
  | _ => [task "t0" 4 TaskStateRejected; task "t1" 9 state]
  end.
Definition environmentOf (state : TaskState) : JobEnvironment nat := {|
  Create _ _ n := (Ok "s1", n); ListTasks _ n := (Ok (polls state n), n);
  LogTail _ _ n := (Ok ("one" +:+ String "010"%char "two", false), n); GetNetwork name n := (Ok ("net-" +:+ name), n);
  ResolveSecret _ _ n := (Err "no secret", n); ResolveConfig _ _ n := (Err "no config", n);
  ResolveImage _ n := (Ok "", n); WithTimeout d _ := Z.to_nat d;
  SelectWait n := match n with O => (Done "deadline exceeded", O) | S n => (Tick, n) end;
  ContextErr n := (None, n); Now n := (DeploymentQueries.unixEpoch, n); sortTasks := merge_sort later;
|}.
#[local] Instance lawsOf state : @JobEnvironmentLaws nat (environmentOf state).
Proof.
  refine {| remaining := (id : nat → nat) : _ |}; cbn.
  - intros [|n] n'; cbn; [done|]. intros [= <-]. unfold id. lia.
  - intros _ n. unfold id. lia.
  - intros l. apply merge_sort_Permutation.
  - intros l t l' Hs t' Ht'.
    assert (StronglySorted later (t :: l')) as Hss.
    { rewrite <- Hs. apply (StronglySorted_merge_sort later). }
    apply StronglySorted_inv in Hss as [_ Hall]. rewrite Forall_forall in Hall. by apply (Hall t').
Qed.

Definition migrate : Spec :=
  {| StackName := "shop"; ServiceName := "api"; DefaultNetwork := ["shop_default"]; NetworkTargets := ∅;
     ServiceSecrets := []; ServiceConfigs := []; ResolvedSecrets := ∅; ResolvedConfigs := ∅;
     Job := {| jobName := "-DB Migrate!"; jobImage := "migrate:1"; Entrypoint := []; Command := ["up"];
               jobEnvironment := [("LEVEL", "1")]; jobNetworks := None; jobSecrets := []; jobConfigs := [];
               jobTimeout := 0 |} |}.

Example names : map sanitizeForName ["-DB Migrate!"; "--"; "a_b"] = ["db-migrate"; "job"; "a-b"].
Proof. vm_compute. reflexivity. Qed.

Example failing_job :
  (Run (H := environmentOf TaskStateFailed) 5 4 migrate {| world := 0; calls := [] |}).1 =
  Some (Some {| resultService := "api"; resultJob := "-DB Migrate!"; resultStatus := Failed;
                StartedAt := DeploymentQueries.unixEpoch; FinishedAt := DeploymentQueries.unixEpoch;
                Logs := "one" +:+ String "010"%char "two"; LogsAvailable := true; LogsTruncated := false |},
        Some (JobFailedError "t1" "db-migrate-0" "boom" ["one"; "two"]),
        Some {| deleteServiceID := "s1"; deleteServiceName := "db-migrate-0" |}).
Proof. vm_compute. reflexivity. Qed.

Definition job (id : string) : DeleteTask := {| deleteServiceID := id; deleteServiceName := id |}.
(** Two jobs; the first removal is refused once. *)
Definition s1 : Cleanup := startJob (job "b") (startJob (job "a") NewInitJobRunner).
Definition s2 : Cleanup := enqueueDeleteTask [] [CRunning (job "b")] (job "a") s1.
Definition s3 : Cleanup := withWorker (WRemove (job "a")) (withTasks [] s2).
Definition s4 : Cleanup :=
  log [Attempts (job "a") [RemoveFault "busy"; RemoveNotFound]; Finished (job "a") true] (withWorker WOverflow s3).

Lemma s4_reachable : rtc sys_step NewInitJobRunner s4.
Proof.
  eapply rtc_l; [apply (sys_start _ (job "a"))|]. eapply rtc_l; [apply (sys_start _ (job "b"))|].
  eapply rtc_l; [apply sys_quiet, (cl_return s1 [] [CRunning (job "b")]); reflexivity|].
  eapply rtc_l; [apply sys_quiet, (cl_receive s2 (job "a") []); reflexivity|].
  eapply rtc_l; [apply sys_quiet, (cl_remove s3 (job "a") [RemoveFault "busy"; RemoveNotFound] true); [reflexivity|]|].
  - exists [RemoveFault "busy"], RemoveNotFound. split_and!; [done|done|by repeat constructor|].
    cbn. unfold initJobDeleteRetryAttempts. lia.
  - apply rtc_refl.
Qed.

Lemma init_job_services_are_removed_witness :
  startedTasks s4 ≡ₚ finishedTasks s4 ++ pendingTasks s4 ∧
  finishedTasks s4 = [job "a"] ∧ pendingTasks s4 = [job "b"].
Proof.
  split; [exact (proj1 (init_job_services_are_removed s4 s4_reachable))|]. split; reflexivity.
Defined.

End InitJobsExample.
